(* ===== verification/_CoqProject ===== *)
-Q . S2P
Prelude.v
Errors.v
Utf8.v
Types.v
QValue.v
QGrammar.v
QValueFacts.v
QValueTotal.v
QValueSpec.v
Compress.v
CompressFacts.v
CompressRoundtrip.v
CompressSpec.v
Framing.v
FramingFacts.v
FramingSpec.v
ListScan.v
ListScanFacts.v
ListScanSpec.v
Text.v
Value.v
AnyValue.v
WireText.v
Serialize.v
Float64.v
Deserialize.v
SerializeFacts.v
DeserializeFacts.v
Sample.v
SerdeSpec.v
AnyValueSpec.v
Arrow.v
Polars.v
SeriesWrite.v
SeriesRead.v
SeriesFacts.v
SymbolSpec.v
SeriesFormat.v
SeriesWriteFacts.v
SeriesWriteSpec.v
SeriesSizeSpec.v
NestedCharSpec.v
SeriesReadFacts.v
NestedReadFacts.v
SeriesReadSpec.v
CharRowsSpec.v
SamplePolars.v
SeriesReadEnds.v
SeriesCodec.v
SeriesRoundtrip.v
SeriesExamples.v
Stream.v
Pipeline.v
PipelineFacts.v
StreamFacts.v
Receive.v
ReceiveFacts.v
ReceiveSpec.v
Aborting.v
Connector.v
ConnectorFacts.v
ConnectorSpec.v
Io.v
IoFacts.v
IoSpec.v
Binding.v
Native.v
JsSnapshot.v
WorkerOptions.v
Worker.v
WorkerTokens.v
WorkerSafe.v
NativeSpec.v
SnapshotSpec.v
Utility.v
WorkerSpec.v
WorkerEnds.v
WorkerExamples.v
Python.v
PythonSpec.v
