(* ===== verification/Prelude.v ===== *)
(** * xqdb: a verified model of the q/kdb+ connector

    The program moves values between Rust and q processes.  A q process speaks IPC:
    frames of an eight-byte header and a body that serializes one value, possibly
    compressed.  The core crate ([crates/xqdb/src/]) has the value container, the
    codecs, the framing, the connection and the readers of files; the bindings
    ([bindings/napi-xqdb/src/], [py-xqdb/src/]) wrap it for Node and Python.  The model
    follows the code function by function, under the code's own names where they are
    free.

    ** Layout

    - [Prelude] (this file): outcomes, machine integers, byte slices, the allocator,
      and the lemmas and automation the other files share.  [Errors] is [errors.rs],
      [Utf8] the UTF-8 routines of the standard library, [Types] the constants,
      operators and message kinds of [types.rs].
    - [QValue] ([qvalue.rs]): the validator and the constructors of lossless values.
      [QGrammar] is their abstract specification, a tree and its encoding;
      [QValueFacts], [QValueTotal], [QValueSpec] prove that the validator accepts exactly
      the encodings of well-formed trees, always returns, and ends each value where it
      ends ([values_split]), and that the constructors build valid values.
    - [Compress] ([compress], [decompress] of [serde6.rs]): [CompressFacts],
      [CompressRoundtrip], [CompressSpec] prove totality, the size
      bounds and that decompression undoes compression.
    - [ListScan] ([ListScan], [calculate_array_end_index]): [ListScanFacts] and
      [ListScanSpec] prove that scanning a list in pieces is scanning it at once, inside
      the frame.
    - [Text], [Value], [AnyValue], [WireText], [Serialize], [Float64], [Deserialize]
      ([K] in [types.rs], the value codec in [serde6.rs]): [SerializeFacts],
      [DeserializeFacts], [SerdeSpec], [AnyValueSpec] prove that announced sizes are
      written sizes, that what is written of the values that are plain on the wire is read
      back, that reading always returns, and that single values of Polars are converted to
      what they say ([any_value_exact]).
      [Sample] holds concrete instances of the parameters, for evaluation.
    - [Arrow], [Polars], [SeriesWrite], [SeriesRead] ([serialize_series_into],
      [deserialize_series] and their helpers in [serde6.rs], [get_series_len] in
      [types.rs]): a single column.  [SeriesFormat] is the wire format of a column, row by
      row; [SeriesFacts], [SeriesWriteFacts], [SeriesWriteSpec] prove
      that the writer writes exactly that, [SeriesSizeSpec] that announced sizes are
      written sizes and which sized columns are not written, [SymbolSpec] that the symbol caches are invisible,
      [NestedCharSpec] that one UTF-8 validation covers all rows.  [SeriesReadFacts],
      [NestedReadFacts], [SeriesReadSpec] prove the reader safe, its columns of the
      declared length and type, [CharRowsSpec] its fast path for char lists invisible but
      for the message of one error, [SeriesReadEnds] that it ends.  [SeriesRoundtrip]
      proves that columns of the exact types are read back.
      [SeriesCodec] makes the codec an instance of [SeriesEncoder] and [SeriesDecoder], so
      that the theorems on values, frames and connections hold with it; [SamplePolars] is a
      concrete Polars and [SeriesExamples] evaluates on it.
    - [Framing] (the framing functions of [connector.rs]): [FramingFacts] and
      [FramingSpec] prove headers exact, the size tests sound and complete, and
      compression invisible to the receiver.
    - [Stream], [Pipeline], [Receive] ([pipeline.rs], [read_ipc_body]): receiving a
      frame from a stream, a large table being decoded by other threads as it arrives.
      [PipelineFacts], [StreamFacts], [ReceiveFacts], [ReceiveSpec] prove
      that the outcome does not depend on how the stream is cut or the threads
      interleave, that every receipt ends, and how much memory it reserves.
    - [Aborting] ([ConnectorAbortHandle], [ActiveIoGuard]): interrupting an
      operation from another thread, for every interleaving.
    - [Connector] ([Connector] of [connector.rs]): [ConnectorFacts], [ConnectorSpec] prove the state invariant over all sequences of
      calls, that requests arrive as they were meant, and that replies and
      notifications are delivered in order.
    - [Io] ([io.rs]): [IoFacts] and [IoSpec] prove which files decompress and
      to what, that table files are read completely within bounded memory, and that a
      generated message reads as its value.
    - [Binding] ([error.rs] and [admission.rs] of the Node binding), [Native] ([dto.rs],
      [arrow.rs]; [Float64] has the numbers of JavaScript): the values the binding exchanges;
      [NativeSpec] proves that the values JavaScript can say come back.  [JsSnapshot] ([dto.rs]) copies
      the objects JavaScript hands over; [SnapshotSpec] proves copies bounded and well
      formed, whatever the engine answers.  [Utility] ([utility.rs]) is the functions
      without a connection.
    - [WorkerOptions], [Worker] ([worker.rs]): a connector on a thread of its own.  Calls
      and worker are programs over shared state whose steps interleave.  [WorkerTokens] is
      the invariant, over the tokens each thread holds, [WorkerSafe] proves that every
      call keeps it, [WorkerSpec] that the worker does and what follows: replies, limits
      and order.  The [History] of placeholders sent, received, taken and refused is no
      state of the code; no step of the model looks at it.  [WorkerEnds] proves that the worker of a dropped connector ends, and
      [WorkerExamples] evaluates runs.
    - [Python] ([connector.rs] and [error.rs] of the Python binding): objects in a heap, the
      conversions between them and values, atoms, options and the calls of a connector.
      [PythonSpec] proves that results without columns are accepted as arguments and come
      back as their image, that arguments end on every heap, and that atoms are valid.

    ** Conventions

    A Rust function that returns [Result] is a function into [outcome]: a value, an error,
    a panic ([Panicked]: an index out of range, an overflow of a checked build, [unwrap] of
    nothing, a failed [debug_assert]), or [OutOfFuel].  Functions with [&mut] arguments
    thread the state through every outcome ([Stream.proc]).  Bytes are integers in [0..256);
    integers are [Z] with their width written out; floats are bit patterns; texts are
    their UTF-8 bytes, messages are strings.  Error messages follow the code, except that
    the [{:?}] rendering of opaque library values is left out.

    ** Fuel

    Loops that are not structural take fuel, and a theorem shows the fuel is enough:
    [value_fuel] is 66 levels, one more than the reader enters before it refuses
    ([deserialize_total]); [depth_fuel] the same for the validator ([validate_total]);
    [scan_fuel], and [S (length vec)] in the compressor, count bytes, one of which every
    round consumes; [stream_size] counts the bytes and events of a stream, and every read
    takes one ([receipt_ends], [read_file_exact]); [S (unread c)] bounds the frames a
    connection still holds ([reply_loop_ends]).
    [snapshot_levels] is 66 levels of JavaScript objects, one more than a copy refuses to
    enter ([snapshot_bounded]); [python_levels] is the same for Python containers
    ([arguments_end]).  The worker has no fuel: it is a step relation, and
    [worker_ends] shows that its steps come to an end; an operation of the connector that
    would run out of fuel blocks it, and those that do not are the subject of
    [receipt_ends] and [reply_loop_ends].

    ** Parameters

    Memory: whether [try_reserve_exact] succeeds is the class [Allocator], asked for the
    elements in addition to those the vector has, and a vector that is reserved has
    exactly the requested capacity.  The chrono calendar ([Chrono], whose types carry their
    own ranges and whose laws [ChronoLaws] speak of its leap seconds apart),
    the network, TLS, the file system, the LZ4 decoder and xxHash are classes of
    operations; what theorems need of them is stated as classes of laws, which [Sample]
    and the witnesses show can hold.  The value codec sees a single series through the
    classes [SeriesEncoder] and [SeriesDecoder], which [SeriesCodec] implements.  Polars and
    Arrow are libraries: [Arrow] has the arrays as their documentation lays them out, with
    the checks of their constructors, and [Polars] is a class of operations with the laws
    [PolarsLaws] (among them that a cast gives a column of the type and the length asked
    for) and [PolarsReturns], which [SamplePolars] shows can hold.  The keys of a
    categorical column are taken as [u32].  What other threads do to a connector
    during a call is two booleans ([Interference]): all that an abort does to the state
    is to take the active operation.  What the threads of the pipeline do is a
    [Schedule].  A failing write keeps a prefix chosen by the connection's [writes].
    Sections under a mutex are atomic steps.  Uuid, date and Arrow functions of the Node
    binding are the class [NativeLibraries] with the laws [NativeLaws]; the JavaScript
    engine is a class [Engine] that answers Node-API calls from a state of its own, with
    the law [EngineLaws] that calls return and strings keep their length; what the worker
    asks ([Environment]: the network, the schedule, the answer to a shutdown; and how long
    it sleeps) is chosen anew at each step.  Python's date and time objects with PyO3's
    conversions are the class [PyTypes] with the laws [PyTypesLaws] and [PyTypesReturns], the
    import of Arrow objects is [ArrowImport], and what runs Python code is [Interpreter].

    ** Not modelled

    PEM parsing and the construction of TLS configurations, and dropping a core connector;
    starting the threads of a native connector and the reaper that joins its worker, the
    objects Node-API makes for results, and the thread pool that runs utility tasks; of the
    Python binding, the Arrow C interface ([arrow.rs]), which moves pointers between PyO3 and
    Arrow, the attributes and representations of its classes, and Python code that changes a
    container while it is converted; categorical columns with keys narrower than [u32];
    tests.  Datetimes in
    milliseconds and columns of lists are written and sized as their format says
    ([series_written], [series_sized]) and read safely ([series_read_total]), but their
    round trip is not stated: the first goes through a float of days, the second reads
    q's infinities differently from a flat column. *)

From stdpp Require Import prelude strings.
From Stdlib Require Import ZArith Lia ZifyBool DecimalString.

#[global] Open Scope Z_scope.

(** ** Outcomes of Rust computations

    [outcome E A] is what running a Rust function of type [Result<A, E>] can
    produce: a value, an error value, a panic (slice indexing out of range,
    arithmetic overflow in a checked build, [expect] on [None]), or
    [OutOfFuel] when a loop of the model was given too little fuel. *)

Inductive outcome (E A : Type) : Type :=
| Ok (a : A)
| Err (e : E)
| Panicked
| OutOfFuel.

Arguments Ok {E A} a.
Arguments Err {E A} e.
Arguments Panicked {E A}.
Arguments OutOfFuel {E A}.

#[global] Instance outcome_ret {E} : MRet (outcome E) := fun A a => Ok a.
#[global] Instance outcome_bind {E} : MBind (outcome E) := fun A B f m =>
  match m with
  | Ok a => f a
  | Err e => Err e
  | Panicked => Panicked
  | OutOfFuel => OutOfFuel
  end.

(** [map_err], [ok_or] and indexing as the code uses them. *)
Definition map_err {E F A} (f : E -> F) (m : outcome E A) : outcome F A :=
  match m with
  | Ok a => Ok a
  | Err e => Err (f e)
  | Panicked => Panicked
  | OutOfFuel => OutOfFuel
  end.

Definition ok_or {E A} (o : option A) (e : E) : outcome E A :=
  match o with Some a => Ok a | None => Err e end.

(** A value the code takes without a check: the absence is a panic. *)
Definition or_panic {E A} (o : option A) : outcome E A :=
  match o with Some a => Ok a | None => Panicked end.

(** [if !cond { return Err(e) }]. *)
Definition ensure {E} (c : bool) (e : E) : outcome E unit :=
  if c then Ok tt else Err e.

(** The outcome is a Rust return value: [Ok] or [Err]. *)
Definition returns {E A} (m : outcome E A) : Prop :=
  match m with Ok _ | Err _ => True | _ => False end.

Definition is_ok {E A} (m : outcome E A) : bool :=
  match m with Ok _ => true | _ => false end.

(** [iter.try_fold(acc, f)], and a [for] loop that threads [acc] and returns on the
    first error. *)
Section TryFold.
  Context {E S A : Type} (f : S -> A -> outcome E S).

Fixpoint try_fold (acc : S) (l : list A) : outcome E S :=
  match l with
  | [] => Ok acc
  | a :: l => acc ← f acc a; try_fold acc l
  end.
End TryFold.

(** ** Machine integers: [usize] is 64 bits wide *)

Definition usize_max : Z := 2 ^ 64 - 1.
Definition isize_max : Z := 2 ^ 63 - 1.
Definition u32_max : Z := 2 ^ 32 - 1.
Definition i32_max : Z := 2 ^ 31 - 1.
Definition i32_min : Z := - 2 ^ 31.
Definition i64_max : Z := 2 ^ 63 - 1.
Definition i64_min : Z := - 2 ^ 63.

Definition checked_add (a b : Z) : option Z :=
  if a + b <=? usize_max then Some (a + b) else None.
Definition checked_sub (a b : Z) : option Z :=
  if b <=? a then Some (a - b) else None.
Definition checked_mul (a b : Z) : option Z :=
  if a * b <=? usize_max then Some (a * b) else None.
Definition saturating_add (a b : Z) : Z := Z.min (a + b) usize_max.
Definition saturating_sub (a b : Z) : Z := Z.max (a - b) 0.
Definition saturating_mul (a b : Z) : Z := Z.min (a * b) usize_max.

(** Unchecked [+] on [usize]: an overflow is a panic of the checked build. *)
Definition uadd {E} (a b : Z) : outcome E Z := or_panic (checked_add a b).
(** Unchecked [-] on [usize]. *)
Definition usub {E} (a b : Z) : outcome E Z := or_panic (checked_sub a b).

(** [i32::try_from(usize)] and the like. *)
Definition try_i32 (z : Z) : option Z :=
  if (i32_min <=? z) && (z <=? i32_max) then Some z else None.
Definition try_usize (z : Z) : option Z :=
  if (0 <=? z) && (z <=? usize_max) then Some z else None.

(** Checked arithmetic on [i64] and [i32]. *)
Definition in_i64 (z : Z) : bool := (i64_min <=? z) && (z <=? i64_max).
Definition in_i32 (z : Z) : bool := (i32_min <=? z) && (z <=? i32_max).
Definition i64_checked (z : Z) : option Z := if in_i64 z then Some z else None.
Definition i32_checked (z : Z) : option Z := if in_i32 z then Some z else None.

(** [(lo..=hi).contains(&x)]. *)
Definition between (lo x hi : Z) : bool := (lo <=? x) && (x <=? hi).

(** Reading a [w]-bit pattern as a two's-complement integer, and back. *)
Definition signed (w z : Z) : Z := if z <? 2 ^ (w - 1) then z else z - 2 ^ w.
Definition unsigned (w z : Z) : Z := z mod 2 ^ w.

(** ** Byte slices *)

Abbreviation len l := (Z.of_nat (length l)).

Definition is_byte (b : Z) : Prop := 0 <= b < 256.
Abbreviation bytes_ok l := (Forall is_byte l).

(** A slice Rust can hold: every element a byte, at most [isize::MAX] long. *)
Definition slice_ok (l : list Z) : Prop := bytes_ok l /\ len l <= isize_max.

(** [slice.get(i)]. *)
Definition get_at {A} (l : list A) (i : Z) : option A :=
  if (0 <=? i) && (i <? len l) then l !! Z.to_nat i else None.

(** [slice.get(a..b)]. *)
Definition get_range {A} (l : list A) (a b : Z) : option (list A) :=
  if (0 <=? a) && (a <=? b) && (b <=? len l)
  then Some (take (Z.to_nat (b - a)) (drop (Z.to_nat a) l))
  else None.

(** [slice.get(a..)]. *)
Definition get_from {A} (l : list A) (a : Z) : option (list A) :=
  get_range l a (len l).

(** [slice[i] = v]; [None] where Rust panics. *)
Definition set_at {A} (l : list A) (i : Z) (v : A) : option (list A) :=
  if (0 <=? i) && (i <? len l) then Some (<[Z.to_nat i := v]> l) else None.

(** [slice[a..a + source.len()].copy_from_slice(source)]. *)
Definition write_at {A} (l : list A) (a : Z) (source : list A) : option (list A) :=
  if (0 <=? a) && (a + len source <=? len l)
  then Some (take (Z.to_nat a) l ++ source ++ drop (Z.to_nat (a + len source)) l)
  else None.

(** [vec.resize(n, v)]. *)
Definition resize {A} (l : list A) (n : Z) (v : A) : list A :=
  take (Z.to_nat n) l ++ replicate (Z.to_nat n - length l) v.

(** [memchr::memchr(0, slice)]: the index of the first NUL. *)
Fixpoint find_nul (l : list Z) : option Z :=
  match l with
  | [] => None
  | b :: rest => if b =? 0 then Some 0 else (Z.succ <$> find_nul rest)
  end.

(** Little-endian integers of a given number of bytes. *)
Fixpoint from_le (l : list Z) : Z :=
  match l with
  | [] => 0
  | b :: rest => b + 256 * from_le rest
  end.
Fixpoint to_le (n : nat) (z : Z) : list Z :=
  match n with
  | O => []
  | S n => (z mod 256) :: to_le n (z / 256)
  end.

Definition i16_from_le (l : list Z) : Z := signed 16 (from_le l).
Definition i32_from_le (l : list Z) : Z := signed 32 (from_le l).
Definition i64_from_le (l : list Z) : Z := signed 64 (from_le l).
Definition i16_to_le (z : Z) : list Z := to_le 2 (unsigned 16 z).
Definition i32_to_le (z : Z) : list Z := to_le 4 (unsigned 32 z).
Definition i64_to_le (z : Z) : list Z := to_le 8 (unsigned 64 z).

Definition u32_to_le (z : Z) : list Z := to_le 4 (unsigned 32 z).
Definition u64_to_le (z : Z) : list Z := to_le 8 (unsigned 64 z).

#[global] Arguments u32_to_le : simpl never.
#[global] Arguments u64_to_le : simpl never.
#[global] Arguments i32_to_le : simpl never.
#[global] Arguments i64_to_le : simpl never.
#[global] Arguments i16_to_le : simpl never.

(** Decimal text of an integer, as [format!] prints it. *)
Definition show (z : Z) : string := NilZero.string_of_int (Z.to_int z).

(** [{name:?}] of a string without characters to escape. *)
Definition debug_str (s : string) : string :=
  String (Ascii.ascii_of_nat 34) (s +:+ String (Ascii.ascii_of_nat 34) EmptyString).

(** ** The allocator

    [Vec::try_reserve_exact(n)] either makes room for [n] elements or reports
    an error; which of the two depends on the process.  The code only relies
    on the reservation being harmless, so the allocator is a parameter. *)
Class Allocator := {
  try_reserve : Z -> bool;
  reserve_error : Z -> string
}.

Definition reserve `{Allocator} {E} (n : Z) (on_error : string -> E) : outcome E unit :=
  if try_reserve n then Ok tt else Err (on_error (reserve_error n)).

(** An allocator that never fails, and one that never succeeds. *)
Definition unlimited : Allocator :=
  {| try_reserve := fun _ => true; reserve_error := fun _ => EmptyString |}.
Definition exhausted : Allocator :=
  {| try_reserve := fun _ => false;
     reserve_error := fun _ => "memory allocation failed" |}.

(** ** Automation

    [prelude] collects the facts about slices and integers that close the
    routine goals; [simplify_res] undoes the binds of a computation that is
    known to succeed. *)

Create HintDb prelude.

Lemma bind_Ok {E A B} (m : outcome E A) (f : A -> outcome E B) (b : B) :
  m ≫= f = Ok b <-> exists a, m = Ok a /\ f a = Ok b.
Proof. destruct m; simpl; naive_solver. Qed.

Lemma ok_or_Ok {E A} (o : option A) (e : E) (a : A) : ok_or o e = Ok a <-> o = Some a.
Proof. destruct o; simpl; naive_solver. Qed.

Lemma or_panic_Ok {E A} (o : option A) (a : A) : @or_panic E A o = Ok a <-> o = Some a.
Proof. destruct o; simpl; naive_solver. Qed.

Lemma if_Err_Ok {E A} (b : bool) (e : E) (m : outcome E A) (a : A) :
  (if b then Err e else m) = Ok a <-> b = false /\ m = Ok a.
Proof. destruct b; naive_solver. Qed.

Lemma returns_bind {E A B} (m : outcome E A) (f : A -> outcome E B) :
  returns m -> (forall a, m = Ok a -> returns (f a)) -> returns (m ≫= f).
Proof. destruct m; simpl; auto. Qed.

Lemma returns_ok_or {E A} (o : option A) (e : E) : returns (ok_or o e).
Proof. by destruct o. Qed.

#[export] Hint Resolve returns_ok_or : prelude.

Ltac simplify_res :=
  repeat match goal with
  | H : _ ≫= _ = Ok _ |- _ =>
    let a := fresh "r" in let H1 := fresh "Hm" in
    apply bind_Ok in H; destruct H as (a & H1 & H)
  | H : ok_or _ _ = Ok _ |- _ => apply ok_or_Ok in H
  | H : or_panic _ = Ok _ |- _ => apply or_panic_Ok in H
  | H : (if _ then Err _ else _) = Ok _ |- _ => apply if_Err_Ok in H as [? H]
  | H : (if ?b then _ else _) = Ok _ |- _ => destruct b eqn:?; try discriminate H
  | H : (let '(_, _) := ?x in _) = Ok _ |- _ => destruct x eqn:?
  | H : None = Some _ |- _ => discriminate H
  | H : Err _ = Ok _ |- _ => discriminate H
  | H : Panicked = Ok _ |- _ => discriminate H
  | H : OutOfFuel = Ok _ |- _ => discriminate H
  | H : Ok _ = Ok _ |- _ => injection H as H; subst
  | H : Some _ = Some _ |- _ => injection H as H; subst
  | H : (_, _) = (_, _) |- _ => injection H as ? ?; subst
  end.

(** Boolean tests of the code as propositions, for [lia]. *)
Ltac bool_lia :=
  unfold between, usize_max, isize_max, i32_max, i32_min, i64_max, i64_min, u32_max in *;
  lia.

Ltac split_andb :=
  repeat match goal with
  | H : (_ && _) = true |- _ => apply andb_prop in H as [? ?]
  end.

(** ** Slices *)

Lemma get_range_Some {A} (l x : list A) a b :
  get_range l a b = Some x <->
  exists pre post, l = pre ++ x ++ post /\ a = len pre /\ b = a + len x.
Proof.
  unfold get_range. split.
  - destruct (_ && _) eqn:E; [|done]. intros [= <-].
    exists (take (Z.to_nat a) l), (drop (Z.to_nat b) l).
    assert (0 <= a <= b /\ b <= len l) as ? by bool_lia.
    split_and!.
    + replace (drop (Z.to_nat b) l)
        with (drop (Z.to_nat (b - a)) (drop (Z.to_nat a) l)) by (rewrite drop_drop; f_equal; lia).
      by rewrite !take_drop.
    + rewrite length_take. lia.
    + rewrite length_take, length_drop. lia.
  - intros (pre & post & -> & -> & ->).
    rewrite !length_app.
    replace (_ && _) with true by (symmetry; bool_lia).
    f_equal. replace (Z.to_nat (len pre + len x - len pre)) with (length x) by lia.
    by rewrite Nat2Z.id, drop_app_length, take_app_length.
Qed.

Lemma get_range_None {A} (l : list A) a b :
  0 <= a -> a <= b -> get_range l a b = None -> len l < b.
Proof. unfold get_range. destruct (_ && _) eqn:E; [done|]. intros. bool_lia. Qed.

Lemma get_range_bounds {A} (l x : list A) a b :
  get_range l a b = Some x -> 0 <= a /\ b <= len l /\ b = a + len x.
Proof.
  intros (pre & post & -> & -> & ->)%get_range_Some. rewrite !length_app. lia.
Qed.

Lemma get_range_app {A} (l x y : list A) a c :
  get_range l a c = Some (x ++ y) <->
  get_range l a (a + len x) = Some x /\ get_range l (a + len x) c = Some y.
Proof.
  rewrite !get_range_Some. split.
  - intros (pre & post & -> & -> & ->). split.
    + exists pre, (y ++ post). by rewrite <- !app_assoc.
    + exists (pre ++ x), post. rewrite <- !app_assoc, !length_app. split_and!; try done; lia.
  - intros [(pre & post & -> & -> & _) (pre' & post' & E & Ha & ->)].
    rewrite app_assoc in E. apply app_inj_1 in E as [<- ->]; [|rewrite length_app; lia].
    exists pre, post'. rewrite <- !app_assoc, length_app. split_and!; try done; lia.
Qed.

Lemma get_range_cons {A} (l : list A) x y a c :
  get_range l a c = Some (x :: y) <->
  get_range l a (a + 1) = Some [x] /\ get_range l (a + 1) c = Some y.
Proof. apply (get_range_app l [x] y). Qed.

Lemma get_range_trans {A} (l x y : list A) a b c :
  get_range l a b = Some x -> get_range l b c = Some y -> get_range l a c = Some (x ++ y).
Proof.
  intros H1 H2. pose proof (get_range_bounds _ _ _ _ H1) as (_ & _ & ->).
  by apply get_range_app.
Qed.

Lemma get_range_all {A} (l : list A) : get_range l 0 (len l) = Some l.
Proof. apply get_range_Some. exists [], []. rewrite app_nil_r. simpl. split_and!; [done|lia..]. Qed.

Lemma get_range_nil {A} (l : list A) a : 0 <= a <= len l -> get_range l a a = Some [].
Proof.
  intros. apply get_range_Some. exists (take (Z.to_nat a) l), (drop (Z.to_nat a) l).
  rewrite app_nil_l, take_drop, length_take. simpl. split_and!; [done|lia..].
Qed.

Lemma get_range_is_Some {A} (l : list A) a b :
  0 <= a -> a <= b -> b <= len l -> exists x, get_range l a b = Some x /\ len x = b - a.
Proof.
  intros. destruct (get_range l a b) as [x|] eqn:E.
  - exists x. split; [done|]. apply get_range_bounds in E. lia.
  - apply get_range_None in E; lia.
Qed.

Lemma get_range_Forall {A} (P : A -> Prop) (l x : list A) a b :
  Forall P l -> get_range l a b = Some x -> Forall P x.
Proof.
  intros Hl (pre & post & -> & _)%get_range_Some.
  by apply Forall_app in Hl as [_ [? _]%Forall_app].
Qed.

Lemma get_at_cons0 {A} (x : A) l : get_at (x :: l) 0 = Some x.
Proof. unfold get_at. by replace (_ && _) with true by (symmetry; simpl length; bool_lia). Qed.

Lemma get_at_Some {A} (l : list A) i x :
  get_at l i = Some x <-> 0 <= i /\ l !! Z.to_nat i = Some x.
Proof.
  unfold get_at. split.
  - destruct (_ && _) eqn:E; [|done]. intros. split; [bool_lia|done].
  - intros [? H]. apply lookup_lt_Some in H as ?. rewrite H.
    by replace (_ && _) with true by (symmetry; bool_lia).
Qed.

Lemma get_at_is_Some {A} (l : list A) i : 0 <= i < len l -> exists x, get_at l i = Some x.
Proof.
  intros. destruct (lookup_lt_is_Some_2 l (Z.to_nat i)) as [x Hx]; [lia|].
  exists x. apply get_at_Some. split; [lia|done].
Qed.

(** ** NUL-terminated strings *)

Definition nul_free (l : list Z) : Prop := Forall (fun b => b <> 0) l.

Lemma find_nul_app name rest : nul_free name -> find_nul (name ++ 0 :: rest) = Some (len name).
Proof.
  induction 1 as [|b name Hb _ IH]; simpl; [done|].
  destruct (Z.eqb_spec b 0); [done|]. rewrite IH. simpl. f_equal. lia.
Qed.

Lemma find_nul_Some l n :
  find_nul l = Some n ->
  exists name rest, l = name ++ 0 :: rest /\ n = len name /\ nul_free name.
Proof.
  revert n. induction l as [|b l IH]; intros n; simpl; [done|].
  destruct (Z.eqb_spec b 0) as [->|].
  - intros [= <-]. exists [], l. split_and!; [done..|constructor].
  - destruct (find_nul l) as [m|] eqn:E; simpl; [|done]. intros [= <-].
    destruct (IH m eq_refl) as (name & rest & -> & -> & ?).
    exists (b :: name), rest. simpl. split_and!; [done|lia|by constructor].
Qed.

Lemma find_nul_None l : find_nul l = None -> nul_free l.
Proof.
  induction l as [|b l IH]; simpl; [constructor|].
  destruct (Z.eqb_spec b 0); [done|]. destruct (find_nul l); simpl; [done|].
  constructor; [done|by apply IH].
Qed.

(** ** Little-endian integers *)

Lemma length_to_le n z : length (to_le n z) = n.
Proof. revert z. induction n; intros; simpl; auto. Qed.

Lemma to_le_bytes n z : bytes_ok (to_le n z).
Proof.
  revert z. induction n; intros; simpl; constructor; [|done].
  apply Z.mod_pos_bound. lia.
Qed.

Lemma from_le_bound l : bytes_ok l -> 0 <= from_le l < 2 ^ (8 * len l).
Proof.
  induction 1 as [|b l Hb _ IH]; cbn [from_le length]; [done|]. unfold is_byte in Hb.
  replace (8 * Z.of_nat (S (length l))) with (8 + 8 * len l) by lia.
  rewrite Z.pow_add_r by lia. change (2 ^ 8) with 256. lia.
Qed.

Lemma from_to_le n z : from_le (to_le n z) = z mod 2 ^ (8 * Z.of_nat n).
Proof.
  revert z. induction n as [|n IH]; intros z; simpl from_le; simpl to_le.
  - by rewrite Z.mod_1_r.
  - rewrite IH. replace (8 * Z.of_nat (S n)) with (8 + 8 * Z.of_nat n) by lia.
    rewrite Z.pow_add_r by lia. change (2 ^ 8) with 256.
    rewrite Z.rem_mul_r by lia. done.
Qed.

Lemma to_from_le l : bytes_ok l -> to_le (length l) (from_le l) = l.
Proof.
  induction 1 as [|b l Hb _ IH]; simpl; [done|]. unfold is_byte in Hb.
  replace (b + 256 * from_le l) with (b + from_le l * 256) by lia.
  rewrite Z.mod_add, Z.div_add, Z.mod_small, Z.div_small, Z.add_0_l, IH by lia. done.
Qed.

Lemma signed_unsigned w z :
  0 < w -> - 2 ^ (w - 1) <= z < 2 ^ (w - 1) -> signed w (unsigned w z) = z.
Proof.
  intros Hw Hz. unfold signed, unsigned.
  assert (2 ^ w = 2 * 2 ^ (w - 1)) as Hpow
    by (rewrite <- Z.pow_succ_r by lia; f_equal; lia).
  destruct (Z.le_gt_cases 0 z).
  - rewrite Z.mod_small by lia. by replace (z <? _) with true by (symmetry; bool_lia).
  - replace (z mod 2 ^ w) with (z + 2 ^ w)
      by (rewrite <- (Z.mod_add z 1), Z.mod_small by lia; lia).
    replace (_ <? _) with false by (symmetry; bool_lia). lia.
Qed.

Lemma unsigned_signed w z : 0 < w -> 0 <= z < 2 ^ w -> unsigned w (signed w z) = z.
Proof.
  intros Hw Hz. unfold signed, unsigned. destruct (_ <? _).
  - by apply Z.mod_small.
  - rewrite <- (Z.mod_add _ 1) by lia. rewrite Z.mod_small; lia.
Qed.

Lemma i32_le_roundtrip z : i32_min <= z <= i32_max -> i32_from_le (i32_to_le z) = z.
Proof.
  intros. unfold i32_from_le, i32_to_le. rewrite from_to_le.
  change (8 * Z.of_nat 4) with 32. unfold unsigned. rewrite Z.mod_mod by lia.
  apply (signed_unsigned 32); bool_lia.
Qed.

Lemma i64_le_roundtrip z : i64_min <= z <= i64_max -> i64_from_le (i64_to_le z) = z.
Proof.
  intros. unfold i64_from_le, i64_to_le. rewrite from_to_le.
  change (8 * Z.of_nat 8) with 64. unfold unsigned. rewrite Z.mod_mod by lia.
  apply (signed_unsigned 64); bool_lia.
Qed.

Lemma i32_from_le_inv l z :
  bytes_ok l -> length l = 4%nat -> i32_from_le l = z ->
  l = i32_to_le z /\ i32_min <= z <= i32_max.
Proof.
  intros Hl Hlen <-. unfold i32_to_le, i32_from_le.
  pose proof (from_le_bound l Hl) as Hb. rewrite Hlen in Hb.
  change (8 * Z.of_nat 4) with 32 in Hb.
  rewrite unsigned_signed by lia. rewrite <- Hlen, to_from_le by done.
  split; [done|]. unfold signed. case_match; bool_lia.
Qed.

Lemma i64_from_le_inv l z :
  bytes_ok l -> length l = 8%nat -> i64_from_le l = z ->
  l = i64_to_le z /\ i64_min <= z <= i64_max.
Proof.
  intros Hl Hlen <-. unfold i64_to_le, i64_from_le.
  pose proof (from_le_bound l Hl) as Hb. rewrite Hlen in Hb.
  change (8 * Z.of_nat 8) with 64 in Hb.
  rewrite unsigned_signed by lia. rewrite <- Hlen, to_from_le by done.
  split; [done|]. unfold signed. case_match; bool_lia.
Qed.

Lemma len_i32_to_le z : length (i32_to_le z) = 4%nat.
Proof. apply length_to_le. Qed.

Lemma len_i64_to_le z : length (i64_to_le z) = 8%nat.
Proof. apply length_to_le. Qed.

#[export] Hint Resolve to_le_bytes : prelude.

(** A boolean fact about bytes, checked on all 256 of them. *)
Lemma byte_forallb (P : Z -> bool) b :
  forallb P (seqZ 0 256) = true -> is_byte b -> P b = true.
Proof.
  intros H Hb. rewrite forallb_forall in H. apply H.
  apply list_elem_of_In, elem_of_seqZ. unfold is_byte in Hb. lia.
Qed.

(** ** Updating slices *)

Lemma set_at_eq {A} (l : list A) i v :
  0 <= i < len l -> set_at l i v = Some (<[Z.to_nat i := v]> l).
Proof. intros. unfold set_at. by replace (_ && _) with true by bool_lia. Qed.

Lemma set_at_inv {A} (l l' : list A) i v :
  set_at l i v = Some l' -> 0 <= i < len l /\ l' = <[Z.to_nat i := v]> l.
Proof. unfold set_at. destruct (_ && _) eqn:E; [|done]. intros [= <-]. split; [bool_lia|done]. Qed.

Lemma write_at_eq {A} (l : list A) a x :
  0 <= a -> a + len x <= len l ->
  write_at l a x = Some (take (Z.to_nat a) l ++ x ++ drop (Z.to_nat (a + len x)) l).
Proof. intros. unfold write_at. by replace (_ && _) with true by bool_lia. Qed.

Lemma write_at_inv {A} (l l' : list A) a x :
  write_at l a x = Some l' ->
  0 <= a /\ a + len x <= len l
  /\ l' = take (Z.to_nat a) l ++ x ++ drop (Z.to_nat (a + len x)) l.
Proof. unfold write_at. destruct (_ && _) eqn:E; [|done]. intros [= <-]. split_and!; [bool_lia..|done]. Qed.

Lemma write_at_length {A} (l l' : list A) a x : write_at l a x = Some l' -> length l' = length l.
Proof.
  intros (? & ? & ->)%write_at_inv. rewrite !length_app, length_take, length_drop. lia.
Qed.

Lemma Forall_set_at {A} (P : A -> Prop) l l' i v :
  Forall P l -> P v -> set_at l i v = Some l' -> Forall P l'.
Proof. intros Hl Hv [_ ->]%set_at_inv. by apply Forall_insert. Qed.

Lemma Forall_write_at {A} (P : A -> Prop) l l' a x :
  Forall P l -> Forall P x -> write_at l a x = Some l' -> Forall P l'.
Proof.
  intros Hl Hx (_ & _ & ->)%write_at_inv. rewrite !Forall_app. split_and!;
    [by apply Forall_take|done|by apply Forall_drop].
Qed.

Lemma get_at_Forall {A} (P : A -> Prop) l i v : Forall P l -> get_at l i = Some v -> P v.
Proof. intros Hl [_ H]%get_at_Some. by eapply Forall_lookup_1. Qed.

Lemma get_at_bounds {A} (l : list A) i v : get_at l i = Some v -> 0 <= i < len l.
Proof. intros [? H]%get_at_Some. apply lookup_lt_Some in H. lia. Qed.

Lemma checked_add_eq a b : a + b <= usize_max -> checked_add a b = Some (a + b).
Proof. intros. unfold checked_add. by replace (_ <=? _) with true by lia. Qed.

(** A computation that returns, with a property of its value. *)
Definition ok_with {E A} (m : outcome E A) (P : A -> Prop) : Prop :=
  returns m /\ forall a, m = Ok a -> P a.

Lemma ok_with_bind {E A B} (m : outcome E A) (f : A -> outcome E B) P Q :
  ok_with m P -> (forall a, P a -> ok_with (f a) Q) -> ok_with (m ≫= f) Q.
Proof. intros [Hr HP] Hf. destruct m; simpl; try done. apply Hf. by apply HP. Qed.

Lemma ok_with_ret {E A} (a : A) (P : A -> Prop) : P a -> ok_with (@Ok E A a) P.
Proof. intros. split; [done|]. by intros ? [= <-]. Qed.

Lemma ok_with_err {E A} (e : E) (P : A -> Prop) : ok_with (Err e) P.
Proof. done. Qed.

Lemma ok_with_ok_or {E A} (o : option A) (e : E) (P : A -> Prop) :
  (forall a, o = Some a -> P a) -> ok_with (ok_or o e) P.
Proof. intros. destruct o; [|done]. apply ok_with_ret. auto. Qed.

Lemma ok_with_or_panic {E A} (o : option A) (P : A -> Prop) :
  (exists a, o = Some a /\ P a) -> ok_with (@or_panic E A o) P.
Proof. intros (a & -> & ?). by apply ok_with_ret. Qed.

Lemma ok_with_guard {E A} (b : bool) (e : E) (m : outcome E A) P :
  (b = false -> ok_with m P) -> ok_with (if b then Err e else m) P.
Proof. destruct b; [done|auto]. Qed.

Lemma ok_with_weaken {E A} (m : outcome E A) (P Q : A -> Prop) :
  ok_with m P -> (forall a, P a -> Q a) -> ok_with m Q.
Proof. intros [? ?] ?. split; auto. Qed.

#[export] Hint Resolve ok_with_err ok_with_ret : prelude.

(** ** Reading updated slices *)

Lemma get_at_set {A} (l l' : list A) i v j :
  set_at l i v = Some l' -> get_at l' j = if j =? i then Some v else get_at l j.
Proof.
  intros [Hi ->]%set_at_inv. unfold get_at. rewrite length_insert.
  destruct (Z.eqb_spec j i) as [->|Hne].
  - replace (_ && _) with true by bool_lia. apply list_lookup_insert_eq. lia.
  - destruct (_ && _) eqn:E; [|done]. apply list_lookup_insert_ne. bool_lia.
Qed.

Lemma get_at_app_l {A} (l1 l2 : list A) i : i < len l1 -> get_at (l1 ++ l2) i = get_at l1 i.
Proof.
  intros Hi. unfold get_at. rewrite length_app.
  destruct (Z.leb_spec 0 i) as [H0|]; [|done]. simpl.
  replace (i <? len l1) with true by lia. replace (i <? _) with true by lia.
  apply lookup_app_l. lia.
Qed.

Lemma get_at_app_r {A} (l1 l2 : list A) i : 0 <= i -> get_at (l1 ++ l2) (len l1 + i) = get_at l2 i.
Proof.
  intros Hi. unfold get_at. rewrite length_app.
  replace (0 <=? len l1 + i) with true by lia. replace (0 <=? i) with true by lia. simpl.
  replace (len l1 + i <? _) with (i <? len l2) by lia.
  destruct (_ <? _); [|done]. rewrite lookup_app_r by lia. f_equal. lia.
Qed.

Lemma get_at_drop {A} (l : list A) k i : 0 <= i -> 0 <= k -> get_at (drop (Z.to_nat k) l) i = get_at l (k + i).
Proof.
  intros Hi Hk. unfold get_at. rewrite length_drop.
  replace (0 <=? i) with true by lia. replace (0 <=? k + i) with true by lia. simpl.
  replace (i <? _) with (k + i <? len l) by lia.
  destruct (_ <? _); [|done]. rewrite lookup_drop. f_equal. lia.
Qed.

Lemma get_at_write {A} (l l' : list A) a x j :
  write_at l a x = Some l' ->
  get_at l' j = if (a <=? j) && (j <? a + len x) then get_at x (j - a) else get_at l j.
Proof.
  intros (Ha & Hle & ->)%write_at_inv.
  assert (len (take (Z.to_nat a) l) = a) as Hta by (rewrite length_take; lia).
  destruct (Z.leb_spec a j) as [Haj|Hja].
  - replace j with (len (take (Z.to_nat a) l) + (j - a)) at 1 by lia.
    rewrite get_at_app_r by lia. destruct (Z.ltb_spec j (a + len x)) as [Hj|Hj]; simpl.
    + apply get_at_app_l. lia.
    + replace (j - a) with (len x + (j - a - len x)) by lia. rewrite get_at_app_r by lia.
      rewrite get_at_drop by lia. f_equal. lia.
  - simpl. rewrite get_at_app_l by lia. unfold get_at. rewrite length_take.
    destruct (Z.leb_spec 0 j); [|done]. simpl.
    replace (j <? len l) with true by lia. replace (j <? _) with true by lia.
    apply lookup_take_lt. lia.
Qed.

Lemma get_at_ext {A} (l l' : list A) n :
  len l = n -> len l' = n -> (forall j, 0 <= j < n -> get_at l j = get_at l' j) -> l = l'.
Proof.
  intros Hl Hl' H. apply list_eq_same_length with (length l); [lia|done|].
  intros i x y Hi Hx Hy. specialize (H (Z.of_nat i) ltac:(lia)).
  assert (forall l : list A, i < length l -> get_at l (Z.of_nat i) = l !! i)%nat as E.
  { intros l0 Hi0. unfold get_at. replace (_ && _) with true by bool_lia. by rewrite Nat2Z.id. }
  rewrite !E in H by lia. rewrite Hx, Hy in H. by injection H.
Qed.

Lemma get_range_get_at {A} (l x : list A) a b j :
  get_range l a b = Some x -> 0 <= j < len x -> get_at x j = get_at l (a + j).
Proof.
  intros (pre & post & -> & -> & ->)%get_range_Some Hj.
  rewrite get_at_app_r by lia. symmetry. apply get_at_app_l. lia.
Qed.

Lemma get_range_pair {A} (l : list A) p a b :
  get_at l p = Some a -> get_at l (p + 1) = Some b -> get_range l p (p + 2) = Some [a; b].
Proof.
  intros Ha Hb. pose proof (get_at_bounds _ _ _ Ha). pose proof (get_at_bounds _ _ _ Hb).
  destruct (get_range_is_Some l p (p + 2)) as (x & Hx & Hl); [lia..|]. rewrite Hx.
  pose proof (get_range_get_at _ _ _ _ 0 Hx ltac:(lia)) as E0.
  pose proof (get_range_get_at _ _ _ _ 1 Hx ltac:(lia)) as E1.
  rewrite Z.add_0_r, Ha in E0. rewrite Hb in E1.
  destruct x as [|c [|d [|]]]; simpl in Hl; try lia.
  rewrite get_at_cons0 in E0. change (get_at [c; d] 1) with (Some d) in E1. congruence.
Qed.

(** Two slices that coincide on a range. *)
Lemma get_range_ext {A} (l l' x : list A) a b :
  get_range l a b = Some x -> b <= len l' ->
  (forall j, a <= j < b -> get_at l' j = get_at l j) -> get_range l' a b = Some x.
Proof.
  intros Hx Hb H. pose proof (get_range_bounds _ _ _ _ Hx) as (Ha & _ & Hab).
  destruct (get_range_is_Some l' a b) as (y & Hy & Hl); [lia..|]. rewrite Hy. f_equal.
  apply (get_at_ext y x (len x)); [lia|done|]. intros j Hj.
  rewrite (get_range_get_at _ _ _ _ j Hy), (get_range_get_at _ _ _ _ j Hx) by lia. apply H. lia.
Qed.

Lemma get_range_write {A} (l l' : list A) a x :
  write_at l a x = Some l' -> get_range l' a (a + len x) = Some x.
Proof.
  intros (Ha & Hle & ->)%write_at_inv. apply get_range_Some.
  exists (take (Z.to_nat a) l), (drop (Z.to_nat (a + len x)) l).
  split_and!; [done|rewrite length_take; lia|done].
Qed.
