(* ===== verification/Errors.v ===== *)
(** * Errors: the error type of the core crate ([crates/xqdb/src/errors.rs]) *)

From stdpp Require Import prelude strings.
From S2P Require Import Prelude.

(** [std::io::ErrorKind], as far as the code inspects it. *)
Inductive ErrorKind : Type :=
| Interrupted
| UnexpectedEof
| NotConnected
| TimedOut
| AddrNotAvailable
| OtherKind.

Record io_error : Type := IoError { kind : ErrorKind; io_message : string }.

(** [XqdbError], constructor by constructor. The payloads that are Polars or
    Arrow data types are carried as the text of the data type. *)
Inductive XqdbError : Type :=
| IOError (e : io_error)
| AuthErr
| FailedToConnectErr (message : string)
| DeserializationErr (message : string)
| GeneralErr (message : string)
| NotConnectedErr
| VersionErr
| NotSupportedKTypeErr (k_type : Z)
| NotSupportedMinusTimeErr (k_type : Z)
| NotSupportedKOperatorErr (opcode : Z)
| NotSupportedKNestedListErr (k_type : Z)
| NotSupportedKListErr (k_type : Z)
| NotSupportedKMixedListErr (expected got : Z)
| NotSupportedArrowTypeErr (dtype : string)
| NotSupportedSeriesTypeErr (dtype : string)
| NotSupportedArrowNestedListTypeErr (dtype : string)
| NotSupportedPolarsNestedListTypeErr (dtype : string)
| NotSupportedBigEndianErr
| NotAbleToSerializeErr (message : string)
| OverLengthErr
| TooManyArgumentErr
| ServerErr (message : list Z).

Abbreviation res := (outcome XqdbError).
