(* ===== verification/Utf8.v ===== *)
(** * Utf8: UTF-8 validation and lossy transcoding

    [std::str::from_utf8] and [slice::utf8_chunks] of the Rust standard library,
    as [serde6.rs] ([decode_utf8], [transcode_utf8_lossy]) and [qvalue.rs]
    ([try_lossy_text]) use them, with the properties the callers rely on. *)

From stdpp Require Import prelude strings.
From Stdlib Require Import ZArith Lia ZifyBool.
From S2P Require Import Prelude Errors.

(** One step of the scan: the bytes of a well-formed scalar value, or a maximal
    invalid subsequence. *)
Inductive utf8_unit : Type :=
| UValid (bs : list Z)
| UInvalid (bs : list Z).

Definition unit_bytes (u : utf8_unit) : list Z :=
  match u with UValid bs | UInvalid bs => bs end.
Definition unit_valid (u : utf8_unit) : bool :=
  match u with UValid _ => true | UInvalid _ => false end.

(** [byte & 0b1100_0000 == 0b1000_0000]. *)
Definition is_continuation (b : Z) : bool := between 128 b 191.

(** The second byte a three- or four-byte sequence with lead [b0] admits. *)
Definition second3 (b0 b1 : Z) : bool :=
  ((b0 =? 224) && between 160 b1 191)
  || (between 225 b0 236 && between 128 b1 191)
  || ((b0 =? 237) && between 128 b1 159)
  || (between 238 b0 239 && between 128 b1 191).
Definition second4 (b0 b1 : Z) : bool :=
  ((b0 =? 240) && between 144 b1 191)
  || (between 241 b0 243 && between 128 b1 191)
  || ((b0 =? 244) && between 128 b1 143).

Fixpoint utf8_units (l : list Z) : list utf8_unit :=
  match l with
  | [] => []
  | b0 :: t0 =>
    if b0 <? 128 then UValid [b0] :: utf8_units t0
    else if between 194 b0 223 then
      match t0 with
      | b1 :: t1 =>
        if is_continuation b1 then UValid [b0; b1] :: utf8_units t1
        else UInvalid [b0] :: utf8_units t0
      | [] => UInvalid [b0] :: utf8_units t0
      end
    else if between 224 b0 239 then
      match t0 with
      | b1 :: t1 =>
        if second3 b0 b1 then
          match t1 with
          | b2 :: t2 =>
            if is_continuation b2 then UValid [b0; b1; b2] :: utf8_units t2
            else UInvalid [b0; b1] :: utf8_units t1
          | [] => UInvalid [b0; b1] :: utf8_units t1
          end
        else UInvalid [b0] :: utf8_units t0
      | [] => UInvalid [b0] :: utf8_units t0
      end
    else if between 240 b0 244 then
      match t0 with
      | b1 :: t1 =>
        if second4 b0 b1 then
          match t1 with
          | b2 :: t2 =>
            if is_continuation b2 then
              match t2 with
              | b3 :: t3 =>
                if is_continuation b3 then UValid [b0; b1; b2; b3] :: utf8_units t3
                else UInvalid [b0; b1; b2] :: utf8_units t2
              | [] => UInvalid [b0; b1; b2] :: utf8_units t2
              end
            else UInvalid [b0; b1] :: utf8_units t1
          | [] => UInvalid [b0; b1] :: utf8_units t1
          end
        else UInvalid [b0] :: utf8_units t0
      | [] => UInvalid [b0] :: utf8_units t0
      end
    else UInvalid [b0] :: utf8_units t0
  end.

(** [std::str::from_utf8(bytes).is_ok()]. *)
Definition is_utf8 (l : list Z) : bool := forallb unit_valid (utf8_units l).

(** U+FFFD REPLACEMENT CHARACTER. *)
Definition REPLACEMENT_CHARACTER : list Z := [239; 191; 189].

Definition unit_text (u : utf8_unit) : list Z :=
  match u with UValid bs => bs | UInvalid _ => REPLACEMENT_CHARACTER end.

(** The text [String::from_utf8_lossy] produces. *)
Definition lossy_text (l : list Z) : list Z := flat_map unit_text (utf8_units l).

(** ** UTF-8 is self-synchronizing

    A text is a sequence of encoded scalar values, none of which starts with a
    continuation byte; so a text may be cut wherever a continuation byte does not
    follow. *)

(** ** Encoded scalar values *)

Definition unit_ok (bs : list Z) : bool :=
  match bs with
  | [b0] => b0 <? 128
  | [b0; b1] => between 194 b0 223 && is_continuation b1
  | [b0; b1; b2] => between 224 b0 239 && second3 b0 b1 && is_continuation b2
  | [b0; b1; b2; b3] => between 240 b0 244 && second4 b0 b1 && is_continuation b2 && is_continuation b3
  | _ => false
  end.

(** Splits the tests and the lists a scan looks at. *)
Ltac scan_cases :=
  repeat match goal with
  | |- context [if ?b then _ else _] => let E := fresh "E" in destruct b eqn:E
  | |- context [match ?l with [] => _ | _ :: _ => _ end] => destruct l
  end.

Lemma utf8_units_ok l : Forall (fun u => unit_valid u = true -> unit_ok (unit_bytes u) = true) (utf8_units l).
Proof.
  remember (length l) as n eqn:Hn. revert l Hn. induction n as [n IH] using (well_founded_induction Nat.lt_wf_0).
  intros l ->. destruct l as [|b0 l]; [constructor|].
  assert (forall l', (length l' < length (b0 :: l))%nat ->
    Forall (fun u => unit_valid u = true -> unit_ok (unit_bytes u) = true) (utf8_units l')) as Hrec
    by (intros l' Hl; by apply (IH (length l'))).
  clear IH. cbn [utf8_units]. scan_cases; constructor; try done; try (apply Hrec; cbn [length]; lia);
    intros _; cbn [unit_bytes unit_ok]; by rewrite ?E, ?E0, ?E1, ?E2, ?E3, ?E4, ?E5.
Qed.

Lemma utf8_units_concat l : concat (map unit_bytes (utf8_units l)) = l.
Proof.
  remember (length l) as n eqn:Hn. revert l Hn. induction n as [n IH] using (well_founded_induction Nat.lt_wf_0).
  intros l ->. destruct l as [|b0 l]; [done|].
  assert (forall l', (length l' < length (b0 :: l))%nat -> concat (map unit_bytes (utf8_units l')) = l') as Hrec
    by (intros l' Hl; by apply (IH (length l'))).
  clear IH. cbn [utf8_units]. scan_cases; cbn [map concat unit_bytes app]; rewrite Hrec by (cbn [length]; lia); done.
Qed.

(** An encoded scalar value is scanned as one. *)
Lemma unit_ok_scan bs rest : unit_ok bs = true -> utf8_units (bs ++ rest) = UValid bs :: utf8_units rest.
Proof.
  destruct bs as [|b0 [|b1 [|b2 [|b3 [|]]]]]; try done; cbn [unit_ok app]; intros H; split_andb; cbn [utf8_units].
  - by rewrite H.
  - replace (b0 <? 128) with false by bool_lia. by rewrite H, H0.
  - replace (b0 <? 128) with false by bool_lia. replace (between 194 b0 223) with false by bool_lia.
    by rewrite H, H1, H0.
  - replace (b0 <? 128) with false by bool_lia. replace (between 194 b0 223) with false by bool_lia.
    replace (between 224 b0 239) with false by bool_lia. by rewrite H, H2, H1, H0.
Qed.

Lemma is_utf8_cons bs rest : unit_ok bs = true -> is_utf8 (bs ++ rest) = is_utf8 rest.
Proof. intros H. unfold is_utf8. by rewrite unit_ok_scan. Qed.

(** A text is a sequence of encoded scalar values. *)
Lemma is_utf8_units l : is_utf8 l = true <-> exists us, Forall (fun bs => unit_ok bs = true) us /\ l = concat us.
Proof.
  split.
  - intros Hl. exists (map unit_bytes (utf8_units l)). split; [|by rewrite utf8_units_concat].
    apply Forall_map. pose proof (utf8_units_ok l) as Hok. unfold is_utf8 in Hl. rewrite forallb_forall in Hl.
    rewrite Forall_forall in *. intros u Hu. apply Hok; [done|]. by apply Hl, list_elem_of_In.
  - intros (us & Hus & ->). induction Hus as [|bs us Hb _ IH]; [done|]. cbn [concat]. by rewrite is_utf8_cons.
Qed.

Lemma is_utf8_app a b : is_utf8 a = true -> is_utf8 (a ++ b) = is_utf8 b.
Proof.
  intros (us & Hus & ->)%is_utf8_units. induction Hus as [|bs us Hb _ IH]; [done|]. cbn [concat].
  by rewrite <- app_assoc, is_utf8_cons.
Qed.

(** Only the bytes after the first continue. *)
Lemma unit_ok_shape bs :
  unit_ok bs = true -> exists b rest, bs = b :: rest /\ is_continuation b = false
    /\ Forall (fun c => is_continuation c = true) rest.
Proof.
  destruct bs as [|b0 [|b1 [|b2 [|b3 [|]]]]]; try done; cbn [unit_ok]; intros H; split_andb;
    eexists b0, _; (split; [done|]); (split; [unfold is_continuation; bool_lia|]); repeat constructor; try done;
    unfold is_continuation, second3, second4 in *; bool_lia.
Qed.

(** Not a continuation byte, or the end. *)
Definition starts_here (l : list Z) : Prop := match l with [] => True | b :: _ => is_continuation b = false end.

Lemma is_utf8_starts l : is_utf8 l = true -> starts_here l.
Proof.
  intros (us & Hus & ->)%is_utf8_units. destruct Hus as [|bs us Hb _]; [done|].
  destruct (unit_ok_shape bs Hb) as (b & rest & -> & Hc & _). exact Hc.
Qed.

(** A text is cut into texts wherever a continuation byte does not follow. *)
Lemma is_utf8_split a b : is_utf8 (a ++ b) = true -> starts_here b -> is_utf8 a = true /\ is_utf8 b = true.
Proof.
  intros (us & Hus & E)%is_utf8_units Hb. revert a E. induction Hus as [|u us Hu Hus IH]; intros a E.
  - cbn in E. by apply app_nil in E as [-> ->].
  - cbn [concat] in E. apply app_eq_inv in E as [(k & -> & E)|(k & -> & ->)].
    + destruct (IH k) as [Hk ?]; [done|]. by rewrite is_utf8_cons.
    + assert (is_utf8 (concat us) = true) as Hrest by (apply is_utf8_units; by exists us).
      destruct a as [|x a]; [by rewrite app_nil_l in Hu; rewrite is_utf8_cons|]. destruct k as [|c k].
      * rewrite app_nil_r in Hu. rewrite <- (app_nil_r (x :: a)) at 1. by rewrite is_utf8_cons.
      * destruct (unit_ok_shape _ Hu) as (y & rest & [= -> <-] & _ & Hc).
        apply Forall_app in Hc as [_ [Hc _]%Forall_cons]. cbn in Hb. congruence.
Qed.

(** A NUL ends a text and is one. *)
Lemma is_utf8_nul a b : is_utf8 (a ++ 0 :: b) = true <-> is_utf8 a = true /\ is_utf8 b = true.
Proof.
  split.
  - intros [Ha Hb]%is_utf8_split; [|done]. split; [done|].
    rewrite <- (is_utf8_cons [0] b); done.
  - intros [Ha Hb]. rewrite is_utf8_app by done. rewrite <- Hb. exact (is_utf8_cons [0] b eq_refl).
Qed.

(** ** Texts that are UTF-8 by construction *)

Lemma lossy_text_utf8 l : is_utf8 (lossy_text l) = true.
Proof.
  unfold lossy_text. pose proof (utf8_units_ok l) as Hok.
  induction Hok as [|u us Hu _ IH]; [done|]. cbn [flat_map].
  rewrite is_utf8_cons; [done|]. destruct u; cbn; [by apply Hu|done].
Qed.

Lemma ascii_utf8 l : forallb (fun b => b <? 128) l = true -> is_utf8 l = true.
Proof.
  induction l as [|b l IH]; [done|]. cbn [forallb]. intros [Hb Hl]%andb_prop.
  change (b :: l) with ([b] ++ l). rewrite is_utf8_cons; [by apply IH|done].
Qed.

(** Rows of a text and the text of rows. *)
Lemma concat_utf8 rows : Forall (fun row => is_utf8 row = true) rows -> is_utf8 (concat rows) = true.
Proof. induction 1 as [|row rows Hr _ IH]; [done|]. cbn [concat]. by rewrite is_utf8_app. Qed.

(** [byte & 0xC0 == 0x80] is the test for a continuation byte. *)
Lemma continuation_bits b : is_byte b -> (Z.land b 192 =? 128) = is_continuation b.
Proof.
  intros Hb. apply eqb_prop.
  by apply (byte_forallb (fun b => Bool.eqb (Z.land b 192 =? 128) (is_continuation b))).
Qed.
