(* ===== verification/Types.v ===== *)
(** * Types: constants, primitive operators and message kinds
    ([crates/xqdb/src/types.rs]) *)

From stdpp Require Import prelude strings.
From S2P Require Import Prelude Errors.

(** [K_TYPE_SIZE]: bytes per element of each q type, 0 for the types that have
    no fixed width. *)
Definition K_TYPE_SIZE : list Z :=
  [0; 1; 16; 0; 1; 2; 4; 8; 4; 8; 1; 0; 8; 4; 4; 8; 8; 4; 4; 4].

(** [K_TYPE_SIZE[kind as usize]]: an index past the table panics. *)
Definition k_type_size {E} (kind : Z) : outcome E Z := or_panic (get_at K_TYPE_SIZE kind).

Definition MAX_VALUE_DEPTH : Z := 64.

Inductive MsgType : Type := Async | Sync | Response.

(** [msg_type as u8]. *)
Definition msg_type_code (m : MsgType) : Z :=
  match m with Async => 0 | Sync => 1 | Response => 2 end.

Inductive SymbolEncoding : Type := Strict | Lossy.

#[global] Instance MsgType_eq_dec : EqDecision MsgType.
Proof. solve_decision. Defined.
#[global] Instance SymbolEncoding_eq_dec : EqDecision SymbolEncoding.
Proof. solve_decision. Defined.

Definition symbol_encoding_name (e : SymbolEncoding) : string :=
  match e with Strict => "strict" | Lossy => "lossy" end.

Definition symbol_encoding_from_name (name : string) : option SymbolEncoding :=
  if String.eqb name "strict" then Some Strict
  else if String.eqb name "lossy" then Some Lossy
  else None.

(** ** Primitive operators *)

Definition Q_UNARY_PRIMITIVES : list string :=
  [EmptyString; "+:"; "-:"; "*:"; "%:"; "&:"; "|:"; "^:"; "=:"; "<:"; ">:"; "$:"; ",:"; "#:"; "_:"; "~:";
   "!:"; "?:"; "@:"; ".:"; "0::"; "1::"; "2::"; "avg"; "last"; "sum"; "prd"; "min"; "max"; "exit";
   "getenv"; "abs"; "sqrt"; "log"; "exp"; "sin"; "asin"; "cos"; "acos"; "tan"; "atan"; "enlist"].
Definition Q_BINARY_PRIMITIVES : list string :=
  [":"; "+"; "-"; "*"; "%"; "&"; "|"; "^"; "="; "<"; ">"; "$"; ","; "#"; "_"; "~"; "!"; "?"; "@";
   "."; "0:"; "1:"; "2:"; "in"; "within"; "like"; "bin"; "ss"; "insert"; "wsum"; "wavg"; "div";
   "xexp"; "setenv"].
Definition Q_TERNARY_PRIMITIVES : list string := ["'"; "/"; "\"].

Record QOperator : Type := MkQOperator {
  op_name : string;
  op_k_type : Z;
  op_opcode : Z
}.

Definition QOperator_PLUS : QOperator := MkQOperator "+" 102 1.

(** [primitives.iter().position(|primitive| *primitive == name)]. *)
Fixpoint position (name : string) (primitives : list string) : option Z :=
  match primitives with
  | [] => None
  | p :: rest => if String.eqb p name then Some 0 else (Z.succ <$> position name rest)
  end.

(** [name.as_bytes().contains(&0)]. *)
Fixpoint contains_nul (s : string) : bool :=
  match s with
  | EmptyString => false
  | String c rest => Ascii.eqb c Ascii.zero || contains_nul rest
  end.

(** The [for] loop of [QOperator::new] over the three tables. *)
Fixpoint find_operator (name : string) (tables : list (Z * list string)) : option QOperator :=
  match tables with
  | [] => None
  | (k_type, primitives) :: rest =>
    match position name primitives with
    | Some opcode =>
      if String.eqb name EmptyString then find_operator name rest
      else Some (MkQOperator name k_type opcode)
    | None => find_operator name rest
    end
  end.

Definition primitive_tables : list (Z * list string) :=
  [(101, Q_UNARY_PRIMITIVES); (102, Q_BINARY_PRIMITIVES); (103, Q_TERNARY_PRIMITIVES)].

Definition QOperator_new (name : string) : outcome XqdbError QOperator :=
  if contains_nul name then
    Err (NotAbleToSerializeErr "q primitive operator names cannot contain NUL bytes")
  else
    ok_or (find_operator name primitive_tables)
      (NotAbleToSerializeErr ("unsupported q primitive operator name " +:+ debug_str name)).

Definition QOperator_from_wire (k_type opcode : Z) : option QOperator :=
  primitives ← (if k_type =? 101 then Some Q_UNARY_PRIMITIVES
                else if k_type =? 102 then Some Q_BINARY_PRIMITIVES
                else if k_type =? 103 then Some Q_TERNARY_PRIMITIVES
                else None);
  name ← get_at primitives opcode;
  if String.eqb name EmptyString then None else Some (MkQOperator name k_type opcode).

Definition wire_value (op : QOperator) : Z * Z := (op_k_type op, op_opcode op).

(** ** Facts *)

Lemma position_Some name l i :
  position name l = Some i -> get_at l i = Some name.
Proof.
  revert i. induction l as [|p l IH]; intros i; simpl; [done|].
  destruct (String.eqb_spec p name) as [->|].
  - intros [= <-]. apply get_at_cons0.
  - destruct (position name l) as [j|]; simpl; [|done]. intros [= <-].
    specialize (IH j eq_refl). apply get_at_Some in IH as [Hj IH]. apply get_at_Some. split; [lia|].
    by replace (Z.to_nat (Z.succ j)) with (S (Z.to_nat j)) by lia.
Qed.

(** Every non-empty name of the three tables is the name of exactly one entry. *)
Lemma tables_unambiguous :
  forallb (fun '(k, names) =>
    forallb (fun i => match QOperator_from_wire k (Z.of_nat i) with
                      | Some op => match QOperator_new (op_name op) with
                                   | Ok op' => (op_k_type op' =? k) && (op_opcode op' =? Z.of_nat i)
                                               && String.eqb (op_name op') (op_name op)
                                   | _ => false
                                   end
                      | None => true
                      end) (seq 0 (length names))) primitive_tables = true.
Proof. vm_compute. reflexivity. Qed.

Lemma from_wire_table k o op :
  QOperator_from_wire k o = Some op ->
  exists names, (k, names) ∈ primitive_tables /\ get_at names o = Some (op_name op)
    /\ op_name op <> EmptyString /\ op = MkQOperator (op_name op) k o.
Proof.
  unfold QOperator_from_wire, primitive_tables. intros H.
  destruct (Z.eqb_spec k 101) as [->|]; [|destruct (Z.eqb_spec k 102) as [->|];
    [|destruct (Z.eqb_spec k 103) as [->|]; [|done]]].
  all: cbn [mbind option_bind] in H; destruct (get_at _ o) as [nm|] eqn:E; [|done].
  all: cbn [mbind option_bind] in H; destruct (String.eqb_spec nm EmptyString); [done|].
  all: injection H as <-; eexists; split_and!; [|exact E|done|done]; set_solver.
Qed.

Lemma from_wire_new k o op : QOperator_from_wire k o = Some op -> QOperator_new (op_name op) = Ok op.
Proof.
  intros H. destruct (from_wire_table _ _ _ H) as (names & Hin & Hget & _ & Hop).
  pose proof tables_unambiguous as Hall. rewrite forallb_forall in Hall.
  specialize (Hall (k, names) ltac:(by apply list_elem_of_In)). simpl in Hall.
  apply get_at_Some in Hget as [Ho Hget].
  rewrite forallb_forall in Hall. specialize (Hall (Z.to_nat o)).
  rewrite Z2Nat.id, H in Hall by done.
  apply lookup_lt_Some in Hget. specialize (Hall ltac:(apply in_seq; lia)).
  destruct (QOperator_new (op_name op)) as [op'| | |]; try done.
  apply andb_prop in Hall as [[H1 H2]%andb_prop H3]. apply String.eqb_eq in H3.
  rewrite Hop. destruct op'; simpl in *. f_equal. f_equal; [done|lia..].
Qed.

Lemma find_operator_Some name tables op :
  find_operator name tables = Some op ->
  name <> EmptyString /\ op_name op = name
  /\ exists names, (op_k_type op, names) ∈ tables /\ get_at names (op_opcode op) = Some name.
Proof.
  induction tables as [|[k names] tables IH]; simpl; [done|].
  destruct (position name names) as [i|] eqn:E.
  - destruct (String.eqb_spec name EmptyString) as [->|].
    + intros H. destruct (IH H) as (? & ? & ns & ? & ?). done.
    + intros [= <-]. simpl. split_and!; [done..|]. exists names.
      split; [left|by apply position_Some].
  - intros H. destruct (IH H) as (? & ? & ns & ? & ?). split_and!; [done..|].
    exists ns. split; [by right|done].
Qed.

(** Operator names and wire codes are two views of one table: [QOperator::new]
    returns an operator exactly for the names some wire code decodes to, that
    operator has the name asked for, and decoding its wire value gives it back. *)
Theorem operator_roundtrip (name : string) (op : QOperator) :
  QOperator_new name = Ok op <->
  op_name op = name /\ QOperator_from_wire (op_k_type op) (op_opcode op) = Some op.
Proof.
  split; [|intros [<- H]; by apply from_wire_new in H].
  unfold QOperator_new. destruct (contains_nul name); [done|]. intros H%ok_or_Ok.
  apply find_operator_Some in H as (Hne & <- & names & Hin & Hget).
  split; [done|]. unfold QOperator_from_wire.
  assert ((if op_k_type op =? 101 then Some Q_UNARY_PRIMITIVES
           else if op_k_type op =? 102 then Some Q_BINARY_PRIMITIVES
           else if op_k_type op =? 103 then Some Q_TERNARY_PRIMITIVES else None) = Some names) as ->.
  { unfold primitive_tables in Hin.
    repeat (apply elem_of_cons in Hin as [[= -> ->]|Hin]; [done|]). by apply not_elem_of_nil in Hin. }
  cbn [mbind option_bind]. rewrite Hget. cbn [mbind option_bind].
  destruct (String.eqb_spec (op_name op) EmptyString); [done|]. by destruct op.
Qed.
