(* ===== verification/QValue.v ===== *)
(** * QValue: the lossless value validator ([crates/xqdb/src/qvalue.rs])

    The recursive-descent parser that walks a q IPC value body, checks its
    structure and returns its metadata, and the constructors of [QValue] that
    build atoms, general lists and dictionaries out of validated parts.  Every
    [Parser] method is a definition that takes the parser state and returns the
    new one; the methods that recurse take [parse_value] as an argument. *)

From stdpp Require Import prelude strings.
From S2P Require Import Prelude Errors Utf8 Types.

Inductive ValueMode : Type := Native | Lossless.

(** [Shape], [Parsed] and [Metadata]. *)
Inductive Shape : Type :=
| ShAtom
| ShSequence (element_type : option Z)
| ShDictionary (keyed_table : bool)
| ShTable
| ShFunction.

#[global] Instance Shape_eq_dec : EqDecision Shape.
Proof. solve_decision. Defined.

Record Parsed : Type := MkParsed {
  parsed_type_code : Z;
  parsed_len : Z;
  parsed_shape : Shape
}.

Record Metadata : Type := MkMetadata {
  meta_type_code : Z;
  meta_len : Z;
  meta_is_table : bool;
  meta_max_depth : Z
}.

Definition sequence_len (p : Parsed) : option Z :=
  match parsed_shape p with ShSequence _ => Some (parsed_len p) | _ => None end.

Record Parser : Type := MkParser {
  p_bytes : list Z;
  p_position : Z;
  p_max_depth : Z
}.

Definition set_position (p : Parser) (pos : Z) : Parser :=
  MkParser (p_bytes p) pos (p_max_depth p).
Definition set_max_depth (p : Parser) (d : Z) : Parser :=
  MkParser (p_bytes p) (p_position p) d.

Abbreviation bad msg := (Err (DeserializationErr msg)).
Abbreviation depth_message :=
  ("q value nesting exceeds " +:+ show MAX_VALUE_DEPTH +:+ " levels").

Definition is_sequence_type (type_code : Z) : bool :=
  between 0 type_code 19 && negb (type_code =? 3).

(** [try_lossy_text]: the output is sized by a first pass over the chunks. *)
Definition lossy_length (bytes : list Z) : Z :=
  foldl (fun length u =>
           saturating_add
             (saturating_add length (if unit_valid u then len (unit_bytes u) else 0))
             (if unit_valid u then 0 else len REPLACEMENT_CHARACTER))
        0 (utf8_units bytes).

Definition try_lossy_text `{Allocator} (bytes : list Z) (context : string) : res (list Z) :=
  let length := lossy_length bytes in
  _ ← reserve length (fun error =>
        DeserializationErr ("unable to allocate " +:+ show length +:+ "-byte " +:+ context
                            +:+ ": " +:+ error));
  Ok (lossy_text bytes).

Definition ensure_matching_counts (left right : Z) (context : string) : res unit :=
  if left =? right then Ok tt
  else bad ("q " +:+ context +:+ " count mismatch: " +:+ show left +:+ " and " +:+ show right).

Definition validate_boolean_bytes (bytes : list Z) (context : string) : res unit :=
  match List.find (fun value => 1 <? value) bytes with
  | Some value => bad (context +:+ " must contain only 0 or 1, got " +:+ show value)
  | None => Ok tt
  end.

(** ** The reading primitives *)

Definition parser_take (length : Z) (context : string) (p : Parser) : res (list Z * Parser) :=
  stop ← ok_or (checked_add (p_position p) length)
    (DeserializationErr (context +:+ " byte range overflowed"));
  value ← ok_or (get_range (p_bytes p) (p_position p) stop)
    (DeserializationErr (context +:+ " needs " +:+ show length
                         +:+ " byte(s), but the value body ends early"));
  Ok (value, set_position p stop).

Definition take_byte (context : string) (p : Parser) : res (Z * Parser) :=
  '(value, p) ← parser_take 1 context p;
  b ← or_panic (get_at value 0);
  Ok (b, p).

Definition take_until_nul (context : string) (p : Parser) : res (list Z * Parser) :=
  tail ← ok_or (get_from (p_bytes p) (p_position p))
    (DeserializationErr (context +:+ " starts beyond the available payload"));
  length ← ok_or (find_nul tail) (DeserializationErr (context +:+ " is not NUL-terminated"));
  let start := p_position p in
  stop ← ok_or (checked_add start length)
    (DeserializationErr (context +:+ " length overflowed"));
  next ← ok_or (checked_add stop 1)
    (DeserializationErr (context +:+ " terminator offset overflowed"));
  value ← or_panic (get_range (p_bytes p) start stop);
  Ok (value, set_position p next).

Definition note_depth (depth : Z) (p : Parser) : res Parser :=
  if MAX_VALUE_DEPTH <? depth then bad depth_message
  else Ok (set_max_depth p (Z.max (p_max_depth p) depth)).

Definition take_attribute (context : string) (p : Parser) : res (Z * Parser) :=
  '(attribute, p) ← take_byte context p;
  if 4 <? attribute then bad (context +:+ " has invalid attribute " +:+ show attribute)
  else Ok (attribute, p).

Definition take_count (context : string) (p : Parser) : res (Z * Parser) :=
  '(raw, p) ← parser_take 4 context p;
  count ← ok_or (try_usize (i32_from_le raw))
    (DeserializationErr (context +:+ " count cannot be negative"));
  Ok (count, p).

Definition take_typed_list_count (context : string) (p : Parser) : res (Z * Parser) :=
  '(raw_attribute, p) ← take_byte context p;
  let attribute := Z.land raw_attribute 127 in
  if 4 <? attribute then bad (context +:+ " has invalid attribute " +:+ show attribute)
  else if Z.land raw_attribute 128 =? 0 then take_count context p
  else
    '(raw, p) ← parser_take 8 context p;
    count ← ok_or (try_usize (i64_from_le raw))
      (DeserializationErr (context +:+ " extended count cannot be negative or exceed this platform's limits"));
    Ok (count, p).

(** ** Atoms and typed lists *)

Definition parse_atom (wire_type : Z) (p : Parser) : res (Parsed * Parser) :=
  let kind := (0 - wire_type) mod 256 in
  if (kind =? 3) || negb (between 1 kind 19) then
    bad ("unsupported q atom kind " +:+ show kind)
  else
    p ← (if kind =? 11 then
           '(_, p) ← take_until_nul "q symbol atom" p; Ok p
         else
           width ← k_type_size kind;
           '(payload, p) ← parser_take width "q atom payload" p;
           _ ← (if kind =? 1 then validate_boolean_bytes payload "q boolean atom" else Ok tt);
           Ok p);
    Ok (MkParsed (- kind) 1 ShAtom, p).

(** [for _ in 0..count { self.take_until_nul(..)?; }]: each round consumes at
    least one byte, so the length of the body plus one bounds the rounds. *)
Fixpoint skip_symbols (fuel : nat) (count : Z) (p : Parser) : res Parser :=
  match fuel with
  | O => OutOfFuel
  | S fuel =>
    if count <=? 0 then Ok p
    else '(_, p) ← take_until_nul "q symbol-list element" p; skip_symbols fuel (count - 1) p
  end.

Definition parse_typed_list (element_type : Z) (p : Parser) : res (Parsed * Parser) :=
  if element_type =? 3 then bad "q list element type 3 is reserved"
  else
    '(count, p) ← take_typed_list_count "q typed list" p;
    p ← (if element_type =? 11 then skip_symbols (S (S (length (p_bytes p)))) count p
         else
           width ← k_type_size element_type;
           payload_length ← ok_or (checked_mul count width)
             (DeserializationErr "q typed-list payload length overflowed");
           '(payload, p) ← parser_take payload_length "q typed-list payload" p;
           _ ← (if element_type =? 1 then validate_boolean_bytes payload "q boolean list"
                else Ok tt);
           Ok p);
    Ok (MkParsed element_type count (ShSequence (Some element_type)), p).

(** ** Functions without nested values *)

Definition parse_lambda (depth : Z) (p : Parser) : res (Parsed * Parser) :=
  '(_, p) ← take_until_nul "q lambda context" p;
  p ← note_depth (depth + 1) p;
  '(source_type, p) ← take_byte "q lambda source type" p;
  if negb (source_type =? 10) then
    bad ("q lambda source must be a type-10 character vector, got type " +:+ show source_type)
  else
    '(attribute, p) ← take_byte "q lambda source attribute" p;
    if negb (attribute =? 0) then
      bad ("q lambda source has unsupported attribute " +:+ show attribute)
    else
      '(source_length, p) ← take_count "q lambda source" p;
      '(_, p) ← parser_take source_length "q lambda source" p;
      Ok (MkParsed 100 1 ShFunction, p).

Definition parse_primitive (wire_type : Z) (p : Parser) : res (Parsed * Parser) :=
  '(opcode, p) ← take_byte "q primitive opcode" p;
  if negb ((wire_type =? 101) && ((opcode =? 0) || (opcode =? 255)))
     && negb (bool_decide (is_Some (QOperator_from_wire wire_type opcode)))
  then
    bad ("unsupported q primitive type " +:+ show wire_type +:+ " opcode " +:+ show opcode)
  else Ok (MkParsed wire_type 1 ShFunction, p).

(** ** Values that contain values *)

Section Nested.
  Variable parse_value : Z -> Parser -> res (Parsed * Parser).

(** [for _ in 0..count { self.parse_value(depth)?; }]. *)
Fixpoint parse_values (count : nat) (depth : Z) (p : Parser) : res Parser :=
  match count with
  | O => Ok p
  | S count => '(_, p) ← parse_value depth p; parse_values count depth p
  end.

Definition parse_general_list (depth : Z) (p : Parser) : res (Parsed * Parser) :=
  '(_, p) ← take_attribute "q general list" p;
  '(count, p) ← take_count "q general list" p;
  if saturating_sub (len (p_bytes p)) (p_position p) / 2 <? count then
    bad ("q general-list count " +:+ show count +:+ " exceeds the remaining payload")
  else
    p ← parse_values (Z.to_nat count) (depth + 1) p;
    Ok (MkParsed 0 count (ShSequence None), p).

(** The shapes a dictionary may pair: two tables, or two lists. *)
Definition dictionary_shape (keys values : Parsed) : res (Z * bool) :=
  match parsed_shape keys, parsed_shape values with
  | ShTable, ShTable =>
    _ ← ensure_matching_counts (parsed_len keys) (parsed_len values) "keyed-table row";
    Ok (parsed_len keys, true)
  | ShTable, _ | _, ShTable =>
    bad "q keyed-table dictionary must contain a table on both sides"
  | _, _ =>
    key_count ← ok_or (sequence_len keys)
      (DeserializationErr "q dictionary keys must be a list or table");
    value_count ← ok_or (sequence_len values)
      (DeserializationErr "q dictionary values must be a list or table");
    _ ← ensure_matching_counts key_count value_count "dictionary key/value";
    Ok (key_count, false)
  end.

Definition parse_dictionary (wire_type depth : Z) (p : Parser) : res (Parsed * Parser) :=
  '(keys, p) ← parse_value (depth + 1) p;
  '(values, p) ← parse_value (depth + 1) p;
  '(count, keyed_table) ← dictionary_shape keys values;
  Ok (MkParsed wire_type count (ShDictionary keyed_table), p).

(** The column loop of [parse_table]: every column is a list, and every column
    has the row count of the first. *)
Fixpoint parse_columns (count : nat) (depth : Z) (row_count : option Z) (p : Parser)
    : res (option Z * Parser) :=
  match count with
  | O => Ok (row_count, p)
  | S count =>
    '(column, p) ← parse_value depth p;
    column_len ← ok_or (sequence_len column)
      (DeserializationErr "q table columns must each be list values");
    row_count ← match row_count with
                | Some expected =>
                  _ ← ensure_matching_counts expected column_len "table column row";
                  Ok (Some expected)
                | None => Ok (Some column_len)
                end;
    parse_columns count depth row_count p
  end.

Definition parse_table (depth : Z) (p : Parser) : res (Parsed * Parser) :=
  '(_, p) ← take_attribute "q table" p;
  p ← note_depth (depth + 1) p;
  '(dictionary_type, p) ← take_byte "q table dictionary type" p;
  if negb (dictionary_type =? 99) then
    bad ("q table must contain a type-99 column dictionary, got type " +:+ show dictionary_type)
  else
    '(names, p) ← parse_value (depth + 2) p;
    if bool_decide (parsed_shape names <> ShSequence (Some 11)) then
      bad "q table column names must be a symbol list"
    else
      p ← note_depth (depth + 2) p;
      '(columns_type, p) ← take_byte "q table columns type" p;
      if negb (columns_type =? 0) then
        bad ("q table columns must be a general list, got type " +:+ show columns_type)
      else
        '(_, p) ← take_attribute "q table column list" p;
        '(column_count, p) ← take_count "q table column list" p;
        _ ← ensure_matching_counts (parsed_len names) column_count "table name/column";
        if saturating_sub (len (p_bytes p)) (p_position p) / 6 <? column_count then
          bad ("q table column count " +:+ show column_count +:+ " exceeds the remaining payload")
        else
          '(row_count, p) ← parse_columns (Z.to_nat column_count) (depth + 3) None p;
          Ok (MkParsed 98 (default 0 row_count) ShTable, p).

Definition parse_counted_function (wire_type depth : Z) (p : Parser) : res (Parsed * Parser) :=
  let name := if wire_type =? 104 then "q projection" else "q composition" in
  '(count, p) ← take_count name p;
  if saturating_sub (len (p_bytes p)) (p_position p) / 2 <? count then
    bad (name +:+ " value count " +:+ show count +:+ " exceeds the remaining payload")
  else
    p ← parse_values (Z.to_nat count) (depth + 1) p;
    Ok (MkParsed wire_type 1 ShFunction, p).

Definition parse_derived_function (wire_type depth : Z) (p : Parser) : res (Parsed * Parser) :=
  '(_, p) ← parse_value (depth + 1) p;
  Ok (MkParsed wire_type 1 ShFunction, p).
End Nested.

(** [parse_value]: recursion always increases the depth, and [note_depth] stops
    it past [MAX_VALUE_DEPTH], so [66] levels of fuel are enough. *)
Fixpoint parse_value `{Allocator} (fuel : nat) (depth : Z) (p : Parser)
    : res (Parsed * Parser) :=
  match fuel with
  | O => OutOfFuel
  | S fuel =>
    p ← note_depth depth p;
    '(wire_type, p) ← take_byte "q value type" p;
    if between 237 wire_type 255 then parse_atom wire_type p
    else if wire_type =? 0 then parse_general_list (parse_value fuel) depth p
    else if between 1 wire_type 19 then parse_typed_list wire_type p
    else if wire_type =? 98 then parse_table (parse_value fuel) depth p
    else if (wire_type =? 99) || (wire_type =? 127) then
      parse_dictionary (parse_value fuel) wire_type depth p
    else if wire_type =? 100 then parse_lambda depth p
    else if between 101 wire_type 103 then parse_primitive wire_type p
    else if between 104 wire_type 105 then
      parse_counted_function (parse_value fuel) wire_type depth p
    else if between 106 wire_type 111 then
      parse_derived_function (parse_value fuel) wire_type depth p
    else if between 112 wire_type 126 then
      bad ("unsupported q function type " +:+ show wire_type
           +:+ ": its layout is not accepted without a source-verified definition")
    else if wire_type =? 128 then
      '(message, p) ← take_until_nul "q error message" p;
      text ← try_lossy_text message "q error message";
      Err (ServerErr text)
    else bad ("unsupported q value type " +:+ show wire_type)
  end.

Definition depth_fuel : nat := 66.

Definition is_table_shape (s : Shape) : bool :=
  match s with ShTable | ShDictionary true => true | _ => false end.

Definition validate `{Allocator} (bytes : list Z) : res Metadata :=
  '(value, parser) ← parse_value depth_fuel 0 (MkParser bytes 0 0);
  if negb (p_position parser =? len bytes) then
    trailing ← usub (len bytes) (p_position parser);
    bad ("q value has " +:+ show trailing +:+ " trailing byte(s)")
  else
    Ok (MkMetadata (parsed_type_code value) (parsed_len value)
          (is_table_shape (parsed_shape value)) (p_max_depth parser)).

(** ** [QValue] and its constructors *)

Record QValue : Type := MkQValue {
  q_bytes : list Z;
  q_type_code : Z;
  q_len : Z;
  q_max_depth : Z;
  q_is_table : bool
}.

Definition from_validated (bytes : list Z) (m : Metadata) : QValue :=
  MkQValue bytes (meta_type_code m) (meta_len m) (meta_max_depth m) (meta_is_table m).

Definition from_owned_bytes `{Allocator} (bytes : list Z) : res QValue :=
  metadata ← validate bytes;
  Ok (from_validated bytes metadata).

Definition from_bytes `{Allocator} (bytes : list Z) : res QValue :=
  metadata ← validate bytes;
  _ ← reserve (len bytes) (fun error =>
        DeserializationErr ("unable to allocate " +:+ show (len bytes)
                            +:+ "-byte lossless q value: " +:+ error));
  Ok (from_validated bytes metadata).

Definition as_bytes (v : QValue) : list Z := q_bytes v.

(** [into_bytes]: [unique] tells whether this is the only owner of the bytes. *)
Definition into_bytes `{Allocator} (unique : bool) (v : QValue) : res (list Z) :=
  if unique then Ok (q_bytes v)
  else
    _ ← reserve (len (q_bytes v)) (fun error =>
          GeneralErr ("unable to allocate " +:+ show (len (q_bytes v))
                      +:+ "-byte lossless q value copy: " +:+ error));
    Ok (q_bytes v).

Definition is_empty (v : QValue) : bool := q_len v =? 0.

Abbreviation cannot msg := (Err (NotAbleToSerializeErr msg)).

(** The payload checks of [QValue::atom], for a supported kind. *)
Definition check_atom_payload (kind : Z) (payload : list Z) : res unit :=
  if kind =? 11 then
    if bool_decide (last payload <> Some 0)
       || bool_decide (0 ∈ firstn (length payload - 1) payload)
    then cannot "q symbol atom payload must contain exactly one terminating NUL"
    else Ok tt
  else
    expected ← k_type_size kind;
    if negb (len payload =? expected) then
      cannot ("q atom kind " +:+ show kind +:+ " requires " +:+ show expected
              +:+ " payload byte(s), got " +:+ show (len payload))
    else if kind =? 1 then
      first ← or_panic (get_at payload 0);
      if 1 <? first then
        cannot ("q boolean atom must be 0 or 1, got " +:+ show first)
      else Ok tt
    else Ok tt.

Definition QValue_atom `{Allocator} (kind : Z) (payload : list Z) : res QValue :=
  if negb (between 1 kind 19) || (kind =? 3) then
    cannot ("unsupported q atom kind " +:+ show kind
            +:+ "; expected 1..=19 excluding reserved kind 3")
  else
    _ ← check_atom_payload kind payload;
    body_length ← ok_or (checked_add (len payload) 1) OverLengthErr;
    _ ← reserve body_length (fun error =>
          NotAbleToSerializeErr ("unable to allocate " +:+ show body_length
                                 +:+ "-byte q atom: " +:+ error));
    from_owned_bytes ((0 - kind) mod 256 :: payload).

(** The [try_fold] of [QValue::list] over the body lengths. *)
Fixpoint sum_lengths (acc : Z) (values : list QValue) : res Z :=
  match values with
  | [] => Ok acc
  | v :: rest =>
    acc ← ok_or (checked_add acc (len (as_bytes v))) OverLengthErr;
    sum_lengths acc rest
  end.

Definition QValue_list `{Allocator} (values : list QValue) : res QValue :=
  count ← ok_or (try_i32 (len values)) OverLengthErr;
  if existsb (fun v => MAX_VALUE_DEPTH <=? q_max_depth v) values then cannot depth_message
  else
    body_length ← sum_lengths 6 values;
    _ ← reserve body_length (fun error =>
          NotAbleToSerializeErr ("unable to allocate " +:+ show body_length
                                 +:+ "-byte q general list: " +:+ error));
    from_owned_bytes ([0; 0] ++ i32_to_le count ++ flat_map as_bytes values).

Definition QValue_dictionary `{Allocator} (keys values : QValue) : res QValue :=
  let keyed_table := (q_type_code keys =? 98) && (q_type_code values =? 98) in
  if ((q_type_code keys =? 98) || (q_type_code values =? 98)) && negb keyed_table then
    cannot "q keyed-table dictionary requires a table on both sides"
  else if negb keyed_table
          && (negb (is_sequence_type (q_type_code keys))
              || negb (is_sequence_type (q_type_code values))) then
    cannot "q dictionary keys and values must be lists, or both must be tables"
  else if negb (q_len keys =? q_len values) then
    cannot ("q dictionary key/value count mismatch: " +:+ show (q_len keys)
            +:+ " and " +:+ show (q_len values))
  else if (MAX_VALUE_DEPTH <=? q_max_depth keys) || (MAX_VALUE_DEPTH <=? q_max_depth values) then
    cannot depth_message
  else
    body_length ← ok_or (n ← checked_add 1 (len (as_bytes keys));
                         checked_add n (len (as_bytes values))) OverLengthErr;
    _ ← reserve body_length (fun error =>
          NotAbleToSerializeErr ("unable to allocate " +:+ show body_length
                                 +:+ "-byte q dictionary: " +:+ error));
    from_owned_bytes (99 :: as_bytes keys ++ as_bytes values).
