(* ===== verification/QGrammar.v ===== *)
(** * QGrammar: the abstract syntax of q value bodies

    An abstract specification of the bytes [QValue] accepts: a tree of q values,
    its byte encoding, its metadata and its nesting depth.  [QValueFacts] proves
    that the parser of [QValue] accepts exactly the encodings of well-formed
    trees. *)

From stdpp Require Import prelude strings.
From S2P Require Import Prelude Errors Types QValue.

(** The attribute byte of a typed list: bit 7 announces an eight-byte count. *)
Record header : Type := MkHeader { hd_extended : bool; hd_attribute : Z }.

Inductive qval : Type :=
| VAtom (kind : Z) (payload : list Z)
| VSymbol (name : list Z)
| VTyped (h : header) (kind count : Z) (payload : list Z)
| VSymbols (h : header) (names : list (list Z))
| VGeneral (attribute : Z) (items : list qval)
| VTable (attribute : Z) (h : header) (names : list (list Z))
    (column_attribute : Z) (columns : list qval)
| VDict (wire_type : Z) (keys values : qval)
| VLambda (context source : list Z)
| VPrimitive (wire_type opcode : Z)
| VCounted (wire_type : Z) (items : list qval)
| VDerived (wire_type : Z) (value : qval).

(** Induction that reaches the values inside lists. *)
Lemma qval_nested_ind (P : qval -> Prop) :
  (forall kind payload, P (VAtom kind payload)) ->
  (forall name, P (VSymbol name)) ->
  (forall h kind count payload, P (VTyped h kind count payload)) ->
  (forall h names, P (VSymbols h names)) ->
  (forall attribute items, Forall P items -> P (VGeneral attribute items)) ->
  (forall attribute h names column_attribute columns, Forall P columns ->
     P (VTable attribute h names column_attribute columns)) ->
  (forall wire_type keys values, P keys -> P values -> P (VDict wire_type keys values)) ->
  (forall context source, P (VLambda context source)) ->
  (forall wire_type opcode, P (VPrimitive wire_type opcode)) ->
  (forall wire_type items, Forall P items -> P (VCounted wire_type items)) ->
  (forall wire_type value, P value -> P (VDerived wire_type value)) ->
  forall v, P v.
Proof.
  intros ? ? ? ? Hgeneral Htable Hdict ? ? Hcounted Hderived. fix IH 1.
  intros []; try (clear IH; done).
  - apply Hgeneral. induction items; constructor; [apply IH|done].
  - apply Htable. induction columns; constructor; [apply IH|done].
  - apply Hdict; apply IH.
  - apply Hcounted. induction items; constructor; [apply IH|done].
  - apply Hderived. apply IH.
Qed.

(** ** Encoding *)

Definition encode_header (h : header) (count : Z) : list Z :=
  if hd_extended h then (hd_attribute h + 128) :: i64_to_le count
  else hd_attribute h :: i32_to_le count.

Definition encode_name (name : list Z) : list Z := name ++ [0].

Fixpoint encode (v : qval) : list Z :=
  match v with
  | VAtom kind payload => (0 - kind) mod 256 :: payload
  | VSymbol name => 245 :: encode_name name
  | VTyped h kind count payload => kind :: encode_header h count ++ payload
  | VSymbols h names => 11 :: encode_header h (len names) ++ flat_map encode_name names
  | VGeneral attribute items =>
    0 :: attribute :: i32_to_le (len items) ++ flat_map encode items
  | VTable attribute h names column_attribute columns =>
    98 :: attribute :: 99
      :: (11 :: encode_header h (len names) ++ flat_map encode_name names)
      ++ 0 :: column_attribute :: i32_to_le (len columns) ++ flat_map encode columns
  | VDict wire_type keys values => wire_type :: encode keys ++ encode values
  | VLambda context source =>
    100 :: encode_name context ++ 10 :: 0 :: i32_to_le (len source) ++ source
  | VPrimitive wire_type opcode => [wire_type; opcode]
  | VCounted wire_type items => wire_type :: i32_to_le (len items) ++ flat_map encode items
  | VDerived wire_type value => wire_type :: encode value
  end.

(** ** Nesting depth, relative to the value's own level *)

Fixpoint vdepth (v : qval) : Z :=
  match v with
  | VAtom _ _ | VSymbol _ | VTyped _ _ _ _ | VSymbols _ _ | VPrimitive _ _ => 0
  | VGeneral _ items | VCounted _ items =>
    1 + foldr (fun v d => Z.max (vdepth v) d) (-1) items
  | VTable _ _ _ _ columns => 3 + foldr (fun v d => Z.max (vdepth v) d) (-1) columns
  | VDict _ keys values => 1 + Z.max (vdepth keys) (vdepth values)
  | VLambda _ _ => 1
  | VDerived _ value => 1 + vdepth value
  end.

Definition list_depth (vs : list qval) : Z := foldr (fun v d => Z.max (vdepth v) d) (-1) vs.

(** ** Metadata *)

Fixpoint parsed_of (v : qval) : Parsed :=
  match v with
  | VAtom kind _ => MkParsed (- kind) 1 ShAtom
  | VSymbol _ => MkParsed (-11) 1 ShAtom
  | VTyped _ kind count _ => MkParsed kind count (ShSequence (Some kind))
  | VSymbols _ names => MkParsed 11 (len names) (ShSequence (Some 11))
  | VGeneral _ items => MkParsed 0 (len items) (ShSequence None)
  | VTable _ _ _ _ columns =>
    MkParsed 98 (match columns with [] => 0 | c :: _ => parsed_len (parsed_of c) end) ShTable
  | VDict wire_type keys values =>
    MkParsed wire_type (parsed_len (parsed_of keys))
      (ShDictionary (bool_decide (parsed_shape (parsed_of keys) = ShTable)))
  | VLambda _ _ => MkParsed 100 1 ShFunction
  | VPrimitive wire_type _ => MkParsed wire_type 1 ShFunction
  | VCounted wire_type _ => MkParsed wire_type 1 ShFunction
  | VDerived wire_type _ => MkParsed wire_type 1 ShFunction
  end.

Definition metadata_of (v : qval) : Metadata :=
  MkMetadata (parsed_type_code (parsed_of v)) (parsed_len (parsed_of v))
    (is_table_shape (parsed_shape (parsed_of v))) (vdepth v).

(** ** Well-formedness *)

Definition no_nul (l : list Z) : bool := forallb (fun b => negb (b =? 0)) l.
Definition booleans (l : list Z) : bool := forallb (fun b => b <=? 1) l.

Definition header_ok (h : header) (count : Z) : bool :=
  between 0 (hd_attribute h) 4 && between 0 count (if hd_extended h then i64_max else i32_max).

(** A kind with a fixed element width. *)
Definition fixed_kind (kind : Z) : bool :=
  between 1 kind 19 && negb (kind =? 3) && negb (kind =? 11).

Definition width (kind : Z) : Z := default 0 (get_at K_TYPE_SIZE kind).

Definition is_sequence (v : qval) : bool :=
  match parsed_shape (parsed_of v) with ShSequence _ => true | _ => false end.
Definition is_table_value (v : qval) : bool :=
  bool_decide (parsed_shape (parsed_of v) = ShTable).

Definition same_len (v w : qval) : bool := parsed_len (parsed_of v) =? parsed_len (parsed_of w).

Fixpoint wf (v : qval) : bool :=
  match v with
  | VAtom kind payload =>
    fixed_kind kind && (len payload =? width kind) && (negb (kind =? 1) || booleans payload)
  | VSymbol name => no_nul name
  | VTyped h kind count payload =>
    fixed_kind kind && header_ok h count && (len payload =? count * width kind)
    && (negb (kind =? 1) || booleans payload)
  | VSymbols h names => header_ok h (len names) && forallb no_nul names
  | VGeneral attribute items =>
    between 0 attribute 4 && (len items <=? i32_max) && forallb wf items
  | VTable attribute h names column_attribute columns =>
    between 0 attribute 4 && header_ok h (len names) && forallb no_nul names
    && between 0 column_attribute 4 && (len columns <=? i32_max) && (len columns =? len names)
    && forallb wf columns && forallb is_sequence columns
    && match columns with [] => true | c :: rest => forallb (same_len c) rest end
  | VDict wire_type keys values =>
    ((wire_type =? 99) || (wire_type =? 127)) && wf keys && wf values && same_len keys values
    && ((is_table_value keys && is_table_value values) || (is_sequence keys && is_sequence values))
  | VLambda context source => no_nul context && (len source <=? i32_max)
  | VPrimitive wire_type opcode =>
    between 101 wire_type 103
    && (((wire_type =? 101) && ((opcode =? 0) || (opcode =? 255)))
        || bool_decide (is_Some (QOperator_from_wire wire_type opcode)))
  | VCounted wire_type items =>
    between 104 wire_type 105 && (len items <=? i32_max) && forallb wf items
  | VDerived wire_type value => between 106 wire_type 111 && wf value
  end.
