(* ===== verification/QValueFacts.v ===== *)
(** * QValueFacts: the validator accepts exactly the grammar

    Each reading primitive of [QValue] gets a lemma that characterises its
    successful runs by the bytes it consumed; the parser's own characterisation
    is then an induction on its fuel, one lemma per [Parser] method. *)

From stdpp Require Import prelude strings.
From Stdlib Require Import ZArith Lia ZifyBool.
From S2P Require Import Prelude Errors Utf8 Types QValue QGrammar.

Create HintDb qvalue.

(** A parser state the code can be in: the cursor is inside the body. *)
Definition good (p : Parser) : Prop :=
  slice_ok (p_bytes p) /\ 0 <= p_position p <= len (p_bytes p).

(** [p'] is [p] after consuming exactly the bytes [x]. *)
Definition consumed (p : Parser) (x : list Z) (p' : Parser) : Prop :=
  get_range (p_bytes p) (p_position p) (p_position p + len x) = Some x
  /\ p' = set_position p (p_position p + len x).

Lemma consumed_good p x p' : good p -> consumed p x p' -> good p'.
Proof.
  intros [Hs Hp] [Hx ->]. split; [done|]. simpl. apply get_range_bounds in Hx. lia.
Qed.

Lemma consumed_app p x y p' :
  consumed p (x ++ y) p' <-> exists q, consumed p x q /\ consumed q y p'.
Proof.
  unfold consumed. rewrite length_app, Nat2Z.inj_add. split.
  - intros [Hx ->]. rewrite Z.add_assoc in Hx. apply get_range_app in Hx as [H1 H2].
    exists (set_position p (p_position p + len x)). unfold set_position. simpl.
    split_and!; [done..|]. by rewrite Z.add_assoc.
  - intros (q & [Hx ->] & Hy & ->). simpl in *.
    rewrite Z.add_assoc. split; [|done]. by apply get_range_app.
Qed.

Lemma consumed_cons p b y p' :
  consumed p (b :: y) p' <-> exists q, consumed p [b] q /\ consumed q y p'.
Proof. apply (consumed_app p [b] y). Qed.

Lemma consumed_nil p p' : good p -> consumed p [] p' <-> p' = p.
Proof.
  intros [_ Hp]. unfold consumed. simpl. rewrite Z.add_0_r.
  assert (set_position p (p_position p) = p) as -> by (by destruct p).
  split; [by intros [_ ->]|]. intros ->. split; [by apply get_range_nil|done].
Qed.

Lemma consumed_fun p x p' p'' : consumed p x p' -> consumed p x p'' -> p' = p''.
Proof. intros [_ ->] [_ ->]. done. Qed.

Lemma consumed_bytes p x p' : good p -> consumed p x p' -> bytes_ok x.
Proof. intros [[Hb _] _] [Hx _]. by eapply get_range_Forall. Qed.

Lemma consumed_state p x p' :
  consumed p x p' -> p_bytes p' = p_bytes p /\ p_max_depth p' = p_max_depth p
                     /\ p_position p' = p_position p + len x.
Proof. intros [_ ->]. done. Qed.

#[export] Hint Resolve consumed_good consumed_bytes : qvalue.

(** ** Reading primitives *)

Lemma parser_take_Ok n c p v p' :
  good p -> 0 <= n ->
  parser_take n c p = Ok (v, p') <-> len v = n /\ consumed p v p'.
Proof.
  intros [[_ Hl] Hp] Hn. unfold parser_take, consumed. split.
  - intros H. simplify_res. unfold checked_add in *. destruct (_ <=? _); simplify_res.
    match goal with H : get_range _ _ _ = Some _ |- _ =>
      pose proof (get_range_bounds _ _ _ _ H) as (_ & _ & E) end.
    assert (len v = n) as <- by lia. done.
  - intros (<- & Hv & ->). unfold checked_add.
    pose proof (get_range_bounds _ _ _ _ Hv) as (_ & Hle & _).
    replace (_ <=? _) with true by (symmetry; bool_lia). simpl. by rewrite Hv.
Qed.

Lemma take_byte_Ok c p b p' :
  good p -> take_byte c p = Ok (b, p') <-> consumed p [b] p'.
Proof.
  intros Hp. unfold take_byte. split.
  - intros H. simplify_res. apply parser_take_Ok in Hm as [Hv Hc]; [|done|lia].
    destruct l as [|x [|]]; simpl in Hv; try lia.
    rewrite get_at_cons0 in Hm0. by simplify_res.
  - intros Hc. by assert (parser_take 1 c p = Ok ([b], p')) as -> by (by apply parser_take_Ok).
Qed.

Lemma take_until_nul_Ok c p name p' :
  good p -> take_until_nul c p = Ok (name, p') <->
  nul_free name /\ consumed p (encode_name name) p'.
Proof.
  intros [[Hb Hl] Hp]. unfold take_until_nul, get_from, consumed, encode_name.
  rewrite length_app. simpl length. rewrite Nat2Z.inj_add. split.
  - intros H. simplify_res. unfold checked_add in *.
    repeat match goal with H : (if ?b then _ else _) = Some _ |- _ => destruct b; simplify_res end.
    apply find_nul_Some in Hm0 as (nm & rest & -> & -> & Hnf).
    apply get_range_app in Hm as [Hm Hr]. rewrite Hm in Hm3. simplify_res.
    apply get_range_cons in Hr as [Hr _].
    split; [done|]. rewrite Z.add_assoc. split; [|done].
    by apply (get_range_trans _ _ _ _ _ _ Hm Hr).
  - intros (Hnf & Hr & ->).
    pose proof (get_range_bounds _ _ _ _ Hr) as (_ & Hle & _).
    rewrite Z.add_assoc in *. apply get_range_app in Hr as [H1 H2].
    destruct (get_range_is_Some (p_bytes p) (p_position p + len name + 1) (len (p_bytes p)))
      as (rest & Hrest & _); [lia..|].
    rewrite (get_range_trans _ _ _ _ _ _ H1 (get_range_trans _ _ _ _ _ _ H2 Hrest)). simpl.
    rewrite find_nul_app by done. simpl. unfold checked_add.
    replace (_ <=? _) with true by (symmetry; bool_lia). simpl.
    replace (_ <=? _) with true by (symmetry; bool_lia). simpl. by rewrite H1.
Qed.

Lemma note_depth_Ok d p p' :
  note_depth d p = Ok p' <-> d <= 64 /\ p' = set_max_depth p (Z.max (p_max_depth p) d).
Proof.
  unfold note_depth, MAX_VALUE_DEPTH. destruct (Z.ltb_spec 64 d); naive_solver lia.
Qed.

Lemma take_attribute_Ok c p a p' :
  good p -> take_attribute c p = Ok (a, p') <-> 0 <= a <= 4 /\ consumed p [a] p'.
Proof.
  intros Hp. unfold take_attribute. split.
  - intros H. simplify_res. apply take_byte_Ok in Hm as Hc; [|done].
    pose proof (consumed_bytes _ _ _ Hp Hc) as Hb. apply Forall_cons in Hb as [Hb _].
    unfold is_byte in Hb. split; [lia|done].
  - intros [Ha Hc]. apply (take_byte_Ok c) in Hc; [|done]. rewrite Hc. simpl.
    by replace (4 <? a) with false by lia.
Qed.

Lemma try_usize_Some z n : z <= isize_max -> try_usize z = Some n <-> n = z /\ 0 <= z.
Proof. intros. unfold try_usize. destruct (_ && _) eqn:E; naive_solver bool_lia. Qed.

Lemma take_count_Ok c p n p' :
  good p -> take_count c p = Ok (n, p') <->
  0 <= n <= i32_max /\ consumed p (i32_to_le n) p'.
Proof.
  intros Hp. unfold take_count. split.
  - intros H. simplify_res. apply parser_take_Ok in Hm as [Hv Hc]; [|done|lia].
    destruct (i32_from_le_inv l _ ltac:(by eapply consumed_bytes) ltac:(lia) eq_refl) as [El Hr].
    apply try_usize_Some in Hm0 as [-> ?]; [|bool_lia].
    split; [lia|]. by rewrite <- El.
  - intros [Hn Hc].
    assert (parser_take 4 c p = Ok (i32_to_le n, p')) as -> by (by apply parser_take_Ok).
    simpl. rewrite i32_le_roundtrip by bool_lia.
    assert (try_usize n = Some n) as -> by (apply try_usize_Some; bool_lia). done.
Qed.

(** ** List headers and symbol lists *)

Lemma attribute_bits b :
  is_byte b -> Z.land b 127 = b mod 128 /\ (Z.land b 128 =? 0) = (b <? 128).
Proof.
  intros Hb.
  pose proof (byte_forallb
    (fun b => (Z.land b 127 =? b mod 128) && Bool.eqb (Z.land b 128 =? 0) (b <? 128))
    b eq_refl Hb) as H.
  apply andb_prop in H as [H1 H2]. apply Bool.eqb_prop in H2. split; [lia|done].
Qed.

Lemma consumed_byte p b q : good p -> consumed p [b] q -> is_byte b.
Proof. intros Hp Hc. apply (consumed_bytes _ _ _ Hp) in Hc. by apply Forall_cons in Hc as [? _]. Qed.

Lemma header_ok_unfold h n :
  header_ok h n = true <->
  0 <= hd_attribute h <= 4 /\ 0 <= n <= (if hd_extended h then i64_max else i32_max).
Proof. unfold header_ok. destruct (hd_extended h); bool_lia. Qed.

Lemma take_typed_list_count_Ok c p n p' :
  good p -> take_typed_list_count c p = Ok (n, p') <->
  exists h, header_ok h n = true /\ consumed p (encode_header h n) p'.
Proof.
  intros Hp. unfold take_typed_list_count. split.
  - intros H. apply bind_Ok in H as ([b q] & Hb & H).
    apply take_byte_Ok in Hb; [|done].
    pose proof (consumed_good _ _ _ Hp Hb) as Hq.
    pose proof (consumed_byte _ _ _ Hp Hb) as Hbyte.
    destruct (attribute_bits b Hbyte) as [E1 E2]. unfold is_byte in Hbyte.
    rewrite E1, E2 in H. apply if_Err_Ok in H as [Ha H].
    destruct (Z.ltb_spec b 128).
    + rewrite Z.mod_small in Ha by lia. apply take_count_Ok in H as [Hn Hc]; [|done].
      exists (MkHeader false b). split; [apply header_ok_unfold; simpl; lia|].
      apply (proj2 (consumed_cons _ _ _ _)). eauto.
    + simplify_res. apply parser_take_Ok in Hm as [Hv Hc]; [|done|lia].
      destruct (i64_from_le_inv l _ ltac:(by eapply consumed_bytes) ltac:(lia) eq_refl)
        as [El Hr].
      apply try_usize_Some in Hm0 as [-> ?]; [|bool_lia].
      exists (MkHeader true (b - 128)). rewrite <- (Z_mod_plus_full b (-1)) in Ha.
      rewrite Z.mod_small in Ha by lia.
      split; [apply header_ok_unfold; simpl; lia|].
      unfold encode_header. simpl. replace (b - 128 + 128) with b by lia.
      apply (proj2 (consumed_cons _ _ _ _)). exists q. split; [done|]. by rewrite <- El.
  - intros ([ext a] & Hh & Hc). apply header_ok_unfold in Hh as [Ha Hn]. simpl in Ha, Hn.
    unfold encode_header in Hc. simpl in Hc. destruct ext.
    all: apply consumed_cons in Hc as (q & Hb & Hc).
    all: pose proof (consumed_good _ _ _ Hp Hb) as Hq;
      pose proof (consumed_byte _ _ _ Hp Hb) as Hbyte;
      apply (take_byte_Ok c) in Hb; [|done]; rewrite Hb; simpl;
      destruct (attribute_bits _ Hbyte) as [-> ->]; unfold is_byte in Hbyte.
    + rewrite <- (Z_mod_plus_full _ (-1)), Z.mod_small by lia.
      replace (4 <? _) with false by lia. replace (_ <? 128) with false by lia.
      assert (parser_take 8 c q = Ok (i64_to_le n, p')) as -> by (by apply parser_take_Ok).
      simpl. rewrite i64_le_roundtrip by bool_lia.
      by assert (try_usize n = Some n) as -> by (apply try_usize_Some; bool_lia).
    + rewrite Z.mod_small by lia. replace (4 <? _) with false by lia.
      replace (_ <? 128) with true by lia. by apply take_count_Ok.
Qed.

Lemma no_nul_spec l : no_nul l = true <-> nul_free l.
Proof.
  unfold no_nul, nul_free. rewrite forallb_forall, Forall_forall. setoid_rewrite list_elem_of_In.
  split; intros H b Hb; specialize (H b Hb); lia.
Qed.

Lemma skip_symbols_Ok fuel count p p' :
  good p -> len (p_bytes p) - p_position p < Z.of_nat fuel -> 0 <= count ->
  skip_symbols fuel count p = Ok p' <->
  exists names, len names = count /\ forallb no_nul names = true
                /\ consumed p (flat_map encode_name names) p'.
Proof.
  revert count p. induction fuel as [|fuel IH]; intros count p Hp Hf Hc.
  { destruct Hp as [_ ?]. lia. }
  simpl. destruct (Z.leb_spec count 0).
  - assert (count = 0) as -> by lia. split.
    + intros [= <-]. exists []. split_and!; [done..|]. by apply consumed_nil.
    + intros ([|? ?] & Hl & _ & H0); [|simpl in Hl; lia].
      apply consumed_nil in H0; [|done]. by subst.
  - split.
    + intros H'. apply bind_Ok in H' as ([name q] & Hn & H').
      apply take_until_nul_Ok in Hn as [Hnf Hcons]; [|done].
      pose proof (consumed_good _ _ _ Hp Hcons) as Hq.
      destruct (consumed_state _ _ _ Hcons) as (E1 & _ & E3).
      apply IH in H' as (names & Hl & Hall & Hrest); [|done| |lia].
      * exists (name :: names). simpl. rewrite (proj2 (no_nul_spec name) Hnf), Hall.
        split_and!; [lia|done|]. apply consumed_app. eauto.
      * rewrite E1, E3. unfold encode_name. rewrite length_app. simpl. lia.
    + intros ([|name names] & Hl & Hall & Hcons); [simpl in Hl; lia|].
      simpl in Hall, Hl. apply andb_prop in Hall as [Hnf Hall]. apply no_nul_spec in Hnf.
      simpl in Hcons. apply consumed_app in Hcons as (q & H1 & H2).
      pose proof (consumed_good _ _ _ Hp H1) as Hq.
      destruct (consumed_state _ _ _ H1) as (E1 & _ & E3).
      assert (take_until_nul "q symbol-list element" p = Ok (name, q)) as ->
        by (by apply take_until_nul_Ok).
      simpl. apply IH; [done| |lia|].
      * rewrite E1, E3. unfold encode_name. rewrite length_app. simpl. lia.
      * exists names. split_and!; [lia|done..].
Qed.

#[local] Arguments skip_symbols : simpl never.

(** ** Runs of the parser

    [steps p x d p']: from [p] the parser consumed exactly [x], and the deepest
    level it noted on the way was [d]. *)

Definition noted (p : Parser) (d : Z) : Parser := set_max_depth p (Z.max (p_max_depth p) d).

Definition steps (p : Parser) (x : list Z) (d : Z) (p' : Parser) : Prop :=
  consumed (noted p d) x p'.

Lemma noted_good p d : good (noted p d) <-> good p.
Proof. done. Qed.

Lemma noted_id p d : d <= p_max_depth p -> noted p d = p.
Proof. intros. unfold noted, set_max_depth. rewrite Z.max_l by done. by destruct p. Qed.

Lemma noted_noted p d e : noted (noted p d) e = noted p (Z.max d e).
Proof. unfold noted, set_max_depth. simpl. f_equal. lia. Qed.

Lemma consumed_noted p x d p' :
  consumed (noted p d) x p' <-> exists q, consumed p x q /\ p' = noted q d.
Proof.
  unfold consumed, noted, set_max_depth, set_position. simpl. split.
  - intros [H ->]. eexists. split; [split; [done|reflexivity]|done].
  - by intros (q & [H ->] & ->).
Qed.

Lemma steps_app p x y d e r :
  steps p (x ++ y) (Z.max d e) r <-> exists q, steps p x d q /\ steps q y e r.
Proof.
  unfold steps. rewrite <- noted_noted, consumed_noted. split.
  - intros (q & Hc & ->). apply consumed_app in Hc as (s & H1 & H2).
    exists s. split; [done|]. apply consumed_noted. eauto.
  - intros (s & H1 & H2). apply consumed_noted in H2 as (q & H2 & ->).
    exists q. split; [|done]. apply consumed_app. eauto.
Qed.

Lemma steps_consumed p x d q : d <= p_max_depth p -> steps p x d q <-> consumed p x q.
Proof. intros. unfold steps. by rewrite noted_id. Qed.

Lemma steps_good p x d q : good p -> steps p x d q -> good q.
Proof. intros Hp. apply consumed_good. by apply noted_good. Qed.

Lemma steps_state p x d q :
  steps p x d q -> p_bytes q = p_bytes p /\ p_max_depth q = Z.max (p_max_depth p) d
                   /\ p_position q = p_position p + len x.
Proof. intros H. by apply consumed_state in H. Qed.

Lemma steps_weaken p x d q : d <= p_max_depth p -> consumed p x q -> steps p x d q.
Proof. intros. by apply steps_consumed. Qed.

(** The number of nested [parse_value] calls a value takes. *)
Fixpoint height (v : qval) : Z :=
  match v with
  | VGeneral _ items | VCounted _ items =>
    1 + foldr (fun v d => Z.max (height v) d) (-1) items
  | VTable _ _ _ _ columns => 1 + foldr (fun v d => Z.max (height v) d) 0 columns
  | VDict _ keys values => 1 + Z.max (height keys) (height values)
  | VDerived _ value => 1 + height value
  | _ => 0
  end.

Definition list_height (vs : list qval) : Z := foldr (fun v d => Z.max (height v) d) (-1) vs.

Lemma height_vdepth v : 0 <= height v <= vdepth v.
Proof.
  assert (forall base vs, -1 <= base -> Forall (fun v => 0 <= height v <= vdepth v) vs ->
    -1 <= foldr (fun v d => Z.max (vdepth v) d) (-1) vs
    /\ base <= foldr (fun v d => Z.max (height v) d) base vs
    <= Z.max base (foldr (fun v d => Z.max (vdepth v) d) (-1) vs)) as Hvs.
  { intros base vs Hb. induction 1; simpl; lia. }
  induction v using qval_nested_ind; simpl; try lia.
  - specialize (Hvs (-1) items ltac:(lia) ltac:(done)). lia.
  - specialize (Hvs 0 columns ltac:(lia) ltac:(done)). lia.
  - specialize (Hvs (-1) items ltac:(lia) ltac:(done)). lia.
Qed.

(** The type byte [wt] is followed by a well-formed value that nests at most [n]
    levels and stays within the depth limit from [depth]. *)
Definition accepts (n depth wt : Z) (p : Parser) (r : Parsed) (p' : Parser) : Prop :=
  exists v x, encode v = wt :: x /\ r = parsed_of v /\ wf v = true
    /\ depth + vdepth v <= 64 /\ height v < n /\ steps p x (depth + vdepth v) p'.

(** The state in which [parse_value] dispatches on the type byte. *)
Definition at_depth (p : Parser) (depth : Z) : Prop :=
  good p /\ 0 <= depth <= 64 /\ depth <= p_max_depth p.

Lemma atom_wire kind : 1 <= kind <= 19 -> (0 - kind) mod 256 = 256 - kind.
Proof. intros. rewrite <- (Z_mod_plus_full _ 1), Z.mod_small; lia. Qed.

(** Which constructors can start with a given type byte. *)
Ltac wire_cases v :=
  destruct v; simpl encode in *; simpl wf in *; simplify_eq; split_andb;
  unfold fixed_kind in *; split_andb;
  repeat match goal with
  | H : context [ (0 - ?k) mod 256 ] |- _ => rewrite (atom_wire k) in * by bool_lia
  end;
  try (exfalso; bool_lia).

Lemma k_type_size_Ok kind w :
  1 <= kind <= 19 -> @k_type_size XqdbError kind = Ok w <-> w = width kind.
Proof.
  intros. unfold k_type_size, width.
  destruct (get_at_is_Some K_TYPE_SIZE kind) as [x Hx]; [simpl; lia|].
  rewrite Hx. simpl. naive_solver.
Qed.

Lemma width_pos kind : fixed_kind kind = true -> 1 <= width kind <= 16.
Proof.
  unfold fixed_kind, width. intros.
  assert (kind ∈ seqZ 1 19) as Hk by (apply elem_of_seqZ; bool_lia).
  vm_compute in Hk.
  repeat (apply elem_of_cons in Hk as [->|Hk]; [vm_compute in *; split; done|]).
  by apply not_elem_of_nil in Hk.
Qed.

Lemma validate_boolean_bytes_Ok l c : validate_boolean_bytes l c = Ok tt <-> booleans l = true.
Proof.
  unfold validate_boolean_bytes, booleans. destruct (List.find _ l) eqn:E.
  - apply find_some in E as [Hin Hz]. split; [done|]. rewrite forallb_forall.
    intros H. specialize (H _ Hin). lia.
  - split; [|done]. intros _. rewrite forallb_forall. intros x Hx.
    apply (find_none _ _ E) in Hx. lia.
Qed.

Lemma boolean_check_Ok kind l c :
  (if kind =? 1 then validate_boolean_bytes l c else Ok tt) = Ok tt
  <-> negb (kind =? 1) || booleans l = true.
Proof. destruct (kind =? 1); simpl; [apply validate_boolean_bytes_Ok|done]. Qed.

Lemma parse_atom_Ok n depth wt p r p' :
  at_depth p depth -> 0 < n -> between 237 wt 255 = true ->
  parse_atom wt p = Ok (r, p') <-> accepts n depth wt p r p'.
Proof.
  intros (Hp & Hd & Hm) Hn Hwt. unfold parse_atom.
  assert ((0 - wt) mod 256 = 256 - wt) as ->
    by (rewrite <- (Z_mod_plus_full _ 1), Z.mod_small; bool_lia).
  set (kind := 256 - wt). assert (1 <= kind <= 19) as Hk by (subst kind; bool_lia). split.
  - intros H. apply if_Err_Ok in H as [Hsup H]. apply bind_Ok in H as (q & Hq & H). injection H as <- <-.
    destruct (Z.eqb_spec kind 11) as [E|E].
    + simplify_res. apply take_until_nul_Ok in Hm0 as [Hnf Hc]; [|done].
      exists (VSymbol l), (encode_name l). simpl. rewrite (proj2 (no_nul_spec l) Hnf).
      split_and!; [f_equal; lia|rewrite E; done|done|lia..|].
      apply steps_weaken; [lia|done].
    + apply bind_Ok in Hq as (w & Hw & Hq). apply k_type_size_Ok in Hw as ->; [|done].
      apply bind_Ok in Hq as ([l q'] & Ht & Hq).
      apply parser_take_Ok in Ht as [Hl Hc]; [|done|].
      2: { pose proof (width_pos kind) as Hw. unfold fixed_kind in Hw. bool_lia. }
      apply bind_Ok in Hq as ([] & Hb & [= ->]). apply boolean_check_Ok in Hb.
      exists (VAtom kind l), l. simpl. rewrite (atom_wire kind Hk), Hb, Hl, Z.eqb_refl.
      unfold fixed_kind. split_and!; [f_equal; lia|done|bool_lia|lia..|].
      apply steps_weaken; [lia|done].
  - intros (v & x & He & -> & Hwf & Hd' & _ & Hs). wire_cases v.
    + assert (kind = kind0) as Ek by (subst kind; rewrite atom_wire; bool_lia).
      clearbody kind. subst kind.
      replace (_ || _) with false by bool_lia.
      apply steps_consumed in Hs; [|simpl; lia].
      replace (kind0 =? 11) with false by bool_lia.
      assert (@k_type_size XqdbError kind0 = Ok (width kind0)) as -> by (by apply k_type_size_Ok).
      assert (len x = width kind0) as Hl by lia.
      simpl. assert (parser_take (width kind0) "q atom payload" p = Ok (x, p')) as ->.
      { apply parser_take_Ok; [done| |done]. lia. }
      simpl. by rewrite (proj2 (boolean_check_Ok kind0 x _)).
    + assert (kind = 11) as Ek by done. clearbody kind. subst kind. simpl.
      apply steps_consumed in Hs; [|simpl; lia].
      assert (take_until_nul "q symbol atom" p = Ok (name, p')) as ->.
      { apply take_until_nul_Ok; [done|]. split; [by apply no_nul_spec|done]. }
      done.
Qed.

Lemma checked_mul_Some a b : a * b <= usize_max -> checked_mul a b = Some (a * b).
Proof. intros. unfold checked_mul. by replace (_ <=? _) with true by lia. Qed.

Lemma checked_add_Some a b : a + b <= usize_max -> checked_add a b = Some (a + b).
Proof. intros. unfold checked_add. by replace (_ <=? _) with true by lia. Qed.

Lemma checked_mul_inv a b c : checked_mul a b = Some c -> c = a * b /\ a * b <= usize_max.
Proof. unfold checked_mul. destruct (_ <=? _) eqn:E; naive_solver lia. Qed.

Lemma checked_add_inv a b c : checked_add a b = Some c -> c = a + b /\ a + b <= usize_max.
Proof. unfold checked_add. destruct (_ <=? _) eqn:E; naive_solver lia. Qed.

Lemma good_len p : good p -> len (p_bytes p) <= isize_max.
Proof. by intros [[_ ?] _]. Qed.

Lemma consumed_len p x q : good p -> consumed p x q -> len x <= isize_max.
Proof.
  intros Hp [Hx _]. apply get_range_bounds in Hx. apply good_len in Hp as ?. lia.
Qed.

Lemma skip_symbols_enough c h p q :
  good p -> consumed p (encode_header h c) q ->
  len (p_bytes q) - p_position q < Z.of_nat (S (S (length (p_bytes q)))).
Proof. intros Hp Hc. destruct (consumed_good _ _ _ Hp Hc) as [_ ?]. lia. Qed.

Lemma parse_typed_list_Ok n depth wt p r p' :
  at_depth p depth -> 0 < n -> between 1 wt 19 = true ->
  parse_typed_list wt p = Ok (r, p') <-> accepts n depth wt p r p'.
Proof.
  intros (Hp & Hd & Hm) Hn Hwt. unfold parse_typed_list. split.
  - intros H. apply if_Err_Ok in H as [H3 H]. apply bind_Ok in H as ([count q] & Hc & H).
    apply take_typed_list_count_Ok in Hc as (h & Hh & Hc); [|done].
    pose proof (consumed_good _ _ _ Hp Hc) as Hq. pose proof (proj1 (header_ok_unfold _ _) Hh).
    apply bind_Ok in H as (q' & Hq' & [= <- <-]). destruct (Z.eqb_spec wt 11) as [->|].
    + apply skip_symbols_Ok in Hq' as (names & <- & Hall & Hcons);
        [|done|by eapply (skip_symbols_enough _ _ p)|lia].
      exists (VSymbols h names), (encode_header h (len names) ++ flat_map encode_name names).
      simpl. rewrite Hh, Hall. split_and!; [done..|lia|lia|].
      apply steps_weaken; [lia|]. apply consumed_app. eauto.
    + apply bind_Ok in Hq' as (w & Hw & Hq'). apply k_type_size_Ok in Hw as ->; [|bool_lia].
      apply bind_Ok in Hq' as (pl & Hpl & Hq'). apply ok_or_Ok, checked_mul_inv in Hpl as [-> _].
      apply bind_Ok in Hq' as ([payload q''] & Ht & Hq').
      pose proof (width_pos wt) as Hw. unfold fixed_kind in Hw.
      apply parser_take_Ok in Ht as [Hl Hcons]; [|done|bool_lia].
      apply bind_Ok in Hq' as ([] & Hb & [= ->]). apply boolean_check_Ok in Hb.
      exists (VTyped h wt count payload), (encode_header h count ++ payload). simpl.
      unfold fixed_kind. rewrite Hh, Hb, Hl, Z.eqb_refl.
      split_and!; [done|done|bool_lia|lia|lia|].
      apply steps_weaken; [lia|]. apply consumed_app. eauto.
  - intros (v & x & He & -> & Hwf & Hd' & _ & Hs). wire_cases v.
    + replace (wt =? 3) with false by bool_lia. apply steps_consumed in Hs; [|simpl; lia].
      apply consumed_app in Hs as (q & Hc & Hs).
      pose proof (consumed_good _ _ _ Hp Hc) as Hq.
      pose proof (proj1 (header_ok_unfold _ _) H2) as Hh.
      assert (take_typed_list_count "q typed list" p = Ok (count, q)) as ->
        by (apply take_typed_list_count_Ok; eauto).
      simpl. replace (wt =? 11) with false by bool_lia.
      assert (@k_type_size XqdbError wt = Ok (width wt)) as ->
        by (apply k_type_size_Ok; [bool_lia|done]).
      assert (len payload = count * width wt) as Hl by lia.
      pose proof (consumed_len _ _ _ Hq Hs). simpl.
      rewrite checked_mul_Some by bool_lia. simpl.
      assert (parser_take (count * width wt) "q typed-list payload" q = Ok (payload, p')) as ->
        by (apply parser_take_Ok; [done|lia|done]).
      simpl. by rewrite (proj2 (boolean_check_Ok wt payload _)).
    + apply steps_consumed in Hs; [|simpl; lia]. simpl.
      apply consumed_app in Hs as (q & Hc & Hs).
      pose proof (consumed_good _ _ _ Hp Hc) as Hq.
      assert (take_typed_list_count "q typed list" p = Ok (len names, q)) as ->
        by (apply take_typed_list_count_Ok; eauto).
      simpl.
      by rewrite (proj2 (skip_symbols_Ok _ (len names) q p' Hq
        (skip_symbols_enough _ _ _ _ Hp Hc) ltac:(lia)))
        by eauto.
Qed.

Lemma parse_primitive_Ok n depth wt p r p' :
  at_depth p depth -> 0 < n -> between 101 wt 103 = true ->
  parse_primitive wt p = Ok (r, p') <-> accepts n depth wt p r p'.
Proof.
  intros (Hp & Hd & Hm) Hn Hwt. unfold parse_primitive. split.
  - intros H. apply bind_Ok in H as ([op q] & Hb & H). apply take_byte_Ok in Hb; [|done].
    apply if_Err_Ok in H as [Hop [= <- <-]].
    exists (VPrimitive wt op), [op]. simpl. rewrite Hwt. simpl.
    split_and!; [done..| |lia|lia|by apply steps_weaken; [lia|]].
    destruct ((wt =? 101) && _); simpl in *; [done|]. by apply negb_false_iff in Hop.
  - intros (v & x & He & -> & Hwf & Hd' & _ & Hs). wire_cases v.
    apply steps_consumed in Hs; [|simpl; lia].
    assert (take_byte "q primitive opcode" p = Ok (opcode, p')) as -> by (by apply take_byte_Ok).
    simpl. destruct ((wt =? 101) && _); simpl in *; [done|]. by rewrite H0.
Qed.

(** ** Composing characterisations

    [reads base m S]: from any state at level [base], the successful runs of [m]
    are exactly those that consume bytes [x] and note depth [d] with [S a x d].
    The rules below follow the sequencing of the parser methods. *)

Definition reads {A} (base : Z) (m : Parser -> res (A * Parser))
    (S : A -> list Z -> Z -> Prop) : Prop :=
  forall p a q, at_depth p base ->
    m p = Ok (a, q) <-> exists x d, base <= d /\ S a x d /\ steps p x d q.

Definition reads_state (base : Z) (m : Parser -> res Parser) (S : list Z -> Z -> Prop) : Prop :=
  forall p q, at_depth p base ->
    m p = Ok q <-> exists x d, base <= d /\ S x d /\ steps p x d q.

Lemma steps_at_depth p x d q base : at_depth p base -> steps p x d q -> at_depth q base.
Proof.
  intros (Hp & Hb & Hm) Hs. split_and!; [by eapply steps_good|lia..|].
  apply steps_state in Hs as (_ & -> & _). lia.
Qed.

Lemma reads_bind {A B} base (m : Parser -> res (A * Parser)) S
    (f : A -> Parser -> res (B * Parser)) T :
  reads base m S -> (forall a x d, S a x d -> reads base (f a) (T a)) ->
  reads base (fun p => '(a, p) ← m p; f a p)
    (fun b z e => exists a x d y d', base <= d /\ base <= d' /\ S a x d /\ T a b y d'
                                     /\ z = x ++ y /\ e = Z.max d d').
Proof.
  intros Hm Hf p b r Hp. split.
  - intros H. apply bind_Ok in H as ([a q] & H1 & H2).
    apply Hm in H1 as (x & d & Hd & HS & Hs); [|done].
    apply (Hf a x d HS) in H2 as (y & d' & Hd' & HT & Hs'); [|by eapply steps_at_depth].
    exists (x ++ y), (Z.max d d'). split; [lia|]. split; [by exists a, x, d, y, d'|].
    apply steps_app. eauto.
  - intros (z & e & _ & (a & x & d & y & d' & Hd & Hd' & HS & HT & -> & ->) & Hs).
    apply steps_app in Hs as (q & H1 & H2). apply bind_Ok. exists (a, q). split.
    + apply Hm; eauto.
    + apply (Hf a x d HS); [by eapply steps_at_depth|]. eauto.
Qed.

Lemma reads_bind_state {B} base (m : Parser -> res Parser) S (f : Parser -> res (B * Parser)) T :
  reads_state base m S -> reads base f T ->
  reads base (fun p => p ← m p; f p)
    (fun b z e => exists x d y d', base <= d /\ base <= d' /\ S x d /\ T b y d'
                                   /\ z = x ++ y /\ e = Z.max d d').
Proof.
  intros Hm Hf p b r Hp. split.
  - intros H. apply bind_Ok in H as (q & H1 & H2).
    apply Hm in H1 as (x & d & Hd & HS & Hs); [|done].
    apply Hf in H2 as (y & d' & Hd' & HT & Hs'); [|by eapply steps_at_depth].
    exists (x ++ y), (Z.max d d'). split; [lia|]. split; [by exists x, d, y, d'|].
    apply steps_app. eauto.
  - intros (z & e & _ & (x & d & y & d' & Hd & Hd' & HS & HT & -> & ->) & Hs).
    apply steps_app in Hs as (q & H1 & H2). apply bind_Ok. exists q. split.
    + apply Hm; eauto.
    + apply Hf; [by eapply steps_at_depth|]. eauto.
Qed.

Lemma reads_ret {A} base (a : A) :
  reads base (fun p => Ok (a, p)) (fun b x d => b = a /\ x = [] /\ d = base).
Proof.
  intros p b q Hp. pose proof Hp as (Hg & _ & Hm). split.
  - intros [= <- <-]. exists [], base. split_and!; [lia|done..|].
    apply steps_consumed; [done|]. by apply consumed_nil.
  - intros (x & d & _ & (-> & -> & ->) & Hs). apply steps_consumed in Hs; [|done].
    apply consumed_nil in Hs; [|done]. by subst.
Qed.

(** A pure computation between two reads. *)
Lemma reads_pure {A B} base (m : res A) (f : A -> Parser -> res (B * Parser)) T :
  (forall a, m = Ok a -> reads base (f a) (T a)) ->
  reads base (fun p => a ← m; f a p) (fun b x d => exists a, m = Ok a /\ T a b x d).
Proof.
  intros Hf p b q Hp. split.
  - intros H. apply bind_Ok in H as (a & H1 & H2).
    apply Hf in H2 as (x & d & Hd & HT & Hs); [|done..]. eauto 10.
  - intros (x & d & Hd & (a & H1 & HT) & Hs). apply bind_Ok. exists a. split; [done|].
    apply Hf; [done..|]. eauto.
Qed.

Lemma reads_guard {A} base (b : bool) e (m : Parser -> res (A * Parser)) S :
  reads base m S ->
  reads base (fun p => if b then Err e else m p) (fun a x d => b = false /\ S a x d).
Proof. intros Hm p a q Hp. rewrite if_Err_Ok, (Hm p a q Hp). naive_solver. Qed.

(** A guard on the parser state that the rest of the run implies. *)
Lemma reads_guard_state {A} base (b : Parser -> bool) (e : Parser -> XqdbError)
    (m : Parser -> res (A * Parser)) S :
  reads base m S ->
  (forall p a x d q, at_depth p base -> S a x d -> steps p x d q -> b p = false) ->
  reads base (fun p => if b p then Err (e p) else m p) S.
Proof.
  intros Hm Hb p a q Hp. rewrite if_Err_Ok, (Hm p a q Hp). naive_solver.
Qed.

Lemma reads_iff {A} base (m : Parser -> res (A * Parser)) S T :
  reads base m S -> (forall a x d, base <= d -> S a x d <-> T a x d) -> reads base m T.
Proof.
  intros Hm H p a q Hp. rewrite (Hm p a q Hp). split.
  - intros (x & d & Hd & HS & Hs). exists x, d. split_and!; [done| |done]. by apply H.
  - intros (x & d & Hd & HS & Hs). exists x, d. split_and!; [done| |done]. by apply H.
Qed.

(** Primitives that only consume. *)
Lemma reads_consumed {A} base (m : Parser -> res (A * Parser)) (S : A -> list Z -> Prop) :
  (forall p a q, good p -> m p = Ok (a, q) <-> exists x, S a x /\ consumed p x q) ->
  reads base m (fun a x d => S a x /\ d = base).
Proof.
  intros Hm p a q (Hp & _ & Hd). rewrite (Hm p a q Hp). split.
  - intros (x & HS & Hc). exists x, base. split_and!; [lia|done..|]. by apply steps_weaken.
  - intros (x & d & _ & [HS ->] & Hs). exists x. split; [done|].
    by apply steps_consumed in Hs.
Qed.

Lemma reads_byte base c : reads base (take_byte c) (fun b x d => x = [b] /\ d = base).
Proof.
  apply (reads_consumed base _ (fun b x => x = [b])). intros.
  rewrite take_byte_Ok by done. naive_solver.
Qed.

Lemma reads_attribute base c :
  reads base (take_attribute c) (fun b x d => (0 <= b <= 4 /\ x = [b]) /\ d = base).
Proof.
  apply (reads_consumed base _ (fun b x => 0 <= b <= 4 /\ x = [b])). intros.
  rewrite take_attribute_Ok by done. naive_solver.
Qed.

Lemma reads_count base c :
  reads base (take_count c) (fun n x d => (0 <= n <= i32_max /\ x = i32_to_le n) /\ d = base).
Proof.
  apply (reads_consumed base _ (fun n x => 0 <= n <= i32_max /\ x = i32_to_le n)). intros.
  rewrite take_count_Ok by done. naive_solver.
Qed.

Lemma reads_take base n c :
  0 <= n -> reads base (parser_take n c) (fun v x d => (len v = n /\ x = v) /\ d = base).
Proof.
  intros Hn. apply (reads_consumed base _ (fun v x => len v = n /\ x = v)). intros.
  rewrite parser_take_Ok by done. naive_solver.
Qed.

Lemma reads_until_nul base c :
  reads base (take_until_nul c) (fun v x d => (nul_free v /\ x = encode_name v) /\ d = base).
Proof.
  apply (reads_consumed base _ (fun v x => nul_free v /\ x = encode_name v)). intros.
  rewrite take_until_nul_Ok by done. naive_solver.
Qed.

Lemma reads_note_depth base e :
  base <= e -> reads_state base (note_depth e) (fun x d => x = [] /\ d = e /\ e <= 64).
Proof.
  intros He p q Hp. pose proof Hp as (Hg & _). rewrite note_depth_Ok. split.
  - intros [H ->]. exists [], e. split_and!; [done..|].
    by apply consumed_nil.
  - intros (x & d & _ & (-> & -> & H) & Hs). split; [done|]. by apply consumed_nil in Hs.
Qed.

(** What the methods of the parser accept after the type byte [wt]. *)
Definition value_spec (n depth wt : Z) (r : Parsed) (x : list Z) (d : Z) : Prop :=
  exists v, encode v = wt :: x /\ r = parsed_of v /\ wf v = true
    /\ d = depth + vdepth v /\ d <= 64 /\ height v < n.

Lemma list_depth_ge vs : -1 <= list_depth vs.
Proof. unfold list_depth. induction vs; simpl; lia. Qed.

Lemma vdepth_nonneg v : 0 <= vdepth v.
Proof.
  induction v; simpl; try lia.
  - pose proof (list_depth_ge items). unfold list_depth in *. lia.
  - pose proof (list_depth_ge columns). unfold list_depth in *. lia.
  - pose proof (list_depth_ge items). unfold list_depth in *. lia.
Qed.

Lemma reads_value n depth wt m :
  (forall p r q, at_depth p depth -> m p = Ok (r, q) <-> accepts n depth wt p r q) ->
  reads depth m (value_spec n depth wt).
Proof.
  intros H p r q Hp. rewrite (H p r q Hp). unfold accepts, value_spec. split.
  - intros (v & x & He & -> & Hw & Hd & Hn & Hs). exists x, (depth + vdepth v).
    pose proof (vdepth_nonneg v). split_and!; [lia| |done]. by exists v.
  - intros (x & d & _ & (v & He & -> & Hw & -> & Hd & Hn) & Hs). by exists v, x.
Qed.

(** [reads] goals are decomposed along the code; what remains is the
    equivalence of the composed specification with the grammar. *)
Create HintDb reads.
#[export] Hint Resolve reads_byte reads_attribute reads_count reads_until_nul reads_ret : reads.

(** Opening and building composed specifications. *)
Ltac spec_elim H :=
  decompose [ex and] H; clear H; subst;
  repeat match goal with
  | H : negb (?x =? ?c) = false |- _ =>
    apply negb_false_iff, Z.eqb_eq in H; subst
  | H : ?a <= Z.max _ _ |- _ => clear H
  | H : ?a <= ?a |- _ => clear H
  end.
Ltac spec_intro :=
  repeat match goal with
  | |- exists _, _ => eexists
  | |- _ /\ _ => split
  end;
  try match goal with
  | |- negb _ = false => apply negb_false_iff, Z.eqb_refl
  | |- _ = _ => reflexivity
  end;
  try match goal with |- @eq (list _) _ _ => simpl; rewrite ?app_nil_r; reflexivity end.

Lemma parse_lambda_reads n depth :
  0 < n -> 0 <= depth -> reads depth (parse_lambda depth) (value_spec n depth 100).
Proof.
  intros Hn Hd. eapply reads_iff.
  { unfold parse_lambda. apply reads_bind; [apply reads_until_nul|intros ctx _ _ _].
    apply reads_bind_state; [apply reads_note_depth; lia|].
    apply reads_bind; [apply reads_byte|intros st _ _ _]. apply reads_guard.
    apply reads_bind; [apply reads_byte|intros at_ _ _ _]. apply reads_guard.
    apply reads_bind; [apply reads_count|intros sl ? ? [[? ?] ?]].
    apply reads_bind; [|intros src _ _ _; apply reads_ret].
    apply reads_take. lia. }
  intros r x d Hbase. simpl. split.
  - intros H. spec_elim H. match goal with H : nul_free ?ctx, _ : len ?src <= _ |- _ =>
      exists (VLambda ctx src); simpl; rewrite (proj2 (no_nul_spec ctx) H) end.
    rewrite app_nil_r. split_and!; [done..|bool_lia|lia|lia|lia].
  - intros (v & He & -> & Hwf & -> & Hd' & Hn'). wire_cases v. simpl in *.
    assert (nul_free context) by (by apply no_nul_spec).
    spec_intro; try done; bool_lia.
Qed.

(** ** Nested values *)

Definition item_spec (n depth : Z) (r : Parsed) (x : list Z) (d : Z) : Prop :=
  exists v, encode v = x /\ r = parsed_of v /\ wf v = true
    /\ d = depth + vdepth v /\ d <= 64 /\ height v < n.

(** The deepest level a run over the items [vs] at level [depth] notes. *)
Definition deepest (depth base : Z) (vs : list qval) : Z :=
  foldr (fun v d => Z.max (depth + vdepth v) d) base vs.

Definition items_ok (n depth : Z) (vs : list qval) : Prop :=
  forallb wf vs = true /\ depth + list_depth vs <= 64 /\ list_height vs < n.

Lemma deepest_eq depth base vs :
  depth - 1 <= base -> deepest depth base vs = Z.max base (depth + list_depth vs).
Proof. intros. unfold deepest, list_depth. induction vs; simpl; lia. Qed.

Lemma deepest_ge depth base vs : base <= deepest depth base vs.
Proof. unfold deepest. induction vs; simpl; lia. Qed.

Lemma deepest_table depth vs :
  Z.max (depth + 2) (deepest (depth + 3) depth vs) = depth + (3 + list_depth vs).
Proof. unfold deepest, list_depth. induction vs; simpl; lia. Qed.

Lemma list_depth_cons v vs : list_depth (v :: vs) = Z.max (vdepth v) (list_depth vs).
Proof. done. Qed.

Lemma list_height_cons v vs : list_height (v :: vs) = Z.max (height v) (list_height vs).
Proof. done. Qed.

Lemma list_height_ge vs : -1 <= list_height vs.
Proof. unfold list_height. induction vs; simpl; lia. Qed.

Lemma encode_min v : wf v = true -> 2 <= len (encode v).
Proof.
  induction v; simpl wf; intros Hwf; split_andb; simpl encode; simpl length;
    unfold encode_header, encode_name; rewrite ?length_app; simpl;
    rewrite ?len_i32_to_le; try lia.
  all: try (destruct (hd_extended h); simpl; lia).
  all: try (pose proof (width_pos kind); lia).
  all: repeat match goal with H : wf ?v = true -> _, H' : wf ?v = true |- _ => specialize (H H') end;
    rewrite ?length_app; simpl; lia.
Qed.

Lemma encode_sequence_min v : wf v = true -> is_sequence v = true -> 6 <= len (encode v).
Proof.
  unfold is_sequence. destruct v; simpl wf; simpl parsed_of; simpl; try done; intros _ _.
  all: rewrite ?length_app; unfold encode_header;
    try destruct (hd_extended h); simpl length; rewrite ?len_i32_to_le, ?len_i64_to_le; lia.
Qed.

Lemma encode_items_min k vs :
  (forall v, v ∈ vs -> k <= len (encode v)) -> k * len vs <= len (flat_map encode vs).
Proof.
  induction vs as [|v vs IH]; intros H; [simpl; lia|]. cbn [flat_map length].
  rewrite length_app. specialize (H v ltac:(left)) as Hv.
  specialize (IH ltac:(intros w Hw; apply H; by right)). lia.
Qed.

Section Nested.
  Context (pv : Z -> Parser -> res (Parsed * Parser)) (n : Z).
  Hypothesis n_nonneg : 0 <= n.
  Hypothesis pv_reads : forall base depth,
    0 <= base <= depth -> reads base (pv depth) (item_spec n depth).

Lemma parse_values_reads base depth count :
  0 <= base <= depth -> base <= 64 ->
  reads_state base (parse_values pv count depth)
    (fun x d => exists vs, length vs = count /\ x = flat_map encode vs
       /\ d = deepest depth base vs /\ Forall (fun v => wf v = true
            /\ depth + vdepth v <= 64 /\ height v < n) vs).
Proof.
  intros Hb H64. induction count as [|count IH]; intros p q Hp; simpl.
  - pose proof (reads_ret base tt p tt q Hp) as Hr. split.
    + intros [= <-]. destruct (proj1 Hr eq_refl) as (x & d & Hd & (_ & -> & ->) & Hs).
      exists [], base. split_and!; [done| |done]. by exists [].
    + intros (x & d & Hd & (vs & Hl & -> & -> & _) & Hs).
      destruct vs; [|done]. destruct Hr as [_ Hr]. f_equal.
      enough (@Ok XqdbError _ (tt, p) = Ok (tt, q)) by congruence. apply Hr. naive_solver.
  - split.
    + intros H. apply bind_Ok in H as ([r s] & H1 & H2).
      apply (pv_reads base depth Hb) in H1 as (x & d & Hd & (v & <- & -> & Hw & -> & H3 & H4) & Hs); [|done].
      apply IH in H2 as (y & d' & Hd' & (vs & Hl & -> & -> & Hall) & Hs');
        [|by eapply steps_at_depth].
      exists (encode v ++ flat_map encode vs), (deepest depth base (v :: vs)).
      split_and!; [apply deepest_ge| |].
      * exists (v :: vs). split_and!; [simpl; lia|done..|]. by constructor.
      * simpl. apply steps_app. eauto.
    + intros (x & d & Hd & (vs & Hl & -> & -> & Hall) & Hs).
      destruct vs as [|v vs]; [done|]. apply Forall_cons in Hall as [(Hw & H1 & H2) Hall].
      simpl in Hs. apply steps_app in Hs as (s & Hs1 & Hs2). apply bind_Ok.
      exists (parsed_of v, s). split.
      * apply (pv_reads base depth Hb); [done|]. exists (encode v), (depth + vdepth v).
        pose proof (vdepth_nonneg v). split_and!; [lia| |done]. by exists v.
      * apply IH; [by eapply steps_at_depth|]. eexists _, _. split_and!; [|by exists vs; simplify_eq/=|done].
        apply deepest_ge.
Qed.

Lemma items_ok_Forall depth vs :
  depth <= 64 ->
  Forall (fun v => wf v = true /\ depth + 1 + vdepth v <= 64 /\ height v < n) vs
  <-> items_ok n (depth + 1) vs.
Proof.
  intros Hd. unfold items_ok. induction vs as [|v vs IH].
  - split; [|by constructor]. intros _. unfold list_depth, list_height. simpl. split_and!; [done|lia..].
  - rewrite Forall_cons, IH, list_depth_cons, list_height_cons. simpl forallb.
    rewrite andb_true_iff. split; intros; destruct_and?; split_and!; try done; lia.
Qed.

(** The remaining-payload guards never reject a list whose items follow. *)
Lemma remaining_guard k p x d q count :
  0 < k -> good p -> steps p x d q -> k * count <= len x ->
  (saturating_sub (len (p_bytes p)) (p_position p) / k <? count) = false.
Proof.
  intros Hk Hp Hs Hc. pose proof (steps_good _ _ _ _ Hp Hs) as [_ Hq].
  apply steps_state in Hs as (E & _ & Hpos). rewrite E in Hq.
  unfold saturating_sub. apply Z.ltb_ge. apply Z.div_le_lower_bound; lia.
Qed.

Lemma items_min vs : forallb wf vs = true -> 2 * len vs <= len (flat_map encode vs).
Proof.
  intros H. apply encode_items_min. intros v Hv. apply encode_min.
  rewrite forallb_forall in H. apply H. by apply list_elem_of_In.
Qed.

Lemma item_list_reads depth count (r : Parsed) (e : XqdbError) :
  0 <= depth <= 64 -> 0 <= count ->
  reads depth
    (fun p => if saturating_sub (len (p_bytes p)) (p_position p) / 2 <? count then Err e
              else p ← parse_values pv (Z.to_nat count) (depth + 1) p; Ok (r, p))
    (fun r' x d => r' = r /\ exists vs, len vs = count /\ x = flat_map encode vs
       /\ d = depth + (1 + list_depth vs) /\ items_ok n (depth + 1) vs).
Proof.
  intros Hd Hc. eapply reads_iff.
  { eapply (reads_guard_state depth
      (fun p => saturating_sub (len (p_bytes p)) (p_position p) / 2 <? count) (fun _ => e)).
    - apply reads_bind_state; [apply parse_values_reads; lia|apply reads_ret].
    - intros p a x d q (Hp & _) HS Hs. spec_elim HS.
      match goal with H : Forall _ _ |- _ => apply items_ok_Forall in H as [Hw _]; [|lia] end.
      eapply remaining_guard; [lia|done..|]. apply items_min in Hw. rewrite app_nil_r. lia. }
  intros r' x d Hbase. simpl. split.
  - intros H. spec_elim H. split; [done|].
    match goal with H : Forall _ ?vs |- _ => apply items_ok_Forall in H as Hok; [|lia]; exists vs end.
    rewrite app_nil_r. split_and!; [lia|done| |done].
    pose proof (list_depth_ge x4). rewrite deepest_eq by lia. lia.
  - intros (-> & vs & <- & -> & -> & Hok). pose proof (list_depth_ge vs).
    apply items_ok_Forall in Hok as Hall; [|lia].
    exists (flat_map encode vs), (deepest (depth + 1) depth vs), [], depth.
    rewrite app_nil_r, deepest_eq by lia.
    split_and!; [lia|lia| |done|done|done|done|lia].
    exists vs. split_and!; [lia|done| |done]. rewrite deepest_eq; lia.
Qed.

Lemma parse_general_list_reads depth :
  0 <= depth <= 64 ->
  reads depth (parse_general_list pv depth) (value_spec (n + 1) depth 0).
Proof.
  intros Hd. eapply reads_iff.
  { unfold parse_general_list. apply reads_bind; [apply reads_attribute|intros at_ _ _ _].
    apply reads_bind; [apply reads_count|intros count ? ? [[? ?] ?]].
    apply item_list_reads; lia. }
  intros r x d Hbase. simpl. unfold value_spec. split.
  - intros H. spec_elim H.
    match goal with H : items_ok _ _ ?vs, _ : ?b <= 4 |- _ =>
      exists (VGeneral b vs); destruct H as (Hw & H1 & H2); simpl;
      fold (list_depth vs) (list_height vs); rewrite Hw end.
    split_and!; try done; bool_lia.
  - intros (v & He & -> & Hwf & -> & Hd' & Hn'). wire_cases v. simpl in *.
    fold (list_depth items) (list_height items) in *. pose proof (list_depth_ge items).
    assert (items_ok n (depth + 1) items) by (unfold items_ok; split_and!; [done|lia..]).
    spec_intro; try done; bool_lia.
Qed.

Lemma parse_counted_function_reads wt depth :
  0 <= depth <= 64 -> between 104 wt 105 = true ->
  reads depth (parse_counted_function pv wt depth) (value_spec (n + 1) depth wt).
Proof.
  intros Hd Hwt. eapply reads_iff.
  { unfold parse_counted_function.
    apply reads_bind; [apply reads_count|intros count ? ? [[? ?] ?]].
    apply item_list_reads; lia. }
  intros r x d Hbase. simpl. unfold value_spec. split.
  - intros H. spec_elim H.
    match goal with H : items_ok _ _ ?vs |- _ =>
      exists (VCounted wt vs); destruct H as (Hw & H1 & H2); simpl;
      fold (list_depth vs) (list_height vs); rewrite Hw, Hwt end.
    split_and!; try done; bool_lia.
  - intros (v & He & -> & Hwf & -> & Hd' & Hn'). wire_cases v. simpl in *.
    fold (list_depth items) (list_height items) in *. pose proof (list_depth_ge items).
    assert (items_ok n (depth + 1) items) by (unfold items_ok; split_and!; [done|lia..]).
    spec_intro; try done; bool_lia.
Qed.

Lemma parse_derived_function_reads wt depth :
  0 <= depth <= 64 -> between 106 wt 111 = true ->
  reads depth (parse_derived_function pv wt depth) (value_spec (n + 1) depth wt).
Proof.
  intros Hd Hwt. eapply reads_iff.
  { unfold parse_derived_function.
    apply reads_bind; [apply pv_reads; lia|intros ? _ _ _; apply reads_ret]. }
  intros r x d Hbase. simpl. unfold value_spec, item_spec. split.
  - intros H. spec_elim H.
    match goal with _ : wf ?v = true |- _ =>
      pose proof (vdepth_nonneg v); exists (VDerived wt v); simpl end.
    rewrite app_nil_r. split_and!; try done; bool_lia.
  - intros (v & He & -> & Hwf & -> & Hd' & Hn'). wire_cases v. simpl in *.
    pose proof (vdepth_nonneg v).
    spec_intro; try done; bool_lia.
Qed.

Lemma ensure_matching_counts_Ok l r c u : ensure_matching_counts l r c = Ok u <-> l = r.
Proof. unfold ensure_matching_counts. destruct u, (Z.eqb_spec l r); naive_solver. Qed.

Lemma dictionary_shape_Ok keys values c k :
  dictionary_shape (parsed_of keys) (parsed_of values) = Ok (c, k) <->
  same_len keys values = true /\ c = parsed_len (parsed_of keys)
  /\ k = bool_decide (parsed_shape (parsed_of keys) = ShTable)
  /\ (is_table_value keys && is_table_value values)
     || (is_sequence keys && is_sequence values) = true.
Proof.
  unfold dictionary_shape, same_len, is_table_value, is_sequence, sequence_len.
  destruct (parsed_of keys) as [tk lk sk], (parsed_of values) as [tv lv sv]; simpl.
  destruct sk, sv; simpl; unfold ensure_matching_counts; destruct (Z.eqb_spec lk lv); simpl;
    naive_solver.
Qed.

Lemma parse_dictionary_reads wt depth :
  0 <= depth <= 64 -> (wt =? 99) || (wt =? 127) = true ->
  reads depth (parse_dictionary pv wt depth) (value_spec (n + 1) depth wt).
Proof.
  intros Hd Hwt. eapply reads_iff.
  { unfold parse_dictionary. apply reads_bind; [apply pv_reads; lia|intros keys _ _ _].
    apply reads_bind; [apply pv_reads; lia|intros values _ _ _].
    apply (reads_pure _ _ _ (fun ck r x d =>
      r = MkParsed wt ck.1 (ShDictionary ck.2) /\ x = [] /\ d = depth)).
    intros [c k] _. apply reads_ret. }
  intros r x d Hbase. simpl. unfold value_spec, item_spec. split.
  - intros H. spec_elim H.
    match goal with H : dictionary_shape (parsed_of ?k) (parsed_of ?v) = Ok ?ck |- _ =>
      destruct ck; apply dictionary_shape_Ok in H as (Hl & -> & -> & Hs);
      pose proof (vdepth_nonneg k); pose proof (vdepth_nonneg v);
      exists (VDict wt k v); simpl; rewrite Hl, Hs, Hwt, app_nil_r end.
    split_and!; try done; bool_lia.
  - intros (v & He & -> & Hwf & -> & Hd' & Hn'). wire_cases v. simpl in *.
    pose proof (vdepth_nonneg v1). pose proof (vdepth_nonneg v2).
    assert (dictionary_shape (parsed_of v1) (parsed_of v2) =
      Ok (parsed_len (parsed_of v1), bool_decide (parsed_shape (parsed_of v1) = ShTable)))
      as Hshape by (by apply dictionary_shape_Ok).
    spec_intro; try done; bool_lia.
Qed.

(** The row count [parse_columns] computes. *)
Abbreviation rows_of v := (parsed_len (parsed_of v)).

Definition rows_ok (rows : option Z) (vs : list qval) (r : option Z) : Prop :=
  match rows, vs with
  | Some e, _ => r = Some e /\ Forall (fun v => rows_of v = e) vs
  | None, [] => r = None
  | None, c :: rest => r = Some (rows_of c) /\ Forall (fun v => rows_of v = rows_of c) rest
  end.

Definition next_rows (rows : option Z) (v : qval) : option Z := Some (default (rows_of v) rows).

Lemma rows_ok_cons rows v vs r :
  rows_ok rows (v :: vs) r <->
  default (rows_of v) rows = rows_of v /\ rows_ok (next_rows rows v) vs r.
Proof. destruct rows; simpl; [|naive_solver]. rewrite Forall_cons. naive_solver. Qed.

Lemma sequence_len_of v l : sequence_len (parsed_of v) = Some l <-> is_sequence v = true /\ l = rows_of v.
Proof. unfold sequence_len, is_sequence. destruct (parsed_shape _); naive_solver. Qed.

Lemma row_count_step rows v r :
  match rows with
  | Some expected =>
    _ ← ensure_matching_counts expected (rows_of v) "table column row"; Ok (Some expected)
  | None => Ok (Some (rows_of v))
  end = Ok r <-> default (rows_of v) rows = rows_of v /\ r = next_rows rows v.
Proof.
  destruct rows; simpl; [|naive_solver]. rewrite bind_Ok.
  setoid_rewrite ensure_matching_counts_Ok. split; [naive_solver|].
  intros [-> ->]. by exists tt.
Qed.

Definition column_ok (depth : Z) (v : qval) : Prop :=
  (wf v = true /\ depth + vdepth v <= 64 /\ height v < n) /\ is_sequence v = true.

Lemma parse_columns_reads base depth count rows :
  0 <= base <= depth -> base <= 64 ->
  reads base (parse_columns pv count depth rows)
    (fun r x d => exists vs, length vs = count /\ x = flat_map encode vs
       /\ d = deepest depth base vs /\ Forall (column_ok depth) vs /\ rows_ok rows vs r).
Proof.
  intros Hb H64. revert rows. induction count as [|count IH]; intros rows.
  { eapply reads_iff; [apply reads_ret|]. intros r x d _. split.
    - intros (-> & -> & ->). exists []. split_and!; [done..|]. by destruct rows.
    - intros (vs & Hl & -> & -> & _ & Hr). destruct vs; [|done].
      destruct rows; simpl in Hr; naive_solver. }
  eapply reads_iff.
  { simpl. apply reads_bind; [by apply pv_reads|intros column ? ? (v & _ & Hcol & _)].
    apply reads_pure. intros l _. apply reads_pure. intros r _. apply IH. }
  intros r x d _. simpl. unfold item_spec. split.
  - intros H. spec_elim H.
    match goal with H : ok_or (sequence_len _) _ = _ |- _ =>
      apply ok_or_Ok, sequence_len_of in H as [Hseq ->] end.
    match goal with H : _ = Ok ?r', H' : rows_ok ?r' _ _ |- _ =>
      apply row_count_step in H as [Hr ->]; rename H' into Hrows end.
    match goal with _ : wf ?v = true, _ : rows_ok _ ?vs _ |- _ => exists (v :: vs) end.
    rewrite rows_ok_cons. split_and!; [simpl; lia|done|done| |done|done].
    by repeat constructor.
  - intros (vs & Hl & -> & -> & Hall & Hr). destruct vs as [|v vs]; [done|].
    apply Forall_cons in Hall as [((Hw & H1 & H2) & Hseq) Hall].
    apply rows_ok_cons in Hr as [Hd Hr]. pose proof (vdepth_nonneg v).
    exists (parsed_of v), (encode v), (depth + vdepth v), (flat_map encode vs), (deepest depth base vs).
    split_and!; [lia|apply deepest_ge|by exists v| |done..].
    exists (rows_of v). split; [by apply ok_or_Ok, sequence_len_of|].
    exists (next_rows rows v). split; [by apply row_count_step|].
    exists vs. by simplify_eq/=.
Qed.

Lemma column_ok_Forall depth vs :
  depth <= 62 ->
  Forall (column_ok (depth + 3)) vs <->
  items_ok n (depth + 3) vs /\ forallb is_sequence vs = true.
Proof.
  intros Hd. replace (depth + 3) with (depth + 2 + 1) by lia.
  rewrite <- (items_ok_Forall (depth + 2) vs) by lia. unfold column_ok.
  rewrite Forall_and, forallb_forall, (Forall_forall (fun v => is_sequence v = true)).
  by setoid_rewrite list_elem_of_In.
Qed.

Lemma symbol_names v :
  wf v = true -> parsed_shape (parsed_of v) = ShSequence (Some 11) ->
  exists h names, v = VSymbols h names.
Proof.
  destruct v; simpl; intros Hw Hs; try discriminate Hs; [|eauto].
  injection Hs as ->. by unfold fixed_kind in Hw.
Qed.

Lemma column_min vs :
  Forall (fun v => wf v = true) vs -> forallb is_sequence vs = true ->
  6 * len vs <= len (flat_map encode vs).
Proof.
  intros Hw Hs. apply encode_items_min. intros v Hv.
  rewrite Forall_forall in Hw. rewrite forallb_forall in Hs.
  apply encode_sequence_min; [by apply Hw|]. apply Hs. by apply list_elem_of_In.
Qed.

Lemma table_columns_reads depth count (e : XqdbError) :
  0 <= depth <= 62 -> 0 <= count ->
  reads depth
    (fun p => if saturating_sub (len (p_bytes p)) (p_position p) / 6 <? count then Err e
              else '(row_count, p) ← parse_columns pv (Z.to_nat count) (depth + 3) None p;
                   Ok (MkParsed 98 (default 0 row_count) ShTable, p))
    (fun r x d => exists vs rows, len vs = count /\ x = flat_map encode vs
       /\ d = deepest (depth + 3) depth vs /\ items_ok n (depth + 3) vs
       /\ forallb is_sequence vs = true /\ rows_ok None vs rows
       /\ r = MkParsed 98 (default 0 rows) ShTable).
Proof.
  intros Hd Hc. eapply reads_iff.
  { eapply (reads_guard_state depth
      (fun p => saturating_sub (len (p_bytes p)) (p_position p) / 6 <? count) (fun _ => e)).
    - apply reads_bind; [apply parse_columns_reads; lia|intros ? _ _ _; apply reads_ret].
    - intros p a x d q (Hp & _) HS Hs. spec_elim HS.
      match goal with H : Forall _ ?vs |- _ => apply column_ok_Forall in H as [[Hw _] Hseq]; [|lia];
        assert (Forall (fun v => wf v = true) vs) as Hw'
          by (rewrite Forall_forall; setoid_rewrite list_elem_of_In; by apply forallb_forall);
        pose proof (column_min vs Hw' Hseq) end.
      eapply remaining_guard; [lia|done..|]. rewrite app_nil_r. lia. }
  intros r x d Hbase. simpl. split.
  - intros H. spec_elim H.
    match goal with H : Forall _ ?vs |- _ =>
      apply column_ok_Forall in H as [Hok Hseq]; [|lia]; exists vs;
      pose proof (deepest_ge (depth + 3) depth vs) end.
    eexists. rewrite app_nil_r. split_and!; [lia|done|lia|done..].
  - intros (vs & rows & <- & -> & -> & Hok & Hseq & Hr & ->).
    pose proof (deepest_ge (depth + 3) depth vs).
    exists rows, (flat_map encode vs), (deepest (depth + 3) depth vs), [], depth.
    rewrite app_nil_r. split_and!; [lia|lia| |done..|lia].
    exists vs. split_and!; [lia|done|done| |done]. apply column_ok_Forall; [lia|done].
Qed.

Lemma same_len_rows vs rows :
  rows_ok None vs rows <->
  rows = (match vs with [] => None | c :: _ => Some (rows_of c) end)
  /\ match vs with [] => true | c :: rest => forallb (same_len c) rest end = true.
Proof.
  destruct vs as [|c rest]; simpl; [naive_solver|].
  rewrite forallb_forall, Forall_forall. setoid_rewrite list_elem_of_In. unfold same_len.
  split; intros [-> H]; (split; [done|]); intros v Hv; specialize (H v Hv); lia.
Qed.

Lemma fold_height base vs :
  -1 <= base -> foldr (fun v d => Z.max (height v) d) base vs = Z.max base (list_height vs).
Proof. intros. unfold list_height. induction vs; simpl; lia. Qed.

Lemma parse_table_reads depth :
  0 <= depth <= 64 -> reads depth (parse_table pv depth) (value_spec (n + 1) depth 98).
Proof.
  intros Hd. eapply reads_iff.
  { unfold parse_table. apply reads_bind; [apply reads_attribute|intros at_ _ _ _].
    apply reads_bind_state; [apply reads_note_depth; lia|].
    apply reads_bind; [apply reads_byte|intros dt _ _ _]. apply reads_guard.
    apply reads_bind; [apply pv_reads; lia|intros names ? ? (v & _ & _ & _ & -> & ? & _)].
    pose proof (vdepth_nonneg v). apply reads_guard.
    apply reads_bind_state; [apply reads_note_depth; lia|].
    apply reads_bind; [apply reads_byte|intros ct _ _ _]. apply reads_guard.
    apply reads_bind; [apply reads_attribute|intros ca _ _ _].
    apply reads_bind; [apply reads_count|intros count ? ? [[? ?] ?]].
    apply reads_pure. intros u _. apply table_columns_reads; lia. }
  intros r x d Hbase. cbv beta. unfold value_spec, item_spec. split.
  - intros H. spec_elim H.
    match goal with H : bool_decide _ = false |- _ =>
      apply bool_decide_eq_false, dec_stable, symbol_names in H as (h & names & ->); [|done] end.
    repeat match goal with
    | H : ensure_matching_counts _ _ _ = _ |- _ => apply ensure_matching_counts_Ok in H; simpl in H
    | H : rows_ok _ _ _ |- _ => apply same_len_rows in H as [-> Hrows]
    end.
    match goal with H : items_ok _ _ ?vs, _ : ?a <= 4, _ : ?c <= 4, Hn : wf (VSymbols _ _) = true |- _ =>
      destruct H as (Hw & H1' & H2'); pose proof (deepest_table depth vs) as Hdeep;
      simpl in Hn; apply andb_prop in Hn as [Hhd Hnames]; exists (VTable a h names c vs);
      simpl; rewrite fold_height, Hhd, Hnames, Hw by lia;
      fold (list_depth vs); pose proof (list_height_ge vs); pose proof (list_depth_ge vs);
      rewrite Hrows;
      match goal with H : forallb is_sequence vs = true |- _ => rewrite H end;
      split; [done|] end.
    simpl height in *. split_and!; [by case_match|bool_lia|lia|lia|lia].
  - intros (v & He & -> & Hwf & -> & Hd' & Hn'). wire_cases v. simpl in *.
    rewrite fold_height in Hn' by lia. fold (list_depth columns) in *.
    pose proof (list_depth_ge columns). pose proof (deepest_ge (depth + 3) depth columns).
    pose proof (deepest_table depth columns).
    assert (items_ok n (depth + 3) columns) by (unfold items_ok; split_and!; [done|lia..]).
    assert (wf (VSymbols h names) = true) by (simpl; by rewrite andb_true_iff).
    assert (rows_ok None columns (match columns with [] => None | c :: _ => Some (rows_of c) end))
      by (by apply same_len_rows).
    assert (ensure_matching_counts (len names) (len columns) "table name/column" = Ok tt)
      by (apply ensure_matching_counts_Ok; lia).
    spec_intro; try match goal with |- (_ <= _)%Z => idtac | _ => done end.
    all: try (apply bool_decide_eq_false; naive_solver).
    all: try match goal with |- @eq (list _) _ _ => simpl; reflexivity end.
    all: try (by case_match). all: simpl; bool_lia.
Qed.
End Nested.
(** ** The parser *)

Lemma reads_never {A} base (m : Parser -> res (A * Parser)) S :
  (forall p, is_ok (m p) = false) -> (forall a x d, ~ S a x d) -> reads base m S.
Proof.
  intros Hm HS p a q _. split.
  - intros H. specialize (Hm p). by rewrite H in Hm.
  - intros (x & d & _ & H & _). by apply HS in H.
Qed.

Definition dispatch `{Allocator} (fuel : nat) (depth wire_type : Z) (p : Parser)
    : res (Parsed * Parser) :=
  if between 237 wire_type 255 then parse_atom wire_type p
  else if wire_type =? 0 then parse_general_list (parse_value fuel) depth p
  else if between 1 wire_type 19 then parse_typed_list wire_type p
  else if wire_type =? 98 then parse_table (parse_value fuel) depth p
  else if (wire_type =? 99) || (wire_type =? 127) then
    parse_dictionary (parse_value fuel) wire_type depth p
  else if wire_type =? 100 then parse_lambda depth p
  else if between 101 wire_type 103 then parse_primitive wire_type p
  else if between 104 wire_type 105 then
    parse_counted_function (parse_value fuel) wire_type depth p
  else if between 106 wire_type 111 then
    parse_derived_function (parse_value fuel) wire_type depth p
  else if between 112 wire_type 126 then
    bad ("unsupported q function type " +:+ show wire_type
         +:+ ": its layout is not accepted without a source-verified definition")
  else if wire_type =? 128 then
    '(message, p) ← take_until_nul "q error message" p;
    text ← try_lossy_text message "q error message";
    Err (ServerErr text)
  else bad ("unsupported q value type " +:+ show wire_type).

Lemma parse_value_unfold `{Allocator} fuel depth p :
  parse_value (S fuel) depth p =
  (p ← note_depth depth p; '(wire_type, p) ← take_byte "q value type" p;
   dispatch fuel depth wire_type p).
Proof. done. Qed.

Lemma server_error_reads `{Allocator} base S :
  (forall a x d, ~ S a x d) ->
  reads base (fun p => '(message, p) ← take_until_nul "q error message" p;
                       text ← try_lossy_text message "q error message";
                       @Err _ (Parsed * Parser) (ServerErr text)) S.
Proof.
  intros HS. apply reads_never; [|done]. intros p.
  destruct (take_until_nul _ p) as [[m q]| | |]; simpl; try done.
  by destruct (try_lossy_text m _).
Qed.

Lemma dispatch_reads `{Allocator} fuel depth wt :
  (forall base depth, 0 <= base <= depth ->
     reads base (parse_value fuel depth) (item_spec (Z.of_nat fuel) depth)) ->
  0 <= depth <= 64 -> reads depth (dispatch fuel depth wt) (value_spec (Z.of_nat fuel + 1) depth wt).
Proof.
  intros IH Hd. unfold dispatch.
  destruct (between 237 wt 255) eqn:E1.
  { apply reads_value. intros. apply parse_atom_Ok; [done|lia|done]. }
  destruct (Z.eqb_spec wt 0) as [->|]; [apply parse_general_list_reads; try done; lia|].
  destruct (between 1 wt 19) eqn:E3.
  { apply reads_value. intros. apply parse_typed_list_Ok; [done|lia|done]. }
  destruct (Z.eqb_spec wt 98) as [->|]; [apply parse_table_reads; try done; lia|].
  destruct (_ || _) eqn:E4; [apply parse_dictionary_reads; try done; lia|].
  destruct (Z.eqb_spec wt 100) as [->|]; [apply parse_lambda_reads; lia|].
  destruct (between 101 wt 103) eqn:E5.
  { apply reads_value. intros. apply parse_primitive_Ok; [done|lia|done]. }
  destruct (between 104 wt 105) eqn:E6; [apply parse_counted_function_reads; try done; lia|].
  destruct (between 106 wt 111) eqn:E7; [apply parse_derived_function_reads; try done; lia|].
  assert (forall r x d, ~ value_spec (Z.of_nat fuel + 1) depth wt r x d) as Hno
    by (intros r x d (v & He & -> & Hwf & _); wire_cases v).
  destruct (between 112 wt 126); [by apply reads_never|].
  destruct (wt =? 128); [by apply server_error_reads|by apply reads_never].
Qed.

Lemma parse_value_reads `{Allocator} fuel base depth :
  0 <= base <= depth ->
  reads base (parse_value fuel depth) (item_spec (Z.of_nat fuel) depth).
Proof.
  revert base depth. induction fuel as [|fuel IH]; intros base depth Hb.
  { apply reads_never; [done|]. intros r x d (v & _ & _ & _ & _ & _ & Hn).
    pose proof (height_vdepth v). lia. }
  assert (forall depth, 0 <= depth <= 64 ->
    reads depth (fun p => '(wire_type, p) ← take_byte "q value type" p;
                          dispatch fuel depth wire_type p)
      (item_spec (Z.of_nat (S fuel)) depth)) as Hbody.
  { clear base depth Hb. intros depth Hd. eapply reads_iff.
    { apply reads_bind; [apply reads_byte|intros wt _ _ _; by apply dispatch_reads]. }
    intros r x d Hbase. unfold value_spec, item_spec. split.
    - intros H'. spec_elim H'. eexists. split_and!; [done..|lia|lia|lia].
    - intros (v & <- & -> & Hw & -> & H1 & H2). pose proof (vdepth_nonneg v).
      destruct (encode v) as [|wt y] eqn:E.
      { apply encode_min in Hw. rewrite E in Hw. simpl in Hw. lia. }
      exists wt, [wt], depth, y, (depth + vdepth v).
      split_and!; [lia..|done|done| |done|lia]. exists v. split_and!; [done..|lia]. }
  intros p r q Hp. rewrite parse_value_unfold. pose proof Hp as (Hg & _ & Hm). split.
  - intros H'. apply bind_Ok in H' as (p1 & H1 & H').
    apply note_depth_Ok in H1 as [Hd ->].
    apply Hbody in H' as (x & d & Hbase & HS & Hs); [|lia|split_and!; [done|simpl; lia..]].
    exists x, d. split_and!; [lia|done|]. unfold steps in *. fold (noted p depth) in Hs.
    rewrite noted_noted in Hs. by rewrite Z.max_r in Hs by lia.
  - intros (x & d & Hbase & HS & Hs). pose proof HS as (v & _ & _ & _ & -> & Hd & _).
    pose proof (vdepth_nonneg v). apply bind_Ok. exists (noted p depth).
    split; [apply note_depth_Ok; split; [lia|done]|].
    apply Hbody; [lia|split_and!; [done|simpl; lia..]|].
    exists x, (depth + vdepth v). split_and!; [lia|done|]. unfold steps in *.
    rewrite noted_noted, Z.max_r by lia. done.
Qed.
