(* ===== verification/QValueTotal.v ===== *)
(** * QValueTotal: the validator always returns

    No input makes the parser panic or loop: every slice access of [QValue] is in
    range, and the recursion and the symbol loop stop within their fuel. *)

From stdpp Require Import prelude strings.
From Stdlib Require Import ZArith Lia ZifyBool.
From S2P Require Import Prelude Errors Utf8 Types QValue QGrammar QValueFacts.

(** A reader that returns from every state, and leaves the cursor inside the body. *)
Definition safe {A} (m : Parser -> res (A * Parser)) : Prop :=
  forall p, good p -> returns (m p) /\ forall a q, m p = Ok (a, q) -> good q.

Definition safe_state (m : Parser -> res Parser) : Prop :=
  forall p, good p -> returns (m p) /\ forall q, m p = Ok q -> good q.

Lemma safe_bind {A B} (m : Parser -> res (A * Parser)) (f : A -> Parser -> res (B * Parser)) :
  safe m -> (forall a, safe (f a)) -> safe (fun p => '(a, p) ← m p; f a p).
Proof.
  intros Hm Hf p Hp. destruct (Hm p Hp) as [Hr Hg].
  destruct (m p) as [[a q]| | |]; simpl; try done. apply Hf. by eapply Hg.
Qed.

(** The same, when the rest needs a fact about the value read. *)
Lemma safe_bind_fact {A B} (m : Parser -> res (A * Parser)) (f : A -> Parser -> res (B * Parser)) :
  safe m -> (forall a, (exists p q, good p /\ m p = Ok (a, q)) -> safe (f a)) ->
  safe (fun p => '(a, p) ← m p; f a p).
Proof.
  intros Hm Hf p Hp. destruct (Hm p Hp) as [Hr Hg].
  destruct (m p) as [[a q]| | |] eqn:E; simpl; try done. apply Hf; eauto.
Qed.

Lemma safe_bind_state {B} (m : Parser -> res Parser) (f : Parser -> res (B * Parser)) :
  safe_state m -> safe f -> safe (fun p => p ← m p; f p).
Proof.
  intros Hm Hf p Hp. destruct (Hm p Hp) as [Hr Hg].
  destruct (m p) as [q| | |]; simpl; try done. apply Hf. by apply Hg.
Qed.

Lemma safe_bind_drop {A} (m : Parser -> res (A * Parser)) (f : A -> Parser -> res Parser) :
  safe m -> (forall a, safe_state (f a)) -> safe_state (fun p => '(a, p) ← m p; f a p).
Proof.
  intros Hm Hf p Hp. destruct (Hm p Hp) as [Hr Hg].
  destruct (m p) as [[a q]| | |]; simpl; try done. apply Hf. by eapply Hg.
Qed.

Lemma safe_pure {A B} (m : res A) (f : A -> Parser -> res (B * Parser)) :
  returns m -> (forall a, m = Ok a -> safe (f a)) -> safe (fun p => a ← m; f a p).
Proof. intros Hm Hf p Hp. destruct m; simpl; try done. by apply Hf. Qed.

Lemma safe_pure_state {A} (m : res A) (f : A -> Parser -> res Parser) :
  returns m -> (forall a, m = Ok a -> safe_state (f a)) -> safe_state (fun p => a ← m; f a p).
Proof. intros Hm Hf p Hp. destruct m; simpl; try done. by apply Hf. Qed.

Lemma safe_ret {A} (a : A) : safe (fun p => Ok (a, p)).
Proof. intros p Hp. split; [done|]. by intros ? ? [= <- <-]. Qed.

Lemma safe_ret_state : safe_state (fun p => Ok p).
Proof. intros p Hp. split; [done|]. by intros ? [= <-]. Qed.

Lemma safe_guard {A} (b : Parser -> bool) (e : Parser -> XqdbError) (m : Parser -> res (A * Parser)) :
  safe m -> safe (fun p => if b p then Err (e p) else m p).
Proof. intros Hm p Hp. destruct (b p); [done|]. by apply Hm. Qed.

Lemma safe_guard_const {A} (b : bool) (e : XqdbError) (m : Parser -> res (A * Parser)) :
  safe m -> safe (fun p => if b then Err e else m p).
Proof. apply (safe_guard (fun _ => b) (fun _ => e)). Qed.

Lemma safe_take n c : 0 <= n -> safe (parser_take n c).
Proof.
  intros Hn p Hp. split.
  - unfold parser_take. repeat (apply returns_bind; [apply returns_ok_or|]; intros). done.
  - intros v q H. apply parser_take_Ok in H as [_ H]; [|done..]. by eapply consumed_good.
Qed.

Lemma safe_byte c : safe (take_byte c).
Proof.
  intros p Hp. split.
  - unfold take_byte. apply returns_bind; [by apply safe_take|].
    intros [v q] H. apply parser_take_Ok in H as [Hl _]; [|done|lia].
    destruct v; [done|]. by rewrite get_at_cons0.
  - intros b q H. apply take_byte_Ok in H; [|done]. by eapply consumed_good.
Qed.

Lemma safe_until_nul c : safe (take_until_nul c).
Proof.
  intros p Hp. split.
  - unfold take_until_nul. apply returns_bind; [apply returns_ok_or|]. intros tail Htail.
    apply ok_or_Ok in Htail. unfold get_from in Htail.
    apply returns_bind; [apply returns_ok_or|]. intros l Hl. apply ok_or_Ok in Hl.
    apply find_nul_Some in Hl as (name & rest & -> & -> & _).
    apply get_range_app in Htail as [Hname _].
    apply returns_bind; [apply returns_ok_or|]. intros stop Hs.
    apply ok_or_Ok, checked_add_inv in Hs as [-> _].
    apply returns_bind; [apply returns_ok_or|]. intros next _. by rewrite Hname.
  - intros b q H. apply take_until_nul_Ok in H as [_ H]; [|done]. by eapply consumed_good.
Qed.

Lemma safe_note_depth d : safe_state (note_depth d).
Proof.
  intros p Hp. unfold note_depth. destruct (_ <? _); [done|]. split; [done|].
  by intros q [= <-].
Qed.

#[local] Hint Resolve safe_byte safe_until_nul safe_note_depth safe_ret safe_ret_state : qvalue.

Lemma safe_attribute c : safe (take_attribute c).
Proof.
  unfold take_attribute. apply safe_bind; [apply safe_byte|intros a].
  apply safe_guard_const, safe_ret.
Qed.

Lemma safe_count c : safe (take_count c).
Proof.
  unfold take_count. apply safe_bind; [by apply safe_take|intros raw].
  apply safe_pure; [apply returns_ok_or|intros; apply safe_ret].
Qed.

Lemma safe_typed_list_count c : safe (take_typed_list_count c).
Proof.
  unfold take_typed_list_count. apply safe_bind; [apply safe_byte|intros a].
  apply safe_guard_const. destruct (_ =? 0); [apply safe_count|].
  apply safe_bind; [by apply safe_take|intros raw].
  apply safe_pure; [apply returns_ok_or|intros; apply safe_ret].
Qed.

Lemma returns_validate_boolean l c : returns (validate_boolean_bytes l c).
Proof. unfold validate_boolean_bytes. by destruct (List.find _ _). Qed.

Lemma returns_boolean_check (b : bool) l c :
  returns (if b then validate_boolean_bytes l c else Ok tt).
Proof. destruct b; [apply returns_validate_boolean|done]. Qed.

Lemma returns_matching l r c : returns (ensure_matching_counts l r c).
Proof. unfold ensure_matching_counts. by destruct (_ =? _). Qed.

Lemma take_count_nonneg c p n q : good p -> take_count c p = Ok (n, q) -> 0 <= n.
Proof. intros Hp H. apply take_count_Ok in H as [? _]; [lia|done]. Qed.

(** The fuel of the symbol loop is never exhausted. *)
Lemma skip_symbols_returns fuel count p :
  good p -> len (p_bytes p) - p_position p < Z.of_nat fuel ->
  returns (skip_symbols fuel count p) /\ forall q, skip_symbols fuel count p = Ok q -> good q.
Proof.
  revert count p. induction fuel as [|fuel IH]; intros count p Hp Hf.
  { destruct Hp as [_ ?]. lia. }
  simpl. destruct (count <=? 0).
  { split; [done|]. by intros q [= <-]. }
  destruct (safe_until_nul "q symbol-list element" p Hp) as [Hr Hg].
  destruct (take_until_nul _ p) as [[name q]| | |] eqn:E; simpl; try done.
  apply take_until_nul_Ok in E as [_ Hc]; [|done].
  destruct (consumed_state _ _ _ Hc) as (E1 & _ & E3).
  apply IH; [by eapply consumed_good|]. rewrite E1, E3.
  unfold encode_name. rewrite length_app. simpl. lia.
Qed.

Lemma safe_skip_symbols count : safe_state (fun p => skip_symbols (S (S (length (p_bytes p)))) count p).
Proof. intros p Hp. apply skip_symbols_returns; [done|]. destruct Hp as [_ ?]. lia. Qed.

Lemma returns_k_type_size kind : 1 <= kind <= 19 -> returns (@k_type_size XqdbError kind).
Proof.
  intros. unfold k_type_size.
  destruct (get_at_is_Some K_TYPE_SIZE kind) as [w ->]; [simpl; lia|done].
Qed.

Lemma width_nonneg kind : 0 <= width kind.
Proof.
  unfold width. destruct (get_at K_TYPE_SIZE kind) as [w|] eqn:E; simpl; [|done].
  apply get_at_Some in E as [_ E]. apply list_elem_of_lookup_2 in E.
  repeat (apply elem_of_cons in E as [->|E]; [lia|]). by apply not_elem_of_nil in E.
Qed.

Lemma safe_parse_atom wt : safe (parse_atom wt).
Proof.
  unfold parse_atom. set (kind := (0 - wt) mod 256).
  destruct ((kind =? 3) || _) eqn:Hk; [done|].
  assert (1 <= kind <= 19) by bool_lia.
  apply safe_bind_state; [|apply safe_ret]. destruct (kind =? 11).
  { apply safe_bind_drop; [apply safe_until_nul|intros; apply safe_ret_state]. }
  apply safe_pure_state; [by apply returns_k_type_size|]. intros w Hw.
  apply k_type_size_Ok in Hw as ->; [|done].
  apply safe_bind_drop; [apply safe_take, width_nonneg|intros payload].
  apply safe_pure_state; [apply returns_boolean_check|intros; apply safe_ret_state].
Qed.

Lemma safe_parse_typed_list wt : 1 <= wt <= 19 -> safe (parse_typed_list wt).
Proof.
  intros Hwt. unfold parse_typed_list. apply safe_guard_const.
  apply safe_bind_fact; [apply safe_typed_list_count|]. intros count (p & q & Hp & E).
  apply take_typed_list_count_Ok in E as (h & Hh & _); [|done].
  apply header_ok_unfold in Hh as [_ Hc].
  apply safe_bind_state; [|apply safe_ret].
  destruct (wt =? 11); [apply safe_skip_symbols|].
  apply safe_pure_state; [by apply returns_k_type_size|]. intros w Hw.
  apply k_type_size_Ok in Hw as ->; [|done].
  apply safe_pure_state; [apply returns_ok_or|]. intros n Hn.
  apply ok_or_Ok, checked_mul_inv in Hn as [-> _]. pose proof (width_nonneg wt).
  apply safe_bind_drop; [apply safe_take; nia|intros payload].
  apply safe_pure_state; [apply returns_boolean_check|intros; apply safe_ret_state].
Qed.

Lemma safe_parse_lambda depth : safe (parse_lambda depth).
Proof.
  unfold parse_lambda. apply safe_bind; [apply safe_until_nul|intros ctx].
  apply safe_bind_state; [apply safe_note_depth|].
  apply safe_bind; [apply safe_byte|intros st]. apply safe_guard_const.
  apply safe_bind; [apply safe_byte|intros at_]. apply safe_guard_const.
  apply safe_bind_fact; [apply safe_count|]. intros n (p & q & Hp & E).
  apply take_count_nonneg in E as Hn; [|done].
  apply safe_bind; [by apply safe_take|intros; apply safe_ret].
Qed.

Lemma safe_parse_primitive wt : safe (parse_primitive wt).
Proof.
  unfold parse_primitive. apply safe_bind; [apply safe_byte|intros op].
  apply safe_guard_const, safe_ret.
Qed.

Section Nested.
  Context (pv : Z -> Parser -> res (Parsed * Parser)).

Lemma safe_parse_values count depth : safe (pv depth) -> safe_state (parse_values pv count depth).
Proof.
  intros Hpv. induction count as [|count IH]; [apply safe_ret_state|].
  simpl. by apply safe_bind_drop.
Qed.

Lemma safe_general_list depth : safe (pv (depth + 1)) -> safe (parse_general_list pv depth).
Proof.
  intros Hpv. unfold parse_general_list. apply safe_bind; [apply safe_attribute|intros at_].
  apply safe_bind; [apply safe_count|intros count].
  apply (safe_guard (fun p => _ <? count) (fun _ => _)).
  apply safe_bind_state; [by apply safe_parse_values|apply safe_ret].
Qed.

Lemma safe_counted_function wt depth :
  safe (pv (depth + 1)) -> safe (parse_counted_function pv wt depth).
Proof.
  intros Hpv. unfold parse_counted_function.
  apply safe_bind; [apply safe_count|intros count].
  apply (safe_guard (fun p => _ <? count) (fun _ => _)).
  apply safe_bind_state; [by apply safe_parse_values|apply safe_ret].
Qed.

Lemma safe_derived_function wt depth :
  safe (pv (depth + 1)) -> safe (parse_derived_function pv wt depth).
Proof. intros Hpv. apply safe_bind; [done|intros; apply safe_ret]. Qed.

Lemma returns_dictionary_shape k v : returns (dictionary_shape k v).
Proof.
  unfold dictionary_shape. destruct (parsed_shape k), (parsed_shape v); try done.
  all: repeat (apply returns_bind; [solve [apply returns_ok_or|apply returns_matching]|]; intros).
  all: done.
Qed.

Lemma safe_dictionary wt depth :
  safe (pv (depth + 1)) -> safe (parse_dictionary pv wt depth).
Proof.
  intros Hpv. unfold parse_dictionary. do 2 (apply safe_bind; [done|intros ?]).
  apply safe_pure; [apply returns_dictionary_shape|]. intros [c k] _. apply safe_ret.
Qed.

Lemma safe_columns count depth rows :
  safe (pv depth) -> safe (parse_columns pv count depth rows).
Proof.
  intros Hpv. revert rows. induction count as [|count IH]; intros rows; [apply safe_ret|].
  simpl. apply safe_bind; [done|intros column].
  apply safe_pure; [apply returns_ok_or|intros l _].
  apply safe_pure; [|intros; apply IH]. destruct rows; [|done].
  by apply returns_bind; [apply returns_matching|].
Qed.

Lemma safe_table depth :
  safe (pv (depth + 2)) -> safe (pv (depth + 3)) -> safe (parse_table pv depth).
Proof.
  intros H2 H3. unfold parse_table. apply safe_bind; [apply safe_attribute|intros at_].
  apply safe_bind_state; [apply safe_note_depth|].
  apply safe_bind; [apply safe_byte|intros dt]. apply safe_guard_const.
  apply safe_bind; [done|intros names]. apply safe_guard_const.
  apply safe_bind_state; [apply safe_note_depth|].
  apply safe_bind; [apply safe_byte|intros ct]. apply safe_guard_const.
  apply safe_bind; [apply safe_attribute|intros ca].
  apply safe_bind; [apply safe_count|intros count].
  apply safe_pure; [apply returns_matching|intros _ _].
  apply (safe_guard (fun p => _ <? count) (fun _ => _)).
  apply safe_bind; [by apply safe_columns|intros; apply safe_ret].
Qed.
End Nested.

Lemma safe_server_error `{Allocator} :
  safe (fun p => '(message, p) ← take_until_nul "q error message" p;
                 text ← try_lossy_text message "q error message";
                 @Err _ (Parsed * Parser) (ServerErr text)).
Proof.
  apply safe_bind; [apply safe_until_nul|]. intros m. apply safe_pure; [|done].
  unfold try_lossy_text, reserve. by destruct (try_reserve _).
Qed.

(** Each level of nesting uses one unit of fuel, and [note_depth] stops at level 65. *)
Lemma safe_parse_value `{Allocator} fuel depth :
  0 <= depth -> 66 <= depth + Z.of_nat fuel -> 0 < Z.of_nat fuel -> safe (parse_value fuel depth).
Proof.
  revert depth. induction fuel as [|fuel IH]; intros depth Hd Hf H0; [lia|].
  destruct (Z.le_gt_cases depth 64) as [Hle|Hgt].
  2: { intros p Hp. simpl. unfold note_depth, MAX_VALUE_DEPTH.
       by replace (64 <? depth) with true by lia. }
  assert (forall k, 1 <= k -> safe (parse_value fuel (depth + k))) as Hk by (intros; apply IH; lia).
  apply (safe_bind_state (note_depth depth)); [apply safe_note_depth|].
  apply safe_bind; [apply safe_byte|intros wt].
  destruct (between 237 wt 255); [apply safe_parse_atom|].
  destruct (wt =? 0); [apply safe_general_list, Hk; lia|].
  destruct (between 1 wt 19) eqn:E; [apply safe_parse_typed_list; bool_lia|].
  destruct (wt =? 98); [apply safe_table; apply Hk; lia|].
  destruct (_ || _); [apply safe_dictionary, Hk; lia|].
  destruct (wt =? 100); [apply safe_parse_lambda|].
  destruct (between 101 wt 103); [apply safe_parse_primitive|].
  destruct (between 104 wt 105); [apply safe_counted_function, Hk; lia|].
  destruct (between 106 wt 111); [apply safe_derived_function, Hk; lia|].
  destruct (between 112 wt 126); [done|].
  destruct (wt =? 128); [apply safe_server_error|done].
Qed.
