(* ===== verification/QValueSpec.v ===== *)
(** * QValueSpec: what the lossless value container promises

    The theorems about [validate] and the constructors of [QValue]: the validator
    accepts exactly the encodings of the grammar, always returns, and the values
    that [atom], [list] and [dictionary] assemble are valid by construction. *)

From stdpp Require Import prelude strings.
From Stdlib Require Import ZArith Lia ZifyBool.
From S2P Require Import Prelude Errors Utf8 Types QValue QGrammar QValueFacts QValueTotal.

(** [v] is a well-formed tree within the depth limit. *)
Definition valid (v : qval) : Prop := wf v = true /\ vdepth v <= 64.

(** The [QValue] the code holds for the tree [v]. *)
Definition qvalue_of (v : qval) : QValue := from_validated (encode v) (metadata_of v).

(** A [QValue] the program can hold. *)
Definition qvalue_ok (q : QValue) : Prop :=
  slice_ok (q_bytes q) /\ exists v, valid v /\ q = qvalue_of v.

Lemma start_state bytes : slice_ok bytes -> at_depth (MkParser bytes 0 0) 0.
Proof. intros [? ?]. unfold at_depth, good, slice_ok. simpl. split_and!; try done; lia. Qed.

Lemma steps_whole bytes x d q :
  0 <= d -> steps (MkParser bytes 0 0) x d q -> p_position q = len bytes ->
  x = bytes /\ p_max_depth q = d.
Proof.
  intros Hd Hs Hq. destruct (steps_state _ _ _ _ Hs) as (_ & Hm & Hp). simpl in Hm, Hp.
  destruct Hs as [Hx _]. simpl in Hx. split; [|lia].
  rewrite Z.add_0_l in *. rewrite <- Hp, Hq, get_range_all in Hx. by injection Hx.
Qed.

(** The bytes the parser consumed are a valid value, and its position and depth
    are those of that value. *)
Lemma parse_value_start `{Allocator} bytes r q :
  slice_ok bytes ->
  parse_value depth_fuel 0 (MkParser bytes 0 0) = Ok (r, q) <->
  exists v, valid v /\ r = parsed_of v /\ steps (MkParser bytes 0 0) (encode v) (vdepth v) q.
Proof.
  intros Hs. rewrite (parse_value_reads depth_fuel 0 0 ltac:(lia) _ r q (start_state _ Hs)).
  unfold item_spec, valid. split.
  - intros (x & d & _ & (v & <- & -> & Hw & -> & H1 & _) & Hst). exists v. done.
  - intros (v & [Hw Hd] & -> & Hst). pose proof (vdepth_nonneg v).
    pose proof (height_vdepth v). exists (encode v), (vdepth v).
    split_and!; [done| |done]. exists v. unfold depth_fuel. split_and!; [done..|lia|done|lia].
Qed.

Lemma steps_all v :
  steps (MkParser (encode v) 0 0) (encode v) (vdepth v)
    (MkParser (encode v) (len (encode v)) (vdepth v)).
Proof.
  unfold steps, consumed, noted, set_max_depth, set_position. simpl. split.
  - apply get_range_all.
  - f_equal. pose proof (vdepth_nonneg v). lia.
Qed.

Lemma validate_iff `{Allocator} bytes m :
  slice_ok bytes ->
  validate bytes = Ok m <-> exists v, valid v /\ encode v = bytes /\ m = metadata_of v.
Proof.
  intros Hs. unfold validate. split.
  - intros H'. apply bind_Ok in H' as ([r q] & Hp & H').
    apply parse_value_start in Hp as (v & Hv & -> & Hst); [|done].
    destruct (p_position q =? len bytes) eqn:E; simpl in H'; [|by simplify_res].
    pose proof (vdepth_nonneg v).
    apply steps_whole in Hst as [E1 E2]; [|lia..]. simplify_res.
    exists v. split_and!; [done..|]. unfold metadata_of. by rewrite E2.
  - intros (v & Hv & <- & ->).
    assert (parse_value depth_fuel 0 (MkParser (encode v) 0 0)
      = Ok (parsed_of v, MkParser (encode v) (len (encode v)) (vdepth v))) as ->.
    { apply parse_value_start; [done|]. exists v. split_and!; [done..|]. apply steps_all. }
    simpl. by rewrite Z.eqb_refl.
Qed.

Lemma validate_returns `{Allocator} bytes : slice_ok bytes -> returns (validate bytes).
Proof.
  intros Hs. unfold validate.
  assert (good (MkParser bytes 0 0)) as Hg by (apply start_state; done).
  destruct (safe_parse_value depth_fuel 0 ltac:(lia) ltac:(done) ltac:(done) _ Hg) as [Hr Hq].
  destruct (parse_value _ _ _) as [[r q]| | |] eqn:E; simpl; try done.
  apply parse_value_start in E as (v & _ & _ & Hst); [|done].
  pose proof (Hq _ _ eq_refl) as [_ Hpos].
  apply steps_state in Hst as (Eb & _ & _). simpl in Eb. rewrite Eb in Hpos.
  destruct (_ =? _); simpl; [done|]. unfold usub, checked_sub.
  by replace (_ <=? _) with true by lia.
Qed.

Lemma from_owned_bytes_iff `{Allocator} bytes q :
  slice_ok bytes ->
  from_owned_bytes bytes = Ok q <-> exists v, valid v /\ encode v = bytes /\ q = qvalue_of v.
Proof.
  intros Hs. unfold from_owned_bytes. rewrite bind_Ok. setoid_rewrite validate_iff; [|done].
  split.
  - intros (m & (v & Hv & <- & ->) & [= <-]). eauto.
  - intros (v & Hv & <- & ->). eauto 10.
Qed.

Lemma from_owned_encode `{Allocator} v :
  valid v -> slice_ok (encode v) -> from_owned_bytes (encode v) = Ok (qvalue_of v).
Proof. intros Hv Hs. apply from_owned_bytes_iff; eauto. Qed.

(** ** The constructors *)

Lemma flat_map_qvalue vs : flat_map as_bytes (map qvalue_of vs) = flat_map encode vs.
Proof. induction vs as [|v vs IH]; simpl; [done|]. by rewrite IH. Qed.

Lemma qvalues_of (qs : list QValue) :
  Forall qvalue_ok qs -> exists vs, qs = map qvalue_of vs /\ Forall valid vs.
Proof.
  induction 1 as [|q qs (_ & v & Hv & ->) _ (vs & -> & Hvs)]; [by exists []|].
  exists (v :: vs). split; [done|by constructor].
Qed.

Lemma sum_lengths_Ok acc qs :
  0 <= acc -> acc + len (flat_map as_bytes qs) <= usize_max ->
  sum_lengths acc qs = Ok (acc + len (flat_map as_bytes qs)).
Proof.
  revert acc. induction qs as [|q qs IH]; intros acc Ha Hl; simpl in *.
  - f_equal. lia.
  - rewrite length_app in *. rewrite checked_add_Some by lia. simpl. rewrite IH by lia.
    f_equal. lia.
Qed.

Definition max_depth_of (qs : list QValue) : Z :=
  foldr (fun q d => Z.max (q_max_depth q) d) (-1) qs.

Lemma max_depth_qvalues vs : max_depth_of (map qvalue_of vs) = list_depth vs.
Proof. induction vs as [|v vs IH]; simpl; [done|]. unfold list_depth in *. simpl. by rewrite IH. Qed.

Lemma existsb_depth qs :
  existsb (fun v => MAX_VALUE_DEPTH <=? q_max_depth v) qs = (MAX_VALUE_DEPTH <=? max_depth_of qs).
Proof. unfold MAX_VALUE_DEPTH. induction qs as [|q qs IH]; simpl; [done|]. rewrite IH. lia. Qed.

Lemma valid_list vs :
  Forall valid vs -> len vs <= i32_max -> list_depth vs < 64 -> valid (VGeneral 0 vs).
Proof.
  intros Hvs Hl Hd. split; simpl; [|fold (list_depth vs); lia].
  apply andb_true_iff. split; [bool_lia|]. apply forallb_forall. intros v Hv.
  rewrite Forall_forall in Hvs. by apply Hvs, list_elem_of_In.
Qed.

Lemma bytes_ok_encode qs : Forall qvalue_ok qs -> bytes_ok (flat_map as_bytes qs).
Proof.
  induction 1 as [|q qs [[Hb _] _] _ IH]; simpl; [constructor|]. by apply Forall_app.
Qed.

Definition general_list_bytes (qs : list QValue) : list Z :=
  [0; 0] ++ i32_to_le (len qs) ++ flat_map as_bytes qs.

(** What [QValue::list] returns, on every branch. *)
Definition list_result `{Allocator} (qs : list QValue) : res QValue :=
  if i32_max <? len qs then Err OverLengthErr
  else if MAX_VALUE_DEPTH <=? max_depth_of qs then Err (NotAbleToSerializeErr depth_message)
  else if negb (try_reserve (len (general_list_bytes qs))) then
    Err (NotAbleToSerializeErr
           ("unable to allocate " +:+ show (len (general_list_bytes qs))
            +:+ "-byte q general list: " +:+ reserve_error (len (general_list_bytes qs))))
  else Ok (MkQValue (general_list_bytes qs) 0 (len qs) (1 + max_depth_of qs) false).

(** C34: [QValue::list] applied to valid values never fails for a reason other than
    the documented ones (too many items, too deep, allocation), and its result is
    the general list of those items: the validation it runs on the assembled bytes
    always succeeds. *)
Theorem QValue_list_correct `{Allocator} (qs : list QValue) :
  Forall qvalue_ok qs -> len (general_list_bytes qs) <= isize_max ->
  QValue_list qs = list_result qs.
Proof.
  intros Hqs Hsize. unfold QValue_list, list_result, try_i32.
  destruct (Z.ltb_spec i32_max (len qs)) as [Hbig|Hsmall].
  { by replace (_ && _) with false by bool_lia. }
  replace (_ && _) with true by bool_lia. simpl. rewrite existsb_depth.
  destruct (Z.leb_spec MAX_VALUE_DEPTH (max_depth_of qs)) as [|Hdepth]; [done|].
  assert (len (general_list_bytes qs) = 6 + len (flat_map as_bytes qs)) as Hlen
    by (unfold general_list_bytes; rewrite !length_app, len_i32_to_le; simpl; lia).
  rewrite sum_lengths_Ok by bool_lia. simpl. rewrite <- Hlen. unfold reserve.
  destruct (try_reserve _); simpl; [|done].
  assert (slice_ok (general_list_bytes qs)) as Hok.
  { split; [|done]. repeat (constructor; [unfold is_byte; lia|]).
    apply Forall_app; split; [apply to_le_bytes|by apply bytes_ok_encode]. }
  destruct (qvalues_of qs Hqs) as (vs & -> & Hvs).
  unfold general_list_bytes in Hok |- *. rewrite max_depth_qvalues, flat_map_qvalue, length_map in *.
  apply (from_owned_encode (VGeneral 0 vs)); [|done]. by apply valid_list.
Qed.

(** *** Dictionaries *)

Lemma type_code_table v : wf v = true -> (parsed_type_code (parsed_of v) =? 98) = is_table_value v.
Proof.
  unfold is_table_value. destruct v; simpl; intros Hw; split_andb; unfold fixed_kind in *;
    try rewrite bool_decide_false by done; try done; bool_lia.
Qed.

Lemma type_code_sequence v :
  wf v = true -> is_sequence_type (parsed_type_code (parsed_of v)) = is_sequence v.
Proof.
  unfold is_sequence_type, is_sequence. destruct v; simpl; intros Hw; split_andb;
    unfold fixed_kind in *; bool_lia.
Qed.

Definition dictionary_bytes (keys values : QValue) : list Z :=
  99 :: as_bytes keys ++ as_bytes values.

(** What [QValue::dictionary] returns, on every branch. *)
Definition dictionary_result `{Allocator} (keys values : QValue) : res QValue :=
  let tables := (q_type_code keys =? 98) && (q_type_code values =? 98) in
  let lists := is_sequence_type (q_type_code keys) && is_sequence_type (q_type_code values) in
  let total := len (dictionary_bytes keys values) in
  if ((q_type_code keys =? 98) || (q_type_code values =? 98)) && negb tables then
    Err (NotAbleToSerializeErr "q keyed-table dictionary requires a table on both sides")
  else if negb tables && negb lists then
    Err (NotAbleToSerializeErr "q dictionary keys and values must be lists, or both must be tables")
  else if negb (q_len keys =? q_len values) then
    Err (NotAbleToSerializeErr
           ("q dictionary key/value count mismatch: " +:+ show (q_len keys)
            +:+ " and " +:+ show (q_len values)))
  else if MAX_VALUE_DEPTH <=? Z.max (q_max_depth keys) (q_max_depth values) then
    Err (NotAbleToSerializeErr depth_message)
  else if negb (try_reserve total) then
    Err (NotAbleToSerializeErr
           ("unable to allocate " +:+ show total +:+ "-byte q dictionary: "
            +:+ reserve_error total))
  else Ok (MkQValue (dictionary_bytes keys values) 99 (q_len keys)
             (1 + Z.max (q_max_depth keys) (q_max_depth values)) tables).

(** C35: [QValue::dictionary] accepts exactly two lists or two tables of equal
    length within the depth limit; the dictionary it assembles always passes the
    validation of its own bytes, and a table pair is marked as a keyed table. *)
Theorem QValue_dictionary_correct `{Allocator} (keys values : QValue) :
  qvalue_ok keys -> qvalue_ok values -> len (dictionary_bytes keys values) <= isize_max ->
  QValue_dictionary keys values = dictionary_result keys values.
Proof.
  intros (Hk & k & [Hwk Hdk] & ->) (Hv & v & [Hwv Hdv] & ->) Hsize.
  unfold QValue_dictionary, dictionary_result. simpl q_type_code. simpl q_len. simpl q_max_depth.
  rewrite !type_code_table, !type_code_sequence by done.
  destruct (_ && negb _) eqn:Etable; [done|].
  replace (negb (is_sequence k) || negb (is_sequence v)) with (negb (is_sequence k && is_sequence v))
    by (by destruct (is_sequence k), (is_sequence v)).
  destruct (negb (is_table_value k && is_table_value v) && _) eqn:Eseq; [done|].
  destruct (Z.eqb_spec (parsed_len (parsed_of k)) (parsed_len (parsed_of v))) as [El|]; simpl; [|done].
  replace ((MAX_VALUE_DEPTH <=? vdepth k) || (MAX_VALUE_DEPTH <=? vdepth v))
    with (MAX_VALUE_DEPTH <=? Z.max (vdepth k) (vdepth v)) by (unfold MAX_VALUE_DEPTH; lia).
  destruct (Z.leb_spec MAX_VALUE_DEPTH (Z.max (vdepth k) (vdepth v))) as [|Hd]; [done|].
  unfold MAX_VALUE_DEPTH in Hd.
  unfold dictionary_bytes, as_bytes in *. simpl q_bytes in *.
  cbn [length] in Hsize |- *. rewrite length_app in *.
  rewrite checked_add_Some by bool_lia. simpl. rewrite checked_add_Some by bool_lia. simpl.
  replace (1 + len (encode k) + len (encode v))
    with (Z.of_nat (S (length (encode k) + length (encode v)))) by lia.
  unfold reserve. destruct (try_reserve _); simpl; [|done].
  assert (valid (VDict 99 k v)) as Hvalid.
  { split; [|simpl; lia]. simpl. rewrite Hwk, Hwv. unfold same_len. rewrite El, Z.eqb_refl.
    by destruct (is_table_value k), (is_table_value v), (is_sequence k), (is_sequence v). }
  rewrite (from_owned_encode (VDict 99 k v) Hvalid).
  - unfold qvalue_of, from_validated, metadata_of. simpl. do 2 f_equal.
    change (bool_decide (parsed_shape (parsed_of k) = ShTable)) with (is_table_value k).
    by destruct (is_table_value k), (is_table_value v).
  - split; [|cbn [encode length]; rewrite length_app; lia].
    constructor; [unfold is_byte; lia|]. apply Forall_app. split; [apply Hk|apply Hv].
Qed.

(** *** Atoms *)

Lemma symbol_payload_ok name :
  nul_free name ->
  bool_decide (last (name ++ [0]) <> Some 0)
  || bool_decide (0 ∈ firstn (length (name ++ [0]) - 1) (name ++ [0])) = false.
Proof.
  intros Hn. rewrite last_snoc, bool_decide_false by naive_solver. simpl.
  rewrite length_app. simpl. rewrite Nat.add_sub, firstn_app, Nat.sub_diag, firstn_all, app_nil_r.
  apply bool_decide_eq_false. intros Hin. unfold nul_free in Hn. rewrite Forall_forall in Hn.
  by apply (Hn 0).
Qed.

Lemma first_boolean b payload :
  len payload = 1 -> get_at payload 0 = Some b -> (1 <? b) = negb (booleans payload).
Proof.
  destruct payload as [|x [|]]; simpl; try lia. intros _.
  rewrite get_at_cons0. intros [= ->]. lia.
Qed.

Lemma symbol_payload_inv payload :
  bool_decide (last payload <> Some 0)
  || bool_decide (0 ∈ firstn (length payload - 1) payload) = false ->
  exists name, payload = name ++ [0] /\ nul_free name.
Proof.
  intros [H1 H2]%orb_false_iff. apply bool_decide_eq_false, dec_stable in H1.
  apply bool_decide_eq_false in H2. apply last_Some in H1 as [name ->].
  exists name. split; [done|]. rewrite length_app in H2. simpl in H2.
  rewrite Nat.add_sub, firstn_app, Nat.sub_diag, firstn_all, app_nil_r in H2.
  apply Forall_forall. intros b Hb ->. done.
Qed.

Lemma check_atom_payload_returns kind payload :
  1 <= kind <= 19 -> kind <> 3 -> returns (check_atom_payload kind payload).
Proof.
  intros Hk H3. unfold check_atom_payload. destruct (Z.eqb_spec kind 11); [by destruct (_ || _)|].
  apply returns_bind; [by apply returns_k_type_size|]. intros w Hw.
  apply k_type_size_Ok in Hw as ->; [|done].
  pose proof (width_pos kind) as Hw. unfold fixed_kind in Hw.
  destruct (Z.eqb_spec (len payload) (width kind)) as [El|]; simpl; [|done].
  destruct (kind =? 1); [|done].
  destruct (get_at_is_Some payload 0) as [b ->]; [bool_lia|]. simpl. by destruct (1 <? b).
Qed.

Lemma check_atom_payload_iff kind payload :
  1 <= kind <= 19 -> kind <> 3 ->
  check_atom_payload kind payload = Ok tt <->
  exists v, valid v /\ encode v = (256 - kind) :: payload.
Proof.
  intros Hk H3. unfold check_atom_payload, valid. destruct (Z.eqb_spec kind 11) as [->|H11].
  - rewrite if_Err_Ok. split.
    + intros [(name & -> & Hn)%symbol_payload_inv _]. apply no_nul_spec in Hn.
      by exists (VSymbol name).
    + intros (v & [Hw Hd] & He). wire_cases v. split; [|done].
      by apply symbol_payload_ok, no_nul_spec.
  - pose proof (width_pos kind) as Hwidth. unfold fixed_kind in Hwidth.
    assert (@k_type_size XqdbError kind = Ok (width kind)) as -> by (by apply k_type_size_Ok).
    simpl. rewrite if_Err_Ok, negb_false_iff, Z.eqb_eq. split.
    + intros [El Hb]. exists (VAtom kind payload). simpl.
      rewrite (atom_wire kind Hk), El, Z.eqb_refl. unfold fixed_kind.
      split_and!; [|done|done]. destruct (Z.eqb_spec kind 1) as [->|]; [|bool_lia].
      apply bind_Ok in Hb as (b & Hget & Hb%if_Err_Ok). apply or_panic_Ok in Hget.
      rewrite (first_boolean b payload) in Hb by done.
      destruct Hb as [Hb%negb_false_iff _]. by rewrite Hb.
    + intros (v & [Hw Hd] & He). wire_cases v.
      assert (kind0 = kind) as -> by (try rewrite atom_wire in * by bool_lia; bool_lia).
      split; [lia|]. destruct (Z.eqb_spec kind 1) as [->|]; [|done]. simpl in *.
      destruct (get_at_is_Some payload 0) as [b Hget]; [change (width 1) with 1 in *; lia|].
      rewrite Hget. simpl. rewrite (first_boolean b payload) by (done || (change (width 1) with 1 in *; lia)).
      simpl in H1. by rewrite H1.
Qed.

(** [QValue::atom] succeeds exactly on the payloads that form a q atom of the
    kind (right width, 0/1 booleans, one terminating NUL for symbols), with the
    wire byte of the negated kind in front, and never panics. *)
Theorem QValue_atom_correct `{Allocator} (kind : Z) (payload : list Z) (q : QValue) :
  is_byte kind -> bytes_ok payload -> len payload + 1 <= isize_max ->
  returns (QValue_atom kind payload)
  /\ (QValue_atom kind payload = Ok q <->
      try_reserve (len payload + 1) = true /\ 1 <= kind <= 19
      /\ exists v, valid v /\ encode v = (256 - kind) :: payload /\ q = qvalue_of v).
Proof.
  intros Hkind Hp Hsize. unfold is_byte in Hkind.
  assert (slice_ok ((0 - kind) mod 256 :: payload)) as Hslice.
  { split; [|cbn [length]; lia]. constructor; [|done]. apply Z.mod_pos_bound. lia. }
  unfold QValue_atom. destruct (negb (between 1 kind 19) || (kind =? 3)) eqn:Hguard.
  { split; [done|]. split; [done|]. intros (_ & ? & v & [Hw _] & He & _). exfalso.
    assert (kind = 3) as -> by bool_lia. wire_cases v. }
  assert (1 <= kind <= 19) as Hk by bool_lia.
  destruct (check_atom_payload kind payload) as [[]| | |] eqn:Ec.
  all: pose proof (check_atom_payload_returns kind payload Hk ltac:(bool_lia)) as Hret;
    pose proof (check_atom_payload_iff kind payload Hk ltac:(bool_lia)) as Hcheck;
    rewrite Ec in Hret, Hcheck; try done.
  2: { split; [done|]. split; [done|]. intros (_ & _ & v & Hv & He & _).
       by assert (Err e = Ok tt) by (apply Hcheck; eauto). }
  clear Hret Ec Hcheck. simpl.
  rewrite checked_add_Some by bool_lia. simpl. unfold reserve.
  destruct (try_reserve _) eqn:Er; simpl; [|split; [done|naive_solver]].
  split.
  - unfold from_owned_bytes. apply returns_bind; [by apply validate_returns|done].
  - rewrite from_owned_bytes_iff by done. rewrite atom_wire by done. naive_solver.
Qed.

(** ** What the container guarantees *)

Lemma from_bytes_Ok `{Allocator} bytes q :
  from_bytes bytes = Ok q -> exists m, validate bytes = Ok m /\ q = from_validated bytes m.
Proof.
  unfold from_bytes, reserve. destruct (validate bytes) as [m| | |]; try discriminate.
  cbn [mbind outcome_bind]. destruct (try_reserve _); cbn [mbind outcome_bind]; [|discriminate].
  intros Hq. exists m. split; [done|congruence].
Qed.

(** C1: the validator accepts exactly the well-formed q values that nest at most
    64 levels, and the metadata it returns is the type code, length, table flag
    and depth of the value it read.  The wire format is stated independently of
    the parser, by the encoder of [QGrammar]. *)
Theorem validate_exact `{Allocator} (bytes : list Z) (m : Metadata) :
  slice_ok bytes ->
  validate bytes = Ok m <->
  exists v, wf v = true /\ vdepth v <= 64 /\ encode v = bytes /\ m = metadata_of v.
Proof. intros Hs. rewrite validate_iff by done. unfold valid. naive_solver. Qed.

(** Validation is total on every slice the process can hold: whatever the
    bytes, it returns metadata or an error, without a panic, an overflow or an
    unbounded loop, and a success leaves [0 <= max_depth <= 64]. *)
Theorem validate_total `{Allocator} (bytes : list Z) :
  slice_ok bytes ->
  returns (validate bytes)
  /\ forall m, validate bytes = Ok m -> 0 <= meta_max_depth m <= 64.
Proof.
  intros Hs. split; [by apply validate_returns|].
  intros m (v & [Hw Hd] & _ & ->)%validate_iff; [|done].
  pose proof (vdepth_nonneg v). simpl. lia.
Qed.

(** The parser at the first of several values. *)
Lemma parse_first `{Allocator} (v : qval) (rest : list Z) :
  valid v -> slice_ok (encode v ++ rest) ->
  parse_value depth_fuel 0 (MkParser (encode v ++ rest) 0 0)
  = Ok (parsed_of v, MkParser (encode v ++ rest) (len (encode v)) (vdepth v)).
Proof.
  intros Hv Hs. apply parse_value_start; [done|]. exists v. split_and!; [done..|].
  unfold steps, consumed, noted, set_max_depth, set_position. simpl. pose proof (vdepth_nonneg v).
  split; [|f_equal; lia]. apply get_range_Some. exists [], rest. split_and!; [done|simpl; lia..].
Qed.

(** No value is a proper prefix of another. *)
Lemma encode_prefix_free (v w : qval) (r s : list Z) :
  valid v -> valid w -> slice_ok (encode v ++ r) -> encode v ++ r = encode w ++ s -> encode v = encode w /\ r = s.
Proof.
  intros Hv Hw Hs E. pose proof (@parse_first unlimited v r Hv Hs) as H1. rewrite E in Hs, H1.
  rewrite (parse_first w s Hw Hs) in H1. injection H1 as _ El _.
  apply app_inj_1 in E; [done|lia].
Qed.

(** Bytes that [validate] accepts. *)
Definition accepted `{Allocator} (bytes : list Z) : Prop := exists m, validate bytes = Ok m.

Lemma slice_prefix (a b : list Z) : slice_ok (a ++ b) -> slice_ok a.
Proof. intros [Hb Hl]. apply Forall_app in Hb as [Hb _]. rewrite length_app in Hl. split; [done|lia]. Qed.

Lemma accepted_value `{Allocator} (bytes : list Z) :
  slice_ok bytes -> accepted bytes -> exists v, valid v /\ bytes = encode v.
Proof. intros Hs [m (v & Hv & <- & _)%validate_iff]; [by exists v|done]. Qed.

Lemma accepted_split `{Allocator} (values others : list (list Z)) :
  Forall accepted values -> Forall accepted others -> slice_ok (concat values) ->
  concat values = concat others -> values = others.
Proof.
  assert (forall x l, accepted x -> slice_ok (x ++ l) -> x ++ l <> []) as Hne.
  { intros x l Hx Hs E. destruct (accepted_value x (slice_prefix _ _ Hs) Hx) as (v & _ & ->).
    apply app_eq_nil in E as [E _]. by destruct v. }
  intros Hv. revert others. induction Hv as [|x values Hx _ IH]; intros others Ho Hs E.
  - destruct Ho as [|y others Hy _]; [done|]. cbn [concat] in E, Hs. rewrite E in Hs.
    by destruct (Hne y (concat others) Hy Hs).
  - destruct Ho as [|y others Hy Ho]; [by destruct (Hne x (concat values) Hx Hs)|]. cbn [concat] in E, Hs.
    pose proof Hs as Hs'. rewrite E in Hs'.
    destruct (accepted_value x (slice_prefix _ _ Hs) Hx) as (v & Hvv & ->).
    destruct (accepted_value y (slice_prefix _ _ Hs') Hy) as (w & Hw & ->).
    destruct (encode_prefix_free v w _ _ Hvv Hw Hs E) as [-> Er]. f_equal. apply IH; [done| |done].
    destruct Hs as [Hb Hl]. apply Forall_app in Hb as [_ Hb]. rewrite length_app in Hl. split; [done|lia].
Qed.

(** C33: what [validate] accepts ends where its value ends.  Accepted bytes with anything
    behind them are refused, with the number of bytes left over; the parser by itself
    stops behind the accepted value, whatever follows; and values laid one behind the
    other, as the items of a list are, can be told apart in one way only. *)
Theorem values_split `{Allocator} (bytes : list Z) (m : Metadata) :
  slice_ok bytes -> validate bytes = Ok m ->
  (forall rest, slice_ok (bytes ++ rest) ->
     (exists value parser, parse_value depth_fuel 0 (MkParser (bytes ++ rest) 0 0) = Ok (value, parser)
        /\ p_position parser = len bytes)
     /\ (rest <> [] -> validate (bytes ++ rest)
                        = bad ("q value has " +:+ show (len rest) +:+ " trailing byte(s)")))
  /\ (forall values rest, Forall accepted values -> Forall accepted rest -> slice_ok (concat values) ->
        concat values = bytes ++ concat rest -> values = bytes :: rest).
Proof.
  intros Hs Hm. destruct (accepted_value bytes Hs ltac:(by exists m)) as (v & Hv & ->). split.
  - intros rest Hr. pose proof (parse_first v rest Hv Hr) as Hp. split; [by eauto|]. intros Hne.
    unfold validate. rewrite Hp. cbn [mbind outcome_bind p_position]. rewrite length_app.
    assert (0 < len rest) by (destruct rest; [done|simpl; lia]).
    replace (_ =? _) with false by lia. cbn [negb]. unfold usub, checked_sub. replace (_ <=? _) with true by lia.
    cbn [or_panic mbind outcome_bind]. by replace (Z.of_nat (length (encode v) + length rest) - len (encode v)) with (len rest) by lia.
  - intros values rest Hvs Hrs Hc E. apply accepted_split; [done| |done|done].
    constructor; [by exists m|done].
Qed.

(** A [QValue] is lossless: the bytes of an accepted body are kept as they
    are, [into_bytes] gives them back whether or not it owns them, and reading
    them again gives the same value. *)
Theorem from_bytes_lossless `{Allocator} (bytes : list Z) (q : QValue) :
  slice_ok bytes -> from_bytes bytes = Ok q ->
  as_bytes q = bytes /\ qvalue_ok q /\ from_owned_bytes (as_bytes q) = Ok q
  /\ into_bytes true q = Ok bytes
  /\ (try_reserve (len bytes) = true -> into_bytes false q = Ok bytes).
Proof.
  intros Hs (m & Hm & ->)%from_bytes_Ok.
  apply validate_iff in Hm as Hv; [|done]. destruct Hv as (v & Hv & <- & ->).
  fold (qvalue_of v). change (as_bytes (qvalue_of v)) with (encode v).
  split_and!; [done| |by apply from_owned_encode|done|].
  - split; [done|]. by exists v.
  - intros Hr. unfold into_bytes, reserve. change (q_bytes (qvalue_of v)) with (encode v).
    by rewrite Hr.
Qed.

(** ** Witnesses *)

Ltac bytes_tac :=
  split; [repeat (constructor; [unfold is_byte; lia|]); constructor|vm_compute; discriminate].

(** The general list [(1i; `a)]. *)
Definition sample : list Z := [0; 0; 2; 0; 0; 0; 250; 1; 0; 0; 0; 245; 97; 0].
Definition sample_tree : qval := VGeneral 0 [VAtom 6 [1; 0; 0; 0]; VSymbol [97]].

Lemma sample_ok : slice_ok sample.
Proof. bytes_tac. Qed.

Lemma sample_qvalue_ok : qvalue_ok (qvalue_of sample_tree).
Proof. split; [apply sample_ok|]. by exists sample_tree. Qed.

Lemma validate_exact_witness :
  slice_ok sample
  /\ exists v, wf v = true /\ vdepth v <= 64 /\ encode v = sample
       /\ MkMetadata 0 2 false 1 = metadata_of v.
Proof.
  split; [apply sample_ok|].
  apply (@validate_exact unlimited sample (MkMetadata 0 2 false 1) sample_ok).
  vm_compute. reflexivity.
Defined.

Lemma validate_total_witness :
  slice_ok [104; 255; 255; 255; 127] /\ returns (@validate unlimited [104; 255; 255; 255; 127]).
Proof. split; [bytes_tac|]. apply (@validate_total unlimited). bytes_tac. Defined.

Lemma values_split_witness :
  @validate unlimited (encode sample_tree) = Ok (metadata_of sample_tree)
  /\ @validate unlimited (encode sample_tree ++ [7; 8]) = bad "q value has 2 trailing byte(s)".
Proof.
  assert (@validate unlimited (encode sample_tree) = Ok (metadata_of sample_tree)) as Hm by (vm_compute; reflexivity).
  split; [exact Hm|].
  assert (slice_ok (encode sample_tree)) as Hs by (change (encode sample_tree) with sample; bytes_tac).
  assert (slice_ok (encode sample_tree ++ [7; 8])) as Hs' by (change (slice_ok (sample ++ [7; 8])); cbn [app sample]; bytes_tac).
  apply (proj2 (proj1 (@values_split unlimited (encode sample_tree) _ Hs Hm) [7; 8] Hs')). discriminate.
Defined.

Lemma QValue_list_correct_witness :
  @QValue_list unlimited [qvalue_of sample_tree; qvalue_of (VSymbol [98])]
  = @list_result unlimited [qvalue_of sample_tree; qvalue_of (VSymbol [98])].
Proof.
  apply (@QValue_list_correct unlimited); [|vm_compute; discriminate].
  constructor; [apply sample_qvalue_ok|]. constructor; [|constructor].
  split; [bytes_tac|]. exists (VSymbol [98]). split; [|reflexivity].
  split; [reflexivity|vm_compute; discriminate].
Defined.

Lemma QValue_dictionary_correct_witness :
  @QValue_dictionary unlimited (qvalue_of sample_tree) (qvalue_of sample_tree)
  = @dictionary_result unlimited (qvalue_of sample_tree) (qvalue_of sample_tree).
Proof.
  apply (@QValue_dictionary_correct unlimited);
    [apply sample_qvalue_ok|apply sample_qvalue_ok|vm_compute; discriminate].
Defined.

Lemma QValue_atom_correct_witness :
  is_byte 6 /\ returns (@QValue_atom unlimited 6 [1; 0; 0; 0]).
Proof.
  split; [unfold is_byte; lia|].
  apply (@QValue_atom_correct unlimited 6 [1; 0; 0; 0] (qvalue_of (VAtom 6 [1; 0; 0; 0])));
    [unfold is_byte; lia| |vm_compute; discriminate].
  repeat (constructor; [unfold is_byte; lia|]). constructor.
Defined.

Lemma from_bytes_lossless_witness :
  @into_bytes unlimited true (qvalue_of sample_tree) = Ok sample.
Proof.
  destruct (@from_bytes_lossless unlimited sample (qvalue_of sample_tree) sample_ok)
    as (_ & _ & _ & H & _); [vm_compute; reflexivity|exact H].
Defined.
