(* ===== verification/Compress.v ===== *)
(** * Compress: the q IPC compression ([compress] and [decompress] of
    [crates/xqdb/src/serde6.rs])

    A compressed body is a sequence of groups: one flag byte and up to eight
    units, each a literal byte or a back-reference into the bytes already
    produced.  Both loops are step functions on an explicit state; a step of the
    decompressor reads one unit ([read_unit]) and applies it to the output
    ([run_unit]). *)

From stdpp Require Import prelude strings.
From S2P Require Import Prelude Errors.

Abbreviation corrupt msg := (Err (DeserializationErr msg)).

(** ** Decompression *)

Definition INVALID_OFFSET : Z := usize_max.
Definition empty_dictionary : list Z := replicate 256 INVALID_OFFSET.

Record Reader : Type := MkReader {
  compressed_position : Z;
  flags : Z;
  mask : Z
}.

Record Window : Type := MkWindow {
  de_vec : list Z;
  output_position : Z;
  dictionary : list Z;
  hash_position : Z
}.

Inductive Unit : Type :=
| Literal (b : Z)
| Backreference (hash extra_length : Z).

Definition is_backreference (u : Unit) : bool :=
  match u with Backreference _ _ => true | Literal _ => false end.

Definition take_compressed_byte (bytes : list Z) (position : Z) (context : string)
    : res (Z * Z) :=
  value ← ok_or (get_at bytes position)
    (DeserializationErr ("compressed data ends before its " +:+ context +:+ " byte"));
  next ← ok_or (checked_add position 1)
    (DeserializationErr "compressed-data position overflowed");
  Ok (value, next).

Definition read_unit (vec : list Z) (r : Reader) : res (Unit * Reader) :=
  '(fm, position) ←
    (if mask r =? 0 then
       '(flags, position) ← take_compressed_byte vec (compressed_position r) "compression flags";
       Ok ((flags, 1), position)
     else Ok ((flags r, mask r), compressed_position r));
  '(u, position) ←
    (if negb (Z.land fm.1 fm.2 =? 0) then
       '(hash, position) ← take_compressed_byte vec position "compression backreference hash";
       '(extra_length, position) ←
         take_compressed_byte vec position "compression backreference length";
       Ok (Backreference hash extra_length, position)
     else
       '(b, position) ← take_compressed_byte vec position "compressed literal";
       Ok (Literal b, position));
  Ok (u, MkReader position fm.1 (Z.shiftl fm.2 1 mod 256)).

(** [for index in 0..run_length { de_vec[o + index] = de_vec[s + index]; }]. *)
Fixpoint copy_bytes (count : nat) (source target : Z) (l : list Z) : res (list Z) :=
  match count with
  | O => Ok l
  | S count =>
    b ← or_panic (get_at l source);
    l ← or_panic (set_at l target b);
    copy_bytes count (source + 1) (target + 1) l
  end.

(** [de_vec.copy_within(source..source_end, target)]. *)
Definition copy_within (source source_end target : Z) (l : list Z) : res (list Z) :=
  run ← or_panic (get_range l source source_end);
  or_panic (write_at l target run).

(** The output a unit produces, with the checks of a back-reference. *)
Definition write_unit (u : Unit) (w : Window) : res (list Z * Z) :=
  match u with
  | Literal b =>
    l ← or_panic (set_at (de_vec w) (output_position w) b);
    Ok (l, output_position w + 1)
  | Backreference hash extra_length =>
    source ← or_panic (get_at (dictionary w) hash);
    if source =? INVALID_OFFSET then
      corrupt ("compression backreference hash " +:+ show hash +:+ " has not been initialized")
    else
      source_pair_end ← ok_or (checked_add source 2)
        (DeserializationErr "compression backreference source span overflowed");
      if output_position w <? source_pair_end then
        corrupt ("compression backreference source " +:+ show source
                 +:+ " is not fully initialized at output offset " +:+ show (output_position w))
      else
        let run_length := extra_length + 2 in
        output_end ← ok_or (checked_add (output_position w) run_length)
          (DeserializationErr "compression backreference output span overflowed");
        if len (de_vec w) <? output_end then
          corrupt ("compression backreference writes through offset " +:+ show output_end
                   +:+ ", beyond the " +:+ show (len (de_vec w)) +:+ "-byte output")
        else
          source_end ← ok_or (checked_add source run_length)
            (DeserializationErr "compression backreference source span overflowed");
          if len (de_vec w) <? source_end then
            corrupt ("compression backreference reads through offset " +:+ show source_end
                     +:+ ", beyond the " +:+ show (len (de_vec w)) +:+ "-byte output")
          else
            l ← (if source_end <=? output_position w
                 then copy_within source source_end (output_position w) (de_vec w)
                 else copy_bytes (Z.to_nat run_length) source (output_position w) (de_vec w));
            Ok (l, output_end)
  end.

(** [for position in hash_position..hash_end]: record where each pair hash was
    last seen. *)
Fixpoint hash_pairs (count : nat) (position : Z) (l dictionary : list Z) : res (list Z) :=
  match count with
  | O => Ok dictionary
  | S count =>
    next ← ok_or (checked_add position 1)
      (DeserializationErr "compression dictionary source position overflowed");
    pair ← ok_or (get_range l position (next + 1))
      (DeserializationErr "compression dictionary source pair exceeds the output");
    b0 ← or_panic (get_at pair 0);
    b1 ← or_panic (get_at pair 1);
    dictionary ← or_panic (set_at dictionary (Z.lxor b0 b1) position);
    hash_pairs count (position + 1) l dictionary
  end.

Definition run_unit (u : Unit) (w : Window) : res Window :=
  '(l, output) ← write_unit u w;
  hash_end ← (if is_backreference u then
                ok_or (checked_add (output_position w) 1)
                  (DeserializationErr "compression dictionary position overflowed")
              else Ok (saturating_sub output 1));
  dictionary ← hash_pairs (Z.to_nat (hash_end - hash_position w)) (hash_position w) l (dictionary w);
  Ok (MkWindow l output dictionary
        (if is_backreference u then output else saturating_sub output 1)).

(** [while output_position < de_vec.len()]: every unit produces at least one
    byte, so the length of the output bounds the rounds. *)
Fixpoint decompress_loop (fuel : nat) (vec : list Z) (r : Reader) (w : Window)
    : res (Reader * Window) :=
  match fuel with
  | O => OutOfFuel
  | S fuel =>
    if output_position w <? len (de_vec w) then
      '(u, r) ← read_unit vec r;
      w ← run_unit u w;
      decompress_loop fuel vec r w
    else Ok (r, w)
  end.

(** The length the prefix of a compressed body declares. *)
Definition declared_total_length (vec : list Z) (start_pos : Z) : res Z :=
  if start_pos =? 4 then
    prefix ← ok_or (get_range vec 0 4)
      (DeserializationErr "compressed data is missing its 4-byte length prefix");
    Ok (from_le prefix)
  else if start_pos =? 8 then
    prefix ← ok_or (get_range vec 0 8)
      (DeserializationErr "compressed data is missing its 8-byte length prefix");
    Ok (from_le prefix)
  else corrupt ("unsupported compressed-data prefix length " +:+ show start_pos).

(** [decompress(vec, de_vec, start_pos)]: returns the filled destination. *)
Definition decompress (vec destination : list Z) (start_pos : Z) : res (list Z) :=
  decompressed_total_length ← declared_total_length vec start_pos;
  expected_body_length ← ok_or (checked_sub decompressed_total_length 8)
    (DeserializationErr "invalid decompressed message length in compressed-data prefix");
  if negb (expected_body_length =? len destination) then
    corrupt ("decompressed body length mismatch: prefix requires " +:+ show expected_body_length
             +:+ " bytes, destination has " +:+ show (len destination))
  else
    '(r, w) ← decompress_loop (S (length destination)) vec (MkReader start_pos 0 0)
                (MkWindow destination 0 empty_dictionary 0);
    if negb (compressed_position r =? len vec) then
      trailing ← usub (len vec) (compressed_position r);
      corrupt ("compressed data has " +:+ show trailing +:+ " trailing byte(s)")
    else Ok (de_vec w).

(** ** Compression *)

Definition empty_table : list Z := replicate 256 0.

Record Compressor : Type := MkCompressor {
  c_vec : list Z;
  c_pos : Z;
  n_pos : Z;
  o_pos : Z;
  x_table : list Z;
  px : Z;
  n_flags : Z;
  p_pos : Z;
  i_mask : Z
}.

(** [write_decompressed_length_prefix]: the prefixed header and the offset where
    compressed bytes begin. *)
Definition write_decompressed_length_prefix (header : list Z) (decompressed_length : Z)
    : res (list Z * Z) :=
  if u32_max <? decompressed_length then
    header ← or_panic (set_at header 2 2);
    header ← or_panic (write_at header 8 (u64_to_le decompressed_length));
    Ok (header, 16)
  else
    header ← or_panic (set_at header 2 1);
    header ← or_panic (write_at header 8 (u32_to_le decompressed_length));
    Ok (header, 12).

(** [while o_pos < max_index && vec[x_pos] == vec[o_pos]]: at most 255 rounds. *)
Fixpoint match_run (fuel : nat) (vec : list Z) (max_index x_pos o_pos : Z) : res Z :=
  match fuel with
  | O => OutOfFuel
  | S fuel =>
    if o_pos <? max_index then
      a ← or_panic (get_at vec x_pos);
      b ← or_panic (get_at vec o_pos);
      if a =? b then match_run fuel vec max_index (x_pos + 1) (o_pos + 1) else Ok o_pos
    else Ok o_pos
  end.

(** The start of a group: [None] is the [return Ok(vec)] of a payload that does
    not shrink to half its size. *)
Definition open_group (s : Compressor) : res (option Compressor) :=
  if i_mask s =? 0 then
    room ← usub (len (c_vec s)) 17;
    if room <? c_pos s then Ok None
    else
      c ← or_panic (set_at (c_vec s) (n_pos s) (n_flags s));
      Ok (Some (MkCompressor c (c_pos s + 1) (c_pos s) (o_pos s) (x_table s) (px s) 0 (p_pos s) 1))
  else Ok (Some s).

(** Is there nothing to refer back to, the pair hash and the earlier position. *)
Definition lookup_pair (vec : list Z) (s : Compressor) : res (bool * Z * Z) :=
  if len vec - o_pos s <? 3 then Ok (true, 0, 0)
  else
    b0 ← or_panic (get_at vec (o_pos s));
    b1 ← or_panic (get_at vec (o_pos s + 1));
    let cx := Z.lxor b0 b1 in
    x_pos ← or_panic (get_at (x_table s) cx);
    if x_pos =? 0 then Ok (true, cx, x_pos)
    else b ← or_panic (get_at vec x_pos); Ok (negb (b0 =? b), cx, x_pos).

Definition compress_unit (vec : list Z) (s : Compressor) : res Compressor :=
  '(hit, x_pos) ← lookup_pair vec s;
  let '(skip, cx) := hit in
  x ← (if 0 <? p_pos s then or_panic (set_at (x_table s) (px s) (p_pos s)) else Ok (x_table s));
  if (skip : bool) then
    b ← or_panic (get_at vec (o_pos s));
    c ← or_panic (set_at (c_vec s) (c_pos s) b);
    Ok (MkCompressor c (c_pos s + 1) (n_pos s) (o_pos s + 1) x cx (n_flags s) (o_pos s)
          (Z.shiftl (i_mask s) 1 mod 256))
  else
    x ← or_panic (set_at x cx (o_pos s));
    let start := o_pos s + 2 in
    o_end ← match_run 256 vec (Z.min (start + 255) (len vec)) (x_pos + 2) start;
    c ← or_panic (set_at (c_vec s) (c_pos s) cx);
    c ← or_panic (set_at c (c_pos s + 1) ((o_end - start) mod 256));
    Ok (MkCompressor c (c_pos s + 2) (n_pos s) o_end x (px s) (Z.lor (n_flags s) (i_mask s)) 0
          (Z.shiftl (i_mask s) 1 mod 256)).

(** [while o_pos < vec.len()]: every round advances [o_pos]. *)
Fixpoint compress_loop (fuel : nat) (vec : list Z) (s : Compressor) : res (option Compressor) :=
  match fuel with
  | O => OutOfFuel
  | S fuel =>
    if o_pos s <? len vec then
      opened ← open_group s;
      match opened with
      | None => Ok None
      | Some s => s ← compress_unit vec s; compress_loop fuel vec s
      end
    else Ok (Some s)
  end.

(** The header of the compressed frame, and its final length. *)
Definition finish_frame (vec : list Z) (s : Compressor) : res (list Z) :=
  c ← or_panic (set_at (c_vec s) (n_pos s) (n_flags s));
  b0 ← or_panic (get_at vec 0);
  c ← or_panic (set_at c 0 b0);
  b1 ← or_panic (get_at vec 1);
  c ← or_panic (set_at c 1 b1);
  c ← or_panic (write_at c 4 (u32_to_le (c_pos s)));
  c ← or_panic (set_at c 3 (Z.shiftr (c_pos s) 32 mod 256));
  Ok (resize c (c_pos s) 0).

Definition compress `{Allocator} (vec : list Z) : res (list Z) :=
  if len vec <? 2000 then Ok vec
  else
    let scratch_length := len vec / 2 in
    _ ← reserve scratch_length (fun error =>
          GeneralErr ("Unable to allocate " +:+ show scratch_length
                      +:+ "-byte IPC compression buffer: " +:+ error));
    let scratch := resize [] scratch_length 0 in
    '(header, start) ← write_decompressed_length_prefix scratch (len vec);
    done ← compress_loop (S (length vec)) vec
             (MkCompressor header start start 8 empty_table 0 0 0 0);
    match done with
    | None => Ok vec
    | Some s => finish_frame vec s
    end.
