(* ===== verification/CompressFacts.v ===== *)
(** * CompressFacts: decompression is total and its size bounds are sound

    The decompressor returns on every payload; and the two size tests a frame
    must pass before any memory is reserved never refuse a payload that
    decompresses. *)

From stdpp Require Import prelude strings.
From Stdlib Require Import ZArith Lia ZifyBool.
From S2P Require Import Prelude Errors Compress.

(** ** The output window *)

(** A dictionary entry: unset, or a position of the output. *)
Definition entry_ok (n s : Z) : Prop := s = INVALID_OFFSET \/ 0 <= s < n.

Definition window_ok (n : Z) (w : Window) : Prop :=
  len (de_vec w) = n /\ n <= isize_max /\ bytes_ok (de_vec w)
  /\ length (dictionary w) = 256%nat /\ Forall (entry_ok n) (dictionary w)
  /\ 0 <= hash_position w <= output_position w /\ output_position w <= n.

Definition unit_ok (u : Unit) : Prop :=
  match u with Literal b => is_byte b | Backreference h e => is_byte h /\ is_byte e end.

(** The bytes a unit produces. *)
Definition unit_length (u : Unit) : Z :=
  match u with Literal _ => 1 | Backreference _ e => e + 2 end.

Lemma unit_length_bounds u : unit_ok u -> 1 <= unit_length u <= 257.
Proof. destruct u; simpl; unfold is_byte; lia. Qed.

Lemma lxor_byte a b : is_byte a -> is_byte b -> is_byte (Z.lxor a b).
Proof.
  unfold is_byte. intros Ha Hb.
  assert (0 <= Z.lxor a b) as H0 by (apply Z.lxor_nonneg; lia). split; [done|].
  assert (forall z, 0 <= z < 256 -> Z.log2 z < 8) as Hlog.
  { intros z Hz. destruct (Z.eq_dec z 0) as [->|]; [done|].
    change 256 with (2 ^ 8) in Hz. apply Z.log2_lt_pow2; lia. }
  destruct (Z.eq_dec (Z.lxor a b) 0) as [->|Hne]; [lia|].
  change 256 with (2 ^ 8). apply Z.log2_lt_pow2; [lia|].
  pose proof (Z.log2_lxor a b ltac:(lia) ltac:(lia)). pose proof (Hlog a Ha). pose proof (Hlog b Hb). lia.
Qed.

Lemma copy_bytes_ok count s t l :
  0 <= s -> 0 <= t -> s + Z.of_nat count <= len l -> t + Z.of_nat count <= len l -> bytes_ok l ->
  ok_with (copy_bytes count s t l) (fun l' => length l' = length l /\ bytes_ok l').
Proof.
  revert s t l. induction count as [|count IH]; intros s t l Hs Ht Hsn Htn Hl; simpl.
  { by apply ok_with_ret. }
  destruct (get_at_is_Some l s) as [b Hb]; [lia|]. rewrite Hb. simpl.
  rewrite set_at_eq by lia. simpl.
  eapply ok_with_weaken; [apply IH|]; rewrite ?length_insert; try lia.
  - apply Forall_insert; [done|]. by eapply get_at_Forall.
  - done.
Qed.

Lemma copy_within_ok s e t l :
  0 <= s -> s <= e -> e <= len l -> 0 <= t -> t + (e - s) <= len l -> bytes_ok l ->
  ok_with (copy_within s e t l) (fun l' => length l' = length l /\ bytes_ok l').
Proof.
  intros Hs Hse He Ht Hte Hl. unfold copy_within.
  destruct (get_range_is_Some l s e) as (run & Hrun & Hlen); [lia..|]. rewrite Hrun. simpl.
  apply ok_with_or_panic. eexists. split; [apply write_at_eq; lia|]. split.
  - eapply write_at_length. apply write_at_eq; lia.
  - eapply Forall_write_at; [exact Hl|by eapply get_range_Forall|apply write_at_eq; lia].
Qed.

Lemma write_unit_ok n u w :
  window_ok n w -> unit_ok u -> output_position w < n ->
  ok_with (write_unit u w) (fun '(l, o) =>
    len l = n /\ bytes_ok l /\ o = output_position w + unit_length u /\ o <= n).
Proof.
  intros (Hlen & Hn & Hb & Hd & Hdict & Hh & Ho) Hu Hlt. unfold isize_max in Hn.
  destruct u as [b|h e]; simpl write_unit; simpl in Hu.
  - rewrite set_at_eq by lia. simpl. apply ok_with_ret. rewrite length_insert.
    split_and!; [done|by apply Forall_insert|done|simpl; lia].
  - destruct Hu as [Hbh Hbe]. unfold is_byte in *.
    destruct (get_at_is_Some (dictionary w) h) as [s Hs]; [lia|]. rewrite Hs. simpl.
    apply (get_at_Forall _ _ _ _ Hdict) in Hs as Hentry.
    apply ok_with_guard. intros Hvalid. destruct Hentry as [->|Hentry]; [lia|].
    rewrite (checked_add_eq s 2) by bool_lia. simpl. apply ok_with_guard. intros Hpair.
    rewrite (checked_add_eq (output_position w)) by bool_lia. simpl.
    apply ok_with_guard. intros Hend.
    rewrite (checked_add_eq s) by bool_lia. simpl. apply ok_with_guard. intros Hsend.
    apply (ok_with_bind _ _ (fun l' => length l' = length (de_vec w) /\ bytes_ok l')).
    + destruct (_ <=? _).
      * apply copy_within_ok; try done; lia.
      * apply copy_bytes_ok; try done; lia.
    + intros l [Hl1 Hl2]. apply ok_with_ret. split_and!; [lia|done|simpl; lia|lia].
Qed.

Lemma hash_pairs_ok n count position l dict :
  len l = n -> n <= isize_max -> bytes_ok l -> length dict = 256%nat -> Forall (entry_ok n) dict ->
  0 <= position -> (count <> O -> position + Z.of_nat count + 1 <= n) ->
  ok_with (hash_pairs count position l dict)
    (fun dict' => length dict' = 256%nat /\ Forall (entry_ok n) dict').
Proof.
  revert position dict. induction count as [|count IH]; intros position dict Hl Hn Hb Hd Hf Hp Hc.
  { by apply ok_with_ret. }
  simpl. specialize (Hc ltac:(done)). rewrite checked_add_eq by bool_lia. simpl.
  destruct (get_range_is_Some l position (position + 1 + 1)) as (pair & Hpair & Hpl); [lia..|].
  rewrite Hpair. simpl.
  destruct pair as [|b0 [|b1 [|]]]; simpl in Hpl; try lia.
  pose proof (get_range_Forall _ _ _ _ _ Hb Hpair) as Hbytes.
  apply Forall_cons in Hbytes as [H0 [H1 _]%Forall_cons].
  rewrite get_at_cons0. change (get_at [b0; b1] 1) with (Some b1).
  cbn [or_panic mbind outcome_bind].
  pose proof (lxor_byte b0 b1 H0 H1) as Hx. unfold is_byte in Hx.
  rewrite set_at_eq by lia. simpl.
  apply IH; try done; try lia.
  - by rewrite length_insert.
  - apply Forall_insert; [done|]. right. lia.
Qed.

Lemma run_unit_ok n u w :
  window_ok n w -> unit_ok u -> output_position w < n ->
  ok_with (run_unit u w) (fun w' =>
    window_ok n w' /\ output_position w' = output_position w + unit_length u).
Proof.
  intros Hw Hu Hlt. unfold run_unit. pose proof (unit_length_bounds u Hu) as Hul.
  eapply ok_with_bind; [by apply (write_unit_ok n)|]. intros [l o] (Hl & Hb & -> & Ho).
  destruct Hw as (Hlen & Hn & _ & Hd & Hdict & Hh & _). unfold saturating_sub.
  apply (ok_with_bind _ _ (fun e =>
    e = if is_backreference u then output_position w + 1 else output_position w)).
  { destruct u; simpl; [apply ok_with_ret; lia|]. rewrite checked_add_eq by bool_lia. by apply ok_with_ret. }
  intros e ->.
  assert (is_backreference u = true -> 2 <= unit_length u) as Hbr
    by (destruct u; simpl in *; unfold is_byte in *; naive_solver lia).
  eapply ok_with_bind; [apply (hash_pairs_ok n); try done; try lia|].
  intros dict [Hd' Hdict']. apply ok_with_ret. simpl. split; [|done].
  unfold window_ok. simpl. destruct (is_backreference u); split_and!; try done; try lia.
Qed.

(** ** The reader *)

(** [mask] after [k] units of the current group; 8 also before the first group. *)
Definition mask_of (k : Z) : Z := if k =? 8 then 0 else 2 ^ k.

(** The unit count of the group after one more unit. *)
Definition next_in_group (k : Z) : Z := if k =? 8 then 1 else k + 1.

Definition unit_size (u : Unit) : Z := match u with Literal _ => 1 | Backreference _ _ => 2 end.

Lemma mask_of_zero k : 1 <= k <= 8 -> (mask_of k =? 0) = (k =? 8).
Proof. intros. unfold mask_of. destruct (Z.eqb_spec k 8); [done|]. pose proof (Z.pow_pos_nonneg 2 k). lia. Qed.

Lemma mask_of_next k :
  1 <= k <= 8 -> Z.shiftl (if k =? 8 then 1 else mask_of k) 1 mod 256 = mask_of (next_in_group k).
Proof.
  intros Hk. assert (k ∈ seqZ 1 8) as Hin by (apply elem_of_seqZ; lia). vm_compute in Hin.
  repeat (apply elem_of_cons in Hin as [->|Hin]; [by vm_compute|]). by apply not_elem_of_nil in Hin.
Qed.

Lemma take_compressed_byte_ok vec p c :
  slice_ok vec -> 0 <= p ->
  ok_with (take_compressed_byte vec p c)
    (fun '(b, q) => is_byte b /\ q = p + 1 /\ q <= len vec /\ get_at vec p = Some b).
Proof.
  intros [Hb Hl] Hp. unfold take_compressed_byte.
  destruct (get_at vec p) as [b|] eqn:E; simpl; [|done].
  apply get_at_bounds in E as Hlt. rewrite checked_add_eq by bool_lia.
  apply ok_with_ret. split_and!; [by eapply get_at_Forall|lia|lia|done].
Qed.

Lemma read_unit_ok vec r k :
  slice_ok vec -> 0 <= compressed_position r <= len vec -> 1 <= k <= 8 -> mask r = mask_of k ->
  ok_with (read_unit vec r) (fun '(u, r') =>
    unit_ok u /\ mask r' = mask_of (next_in_group k) /\ 0 <= compressed_position r' <= len vec
    /\ compressed_position r'
       = compressed_position r + (if k =? 8 then 1 else 0) + unit_size u).
Proof.
  intros Hv Hp Hk Hm. unfold read_unit. rewrite Hm, mask_of_zero by done.
  apply (ok_with_bind _ _ (fun '((f, m), q) =>
    m = (if k =? 8 then 1 else mask_of k) /\ 0 <= q <= len vec
    /\ q = compressed_position r + (if k =? 8 then 1 else 0))).
  { destruct (k =? 8); [|apply ok_with_ret; split_and!; lia].
    eapply ok_with_bind; [apply take_compressed_byte_ok; [done|lia]|].
    intros [f q] (Hf & -> & Hq & _). apply ok_with_ret. split_and!; lia. }
  intros [[f m] q] (-> & Hq & Eq). cbn [fst snd].
  apply (ok_with_bind _ _ (fun '(u, q') =>
    unit_ok u /\ q' = q + unit_size u /\ 0 <= q' <= len vec)).
  { destruct (negb _).
    - eapply ok_with_bind; [apply take_compressed_byte_ok; [done|lia]|].
      intros [h q1] (Hh & -> & Hq1 & _).
      eapply ok_with_bind; [apply take_compressed_byte_ok; [done|lia]|].
      intros [e q2] (He & -> & Hq2 & _). apply ok_with_ret. simpl. split_and!; try done; lia.
    - eapply ok_with_bind; [apply take_compressed_byte_ok; [done|lia]|].
      intros [b q1] (Hb & -> & Hq1 & _). apply ok_with_ret. simpl. split_and!; try done; lia. }
  intros [u q'] (Hu & -> & Hq'). apply ok_with_ret. simpl.
  rewrite mask_of_next by done. split_and!; [done|done|lia..].
Qed.

(** What the bytes read and the bytes written have to do with each other, with
    [k] units of the current group read: at most 121 for one, and at most one
    flag byte for every eight units. *)
Definition balance (start k : Z) (r : Reader) (w : Window) : Prop :=
  let consumed := compressed_position r - start in
  output_position w + 15 * (8 - k) <= 121 * consumed
  /\ 8 * (consumed - output_position w) <= output_position w + 8 - k.

Lemma decompress_loop_ok fuel start vec n r w k :
  slice_ok vec -> 0 <= compressed_position r <= len vec -> 1 <= k <= 8 -> mask r = mask_of k ->
  window_ok n w -> balance start k r w -> n - output_position w < Z.of_nat fuel ->
  ok_with (decompress_loop fuel vec r w) (fun '(r', w') =>
    0 <= compressed_position r' <= len vec /\ window_ok n w' /\ output_position w' = n
    /\ exists k', 1 <= k' <= 8 /\ balance start k' r' w').
Proof.
  intros Hv. revert r w k. induction fuel as [|fuel IH]; intros r w k Hr Hk Hm Hw Hbal Hf.
  { destruct Hw as (_ & _ & _ & _ & _ & _ & ?). lia. }
  pose proof Hw as (Hlen & _ & _ & _ & _ & _ & Hle).
  cbn [decompress_loop]. rewrite Hlen. destruct (Z.ltb_spec (output_position w) n) as [Hlt|Hge].
  2: { apply ok_with_ret. split_and!; [lia|lia|done|lia|]. by exists k. }
  eapply ok_with_bind; [by apply (read_unit_ok vec r k)|].
  intros [u r'] (Hu & Hm' & Hr' & Hpos).
  eapply ok_with_bind; [by apply (run_unit_ok n)|]. intros w' [Hw' Hout].
  pose proof (unit_length_bounds u Hu). 
  apply (IH r' w' (next_in_group k)); try done.
  - unfold next_in_group. destruct (Z.eqb_spec k 8); lia.
  - unfold balance in *. rewrite Hpos, Hout.
    assert (unit_size u = 1 /\ unit_length u = 1 \/ unit_size u = 2 /\ 2 <= unit_length u <= 257)
      by (destruct u; simpl in *; unfold is_byte in *; lia).
    unfold next_in_group. destruct (Z.eqb_spec k 8); lia.
  - lia.
Qed.

Lemma declared_total_length_ok vec start :
  slice_ok vec ->
  ok_with (declared_total_length vec start) (fun n =>
    (start = 4 \/ start = 8) /\ start <= len vec /\ 0 <= n <= usize_max
    /\ exists p, get_range vec 0 start = Some p /\ n = from_le p).
Proof.
  intros [Hb _]. unfold declared_total_length.
  assert (forall k, 0 < k -> 8 * k <= 64 -> forall p, get_range vec 0 k = Some p ->
    k <= len vec /\ 0 <= from_le p <= usize_max) as Hp.
  { intros k Hk H64 p Hg. pose proof (get_range_bounds _ _ _ _ Hg) as (_ & Hle & El).
    pose proof (from_le_bound p ltac:(by eapply get_range_Forall)) as Hf.
    assert (2 ^ (8 * len p) <= 2 ^ 64) by (apply Z.pow_le_mono_r; lia). unfold usize_max. lia. }
  destruct (Z.eqb_spec start 4) as [->|]; [|destruct (Z.eqb_spec start 8) as [->|]; [|done]].
  all: eapply ok_with_bind; [apply ok_with_ok_or; intros p Hg; exact Hg|].
  all: intros p Hg; cbv beta in Hg; apply Hp in Hg as Hf; [|lia..]; apply ok_with_ret.
  all: split_and!; [lia|lia|lia|lia|by exists p].
Qed.

Lemma decompress_ok vec destination start :
  slice_ok vec -> slice_ok destination ->
  ok_with (decompress vec destination start) (fun out =>
    len out = len destination /\ bytes_ok out
    /\ len destination <= 121 * (len vec - start)
    /\ len vec - start <= len destination + (len destination + 7) / 8).
Proof.
  intros Hv [Hdb Hdl]. unfold decompress.
  eapply ok_with_bind; [by apply declared_total_length_ok|].
  intros total (Hstart & Hle & Htotal & _).
  eapply ok_with_bind; [apply ok_with_ok_or; intros n Hn; exact Hn|].
  intros n Hn. cbv beta in Hn. apply ok_with_guard. intros Heq.
  eapply ok_with_bind.
  { apply (decompress_loop_ok _ start _ (len destination) _ _ 8); simpl; try done; try lia.
    - unfold window_ok. simpl. split_and!; try done; try lia.
      by apply Forall_replicate; left.
    - unfold balance. simpl. lia. }
  intros [r w] (Hr & Hw & Ho & k & Hk & Hbal).
  destruct Hw as (Hlen & _ & Hbytes & _). unfold balance in Hbal. rewrite Ho in Hbal.
  destruct (Z.eqb_spec (compressed_position r) (len vec)) as [E|]; simpl.
  - apply ok_with_ret. rewrite E in Hbal. split_and!; [done|done|lia|].
    assert (len vec - start - len destination <= (len destination + 7) / 8); [|lia].
    apply Z.div_le_lower_bound; lia.
  - unfold usub, checked_sub. by replace (_ <=? _) with true by lia.
Qed.

(** ** Compressed bodies as lists of units

    The bytes between the length prefix and the end of a compressed body are the
    encoding of a list of groups of units; a decompressor that meets such an
    encoding runs exactly those units. *)

Definition unit_bytes (u : Unit) : list Z :=
  match u with Literal b => [b] | Backreference h e => [h; e] end.

Abbreviation units_bytes us := (flat_map unit_bytes us).

(** Bit [j] of the flag byte is set when unit [j] is a back-reference. *)
Fixpoint flags_of (us : list Unit) : Z :=
  match us with
  | [] => 0
  | u :: us => (if is_backreference u then 1 else 0) + 2 * flags_of us
  end.

Definition encode_group (us : list Unit) : list Z := flags_of us :: units_bytes us.
Abbreviation encode_groups gs := (flat_map encode_group gs).

(** Every group but the last has eight units, and none is empty. *)
Fixpoint grouped (gs : list (list Unit)) : Prop :=
  match gs with
  | [] => True
  | g :: rest => 1 <= len g <= 8 /\ (rest <> [] -> len g = 8) /\ grouped rest
  end.

Lemma flags_of_bound us : 0 <= flags_of us < 2 ^ len us.
Proof.
  induction us as [|u us IH]; simpl flags_of; [done|].
  cbn [length]. rewrite Nat2Z.inj_succ, Z.pow_succ_r by lia. destruct (is_backreference u); lia.
Qed.

Lemma flags_of_byte us : len us <= 8 -> is_byte (flags_of us).
Proof.
  intros H. pose proof (flags_of_bound us). unfold is_byte.
  assert (2 ^ len us <= 2 ^ 8) by (apply Z.pow_le_mono_r; lia). lia.
Qed.

Lemma flags_of_snoc us u :
  flags_of (us ++ [u]) = flags_of us + (if is_backreference u then 2 ^ len us else 0).
Proof.
  induction us as [|v us IH]; [simpl; by destruct (is_backreference u)|].
  cbn [app flags_of length]. rewrite IH, Nat2Z.inj_succ, Z.pow_succ_r by lia.
  destruct (is_backreference u), (is_backreference v); lia.
Qed.

(** [n |= i] with the bit of the next unit. *)
Lemma lor_next_bit us : len us <= 7 -> Z.lor (flags_of us) (2 ^ len us) = flags_of us + 2 ^ len us.
Proof.
  intros H. pose proof (flags_of_bound us) as Hb.
  pose proof (flags_of_byte us ltac:(lia)) as Hf.
  pose proof (byte_forallb (fun f => forallb (fun k =>
    negb (f <? 2 ^ k) || (Z.lor f (2 ^ k) =? f + 2 ^ k)) (seqZ 0 8)) _ eq_refl Hf) as Hall.
  rewrite forallb_forall in Hall.
  specialize (Hall (len us) ltac:(apply list_elem_of_In, elem_of_seqZ; lia)).
  replace (flags_of us <? _) with true in Hall by lia. simpl in Hall. lia.
Qed.

(** The test of bit [k] of a flag byte. *)
Lemma flag_test f k :
  is_byte f -> 0 <= k <= 7 -> negb (Z.land f (2 ^ k) =? 0) = Z.odd (f / 2 ^ k).
Proof.
  intros Hf Hk. rewrite <- Z.shiftr_div_pow2, <- Z.testbit_odd by lia.
  pose proof (byte_forallb (fun f => forallb (fun k =>
    Bool.eqb (negb (Z.land f (2 ^ k) =? 0)) (Z.testbit f k)) (seqZ 0 8)) f eq_refl Hf) as H.
  rewrite forallb_forall in H. apply Bool.eqb_prop, H, list_elem_of_In, elem_of_seqZ. lia.
Qed.

Lemma odd_flags u us : Z.odd (flags_of (u :: us)) = is_backreference u.
Proof.
  cbn [flags_of]. rewrite Z.odd_add_mul_2. by destruct (is_backreference u).
Qed.

Lemma half_flags u us : flags_of (u :: us) / 2 = flags_of us.
Proof.
  cbn [flags_of]. rewrite Z.mul_comm, Z.div_add by lia.
  by destruct (is_backreference u).
Qed.

(** ** Reading units back *)

(** The reader has the units [us] in front of it, and nothing after them: [k]
    units of the current group are read, [cur] are left in it, [rest] follow. *)
Definition represents (vec : list Z) (r : Reader) (us : list Unit) : Prop :=
  exists k cur rest,
    us = cur ++ concat rest /\ 1 <= k <= 8 /\ mask r = mask_of k
    /\ k + len cur <= 8 /\ (rest <> [] -> k + len cur = 8) /\ grouped rest
    /\ (k < 8 -> is_byte (flags r) /\ flags r / 2 ^ k = flags_of cur)
    /\ 0 <= compressed_position r
    /\ get_from vec (compressed_position r) = Some (units_bytes cur ++ encode_groups rest).

Lemma take_compressed_byte_eq vec p c b x :
  slice_ok vec -> get_from vec p = Some (b :: x) ->
  take_compressed_byte vec p c = Ok (b, p + 1) /\ get_from vec (p + 1) = Some x.
Proof.
  intros [Hb Hl] H. unfold get_from in *. apply get_range_cons in H as [H1 H2].
  pose proof (get_range_bounds _ _ _ _ H2) as (? & ? & ?).
  split; [|done]. unfold take_compressed_byte.
  pose proof (get_range_get_at _ _ _ _ 0 H1 ltac:(simpl; lia)) as Hg.
  rewrite get_at_cons0, Z.add_0_r in Hg. rewrite <- Hg. simpl.
  by rewrite checked_add_eq by bool_lia.
Qed.

Lemma represents_nil vec r : represents vec r [] -> compressed_position r = len vec.
Proof.
  intros (k & cur & rest & E & Hk & _ & _ & _ & Hg & _ & Hp & Hrest).
  symmetry in E. apply app_eq_nil in E as [-> E].
  destruct rest as [|g rest].
  - unfold get_from in Hrest. apply get_range_bounds in Hrest. simpl in Hrest. lia.
  - destruct Hg as (Hl & _). destruct g; [simpl in Hl; lia|done].
Qed.

(** The body of [read_unit] once the flag byte is known. *)
Lemma read_known vec p f k u x us :
  slice_ok vec -> is_byte f -> 0 <= k <= 7 -> f / 2 ^ k = flags_of (u :: us) ->
  get_from vec p = Some (unit_bytes u ++ x) ->
  (if negb (Z.land f (2 ^ k) =? 0) then
     '(hash, position) ← take_compressed_byte vec p "compression backreference hash";
     '(extra_length, position) ←
       take_compressed_byte vec position "compression backreference length";
     Ok (Backreference hash extra_length, position)
   else
     '(b, position) ← take_compressed_byte vec p "compressed literal";
     Ok (Literal b, position)) = Ok (u, p + unit_size u)
  /\ get_from vec (p + unit_size u) = Some x.
Proof.
  intros Hv Hf Hk Hfl Hx. rewrite flag_test, Hfl, odd_flags by done.
  destruct u as [b|h e]; simpl in *.
  - by destruct (take_compressed_byte_eq vec p "compressed literal" b x Hv Hx) as [-> H].
  - destruct (take_compressed_byte_eq vec p "compression backreference hash" h _ Hv Hx) as [-> H].
    simpl.
    destruct (take_compressed_byte_eq vec _ "compression backreference length" e _ Hv H) as [-> H'].
    replace (p + 2) with (p + 1 + 1) by lia. done.
Qed.

Lemma read_unit_represents vec r u us :
  slice_ok vec -> represents vec r (u :: us) ->
  exists r', read_unit vec r = Ok (u, r') /\ represents vec r' us.
Proof.
  intros Hv (k & cur & rest & E & Hk & Hm & Hc & Hr & Hg & Hf & Hp & Hx).
  unfold read_unit. rewrite Hm, mask_of_zero by done.
  destruct (Z.eqb_spec k 8) as [->|Hk8].
  - destruct cur; [|simpl in Hc; lia]. simpl in E.
    destruct rest as [|[|v g] rest]; [done|destruct Hg as [Hg _]; simpl in Hg; lia|].
    simpl in E. injection E as <- ->. destruct Hg as (Hlen & Hfull & Hrest).
    change (encode_groups ((u :: g) :: rest))
      with ((flags_of (u :: g) :: units_bytes (u :: g)) ++ encode_groups rest) in Hx.
    rewrite app_nil_l in Hx. cbn [app] in Hx.
    destruct (take_compressed_byte_eq vec _ "compression flags" _ _ Hv Hx) as [-> Hx'].
    cbn [mbind outcome_bind fst snd]. cbn [flat_map] in Hx'. rewrite <- app_assoc in Hx'.
    pose proof (flags_of_byte (u :: g) ltac:(lia)) as Hbyte.
    destruct (read_known vec (compressed_position r + 1) (flags_of (u :: g)) 0 u
      (units_bytes g ++ encode_groups rest) g Hv Hbyte ltac:(lia)
      ltac:(by rewrite Z.div_1_r) Hx') as [Hread Hnext].
    change (2 ^ 0) with 1 in Hread. rewrite Hread. cbn [mbind outcome_bind].
    eexists. split; [reflexivity|]. exists 1, g, rest. cbn [length] in *.
    split_and!; simpl; try done; try lia.
    + intros Hne. specialize (Hfull Hne). lia.
    + intros _. split; [done|exact (half_flags u g)].
    + destruct u; simpl; lia.
  - destruct cur as [|v cur].
    { destruct rest; [done|]. specialize (Hr ltac:(done)). simpl in Hr. lia. }
    simpl in E. injection E as <- ->. destruct (Hf ltac:(lia)) as [Hbyte Hflags].
    assert (mask_of k = 2 ^ k) as Em by (unfold mask_of; by replace (k =? 8) with false by lia).
    cbn [mbind outcome_bind fst snd]. rewrite Em.
    cbn [flat_map] in Hx. rewrite <- app_assoc in Hx.
    destruct (read_known vec (compressed_position r) (flags r) k u _ cur Hv Hbyte ltac:(lia)
      Hflags Hx) as [Hread Hnext].
    rewrite Hread. cbn [mbind outcome_bind].
    eexists. split; [reflexivity|]. exists (k + 1), cur, rest. cbn [length] in *.
    split_and!; simpl; try done; try lia.
    + pose proof (mask_of_next k ltac:(lia)) as Hn. replace (k =? 8) with false in Hn by lia.
      rewrite Em in Hn. rewrite Hn.
      unfold next_in_group. by replace (k =? 8) with false by lia.
    + intros Hne. specialize (Hr Hne). lia.
    + intros _. split; [done|]. rewrite Z.pow_add_r, <- Z.div_div by lia.
      rewrite Hflags. change (2 ^ 1) with 2. apply half_flags.
    + destruct u; simpl; lia.
Qed.

(** ** Running units *)

Fixpoint run_units (us : list Unit) (w : Window) : res Window :=
  match us with
  | [] => Ok w
  | u :: us => w ← run_unit u w; run_units us w
  end.

Lemma run_units_app us vs w : run_units (us ++ vs) w = (w ← run_units us w; run_units vs w).
Proof.
  revert w. induction us as [|u us IH]; intros w; simpl; [done|].
  destruct (run_unit u w); simpl; auto.
Qed.

(** A unit that runs had room for its output. *)
Lemma run_unit_room n u w w' :
  window_ok n w -> unit_ok u -> run_unit u w = Ok w' ->
  output_position w < n /\ window_ok n w' /\ output_position w' = output_position w + unit_length u.
Proof.
  intros Hw Hu Hrun. assert (output_position w < n) as Hlt.
  { pose proof Hw as (Hlen & _ & _ & _ & _ & ? & _). unfold run_unit in Hrun.
    apply bind_Ok in Hrun as ([l o] & Hwrite & _).
    destruct u as [b|h e]; simpl in Hwrite, Hu; unfold is_byte in Hu.
    - apply bind_Ok in Hwrite as (l' & Hl%or_panic_Ok & _). apply set_at_inv in Hl. lia.
    - apply bind_Ok in Hwrite as (s & _ & Hwrite). apply if_Err_Ok in Hwrite as [_ Hwrite].
      apply bind_Ok in Hwrite as (p & _ & Hwrite). apply if_Err_Ok in Hwrite as [_ Hwrite].
      apply bind_Ok in Hwrite as (q & Hq%ok_or_Ok & Hwrite).
      unfold checked_add in Hq. destruct (_ <=? _); [|done]. injection Hq as <-.
      apply if_Err_Ok in Hwrite as [Hend _]. lia. }
  split; [done|]. by apply (run_unit_ok n u w Hw Hu Hlt).
Qed.

Lemma decompress_loop_units fuel vec n us r w w' :
  slice_ok vec -> window_ok n w -> Forall unit_ok us -> represents vec r us ->
  run_units us w = Ok w' -> output_position w' = n -> (length us < fuel)%nat ->
  exists r', decompress_loop fuel vec r w = Ok (r', w') /\ compressed_position r' = len vec.
Proof.
  intros Hv. revert fuel r w. induction us as [|u us IH]; intros fuel r w Hw Hus Hrep Hrun Hn Hf.
  - injection Hrun as <-. destruct fuel as [|fuel]; [lia|]. cbn [decompress_loop].
    pose proof Hw as (Hlen & _). replace (_ <? _) with false by lia.
    exists r. split; [done|]. by apply represents_nil.
  - destruct fuel as [|fuel]; [simpl in Hf; lia|].
    apply Forall_cons in Hus as [Hu Hus]. cbn [run_units] in Hrun.
    apply bind_Ok in Hrun as (w1 & Hw1 & Hrun).
    destruct (run_unit_room n u w w1 Hw Hu Hw1) as (Hlt & Hok & _).
    destruct (read_unit_represents vec r u us Hv Hrep) as (r1 & Hr1 & Hrep1).
    cbn [decompress_loop]. pose proof Hw as (Hlen & _). replace (_ <? _) with true by lia.
    rewrite Hr1. cbn [mbind outcome_bind]. rewrite Hw1. cbn [mbind outcome_bind].
    apply IH; try done. simpl in Hf. lia.
Qed.

(** Each unit produces a byte, so there are at most as many units as bytes. *)
Lemma run_units_count n us w w' :
  window_ok n w -> Forall unit_ok us -> run_units us w = Ok w' ->
  output_position w + len us <= output_position w' /\ window_ok n w'.
Proof.
  revert w. induction us as [|u us IH]; intros w Hw Hus Hrun.
  - injection Hrun as <-. simpl. split; [lia|done].
  - apply Forall_cons in Hus as [Hu Hus]. cbn [run_units] in Hrun.
    apply bind_Ok in Hrun as (w1 & Hw1 & Hrun).
    destruct (run_unit_room n u w w1 Hw Hu Hw1) as (_ & Hok & Ho).
    destruct (IH w1 Hok Hus Hrun) as [Hc ?]. pose proof (unit_length_bounds u Hu).
    cbn [length]. split; [lia|done].
Qed.

Lemma start_window_ok destination :
  slice_ok destination ->
  window_ok (len destination) (MkWindow destination 0 empty_dictionary 0).
Proof.
  intros [Hb Hl]. unfold window_ok. simpl. split_and!; try done; try lia.
  by apply Forall_replicate; left.
Qed.

Lemma start_represents vec start gs :
  0 <= start -> grouped gs -> get_from vec start = Some (encode_groups gs) ->
  represents vec (MkReader start 0 0) (concat gs).
Proof.
  intros Hs Hg Hx. exists 8, [], gs. simpl. split_and!; try done; lia.
Qed.

(** A body that encodes units which fill the destination decompresses to what
    they produce. *)
Lemma decompress_units vec destination start total gs w :
  slice_ok vec -> slice_ok destination ->
  declared_total_length vec start = Ok total -> total = len destination + 8 -> 0 <= start ->
  grouped gs -> Forall unit_ok (concat gs) -> get_from vec start = Some (encode_groups gs) ->
  run_units (concat gs) (MkWindow destination 0 empty_dictionary 0) = Ok w ->
  output_position w = len destination ->
  decompress vec destination start = Ok (de_vec w).
Proof.
  intros Hv Hd Ht -> Hstart Hg Hus Hx Hrun Hout. unfold decompress. rewrite Ht.
  cbn [mbind outcome_bind]. unfold checked_sub.
  replace (8 <=? len destination + 8) with true by lia. cbn [ok_or mbind outcome_bind].
  replace (len destination + 8 - 8) with (len destination) by lia. rewrite Z.eqb_refl.
  cbn [negb]. pose proof (start_window_ok destination Hd) as Hw.
  destruct (run_units_count _ _ _ _ Hw Hus Hrun) as [Hcount _]. cbn [output_position] in Hcount.
  destruct (decompress_loop_units (S (length destination)) vec (len destination) (concat gs)
    (MkReader start 0 0) (MkWindow destination 0 empty_dictionary 0) w) as (r & -> & Hr);
    try done; [by apply start_represents|lia|].
  cbn [mbind outcome_bind]. by rewrite Hr, Z.eqb_refl.
Qed.
