(* ===== verification/CompressRoundtrip.v ===== *)
(** * CompressRoundtrip: decompression undoes compression

    The compressor and the decompressor keep the same pair dictionary; a relation
    between their states ([tracks]) is preserved by every unit the compressor
    emits, so running the emitted units rebuilds the input. *)

From stdpp Require Import prelude strings.
From Stdlib Require Import ZArith Lia ZifyBool.
From S2P Require Import Prelude Errors Compress CompressFacts.

(** ** Copying *)

(** [l] agrees with [V] before position [t]. *)
Definition agrees (V l : list Z) (t : Z) : Prop :=
  forall j, 0 <= j < t -> get_at l j = get_at V j.

Lemma copy_bytes_spec V count s t l :
  0 <= s < t -> t + Z.of_nat count <= len l -> agrees V l t ->
  (forall i, 0 <= i < Z.of_nat count -> get_at V (s + i) = get_at V (t + i)) ->
  exists l', copy_bytes count s t l = Ok l' /\ length l' = length l
             /\ agrees V l' (t + Z.of_nat count).
Proof.
  revert s t l. induction count as [|count IH]; intros s t l Hs Ht Hl HV; cbn [copy_bytes].
  { exists l. rewrite Z.add_0_r. done. }
  destruct (get_at_is_Some l s) as [b Hb]; [lia|]. rewrite Hb. cbn [or_panic mbind outcome_bind].
  destruct (set_at l t b) as [l1|] eqn:E; [|by rewrite set_at_eq in E by lia].
  cbn [or_panic mbind outcome_bind]. apply set_at_inv in E as E1. destruct E1 as [_ El].
  assert (length l1 = length l) as Hlen by (by rewrite El, length_insert).
  destruct (IH (s + 1) (t + 1) l1) as (l2 & -> & Hl2 & Ha); [lia|lia| | |].
  - intros j Hj. rewrite (get_at_set _ _ _ _ j E). destruct (Z.eqb_spec j t) as [->|].
    + rewrite <- Hb, Hl by lia. specialize (HV 0 ltac:(lia)). by rewrite !Z.add_0_r in HV.
    + apply Hl. lia.
  - intros i Hi. specialize (HV (i + 1) ltac:(lia)).
    by replace (s + 1 + i) with (s + (i + 1)) by lia; replace (t + 1 + i) with (t + (i + 1)) by lia.
  - exists l2. split_and!; [done|congruence|].
    by replace (t + Z.of_nat (S count)) with (t + 1 + Z.of_nat count) by lia.
Qed.

Lemma copy_within_spec V s e t l :
  0 <= s -> s <= e -> e <= t -> t + (e - s) <= len l -> agrees V l t ->
  (forall i, 0 <= i < e - s -> get_at V (s + i) = get_at V (t + i)) ->
  exists l', copy_within s e t l = Ok l' /\ length l' = length l /\ agrees V l' (t + (e - s)).
Proof.
  intros Hs Hse Het Ht Hl HV. unfold copy_within.
  destruct (get_range_is_Some l s e) as (run & Hrun & Hlen); [lia..|].
  rewrite Hrun. cbn [or_panic mbind outcome_bind].
  destruct (write_at l t run) as [l'|] eqn:E; [|by rewrite write_at_eq in E by lia].
  exists l'. split_and!; [done|by eapply write_at_length|]. intros j Hj.
  rewrite (get_at_write _ _ _ _ j E). destruct (Z.leb_spec t j); simpl; [|apply Hl; lia].
  replace (j <? t + len run) with true by lia.
  rewrite (get_range_get_at _ _ _ _ _ Hrun) by lia.
  rewrite Hl, HV by lia. f_equal. lia.
Qed.

Lemma hash_pairs_S count p l dict a b :
  p <= isize_max -> get_at l p = Some a -> get_at l (p + 1) = Some b ->
  hash_pairs (S count) p l dict =
  (dict ← or_panic (set_at dict (Z.lxor a b) p); hash_pairs count (p + 1) l dict).
Proof.
  intros Hp Ha Hb. cbn [hash_pairs]. rewrite checked_add_eq by bool_lia. cbn [ok_or mbind outcome_bind].
  replace (p + 1 + 1) with (p + 2) by lia. rewrite (get_range_pair l p a b Ha Hb).
  cbn [ok_or mbind outcome_bind]. rewrite get_at_cons0. by change (get_at [a; b] 1) with (Some b).
Qed.

Lemma hash_pairs_app c d p l dict :
  hash_pairs (c + d) p l dict = (dict ← hash_pairs c p l dict; hash_pairs d (p + Z.of_nat c) l dict).
Proof.
  revert p dict. induction c as [|c IH]; intros p dict; [simpl; by rewrite Z.add_0_r|].
  cbn [Nat.add hash_pairs]. destruct (checked_add p 1); [|done]. cbn [ok_or mbind outcome_bind].
  destruct (get_range l p _) as [pair|]; [|done]. cbn [ok_or mbind outcome_bind].
  destruct (get_at pair 0); [|done]. cbn [or_panic mbind outcome_bind].
  destruct (get_at pair 1); [|done]. cbn [or_panic mbind outcome_bind].
  destruct (set_at dict _ _); [|done]. cbn [or_panic mbind outcome_bind].
  rewrite IH. by replace (p + 1 + Z.of_nat c) with (p + Z.of_nat (S c)) by lia.
Qed.

Lemma set_at_map {A B} (f : A -> B) l l' i v :
  set_at l i v = Some l' -> set_at (map f l) i (f v) = Some (map f l').
Proof.
  intros [Hi ->]%set_at_inv. rewrite set_at_eq by (rewrite length_map; lia).
  f_equal. symmetry. apply list_fmap_insert.
Qed.

Lemma get_at_map {A B} (f : A -> B) l i : get_at (map f l) i = f <$> get_at l i.
Proof.
  unfold get_at. rewrite length_map. destruct (_ && _); [|done]. apply list_lookup_fmap.
Qed.

Lemma get_range_single {A} (l : list A) j v : get_at l j = Some v -> get_range l j (j + 1) = Some [v].
Proof.
  intros H. apply get_at_bounds in H as Hj.
  destruct (get_range_is_Some l j (j + 1)) as (x & Hx & Hl); [lia..|]. rewrite Hx.
  destruct x as [|a [|]]; simpl in Hl; try lia.
  pose proof (get_range_get_at _ _ _ _ 0 Hx ltac:(simpl; lia)) as E.
  rewrite Z.add_0_r, get_at_cons0 in E. congruence.
Qed.

Lemma length_set_at {A} (l l' : list A) i v : set_at l i v = Some l' -> length l' = length l.
Proof. intros [_ ->]%set_at_inv. apply length_insert. Qed.

Lemma mask_of_length (us : list Unit) : len us <= 8 -> (mask_of (len us) =? 0) = (len us =? 8).
Proof.
  intros H. destruct (Z.eq_dec (len us) 0) as [->|]; [done|]. apply mask_of_zero. lia.
Qed.

Lemma lxor_cancel a b c : Z.lxor a b = Z.lxor a c -> b = c.
Proof.
  intros H. apply (f_equal (Z.lxor a)) in H.
  by rewrite <- !Z.lxor_assoc, Z.lxor_nilpotent, !Z.lxor_0_l in H.
Qed.

(** A compressor table entry as the decompressor's dictionary holds it: positions
    count from the body, and 0 stands for an empty entry. *)
Definition entry_of (p : Z) : Z := if p =? 0 then INVALID_OFFSET else p - 8.

(** ** The two dictionaries *)

Section Roundtrip.
  Context (vec : list Z).
  Hypothesis vec_ok : slice_ok vec.

(** The uncompressed body the decompressor rebuilds. *)
Let V : list Z := drop (Z.to_nat 8) vec.
Let total : Z := len vec - 8.

Definition byte_at (j : Z) : Z := default 0 (get_at vec j).
Definition pair_hash (j : Z) : Z := Z.lxor (byte_at j) (byte_at (j + 1)).

Lemma get_byte j : 0 <= j < len vec -> get_at vec j = Some (byte_at j).
Proof. intros Hj. unfold byte_at. by destruct (get_at_is_Some vec j Hj) as [b ->]. Qed.

Lemma byte_at_ok j : is_byte (byte_at j).
Proof.
  unfold byte_at. destruct (get_at vec j) as [b|] eqn:E; simpl; [|unfold is_byte; lia].
  eapply get_at_Forall; [apply vec_ok|done].
Qed.

Lemma pair_hash_ok j : is_byte (pair_hash j).
Proof. apply lxor_byte; apply byte_at_ok. Qed.

Lemma get_V j : 0 <= j -> get_at V j = get_at vec (8 + j).
Proof. intros. unfold V. apply get_at_drop; lia. Qed.

(** Table entries are positions of pairs with the entry's hash, up to [bound]. *)
Definition table_ok (bound : Z) (x : list Z) : Prop :=
  forall h p, get_at x h = Some p -> p = 0 \/ (8 <= p <= bound /\ pair_hash p = h).

Record tracks (s : Compressor) (w : Window) : Prop := {
  t_window : window_ok total w;
  t_position : 8 <= o_pos s <= len vec;
  t_output : output_position w = o_pos s - 8;
  t_prefix : agrees V (de_vec w) (o_pos s - 8);
  t_pending : (p_pos s = 0 /\ hash_position w = o_pos s - 8)
              \/ (8 <= p_pos s /\ p_pos s = o_pos s - 1 /\ hash_position w = o_pos s - 9);
  t_px : is_byte (px s);
  t_length : length (x_table s) = 256%nat;
  t_live : 3 <= len vec - o_pos s ->
    (0 < p_pos s -> px s = pair_hash (o_pos s - 1))
    /\ dictionary w = map entry_of (x_table s) /\ table_ok (o_pos s - 2) (x_table s)
}.

(** The deferred insertion of the previous literal's pair. *)
Definition pending_insert (s : Compressor) : res (list Z) :=
  if 0 <? p_pos s then or_panic (set_at (x_table s) (px s) (p_pos s)) else Ok (x_table s).

Lemma table_ok_set x x1 h p bound :
  table_ok bound x -> set_at x h p = Some x1 -> pair_hash p = h -> 8 <= p -> p <= bound ->
  table_ok bound x1.
Proof.
  intros Hx E Hh H8 Hb g q Hq. rewrite (get_at_set _ _ _ _ g E) in Hq.
  destruct (Z.eqb_spec g h) as [->|]; [|by apply Hx]. injection Hq as <-. right. done.
Qed.

Lemma table_ok_weaken b b' x : table_ok b x -> b <= b' -> table_ok b' x.
Proof. intros Hx Hb h p Hp. destruct (Hx h p Hp) as [|[]]; [by left|right]. split; [lia|done]. Qed.

Lemma entry_of_pos p : 8 <= p -> entry_of p = p - 8.
Proof. intros. unfold entry_of. by replace (p =? 0) with false by lia. Qed.

Lemma pending_step s w l :
  tracks s w -> o_pos s < len vec -> agrees V l (o_pos s - 7) ->
  exists x1 d1,
    pending_insert s = Ok x1 /\ length x1 = 256%nat
    /\ hash_pairs (Z.to_nat (o_pos s - 8 - hash_position w)) (hash_position w) l (dictionary w)
       = Ok d1
    /\ length d1 = 256%nat
    /\ (3 <= len vec - o_pos s -> d1 = map entry_of x1 /\ table_ok (o_pos s - 1) x1).
Proof.
  intros [Hw Hpos Hout Hpre Hpend Hpx Hlen Hlive] Hlt Hl.
  destruct vec_ok as [_ Hmax]. unfold pending_insert, is_byte in *.
  pose proof Hw as (_ & _ & _ & Hd & _).
  destruct Hpend as [[Hp0 Hh]|(H8 & Hp & Hh)].
  - rewrite Hp0, Hh, Z.sub_diag. exists (x_table s), (dictionary w). cbn.
    split_and!; [done..|]. intros H3. destruct (Hlive H3) as (_ & ? & ?).
    split; [done|]. eapply table_ok_weaken; [done|lia].
  - replace (0 <? p_pos s) with true by lia. rewrite Hh.
    replace (Z.to_nat (o_pos s - 8 - (o_pos s - 9))) with 1%nat by lia.
    assert (get_at l (o_pos s - 9) = Some (byte_at (o_pos s - 1))) as Ha.
    { rewrite Hl, get_V by lia. replace (8 + _) with (o_pos s - 1) by lia. apply get_byte. lia. }
    assert (get_at l (o_pos s - 9 + 1) = Some (byte_at (o_pos s - 1 + 1))) as Hb.
    { rewrite Hl, get_V by lia. replace (8 + _) with (o_pos s - 1 + 1) by lia. apply get_byte. lia. }
    rewrite (hash_pairs_S 0 (o_pos s - 9) _ _ _ _ ltac:(lia) Ha Hb). fold (pair_hash (o_pos s - 1)).
    pose proof (pair_hash_ok (o_pos s - 1)) as Hhash. unfold is_byte in Hhash.
    destruct (set_at (x_table s) (px s) (p_pos s)) as [x1|] eqn:E1; [|by rewrite set_at_eq in E1 by lia].
    destruct (set_at (dictionary w) (pair_hash (o_pos s - 1)) (o_pos s - 9)) as [d1|] eqn:E2;
      [|by rewrite set_at_eq in E2 by lia].
    exists x1, d1. apply length_set_at in E1 as L1. apply length_set_at in E2 as L2.
    split_and!; [done|lia|done|lia|]. intros H3.
    destruct (Hlive H3) as (Hpx' & Hdict & Htab). rewrite Hpx', Hp in E1 by lia. split.
    + apply (set_at_map entry_of) in E1. rewrite entry_of_pos in E1 by lia.
      replace (o_pos s - 1 - 8) with (o_pos s - 9) in E1 by lia.
      rewrite Hdict, E1 in E2. by injection E2.
    + eapply table_ok_set; [eapply table_ok_weaken; [done|]|done|done|..]; lia.
Qed.

Lemma literal_step s w :
  tracks s w -> o_pos s < len vec ->
  exists x1 w',
    pending_insert s = Ok x1 /\ run_unit (Literal (byte_at (o_pos s))) w = Ok w'
    /\ forall c cp np cx n i, is_byte cx ->
         (3 <= len vec - o_pos s -> cx = pair_hash (o_pos s)) ->
         tracks (MkCompressor c cp np (o_pos s + 1) x1 cx n (o_pos s) i) w'.
Proof.
  intros Ht Hlt. pose proof Ht as [Hw Hpos Hout Hpre Hpend Hpx Hlen Hlive].
  destruct vec_ok as [_ Hmax]. pose proof Hw as (Hlw & _).
  destruct (set_at (de_vec w) (output_position w) (byte_at (o_pos s))) as [l|] eqn:El;
    [|by rewrite set_at_eq in El by (unfold total in *; lia)].
  assert (agrees V l (o_pos s - 7)) as Hl.
  { intros j Hj. rewrite (get_at_set _ _ _ _ j El), Hout.
    destruct (Z.eqb_spec j (o_pos s - 8)) as [->|]; [|apply Hpre; lia].
    rewrite get_V by lia. replace (8 + _) with (o_pos s) by lia. symmetry. apply get_byte. lia. }
  destruct (pending_step s w l Ht Hlt Hl) as (x1 & d1 & Hx1 & L1 & Hd1 & L2 & Hlive1).
  assert (run_unit (Literal (byte_at (o_pos s))) w
    = Ok (MkWindow l (o_pos s - 7) d1 (o_pos s - 8))) as Hrun.
  { unfold run_unit. cbn [write_unit is_backreference]. rewrite El.
    cbn [or_panic mbind outcome_bind]. rewrite Hout. unfold saturating_sub.
    replace (Z.max (o_pos s - 8 + 1 - 1) 0) with (o_pos s - 8) by lia. rewrite Hd1.
    cbn [mbind outcome_bind]. by replace (o_pos s - 8 + 1) with (o_pos s - 7) by lia. }
  exists x1. eexists. split_and!; [done|exact Hrun|]. intros c cp np cx n i Hcx Hhash.
  destruct (run_unit_room total _ _ _ Hw (byte_at_ok (o_pos s) : unit_ok (Literal _)) Hrun)
    as (_ & Hw' & _).
  constructor; cbn [o_pos p_pos px x_table output_position de_vec hash_position dictionary];
    try done; try lia.
  - replace (o_pos s + 1 - 8) with (o_pos s - 7) by lia. done.
  - intros H3. destruct (Hlive1 ltac:(lia)) as [-> Htab]. split_and!; [|done|].
    + intros _. rewrite Hhash by lia. f_equal. lia.
    + by replace (o_pos s + 1 - 2) with (o_pos s - 1) by lia.
Qed.

(** ** Back-references *)

Lemma match_run_spec fuel max x o :
  0 <= x <= o -> max <= len vec -> Z.max 0 (max - o) < Z.of_nat fuel ->
  exists e, match_run fuel vec max x o = Ok e /\ o <= e <= Z.max o max
    /\ forall j, 0 <= j < e - o -> byte_at (x + j) = byte_at (o + j).
Proof.
  revert x o. induction fuel as [|fuel IH]; intros x o Hx Hmax Hf; cbn [match_run].
  { lia. }
  destruct (Z.ltb_spec o max) as [Hlt|]; [|exists o; split_and!; [done|lia|lia|intros; lia]].
  rewrite !get_byte by lia. cbn [or_panic mbind outcome_bind].
  destruct (Z.eqb_spec (byte_at x) (byte_at o)) as [E|]; [|exists o; split_and!; [done|lia|lia|intros; lia]].
  destruct (IH (x + 1) (o + 1)) as (e & -> & He & Hrun); [lia..|].
  exists e. split_and!; [done|lia|lia|]. intros j Hj.
  destruct (Z.eq_dec j 0) as [->|]; [by rewrite !Z.add_0_r|].
  specialize (Hrun (j - 1) ltac:(lia)).
  by replace (x + j) with (x + 1 + (j - 1)) by lia; replace (o + j) with (o + 1 + (j - 1)) by lia.
Qed.

(** A run of [e - o] bytes at [o] that repeats the bytes at [p]. *)
Definition repeats (p o e : Z) : Prop :=
  8 <= p <= o - 2 /\ o + 2 <= e <= len vec /\ forall j, 0 <= j < e - o -> byte_at (p + j) = byte_at (o + j).

Lemma found_run o p :
  8 <= p <= o - 2 -> 3 <= len vec - o -> pair_hash p = pair_hash o -> byte_at p = byte_at o ->
  exists e, match_run 256 vec (Z.min (o + 2 + 255) (len vec)) (p + 2) (o + 2) = Ok e
    /\ repeats p o e /\ e <= o + 257.
Proof.
  intros Hp Ho Hh Hb.
  destruct (match_run_spec 256 (Z.min (o + 2 + 255) (len vec)) (p + 2) (o + 2))
    as (e & -> & He & Hrun); [lia..|].
  exists e. split_and!; [done| |lia]. split_and!; [lia|lia|lia|lia|]. intros j Hj.
  unfold pair_hash in Hh. rewrite Hb in Hh. apply lxor_cancel in Hh.
  destruct (Z.eq_dec j 0) as [->|]; [by rewrite !Z.add_0_r|].
  destruct (Z.eq_dec j 1) as [->|]; [done|]. specialize (Hrun (j - 2) ltac:(lia)).
  by replace (p + j) with (p + 2 + (j - 2)) by lia; replace (o + j) with (o + 2 + (j - 2)) by lia.
Qed.

Lemma write_backreference w h o p e :
  window_ok total w -> output_position w = o - 8 -> agrees V (de_vec w) (o - 8) -> 8 <= o ->
  get_at (dictionary w) h = Some (p - 8) -> repeats p o e ->
  exists l, write_unit (Backreference h (e - (o + 2))) w = Ok (l, e - 8)
    /\ agrees V l (e - 8).
Proof.
  intros Hw Hout Hpre Ho Hdict (Hp & He & Hrep). pose proof Hw as (Hlen & Hmax & _).
  unfold total, isize_max in *. cbn [write_unit]. rewrite Hdict. cbn [or_panic mbind outcome_bind].
  unfold INVALID_OFFSET. replace (p - 8 =? usize_max) with false by bool_lia.
  rewrite (checked_add_eq (p - 8) 2) by bool_lia. cbn [ok_or mbind outcome_bind].
  rewrite Hout. replace (o - 8 <? p - 8 + 2) with false by lia.
  rewrite (checked_add_eq (o - 8)) by bool_lia. cbn [ok_or mbind outcome_bind].
  rewrite Hlen. replace (_ <? o - 8 + _) with false by lia.
  rewrite (checked_add_eq (p - 8)) by bool_lia. cbn [ok_or mbind outcome_bind].
  replace (_ <? p - 8 + _) with false by lia.
  replace (e - (o + 2) + 2) with (e - o) by lia.
  replace (o - 8 + (e - o)) with (e - 8) by lia.
  assert (forall i, 0 <= i < e - o -> get_at V (p - 8 + i) = get_at V (o - 8 + i)) as HV.
  { intros i Hi. rewrite !get_V by lia. specialize (Hrep i Hi).
    replace (8 + (p - 8 + i)) with (p + i) by lia. replace (8 + (o - 8 + i)) with (o + i) by lia.
    rewrite !get_byte by lia. by rewrite Hrep. }
  destruct (Z.leb_spec (p - 8 + (e - o)) (o - 8)).
  - destruct (copy_within_spec V (p - 8) (p - 8 + (e - o)) (o - 8) (de_vec w))
      as (l & -> & _ & Ha); [lia..|done|intros; apply HV; lia|].
    exists l. split; [done|]. by replace (e - 8) with (o - 8 + (p - 8 + (e - o) - (p - 8))) by lia.
  - destruct (copy_bytes_spec V (Z.to_nat (e - o)) (p - 8) (o - 8) (de_vec w))
      as (l & -> & _ & Ha); [lia..|done|intros; apply HV; lia|].
    exists l. split; [done|]. by replace (e - 8) with (o - 8 + Z.of_nat (Z.to_nat (e - o))) by lia.
Qed.

Lemma backreference_step s w p :
  tracks s w -> 3 <= len vec - o_pos s ->
  get_at (x_table s) (pair_hash (o_pos s)) = Some p -> p <> 0 -> byte_at p = byte_at (o_pos s) ->
  exists x1 x2 e w',
    let h := pair_hash (o_pos s) in
    pending_insert s = Ok x1 /\ set_at x1 h (o_pos s) = Some x2
    /\ match_run 256 vec (Z.min (o_pos s + 2 + 255) (len vec)) (p + 2) (o_pos s + 2) = Ok e
    /\ o_pos s + 2 <= e <= o_pos s + 257
    /\ run_unit (Backreference h (e - (o_pos s + 2))) w = Ok w'
    /\ forall c cp np n i, tracks (MkCompressor c cp np e x2 (px s) n 0 i) w'.
Proof.
  intros Ht H3 Hp Hp0 Hb. pose proof Ht as [Hw Hpos Hout Hpre Hpend Hpx Hlen Hlive].
  destruct vec_ok as [_ Hmax]. destruct (Hlive H3) as (_ & Hdict & Htab).
  destruct (Htab _ _ Hp) as [|[Hrange Hhash]]; [done|].
  destruct (found_run (o_pos s) p) as (e & He & Hrep & Hele); [done..|].
  pose proof Hrep as (_ & He2 & _).
  destruct (write_backreference w (pair_hash (o_pos s)) (o_pos s) p e) as (l & Hwrite & Hl);
    try done; [lia| |].
  { rewrite Hdict, get_at_map, Hp. cbn. by rewrite entry_of_pos by lia. }
  assert (agrees V l (o_pos s - 7)) as Hl7 by (intros j Hj; apply Hl; lia).
  destruct (pending_step s w l Ht ltac:(lia) Hl7) as (x1 & d1 & Hx1 & L1 & Hd1 & L2 & Hlive1).
  destruct (Hlive1 H3) as [Ed1 Htab1].
  pose proof (pair_hash_ok (o_pos s)) as Hh. unfold is_byte in Hh.
  destruct (set_at x1 (pair_hash (o_pos s)) (o_pos s)) as [x2|] eqn:E2;
    [|by rewrite set_at_eq in E2 by lia].
  apply (set_at_map entry_of) in E2 as E2'. rewrite entry_of_pos in E2' by lia.
  assert (run_unit (Backreference (pair_hash (o_pos s)) (e - (o_pos s + 2))) w
    = Ok (MkWindow l (e - 8) (map entry_of x2) (e - 8))) as Hrun.
  { unfold run_unit. rewrite Hwrite. cbn [mbind outcome_bind is_backreference].
    rewrite Hout. rewrite checked_add_eq by bool_lia. cbn [ok_or mbind outcome_bind].
    assert (hash_position w <= o_pos s - 8) by lia.
    replace (Z.to_nat (o_pos s - 8 + 1 - hash_position w))
      with (Z.to_nat (o_pos s - 8 - hash_position w) + 1)%nat by lia.
    rewrite hash_pairs_app, Hd1. cbn [mbind outcome_bind].
    replace (hash_position w + _) with (o_pos s - 8) by lia.
    rewrite (hash_pairs_S 0 (o_pos s - 8) l d1 (byte_at (o_pos s)) (byte_at (o_pos s + 1))).
    - fold (pair_hash (o_pos s)). by rewrite Ed1, E2'.
    - lia.
    - rewrite Hl, get_V by lia. replace (8 + _) with (o_pos s) by lia. apply get_byte. lia.
    - rewrite Hl, get_V by lia. replace (8 + _) with (o_pos s + 1) by lia. apply get_byte. lia. }
  exists x1, x2, e. eexists. split_and!; [done|done|done|lia|lia|exact Hrun|].
  intros c cp np n i.
  assert (unit_ok (Backreference (pair_hash (o_pos s)) (e - (o_pos s + 2)))) as Huok
    by (split; unfold is_byte; lia).
  destruct (run_unit_room total _ _ _ Hw Huok Hrun) as (_ & Hw' & _).
  constructor; cbn [o_pos p_pos px x_table output_position de_vec hash_position dictionary];
    try done; try lia.
  - apply length_set_at in E2. lia.
  - intros _. split_and!; [lia|done|].
    eapply table_ok_set; [eapply table_ok_weaken; [exact Htab1|]|exact E2|done|..]; lia.
Qed.

(** ** The bytes emitted *)

Record emits (base : Z) (header : list Z) (s : Compressor) (full : list (list Unit))
    (cur : list Unit) : Prop := {
  e_length : len (c_vec s) = len vec / 2;
  e_header : get_range (c_vec s) 0 base = Some header;
  e_groups : get_range (c_vec s) base (n_pos s) = Some (encode_groups full);
  e_current : get_range (c_vec s) (n_pos s + 1) (c_pos s) = Some (units_bytes cur);
  e_flags : n_flags s = flags_of cur;
  e_mask : i_mask s = mask_of (len cur);
  e_eight : Forall (fun g => len g = 8) full;
  e_room : len cur <= 8 /\ c_pos s + 2 * (8 - len cur) <= len vec / 2;
  e_units : Forall unit_ok (concat full ++ cur)
}.

Definition start_window (destination : list Z) : Window := MkWindow destination 0 empty_dictionary 0.

(** In the middle of a group: the bytes emitted encode units that, run from the
    start, produce the input read so far. *)
Definition emitting (base : Z) (header destination : list Z) (s : Compressor)
    (full : list (list Unit)) (cur : list Unit) : Prop :=
  emits base header s full cur
  /\ exists w, run_units (concat full ++ cur) (start_window destination) = Ok w /\ tracks s w.

Lemma emits_unit base header s full cur u c' :
  emits base header s full cur -> len cur < 8 -> unit_ok u ->
  length c' = length (c_vec s) ->
  (forall j, j < c_pos s -> get_at c' j = get_at (c_vec s) j) ->
  get_range c' (c_pos s) (c_pos s + unit_size u) = Some (unit_bytes u) ->
  forall o x p pp, emits base header
    (MkCompressor c' (c_pos s + unit_size u) (n_pos s) o x p
       (if is_backreference u then Z.lor (n_flags s) (i_mask s) else n_flags s) pp
       (Z.shiftl (i_mask s) 1 mod 256)) full (cur ++ [u]).
Proof.
  intros [Hlen Hhdr Hgroups Hcur Hflags Hmask Height [Hle Hroom] Hunits] Hlt Hu Hl' Hsame Hnew o x p pp.
  pose proof (get_range_bounds _ _ _ _ Hgroups) as (? & _ & ?).
  pose proof (get_range_bounds _ _ _ _ Hhdr) as (_ & _ & ?).
  pose proof (get_range_bounds _ _ _ _ Hcur) as (_ & ? & ?).
  constructor; cbn [c_vec c_pos n_pos n_flags i_mask].
  - lia.
  - eapply get_range_ext; [exact Hhdr|lia|]. intros; apply Hsame; lia.
  - eapply get_range_ext; [exact Hgroups|lia|]. intros; apply Hsame; lia.
  - rewrite flat_map_app. cbn [flat_map]. rewrite app_nil_r.
    eapply get_range_trans; [|exact Hnew].
    eapply get_range_ext; [exact Hcur|lia|]. intros; apply Hsame; lia.
  - rewrite flags_of_snoc, Hflags, Hmask. unfold mask_of. replace (len cur =? 8) with false by lia.
    destruct (is_backreference u); [apply lor_next_bit; lia|lia].
  - rewrite Hmask, length_app. cbn [length]. destruct (Z.eq_dec (len cur) 0) as [E|].
    + rewrite E. replace (Z.of_nat (length cur + 1)) with 1 by lia. done.
    + pose proof (mask_of_next (len cur) ltac:(lia)) as Hn.
      replace (len cur =? 8) with false in Hn by lia. rewrite Hn. unfold next_in_group.
      replace (len cur =? 8) with false by lia. f_equal. lia.
  - done.
  - rewrite length_app. cbn [length]. destruct u; simpl unit_size; lia.
  - rewrite app_assoc. apply Forall_app. split; [done|]. by constructor.
Qed.

Lemma compress_unit_step base header destination s full cur :
  emitting base header destination s full cur -> len cur < 8 -> o_pos s < len vec ->
  exists s' u, compress_unit vec s = Ok s' /\ o_pos s < o_pos s'
    /\ emitting base header destination s' full (cur ++ [u]).
Proof.
  intros (He & w & Hrun & Ht) Hcur Hlt.
  pose proof He as [Hlen _ _ Hrange _ _ _ [Hle Hroom] _].
  pose proof (get_range_bounds _ _ _ _ Hrange) as (Hn & Hc & Hcp).
  assert (forall u w', unit_ok u -> run_unit u w = Ok w' ->
    run_units (concat full ++ cur ++ [u]) (start_window destination) = Ok w') as Happ.
  { intros u w' Hu Hw'. rewrite app_assoc, run_units_app, Hrun. cbn. by rewrite Hw'. }
  assert (forall cx, is_byte cx -> (3 <= len vec - o_pos s -> cx = pair_hash (o_pos s)) ->
    exists s', (x ← pending_insert s;
      b ← or_panic (get_at vec (o_pos s)); c ← or_panic (set_at (c_vec s) (c_pos s) b);
      Ok (MkCompressor c (c_pos s + 1) (n_pos s) (o_pos s + 1) x cx (n_flags s) (o_pos s)
            (Z.shiftl (i_mask s) 1 mod 256))) = Ok s'
      /\ o_pos s < o_pos s'
      /\ emitting base header destination s' full (cur ++ [Literal (byte_at (o_pos s))])) as Hliteral.
  { intros cx Hcx Hhash. destruct (literal_step s w Ht Hlt) as (x1 & w' & Hx1 & Hw' & Htracks).
    pose proof (t_position _ _ Ht).
    rewrite Hx1, get_byte by lia. cbn [or_panic mbind outcome_bind].
    destruct (set_at (c_vec s) (c_pos s) (byte_at (o_pos s))) as [c'|] eqn:Ec;
      [|by rewrite set_at_eq in Ec by lia].
    cbn [or_panic mbind outcome_bind]. eexists. split_and!; [done|simpl; lia|]. split.
    - apply (emits_unit base header s full cur (Literal (byte_at (o_pos s)))); try done.
      + apply byte_at_ok.
      + by eapply length_set_at.
      + intros j Hj. rewrite (get_at_set _ _ _ _ j Ec). by replace (j =? _) with false by lia.
      + apply get_range_single. rewrite (get_at_set _ _ _ _ _ Ec). by rewrite Z.eqb_refl.
    - exists w'. split; [apply Happ; [apply byte_at_ok|done]|]. by apply Htracks. }
  unfold compress_unit, lookup_pair. fold (pending_insert s).
  destruct (Z.ltb_spec (len vec - o_pos s) 3) as [Htail|Hlive].
  { cbn [mbind outcome_bind]. destruct (Hliteral 0) as (s' & -> & Ho & Hem);
      [unfold is_byte; lia|lia|]. exists s'. eexists. done. }
  pose proof (t_position _ _ Ht). rewrite !get_byte by lia. cbn [or_panic mbind outcome_bind].
  fold (pair_hash (o_pos s)). pose proof (pair_hash_ok (o_pos s)) as Hh. unfold is_byte in Hh.
  destruct (get_at_is_Some (x_table s) (pair_hash (o_pos s))) as [p Hp];
    [rewrite (t_length _ _ Ht); lia|].
  rewrite Hp. cbn [or_panic mbind outcome_bind].
  destruct (Hliteral (pair_hash (o_pos s)) (pair_hash_ok _) ltac:(done)) as (sl & Hsl & Hol & Heml).
  rewrite get_byte in Hsl by lia. cbn [or_panic mbind outcome_bind] in Hsl.
  destruct (Z.eqb_spec p 0) as [->|Hp0].
  { cbn [mbind outcome_bind]. exists sl. eexists. by rewrite Hsl. }
  destruct (proj2 (proj2 (t_live _ _ Ht Hlive)) _ _ Hp) as [|[Hprange _]]; [done|].
  rewrite get_byte by lia. cbn [or_panic mbind outcome_bind].
  destruct (Z.eqb_spec (byte_at (o_pos s)) (byte_at p)) as [Eb|Nb]; cbn [negb].
  2: { exists sl. eexists. by rewrite Hsl. }
  destruct (backreference_step s w p Ht Hlive Hp Hp0 (eq_sym Eb))
    as (x1 & x2 & e & w' & Hx1 & Hx2 & Hrunlen & Hebound & Hw' & Htracks).
  rewrite Hx1. cbn [mbind outcome_bind]. rewrite Hx2. cbn [or_panic mbind outcome_bind].
  rewrite Hrunlen. cbn [mbind outcome_bind].
  rewrite (Z.mod_small (e - (o_pos s + 2)) 256) by lia.
  set (u := Backreference (pair_hash (o_pos s)) (e - (o_pos s + 2))) in *.
  assert (unit_ok u) as Hu by (split; unfold is_byte; lia).
  destruct (set_at (c_vec s) (c_pos s) (pair_hash (o_pos s))) as [c1|] eqn:E1;
    [|by rewrite set_at_eq in E1 by lia].
  cbn [or_panic mbind outcome_bind]. apply length_set_at in E1 as L1.
  destruct (set_at c1 (c_pos s + 1) (e - (o_pos s + 2))) as [c2|] eqn:E2;
    [|by rewrite set_at_eq in E2 by lia].
  cbn [or_panic mbind outcome_bind]. apply length_set_at in E2 as L2.
  eexists. exists u. split_and!; [done|simpl; lia|]. split.
  - apply (emits_unit base header s full cur u); try done.
    + congruence.
    + intros j Hj. rewrite (get_at_set _ _ _ _ j E2), (get_at_set _ _ _ _ j E1).
      replace (j =? c_pos s + 1) with false by lia. by replace (j =? c_pos s) with false by lia.
    + apply get_range_pair.
      * rewrite (get_at_set _ _ _ _ _ E2), (get_at_set _ _ _ _ _ E1).
        replace (_ =? c_pos s + 1) with false by lia. by rewrite Z.eqb_refl.
      * rewrite (get_at_set _ _ _ _ _ E2). by rewrite Z.eqb_refl.
  - exists w'. split; [by apply Happ|apply Htracks].
Qed.

(** ** Opening groups and the loop *)

(** Before the first group. *)
Definition starting (base : Z) (header destination : list Z) (s : Compressor) : Prop :=
  c_pos s = base /\ n_pos s = base /\ n_flags s = 0 /\ i_mask s = 0
  /\ len (c_vec s) = len vec / 2 /\ get_range (c_vec s) 0 base = Some header
  /\ tracks s (start_window destination).

Definition at_head (base : Z) (header destination : list Z) (s : Compressor) : Prop :=
  starting base header destination s
  \/ exists full cur, 1 <= len cur /\ emitting base header destination s full cur.

(** Fields the emitted bytes do not touch. *)
Lemma tracks_fields s s' w :
  o_pos s' = o_pos s -> x_table s' = x_table s -> px s' = px s -> p_pos s' = p_pos s ->
  tracks s w -> tracks s' w.
Proof. intros E1 E2 E3 E4 []. constructor; rewrite ?E1, ?E2, ?E3, ?E4; done. Qed.

(** Patching the flag byte of the open group completes its encoding. *)
Lemma patch_flags base header s full cur c' :
  emits base header s full cur -> set_at (c_vec s) (n_pos s) (n_flags s) = Some c' ->
  get_range c' 0 base = Some header
  /\ get_range c' base (c_pos s) = Some (encode_groups (full ++ [cur])).
Proof.
  intros [Hlen Hhdr Hgroups Hcur Hflags _ _ _ _] E. pose proof (length_set_at _ _ _ _ E) as L.
  pose proof (get_range_bounds _ _ _ _ Hgroups) as (? & _ & ?).
  pose proof (get_range_bounds _ _ _ _ Hhdr) as (_ & ? & ?).
  pose proof (get_range_bounds _ _ _ _ Hcur) as (_ & ? & ?).
  assert (forall j, j <> n_pos s -> get_at c' j = get_at (c_vec s) j) as Hsame.
  { intros j Hj. rewrite (get_at_set _ _ _ _ j E). by replace (j =? n_pos s) with false by lia. }
  split; [eapply get_range_ext; [exact Hhdr|lia|]; intros; apply Hsame; lia|].
  rewrite flat_map_app. cbn [flat_map]. rewrite app_nil_r.
  eapply get_range_trans; [eapply get_range_ext; [exact Hgroups|lia|]; intros; apply Hsame; lia|].
  unfold encode_group. apply get_range_cons. split.
  - rewrite <- Hflags. apply get_range_single. rewrite (get_at_set _ _ _ _ _ E). by rewrite Z.eqb_refl.
  - eapply get_range_ext; [exact Hcur|lia|]; intros; apply Hsame; lia.
Qed.

Lemma open_group_step base header destination s :
  17 <= len vec / 2 -> 0 <= base -> at_head base header destination s ->
  open_group s = Ok None
  \/ exists s' full cur, open_group s = Ok (Some s') /\ o_pos s' = o_pos s /\ len cur < 8
       /\ emitting base header destination s' full cur.
Proof.
  intros H17 Hbase Hhead. unfold open_group.
  assert (len (c_vec s) = len vec / 2) as Hlen
    by (destruct Hhead as [(_ & _ & _ & _ & ? & _)|(full & cur & _ & [] & _)]; done).
  destruct Hhead as [(Hc & Hn & Hf & Hi & _ & Hhdr & Ht)|(full & cur & H1 & He & w & Hrun & Ht)].
  - rewrite Hi, Hlen. cbn [Z.eqb]. unfold usub, checked_sub.
    replace (17 <=? _) with true by lia. cbn [or_panic mbind outcome_bind].
    destruct (Z.ltb_spec (len vec / 2 - 17) (c_pos s)) as [|Hroom]; [by left|]. right.
    rewrite Hc, Hn in *. destruct (set_at (c_vec s) base (n_flags s)) as [c'|] eqn:E;
      [|by rewrite set_at_eq in E by lia].
    cbn [or_panic mbind outcome_bind]. eexists. exists [], []. split_and!; [done|done|simpl; lia|].
    split; [|exists (start_window destination); split; [done|by apply (tracks_fields s)]].
    pose proof (length_set_at _ _ _ _ E) as L.
    constructor; cbn [c_vec c_pos n_pos n_flags i_mask]; try done; try (simpl; lia).
    + eapply get_range_ext; [exact Hhdr|lia|]. intros j Hj.
      rewrite (get_at_set _ _ _ _ j E). by replace (j =? base) with false by lia.
    + apply get_range_nil. lia.
    + apply get_range_nil. lia.
  - pose proof He as [_ _ Hgroups Hcur _ Hmask Height [Hle Hroom] Hunits].
    rewrite Hmask, mask_of_length by done. destruct (Z.eqb_spec (len cur) 8) as [E8|].
    2: { right. exists s, full, cur. split_and!; [done|done|lia|]. split; [done|]. by exists w. }
    rewrite Hlen. unfold usub, checked_sub.
    replace (17 <=? _) with true by lia. cbn [or_panic mbind outcome_bind].
    destruct (Z.ltb_spec (len vec / 2 - 17) (c_pos s)) as [|Hroom']; [by left|]. right.
    pose proof (get_range_bounds _ _ _ _ Hgroups) as (? & ? & ?).
    pose proof (get_range_bounds _ _ _ _ Hcur) as (? & ? & ?).
    destruct (set_at (c_vec s) (n_pos s) (n_flags s)) as [c'|] eqn:E;
      [|by rewrite set_at_eq in E by lia].
    cbn [or_panic mbind outcome_bind]. eexists. exists (full ++ [cur]), [].
    split_and!; [done|done|simpl; lia|].
    split; [|exists w; split; [|by apply (tracks_fields s)]].
    + destruct (patch_flags _ _ _ _ _ _ He E) as [Hh Hg]. pose proof (length_set_at _ _ _ _ E) as L.
      constructor; cbn [c_vec c_pos n_pos n_flags i_mask]; try done; try (simpl; lia).
      * apply get_range_nil. lia.
      * apply Forall_app. split; [done|]. by constructor.
      * rewrite concat_app, app_nil_r. cbn [concat]. by rewrite app_nil_r.
    + rewrite concat_app. cbn [concat]. by rewrite !app_nil_r.
Qed.

Lemma compress_loop_step fuel base header destination s :
  17 <= len vec / 2 -> 0 <= base -> at_head base header destination s ->
  Z.max 0 (len vec - o_pos s) < Z.of_nat fuel ->
  compress_loop fuel vec s = Ok None
  \/ exists s', compress_loop fuel vec s = Ok (Some s') /\ len vec <= o_pos s'
       /\ at_head base header destination s' /\ (o_pos s < len vec -> i_mask s' = 0 -> n_pos s' <> c_pos s').
Proof.
  intros H17 Hbase. revert s. induction fuel as [|fuel IH]; intros s Hhead Hf; [lia|].
  cbn [compress_loop]. destruct (Z.ltb_spec (o_pos s) (len vec)) as [Hlt|Hge].
  2: { right. exists s. split_and!; [done|lia|done|lia]. }
  destruct (open_group_step _ _ _ _ H17 Hbase Hhead) as [->|(s1 & full & cur & -> & Ho & Hcur & Hem)];
    [by left|].
  cbn [mbind outcome_bind].
  destruct (compress_unit_step _ _ _ _ _ _ Hem Hcur ltac:(lia)) as (s2 & u & -> & Ho2 & Hem2).
  cbn [mbind outcome_bind].
  assert (at_head base header destination s2) as Hhead2.
  { right. exists full, (cur ++ [u]). split; [|done]. rewrite length_app. simpl. lia. }
  destruct (Z.lt_ge_cases (o_pos s2) (len vec)) as [Hlt2|Hge2].
  - destruct (IH s2 Hhead2 ltac:(lia)) as [->|(s' & -> & ? & ? & Himp)]; [by left|right].
    exists s'. split_and!; try done. intros _. by apply Himp.
  - destruct fuel as [|fuel]; [lia|]. cbn [compress_loop]. replace (_ <? _) with false by lia.
    right. exists s2. split_and!; [done|lia|done|]. intros _ _.
    destruct Hem2 as [[_ _ _ Hrange _ _ _ _ _] _]. apply get_range_bounds in Hrange. lia.
Qed.
End Roundtrip.

(** ** The frame *)

Definition wide (n : Z) : bool := u32_max <? n.
Definition prefix_of (n : Z) : list Z := if wide n then u64_to_le n else u32_to_le n.
Definition mode_of (n : Z) : Z := if wide n then 2 else 1.
Definition prefix_length_of (n : Z) : Z := if wide n then 8 else 4.

Lemma length_u32_to_le z : length (u32_to_le z) = 4%nat.
Proof. apply length_to_le. Qed.
Lemma length_u64_to_le z : length (u64_to_le z) = 8%nat.
Proof. apply length_to_le. Qed.

Lemma len_prefix_of n : len (prefix_of n) = prefix_length_of n.
Proof.
  unfold prefix_of, prefix_length_of. destruct (wide n); by rewrite ?length_u64_to_le, ?length_u32_to_le.
Qed.

Lemma resize_nil n : 0 <= n -> resize [] n 0 = replicate (Z.to_nat n) 0.
Proof. intros. unfold resize. by rewrite take_nil, Nat.sub_0_r. Qed.

Lemma get_at_replicate {A} (v : A) n j : 0 <= j < Z.of_nat n -> get_at (replicate n v) j = Some v.
Proof. intros. apply get_at_Some. split; [lia|]. apply lookup_replicate_2. lia. Qed.

Lemma write_prefix_spec cap n :
  1000 <= cap ->
  exists header,
    write_decompressed_length_prefix (resize [] cap 0) n = Ok (header, 8 + prefix_length_of n)
    /\ len header = cap
    /\ get_range header 0 (8 + prefix_length_of n)
       = Some ([0; 0; mode_of n] ++ replicate 5 0 ++ prefix_of n).
Proof.
  intros Hcap. rewrite resize_nil by lia. set (scratch := replicate (Z.to_nat cap) 0).
  assert (len scratch = cap) as Hs by (unfold scratch; rewrite length_replicate; lia).
  assert (write_decompressed_length_prefix scratch n =
    (header ← or_panic (set_at scratch 2 (mode_of n));
     header ← or_panic (write_at header 8 (prefix_of n));
     Ok (header, 8 + prefix_length_of n))) as ->.
  { unfold write_decompressed_length_prefix, mode_of, prefix_of, prefix_length_of, wide.
    by destruct (u32_max <? n). }
  destruct (set_at scratch 2 (mode_of n)) as [h1|] eqn:E1; [|by rewrite set_at_eq in E1 by lia].
  cbn [or_panic mbind outcome_bind]. pose proof (length_set_at _ _ _ _ E1) as L1.
  assert (len (prefix_of n) <= 8) as Hpl
    by (rewrite len_prefix_of; unfold prefix_length_of; destruct (wide n); lia).
  destruct (write_at h1 8 (prefix_of n)) as [h2|] eqn:E2; [|by rewrite write_at_eq in E2 by lia].
  cbn [or_panic mbind outcome_bind]. pose proof (write_at_length _ _ _ _ E2) as L2.
  exists h2. split_and!; [done|lia|].
  assert (forall j, 0 <= j < 8 -> get_at h2 j = Some (if j =? 2 then mode_of n else 0)) as Hj.
  { intros j Hj. rewrite (get_at_write _ _ _ _ j E2). replace (8 <=? j) with false by lia. simpl.
    rewrite (get_at_set _ _ _ _ j E1). destruct (j =? 2); [done|].
    apply get_at_replicate. lia. }
  cbn [app]. repeat (apply get_range_cons; split; [apply get_range_single; by rewrite Hj by lia|]).
  change (0 + 1 + 1 + 1 + 1 + 1 + 1 + 1 + 1) with 8. rewrite <- len_prefix_of.
  by eapply get_range_write.
Qed.

(** The frame [compress] writes. *)
Definition compressed_frame (vec : list Z) (size : Z) (gs : list (list Unit)) : list Z :=
  [byte_at vec 0; byte_at vec 1; mode_of (len vec); Z.shiftr size 32 mod 256]
  ++ u32_to_le size ++ prefix_of (len vec) ++ encode_groups gs.

Lemma finish_frame_spec vec destination s full cur :
  slice_ok vec -> 2000 <= len vec ->
  emitting vec (8 + prefix_length_of (len vec))
    ([0; 0; mode_of (len vec)] ++ replicate 5 0 ++ prefix_of (len vec)) destination s full cur ->
  finish_frame vec s = Ok (compressed_frame vec (c_pos s) (full ++ [cur]))
  /\ len (compressed_frame vec (c_pos s) (full ++ [cur])) = c_pos s.
Proof.
  intros Hv H2000 [He _]. pose proof He as [Hlen _ Hgroups Hcur _ _ _ [Hle Hroom] _].
  pose proof (get_range_bounds _ _ _ _ Hgroups) as (? & ? & ?).
  pose proof (get_range_bounds _ _ _ _ Hcur) as (? & ? & ?).
  assert (4 <= prefix_length_of (len vec)) as Hpl
    by (unfold prefix_length_of; destruct (wide _); lia).
  assert (1000 <= len vec / 2) as Hcap by (apply Z.div_le_lower_bound; lia).
  unfold finish_frame.
  destruct (set_at (c_vec s) (n_pos s) (n_flags s)) as [c1|] eqn:E1; [|by rewrite set_at_eq in E1 by lia].
  destruct (patch_flags vec _ _ _ _ _ _ He E1) as [Hh Hg]. pose proof (length_set_at _ _ _ _ E1) as L1.
  rewrite !get_byte by lia. cbn [or_panic mbind outcome_bind].
  destruct (set_at c1 0 (byte_at vec 0)) as [c2|] eqn:E2; [|by rewrite set_at_eq in E2 by lia].
  pose proof (length_set_at _ _ _ _ E2) as L2. cbn [or_panic mbind outcome_bind].
  destruct (set_at c2 1 (byte_at vec 1)) as [c3|] eqn:E3; [|by rewrite set_at_eq in E3 by lia].
  pose proof (length_set_at _ _ _ _ E3) as L3. cbn [or_panic mbind outcome_bind].
  destruct (write_at c3 4 (u32_to_le (c_pos s))) as [c4|] eqn:E4;
    [|by rewrite write_at_eq in E4 by (rewrite ?length_u32_to_le; lia)].
  pose proof (write_at_length _ _ _ _ E4) as L4. cbn [or_panic mbind outcome_bind].
  destruct (set_at c4 3 (Z.shiftr (c_pos s) 32 mod 256)) as [c5|] eqn:E5;
    [|by rewrite set_at_eq in E5 by lia].
  pose proof (length_set_at _ _ _ _ E5) as L5. cbn [or_panic mbind outcome_bind].
  pose proof (get_range_write _ _ _ _ E4) as Hw4. rewrite length_u32_to_le in Hw4.
  assert (forall j, get_at c5 j =
    if j =? 3 then Some (Z.shiftr (c_pos s) 32 mod 256)
    else if (4 <=? j) && (j <? 8) then get_at (u32_to_le (c_pos s)) (j - 4)
    else if j =? 1 then Some (byte_at vec 1)
    else if j =? 0 then Some (byte_at vec 0) else get_at c1 j) as Hj.
  { intros j. rewrite (get_at_set _ _ _ _ j E5), (get_at_write _ _ _ _ j E4), length_u32_to_le,
      (get_at_set _ _ _ _ j E3), (get_at_set _ _ _ _ j E2). done. }
  assert (forall j, 8 <= j -> get_at c5 j = get_at c1 j) as Hrest.
  { intros j H8. rewrite Hj. replace (j =? 3) with false by lia. replace (j <? 8) with false by lia.
    rewrite andb_false_r. replace (j =? 1) with false by lia. by replace (j =? 0) with false by lia. }
  assert (get_range c5 0 (c_pos s) = Some (compressed_frame vec (c_pos s) (full ++ [cur]))) as Hframe.
  { unfold compressed_frame. cbn [app] in Hh |- *.
    apply get_range_cons in Hh as [_ Hh]. apply get_range_cons in Hh as [_ Hh].
    apply get_range_cons in Hh as [Hmode Hh].
    pose proof (get_range_app c1 (replicate 5 0) (prefix_of (len vec)) (0 + 1 + 1 + 1)) as Happ.
    apply Happ in Hh as [_ Hprefix]. rewrite length_replicate in Hprefix.
    apply get_range_cons; split; [apply get_range_single; by rewrite Hj|].
    apply get_range_cons; split; [apply get_range_single; by rewrite Hj|].
    apply get_range_cons; split.
    { apply get_range_single. rewrite Hj. simpl.
      pose proof (get_range_get_at _ _ _ _ 0 Hmode ltac:(simpl; lia)) as E.
      rewrite get_at_cons0 in E. by rewrite E. }
    apply get_range_cons; split; [apply get_range_single; by rewrite Hj|].
    apply get_range_app. rewrite length_u32_to_le. split.
    { eapply get_range_ext; [exact Hw4|lia|]. intros j Hj'. rewrite (get_at_set _ _ _ _ j E5).
      by replace (j =? 3) with false by lia. }
    apply get_range_app. rewrite len_prefix_of. split.
    { eapply get_range_ext; [|lia|intros; apply Hrest; lia].
      by replace (0 + 1 + 1 + 1 + 1 + Z.of_nat 4 + prefix_length_of (len vec))
        with (8 + prefix_length_of (len vec)) by lia. }
    eapply get_range_ext; [|lia|intros; apply Hrest; lia].
    by replace (0 + 1 + 1 + 1 + 1 + Z.of_nat 4 + prefix_length_of (len vec))
      with (8 + prefix_length_of (len vec)) by lia. }
  pose proof (get_range_bounds _ _ _ _ Hframe) as (_ & ? & ?). split; [|lia]. f_equal.
  unfold resize. replace (Z.to_nat (c_pos s) - length c5)%nat with 0%nat by lia.
  cbn [replicate]. rewrite app_nil_r. unfold get_range in Hframe.
  destruct (_ && _); [|done]. injection Hframe as <-. simpl. f_equal. lia.
Qed.

(** ** Compression as a whole *)

Lemma start_tracks vec destination header start n i :
  slice_ok vec -> 8 <= len vec -> slice_ok destination -> len destination = len vec - 8 ->
  tracks vec (MkCompressor header start start 8 empty_table 0 n 0 i) (start_window destination).
Proof.
  intros Hv H8 Hd Hl. constructor; cbn [o_pos p_pos px x_table]; unfold start_window;
    cbn [output_position de_vec hash_position dictionary]; try done; try lia.
  - rewrite <- Hl. by apply start_window_ok.
  - intros j Hj. lia.
  - intros _. split_and!; [lia|by vm_compute|]. intros h p Hp. left.
    apply (get_at_Forall (fun p => p = 0)) in Hp; [done|]. by apply Forall_replicate.
Qed.

(** The outcomes of [compress] on a message that is long enough, for a given
    destination of the decompressor. *)
Lemma compress_loop_spec vec destination header start :
  slice_ok vec -> 2000 <= len vec -> slice_ok destination -> len destination = len vec - 8 ->
  len header = len vec / 2 -> start = 8 + prefix_length_of (len vec) ->
  get_range header 0 start = Some ([0; 0; mode_of (len vec)] ++ replicate 5 0 ++ prefix_of (len vec)) ->
  let s := MkCompressor header start start 8 empty_table 0 0 0 0 in
  compress_loop (S (length vec)) vec s = Ok None
  \/ exists s' full cur, compress_loop (S (length vec)) vec s = Ok (Some s') /\ 1 <= len cur
       /\ emitting vec start ([0; 0; mode_of (len vec)] ++ replicate 5 0 ++ prefix_of (len vec))
            destination s' full cur /\ len vec <= o_pos s'.
Proof.
  intros Hv H2000 Hd Hdl Hh -> Hhdr s.
  assert (1000 <= len vec / 2) by (apply Z.div_le_lower_bound; lia).
  assert (4 <= prefix_length_of (len vec)) by (unfold prefix_length_of; destruct (wide _); lia).
  destruct (compress_loop_step vec Hv (S (length vec)) (8 + prefix_length_of (len vec))
    ([0; 0; mode_of (len vec)] ++ replicate 5 0 ++ prefix_of (len vec)) destination s)
    as [Hnone|(s' & Hs' & Ho & Hhead & Hstarted)]; [lia|lia| |simpl; lia|by left|].
  { left. unfold s, starting. cbn [c_pos n_pos n_flags i_mask c_vec].
    split_and!; try done. apply start_tracks; try done; lia. }
  right. destruct Hhead as [(Hc & Hn & _ & Hi & _)|(full & cur & Hcur & Hem)].
  - exfalso. apply Hstarted; [simpl; lia|done|congruence].
  - by exists s', full, cur.
Qed.

Lemma compress_cases `{Allocator} vec destination :
  slice_ok vec -> slice_ok destination -> len destination = len vec - 8 ->
  compress vec = Ok vec
  \/ (exists e, compress vec = Err e)
  \/ exists size gs,
       compress vec = Ok (compressed_frame vec size gs)
       /\ len (compressed_frame vec size gs) = size /\ 2000 <= len vec /\ size <= len vec / 2
       /\ grouped gs /\ Forall unit_ok (concat gs)
       /\ exists w, run_units (concat gs) (start_window destination) = Ok w
            /\ de_vec w = drop 8 vec /\ output_position w = len vec - 8.
Proof.
  intros Hv Hd Hdl. unfold compress. destruct (Z.ltb_spec (len vec) 2000) as [|H2000]; [by left|].
  unfold reserve. destruct (try_reserve _); [|right; left; by eexists].
  cbn [mbind outcome_bind].
  assert (1000 <= len vec / 2) as Hcap by (apply Z.div_le_lower_bound; lia).
  destruct (write_prefix_spec (len vec / 2) (len vec) Hcap) as (header & -> & Hlen & Hhdr).
  cbn [mbind outcome_bind].
  destruct (compress_loop_spec vec destination header _ Hv H2000 Hd Hdl Hlen eq_refl Hhdr)
    as [->|(s & full & cur & -> & Hcur & Hem & Ho)]; [by left|].
  cbn [mbind outcome_bind].
  destruct (finish_frame_spec vec destination s full cur Hv H2000 Hem) as [-> Hsize].
  right. right. exists (c_pos s), (full ++ [cur]).
  destruct Hem as [[_ _ _ _ _ _ Height [Hle Hroom] Hunits] (w & Hrun & Ht)].
  assert (concat (full ++ [cur]) = concat full ++ cur) as Econcat
    by (rewrite concat_app; cbn [concat]; by rewrite app_nil_r).
  rewrite Econcat. split_and!; [done|done|done|lia| |done|].
  - clear -Height Hcur Hle. induction Height as [|g full Hg _ IH]; cbn [app grouped].
    + split_and!; [lia|lia|done|done].
    + split_and!; [lia|lia|done|done].
  - exists w. pose proof Ht as [Hw Hpos Hout Hpre _ _ _ _]. split_and!; [done| |lia].
    destruct Hw as (Hlw & _).
    apply (get_at_ext _ _ (len vec - 8)); [done|rewrite length_drop; lia|].
    intros j Hj. apply Hpre. lia.
Qed.
