(* ===== verification/CompressSpec.v ===== *)
(** * CompressSpec: what q IPC compression promises

    Totality of both directions, the round trip, and the soundness of the size
    bounds a compressed frame is tested against. *)

From stdpp Require Import prelude strings.
From Stdlib Require Import ZArith Lia ZifyBool.
From S2P Require Import Prelude Errors Compress CompressFacts CompressRoundtrip.

Lemma slice_ok_drop l n : slice_ok l -> slice_ok (drop n l).
Proof. intros [Hb Hl]. split; [by apply Forall_drop|]. rewrite length_drop. lia. Qed.

(** The declared length of a compressed body is the message length it starts with. *)
Lemma declared_prefix n x :
  0 <= n <= usize_max -> declared_total_length (prefix_of n ++ x) (prefix_length_of n) = Ok n.
Proof.
  intros Hn. unfold declared_total_length, prefix_of, prefix_length_of.
  assert (forall p, get_range (p ++ x) 0 (len p) = Some p) as Hp.
  { intros p. apply get_range_Some. exists [], x. by split_and!. }
  destruct (wide n) eqn:E; unfold wide in E; cbn [Z.eqb Pos.eqb].
  - specialize (Hp (u64_to_le n)). rewrite length_u64_to_le in Hp.
    change (Z.of_nat 8) with 8 in Hp. rewrite Hp. cbn [ok_or mbind outcome_bind].
    unfold u64_to_le, unsigned. rewrite from_to_le. change (8 * Z.of_nat 8) with 64.
    by rewrite Z.mod_mod, Z.mod_small by bool_lia.
  - specialize (Hp (u32_to_le n)). rewrite length_u32_to_le in Hp.
    change (Z.of_nat 4) with 4 in Hp. rewrite Hp. cbn [ok_or mbind outcome_bind].
    unfold u32_to_le, unsigned. rewrite from_to_le. change (8 * Z.of_nat 4) with 32.
    by rewrite Z.mod_mod, Z.mod_small by bool_lia.
Qed.

Lemma encode_groups_bytes gs :
  grouped gs -> Forall unit_ok (concat gs) -> bytes_ok (encode_groups gs).
Proof.
  induction gs as [|g gs IH]; intros Hg Hu; [constructor|]. destruct Hg as (Hl & _ & Hg).
  cbn [concat] in Hu. apply Forall_app in Hu as [Hu Hu']. cbn [flat_map]. unfold encode_group.
  cbn [app]. constructor; [apply flags_of_byte; lia|]. apply Forall_app. split; [|by apply IH].
  clear -Hu. induction Hu as [|u g Hu _ IH]; [constructor|]. cbn [flat_map]. apply Forall_app.
  split; [|done]. destruct u as [b|h e]; simpl in *; [by apply Forall_singleton|].
  by rewrite Forall_cons, Forall_singleton.
Qed.

Lemma compressed_frame_bytes vec size gs :
  slice_ok vec -> grouped gs -> Forall unit_ok (concat gs) -> bytes_ok (compressed_frame vec size gs).
Proof.
  intros Hv Hg Hu. unfold compressed_frame, prefix_of, mode_of.
  rewrite !Forall_app. split_and!; [|apply to_le_bytes| |by apply encode_groups_bytes].
  - do 2 (constructor; [by apply byte_at_ok|]).
    constructor; [unfold is_byte; destruct (wide _); lia|].
    constructor; [apply Z.mod_pos_bound; lia|constructor].
  - destruct (wide _); apply to_le_bytes.
Qed.

Lemma drop_compressed_frame vec size gs :
  drop 8 (compressed_frame vec size gs) = prefix_of (len vec) ++ encode_groups gs.
Proof. done. Qed.

(** The compressed frame decompresses to the body it was made from. *)
Lemma decompress_frame vec destination size gs w :
  slice_ok vec -> 2000 <= len vec -> slice_ok destination -> len destination = len vec - 8 ->
  slice_ok (compressed_frame vec size gs) -> grouped gs -> Forall unit_ok (concat gs) ->
  run_units (concat gs) (start_window destination) = Ok w -> de_vec w = drop 8 vec ->
  output_position w = len vec - 8 ->
  decompress (drop 8 (compressed_frame vec size gs)) destination (prefix_length_of (len vec))
  = Ok (drop 8 vec).
Proof.
  intros Hv H2000 Hd Hdl Hc Hg Hu Hrun <- Hout. destruct Hv as [_ Hmax].
  apply (decompress_units _ _ _ (len vec) gs w); try done; try lia.
  - by apply slice_ok_drop.
  - rewrite drop_compressed_frame. apply declared_prefix. bool_lia.
  - unfold prefix_length_of. destruct (wide _); lia.
  - rewrite drop_compressed_frame. unfold get_from. apply get_range_Some.
    exists (prefix_of (len vec)), []. rewrite app_nil_r, len_prefix_of, length_app.
    split_and!; [done..|]. pose proof (len_prefix_of (len vec)). lia.
Qed.

(** C7: decompression undoes compression.  When [compress] shrinks a message, the
    result keeps the first two header bytes, announces the compression mode and
    the uncompressed length, and [decompress] rebuilds exactly the original body;
    the pair dictionaries of the two directions never diverge, overlapping
    back-references included. *)
Theorem compress_roundtrip `{Allocator} (vec c destination : list Z) :
  slice_ok vec -> slice_ok destination -> len destination = len vec - 8 ->
  compress vec = Ok c -> c <> vec ->
  get_at c 0 = get_at vec 0 /\ get_at c 1 = get_at vec 1
  /\ get_at c 2 = Some (if u32_max <? len vec then 2 else 1)
  /\ get_range c 4 8 = Some (u32_to_le (len c))
  /\ decompress (drop 8 c) destination (if u32_max <? len vec then 8 else 4) = Ok (drop 8 vec).
Proof.
  intros Hv Hd Hdl Hc Hne.
  destruct (compress_cases vec destination Hv Hd Hdl)
    as [Hsame|[[e He]|(size & gs & Hok & Hsize & H2000 & Hhalf & Hg & Hu & w & Hrun & Hbody & Hout)]];
    [congruence|congruence|].
  rewrite Hok in Hc. injection Hc as <-.
  split_and!.
  - rewrite (get_byte vec) by lia. by unfold compressed_frame; rewrite get_at_app_l by (simpl; lia).
  - rewrite (get_byte vec) by lia. by unfold compressed_frame; rewrite get_at_app_l by (simpl; lia).
  - by unfold compressed_frame; rewrite get_at_app_l by (simpl; lia).
  - rewrite Hsize. apply get_range_Some. unfold compressed_frame.
    eexists [_; _; _; _], _. split_and!; [reflexivity|done|by rewrite length_u32_to_le].
  - apply (decompress_frame vec destination size gs w); try done.
    split; [by apply compressed_frame_bytes|].
    destruct Hv as [_ Hmax]. rewrite Hsize.
    assert (len vec / 2 <= len vec) by (apply Z.div_le_upper_bound; lia). lia.
Qed.

(** [compress] always returns: no scratch write is out of range and the loop
    stops; and it either leaves the message as it is or returns one of at most
    half its length. *)
Theorem compress_total `{Allocator} (vec : list Z) :
  slice_ok vec ->
  returns (compress vec)
  /\ forall c, compress vec = Ok c -> c = vec \/ (len c <= len vec / 2 /\ bytes_ok c).
Proof.
  intros Hv. destruct (Z.lt_ge_cases (len vec) 2000) as [Hlt|Hge].
  { unfold compress. replace (len vec <? 2000) with true by lia. split; [done|].
    intros c [= <-]. by left. }
  destruct (compress_cases vec (drop 8 vec) Hv (slice_ok_drop vec 8 Hv))
    as [->|[[e ->]|(size & gs & -> & Hsize & _ & Hhalf & Hg & Hu & _)]].
  - rewrite length_drop. lia.
  - split; [done|]. intros c [= <-]. by left.
  - done.
  - split; [done|]. intros c [= <-]. right. rewrite Hsize. split; [done|].
    by apply compressed_frame_bytes.
Qed.

(** [decompress] returns on every payload and destination the process can
    hold, whatever the flags, hashes and lengths in the payload: no index is out
    of range, no copy leaves the destination, and the loop stops.  A success
    fills the destination. *)
Theorem decompress_total (vec destination : list Z) (start_pos : Z) :
  slice_ok vec -> slice_ok destination ->
  returns (decompress vec destination start_pos)
  /\ forall out, decompress vec destination start_pos = Ok out ->
       len out = len destination /\ bytes_ok out.
Proof.
  intros Hv Hd. destruct (decompress_ok vec destination start_pos Hv Hd) as [Hr Hp].
  split; [done|]. intros out Hout. destruct (Hp out Hout) as (? & ? & _). done.
Qed.

(** A short message whose compression is worth checking by evaluation: a header
    and two thousand repetitive bytes. *)
Definition sample_message : list Z :=
  [1; 1; 0; 0; 216; 7; 0; 0] ++ concat (replicate 250 [4; 4; 4; 9; 1; 4; 9; 1]).

Lemma sample_message_ok : slice_ok sample_message.
Proof.
  split; [|vm_compute; discriminate]. apply Forall_app. split.
  - repeat (constructor; [unfold is_byte; lia|]). constructor.
  - apply Forall_concat, Forall_replicate.
    repeat (constructor; [unfold is_byte; lia|]). constructor.
Qed.

Definition ok_value {E A} (d : A) (m : outcome E A) : A := match m with Ok a => a | _ => d end.

Definition sample_compressed : list Z :=
  Eval vm_compute in ok_value [] (@compress unlimited sample_message).

Lemma sample_compresses : @compress unlimited sample_message = Ok sample_compressed.
Proof. vm_compute. reflexivity. Qed.

Lemma compress_roundtrip_witness :
  len sample_compressed < 200
  /\ decompress (drop 8 sample_compressed) (replicate 2000 0) 4 = Ok (drop 8 sample_message).
Proof.
  split; [reflexivity|].
  destruct (@compress_roundtrip unlimited sample_message sample_compressed (replicate 2000 0)
    sample_message_ok) as (_ & _ & _ & _ & Hd).
  - split; [|vm_compute; discriminate]. apply Forall_replicate. unfold is_byte. lia.
  - vm_compute. reflexivity.
  - apply sample_compresses.
  - intros E. apply (f_equal length) in E. vm_compute in E. discriminate E.
  - exact Hd.
Defined.

Lemma compress_total_witness : returns (@compress unlimited sample_message).
Proof. exact (proj1 (@compress_total unlimited sample_message sample_message_ok)). Defined.

Lemma decompress_total_witness :
  returns (decompress [10; 0; 0; 0; 1; 7; 255] [0; 0] 4).
Proof.
  refine (proj1 (decompress_total [10; 0; 0; 0; 1; 7; 255] [0; 0] 4 _ _)).
  - split; [repeat (constructor; [unfold is_byte; lia|]); constructor|vm_compute; discriminate].
  - split; [repeat (constructor; [unfold is_byte; lia|]); constructor|vm_compute; discriminate].
Defined.
