(* ===== verification/Framing.v ===== *)
(** * Framing: q IPC frames ([crates/xqdb/src/connector.rs], the framing functions)

    The eight-byte header with its 40-bit length, the tests a frame must pass before
    memory is reserved for it, and the decoding of a frame that is in memory. *)

From stdpp Require Import prelude strings.
From S2P Require Import Prelude Errors Types QValue Compress.

Abbreviation general msg := (Err (GeneralErr msg)).

Definition IPC_HEADER_LENGTH : Z := 8.
Definition MIN_SERIALIZED_VALUE_LENGTH : Z := 2.
Definition MAX_IPC_LENGTH_FIELD : Z := 2 ^ 40 - 1.
Definition MAX_IPC_DECOMPRESSION_RATIO : Z := 121.
Definition INITIAL_BODY_RESERVATION : Z := 32 * 1024 * 1024.
Definition BODY_RESERVATION_FACTOR : Z := 8.
Definition MAX_RETAINED_BUFFER_BYTES : Z := 256 * 1024 * 1024.
Definition PIPELINE_MIN_BODY_BYTES : Z := 256 * 1024.

(** ** Lengths *)

(** [ipc_length_header]: the byte at index 3 and the u32 at index 4..8. *)
Definition ipc_length_header (total_length : Z) : res (Z * Z) :=
  if MAX_IPC_LENGTH_FIELD <? total_length then
    general ("IPC message length " +:+ show total_length +:+ " exceeds the "
             +:+ show MAX_IPC_LENGTH_FIELD +:+ "-byte q header length field")
  else Ok (Z.shiftr total_length 32 mod 256, total_length mod 2 ^ 32).

Definition checked_outgoing_message_length (body_length : Z) (description : string)
    : res (Z * Z * Z) :=
  total_length ← ok_or (checked_add body_length IPC_HEADER_LENGTH)
    (GeneralErr (description +:+ " length overflowed"));
  '(high_byte, low_length) ← ipc_length_header total_length;
  Ok (total_length, high_byte, low_length).

Definition checked_body_length (total_length : Z) (description : string) : res Z :=
  total_length ← ok_or (try_usize total_length)
    (GeneralErr (description +:+ " length cannot be represented on this platform"));
  body_length ← ok_or (checked_sub total_length IPC_HEADER_LENGTH)
    (GeneralErr (description +:+ " length " +:+ show total_length +:+ " is shorter than the "
                 +:+ show IPC_HEADER_LENGTH +:+ "-byte header"));
  if body_length <? MIN_SERIALIZED_VALUE_LENGTH then
    general (description +:+ " body length " +:+ show body_length
             +:+ " is too short to contain a serialized q value")
  else Ok body_length.

Definition checked_decompressed_body_length
    (declared_total_length compressed_payload_length : Z) : res Z :=
  body_length ← checked_body_length declared_total_length "Decompressed IPC message";
  let maximum_body_length :=
    saturating_mul compressed_payload_length MAX_IPC_DECOMPRESSION_RATIO in
  if maximum_body_length <? body_length then
    corrupt ("Decompressed IPC message length " +:+ show declared_total_length
             +:+ " is unreachable from " +:+ show compressed_payload_length
             +:+ " compressed bytes, which expand to at most " +:+ show maximum_body_length
             +:+ " bytes")
  else Ok body_length.

(** The uncompressed length a compressed body declares, and its prefix length. *)
Definition compressed_message_length (body : list Z) (mode : Z) : res (Z * Z) :=
  if mode =? 1 then
    prefix ← ok_or (get_range body 0 4)
      (GeneralErr ("Compressed IPC body is " +:+ show (len body)
        +:+ " bytes; compression mode 1 requires a 4-byte decompressed-length prefix"));
    Ok (from_le prefix, 4)
  else if mode =? 2 then
    prefix ← ok_or (get_range body 0 8)
      (GeneralErr ("Compressed IPC body is " +:+ show (len body)
        +:+ " bytes; compression mode 2 requires an 8-byte decompressed-length prefix"));
    Ok (from_le prefix, 8)
  else general ("Unsupported IPC compression mode " +:+ show mode).

(** ** Headers *)

Record ParsedIpcHeader : Type := MkHeaderFields {
  message_kind : Z;
  compression_mode : Z;
  total_length : Z
}.

Definition message_type (kind : Z) : res MsgType :=
  if kind =? 0 then Ok Async
  else if kind =? 1 then Ok Sync
  else if kind =? 2 then Ok Response
  else corrupt ("Unsupported IPC message type " +:+ show kind).

Definition parse_ipc_header (header : list Z) : res ParsedIpcHeader :=
  if negb (len header =? IPC_HEADER_LENGTH) then
    corrupt ("IPC header must be exactly " +:+ show IPC_HEADER_LENGTH +:+ " bytes, got "
             +:+ show (len header))
  else
    byte_order ← or_panic (get_at header 0);
    _ ← (if byte_order =? 1 then Ok tt
         else if byte_order =? 0 then Err NotSupportedBigEndianErr
         else corrupt ("Unsupported IPC byte-order marker " +:+ show byte_order));
    kind ← or_panic (get_at header 1);
    _ ← message_type kind;
    mode ← or_panic (get_at header 2);
    if 2 <? mode then corrupt ("Unsupported IPC compression mode " +:+ show mode)
    else
      low ← or_panic (get_range header 4 8);
      high ← or_panic (get_at header 3);
      total_length ← ok_or (checked_add (Z.shiftl high 32) (from_le low))
        (DeserializationErr "IPC length overflowed");
      _ ← checked_body_length total_length "IPC message";
      Ok (MkHeaderFields kind mode total_length).

Definition enforce_message_bound (total_length : Z) (maximum : option Z) : res unit :=
  match maximum with
  | Some maximum =>
    if maximum <? total_length then
      general ("IPC message's uncompressed length " +:+ show total_length
               +:+ " exceeds configured maximum " +:+ show maximum)
    else Ok tt
  | None => Ok tt
  end.

Definition enforce_compressed_physical_bound
    (physical_total_length logical_total_length prefix_length : Z) : res unit :=
  decoded_body_length ← checked_body_length logical_total_length "Decompressed IPC message";
  padded ← ok_or (checked_add decoded_body_length 7)
    (DeserializationErr "Compressed IPC structural length bound overflowed");
  let flag_bytes := padded / 8 in
  maximum_total_length ←
    ok_or (length ← checked_add IPC_HEADER_LENGTH prefix_length;
           length ← checked_add length decoded_body_length;
           checked_add length flag_bytes)
      (DeserializationErr "Compressed IPC structural length bound overflowed");
  if maximum_total_length <? physical_total_length then
    corrupt ("Compressed IPC frame length " +:+ show physical_total_length
             +:+ " exceeds maximum structurally valid length " +:+ show maximum_total_length
             +:+ " for declared uncompressed length " +:+ show logical_total_length)
  else Ok tt.

(** ** Buffers *)

(** A [Vec<u8>] with the capacity it holds: the frame buffers are kept between
    requests for it. *)
Record Buffer : Type := MkBuffer {
  buffer_data : list Z;
  buffer_capacity : Z
}.

Definition new_buffer : Buffer := MkBuffer [] 0.
Definition clear_buffer (b : Buffer) : Buffer := MkBuffer [] (buffer_capacity b).

(** [buffer.extend_from_slice(bytes)]: the vector grows when it must. *)
Definition extend_buffer (b : Buffer) (bytes : list Z) : Buffer :=
  MkBuffer (buffer_data b ++ bytes)
    (Z.max (buffer_capacity b) (len (buffer_data b) + len bytes)).

(** [Vec::try_reserve_exact]: nothing to do when the spare capacity is enough. *)
Definition try_reserve_exact `{Allocator} (b : Buffer) (additional : Z)
    (on_error : string -> XqdbError) : res Buffer :=
  if additional <=? buffer_capacity b - len (buffer_data b) then Ok b
  else
    _ ← reserve additional on_error;
    Ok (MkBuffer (buffer_data b) (len (buffer_data b) + additional)).

Definition reserve_buffer `{Allocator} (b : Buffer) (length : Z) (description : string)
    : res Buffer :=
  if negb (len (buffer_data b) =? 0) then Panicked
  else if length <=? buffer_capacity b then Ok b
  else
    b ← try_reserve_exact b length (fun error =>
          GeneralErr ("Unable to allocate " +:+ description +:+ " of " +:+ show length
                      +:+ " bytes: " +:+ error));
    Ok (clear_buffer b).

Definition allocate_buffer `{Allocator} (length : Z) (description : string) : res Buffer :=
  reserve_buffer new_buffer length description.

Definition release_oversized_buffer (b : Buffer) : Buffer :=
  if MAX_RETAINED_BUFFER_BYTES <? buffer_capacity b then new_buffer else b.

Definition allocate_zeroed_buffer `{Allocator} (length : Z) (description : string)
    : res (list Z) :=
  b ← allocate_buffer length description;
  Ok (resize (buffer_data b) length 0).

(** ** Bodies *)

(** [Cow<[u8]>]: the received bytes themselves, or a fresh allocation. *)
Inductive Cow : Type :=
| Borrowed (bytes : list Z)
| Owned (bytes : list Z).

Definition cow_bytes (c : Cow) : list Z := match c with Borrowed b | Owned b => b end.

Definition prepare_ipc_body `{Allocator} (header : ParsedIpcHeader) (body : Cow)
    (max_message_bytes : option Z) : res (MsgType * Cow) :=
  expected_body_length ← checked_body_length (total_length header) "IPC message";
  if negb (len (cow_bytes body) =? expected_body_length) then
    corrupt ("IPC frame length mismatch: header declares " +:+ show expected_body_length
             +:+ " body bytes, got " +:+ show (len (cow_bytes body)))
  else
    body ←
      (if compression_mode header =? 0 then
         _ ← enforce_message_bound (total_length header) max_message_bytes;
         Ok body
       else
         '(decompressed_length, prefix_length) ←
           compressed_message_length (cow_bytes body) (compression_mode header);
         _ ← enforce_message_bound decompressed_length max_message_bytes;
         _ ← enforce_compressed_physical_bound (total_length header) decompressed_length
               prefix_length;
         decompressed_body_length ←
           checked_decompressed_body_length decompressed_length
             (saturating_sub (len (cow_bytes body)) prefix_length);
         decompressed ← allocate_zeroed_buffer decompressed_body_length "decompressed IPC body";
         decompressed ← decompress (cow_bytes body) decompressed prefix_length;
         Ok (Owned decompressed));
    message ← message_type (message_kind header);
    Ok (message, body).

(** How a value body is decoded into a value: the native decoder, and the wrapper
    around a validated lossless value. *)
Class Codec (K : Type) := {
  deserialize : SymbolEncoding -> list Z -> res K;
  of_qvalue : QValue -> K
}.

Definition decode_value_body `{Allocator} `{Codec K} (body : Cow) (encoding : SymbolEncoding)
    (mode : ValueMode) : res K :=
  match mode with
  | Native => deserialize encoding (cow_bytes body)
  | Lossless =>
    match body with
    | Borrowed body => v ← from_bytes body; Ok (of_qvalue v)
    | Owned body => v ← from_owned_bytes body; Ok (of_qvalue v)
    end
  end.

Definition deserialize_ipc_frame `{Allocator} `{Codec K} (frame : list Z)
    (encoding : SymbolEncoding) (mode : ValueMode) : res (MsgType * K) :=
  header_bytes ← ok_or (get_range frame 0 IPC_HEADER_LENGTH)
    (DeserializationErr ("IPC frame is shorter than its " +:+ show IPC_HEADER_LENGTH
                         +:+ "-byte header"));
  header ← parse_ipc_header header_bytes;
  declared_length ← ok_or (try_usize (total_length header))
    (DeserializationErr "IPC message length cannot be represented on this platform");
  if negb (len frame =? declared_length) then
    corrupt ("IPC frame length mismatch: header declares " +:+ show declared_length
             +:+ " bytes, got " +:+ show (len frame))
  else
    rest ← or_panic (get_from frame IPC_HEADER_LENGTH);
    '(message, body) ← prepare_ipc_body header (Borrowed rest) None;
    value ← decode_value_body body encoding mode;
    Ok (message, value).
