(* ===== verification/FramingFacts.v ===== *)
(** * FramingFacts: lemmas on headers, length tests and body preparation *)

From stdpp Require Import prelude strings.
From Stdlib Require Import ZArith Lia ZifyBool.
From S2P Require Import Prelude Errors Types QValue Compress CompressFacts CompressRoundtrip Framing.

(** Unfolding the first bind of the goal, when the computation is known. *)
Ltac run_bind := cbn [ok_or or_panic mbind outcome_bind].

(** ** The length field *)

Lemma from_u32_to_le z : 0 <= z <= u32_max -> from_le (u32_to_le z) = z.
Proof.
  intros. unfold u32_to_le, unsigned. rewrite from_to_le. change (8 * Z.of_nat 4) with 32.
  rewrite Z.mod_mod, Z.mod_small by bool_lia. done.
Qed.

Lemma from_u64_to_le z : 0 <= z <= usize_max -> from_le (u64_to_le z) = z.
Proof.
  intros. unfold u64_to_le, unsigned. rewrite from_to_le. change (8 * Z.of_nat 8) with 64.
  rewrite Z.mod_mod, Z.mod_small by bool_lia. done.
Qed.

Lemma u32_of_four l : bytes_ok l -> length l = 4%nat -> u32_to_le (from_le l) = l.
Proof.
  intros Hb Hl. unfold u32_to_le, unsigned. rewrite Z.mod_small.
  - rewrite <- Hl. by apply to_from_le.
  - pose proof (from_le_bound l Hb) as H. rewrite Hl in H. exact H.
Qed.

Lemma split_length total :
  0 <= total <= MAX_IPC_LENGTH_FIELD ->
  Z.shiftl (Z.shiftr total 32 mod 256) 32 + total mod 2 ^ 32 = total
  /\ 0 <= Z.shiftr total 32 mod 256 < 256 /\ 0 <= total mod 2 ^ 32 <= u32_max.
Proof.
  unfold MAX_IPC_LENGTH_FIELD. intros H. rewrite Z.shiftl_mul_pow2, Z.shiftr_div_pow2 by lia.
  assert (0 <= total / 2 ^ 32 < 256) as Hh
    by (split; [apply Z.div_pos; lia|apply Z.div_lt_upper_bound; lia]).
  pose proof (Z.mod_pos_bound total (2 ^ 32) ltac:(lia)).
  rewrite (Z.mod_small (total / 2 ^ 32)) by lia. split_and!; try bool_lia.
  rewrite (Z.div_mod total (2 ^ 32)) at 3 by lia. lia.
Qed.

Lemma join_length hi low :
  0 <= hi < 256 -> 0 <= low <= u32_max ->
  let total := Z.shiftl hi 32 + low in
  0 <= total <= MAX_IPC_LENGTH_FIELD /\ Z.shiftr total 32 mod 256 = hi /\ total mod 2 ^ 32 = low.
Proof.
  intros Hh Hl total. unfold total, MAX_IPC_LENGTH_FIELD.
  rewrite Z.shiftl_mul_pow2, Z.shiftr_div_pow2 by lia.
  assert (0 <= low < 2 ^ 32) as Hl' by bool_lia. split_and!; try lia.
  - rewrite Z.div_add_l, (Z.div_small low), Z.add_0_r by lia. apply Z.mod_small. lia.
  - rewrite Z.add_comm, Z.mod_add by lia. apply Z.mod_small. lia.
Qed.

(** ** Headers *)

(** The header [send_inner] writes for a message of these fields. *)
Definition encode_header (h : ParsedIpcHeader) : list Z :=
  [1; message_kind h; compression_mode h; Z.shiftr (total_length h) 32 mod 256]
  ++ u32_to_le (total_length h mod 2 ^ 32).

Definition header_wf (h : ParsedIpcHeader) : Prop :=
  0 <= message_kind h <= 2 /\ 0 <= compression_mode h <= 2
  /\ IPC_HEADER_LENGTH + MIN_SERIALIZED_VALUE_LENGTH <= total_length h <= MAX_IPC_LENGTH_FIELD.

Lemma message_type_Ok kind m :
  message_type kind = Ok m -> 0 <= kind <= 2 /\ msg_type_code m = kind.
Proof. unfold message_type. repeat (case_match; [intros [= <-]; split; [lia|simpl; lia]|]). done. Qed.

Lemma message_type_is_Ok kind : 0 <= kind <= 2 -> exists m, message_type kind = Ok m.
Proof. intros. unfold message_type. repeat (case_match; [by eexists|]). lia. Qed.

Lemma checked_body_length_spec total c :
  0 <= total <= usize_max ->
  match checked_body_length total c with
  | Ok n => n = total - 8 /\ 2 <= n
  | Err _ => total < 10
  | _ => False
  end.
Proof.
  intros H. unfold checked_body_length, try_usize, checked_sub, IPC_HEADER_LENGTH,
    MIN_SERIALIZED_VALUE_LENGTH. replace (_ && _) with true by bool_lia. run_bind.
  destruct (Z.leb_spec 8 total); run_bind; [|lia].
  destruct (Z.ltb_spec (total - 8) 2); lia.
Qed.

Lemma checked_body_length_Ok total c :
  10 <= total <= usize_max -> checked_body_length total c = Ok (total - 8).
Proof.
  intros H. pose proof (checked_body_length_spec total c ltac:(lia)) as Hs.
  destruct (checked_body_length total c); [|lia|done|done]. destruct Hs as [-> _]. done.
Qed.

Lemma checked_body_length_returns total c : returns (checked_body_length total c).
Proof.
  unfold checked_body_length. destruct (try_usize total); run_bind; [|done].
  destruct (checked_sub _ _); run_bind; [|done]. by destruct (_ <? _).
Qed.

Lemma checked_body_length_inv total c n :
  checked_body_length total c = Ok n -> n = total - 8 /\ 2 <= n /\ total <= usize_max.
Proof.
  intros H. assert (0 <= total <= usize_max) as Hr.
  { unfold checked_body_length, try_usize in H. destruct (_ && _) eqn:E; [bool_lia|done]. }
  pose proof (checked_body_length_spec total c Hr) as Hs. rewrite H in Hs. naive_solver.
Qed.

Lemma eight_bytes (l : list Z) :
  len l = 8 -> exists a b c d low, l = [a; b; c; d] ++ low /\ length low = 4%nat.
Proof.
  intros H. do 4 (destruct l as [|? l]; [simpl in H; lia|]).
  do 5 eexists. split; [reflexivity|]. simpl in H. lia.
Qed.

(** What the parser does with eight bytes. *)
Lemma parse_eight a b c d low :
  bytes_ok ([a; b; c; d] ++ low) -> length low = 4%nat ->
  let total := Z.shiftl d 32 + from_le low in
  match parse_ipc_header ([a; b; c; d] ++ low) with
  | Ok h => a = 1 /\ h = MkHeaderFields b c total /\ 0 <= b <= 2 /\ 0 <= c <= 2 /\ 10 <= total
  | Err _ => a <> 1 \/ 2 < b \/ 2 < c \/ total < 10
  | _ => False
  end.
Proof.
  intros Hb Hl total. pose proof Hb as Hb'. apply Forall_app in Hb' as [Hb1 Hb2].
  rewrite !Forall_cons in Hb1. destruct Hb1 as (Ha & Hbb & Hc & Hd & _).
  pose proof (from_le_bound low Hb2) as Hlow. rewrite Hl in Hlow. change (8 * Z.of_nat 4) with 32 in Hlow.
  destruct (join_length d (from_le low)) as (Htot & _); [done|bool_lia|]. fold total in Htot.
  unfold parse_ipc_header. replace (len ([a; b; c; d] ++ low)) with 8
    by (rewrite length_app, Hl; done).
  cbn [Z.eqb negb IPC_HEADER_LENGTH Pos.eqb].
  assert (forall i, i < 4 -> get_at ([a; b; c; d] ++ low) i = get_at [a; b; c; d] i) as Hat
    by (intros; apply get_at_app_l; simpl; lia).
  rewrite !Hat by lia. change (get_at [a; b; c; d] 0) with (Some a).
  change (get_at [a; b; c; d] 1) with (Some b). change (get_at [a; b; c; d] 2) with (Some c).
  change (get_at [a; b; c; d] 3) with (Some d).
  assert (get_range ([a; b; c; d] ++ low) 4 8 = Some low) as ->.
  { apply get_range_Some. exists [a; b; c; d], []. rewrite app_nil_r. rewrite Hl. done. }
  run_bind. unfold is_byte in *.
  destruct (Z.eqb_spec a 1) as [->|Ha1]; run_bind; [|by destruct (a =? 0); left].
  assert (0 <= b <= 2 \/ 2 < b) as [Hb2'|Hb2'] by lia.
  2: { unfold message_type. replace (b =? 0) with false by lia. replace (b =? 1) with false by lia.
       replace (b =? 2) with false by lia. run_bind. lia. }
  destruct (message_type_is_Ok b Hb2') as [m ->]. run_bind.
  destruct (Z.ltb_spec 2 c); [lia|]. unfold MAX_IPC_LENGTH_FIELD in Htot.
  unfold checked_add. fold total. replace (total <=? usize_max) with true by bool_lia. run_bind.
  pose proof (checked_body_length_spec total "IPC message" ltac:(bool_lia)) as Hcb.
  destruct (checked_body_length total "IPC message"); run_bind; try done; [|lia].
  split; [done|split; [done|lia]].
Qed.

Lemma encode_header_bytes h : header_wf h -> bytes_ok (encode_header h).
Proof.
  intros (Hk & Hm & Ht). unfold encode_header. apply Forall_app. split; [|apply to_le_bytes].
  repeat constructor; unfold is_byte; try lia; apply Z.mod_pos_bound; lia.
Qed.

Lemma parse_encode_header h : header_wf h -> parse_ipc_header (encode_header h) = Ok h.
Proof.
  intros Hw. pose proof Hw as (Hk & Hm & Ht). unfold IPC_HEADER_LENGTH, MIN_SERIALIZED_VALUE_LENGTH in Ht.
  destruct (split_length (total_length h)) as (Hsum & Hhi & Hlow); [lia|].
  pose proof (parse_eight 1 (message_kind h) (compression_mode h) _ (u32_to_le (total_length h mod 2 ^ 32))
    (encode_header_bytes h Hw) (length_u32_to_le _)) as Hp.
  cbv zeta in Hp. rewrite from_u32_to_le, Hsum in Hp by done. fold (encode_header h) in Hp.
  unfold encode_header in Hp |- *.
  destruct (parse_ipc_header _) as [h'| | |]; [|lia|done|done].
  destruct Hp as (_ & -> & _). by destruct h.
Qed.

(** What the parser accepts is within the bounds of the format. *)
Lemma parsed_header_wf header h : bytes_ok header -> parse_ipc_header header = Ok h -> header_wf h.
Proof.
  intros Hb Hp. destruct (Z.eq_dec (len header) 8) as [Hl|Hl].
  2: { unfold parse_ipc_header, IPC_HEADER_LENGTH in Hp.
       by replace (len header =? 8) with false in Hp by lia. }
  destruct (eight_bytes header Hl) as (a & b & c & d & low & -> & Hlow).
  pose proof (parse_eight a b c d low Hb Hlow) as Hs. cbv zeta in Hs. rewrite Hp in Hs.
  destruct Hs as (-> & -> & Hk & Hm & Ht).
  apply Forall_app in Hb as [Hb1 Hb2]. rewrite !Forall_cons in Hb1. destruct Hb1 as (_ & _ & _ & Hd & _).
  pose proof (from_le_bound low Hb2) as Hr. rewrite Hlow in Hr. change (8 * Z.of_nat 4) with 32 in Hr.
  destruct (join_length d (from_le low)) as (Htot & _); [done|bool_lia|].
  unfold header_wf, IPC_HEADER_LENGTH, MIN_SERIALIZED_VALUE_LENGTH. simpl. lia.
Qed.

Lemma parse_header_returns header : bytes_ok header -> returns (parse_ipc_header header).
Proof.
  intros Hb. destruct (Z.eq_dec (len header) 8) as [Hl|Hl].
  2: { unfold parse_ipc_header, IPC_HEADER_LENGTH. by replace (len header =? 8) with false by lia. }
  destruct (eight_bytes header Hl) as (a & b & c & d & low & -> & Hlow).
  pose proof (parse_eight a b c d low Hb Hlow) as Hs. cbv zeta in Hs. by destruct (parse_ipc_header _).
Qed.

(** ** Compressed bodies *)

(** The prefix length a compression mode announces. *)
Definition mode_prefix (mode : Z) : Z := if mode =? 1 then 4 else 8.

Lemma compressed_message_length_spec body mode n pl :
  1 <= mode <= 2 ->
  compressed_message_length body mode = Ok (n, pl)
  <-> pl = mode_prefix mode /\ declared_total_length body pl = Ok n.
Proof.
  intros Hm. unfold compressed_message_length, declared_total_length, mode_prefix.
  assert (mode = 1 \/ mode = 2) as [->| ->] by lia; cbn [Z.eqb Pos.eqb].
  - destruct (get_range body 0 4); run_bind; [|naive_solver].
    split; [by intros [= <- <-]|]. intros [-> [= <-]]. done.
  - destruct (get_range body 0 8); run_bind; [|naive_solver].
    split; [by intros [= <- <-]|]. intros [-> [= <-]]. done.
Qed.

Lemma compressed_message_length_returns body mode : returns (compressed_message_length body mode).
Proof. unfold compressed_message_length. repeat case_match; try done; by destruct (get_range _ _ _). Qed.

Lemma enforce_message_bound_Ok n max :
  enforce_message_bound n max = Ok tt <-> forall m, max = Some m -> n <= m.
Proof.
  destruct max as [m|]; simpl; [|naive_solver]. destruct (Z.ltb_spec m n); split; try done.
  - intros H'. specialize (H' m eq_refl). lia.
  - by intros _ ? [= <-].
Qed.

Lemma enforce_message_bound_cases n max :
  enforce_message_bound n max = Ok tt \/ exists e, enforce_message_bound n max = Err e.
Proof. destruct max; simpl; [|by left]. destruct (_ <? _); [right; by eexists|by left]. Qed.

(** The two size tests accept exactly the sizes a compressed body can have. *)
Lemma physical_bound_Ok physical n pl :
  10 <= n <= usize_max -> 0 <= pl <= 8 ->
  physical <= 8 + pl + (n - 8) + (n - 1) / 8 -> 8 + pl + (n - 8) + (n - 1) / 8 <= usize_max ->
  enforce_compressed_physical_bound physical n pl = Ok tt.
Proof.
  intros Hn Hpl Hphys Hfit. unfold enforce_compressed_physical_bound.
  rewrite checked_body_length_Ok by done. run_bind.
  assert (0 <= (n - 1) / 8) by (apply Z.div_pos; lia).
  rewrite (checked_add_eq (n - 8) 7) by bool_lia. run_bind. replace (n - 8 + 7) with (n - 1) by lia.
  unfold IPC_HEADER_LENGTH. rewrite (checked_add_eq 8 pl) by bool_lia. cbn [mbind option_bind].
  rewrite (checked_add_eq _ (n - 8)) by bool_lia. cbn [mbind option_bind].
  rewrite checked_add_eq by bool_lia. run_bind. by replace (_ <? physical) with false by lia.
Qed.

Lemma checked_decompressed_Ok n payload :
  10 <= n <= usize_max -> n - 8 <= 121 * payload ->
  checked_decompressed_body_length n payload = Ok (n - 8).
Proof.
  intros Hn Hp. unfold checked_decompressed_body_length. rewrite checked_body_length_Ok by done. run_bind.
  unfold saturating_mul, MAX_IPC_DECOMPRESSION_RATIO.
  by replace (_ <? n - 8) with false by bool_lia.
Qed.

Lemma checked_decompressed_inv n payload m :
  checked_decompressed_body_length n payload = Ok m ->
  m = n - 8 /\ 2 <= m /\ n <= usize_max /\ m <= 121 * payload.
Proof.
  unfold checked_decompressed_body_length. intros (r & Hr & H)%bind_Ok.
  apply if_Err_Ok in H as [Hb H]. injection H as <-. apply checked_body_length_inv in Hr as (-> & H2 & Hmax).
  unfold saturating_mul, MAX_IPC_DECOMPRESSION_RATIO in Hb. lia.
Qed.

Lemma declared_length_range body pl n :
  bytes_ok body -> declared_total_length body pl = Ok n -> 0 <= n <= usize_max.
Proof.
  intros Hb. unfold declared_total_length. intros H.
  destruct (pl =? 4); [|destruct (pl =? 8); [|done]];
    apply bind_Ok in H as (x & Hx%ok_or_Ok & [= <-]);
    pose proof (get_range_bounds _ _ _ _ Hx) as (_ & _ & Hl);
    pose proof (from_le_bound x (get_range_Forall _ _ _ _ _ Hb Hx)) as Hx';
    [replace (8 * len x) with 32 in Hx' by lia|replace (8 * len x) with 64 in Hx' by lia];
    bool_lia.
Qed.

Lemma resize_empty n : 0 <= n -> resize ([] : list Z) n 0 = replicate (Z.to_nat n) 0.
Proof. intros. unfold resize. rewrite take_nil. simpl. by rewrite Nat.sub_0_r. Qed.

Lemma zeroed_ok n : 0 <= n <= isize_max -> slice_ok (replicate (Z.to_nat n) 0).
Proof.
  intros. split; [|rewrite length_replicate; lia]. apply Forall_replicate. unfold is_byte. lia.
Qed.

Lemma allocate_zeroed_cases `{Allocator} n c :
  0 <= n ->
  allocate_zeroed_buffer n c = Ok (replicate (Z.to_nat n) 0)
  \/ exists e, allocate_zeroed_buffer n c = Err e.
Proof.
  intros Hn. unfold allocate_zeroed_buffer, allocate_buffer, reserve_buffer.
  change (negb (len (buffer_data new_buffer) =? 0)) with false. cbv iota.
  destruct (Z.leb_spec n (buffer_capacity new_buffer)) as [Hz|Hz].
  { left. run_bind. cbn [buffer_data new_buffer]. by rewrite resize_empty. }
  unfold try_reserve_exact. destruct (_ <=? _); run_bind.
  { left. cbn [buffer_data clear_buffer new_buffer]. by rewrite resize_empty. }
  unfold reserve. destruct (try_reserve n); run_bind; [|right; by eexists].
  left. cbn [buffer_data clear_buffer new_buffer]. by rewrite resize_empty.
Qed.

Lemma allocate_zeroed_unlimited n c :
  0 <= n -> @allocate_zeroed_buffer unlimited n c = Ok (replicate (Z.to_nat n) 0).
Proof.
  intros Hn. unfold allocate_zeroed_buffer, allocate_buffer, reserve_buffer, try_reserve_exact.
  change (negb (len (buffer_data new_buffer) =? 0)) with false. cbv iota.
  destruct (n <=? _); run_bind; [by rewrite resize_empty|].
  unfold reserve. cbn [try_reserve unlimited]. run_bind. cbn [buffer_data clear_buffer].
  by rewrite resize_empty.
Qed.

Lemma physical_bound_returns physical n pl :
  returns (enforce_compressed_physical_bound physical n pl).
Proof.
  unfold enforce_compressed_physical_bound.
  pose proof (checked_body_length_returns n "Decompressed IPC message").
  destruct (checked_body_length n _); try done. run_bind. destruct (checked_add _ 7); run_bind; [|done].
  match goal with |- context [ok_or ?o _] => destruct o end; run_bind; [|done]. by destruct (_ <? _).
Qed.

Lemma checked_decompressed_returns n payload :
  returns (checked_decompressed_body_length n payload).
Proof.
  unfold checked_decompressed_body_length.
  pose proof (checked_body_length_returns n "Decompressed IPC message").
  destruct (checked_body_length n _); try done. run_bind. by destruct (_ <? _).
Qed.
