(* ===== verification/FramingSpec.v ===== *)
(** * FramingSpec: what the framing layer promises

    Headers parse to what was written; the tests a compressed frame must pass
    before memory is reserved reject no frame that decompresses and admit none that
    would exceed the configured or structural bounds; and compression is invisible
    to the receiver. *)

From stdpp Require Import prelude strings.
From Stdlib Require Import ZArith Lia ZifyBool.
From S2P Require Import Prelude Errors Types QValue Compress CompressFacts CompressRoundtrip CompressSpec Framing FramingFacts.

(** The header parser accepts exactly the eight-byte headers the writer
    produces for a message kind, a compression mode and a length of at least ten
    bytes, below 2^40, and recovers the three fields; on any eight bytes it
    returns. *)
Theorem header_exact (header : list Z) (h : ParsedIpcHeader) :
  bytes_ok header ->
  parse_ipc_header header = Ok h <-> header = encode_header h /\ header_wf h.
Proof.
  intros Hb. split; [|by intros [-> Hw]; apply parse_encode_header].
  intros Hp. destruct (Z.eq_dec (len header) 8) as [Hl|Hl].
  2: { unfold parse_ipc_header, IPC_HEADER_LENGTH in Hp.
       by replace (len header =? 8) with false in Hp by lia. }
  destruct (eight_bytes header Hl) as (a & b & c & d & low & -> & Hlow).
  pose proof (parse_eight a b c d low Hb Hlow) as Hs. cbv zeta in Hs. rewrite Hp in Hs.
  destruct Hs as (-> & -> & Hk & Hm & Ht).
  apply Forall_app in Hb as [Hb1 Hb2]. rewrite !Forall_cons in Hb1. destruct Hb1 as (_ & _ & _ & Hd & _).
  pose proof (from_le_bound low Hb2) as Hr. rewrite Hlow in Hr. change (8 * Z.of_nat 4) with 32 in Hr.
  destruct (join_length d (from_le low)) as (Htot & Ehi & Elow); [done|bool_lia|].
  split.
  - unfold encode_header. cbn [message_kind compression_mode total_length].
    rewrite Ehi, Elow. f_equal. symmetry. by apply u32_of_four.
  - unfold header_wf, IPC_HEADER_LENGTH, MIN_SERIALIZED_VALUE_LENGTH. simpl. lia.
Qed.

(** The length field: every length a 40-bit field can hold is split so that the
    header parser reads it back, for any kind and mode, and a longer message is
    refused rather than truncated. *)
Theorem length_field_roundtrip (kind mode total : Z) :
  0 <= kind <= 2 -> 0 <= mode <= 2 -> 10 <= total ->
  match ipc_length_header total with
  | Ok (high, low) =>
    total < 2 ^ 40
    /\ parse_ipc_header ([1; kind; mode; high] ++ u32_to_le low)
       = Ok (MkHeaderFields kind mode total)
  | Err _ => 2 ^ 40 <= total
  | _ => False
  end.
Proof.
  intros Hk Hm Ht. unfold ipc_length_header.
  destruct (Z.ltb_spec MAX_IPC_LENGTH_FIELD total) as [Hl|Hl]; unfold MAX_IPC_LENGTH_FIELD in *; [lia|].
  split; [lia|]. apply (parse_encode_header (MkHeaderFields kind mode total)).
  unfold header_wf, IPC_HEADER_LENGTH, MIN_SERIALIZED_VALUE_LENGTH, MAX_IPC_LENGTH_FIELD. simpl. lia.
Qed.

(** ** Compressed bodies *)

Lemma decompress_inv body destination pl out :
  decompress body destination pl = Ok out ->
  exists n, declared_total_length body pl = Ok n /\ n = len destination + 8.
Proof.
  unfold decompress. intros (n & Hn & H)%bind_Ok. exists n. split; [done|].
  apply bind_Ok in H as (m & Hm%ok_or_Ok & H). apply if_Err_Ok in H as [He _].
  unfold checked_sub in Hm. destruct (Z.leb_spec 8 n); [|done]. injection Hm as <-. lia.
Qed.

(** A body that decompresses passes the two size tests. *)
Lemma decodable_passes mode body destination out :
  1 <= mode <= 2 -> slice_ok body -> len body <= 2 ^ 40 -> slice_ok destination ->
  2 <= len destination ->
  decompress body destination (mode_prefix mode) = Ok out ->
  let n := len destination + 8 in
  compressed_message_length body mode = Ok (n, mode_prefix mode)
  /\ enforce_compressed_physical_bound (8 + len body) n (mode_prefix mode) = Ok tt
  /\ checked_decompressed_body_length n (saturating_sub (len body) (mode_prefix mode))
     = Ok (len destination).
Proof.
  intros Hm Hb Hsmall Hd H2 Hout n. destruct (decompress_inv _ _ _ _ Hout) as (n' & Hn & ->).
  destruct (decompress_ok body destination (mode_prefix mode) Hb Hd) as [_ Hok].
  destruct (Hok out Hout) as (_ & _ & Hratio & Hphys).
  assert (4 <= mode_prefix mode <= 8) as Hpl by (unfold mode_prefix; case_match; lia).
  pose proof Hd as [_ Hmax]. assert (len destination <= 121 * 2 ^ 40) as Hsize by lia.
  split_and!; [by apply compressed_message_length_spec|..].
  - assert (n - 1 = len destination + 7) as E by (unfold n; lia).
    assert ((n - 1) / 8 <= 2 ^ 48) by (apply Z.div_le_upper_bound; lia).
    rewrite <- E in Hphys. assert (n = len destination + 8) as En by done. clearbody n.
    apply physical_bound_Ok; bool_lia.
  - assert (n = len destination + 8) as En by done. clearbody n.
    unfold saturating_sub. rewrite checked_decompressed_Ok by bool_lia. f_equal. lia.
Qed.

Lemma prepare_decodable (kind mode : Z) (body out : list Z) (max_message_bytes : option Z) (m : MsgType) :
  1 <= mode <= 2 -> slice_ok body -> 2 <= len body -> len body + 8 <= MAX_IPC_LENGTH_FIELD ->
  slice_ok out -> 2 <= len out -> message_type kind = Ok m ->
  (forall limit, max_message_bytes = Some limit -> len out + 8 <= limit) ->
  decompress body (replicate (length out) 0) (mode_prefix mode) = Ok out ->
  @prepare_ipc_body unlimited (MkHeaderFields kind mode (len body + 8)) (Borrowed body) max_message_bytes
  = Ok (m, Owned out).
Proof.
  intros Hmode Hb Hbl Hmax Ho Hol Hkind Hlimit Hdec. unfold MAX_IPC_LENGTH_FIELD in Hmax.
  assert (slice_ok (replicate (length out) 0)) as Hd.
  { rewrite <- (Nat2Z.id (length out)). apply zeroed_ok. destruct Ho. lia. }
  destruct (decodable_passes mode body _ out Hmode Hb ltac:(lia) Hd ltac:(rewrite length_replicate; lia) Hdec)
    as (Hlen & Hphys & Hratio). rewrite length_replicate in *.
  unfold prepare_ipc_body. cbn [total_length compression_mode message_kind cow_bytes].
  rewrite checked_body_length_Ok by bool_lia. run_bind.
  replace (len body =? _) with true by lia. cbn [negb]. replace (mode =? 0) with false by lia.
  rewrite Hlen. run_bind. rewrite (proj2 (enforce_message_bound_Ok _ _) Hlimit). run_bind.
  rewrite (Z.add_comm (len body) 8), Hphys. run_bind. rewrite Hratio. run_bind.
  rewrite allocate_zeroed_unlimited by lia. run_bind. rewrite Nat2Z.id, Hdec. run_bind.
  by rewrite Hkind.
Qed.

(** The size tests are complete.  Whenever the compressed body of a frame
    decompresses into a destination of the declared size, the frame is accepted:
    neither the structural bound nor the expansion ratio of 121 rejects it, and the
    receiver gets exactly the decompressed bytes. *)
Theorem prepare_complete (kind mode : Z) (body out : list Z) (max_message_bytes : option Z) (m : MsgType) :
  1 <= mode <= 2 -> slice_ok body -> 2 <= len body -> len body + 8 <= MAX_IPC_LENGTH_FIELD ->
  slice_ok out -> 2 <= len out -> message_type kind = Ok m ->
  (forall limit, max_message_bytes = Some limit -> len out + 8 <= limit) ->
  decompress body (replicate (length out) 0) (mode_prefix mode) = Ok out ->
  @prepare_ipc_body unlimited (MkHeaderFields kind mode (len body + 8)) (Borrowed body) max_message_bytes
  = Ok (m, Owned out).
Proof. intros. by apply prepare_decodable. Qed.

(** Preparing a body returns, within its bounds. *)
Lemma prepare_bounded `{Allocator} (h : ParsedIpcHeader) (body : list Z) (max_message_bytes : option Z) :
  slice_ok body -> header_wf h ->
  returns (prepare_ipc_body h (Borrowed body) max_message_bytes)
  /\ forall m b, prepare_ipc_body h (Borrowed body) max_message_bytes = Ok (m, b) ->
       msg_type_code m = message_kind h
       /\ len body = total_length h - 8
       /\ (forall limit, max_message_bytes = Some limit -> len (cow_bytes b) + 8 <= limit)
       /\ match b with
          | Borrowed bytes => compression_mode h = 0 /\ bytes = body
          | Owned out => compression_mode h <> 0
              /\ decompress body (replicate (length out) 0) (mode_prefix (compression_mode h)) = Ok out
              /\ len out <= 121 * len body
          end.
Proof.
  intros Hb (Hk & Hm & Ht). destruct (message_type_is_Ok _ Hk) as [m Hkind].
  unfold IPC_HEADER_LENGTH, MIN_SERIALIZED_VALUE_LENGTH, MAX_IPC_LENGTH_FIELD in Ht.
  pose proof (message_type_Ok _ _ Hkind) as [_ Hcode].
  unfold prepare_ipc_body. rewrite checked_body_length_Ok by bool_lia. run_bind.
  cbn [cow_bytes]. destruct (Z.eqb_spec (len body) (total_length h - 8)) as [Hlen|]; cbn [negb]; [|done].
  destruct (Z.eqb_spec (compression_mode h) 0) as [Hz|Hz].
  { destruct (enforce_message_bound_cases (total_length h) max_message_bytes) as [Hmax|[e ->]]; [|done].
    rewrite Hmax. run_bind. rewrite Hkind. run_bind. split; [done|]. intros m' b [= <- <-].
    rewrite enforce_message_bound_Ok in Hmax. cbn [cow_bytes]. split_and!; try done.
    intros limit Hl. specialize (Hmax limit Hl). lia. }
  pose proof (compressed_message_length_returns body (compression_mode h)) as Hr.
  destruct (compressed_message_length body (compression_mode h)) as [[n pl]| | |] eqn:Ecm; try done.
  apply compressed_message_length_spec in Ecm as [-> Hn]; [|lia]. run_bind.
  pose proof (declared_length_range body _ n (proj1 Hb) Hn) as Hnr.
  destruct (enforce_message_bound_cases n max_message_bytes) as [Hmax|[e ->]]; [|done].
  rewrite Hmax. run_bind. rewrite enforce_message_bound_Ok in Hmax.
  pose proof (physical_bound_returns (total_length h) n (mode_prefix (compression_mode h))).
  destruct (enforce_compressed_physical_bound _ _ _); try done. run_bind.
  match goal with |- context [checked_decompressed_body_length n ?p] =>
    pose proof (checked_decompressed_returns n p) end.
  destruct (checked_decompressed_body_length n _) as [size| | |] eqn:Ed; run_bind; try done.
  apply checked_decompressed_inv in Ed as (-> & H2 & Hmx & Hratio).
  assert (n - 8 <= 121 * len body) as Hratio'
    by (unfold saturating_sub, mode_prefix in Hratio; case_match; lia).
  destruct (allocate_zeroed_cases (n - 8) "decompressed IPC body" ltac:(lia)) as [-> |[e ->]]; [|done].
  run_bind.
  assert (slice_ok (replicate (Z.to_nat (n - 8)) 0)) as Hd by (apply zeroed_ok; bool_lia).
  destruct (decompress_ok body _ (mode_prefix (compression_mode h)) Hb Hd) as [Hdr Hdec].
  destruct (decompress body _ _) as [out| | |] eqn:Eout; try done. run_bind. rewrite Hkind. run_bind.
  split; [done|]. intros m' b [= <- <-].
  destruct (Hdec out eq_refl) as (Hol & _). rewrite length_replicate in Hol. cbn [cow_bytes].
  assert (length out = Z.to_nat (n - 8)) as Eol by lia.
  split_and!; try done; try lia.
  - intros limit Hl. specialize (Hmax limit Hl). lia.
  - by rewrite Eol.
Qed.

(** The size tests are sound.  Preparing a body always returns; what it
    returns is the received bytes of an uncompressed frame or the decompression of
    a compressed one, never longer than the configured maximum, and no memory is
    reserved beyond 121 times the bytes that were received. *)
Theorem prepare_sound `{Allocator} (h : ParsedIpcHeader) (body : list Z) (max_message_bytes : option Z) :
  slice_ok body -> header_wf h ->
  returns (prepare_ipc_body h (Borrowed body) max_message_bytes)
  /\ forall m b, prepare_ipc_body h (Borrowed body) max_message_bytes = Ok (m, b) ->
       msg_type_code m = message_kind h
       /\ len body = total_length h - 8
       /\ (forall limit, max_message_bytes = Some limit -> len (cow_bytes b) + 8 <= limit)
       /\ match b with
          | Borrowed bytes => compression_mode h = 0 /\ bytes = body
          | Owned out => compression_mode h <> 0
              /\ decompress body (replicate (length out) 0) (mode_prefix (compression_mode h)) = Ok out
              /\ len out <= 121 * len body
          end.
Proof. apply prepare_bounded. Qed.

(** ** Compression and the receiver *)

Lemma u32_to_le_mod z : u32_to_le (z mod 2 ^ 32) = u32_to_le z.
Proof. unfold u32_to_le, unsigned. by rewrite Z.mod_mod by lia. Qed.

Lemma frame_split (frame header rest : list Z) :
  frame = header ++ rest -> len header = 8 ->
  get_range frame 0 IPC_HEADER_LENGTH = Some header /\ get_from frame IPC_HEADER_LENGTH = Some rest.
Proof.
  intros -> Hl. unfold IPC_HEADER_LENGTH. split.
  - apply get_range_Some. exists [], rest. split_and!; [done|done|lia].
  - unfold get_from. apply get_range_Some. exists header, []. rewrite app_nil_r, length_app.
    split_and!; [done|lia|lia].
Qed.

Lemma len_encode_header h : len (encode_header h) = 8.
Proof. unfold encode_header. by rewrite length_app, length_u32_to_le. Qed.

Lemma take_compressed_frame vec size gs :
  take 8 (compressed_frame vec size gs)
  = [byte_at vec 0; byte_at vec 1; mode_of (len vec); Z.shiftr size 32 mod 256] ++ u32_to_le size.
Proof. unfold compressed_frame. rewrite app_assoc. apply take_app_length'. by rewrite length_app. Qed.

(** A frame of a well-formed header is decoded from its prepared body. *)
Lemma deserialize_frame_eq `{Allocator} `{Codec K} h body encoding mode :
  header_wf h -> len body + 8 = total_length h ->
  deserialize_ipc_frame (encode_header h ++ body) encoding mode
  = ('(message, body) ← prepare_ipc_body h (Borrowed body) None;
     value ← decode_value_body body encoding mode;
     Ok (message, value)).
Proof.
  intros Hw Hl. unfold deserialize_ipc_frame.
  destruct (frame_split _ _ body eq_refl (len_encode_header h)) as [-> ->]. run_bind.
  rewrite parse_encode_header by done. run_bind.
  destruct Hw as (_ & _ & Ht). unfold MAX_IPC_LENGTH_FIELD, IPC_HEADER_LENGTH in Ht.
  unfold try_usize. replace (_ && _) with true by bool_lia. run_bind.
  rewrite length_app. pose proof (len_encode_header h).
  by replace (_ =? total_length h) with true by lia.
Qed.

Lemma decode_owned `{Codec K} body encoding mode :
  @decode_value_body unlimited K _ (Owned body) encoding mode
  = @decode_value_body unlimited K _ (Borrowed body) encoding mode.
Proof.
  unfold decode_value_body. destruct mode; [done|]. unfold from_owned_bytes, from_bytes.
  by destruct (validate body).
Qed.

Lemma compressed_frame_decodes `{Allocator} `{Codec K} (kind : Z) (body c : list Z)
    (encoding : SymbolEncoding) (mode : ValueMode) :
  let frame := encode_header (MkHeaderFields kind 0 (len body + 8)) ++ body in
  header_wf (MkHeaderFields kind 0 (len body + 8)) -> slice_ok frame ->
  compress frame = Ok c ->
  @deserialize_ipc_frame unlimited K _ c encoding mode
  = @deserialize_ipc_frame unlimited K _ frame encoding mode.
Proof.
  intros frame Hw Hok Hc. pose proof Hw as (Hk & _ & Ht). cbn [message_kind total_length] in *.
  unfold IPC_HEADER_LENGTH, MIN_SERIALIZED_VALUE_LENGTH, MAX_IPC_LENGTH_FIELD in Ht.
  assert (len frame = len body + 8) as Hlen
    by (unfold frame; rewrite length_app; pose proof (len_encode_header (MkHeaderFields kind 0 (len body + 8))); lia).
  assert (drop 8 frame = body) as Hdrop.
  { unfold frame. rewrite drop_app_le, drop_ge; [done|..];
      pose proof (len_encode_header (MkHeaderFields kind 0 (len body + 8))); lia. }
  assert (slice_ok body) as Hbody by (rewrite <- Hdrop; by apply slice_ok_drop).
  assert (slice_ok (replicate (length body) 0)) as Hzero.
  { rewrite <- (Nat2Z.id (length body)). apply zeroed_ok. destruct Hbody. lia. }
  destruct (compress_cases frame (replicate (length body) 0) Hok Hzero)
    as [Hsame|[[e He]|(size & gs & Hcz & Hsize & H2000 & Hhalf & Hg & Hu & w & Hrun & Hde & Hout)]];
    [rewrite length_replicate; lia|congruence|congruence|].
  rewrite Hcz in Hc. injection Hc as <-.
  assert (byte_at frame 0 = 1 /\ byte_at frame 1 = kind) as [E0 E1].
  { unfold byte_at, frame, encode_header. by rewrite <- app_assoc, !get_at_app_l by (simpl; lia). }
  set (z := compressed_frame frame size gs) in *.
  assert (slice_ok z) as Hz.
  { split; [by apply compressed_frame_bytes|]. destruct Hok as [_ Hmax]. rewrite Hsize.
    assert (len frame / 2 <= len frame) by (apply Z.div_le_upper_bound; lia). lia. }
  assert (decompress (drop 8 z) (replicate (length body) 0) (prefix_length_of (len frame)) = Ok body) as Hdec.
  { rewrite <- Hdrop at 2. apply (decompress_frame frame _ size gs w); try done.
    rewrite length_replicate. lia. }
  assert (1 <= mode_of (len frame) <= 2 /\ prefix_length_of (len frame) = mode_prefix (mode_of (len frame))) as [Hm Hpl]
    by (unfold mode_of, mode_prefix, prefix_length_of; destruct (wide _); simpl; lia).
  rewrite Hpl in Hdec.
  assert (len (drop 8 z) + 8 = size) as Hsz by (rewrite length_drop; pose proof (decompress_inv _ _ _ _ Hdec); unfold z in *; simpl length in *; lia).
  assert (z = encode_header (MkHeaderFields kind (mode_of (len frame)) size) ++ drop 8 z) as Ez.
  { rewrite <- (take_drop 8 z) at 1. f_equal. unfold encode_header. cbn [message_kind compression_mode total_length].
    rewrite u32_to_le_mod. unfold z. by rewrite take_compressed_frame, E0, E1. }
  assert (2 <= len (drop 8 z)) as H2z.
  { unfold z. rewrite drop_compressed_frame, length_app, Nat2Z.inj_add, len_prefix_of.
    unfold prefix_length_of. destruct (wide _); lia. }
  assert (len frame / 2 <= len frame) as Hhalf' by (apply Z.div_le_upper_bound; lia).
  destruct (message_type_is_Ok kind Hk) as [m Hkind].
  rewrite Ez. rewrite deserialize_frame_eq; [|unfold header_wf, IPC_HEADER_LENGTH, MIN_SERIALIZED_VALUE_LENGTH, MAX_IPC_LENGTH_FIELD; cbn [message_kind compression_mode total_length]; lia|exact Hsz].
  unfold frame. rewrite deserialize_frame_eq by (done || (simpl; lia)). rewrite <- Hsz.
  rewrite (prepare_decodable kind _ (drop 8 z) body None m); try done; try lia;
    [|by apply slice_ok_drop|unfold MAX_IPC_LENGTH_FIELD; lia].
  unfold prepare_ipc_body. cbn [total_length compression_mode message_kind cow_bytes].
  rewrite checked_body_length_Ok by bool_lia. run_bind.
  replace (len body =? _) with true by lia. cbn [negb Z.eqb enforce_message_bound]. run_bind.
  rewrite Hkind. run_bind. by rewrite decode_owned.
Qed.

(** C13: compression is invisible to the receiver.  Whatever [compress] makes of an
    outgoing frame, decoding it gives the value, or the error, that decoding the
    uncompressed frame gives, in both value modes. *)
Theorem compression_transparent `{Allocator} `{Codec K} (kind : Z) (body c : list Z)
    (encoding : SymbolEncoding) (mode : ValueMode) :
  let frame := encode_header (MkHeaderFields kind 0 (len body + 8)) ++ body in
  header_wf (MkHeaderFields kind 0 (len body + 8)) -> slice_ok frame ->
  compress frame = Ok c ->
  @deserialize_ipc_frame unlimited K _ c encoding mode
  = @deserialize_ipc_frame unlimited K _ frame encoding mode.
Proof. apply compressed_frame_decodes. Qed.

(** ** Witnesses *)

(** A decoder that keeps the bytes: enough to see which body was decoded. *)
Definition raw_codec : Codec (list Z) :=
  {| deserialize := fun _ bytes => Ok bytes; of_qvalue := as_bytes |}.

Definition sample_body : list Z := drop 8 sample_message.

Lemma sample_header_wf : header_wf (MkHeaderFields 1 0 (len sample_body + 8)).
Proof. vm_compute. by split_and!. Qed.

Lemma sample_body_ok : slice_ok sample_body.
Proof. apply slice_ok_drop, sample_message_ok. Qed.

Lemma header_exact_witness :
  encode_header (MkHeaderFields 2 1 4294967306) = [1; 2; 1; 1; 10; 0; 0; 0]
  /\ parse_ipc_header [1; 2; 1; 1; 10; 0; 0; 0] = Ok (MkHeaderFields 2 1 4294967306).
Proof.
  split; [vm_compute; reflexivity|].
  apply (proj2 (header_exact [1; 2; 1; 1; 10; 0; 0; 0] (MkHeaderFields 2 1 4294967306)
    ltac:(repeat (constructor; [unfold is_byte; lia|]); constructor))).
  split; [vm_compute; reflexivity|]. vm_compute. repeat split; discriminate.
Defined.

Lemma length_field_roundtrip_witness :
  parse_ipc_header [1; 0; 2; 255; 255; 255; 255; 255] = Ok (MkHeaderFields 0 2 (2 ^ 40 - 1)).
Proof.
  pose proof (length_field_roundtrip 0 2 (2 ^ 40 - 1) ltac:(lia) ltac:(lia) ltac:(lia)) as H.
  exact (proj2 H).
Defined.

(** Two literals and a back-reference of eight bytes. *)
Definition small_compressed : list Z := [18; 0; 0; 0; 4; 7; 7; 0; 6].

Lemma small_compressed_ok : slice_ok small_compressed /\ slice_ok (replicate 10 7).
Proof.
  split; (split; [repeat (constructor; [unfold is_byte; lia|]); constructor|vm_compute; discriminate]).
Qed.

Lemma prepare_complete_witness :
  @prepare_ipc_body unlimited (MkHeaderFields 1 1 17) (Borrowed small_compressed) (Some 18)
  = Ok (Sync, Owned (replicate 10 7)).
Proof.
  refine (prepare_complete 1 1 small_compressed (replicate 10 7) (Some 18) Sync
    _ (proj1 small_compressed_ok) _ _ (proj2 small_compressed_ok) _ _ _ _); try lia;
    try (vm_compute; discriminate).
  - reflexivity.
  - intros limit [= <-]. vm_compute. discriminate.
  - vm_compute. reflexivity.
Defined.

Lemma prepare_sound_witness :
  returns (@prepare_ipc_body exhausted (MkHeaderFields 1 1 18) (Borrowed [255; 0; 0; 0; 1; 7; 9; 9; 9; 9]) (Some 100)).
Proof.
  refine (proj1 (@prepare_sound exhausted (MkHeaderFields 1 1 18) [255; 0; 0; 0; 1; 7; 9; 9; 9; 9] (Some 100) _ _)).
  - split; [repeat (constructor; [unfold is_byte; lia|]); constructor|vm_compute; discriminate].
  - vm_compute. repeat split; discriminate.
Defined.

Lemma compression_transparent_witness :
  len sample_compressed < 200
  /\ @deserialize_ipc_frame unlimited _ raw_codec sample_compressed Strict Native
     = Ok (Sync, sample_body).
Proof.
  split; [reflexivity|].
  rewrite (@compression_transparent unlimited _ raw_codec 1 sample_body sample_compressed Strict Native
    sample_header_wf sample_message_ok sample_compresses).
  vm_compute. reflexivity.
Defined.
