(* ===== verification/ListScan.v ===== *)
(** * ListScan: the resumable scan for the end of a list
    ([ListScan] of [crates/xqdb/src/serde6.rs])

    The scan looks at the prefix of the body delivered so far and keeps its state
    between calls, so a table can be walked column by column while the rest of the
    frame is in flight. *)

From stdpp Require Import prelude strings.
From S2P Require Import Prelude Errors Types Compress.

Inductive ScanOutcome : Type :=
| Complete (end_position : Z)
| Incomplete.

Record ListScan : Type := MkListScan {
  ls_k_type : Z;
  ls_pos : Z;
  ls_rows_left : option Z;
  ls_child_type : option Z;
  ls_child_symbols_left : Z
}.

Definition set_pos (s : ListScan) (pos : Z) : ListScan :=
  MkListScan (ls_k_type s) pos (ls_rows_left s) (ls_child_type s) (ls_child_symbols_left s).
Definition set_rows_left (s : ListScan) (rows : Z) : ListScan :=
  MkListScan (ls_k_type s) (ls_pos s) (Some rows) (ls_child_type s) (ls_child_symbols_left s).
Definition set_child_type (s : ListScan) (t : Z) : ListScan :=
  MkListScan (ls_k_type s) (ls_pos s) (ls_rows_left s) (Some t) (ls_child_symbols_left s).
Definition set_child_symbols_left (s : ListScan) (n : Z) : ListScan :=
  MkListScan (ls_k_type s) (ls_pos s) (ls_rows_left s) (ls_child_type s) n.

(** [take_list_length]: the count of a list header and the position after it. *)
Definition take_list_length (bytes : list Z) (pos : Z) (context : string) : res (Z * Z) :=
  stop ← ok_or (checked_add pos 5)
    (DeserializationErr (context +:+ " header offset overflowed"));
  header ← ok_or (get_range bytes pos stop)
    (DeserializationErr (context +:+ " header omitted its 5 byte(s)"));
  raw ← or_panic (get_range header 1 5);
  length ← ok_or (try_usize (i32_from_le raw))
    (DeserializationErr (context +:+ " length cannot be negative"));
  Ok (length, stop).

Definition ListScan_new (k_type start_pos : Z) : res ListScan :=
  fixed_width ← (if between 1 k_type 19 then
                   w ← k_type_size k_type; Ok (0 <? w)
                 else Ok false);
  if negb ((k_type =? 0) || (k_type =? 11) || fixed_width) then Err (NotSupportedKListErr k_type)
  else Ok (MkListScan k_type start_pos None None 0).

Definition incomplete_or_overrun (needed total : Z) : res ScanOutcome :=
  if total <? needed then corrupt "q list header extends beyond its frame"
  else Ok Incomplete.

(** [scan_symbols]: the outcome, the new position and the symbols still to come. *)
Fixpoint scan_symbols (fuel : nat) (received : list Z) (total pos rows_left : Z)
    (context : string) : res (ScanOutcome * Z * Z) :=
  match fuel with
  | O => OutOfFuel
  | S fuel =>
    if 0 <? rows_left then
      tail ← or_panic (get_from received pos);
      match find_nul tail with
      | Some terminator =>
        scan_symbols fuel received total (pos + (terminator + 1)) (rows_left - 1) context
      | None =>
        if len received <? total then Ok (Incomplete, pos, rows_left)
        else corrupt (context +:+ " is not NUL-terminated")
      end
    else Ok (Complete pos, pos, rows_left)
  end.

(** Every round that continues moves the cursor forward in [received]. *)
Definition scan_fuel (received : list Z) : nat := S (S (length received)).

(** The types a nested list may hold. *)
Definition nested_child_type (k_type : Z) : bool :=
  bool_decide (k_type ∈ [1; 4; 5; 6; 7; 8; 9; 10; 11; 12]).

(** One nested element: whether its payload has arrived, the rows left after it
    (the loop's local count), and the state. *)
Definition nested_element (received : list Z) (total rows_left : Z) (s : ListScan)
    : res (bool * Z * ListScan) :=
  current_k_type ← or_panic (get_at received (ls_pos s));
  '(child_type, s) ←
    match ls_child_type s with
    | Some child_type => Ok (child_type, s)
    | None =>
      if negb (nested_child_type current_k_type) then
        Err (NotSupportedKNestedListErr current_k_type)
      else Ok (current_k_type, set_child_type s current_k_type)
    end;
  if negb (current_k_type =? child_type) && negb (current_k_type =? 0) then
    Err (NotSupportedKMixedListErr child_type current_k_type)
  else
    '(sub_length, pos) ← take_list_length received (ls_pos s + 1) "q nested-list element";
    let s := set_pos s pos in
    if current_k_type =? 0 then
      if negb (sub_length =? 0) then Err (NotSupportedKMixedListErr child_type current_k_type)
      else Ok (true, rows_left - 1, s)
    else if current_k_type =? 11 then
      if sub_length =? 0 then Ok (true, rows_left - 1, s)
      else Ok (true, rows_left, set_child_symbols_left s sub_length)
    else
      width ← k_type_size current_k_type;
      payload_length ← ok_or (checked_mul sub_length width)
        (DeserializationErr "q nested-list payload length overflowed");
      stop ← ok_or (checked_add (ls_pos s) payload_length)
        (DeserializationErr "q nested-list payload offset overflowed");
      if total <? stop then
        corrupt ("q nested-list payload length " +:+ show payload_length
                 +:+ " exceeds the available bytes")
      else Ok (stop <=? len received, rows_left - 1, set_pos s stop).

Definition scan_end (received : list Z) (s : ListScan) : ScanOutcome :=
  if ls_pos s <=? len received then Complete (ls_pos s) else Incomplete.

(** One round of [while rows_left > 0] in [advance_nested]. *)
Inductive Round : Type :=
| Continue (rows_left : Z) (s : ListScan)
| Stop (outcome : ScanOutcome) (s : ListScan).

Definition nested_round (received : list Z) (total rows_left : Z) (s : ListScan) : res Round :=
  if 0 <? rows_left then
    if 0 <? ls_child_symbols_left s then
      '(outcome, symbols_left) ← scan_symbols (scan_fuel received) received total (ls_pos s)
                                   (ls_child_symbols_left s) "q nested symbol";
      let s := set_child_symbols_left (set_pos s outcome.2) symbols_left in
      match outcome.1 with
      | Incomplete => Ok (Stop Incomplete (set_rows_left s rows_left))
      | Complete _ => Ok (Continue (rows_left - 1) s)
      end
    else
      let header_end := saturating_add (ls_pos s) 6 in
      if len received <? header_end then
        outcome ← incomplete_or_overrun header_end total;
        Ok (Stop outcome (set_rows_left s rows_left))
      else
        '(step, s) ← nested_element received total rows_left s;
        if (step.1 : bool) then Ok (Continue step.2 s)
        else Ok (Stop Incomplete (set_rows_left s step.2))
  else Ok (Stop (scan_end received s) (set_rows_left s 0)).

Fixpoint advance_nested (fuel : nat) (received : list Z) (total rows_left : Z) (s : ListScan)
    : res (ScanOutcome * ListScan) :=
  match fuel with
  | O => OutOfFuel
  | S fuel =>
    round ← nested_round received total rows_left s;
    match round with
    | Continue rows_left s => advance_nested fuel received total rows_left s
    | Stop outcome s => Ok (outcome, s)
    end
  end.

(** The header of the list itself; [None] when it has not arrived. *)
Definition scan_header (received : list Z) (total : Z) (s : ListScan) : res (option ListScan) :=
  match ls_rows_left s with
  | Some _ => Ok (Some s)
  | None =>
    let header_end := saturating_add (ls_pos s) 5 in
    if len received <? header_end then
      _ ← incomplete_or_overrun header_end total; Ok None
    else
      '(rows, pos) ← take_list_length received (ls_pos s) "q list";
      let s := set_pos s pos in
      if (ls_k_type s =? 0) || (ls_k_type s =? 11) then Ok (Some (set_rows_left s rows))
      else
        width ← k_type_size (ls_k_type s);
        payload_length ← ok_or (checked_mul rows width)
          (DeserializationErr "q typed-list payload length overflowed");
        pos ← ok_or (checked_add (ls_pos s) payload_length)
          (DeserializationErr "q typed-list payload offset overflowed");
        if total <? pos then
          corrupt ("q typed-list payload length " +:+ show payload_length
                   +:+ " exceeds the available bytes")
        else Ok (Some (set_rows_left (set_pos s pos) 0))
  end.

Definition advance (received : list Z) (total : Z) (s : ListScan) : res (ScanOutcome * ListScan) :=
  header ← scan_header received total s;
  match header with
  | None => Ok (Incomplete, s)
  | Some s =>
    if ls_k_type s =? 11 then
      '(outcome, symbols_left) ← scan_symbols (scan_fuel received) received total (ls_pos s)
                           (default 0 (ls_rows_left s)) "q symbol-list value";
      Ok (outcome.1, set_rows_left (set_pos s outcome.2) symbols_left)
    else if ls_k_type s =? 0 then
      advance_nested (scan_fuel received) received total (default 0 (ls_rows_left s)) s
    else Ok (scan_end received s, s)
  end.

Definition calculate_array_end_index (vec : list Z) (start_pos k_type : Z) : res Z :=
  s ← ListScan_new k_type start_pos;
  '(outcome, _) ← advance vec (len vec) s;
  match outcome with
  | Complete stop => Ok stop
  | Incomplete => corrupt "q list ends before its declared length"
  end.
