(* ===== verification/ListScanFacts.v ===== *)
(** * ListScanFacts: scanning in pieces is scanning at once

    Resuming a scan when more bytes have arrived gives the outcome the scan would
    have had on those bytes from the start; the scan never reads past what has
    arrived, and its loops stop. *)

From stdpp Require Import prelude strings.
From Stdlib Require Import ZArith Lia ZifyBool.
From S2P Require Import Prelude Errors Types Compress ListScan.

(** ** Prefixes *)

Lemma get_range_prefix {A} (p b x : list A) i j :
  p `prefix_of` b -> get_range p i j = Some x -> get_range b i j = Some x.
Proof.
  intros [r ->] (pre & post & -> & -> & ->)%get_range_Some. apply get_range_Some.
  exists pre, (post ++ r). by rewrite <- !app_assoc.
Qed.

Lemma get_at_prefix {A} (p b : list A) i v :
  p `prefix_of` b -> get_at p i = Some v -> get_at b i = Some v.
Proof.
  intros [r ->] H. pose proof (get_at_bounds _ _ _ H). by rewrite get_at_app_l by lia.
Qed.

Lemma get_from_prefix {A} (p b tail : list A) i :
  p `prefix_of` b -> get_from p i = Some tail -> exists r, get_from b i = Some (tail ++ r) /\ b = p ++ r.
Proof.
  intros [r ->] H. exists r. split; [|done]. unfold get_from in *.
  apply get_range_Some in H as (pre & post & E & -> & El).
  assert (post = []) as ->. { apply (f_equal length) in E. rewrite !length_app in E. destruct post; [done|simpl in *; lia]. }
  rewrite app_nil_r in E. apply get_range_Some. exists pre, [].
  rewrite E, app_nil_r, !length_app, <- app_assoc. split_and!; [done..|lia].
Qed.

Lemma find_nul_prefix tail r n : find_nul tail = Some n -> find_nul (tail ++ r) = Some n.
Proof.
  intros (name & rest & -> & -> & H)%find_nul_Some. rewrite <- app_assoc. by apply find_nul_app.
Qed.

Lemma prefix_length_le {A} (p b : list A) : p `prefix_of` b -> len p <= len b.
Proof. intros [r ->]. rewrite length_app. lia. Qed.

Lemma prefix_full {A} (p b : list A) : p `prefix_of` b -> len b <= len p -> p = b.
Proof. intros [r ->] H. rewrite length_app in H. destruct r; [by rewrite app_nil_r|simpl in H; lia]. Qed.

Lemma slice_ok_prefix p b : p `prefix_of` b -> slice_ok b -> slice_ok p.
Proof.
  intros [r ->] [Hb Hl]. apply Forall_app in Hb as [? _]. rewrite length_app in Hl. split; [done|lia].
Qed.

(** ** Symbols *)

Section Scan.
  Context (total : Z).
  Hypothesis total_small : total <= isize_max.

(** What a symbol scan over [received] leaves behind. *)
Definition symbols_scanned (received : list Z) (pos rows : Z) (r : ScanOutcome * Z * Z) : Prop :=
  match r with
  | (Complete e, q, l) => e = q /\ l = 0 /\ pos <= q <= len received /\ (0 < rows -> pos < q)
  | (Incomplete, q, l) => pos <= q <= len received /\ 0 < l <= rows /\ len received < total
  end.

Lemma get_from_Some {A} (l : list A) i : 0 <= i <= len l -> exists t, get_from l i = Some t /\ len t = len l - i.
Proof. intros. unfold get_from. apply get_range_is_Some; lia. Qed.

Lemma find_nul_bound l n : find_nul l = Some n -> 0 <= n < len l.
Proof. intros (name & rest & -> & -> & _)%find_nul_Some. rewrite length_app. simpl. lia. Qed.

Lemma scan_symbols_S fuel received pos rows c :
  scan_symbols (S fuel) received total pos rows c =
  if 0 <? rows then
    tail ← or_panic (get_from received pos);
    match find_nul tail with
    | Some terminator =>
      scan_symbols fuel received total (pos + (terminator + 1)) (rows - 1) c
    | None =>
      if len received <? total then Ok (Incomplete, pos, rows)
      else corrupt (c +:+ " is not NUL-terminated")
    end
  else Ok (Complete pos, pos, rows).
Proof. done. Qed.

Lemma scan_symbols_ok fuel received pos rows c :
  0 <= pos <= len received -> 0 <= rows -> len received - pos < Z.of_nat fuel ->
  ok_with (scan_symbols fuel received total pos rows c) (symbols_scanned received pos rows).
Proof.
  revert pos rows. induction fuel as [|fuel IH]; intros pos rows Hp Hr Hf; [lia|].
  cbn [scan_symbols]. destruct (Z.ltb_spec 0 rows) as [Hlt|Hge].
  2: { apply ok_with_ret. simpl. split_and!; lia. }
  destruct (get_from_Some received pos Hp) as (tail & -> & Ht). cbn [or_panic mbind outcome_bind].
  destruct (find_nul tail) as [n|] eqn:E.
  - apply find_nul_bound in E. eapply ok_with_weaken; [apply IH; lia|].
    intros [[[e|] q] l]; simpl; lia.
  - destruct (Z.ltb_spec (len received) total); [|done]. apply ok_with_ret. simpl. split_and!; lia.
Qed.

Lemma scan_symbols_fuel f g received pos rows c :
  0 <= pos <= len received -> len received - pos < Z.of_nat f -> len received - pos < Z.of_nat g ->
  scan_symbols f received total pos rows c = scan_symbols g received total pos rows c.
Proof.
  revert g pos rows. induction f as [|f IH]; intros [|g] pos rows Hp Hf Hg; [lia..|].
  cbn [scan_symbols]. destruct (0 <? rows); [|done].
  destruct (get_from_Some received pos Hp) as (tail & -> & Ht). cbn [or_panic mbind outcome_bind].
  destruct (find_nul tail) as [n|] eqn:E; [|done]. apply find_nul_bound in E. apply IH; lia.
Qed.

(** Resuming on a longer prefix [b] from where the scan of [p] stopped. *)
Definition resumes {A} (on_p : res A) (complete : A -> bool) (on_b : res A) (from : A -> res A) : Prop :=
  match on_p with
  | Ok a => if complete a then on_b = Ok a else on_b = from a
  | Err e => on_b = Err e
  | _ => False
  end.

Definition is_complete (o : ScanOutcome) : bool := match o with Complete _ => true | Incomplete => false end.

Lemma scan_symbols_resume f p b pos rows c :
  p `prefix_of` b -> len b <= total -> 0 <= pos <= len p -> 0 <= rows -> len p - pos < Z.of_nat f ->
  resumes (scan_symbols f p total pos rows c) (fun r => is_complete r.1.1)
    (scan_symbols (scan_fuel b) b total pos rows c)
    (fun r => scan_symbols (scan_fuel b) b total r.1.2 r.2 c).
Proof.
  intros Hpre Hb. pose proof (prefix_length_le _ _ Hpre) as Hle.
  revert pos rows. induction f as [|f IH]; intros pos rows Hp Hr Hf; [lia|].
  rewrite (scan_symbols_S f). destruct (Z.ltb_spec 0 rows) as [Hlt|Hge].
  2: { unfold resumes, scan_fuel. rewrite scan_symbols_S. by replace (0 <? rows) with false by lia. }
  destruct (get_from_Some p pos Hp) as (tail & Htail & Hlen).
  destruct (get_from_prefix _ _ _ _ Hpre Htail) as (r & Htail' & Eb).
  rewrite Htail. cbn [or_panic mbind outcome_bind].
  destruct (find_nul tail) as [n|] eqn:E.
  - pose proof (find_nul_bound _ _ E).
    specialize (IH (pos + (n + 1)) (rows - 1) ltac:(lia) ltac:(lia) ltac:(lia)).
    assert (scan_symbols (scan_fuel b) b total pos rows c
      = scan_symbols (scan_fuel b) b total (pos + (n + 1)) (rows - 1) c) as ->; [|exact IH].
    unfold scan_fuel at 1. rewrite (scan_symbols_S _ b). replace (0 <? rows) with true by lia.
    rewrite Htail'. cbn [or_panic mbind outcome_bind]. rewrite (find_nul_prefix _ _ _ E).
    apply scan_symbols_fuel; unfold scan_fuel; lia.
  - destruct (Z.ltb_spec (len p) total) as [Hshort|Hfull]; [done|].
    assert (p = b) as -> by (apply prefix_full; [done|lia]). unfold resumes, scan_fuel.
    rewrite scan_symbols_S. replace (0 <? rows) with true by lia.
    rewrite Htail. cbn [or_panic mbind outcome_bind]. rewrite E.
    by replace (len b <? total) with false by lia.
Qed.

#[local] Arguments scan_symbols : simpl never.
#[local] Arguments get_range : simpl never.

(** ** Nested lists *)

(** A scan past its header: the cursor is inside the frame, and inside what has
    arrived when it stands between the symbols of an element. *)
Definition scan_ok (received : list Z) (s : ListScan) : Prop :=
  0 <= ls_pos s <= total /\ 0 <= ls_child_symbols_left s
  /\ (0 < ls_child_symbols_left s -> ls_pos s <= len received)
  /\ (forall t, ls_child_type s = Some t -> nested_child_type t = true).

Lemma take_list_length_ok received pos c :
  0 <= pos -> pos + 5 <= len received -> len received <= total ->
  ok_with (take_list_length received pos c) (fun '(n, q) =>
    0 <= n /\ q = pos + 5 /\ exists x, get_range received pos (pos + 5) = Some x).
Proof.
  intros Hp Hl Ht. unfold take_list_length. rewrite checked_add_eq by bool_lia.
  cbn [ok_or mbind outcome_bind].
  destruct (get_range_is_Some received pos (pos + 5)) as (h & Hh & Hlen); [lia..|].
  rewrite Hh. cbn [ok_or mbind outcome_bind].
  destruct (get_range_is_Some h 1 5) as (raw & Hraw & _); [lia..|]. rewrite Hraw.
  cbn [or_panic mbind outcome_bind]. unfold try_usize.
  destruct (_ && _) eqn:E; [|done]. cbn [ok_or mbind outcome_bind]. apply ok_with_ret.
  split_and!; [lia|done|by exists h].
Qed.

Lemma take_list_length_prefix p b pos c r :
  p `prefix_of` b -> 0 <= pos -> pos + 5 <= len p -> len p <= total ->
  take_list_length p pos c = r -> take_list_length b pos c = r.
Proof.
  intros Hpre Hp Hl Ht <-. destruct (take_list_length_ok p pos c Hp Hl Ht) as [Hret _].
  unfold take_list_length in *. destruct (checked_add pos 5) as [stop|] eqn:E; [|done].
  cbn [ok_or mbind outcome_bind] in *.
  assert (stop = pos + 5) as ->.
  { unfold checked_add in E. destruct (_ <=? _); [|done]. by injection E. }
  destruct (get_range_is_Some p pos (pos + 5)) as (h & Hh & _); [lia..|].
  by rewrite (get_range_prefix _ _ _ _ _ Hpre Hh), Hh.
Qed.

Lemma nested_child_cases t :
  nested_child_type t = true -> t <> 0 /\ t <> 3 /\ 1 <= t <= 12.
Proof.
  intros H%bool_decide_eq_true. repeat (apply elem_of_cons in H as [->|H]; [lia|]).
  by apply not_elem_of_nil in H.
Qed.

Lemma returns_width k : 1 <= k <= 19 -> ok_with (@k_type_size XqdbError k) (fun w => 0 <= w).
Proof.
  intros. unfold k_type_size. destruct (get_at_is_Some K_TYPE_SIZE k) as [w Hw]; [simpl; lia|].
  rewrite Hw. apply ok_with_ret. apply (get_at_Forall (fun w => 0 <= w)) in Hw; [done|].
  repeat (constructor; [lia|]). constructor.
Qed.

(** One element whose header has arrived. *)
Definition element_done (received : list Z) (rows : Z) (s : ListScan) (r : bool * Z * ListScan) : Prop :=
  let '(arrived, rows', s') := r in
  ls_k_type s' = ls_k_type s /\ rows - 1 <= rows' <= rows /\ ls_pos s + 6 <= ls_pos s' <= total
  /\ 0 <= ls_child_symbols_left s'
  /\ (0 < ls_child_symbols_left s' -> ls_pos s' <= len received)
  /\ (arrived = true -> ls_pos s' <= len received)
  /\ (forall t, ls_child_type s' = Some t -> nested_child_type t = true).

Lemma nested_element_ok received rows s :
  scan_ok received s -> ls_child_symbols_left s = 0 -> ls_pos s + 6 <= len received ->
  len received <= total -> bytes_ok received ->
  ok_with (nested_element received total rows s) (element_done received rows s).
Proof.
  intros (Hpos & _ & _ & Hct) Hcs Hl Ht Hb. unfold nested_element.
  destruct (get_at_is_Some received (ls_pos s)) as [k Hk]; [lia|]. rewrite Hk.
  cbn [or_panic mbind outcome_bind].
  apply (ok_with_bind _ _ (fun '(ct, s1) => nested_child_type ct = true /\ ls_k_type s1 = ls_k_type s
    /\ ls_pos s1 = ls_pos s /\ ls_child_symbols_left s1 = 0
    /\ forall t, ls_child_type s1 = Some t -> nested_child_type t = true)).
  { destruct (ls_child_type s) as [ct|] eqn:E.
    - apply ok_with_ret. split_and!; try done; [by apply Hct|by rewrite E].
    - destruct (nested_child_type k) eqn:Ek; [|done]. apply ok_with_ret. simpl.
      split_and!; try done. by intros t [= <-]. }
  intros [ct s1] (Hc & E1 & E2 & E3 & Hct1). apply ok_with_guard. intros Hmixed.
  rewrite E2. eapply ok_with_bind; [apply take_list_length_ok; lia|].
  intros [n q] (Hn & -> & _). cbn [ls_pos set_pos].
  destruct (Z.eqb_spec k 0) as [->|Hk0].
  { apply ok_with_guard. intros _. apply ok_with_ret. simpl. split_and!; try done; try lia. }
  destruct (Z.eqb_spec k 11) as [->|Hk11].
  { destruct (Z.eqb_spec n 0); apply ok_with_ret; simpl; split_and!; try done; try lia. }
  assert (k = ct) as -> by lia. apply nested_child_cases in Hc as Hrange.
  eapply ok_with_bind; [apply returns_width; lia|]. intros w Hw.
  eapply ok_with_bind; [apply ok_with_ok_or; intros a Ha; exact Ha|]. intros pl Hpl. cbv beta in Hpl.
  unfold checked_mul in Hpl. destruct (_ <=? _); [|done]. injection Hpl as <-.
  eapply ok_with_bind; [apply ok_with_ok_or; intros a Ha; exact Ha|]. intros stop Hs. cbv beta in Hs.
  unfold checked_add in Hs. destruct (_ <=? _); [|done]. injection Hs as <-.
  apply ok_with_guard. intros Hover. apply ok_with_ret. simpl.
  split_and!; try done; try lia.
  cbv beta in Hw. nia.
Qed.

(** What a round of the loop leaves. *)
Definition round_done (received : list Z) (rows : Z) (s : ListScan) (r : Round) : Prop :=
  match r with
  | Continue rows' s' =>
    scan_ok received s' /\ 0 <= rows' /\ ls_pos s < ls_pos s' <= len received
    /\ ls_k_type s' = ls_k_type s
  | Stop Incomplete s' =>
    scan_ok received s' /\ ls_k_type s' = ls_k_type s /\ exists rows', ls_rows_left s' = Some rows' /\ 0 <= rows'
  | Stop (Complete e) s' =>
    e = ls_pos s' /\ ls_pos s <= e <= len received /\ ls_k_type s' = ls_k_type s
  end.

Lemma nested_round_ok received rows s :
  scan_ok received s -> 0 <= rows -> len received <= total -> bytes_ok received ->
  ok_with (nested_round received total rows s) (round_done received rows s).
Proof.
  intros Hs Hr Ht Hb. pose proof Hs as (Hpos & Hcs & Hcp & Hct). unfold nested_round.
  destruct (Z.ltb_spec 0 rows) as [Hlt|Hge].
  2: { apply ok_with_ret. unfold scan_end. destruct (Z.leb_spec (ls_pos s) (len received)); simpl.
       - split_and!; lia.
       - split_and!; [done|done|]. exists 0. done. }
  destruct (Z.ltb_spec 0 (ls_child_symbols_left s)) as [Hsym|Hno].
  { eapply ok_with_bind; [apply scan_symbols_ok; unfold scan_fuel; try lia; specialize (Hcp Hsym); lia|].
    intros [[[e|] q] l] Hsc; cbn [fst snd]; apply ok_with_ret; simpl in Hsc |- *;
      unfold scan_ok; simpl; split_and!; try done; try lia.
    exists rows. split; [done|lia]. }
  unfold saturating_add. destruct (Z.ltb_spec (len received) (Z.min (ls_pos s + 6) usize_max)) as [|Hl].
  { unfold incomplete_or_overrun. destruct (_ <? _); [done|]. apply ok_with_ret. simpl.
    split_and!; [done|done|]. exists rows. done. }
  eapply ok_with_bind; [apply nested_element_ok; try done; bool_lia|].
  intros [[arrived rows'] s'] (E1 & Hr' & Hp' & Hc' & Hcp' & Harr & Hct'). cbn [fst snd].
  destruct arrived; apply ok_with_ret; simpl.
  - specialize (Harr eq_refl). unfold scan_ok. split_and!; try done; lia.
  - unfold scan_ok. simpl. split_and!; try done; try lia. exists rows'. split; [done|lia].
Qed.

(** The rounds never read the [rows_left] field: the loop keeps a local count. *)
Definition with_rows (r : Z) (round : Round) : Round :=
  match round with Continue rows s => Continue rows (set_rows_left s r) | Stop o s => Stop o s end.

Lemma set_rows_left_twice s r r' : set_rows_left (set_rows_left s r) r' = set_rows_left s r'.
Proof. done. Qed.

Lemma nested_element_rows received rows s r :
  nested_element received total rows (set_rows_left s r)
  = (x ← nested_element received total rows s; Ok (x.1, set_rows_left x.2 r)).
Proof.
  unfold nested_element. destruct (get_at received _) as [k|] eqn:E; simpl in E; [|done].
  simpl. destruct (ls_child_type s) as [ct|]; simpl.
  2: destruct (negb (nested_child_type k)); [done|]; simpl.
  all: destruct (negb (k =? _) && _); [done|].
  all: destruct (take_list_length _ _ _) as [[n q]| | |]; simpl; try done.
  all: destruct (k =? 0); [by destruct (negb _)|].
  all: destruct (k =? 11); [by destruct (n =? 0)|].
  all: destruct (k_type_size k); simpl; try done.
  all: destruct (checked_mul _ _); simpl; try done.
  all: destruct (checked_add _ _); simpl; try done.
  all: by destruct (total <? _).
Qed.

Lemma nested_round_rows received rows s r :
  nested_round received total rows (set_rows_left s r)
  = (x ← nested_round received total rows s; Ok (with_rows r x)).
Proof.
  unfold nested_round. destruct (0 <? rows); [|done]. simpl.
  destruct (0 <? ls_child_symbols_left s).
  - destruct (scan_symbols _ _ _ _ _ _) as [[[[e|] q] l]| | |]; done.
  - destruct (len received <? _); [by destruct (incomplete_or_overrun _ _)|].
    rewrite nested_element_rows.
    destruct (nested_element _ _ _ _) as [[[[] rows'] s']| | |]; done.
Qed.

Lemma advance_nested_rows fuel received rows s r :
  advance_nested fuel received total rows (set_rows_left s r)
  = advance_nested fuel received total rows s.
Proof.
  revert rows s. induction fuel as [|fuel IH]; intros rows s; [done|].
  cbn [advance_nested]. rewrite nested_round_rows.
  destruct (nested_round _ _ _ _) as [[rows' s'|o s']| | |]; simpl; try done.
Qed.

Lemma advance_nested_ok fuel received rows s :
  scan_ok received s -> 0 <= rows -> len received <= total -> bytes_ok received ->
  Z.max 0 (len received - ls_pos s) < Z.of_nat fuel ->
  ok_with (advance_nested fuel received total rows s) (fun '(o, s') =>
    ls_k_type s' = ls_k_type s /\
    match o with
    | Complete e => e = ls_pos s' /\ ls_pos s <= e <= len received
    | Incomplete => scan_ok received s' /\ exists rows', ls_rows_left s' = Some rows' /\ 0 <= rows'
    end).
Proof.
  revert rows s. induction fuel as [|fuel IH]; intros rows s Hs Hr Ht Hb Hf; [lia|].
  cbn [advance_nested]. eapply ok_with_bind; [by apply nested_round_ok|].
  intros [rows' s'|[e|] s']; cbn [round_done].
  - intros (Hs' & Hr' & Hp & Ek). eapply ok_with_weaken; [apply IH; try done; lia|].
    intros [[e|] s''] [E H]; (split; [congruence|]); [split_and!; lia|done].
  - intros (-> & Hl & Ek). apply ok_with_ret. done.
  - intros (Hs' & Ek & Hrows). apply ok_with_ret. done.
Qed.

Lemma advance_nested_fuel f g received rows s :
  scan_ok received s -> 0 <= rows -> len received <= total -> bytes_ok received ->
  Z.max 0 (len received - ls_pos s) < Z.of_nat f -> Z.max 0 (len received - ls_pos s) < Z.of_nat g ->
  advance_nested f received total rows s = advance_nested g received total rows s.
Proof.
  revert g rows s. induction f as [|f IH]; intros [|g] rows s Hs Hr Ht Hb Hf Hg; [lia..|].
  cbn [advance_nested].
  destruct (nested_round_ok received rows s Hs Hr Ht Hb) as [_ Hdone].
  destruct (nested_round _ _ _ _) as [[rows' s'|o s']| | |]; try done.
  destruct (Hdone _ eq_refl) as (Hs' & Hr' & Hp & _). apply IH; try done; lia.
Qed.

Lemma advance_nested_S fuel received rows s :
  advance_nested (S fuel) received total rows s =
  (round ← nested_round received total rows s;
   match round with
   | Continue rows s => advance_nested fuel received total rows s
   | Stop o s => Ok (o, s)
   end).
Proof. done. Qed.

Lemma advance_nested_unfold received rows s :
  scan_ok received s -> 0 <= rows -> len received <= total -> bytes_ok received ->
  advance_nested (scan_fuel received) received total rows s =
  (round ← nested_round received total rows s;
   match round with
   | Continue rows s => advance_nested (scan_fuel received) received total rows s
   | Stop o s => Ok (o, s)
   end).
Proof.
  intros Hs Hr Ht Hb. unfold scan_fuel at 1. rewrite advance_nested_S.
  destruct (nested_round_ok received rows s Hs Hr Ht Hb) as [_ Hdone].
  destruct (nested_round _ _ _ _) as [[rows' s'|o s']| | |]; try done. cbn [mbind outcome_bind].
  destruct (Hdone _ eq_refl) as (Hs' & Hr' & Hp & _). destruct Hs as ((? & ?) & _).
  apply advance_nested_fuel; unfold scan_fuel; try done; lia.
Qed.

(** ** Resuming *)

  Context (body : list Z).
  Hypothesis body_total : len body = total.
  Hypothesis body_ok : slice_ok body.

(** The whole run on the body. *)
Abbreviation on_body rows s := (advance_nested (scan_fuel body) body total rows s).

Lemma nested_element_resume p rows s :
  p `prefix_of` body -> scan_ok p s -> ls_child_symbols_left s = 0 -> ls_pos s + 6 <= len p ->
  match nested_element p total rows s with
  | Ok (arrived, rows', s') =>
    nested_element body total rows s = Ok (true, rows', s')
  | Err e => nested_element body total rows s = Err e
  | _ => False
  end.
Proof.
  intros Hpre Hs Hc Hl. pose proof (prefix_length_le _ _ Hpre) as Hle.
  assert (bytes_ok p) as Hb by (by apply (slice_ok_prefix p body)).
  destruct (nested_element_ok p rows s Hs Hc Hl ltac:(lia) Hb) as [Hret _].
  destruct Hs as (Hpos & _).
  destruct (get_at_is_Some p (ls_pos s)) as [k Hk]; [lia|].
  pose proof (get_at_prefix _ _ _ _ Hpre Hk) as Hk'.
  unfold nested_element in *. rewrite Hk in Hret |- *. rewrite Hk'.
  cbn [or_panic mbind outcome_bind] in *.
  assert (forall r, take_list_length p (ls_pos s + 1) "q nested-list element" = r ->
    take_list_length body (ls_pos s + 1) "q nested-list element" = r) as Htake
    by (intros r; apply take_list_length_prefix; try done; lia).
  set (m := match ls_child_type s with Some _ => _ | None => _ end) in *.
  assert (forall ct s1, m = Ok (ct, s1) -> ls_pos s1 = ls_pos s) as Hm.
  { intros ct s1. unfold m. destruct (ls_child_type s); [by intros [= <- <-]|].
    destruct (negb _); [done|]. by intros [= <- <-]. }
  destruct m as [[ct s1]| | |]; cbn [mbind outcome_bind] in *; try done.
  destruct (negb (k =? ct) && _); [done|]. rewrite (Hm ct s1 eq_refl) in *.
  rewrite (Htake _ eq_refl).
  destruct (take_list_length p _ _) as [[n q]| | |]; cbn [mbind outcome_bind] in *; try done.
  destruct (k =? 0); [by destruct (negb (n =? 0))|].
  destruct (k =? 11); [by destruct (n =? 0)|].
  destruct (k_type_size k); cbn [mbind outcome_bind] in *; try done.
  destruct (checked_mul _ _) as [pl|]; cbn [ok_or mbind outcome_bind] in *; try done.
  destruct (checked_add _ _) as [stop|]; cbn [ok_or mbind outcome_bind] in *; try done.
  destruct (Z.ltb_spec total stop); [done|]. by replace (stop <=? len body) with true by lia.
Qed.

Lemma scan_ok_body p s : p `prefix_of` body -> scan_ok p s -> scan_ok body s.
Proof.
  intros Hpre (H1 & H2 & Hc & H4). pose proof (prefix_length_le _ _ Hpre).
  unfold scan_ok. split_and!; try done; lia.
Qed.

Lemma on_body_unfold rows s :
  scan_ok body s -> 0 <= rows ->
  on_body rows s = (round ← nested_round body total rows s;
                    match round with Continue rows s => on_body rows s | Stop o s => Ok (o, s) end).
Proof. intros Hs Hr. apply advance_nested_unfold; try done; [lia|apply body_ok]. Qed.

(** One round on the delivered prefix against the run on the body. *)
Lemma round_resume p rows s :
  p `prefix_of` body -> scan_ok p s -> 0 <= rows ->
  match nested_round p total rows s with
  | Ok (Continue rows' s') => on_body rows s = on_body rows' s'
  | Ok (Stop (Complete e) s') => on_body rows s = Ok (Complete e, s')
  | Ok (Stop Incomplete s') => on_body rows s = on_body (default 0 (ls_rows_left s')) s'
  | Err e => on_body rows s = Err e
  | _ => False
  end.
Proof.
  intros Hpre Hs Hr. pose proof (prefix_length_le _ _ Hpre) as Hle.
  pose proof (slice_ok_prefix _ _ Hpre body_ok) as [Hb _].
  destruct (nested_round_ok p rows s Hs Hr ltac:(lia) Hb) as [Hret Hdone].
  pose proof (scan_ok_body p s Hpre Hs) as Hsb. pose proof Hs as (Hpos & Hcs & Hcp & _).
  assert (forall r, on_body rows (set_rows_left s r) = on_body rows s) as Hrows
    by (intros; apply advance_nested_rows).
  unfold nested_round in Hret, Hdone |- *. destruct (Z.ltb_spec 0 rows) as [Hlt|Hge].
  2: { assert (rows = 0) as -> by lia. unfold scan_end in *.
       destruct (Z.leb_spec (ls_pos s) (len p)); [|by rewrite <- (Hrows 0)].
       rewrite on_body_unfold by done. unfold nested_round, scan_end. simpl.
       by replace (ls_pos s <=? len body) with true by lia. }
  destruct (Z.ltb_spec 0 (ls_child_symbols_left s)) as [Hsym|Hno].
  - specialize (Hcp Hsym).
    pose proof (scan_symbols_resume (scan_fuel p) p body (ls_pos s) (ls_child_symbols_left s)
      "q nested symbol" Hpre ltac:(lia) ltac:(lia) ltac:(lia) ltac:(unfold scan_fuel; lia)) as Hres.
    pose proof (proj2 (scan_symbols_ok (scan_fuel p) p (ls_pos s) (ls_child_symbols_left s)
      "q nested symbol" ltac:(lia) ltac:(lia) ltac:(unfold scan_fuel; lia))) as Hsc.
    assert (on_body rows s =
      ('(o, l) ← scan_symbols (scan_fuel body) body total (ls_pos s) (ls_child_symbols_left s)
                   "q nested symbol";
       match o.1 with
       | Incomplete => Ok (Incomplete, set_rows_left (set_child_symbols_left (set_pos s o.2) l) rows)
       | Complete _ => on_body (rows - 1) (set_child_symbols_left (set_pos s o.2) l)
       end)) as ->.
    { rewrite on_body_unfold by done. unfold nested_round.
      replace (0 <? rows) with true by lia. replace (0 <? ls_child_symbols_left s) with true by lia.
      by destruct (scan_symbols (scan_fuel body) body total (ls_pos s) (ls_child_symbols_left s) _)
        as [[[[e|] q] l]| | |]. }
    destruct (scan_symbols (scan_fuel p) _ _ _ _ _) as [[[[e|] q] l]| | |]; try done.
    + unfold resumes in Hres. simpl in Hres. by rewrite Hres.
    + unfold resumes in Hres. cbn [is_complete fst snd] in Hres. rewrite Hres.
      cbn [mbind outcome_bind fst snd default set_rows_left ls_rows_left] in *.
      specialize (Hdone _ eq_refl) as (Hok & _).
      rewrite (on_body_unfold rows (set_rows_left _ rows)) by (done || by apply (scan_ok_body p)).
      unfold nested_round. replace (0 <? rows) with true by lia.
      cbn [set_rows_left set_child_symbols_left set_pos ls_child_symbols_left ls_pos].
      specialize (Hsc _ eq_refl). simpl in Hsc.
      replace (0 <? l) with true by lia.
      destruct (scan_symbols (scan_fuel body) body total q l _) as [[[[e|] q'] l']| | |]; try done.
      symmetry. apply (advance_nested_rows _ _ _ (set_child_symbols_left (set_pos s q') l')).
    + unfold resumes in Hres. by rewrite Hres.
  - unfold saturating_add in *.
    destruct (Z.ltb_spec (len p) (Z.min (ls_pos s + 6) usize_max)) as [Hshort|Hlong].
    + unfold incomplete_or_overrun in *.
      destruct (Z.ltb_spec total (Z.min (ls_pos s + 6) usize_max)) as [Hover|];
        [|by rewrite <- (Hrows rows)].
      rewrite on_body_unfold by done. unfold nested_round, saturating_add, incomplete_or_overrun.
      replace (0 <? rows) with true by lia. replace (0 <? ls_child_symbols_left s) with false by lia.
      replace (len body <? _) with true by lia. by replace (total <? _) with true by lia.
    + pose proof (nested_element_resume p rows s Hpre Hs ltac:(lia) ltac:(bool_lia)) as Hel.
      assert (on_body rows s =
        ('(step, s) ← nested_element body total rows s;
         if step.1 : bool then on_body step.2 s else Ok (Incomplete, set_rows_left s step.2))) as ->.
      { rewrite on_body_unfold by done. unfold nested_round, saturating_add.
        replace (0 <? rows) with true by lia. replace (0 <? ls_child_symbols_left s) with false by lia.
        replace (len body <? _) with false by lia.
        by destruct (nested_element body total rows s) as [[[[] ?] ?]| | |]. }
      destruct (nested_element p _ _ _) as [[[arrived rows'] s']| | |]; try done;
        [|by rewrite Hel].
      rewrite Hel. destruct arrived; [done|].
      cbn [mbind outcome_bind fst snd default set_rows_left ls_rows_left].
      symmetry. apply advance_nested_rows.
Qed.

Lemma nested_resume f p rows s :
  p `prefix_of` body -> scan_ok p s -> 0 <= rows -> Z.max 0 (len p - ls_pos s) < Z.of_nat f ->
  resumes (advance_nested f p total rows s) (fun r => is_complete r.1)
    (on_body rows s) (fun r => on_body (default 0 (ls_rows_left r.2)) r.2).
Proof.
  intros Hpre. pose proof (prefix_length_le _ _ Hpre) as Hle.
  pose proof (slice_ok_prefix _ _ Hpre body_ok) as [Hb _].
  revert rows s. induction f as [|f IH]; intros rows s Hs Hr Hf; [lia|].
  rewrite advance_nested_S. pose proof (round_resume p rows s Hpre Hs Hr) as Hround.
  destruct (nested_round_ok p rows s Hs Hr ltac:(lia) Hb) as [_ Hdone].
  destruct (nested_round p total rows s) as [[rows' s'|[e|] s']| | |]; try done.
  cbn [mbind outcome_bind]. rewrite Hround. destruct (Hdone _ eq_refl) as (? & ? & ? & _).
  apply IH; try done. lia.
Qed.

(** ** The scan as a whole *)

Definition scan_type (k : Z) : Prop := k = 0 \/ (1 <= k <= 19 /\ k <> 3).

(** A scan the code can hold after looking at [received]. *)
Definition scan_valid (received : list Z) (s : ListScan) : Prop :=
  scan_type (ls_k_type s)
  /\ match ls_rows_left s with
     | None => 0 <= ls_pos s /\ ls_child_type s = None /\ ls_child_symbols_left s = 0
     | Some rows => 0 <= rows /\ scan_ok received s /\ (ls_k_type s = 11 -> ls_pos s <= len received)
     end.

(** The match of [advance] once the header is known. *)
Definition scan_rest (received : list Z) (s : ListScan) : res (ScanOutcome * ListScan) :=
  if ls_k_type s =? 11 then
    '(outcome, symbols_left) ← scan_symbols (scan_fuel received) received total (ls_pos s)
                                 (default 0 (ls_rows_left s)) "q symbol-list value";
    Ok (outcome.1, set_rows_left (set_pos s outcome.2) symbols_left)
  else if ls_k_type s =? 0 then
    advance_nested (scan_fuel received) received total (default 0 (ls_rows_left s)) s
  else Ok (scan_end received s, s).

Lemma advance_rest received rows s :
  ls_rows_left s = Some rows -> advance received total s = scan_rest received s.
Proof. intros H. unfold advance, scan_header. by rewrite H. Qed.

Lemma rest_resume p rows s :
  p `prefix_of` body -> scan_valid p s -> ls_rows_left s = Some rows ->
  resumes (scan_rest p s) (fun r => is_complete r.1)
    (scan_rest body s) (fun r => advance body total r.2)
  /\ forall s', scan_rest p s = Ok (Incomplete, s') -> scan_valid p s'.
Proof.
  intros Hpre [Ht Hv] Er. rewrite Er in Hv. destruct Hv as (Hr & Hok & H11).
  pose proof (prefix_length_le _ _ Hpre) as Hle.
  pose proof (slice_ok_prefix _ _ Hpre body_ok) as [Hb _]. pose proof Hok as (Hpos & _).
  unfold scan_rest. rewrite Er. cbn [default from_option id]. destruct (Z.eqb_spec (ls_k_type s) 11) as [Ek|].
  { specialize (H11 Ek).
    pose proof (scan_symbols_resume (scan_fuel p) p body (ls_pos s) rows "q symbol-list value"
      Hpre ltac:(lia) ltac:(lia) Hr ltac:(unfold scan_fuel; lia)) as Hres.
    pose proof (proj2 (scan_symbols_ok (scan_fuel p) p (ls_pos s) rows "q symbol-list value"
      ltac:(lia) Hr ltac:(unfold scan_fuel; lia))) as Hsc.
    destruct (scan_symbols (scan_fuel p) _ _ _ _ _) as [[[[e|] q] l]| | |]; try done;
      unfold resumes in Hres |- *; cbn [is_complete fst snd mbind outcome_bind] in *.
    - split; [by rewrite Hres|done].
    - specialize (Hsc _ eq_refl). simpl in Hsc. split.
      + rewrite (advance_rest _ l) by done. unfold scan_rest. simpl ls_k_type.
        rewrite Ek, Hres. simpl.
        by destruct (scan_symbols (scan_fuel body) body total q l _) as [[[[e|] q'] l']| | |].
      + intros s' [= <-]. unfold scan_valid, scan_ok in *. simpl. naive_solver lia.
    - split; [by rewrite Hres|done]. }
  destruct (Z.eqb_spec (ls_k_type s) 0) as [Ek|].
  { pose proof (nested_resume (scan_fuel p) p rows s Hpre Hok Hr ltac:(unfold scan_fuel; lia)) as Hres.
    pose proof (proj2 (advance_nested_ok (scan_fuel p) p rows s Hok Hr ltac:(lia) Hb
      ltac:(unfold scan_fuel; lia))) as Hdone.
    destruct (advance_nested (scan_fuel p) _ _ _ _) as [[[e|] s']| | |]; try done;
      unfold resumes in Hres |- *; cbn [is_complete fst snd] in *.
    specialize (Hdone _ eq_refl) as (Ek' & Hok' & rows' & Er' & Hr'). split.
    - rewrite Hres, (advance_rest _ rows') by done. unfold scan_rest.
      by rewrite Er', Ek', Ek.
    - intros s'' [= <-]. unfold scan_valid. rewrite Er', Ek'. by split_and!. }
  unfold resumes, scan_end. destruct (Z.leb_spec (ls_pos s) (len p)); cbn [is_complete fst].
  - by replace (ls_pos s <=? len body) with true by lia.
  - split.
    + cbn [snd]. rewrite (advance_rest _ rows) by done. unfold scan_rest, scan_end.
      replace (ls_k_type s =? 11) with false by lia. by replace (ls_k_type s =? 0) with false by lia.
    + intros s' [= <-]. unfold scan_valid. rewrite Er. done.
Qed.

(** The header of a list, on the delivered prefix and on the body. *)
Lemma header_resume p s :
  p `prefix_of` body -> scan_valid p s -> ls_rows_left s = None ->
  match scan_header p total s with
  | Ok (Some s') => scan_header body total s = Ok (Some s') /\ scan_valid p s'
                    /\ exists rows, ls_rows_left s' = Some rows
  | Ok None => True
  | Err e => scan_header body total s = Err e
  | _ => False
  end.
Proof.
  intros Hpre [Ht Hv] Er. rewrite Er in Hv. destruct Hv as (Hpos & Hct & Hcs).
  pose proof (prefix_length_le _ _ Hpre) as Hle. unfold scan_header. rewrite Er. unfold saturating_add.
  destruct (Z.ltb_spec (len p) (Z.min (ls_pos s + 5) usize_max)) as [Hshort|Hlong].
  { unfold incomplete_or_overrun.
    destruct (Z.ltb_spec total (Z.min (ls_pos s + 5) usize_max)) as [Hover|]; [|done].
    cbn [mbind outcome_bind]. by replace (len body <? _) with true by lia. }
  replace (len body <? _) with false by lia.
  assert (ls_pos s + 5 <= len p) as Hin by bool_lia.
  destruct (take_list_length_ok p (ls_pos s) "q list" Hpos Hin ltac:(lia)) as [Hret Htake].
  rewrite (take_list_length_prefix p body (ls_pos s) "q list" _ Hpre Hpos Hin ltac:(lia) eq_refl).
  destruct (take_list_length p _ _) as [[n q]| | |]; try done. cbn [mbind outcome_bind].
  destruct (Htake _ eq_refl) as (Hn & -> & _). simpl ls_k_type.
  assert (forall q rows, 0 <= rows -> 0 <= q <= total -> (ls_k_type s = 11 -> q <= len p) ->
    scan_valid p (set_rows_left (set_pos s q) rows)) as Hvalid.
  { intros q rows Hrows Hq Hq11. split; [done|]. simpl. split_and!; [done| |done].
    unfold scan_ok. simpl. rewrite Hcs, Hct. split_and!; try done; lia. }
  destruct ((ls_k_type s =? 0) || (ls_k_type s =? 11)) eqn:Ek.
  { split_and!; [done|apply Hvalid; lia|by eexists]. }
  destruct Ht as [|[Hrange _]]; [lia|]. destruct (returns_width (ls_k_type s) Hrange) as [Hw1 Hw2].
  destruct (k_type_size (ls_k_type s)) as [w| | |]; try done. cbn [mbind outcome_bind].
  specialize (Hw2 _ eq_refl). cbv beta in Hw2.
  destruct (checked_mul n w) as [pl|] eqn:Epl; [|done]. cbn [ok_or mbind outcome_bind].
  unfold checked_mul in Epl. destruct (_ <=? _); [|done]. injection Epl as <-.
  simpl ls_pos. unfold checked_add. destruct (_ <=? usize_max); [|done]. cbn [ok_or mbind outcome_bind].
  destruct (Z.ltb_spec total (ls_pos s + 5 + n * w)) as [|Hfit]; [done|].
  split_and!; [done| |by eexists].
  apply (Hvalid (ls_pos s + 5 + n * w) 0); [lia|nia|lia].
Qed.

Lemma advance_resumes p s :
  p `prefix_of` body -> scan_valid p s ->
  resumes (advance p total s) (fun r => is_complete r.1)
    (advance body total s) (fun r => advance body total r.2)
  /\ forall s', advance p total s = Ok (Incomplete, s') -> scan_valid p s'.
Proof.
  intros Hpre Hv. destruct (ls_rows_left s) as [rows|] eqn:Er.
  { rewrite !(advance_rest _ rows) by done. by apply (rest_resume p rows). }
  pose proof (header_resume p s Hpre Hv Er) as Hh.
  assert (forall received, advance received total s =
    (h ← scan_header received total s;
     match h with None => Ok (Incomplete, s) | Some s' => scan_rest received s' end)) as Eadv by done.
  rewrite (Eadv p), (Eadv body).
  destruct (scan_header p total s) as [[s1|]| | |]; try done; cbn [mbind outcome_bind].
  - destruct Hh as (-> & Hv1 & rows & Er1). cbn [mbind outcome_bind]. by apply (rest_resume p rows).
  - split; [by rewrite <- Eadv|]. by intros s' [= <-].
  - split; [by rewrite Hh|done].
Qed.
End Scan.
