(* ===== verification/ListScanSpec.v ===== *)
(** * ListScanSpec: what the resumable list scan promises

    Scanning a list as its bytes arrive gives the outcome of scanning it at once;
    the scan always stops, inside the frame; and on a well-formed list it stops at
    the list's end. *)

From stdpp Require Import prelude strings sorting.
From Stdlib Require Import ZArith Lia ZifyBool.
From S2P Require Import Prelude Errors Types Compress ListScan ListScanFacts.

(** A scan driven by deliveries: [advance] is called with the first [n] bytes of
    the body for each [n] of the list, until it reports the end. *)
Fixpoint scan_deliveries (body : list Z) (lengths : list nat) (s : ListScan)
    : res (ScanOutcome * ListScan) :=
  match lengths with
  | [] => Ok (Incomplete, s)
  | n :: lengths =>
    '(outcome, s) ← advance (take n body) (len body) s;
    match outcome with
    | Complete stop => Ok (Complete stop, s)
    | Incomplete => scan_deliveries body lengths s
    end
  end.

(** ** New scans *)

Lemma scan_type_of_new k start s :
  ListScan_new k start = Ok s -> scan_type k /\ s = MkListScan k start None None 0.
Proof.
  unfold ListScan_new. destruct (between 1 k 19) eqn:Ek.
  - destruct (k_type_size k) as [w| | |] eqn:Ew; try done. cbn [mbind outcome_bind].
    destruct (negb _) eqn:E; [done|]. intros [= <-]. split; [|done].
    destruct (Z.eq_dec k 3) as [->|]; [|right; split; [bool_lia|done]].
    vm_compute in Ew. injection Ew as <-. done.
  - cbn [mbind outcome_bind]. destruct (negb _) eqn:E; [done|]. intros [= <-]. split; [|done].
    unfold scan_type. bool_lia.
Qed.

Lemma ListScan_new_returns k start : returns (ListScan_new k start).
Proof.
  unfold ListScan_new. destruct (between 1 k 19) eqn:Ek.
  - destruct (returns_width k ltac:(bool_lia)) as [Hr _].
    destruct (k_type_size k); try done. cbn [mbind outcome_bind]. by destruct (negb _).
  - cbn [mbind outcome_bind]. by destruct (negb _).
Qed.

Lemma scan_valid_grow total p b s :
  p `prefix_of` b -> scan_valid total p s -> scan_valid total b s.
Proof.
  intros Hpre [Ht Hv]. pose proof (prefix_length_le _ _ Hpre). split; [done|].
  destruct (ls_rows_left s); [|done]. unfold scan_ok in *.
  destruct Hv as (? & (? & ? & ? & ?) & ?). split_and!; try done; lia.
Qed.

Lemma take_prefix {A} n (l : list A) : take n l `prefix_of` l.
Proof. exists (drop n l). by rewrite take_drop. Qed.

Lemma take_prefix_le {A} n m (l : list A) : (n <= m)%nat -> take n l `prefix_of` take m l.
Proof. intros. exists (drop n (take m l)). rewrite <- (take_drop n (take m l)) at 1. by rewrite take_take, Nat.min_l. Qed.

Lemma deliveries_resume body lengths s n :
  slice_ok body -> scan_valid (len body) (take n body) s ->
  StronglySorted le (n :: lengths) ->
  scan_deliveries body (lengths ++ [length body]) s
  = advance body (len body) s.
Proof.
  intros Hb. revert n s. induction lengths as [|m lengths IH]; intros n s Hv Hs; cbn [app scan_deliveries].
  - rewrite take_ge by done. destruct (advance body (len body) s) as [[[e|] s']| | |]; done.
  - apply StronglySorted_inv in Hs as [Hs Hle]. apply Forall_cons in Hle as [Hle _].
    assert (scan_valid (len body) (take m body) s) as Hvm
      by (eapply scan_valid_grow; [by apply take_prefix_le|done]).
    destruct (advance_resumes (len body) (proj2 Hb) body eq_refl Hb (take m body) s
      (take_prefix m body) Hvm) as [Hres Hval].
    destruct (advance (take m body) (len body) s) as [[[e|] s']| | |]; try done;
      cbn [mbind outcome_bind]; cbn [resumes is_complete fst snd] in Hres; rewrite Hres; try done.
    apply (IH m); [by apply Hval|done].
Qed.

(** C11: the resumable scan does not depend on how the body is delivered.  Called
    on any growing sequence of prefixes and finally on the whole body, [advance]
    ends in the state, outcome or error a single call on the whole body gives:
    nothing is skipped, counted twice or read before it has arrived. *)
Theorem scan_resumable (body : list Z) (k_type start : Z) (lengths : list nat) (s : ListScan) :
  slice_ok body -> 0 <= start -> ListScan_new k_type start = Ok s -> StronglySorted le lengths ->
  scan_deliveries body (lengths ++ [length body]) s = advance body (len body) s.
Proof.
  intros Hb Hstart [Ht ->]%scan_type_of_new Hs. destruct lengths as [|n lengths].
  - cbn [app scan_deliveries]. rewrite take_ge by done.
    destruct (advance body (len body) _) as [[[e|] s']| | |]; done.
  - apply (deliveries_resume body (n :: lengths) _ 0); [done| |].
    + split; [done|]. by split_and!.
    + constructor; [done|]. apply Forall_true. lia.
Qed.

(** ** The scan of a complete body *)

Definition end_within (stop : Z) (body : list Z) (start : Z) : Prop :=
  start + 5 <= stop <= len body.

Lemma header_moves received total s s' :
  0 <= ls_pos s -> ls_rows_left s = None -> scan_type (ls_k_type s) -> bytes_ok received ->
  len received <= total -> total <= isize_max ->
  scan_header received total s = Ok (Some s') -> ls_pos s + 5 <= ls_pos s'.
Proof.
  intros Hp Er Ht Hb Hl Htot. unfold scan_header. rewrite Er. unfold saturating_add.
  destruct (Z.ltb_spec (len received) (Z.min (ls_pos s + 5) usize_max)) as [|Hlong].
  { unfold incomplete_or_overrun. by destruct (_ <? _). }
  destruct (take_list_length_ok total Htot received (ls_pos s) "q list" Hp ltac:(bool_lia) Hl) as [_ Htake].
  destruct (take_list_length received _ _) as [[n q]| | |]; try done.
  destruct (Htake _ eq_refl) as (Hn & -> & _). cbn [mbind outcome_bind ls_k_type set_pos].
  destruct ((ls_k_type s =? 0) || (ls_k_type s =? 11)) eqn:Ek; [by intros [= <-]|].
  destruct Ht as [|[Hrange _]]; [lia|]. destruct (returns_width _ Hrange) as [_ Hw].
  destruct (k_type_size (ls_k_type s)) as [w| | |]; try done. specialize (Hw _ eq_refl).
  intros H. simplify_res. cbv beta in Hw. cbn [ls_pos set_pos set_rows_left] in *.
  unfold checked_add, checked_mul in *. repeat case_match; simplify_eq. nia.
Qed.

Lemma rest_within body rows s :
  slice_ok body -> scan_valid (len body) body s -> ls_rows_left s = Some rows ->
  ok_with (scan_rest (len body) body s) (fun '(o, _) =>
    match o with Complete e => ls_pos s <= e <= len body | Incomplete => True end).
Proof.
  intros [Hb Hmax] [Ht Hv] Er. rewrite Er in Hv. destruct Hv as (Hr & Hok & H11).
  pose proof Hok as (Hpos & _). unfold scan_rest. rewrite Er. cbn [default from_option id].
  destruct (Z.eqb_spec (ls_k_type s) 11) as [Ek|].
  { specialize (H11 Ek). eapply ok_with_bind;
      [apply scan_symbols_ok; unfold scan_fuel; try done; lia|].
    intros [[[e|] q] l]; cbn; intros Hs; apply ok_with_ret; [|done]. lia. }
  destruct (Z.eqb_spec (ls_k_type s) 0) as [Ek|].
  { eapply ok_with_weaken; [apply advance_nested_ok; unfold scan_fuel; try done; lia|].
    intros [[e|] s']; [|done]. by intros (_ & _ & ?). }
  apply ok_with_ret. unfold scan_end. by destruct (Z.leb_spec (ls_pos s) (len body)).
Qed.

Lemma advance_within body s :
  slice_ok body -> scan_valid (len body) body s -> ls_rows_left s = None ->
  ok_with (advance body (len body) s) (fun '(o, _) =>
    match o with Complete e => ls_pos s + 5 <= e <= len body | Incomplete => True end).
Proof.
  intros Hb Hv Er. pose proof (header_resume _ (proj2 Hb) body eq_refl body s
    (reflexivity body) Hv Er) as Hh.
  pose proof Hv as [Ht Hv']. rewrite Er in Hv'. destruct Hv' as (Hpos & _).
  pose proof (fun s' => header_moves body (len body) s s' Hpos Er Ht (proj1 Hb) (Z.le_refl _) (proj2 Hb)) as Hm.
  change (advance body (len body) s) with
    (h ← scan_header body (len body) s;
     match h with None => Ok (Incomplete, s) | Some s' => scan_rest (len body) body s' end).
  destruct (scan_header body (len body) s) as [[s1|]| | |]; try done; cbn [mbind outcome_bind].
  - destruct Hh as (_ & Hv1 & rows & Er1). specialize (Hm _ eq_refl).
    eapply ok_with_weaken; [by eapply rest_within|]. intros [[e|] ?]; [lia|done].
  - by apply ok_with_ret.
Qed.

(** The scan returns, and an end it reports is in the body. *)
Lemma array_end_returns (vec : list Z) (start_pos k_type : Z) :
  slice_ok vec -> 0 <= start_pos ->
  returns (calculate_array_end_index vec start_pos k_type)
  /\ forall stop, calculate_array_end_index vec start_pos k_type = Ok stop ->
       start_pos + 5 <= stop <= len vec.
Proof.
  intros Hb Hs. apply (ok_with_bind _ _ (fun s => scan_type (ls_k_type s)
    /\ s = MkListScan k_type start_pos None None 0)).
  - split; [apply ListScan_new_returns|]. intros s Hnew.
    apply scan_type_of_new in Hnew as [? ->]. done.
  - intros ? [Ht ->]. eapply ok_with_bind.
    { apply advance_within; [done| |done]. split; [done|]. by split_and!. }
    intros [[e|] s']; cbn; intros; [|done]. by apply ok_with_ret.
Qed.

(** The end of a list is computed for every body: the scan returns, whatever
    the counts and types in the body, and an end it reports lies after the list's
    header and inside the body. *)
Theorem array_end_total (vec : list Z) (start_pos k_type : Z) :
  slice_ok vec -> 0 <= start_pos ->
  returns (calculate_array_end_index vec start_pos k_type)
  /\ forall stop, calculate_array_end_index vec start_pos k_type = Ok stop ->
       start_pos + 5 <= stop <= len vec.
Proof. apply array_end_returns. Qed.

(** ** Well-formed lists *)

(** An element of a general list whose non-empty elements have type [ct]. *)
Inductive element : Type :=
| Values (attribute count : Z) (payload : list Z)
| Symbols (attribute : Z) (names : list (list Z))
| EmptyElement (attribute : Z).

Inductive klist : Type :=
| FixedList (k_type attribute count : Z) (payload : list Z)
| SymbolList (attribute : Z) (names : list (list Z))
| GeneralList (attribute child_type : Z) (elements : list element).

Definition terminated (names : list (list Z)) : list Z := flat_map (fun n => n ++ [0]) names.

Definition encode_element (ct : Z) (e : element) : list Z :=
  match e with
  | Values a n payload => ct :: (a :: i32_to_le n) ++ payload
  | Symbols a names => ct :: (a :: i32_to_le (len names)) ++ terminated names
  | EmptyElement a => 0 :: (a :: i32_to_le 0) ++ []
  end.

Definition element_wf (ct : Z) (e : element) : Prop :=
  match e with
  | Values a n payload => ct <> 11 /\ 0 <= n <= i32_max
      /\ exists w, get_at K_TYPE_SIZE ct = Some w /\ len payload = n * w
  | Symbols a names => ct = 11 /\ len names <= i32_max /\ Forall nul_free names
  | EmptyElement a => True
  end.

Definition klist_type (l : klist) : Z :=
  match l with FixedList k _ _ _ => k | SymbolList _ _ => 11 | GeneralList _ _ _ => 0 end.

Definition encode_klist (l : klist) : list Z :=
  match l with
  | FixedList _ a n payload => (a :: i32_to_le n) ++ payload
  | SymbolList a names => (a :: i32_to_le (len names)) ++ terminated names
  | GeneralList a ct es => (a :: i32_to_le (len es)) ++ flat_map (encode_element ct) es
  end.

(** The first element of a general list fixes the type of the others; it may not be
    an empty general list. *)
Definition klist_wf (l : klist) : Prop :=
  match l with
  | FixedList k a n payload => 1 <= k <= 19 /\ k <> 11 /\ 0 <= n <= i32_max
      /\ exists w, get_at K_TYPE_SIZE k = Some w /\ 0 < w /\ len payload = n * w
  | SymbolList a names => len names <= i32_max /\ Forall nul_free names
  | GeneralList a ct es => len es <= i32_max /\ nested_child_type ct = true
      /\ Forall (element_wf ct) es
      /\ match es with EmptyElement _ :: _ => False | _ => True end
  end.

Lemma take_list_length_at pre a n x c :
  0 <= n <= i32_max -> len (pre ++ (a :: i32_to_le n) ++ x) <= isize_max ->
  take_list_length (pre ++ (a :: i32_to_le n) ++ x) (len pre) c = Ok (n, len pre + 5).
Proof.
  intros Hn Hl. rewrite !length_app in Hl. cbn [length] in Hl. rewrite len_i32_to_le in Hl.
  unfold take_list_length. rewrite checked_add_eq by bool_lia. cbn [ok_or mbind outcome_bind].
  assert (get_range (pre ++ (a :: i32_to_le n) ++ x) (len pre) (len pre + 5) = Some (a :: i32_to_le n)) as ->.
  { apply get_range_Some. exists pre, x. split_and!; [done..|]. cbn [length]. rewrite len_i32_to_le. lia. }
  cbn [ok_or mbind outcome_bind].
  assert (get_range (a :: i32_to_le n) 1 5 = Some (i32_to_le n)) as ->.
  { apply get_range_Some. exists [a], []. rewrite app_nil_r, len_i32_to_le. by split_and!. }
  cbn [or_panic mbind outcome_bind]. rewrite i32_le_roundtrip by bool_lia.
  unfold try_usize. by replace (_ && _) with true by bool_lia.
Qed.

(** A vector ends its slice: what follows it is irrelevant to the offsets. *)
Lemma get_from_app {A} (pre x : list A) : get_from (pre ++ x) (len pre) = Some x.
Proof.
  unfold get_from. apply get_range_Some. exists pre, []. rewrite app_nil_r, length_app. split_and!; [done..|lia].
Qed.

Lemma scan_symbols_at total fuel pre names post c :
  Forall nul_free names -> len names < Z.of_nat fuel ->
  scan_symbols fuel (pre ++ terminated names ++ post) total (len pre) (len names) c
  = Ok (Complete (len pre + len (terminated names)), len pre + len (terminated names), 0).
Proof.
  intros Hn. revert fuel pre. induction Hn as [|name names Hname _ IH]; intros [|fuel] pre Hf;
    [simpl in Hf; lia| |simpl in Hf; lia|].
  - cbn. by rewrite Z.add_0_r.
  - rewrite scan_symbols_S. replace (0 <? len (name :: names)) with true by (simpl; lia).
    rewrite get_from_app. cbn [or_panic mbind outcome_bind terminated flat_map].
    rewrite <- !app_assoc. cbn [app]. rewrite find_nul_app by done.
    specialize (IH fuel (pre ++ name ++ [0]) ltac:(simpl in Hf; lia)).
    replace (len (pre ++ name ++ [0])) with (len pre + (len name + 1)) in IH
      by (rewrite !length_app; simpl; lia).
    replace (len (name :: names) - 1) with (len names) by (simpl; lia).
    rewrite <- !app_assoc in IH. cbn [app] in IH. fold (terminated names). rewrite IH.
    rewrite length_app. cbn [length]. by replace (len pre + (len name + 1) + len (terminated names))
      with (len pre + Z.of_nat (length name + S (length (terminated names)))) by lia.
Qed.

Lemma len_terminated names : len names <= len (terminated names).
Proof. induction names; cbn [terminated flat_map length]; [lia|]. fold (terminated names). rewrite !length_app. simpl. lia. Qed.

Lemma len_encode_element ct e : 6 <= len (encode_element ct e).
Proof.
  destruct e; cbn [encode_element length]; rewrite length_app; cbn [length];
    rewrite len_i32_to_le; lia.
Qed.

#[local] Arguments advance_nested : simpl never.

Section Nested.
  Context (body : list Z) (ct : Z).
  Hypothesis body_ok : slice_ok body.
  Hypothesis ct_ok : nested_child_type ct = true.

Abbreviation run rows s := (advance_nested (scan_fuel body) body (len body) rows s).

(** The state at the start of an element. *)
Definition at_element (pos : Z) (child_type : option Z) (s : ListScan) : Prop :=
  ls_pos s = pos /\ ls_child_type s = child_type /\ ls_child_symbols_left s = 0.

Lemma at_element_ok pos c s :
  at_element pos c s -> c = None \/ c = Some ct -> 0 <= pos <= len body -> scan_ok (len body) body s.
Proof.
  intros (<- & E & Es) Hc Hp. unfold scan_ok. rewrite E, Es. split_and!; try lia.
  intros t Et. destruct Hc as [->| ->]; [done|]. by injection Et as <-.
Qed.

Lemma run_unfold rows s :
  scan_ok (len body) body s -> 0 <= rows ->
  run rows s = (round ← nested_round body (len body) rows s;
                match round with Continue rows s => run rows s | Stop o s => Ok (o, s) end).
Proof. intros Hs Hr. apply advance_nested_unfold; try done; [apply body_ok|apply body_ok]. Qed.

(** What [nested_element] does with the count it has read, the cursor at the
    payload. *)
Definition element_payload (k n rows : Z) (s : ListScan) : res (bool * Z * ListScan) :=
  if k =? 0 then
    if negb (n =? 0) then Err (NotSupportedKMixedListErr ct k) else Ok (true, rows - 1, s)
  else if k =? 11 then
    if n =? 0 then Ok (true, rows - 1, s) else Ok (true, rows, set_child_symbols_left s n)
  else
    width ← k_type_size k;
    payload_length ← ok_or (checked_mul n width)
      (DeserializationErr "q nested-list payload length overflowed");
    stop ← ok_or (checked_add (ls_pos s) payload_length)
      (DeserializationErr "q nested-list payload offset overflowed");
    if len body <? stop then
      corrupt ("q nested-list payload length " +:+ show payload_length
               +:+ " exceeds the available bytes")
    else Ok (stop <=? len body, rows - 1, set_pos s stop).

(** The element's header: the type test and the count. *)
Lemma element_header pre k a n x c s rows :
  body = pre ++ k :: (a :: i32_to_le n) ++ x -> 0 <= n <= i32_max -> at_element (len pre) c s ->
  (c = Some ct /\ (k = ct \/ k = 0)) \/ (c = None /\ k = ct) ->
  nested_element body (len body) rows s
  = element_payload k n rows (set_pos (set_child_type s ct) (len pre + 6)).
Proof.
  intros E Hn (Hp & Hct & Hcs) Hc.
  assert (get_at body (len pre) = Some k) as Hk.
  { rewrite E, <- (Z.add_0_r (len pre)), get_at_app_r by lia. apply get_at_cons0. }
  assert (take_list_length body (len pre + 1) "q nested-list element" = Ok (n, len pre + 6)) as Htake.
  { replace body with ((pre ++ [k]) ++ (a :: i32_to_le n) ++ x) by (by rewrite <- app_assoc, E).
    replace (len pre + 1) with (len (pre ++ [k])) by (rewrite length_app; simpl; lia).
    rewrite take_list_length_at; [rewrite length_app; simpl; do 2 f_equal; lia|done|].
    destruct body_ok as [_ Hl]. rewrite E in Hl. by rewrite <- app_assoc. }
  assert ((match ls_child_type s with
      | Some child_type => Ok (child_type, s)
      | None => if negb (nested_child_type k) then Err (NotSupportedKNestedListErr k)
                else Ok (k, set_child_type s k)
      end) = @Ok XqdbError _ (ct, set_child_type s ct)) as Htype.
  { rewrite Hct. destruct Hc as [[-> _]|[-> ->]].
    - do 2 f_equal. destruct s; simpl in *. by subst.
    - by rewrite ct_ok. }
  unfold nested_element. rewrite Hp, Hk. cbn [or_panic mbind outcome_bind]. rewrite Htype.
  cbn [mbind outcome_bind]. replace (negb (k =? ct) && negb (k =? 0)) with false
    by (destruct Hc as [[_ [->| ->]]|[_ ->]]; lia).
  cbn [ls_pos set_child_type]. by rewrite Hp, Htake.
Qed.

Lemma round_at_element rows s pos c :
  at_element pos c s -> 0 < rows -> 0 <= pos -> pos + 6 <= len body ->
  nested_round body (len body) rows s =
  ('(step, s) ← nested_element body (len body) rows s;
   if step.1 : bool then Ok (Continue step.2 s) else Ok (Stop Incomplete (set_rows_left s step.2))).
Proof.
  intros (Hp & Hct & Hcs) Hr H0 Hl. unfold nested_round. rewrite Hcs, Hp.
  replace (0 <? rows) with true by lia. cbn [Z.ltb Z.compare].
  unfold saturating_add. destruct body_ok as [_ ?].
  by replace (len body <? _) with false by bool_lia.
Qed.

(** One round at an element: the header is passed and the payload is next. *)
Lemma run_at_element pre k a n x c s rows :
  body = pre ++ k :: (a :: i32_to_le n) ++ x -> 0 <= n <= i32_max -> at_element (len pre) c s ->
  (c = Some ct /\ (k = ct \/ k = 0)) \/ (c = None /\ k = ct) -> 0 < rows ->
  run rows s =
  ('(step, s) ← element_payload k n rows (set_pos (set_child_type s ct) (len pre + 6));
   if step.1 : bool then run step.2 s else Ok (Incomplete, set_rows_left s step.2)).
Proof.
  intros E Hn Hs Hc Hr.
  assert (len pre + 6 + len x = len body) as Hfit
    by (rewrite E, length_app; cbn [length app]; rewrite length_app, len_i32_to_le; lia).
  rewrite run_unfold, (round_at_element rows s (len pre) c) by
    (done || lia || (apply (at_element_ok (len pre) c); [done|naive_solver|lia])).
  rewrite (element_header pre k a n x c) by done.
  by destruct (element_payload _ _ _ _) as [[[[] ?] ?]| | |].
Qed.

Lemma run_values pre a n payload x c s rows :
  body = pre ++ encode_element ct (Values a n payload) ++ x ->
  element_wf ct (Values a n payload) -> at_element (len pre) c s -> 0 < rows ->
  c = Some ct \/ c = None ->
  exists s', run rows s = run (rows - 1) s' /\ at_element (len pre + 6 + len payload) (Some ct) s'.
Proof.
  intros E (H11 & Hn & w & Hw & Hlen) Hs Hr Hc. destruct body_ok as [_ Hmax].
  assert (len pre + 6 + len payload + len x = len body) as Hfit.
  { rewrite E. cbn [encode_element app]. rewrite length_app. cbn [length].
    rewrite !length_app, len_i32_to_le. lia. }
  rewrite (run_at_element pre ct a n (payload ++ x) c);
    [|by rewrite E; cbn [encode_element app]; rewrite <- !app_assoc|done|done|naive_solver|done].
  destruct (nested_child_cases ct ct_ok) as (Hct0 & _ & _). destruct Hs as (_ & _ & Hcs).
  unfold element_payload. replace (ct =? 0) with false by lia. replace (ct =? 11) with false by lia.
  unfold k_type_size. rewrite Hw. cbn [ok_or or_panic mbind outcome_bind].
  unfold checked_mul. replace (n * w <=? usize_max) with true by bool_lia.
  cbn [ok_or mbind outcome_bind ls_pos set_pos]. rewrite checked_add_eq by bool_lia.
  cbn [ok_or mbind outcome_bind]. replace (len body <? _) with false by lia.
  cbn [fst snd mbind outcome_bind]. replace (_ <=? len body) with true by lia.
  eexists. split; [reflexivity|]. unfold at_element. simpl. split_and!; [lia|done|done].
Qed.

Lemma run_symbols pre a names x c s rows :
  body = pre ++ encode_element ct (Symbols a names) ++ x ->
  element_wf ct (Symbols a names) -> at_element (len pre) c s -> 0 < rows ->
  c = Some ct \/ c = None ->
  exists s', run rows s = run (rows - 1) s'
    /\ at_element (len pre + 6 + len (terminated names)) (Some ct) s'.
Proof.
  intros E (Hct & Hn & Hnames) Hs Hr Hc. pose proof Hs as (Hp & _ & Hcs).
  set (pre' := pre ++ ct :: a :: i32_to_le (len names)).
  assert (len pre' = len pre + 6) as Hpre'
    by (unfold pre'; rewrite length_app; cbn [length]; rewrite len_i32_to_le; lia).
  assert (body = pre' ++ terminated names ++ x) as E'
    by (rewrite E; unfold pre'; cbn [encode_element app];
        rewrite <- (app_assoc pre); cbn [app]; by rewrite <- !app_assoc).
  assert (len pre + 6 + len (terminated names) <= len body) as Hfit
    by (rewrite E', !length_app; lia).
  rewrite (run_at_element pre ct a (len names) (terminated names ++ x) c);
    [|by rewrite E; cbn [encode_element app]; rewrite <- !app_assoc|lia|done|naive_solver|done].
  unfold element_payload. replace (ct =? 0) with false by lia. replace (ct =? 11) with true by lia.
  destruct (Z.eqb_spec (len names) 0) as [Hz|Hz]; cbn [fst snd mbind outcome_bind].
  { destruct names; [|simpl in Hz; lia]. eexists. split; [reflexivity|].
    unfold at_element. simpl. split_and!; [lia|done|done]. }
  rewrite run_unfold; [|unfold scan_ok; simpl; split_and!; try lia; by intros t [= <-]|lia].
  unfold nested_round. replace (0 <? rows) with true by lia.
  cbn [ls_child_symbols_left set_child_symbols_left set_pos ls_pos].
  replace (0 <? len names) with true by lia. rewrite <- Hpre'.
  assert (scan_symbols (scan_fuel body) body (len body) (len pre') (len names) "q nested symbol"
    = Ok (Complete (len pre' + len (terminated names)), len pre' + len (terminated names), 0)) as ->.
  { unfold scan_fuel. rewrite E'. apply scan_symbols_at; [done|]. rewrite !length_app.
    pose proof (len_terminated names). lia. }
  cbn [fst snd mbind outcome_bind]. eexists. split; [reflexivity|].
  unfold at_element. simpl. split_and!; [lia|done|done].
Qed.

(** The element at the cursor is consumed. *)
Lemma run_element pre e x c s rows :
  body = pre ++ encode_element ct e ++ x -> element_wf ct e -> at_element (len pre) c s -> 0 < rows ->
  c = Some ct \/ (c = None /\ match e with EmptyElement _ => False | _ => True end) ->
  exists s', run rows s = run (rows - 1) s'
    /\ at_element (len pre + len (encode_element ct e)) (Some ct) s'.
Proof.
  intros E Hwf Hs Hr Hc. destruct e as [a n payload|a names|a].
  - replace (len pre + _) with (len pre + 6 + len payload)
      by (cbn [encode_element length]; rewrite length_app; cbn [length]; rewrite len_i32_to_le; lia).
    eapply run_values; [done..|naive_solver].
  - replace (len pre + _) with (len pre + 6 + len (terminated names))
      by (cbn [encode_element length]; rewrite length_app; cbn [length]; rewrite len_i32_to_le; lia).
    eapply run_symbols; [done..|naive_solver].
  - destruct Hc as [->|[_ []]]. destruct Hs as (Hp & Hct & Hcs).
    rewrite (run_at_element pre 0 a 0 x (Some ct)) by
      (done || bool_lia || naive_solver || (by rewrite E; cbn [encode_element app]; rewrite app_nil_r)).
    cbn [element_payload Z.eqb negb mbind outcome_bind fst snd]. eexists. split; [reflexivity|].
    cbn [encode_element length]. rewrite length_app. cbn [length]. rewrite len_i32_to_le.
    unfold at_element. simpl. split_and!; [lia|done|done].
Qed.

Lemma run_elements pre es post c s :
  body = pre ++ flat_map (encode_element ct) es ++ post -> Forall (element_wf ct) es ->
  at_element (len pre) c s ->
  c = Some ct \/ (c = None /\ match es with EmptyElement _ :: _ => False | _ => True end) ->
  exists s', run (len es) s
    = Ok (Complete (len pre + len (flat_map (encode_element ct) es)), s').
Proof.
  intros E Hwf. revert pre c s E. induction Hwf as [|e es He _ IH]; intros pre c s E Hs Hc.
  - rewrite run_unfold; [|apply (at_element_ok (len pre) c); [done|naive_solver|rewrite E, length_app; lia]|done].
    unfold nested_round, scan_end. cbn. destruct Hs as (-> & _).
    replace (len pre <=? len body) with true by (rewrite E, length_app; lia).
    eexists. cbn. by rewrite Z.add_0_r.
  - cbn [flat_map] in *. rewrite <- app_assoc in E.
    destruct (run_element pre e _ c s (len (e :: es)) E He Hs ltac:(simpl; lia) ltac:(naive_solver))
      as (s1 & -> & Hs1).
    replace (len (e :: es) - 1) with (len es) by (simpl; lia).
    destruct (IH (pre ++ encode_element ct e) (Some ct) s1) as (s2 & ->).
    + by rewrite <- app_assoc.
    + by rewrite length_app, Nat2Z.inj_add.
    + by left.
    + exists s2. rewrite !length_app. do 3 f_equal. lia.
Qed.
End Nested.

Lemma new_header k start :
  k = 0 \/ k = 11 \/ (1 <= k <= 19 /\ exists w, get_at K_TYPE_SIZE k = Some w /\ 0 < w) ->
  ListScan_new k start = Ok (MkListScan k start None None 0).
Proof.
  unfold ListScan_new. intros [->|[->|(Hk & w & Hw & Hpos)]]; [done|done|].
  replace (between 1 k 19) with true by bool_lia. unfold k_type_size. rewrite Hw.
  cbn [or_panic mbind outcome_bind]. replace (0 <? w) with true by lia.
  by rewrite orb_true_r.
Qed.

(** The header of the list itself. *)
Lemma scan_header_at pre k a n x post s :
  slice_ok (pre ++ (a :: i32_to_le n) ++ x ++ post) -> 0 <= n <= i32_max ->
  ls_rows_left s = None -> ls_pos s = len pre -> ls_k_type s = k ->
  k = 0 \/ k = 11 \/ (1 <= k <= 19 /\ exists w, get_at K_TYPE_SIZE k = Some w /\ 0 < w /\ len x = n * w) ->
  let body := pre ++ (a :: i32_to_le n) ++ x ++ post in
  scan_header body (len body) s
  = Ok (Some (if (k =? 0) || (k =? 11) then set_rows_left (set_pos s (len pre + 5)) n
              else set_rows_left (set_pos s (len pre + 5 + len x)) 0)).
Proof.
  intros [_ Hl] Hn Er Hp Hk Hcase body. fold body in Hl.
  assert (len body = len pre + 5 + len x + len post) as Hlen
    by (unfold body; rewrite !length_app; cbn [length]; rewrite len_i32_to_le; lia).
  unfold scan_header, saturating_add. rewrite Er, Hp.
  replace (len body <? _) with false by bool_lia.
  unfold body. rewrite take_list_length_at by done. fold body. cbn [mbind outcome_bind ls_k_type set_pos].
  rewrite Hk. destruct ((k =? 0) || (k =? 11)) eqn:E; [done|].
  destruct Hcase as [|[|(_ & w & Hw & _ & Hx)]]; [lia|lia|]. unfold k_type_size. rewrite Hw.
  cbn [or_panic mbind outcome_bind]. unfold checked_mul. replace (n * w <=? usize_max) with true by bool_lia.
  cbn [ok_or mbind outcome_bind ls_pos set_pos]. rewrite checked_add_eq by bool_lia.
  cbn [ok_or mbind outcome_bind]. replace (len body <? _) with false by lia. do 4 f_equal. lia.
Qed.

Lemma list_end_exact (pre post : list Z) (l : klist) :
  klist_wf l -> slice_ok (pre ++ encode_klist l ++ post) ->
  calculate_array_end_index (pre ++ encode_klist l ++ post) (len pre) (klist_type l)
  = Ok (len pre + len (encode_klist l)).
Proof.
  intros Hwf Hb. unfold calculate_array_end_index. rewrite new_header
    by (destruct l; simpl in *; naive_solver).
  cbn [mbind outcome_bind]. unfold advance.
  destruct l as [k a n payload|a names|a ct es]; cbn [klist_type encode_klist] in *;
    rewrite <- !app_assoc in *.
  - destruct Hwf as (Hk & Hk11 & Hn & w & Hw & Hpos & Hlen).
    rewrite (scan_header_at pre k) by (done || naive_solver).
    replace ((k =? 0) || (k =? 11)) with false by lia. cbn [mbind outcome_bind ls_k_type set_pos set_rows_left].
    replace (k =? 11) with false by lia. replace (k =? 0) with false by lia. unfold scan_end.
    cbn [ls_pos set_pos set_rows_left].
    rewrite !length_app. cbn [length]. rewrite len_i32_to_le.
    replace (_ <=? _) with true by lia. cbn. f_equal. lia.
  - destruct Hwf as (Hn & Hnames). rewrite (scan_header_at pre 11) by (done || lia || naive_solver).
    cbn [orb Z.eqb Pos.eqb mbind outcome_bind ls_k_type set_pos set_rows_left ls_pos ls_rows_left default from_option id].
    rewrite app_assoc. replace (len pre + 5) with (len (pre ++ a :: i32_to_le (len names)))
      by (rewrite length_app; cbn [length]; rewrite len_i32_to_le; lia).
    rewrite scan_symbols_at; [|done|].
    + cbn [mbind outcome_bind fst snd]. f_equal. rewrite !length_app. cbn [length]. lia.
    + unfold scan_fuel. rewrite !length_app. pose proof (len_terminated names). lia.
  - destruct Hwf as (Hn & Hct & Hes & Hfirst).
    rewrite (scan_header_at pre 0) by (done || lia || naive_solver).
    cbn [orb Z.eqb mbind outcome_bind ls_k_type set_pos set_rows_left ls_pos ls_rows_left
      ls_child_type ls_child_symbols_left default from_option id].
    set (body := pre ++ _) in *.
    assert (body = (pre ++ a :: i32_to_le (len es)) ++ flat_map (encode_element ct) es ++ post) as E
      by (unfold body; by rewrite <- app_assoc).
    edestruct (run_elements body ct Hb Hct _ es post None
      (set_rows_left (set_pos (MkListScan 0 (len pre) None None 0) (len pre + 5)) (len es)) E Hes)
      as (s' & ->).
    + unfold at_element. simpl. rewrite length_app. cbn [length]. rewrite len_i32_to_le.
      split_and!; [lia|done|done].
    + by right.
    + cbn [mbind outcome_bind fst snd]. f_equal. rewrite !length_app. cbn [length]. lia.
Qed.

(** On a well-formed list, fixed-width, symbol or nested, wherever it stands in
    the body, the computed end is exactly the end of the list: no element is missed
    and nothing after the list is taken for part of it. *)
Theorem array_end_exact (pre post : list Z) (l : klist) :
  klist_wf l -> slice_ok (pre ++ encode_klist l ++ post) ->
  calculate_array_end_index (pre ++ encode_klist l ++ post) (len pre) (klist_type l)
  = Ok (len pre + len (encode_klist l)).
Proof. apply list_end_exact. Qed.

(** ** Witnesses *)

(** Two children, long vectors then an empty list, in a body with bytes around it. *)
Definition sample_klist : klist :=
  GeneralList 0 7 [Values 0 2 (replicate 16 3); EmptyElement 0; Values 0 0 []].

Definition sample_scan_body : list Z := [0] ++ encode_klist sample_klist ++ [9; 9].

Lemma sample_scan_body_ok : slice_ok sample_scan_body.
Proof.
  split; [|vm_compute; discriminate]. vm_compute. repeat (constructor; [split; [discriminate|reflexivity]|]). constructor.
Qed.

Lemma scan_resumable_witness :
  scan_deliveries sample_scan_body [0; 3; 9; 20; 20; 30; 45]%nat (MkListScan 0 1 None None 0)
  = Ok (Complete 40, MkListScan 0 40 (Some 0) (Some 7) 0).
Proof.
  pose proof (scan_resumable sample_scan_body 0 1 [0; 3; 9; 20; 20; 30]%nat
    (MkListScan 0 1 None None 0) sample_scan_body_ok ltac:(lia) eq_refl
    ltac:(repeat constructor; lia)) as H.
  exact H.
Defined.

Lemma array_end_total_witness :
  returns (calculate_array_end_index [0; 255; 255; 255; 255; 1] 0 0).
Proof.
  refine (proj1 (array_end_total [0; 255; 255; 255; 255; 1] 0 0 _ _)); [|lia].
  split; [repeat (constructor; [unfold is_byte; lia|]); constructor|vm_compute; discriminate].
Defined.

Lemma array_end_exact_witness :
  calculate_array_end_index sample_scan_body 1 0 = Ok 40.
Proof.
  pose proof (array_end_exact [0] [9; 9] sample_klist) as H.
  assert (klist_wf sample_klist) as Hwf.
  { cbn. split_and!; [vm_compute; discriminate|reflexivity| |done].
    repeat constructor; try discriminate; try (vm_compute; discriminate);
      exists 8; split; reflexivity. }
  exact (H Hwf sample_scan_body_ok).
Defined.
