(* ===== verification/Text.v ===== *)
(** * Text: owned strings and lambda sources
    ([QLambda] and [try_own_str] of [crates/xqdb/src/types.rs])

    A Rust [String] is its UTF-8 bytes. *)

From stdpp Require Import prelude strings.
From S2P Require Import Prelude Errors.

Definition serialize_error {A} (message : string) : res A := Err (NotAbleToSerializeErr message).

(** [value.as_bytes().contains(&0)]. *)
Definition contains_nul (text : list Z) : bool := existsb (fun b => b =? 0) text.

(** ** [str::trim]: Unicode white space at the ends *)

(** The number of bytes of the white-space scalar value [text] starts with. *)
Definition leading_space (text : list Z) : nat :=
  match text with
  | b0 :: rest =>
    if between 9 b0 13 || (b0 =? 32) then 1%nat
    else
      match rest with
      | b1 :: rest =>
        if (b0 =? 194) && ((b1 =? 133) || (b1 =? 160)) then 2%nat
        else
          match rest with
          | b2 :: _ =>
            if ((b0 =? 225) && (b1 =? 154) && (b2 =? 128))
               || ((b0 =? 226) && (b1 =? 128)
                   && (between 128 b2 138 || (b2 =? 168) || (b2 =? 169) || (b2 =? 175)))
               || ((b0 =? 226) && (b1 =? 129) && (b2 =? 159))
               || ((b0 =? 227) && (b1 =? 128) && (b2 =? 128))
            then 3%nat
            else 0%nat
          | [] => 0%nat
          end
      | [] => 0%nat
      end
  | [] => 0%nat
  end.

Fixpoint trim_start_fuel (fuel : nat) (text : list Z) : list Z :=
  match fuel with
  | O => text
  | S fuel =>
    match leading_space text with
    | O => text
    | n => trim_start_fuel fuel (drop n text)
    end
  end.

(** Every round drops at least one byte. *)
Definition trim_start (text : list Z) : list Z := trim_start_fuel (length text) text.

(** The number of bytes of the white-space scalar value [text] ends with. *)
Definition trailing_space (text : list Z) : nat :=
  let ends n := Nat.eqb (leading_space (drop (length text - n) text)) n && Nat.leb n (length text) in
  if ends 1%nat then 1%nat else if ends 2%nat then 2%nat else if ends 3%nat then 3%nat else 0%nat.

Fixpoint trim_end_fuel (fuel : nat) (text : list Z) : list Z :=
  match fuel with
  | O => text
  | S fuel =>
    match trailing_space text with
    | O => text
    | n => trim_end_fuel fuel (take (length text - n) text)
    end
  end.

Definition trim_end (text : list Z) : list Z := trim_end_fuel (length text) text.
Definition trim (text : list Z) : list Z := trim_end (trim_start text).

(** [text.strip_prefix("k)").unwrap_or(text)]. *)
Definition strip_k (text : list Z) : list Z :=
  match text with
  | 107 :: 41 :: rest => rest
  | _ => text
  end.

Definition starts_with (c : Z) (text : list Z) : bool :=
  match text with b :: _ => b =? c | [] => false end.
Definition ends_with (c : Z) (text : list Z) : bool :=
  match last text with Some b => b =? c | None => false end.

(** ** Lambdas *)

Record QLambda : Type := MkQLambda {
  lambda_source : list Z;
  lambda_context : list Z
}.

Definition QLambda_with_context (source context : list Z) : res QLambda :=
  if contains_nul source then serialize_error "q lambda source cannot contain NUL bytes"
  else if contains_nul context then serialize_error "q lambda context cannot contain NUL bytes"
  else if negb (len context =? 0) && starts_with 46 context then
    serialize_error "q lambda context omits the leading dot"
  else
    let lambda := strip_k (trim source) in
    if negb (starts_with 123 lambda) || negb (ends_with 125 lambda) then
      serialize_error "q lambda source must be brace-delimited"
    else Ok (MkQLambda source context).

Definition QLambda_new (source : list Z) : res QLambda := QLambda_with_context source [].

(** [try_own_str]: a fallible copy. *)
Definition try_own_str `{Allocator} (text : list Z) (context : string) : res (list Z) :=
  _ ← reserve (len text) (fun error =>
        DeserializationErr ("unable to allocate " +:+ context +:+ " of " +:+ show (len text)
                            +:+ " byte(s): " +:+ error));
  Ok text.

(** ** Counts and symbols *)

Definition checked_q_count (length : Z) : res Z := ok_or (try_i32 length) OverLengthErr.

Definition validate_q_symbol (value : list Z) : res unit :=
  if contains_nul value then serialize_error "q symbols cannot contain NUL bytes" else Ok tt.
