(* ===== verification/Value.v ===== *)
(** * Value: native values ([K] of [crates/xqdb/src/types.rs])

    The calendar types are chrono's and the series and tables are Polars'; both are
    parameters.  Integers are [Z] in the range of their width, floats are their bit
    patterns, and strings are their UTF-8 bytes. *)

From stdpp Require Import prelude strings.
From Stdlib Require Import ZArith Lia.
From S2P Require Import Prelude Errors Types QValue Text.

(** ** Chrono

    The types and the conversions the code calls, with chrono's documented laws in
    [ChronoLaws].  The nanoseconds of a second are a billion or more in a leap second, which
    a count of nanoseconds cannot tell from the second after it; theorems on round trips
    ask for [timestamp_subsec_nanos], which the code does not call, to be below. *)
Class Chrono := {
  NaiveDate : Type;
  DateTime : Type;
  NaiveTime : Type;
  Duration : Type;
  num_days_from_ce : NaiveDate -> Z;
  from_num_days_from_ce_opt : Z -> option NaiveDate;
  from_ymd_opt : Z -> Z -> Z -> option NaiveDate;
  timestamp_nanos_opt : DateTime -> option Z;
  from_timestamp_nanos : Z -> DateTime;
  timestamp_subsec_nanos : DateTime -> Z;
  num_seconds_from_midnight : NaiveTime -> Z;
  nanosecond : NaiveTime -> Z;
  from_num_seconds_from_midnight_opt : Z -> Z -> option NaiveTime;
  num_nanoseconds : Duration -> option Z;
  duration_nanoseconds : Z -> Duration
}.

Class ChronoLaws `{Chrono} : Prop := {
  days_range d : Z.abs (num_days_from_ce d) <= 100000000;
  days_roundtrip d : from_num_days_from_ce_opt (num_days_from_ce d) = Some d;
  days_exact z d : from_num_days_from_ce_opt z = Some d -> num_days_from_ce d = z;
  nanos_range d n : timestamp_nanos_opt d = Some n -> in_i64 n = true;
  nanos_roundtrip d n :
    timestamp_subsec_nanos d < 1000000000 -> timestamp_nanos_opt d = Some n -> from_timestamp_nanos n = d;
  nanos_exact n :
    in_i64 n = true ->
    timestamp_subsec_nanos (from_timestamp_nanos n) < 1000000000
    /\ timestamp_nanos_opt (from_timestamp_nanos n) = Some n;
  seconds_range t : 0 <= num_seconds_from_midnight t < 86400;
  nanosecond_range t : 0 <= nanosecond t < 2000000000;
  time_roundtrip t :
    nanosecond t < 1000000000 ->
    from_num_seconds_from_midnight_opt (num_seconds_from_midnight t) (nanosecond t) = Some t;
  time_exact s n t :
    from_num_seconds_from_midnight_opt s n = Some t -> num_seconds_from_midnight t = s /\ nanosecond t = n;
  duration_roundtrip d n :
    num_nanoseconds d = Some n -> in_i64 n = true /\ duration_nanoseconds n = d;
  duration_exact n : in_i64 n = true -> num_nanoseconds (duration_nanoseconds n) = Some n
}.

(** ** Values *)

Inductive K `{Chrono} {Series DataFrame : Type} : Type :=
| KBoolean (b : bool)
| KGuid (bytes : list Z)
| KU8 (v : Z)
| KI16 (v : Z)
| KI32 (v : Z)
| KI64 (v : Z)
| KF32 (bits : Z)
| KF64 (bits : Z)
| KChar (v : Z)
| KCharVector (bytes : list Z)
| KSymbol (text : list Z)
| KString (text : list Z)
| KDateTime (t : DateTime)
| KDate (d : NaiveDate)
| KTime (t : NaiveTime)
| KDuration (d : Duration)
| KMixedList (values : list K)
| KSeries (s : Series)
| KDataFrame (df : DataFrame)
| KDict (entries : list (list Z * K))
| KQValue (v : QValue)
| KOperator (o : QOperator)
| KLambda (l : QLambda)
| KNull.
Arguments K {_} Series DataFrame.

Section Induction.
  Context `{Chrono} {Series DataFrame : Type}.

(** The values with no values inside. *)
Definition leaf (k : K Series DataFrame) : Prop :=
  match k with KMixedList _ | KDict _ => False | _ => True end.

Lemma K_nested_ind (P : K Series DataFrame -> Prop) :
  (forall k, leaf k -> P k) ->
  (forall values, Forall P values -> P (KMixedList values)) ->
  (forall entries, Forall (fun e => P e.2) entries -> P (KDict entries)) ->
  forall k, P k.
Proof.
  intros Hleaf Hlist Hdict. fix IH 1. intros [].
  all: try (apply Hleaf; exact I).
  - apply Hlist. induction values; constructor; [apply IH|done].
  - apply Hdict. induction entries; constructor; [apply IH|done].
Qed.
End Induction.

(** What sizing and writing a value needs of its series: the columns of a table with
    their names, the sizing and writing of one series, and the series it is meant for. *)
Class SeriesEncoder (Series DataFrame : Type) := {
  frame_columns : DataFrame -> list (list Z * Series);
  get_series_len : Series -> res Z;
  serialize_series : Series -> res (list Z);
  series_ok : Series -> Prop
}.

(** ** Sizes *)

Definition NANOS_DIFF : Z := 946684800000000000.
Definition DAY_DIFF : Z := 730120.
Definition NANOS_PER_DAY : Z := 86400000000000.

Definition q_timestamp_nanoseconds (unix_nanoseconds : Z) : res Z :=
  ok_or (match i64_checked (unix_nanoseconds - NANOS_DIFF) with
         | Some value => if (i64_min + 1 <? value) && (value <? i64_max) then Some value else None
         | None => None
         end)
    (NotAbleToSerializeErr "timestamp is outside q's representable nanosecond range").

Section Sizes.
  Context `{Chrono} {Series DataFrame : Type} `{SeriesEncoder Series DataFrame}.

(** [length.checked_add(n).ok_or(OverLengthErr)]. *)
Definition add_length (length n : Z) : res Z := ok_or (checked_add length n) OverLengthErr.

(** A column of a table: the name, its terminator and the values. *)
Definition add_column_len (length : Z) (column : list Z * Series) : res Z :=
  _ ← validate_q_symbol column.1;
  length ← add_length length (len column.1);
  length ← add_length length 1;
  size ← get_series_len column.2;
  add_length length size.

Fixpoint j6_len_with_depth (k : K Series DataFrame) (depth : Z) : res Z :=
  if MAX_VALUE_DEPTH <? depth then
    serialize_error ("q value nesting exceeds " +:+ show MAX_VALUE_DEPTH +:+ " levels")
  else
  match k with
  | KBoolean _ => Ok 2
  | KGuid _ => Ok 17
  | KU8 _ => Ok 2
  | KI16 _ => Ok 3
  | KI32 _ => Ok 5
  | KI64 _ => Ok 9
  | KF32 _ => Ok 5
  | KF64 _ => Ok 9
  | KChar _ => Ok 2
  | KCharVector bytes | KString bytes => _ ← checked_q_count (len bytes); add_length (len bytes) 6
  | KSymbol text => _ ← validate_q_symbol text; add_length (len text) 2
  | KDateTime t =>
    unix_nanoseconds ← ok_or (timestamp_nanos_opt t)
      (NotAbleToSerializeErr "timestamp is outside q's representable nanosecond range");
    _ ← q_timestamp_nanoseconds unix_nanoseconds;
    Ok 9
  | KDate _ => Ok 5
  | KTime t =>
    if negb (nanosecond t mod 1000000 =? 0) then
      serialize_error "q time only supports millisecond precision"
    else Ok 5
  | KDuration d =>
    _ ← ok_or (num_nanoseconds d)
      (NotAbleToSerializeErr "duration is outside q's representable nanosecond range");
    Ok 9
  | KMixedList values =>
    _ ← checked_q_count (len values);
    try_fold (fun length v =>
      size ← j6_len_with_depth v (depth + 1); add_length length size) 6 values
  | KSeries s => get_series_len s
  | KDataFrame df =>
    _ ← checked_q_count (len (frame_columns df));
    try_fold add_column_len 15 (frame_columns df)
  | KOperator _ => Ok 2
  | KLambda l =>
    _ ← checked_q_count (len (lambda_source l));
    length ← add_length (len (lambda_source l)) (len (lambda_context l));
    add_length length 8
  | KQValue v =>
    if MAX_VALUE_DEPTH - depth <? q_max_depth v then
      serialize_error ("q value nesting exceeds " +:+ show MAX_VALUE_DEPTH +:+ " levels")
    else Ok (len (as_bytes v))
  | KNull => Ok 2
  | KDict entries =>
    _ ← checked_q_count (len entries);
    try_fold (fun length entry =>
      let '(key, value) := entry in
      _ ← validate_q_symbol key;
      length ← add_length length (len key);
      length ← add_length length 1;
      size ← j6_len_with_depth value (depth + 1);
      add_length length size) 13 entries
  end.

Definition j6_len (k : K Series DataFrame) : res Z := j6_len_with_depth k 0.
End Sizes.
