(* ===== verification/AnyValue.v ===== *)
(** * AnyValue: single Polars values and the q types of values
    ([K::try_from_any_value] and [K::try_get_j_type_code] of [crates/xqdb/src/types.rs])

    Polars' [AnyValue] and [DataType] with the constructors the code tells apart; the
    rest is one constructor that carries its debug text. *)

From stdpp Require Import prelude strings.
From Stdlib Require Import ZArith.
From S2P Require Import Prelude Errors Types QValue Text Value.

Inductive TimeUnit : Type := Nanoseconds | Microseconds | Milliseconds.

#[export] Instance TimeUnit_eq_dec : EqDecision TimeUnit.
Proof. solve_decision. Defined.

(** A categorical value carries its index and what [cat_to_str] makes of it. *)
Inductive AnyValue {Series : Type} : Type :=
| AnyNull
| AnyBoolean (b : bool)
| AnyString (text : list Z)
| AnyStringOwned (text : list Z)
| AnyUInt8 (v : Z)
| AnyInt16 (v : Z)
| AnyInt32 (v : Z)
| AnyInt64 (v : Z)
| AnyFloat32 (bits : Z)
| AnyFloat64 (bits : Z)
| AnyBinary (value : list Z)
| AnyBinaryOwned (value : list Z)
| AnyDate (v : Z)
| AnyDatetime (v : Z) (unit : TimeUnit)
| AnyDuration (v : Z) (unit : TimeUnit)
| AnyTime (v : Z)
| AnyCategorical (index : Z) (symbol : option (list Z))
| AnyList (s : Series)
| AnyUnsupported (debug : string).
Arguments AnyValue : clear implicits.

Definition time_unit_multiplier (unit : TimeUnit) : Z :=
  match unit with Nanoseconds => 1 | Microseconds => 1000 | Milliseconds => 1000000 end.

Definition out_of_range (kind : string) : XqdbError :=
  NotAbleToSerializeErr ("Polars " +:+ kind +:+ " value is outside q's representable range").

Section Convert.
  Context `{Allocator} `{Chrono} {Series DataFrame : Type}.

(** [<[u8; 16]>::try_from(value)]. *)
Definition guid_of (value : list Z) : res (K Series DataFrame) :=
  if len value =? 16 then Ok (KGuid value)
  else serialize_error "Polars binary value must be exactly 16 bytes to encode as a GUID".

Definition UNIX_DAY_OFFSET : Z := 719163.

Definition try_from_any_value (a : AnyValue Series) : res (K Series DataFrame) :=
  match a with
  | AnyNull => Ok KNull
  | AnyBoolean b => Ok (KBoolean b)
  | AnyString s | AnyStringOwned s => text ← try_own_str s "q string value"; Ok (KString text)
  | AnyUInt8 v => Ok (KU8 v)
  | AnyInt16 v => Ok (KI16 v)
  | AnyInt32 v => Ok (KI32 v)
  | AnyInt64 v => Ok (KI64 v)
  | AnyFloat32 bits => Ok (KF32 bits)
  | AnyFloat64 bits => Ok (KF64 bits)
  | AnyBinary value | AnyBinaryOwned value => guid_of value
  | AnyDate v =>
    d ← ok_or (days ← i32_checked (v + UNIX_DAY_OFFSET); from_num_days_from_ce_opt days)
      (out_of_range "date");
    Ok (KDate d)
  | AnyDatetime v unit =>
    nanoseconds ← ok_or (i64_checked (v * time_unit_multiplier unit)) (out_of_range "datetime");
    Ok (KDateTime (from_timestamp_nanos nanoseconds))
  | AnyDuration v unit =>
    nanoseconds ← ok_or (i64_checked (v * time_unit_multiplier unit)) (out_of_range "duration");
    Ok (KDuration (duration_nanoseconds nanoseconds))
  | AnyTime v =>
    nanoseconds ← ok_or (if (0 <=? v) && (v <? NANOS_PER_DAY) then Some v else None)
      (out_of_range "time");
    t ← ok_or (from_num_seconds_from_midnight_opt (nanoseconds / 1000000000) (nanoseconds mod 1000000000))
      (out_of_range "time");
    Ok (KTime t)
  | AnyCategorical i symbol =>
    symbol ← ok_or symbol
      (NotAbleToSerializeErr ("Polars categorical index " +:+ show i +:+ " has no symbol"));
    _ ← validate_q_symbol symbol;
    Ok (KSymbol symbol)
  | AnyList s => Ok (KSeries s)
  | AnyUnsupported debug => serialize_error ("unsupported Polars value " +:+ debug)
  end.

Definition from_any_value (a : AnyValue Series) : K Series DataFrame :=
  match try_from_any_value a with Ok k => k | _ => KNull end.
End Convert.

(** ** q type codes *)

Inductive DataType : Type :=
| DNull | DString | DList (child : DataType) | DArray (child : DataType) (size : Z) | DBoolean | DBinary | DUInt8 | DInt16 | DInt32 | DInt64
| DFloat32 | DFloat64 | DCategorical | DDatetime (unit : TimeUnit) | DDate
| DDuration (unit : TimeUnit) | DTime
| DUnsupported (debug : string).

Class SeriesType (Series : Type) := { dtype : Series -> DataType }.

Section TypeCode.
  Context `{Chrono} {Series DataFrame : Type} `{SeriesType Series}.

Definition series_type_code (t : DataType) : res Z :=
  match t with
  | DNull | DString | DList _ | DArray _ _ => Ok 0
  | DBoolean => Ok 1
  | DBinary => Ok 2
  | DUInt8 => Ok 4
  | DInt16 => Ok 5
  | DInt32 => Ok 6
  | DInt64 => Ok 7
  | DFloat32 => Ok 8
  | DFloat64 => Ok 9
  | DCategorical => Ok 11
  | DDatetime Milliseconds => Ok 15
  | DDatetime _ => Ok 12
  | DDate => Ok 14
  | DDuration _ => Ok 16
  | DTime => Ok 19
  | DUnsupported debug => Err (NotSupportedSeriesTypeErr debug)
  end.

Definition try_get_j_type_code (k : K Series DataFrame) : res Z :=
  match k with
  | KSeries s => series_type_code (dtype s)
  | KBoolean _ => Ok (-1)
  | KGuid _ => Ok (-2)
  | KU8 _ => Ok (-4)
  | KI16 _ => Ok (-5)
  | KI32 _ => Ok (-6)
  | KI64 _ => Ok (-7)
  | KF32 _ => Ok (-8)
  | KF64 _ => Ok (-9)
  | KChar _ => Ok (-10)
  | KCharVector _ | KString _ => Ok 10
  | KSymbol _ => Ok (-11)
  | KDateTime _ => Ok (-12)
  | KDate _ => Ok (-14)
  | KDuration _ => Ok (-16)
  | KTime _ => Ok (-19)
  | KMixedList _ => Ok 0
  | KDataFrame _ => Ok 98
  | KDict _ => Ok 99
  | KQValue v => Ok (q_type_code v)
  | KOperator o => Ok (op_k_type o)
  | KLambda _ => Ok 100
  | KNull => Ok 101
  end.

Definition get_j_type_code (k : K Series DataFrame) : Z :=
  match try_get_j_type_code k with Ok code => code | _ => 100 end.
End TypeCode.
