(* ===== verification/WireText.v ===== *)
(** * WireText: reading bytes and text off the wire
    (the reading helpers of [crates/xqdb/src/serde6.rs])

    A cursor is passed and returned; text is decoded under the connection's symbol
    encoding. *)

From stdpp Require Import prelude strings.
From S2P Require Import Prelude Errors Types Utf8 Compress Text.

(** [{error}] of a [Utf8Error]: the first invalid sequence. *)
Fixpoint utf8_error_at (index : Z) (units : list utf8_unit) : string :=
  match units with
  | [] => EmptyString
  | UValid bs :: units => utf8_error_at (index + len bs) units
  | UInvalid bs :: units =>
    if (match units with [] => true | _ => false end)
       && between 194 (default 0 (head bs)) 244
    then "incomplete utf-8 byte sequence from index " +:+ show index
    else "invalid utf-8 sequence of " +:+ show (len bs) +:+ " bytes from index " +:+ show index
  end.

(** [Cow<str>] as far as it matters: was the text transcoded into a fresh string. *)
Record Decoded : Type := MkDecoded { decoded_text : list Z; decoded_owned : bool }.

Definition transcode_utf8_lossy `{Allocator} (bytes : list Z) (context : string) : res (list Z) :=
  let transcoded_length :=
    foldl (fun length u =>
             saturating_add
               (saturating_add length (if unit_valid u then len (unit_bytes u) else 0))
               (if unit_valid u then 0 else len REPLACEMENT_CHARACTER))
          0 (utf8_units bytes) in
  _ ← reserve transcoded_length (fun error =>
        DeserializationErr ("unable to allocate " +:+ context +:+ " of " +:+ show transcoded_length
                            +:+ " transcoded byte(s): " +:+ error));
  Ok (lossy_text bytes).

Definition decode_utf8 `{Allocator} (bytes : list Z) (encoding : SymbolEncoding) (context : string)
    : res Decoded :=
  if is_utf8 bytes then Ok (MkDecoded bytes false)
  else
    match encoding with
    | Strict => corrupt (context +:+ " is not valid UTF-8: " +:+ utf8_error_at 0 (utf8_units bytes))
    | Lossy => text ← transcode_utf8_lossy bytes context; Ok (MkDecoded text true)
    end.

Definition try_own_decoded `{Allocator} (text : Decoded) (context : string) : res (list Z) :=
  if decoded_owned text then Ok (decoded_text text) else try_own_str (decoded_text text) context.

(** [take_bytes::<n>]. *)
Definition take_bytes (n : Z) (bytes : list Z) (pos : Z) (context : string) : res (list Z * Z) :=
  stop ← ok_or (checked_add pos n) (DeserializationErr (context +:+ " byte range overflowed"));
  value ← ok_or (get_range bytes pos stop)
    (DeserializationErr (context +:+ " omitted " +:+ show n +:+ " byte(s)"));
  Ok (value, stop).

Definition take_until_nul (bytes : list Z) (pos : Z) (context : string) : res (list Z * Z) :=
  tail ← ok_or (get_from bytes pos)
    (DeserializationErr (context +:+ " starts beyond the available payload"));
  length ← ok_or (find_nul tail) (DeserializationErr (context +:+ " is not NUL-terminated"));
  stop ← ok_or (checked_add pos length) (DeserializationErr (context +:+ " length overflowed"));
  value ← or_panic (get_range bytes pos stop);
  next ← ok_or (checked_add stop 1)
    (DeserializationErr (context +:+ " terminator offset overflowed"));
  Ok (value, next).

Definition take_utf8_until_nul `{Allocator} (bytes : list Z) (pos : Z) (encoding : SymbolEncoding)
    (context : string) : res (Decoded * Z) :=
  '(value, pos) ← take_until_nul bytes pos context;
  text ← decode_utf8 value encoding context;
  Ok (text, pos).

(** [q_list_length]. *)
Definition q_list_length (length : Z) : res (list Z) :=
  i ← ok_or (try_i32 length) OverLengthErr; Ok (i32_to_le i).
