(* ===== verification/Serialize.v ===== *)
(** * Serialize: writing a native value
    ([serialize_into] and [serialize] of [crates/xqdb/src/serde6.rs]) *)

From stdpp Require Import prelude strings.
From S2P Require Import Prelude Errors Types QValue Text Value WireText.

Section Serialize.
  Context `{Chrono} {Series DataFrame : Type} `{SeriesEncoder Series DataFrame}.

(** A name and its terminator. *)
Definition push_symbol (vec name : list Z) : res (list Z) :=
  _ ← validate_q_symbol name; Ok (vec ++ name ++ [0]).

Definition push_series (vec : list Z) (s : Series) : res (list Z) :=
  bytes ← serialize_series s; Ok (vec ++ bytes).

(** [to_le_bytes] of the milliseconds of a time, a [u32] read as an [i32]. *)
Definition time_milliseconds (t : NaiveTime) : Z :=
  signed 32 (unsigned 32 (num_seconds_from_midnight t * 1000 + nanosecond t / 1000000)).

(** What is appended to [vec] for [k]. *)
Fixpoint serialize_into (k : K Series DataFrame) (vec : list Z) : res (list Z) :=
  match k with
  | KBoolean b => Ok (vec ++ [255; if b then 1 else 0])
  | KGuid bytes => Ok (vec ++ 254 :: bytes)
  | KU8 v => Ok (vec ++ [252; v])
  | KI16 v => Ok (vec ++ 251 :: i16_to_le v)
  | KI32 v => Ok (vec ++ 250 :: i32_to_le v)
  | KI64 v => Ok (vec ++ 249 :: i64_to_le v)
  | KF32 bits => Ok (vec ++ 248 :: to_le 4 bits)
  | KF64 bits => Ok (vec ++ 247 :: to_le 8 bits)
  | KChar v => Ok (vec ++ [246; v])
  | KSymbol text => push_symbol (vec ++ [245]) text
  | KCharVector bytes | KString bytes =>
    length ← q_list_length (len bytes);
    Ok (vec ++ [10; 0] ++ length ++ bytes)
  | KDateTime t =>
    unix_nanoseconds ← ok_or (timestamp_nanos_opt t)
      (NotAbleToSerializeErr "timestamp is outside q's representable nanosecond range");
    q_nanoseconds ← q_timestamp_nanoseconds unix_nanoseconds;
    Ok (vec ++ 244 :: i64_to_le q_nanoseconds)
  | KDate d =>
    days ← ok_or (i32_checked (num_days_from_ce d - DAY_DIFF))
      (NotAbleToSerializeErr "date is outside q's representable range");
    Ok (vec ++ 242 :: i32_to_le days)
  | KTime t => Ok (vec ++ 237 :: i32_to_le (time_milliseconds t))
  | KDuration d =>
    ns ← ok_or (num_nanoseconds d)
      (NotAbleToSerializeErr "duration is outside q's representable nanosecond range");
    Ok (vec ++ 240 :: i64_to_le ns)
  | KMixedList values =>
    length ← q_list_length (len values);
    try_fold (fun vec v => serialize_into v vec) (vec ++ [0; 0] ++ length) values
  | KSeries s => push_series vec s
  | KDataFrame df =>
    let columns := frame_columns df in
    column_count ← q_list_length (len columns);
    vec ← try_fold push_symbol (vec ++ [98; 0; 99; 11; 0] ++ column_count) (map fst columns);
    try_fold push_series (vec ++ [0; 0] ++ column_count) (map snd columns)
  | KQValue v => Ok (vec ++ as_bytes v)
  | KOperator o =>
    let '(k_type, opcode) := wire_value o in Ok (vec ++ [k_type; opcode])
  | KLambda l =>
    source_length ← q_list_length (len (lambda_source l));
    Ok (vec ++ 100 :: lambda_context l ++ [0; 10; 0] ++ source_length ++ lambda_source l)
  | KNull => Ok (vec ++ [101; 0])
  | KDict entries =>
    length ← q_list_length (len entries);
    vec ← try_fold (fun vec entry => push_symbol vec entry.1) (vec ++ [99; 11; 0] ++ length) entries;
    try_fold (fun vec entry => serialize_into entry.2 vec) (vec ++ [0; 0] ++ length) entries
  end.

(** [serialize]: sized first, which also enforces the nesting limit. *)
Definition serialize (k : K Series DataFrame) : res (list Z) :=
  _ ← j6_len k;
  serialize_into k [].
End Serialize.
