(* ===== verification/Float64.v ===== *)
(** * Float64: floats of Rust, q and JavaScript
    ([finite_f64_to_i64] and [q_datetime_nanoseconds] of [crates/xqdb/src/serde6.rs], and
    the datetimes [serialize_series_into] writes)

    A float is its 64-bit pattern; products round as IEEE 754 says. *)

From stdpp Require Import prelude strings.
From Stdlib Require Import ZArith SpecFloat Lia ZifyBool.
From S2P Require Import Prelude Errors Compress Value.

Definition f64_of_bits (bits : Z) : spec_float :=
  let sign := Z.testbit bits 63 in
  let exponent := Z.shiftr bits 52 mod 2048 in
  let mantissa := bits mod 2 ^ 52 in
  if exponent =? 2047 then if mantissa =? 0 then S754_infinity sign else S754_nan
  else
    match (if exponent =? 0 then mantissa else mantissa + 2 ^ 52) with
    | Zpos m => S754_finite sign m (if exponent =? 0 then -1074 else exponent - 1075)
    | _ => S754_zero sign
    end.

Definition is_nan (x : spec_float) : bool := match x with S754_nan => true | _ => false end.
Definition is_finite (x : spec_float) : bool :=
  match x with S754_zero _ | S754_finite _ _ _ => true | _ => false end.

Definition f64_mul : spec_float -> spec_float -> spec_float := SFmul 53 1024.

(** [MS_PER_DAY], 86400000.0. *)
Definition MS_PER_DAY : spec_float := binary_normalize 53 1024 86400000 0 false.

(** [x.round()]: to the nearest integer, halves away from zero; an integer of a
    finite [x], which [f64] represents. *)
Definition f64_round (x : spec_float) : option Z :=
  match x with
  | S754_zero _ => Some 0
  | S754_finite sign m e =>
    let magnitude :=
      if 0 <=? e then Zpos m * 2 ^ e else (Zpos m + 2 ^ (- e - 1)) / 2 ^ (- e) in
    Some (if sign then - magnitude else magnitude)
  | _ => None
  end.

(** [finite_f64_to_i64] of a rounded value, [None] for one that is not finite. *)
Definition finite_f64_to_i64 (value : option Z) (context : string) : res Z :=
  match value with
  | Some value =>
    if (i64_min <=? value) && (value <? i64_max + 1) then Ok value
    else corrupt (context +:+ " is outside the i64 range")
  | None => corrupt (context +:+ " is outside the i64 range")
  end.

Definition q_datetime_nanoseconds (q_days : spec_float) : res Z :=
  q_milliseconds ← finite_f64_to_i64 (f64_round (f64_mul q_days MS_PER_DAY)) "finite q datetime";
  ok_or (value ← i64_checked (q_milliseconds * 1000000); i64_checked (value + NANOS_DIFF))
    (DeserializationErr "finite q datetime is outside the Unix nanosecond range").

(** ** Back to bits *)

(** [f64::NAN] and [f32::NAN]. *)
Definition F64_NAN : Z := 9221120237041090560.
Definition F32_NAN : Z := 2143289344.

(** [value.to_bits()], for a value in canonical form. *)
Definition bits_of_f64 (x : spec_float) : Z :=
  let signed (sign : bool) magnitude := (if sign then 2 ^ 63 else 0) + magnitude in
  match x with
  | S754_zero sign => signed sign 0
  | S754_infinity sign => signed sign (2047 * 2 ^ 52)
  | S754_nan => F64_NAN
  | S754_finite sign m e =>
    signed sign (if Zpos m <? 2 ^ 52 then Zpos m else (e + 1075) * 2 ^ 52 + (Zpos m - 2 ^ 52))
  end.

(** [value as f64]: the nearest [f64]. *)
Definition f64_of_i64 (value : Z) : spec_float := binary_normalize 53 1024 value 0 false.

(** [value as f64 / MS_PER_DAY - 10_957.0], in bits. *)
Definition q_datetime_bits (unix_milliseconds : Z) : Z :=
  bits_of_f64 (SFsub 53 1024 (SFdiv 53 1024 (f64_of_i64 unix_milliseconds) MS_PER_DAY)
                 (f64_of_i64 10957)).

(** ** Numbers: JavaScript numbers as the binding reads and writes them

    A JavaScript number is an [f64], given by its bits; integers of the core cross as
    numbers, so the conversions ([as f64], [as i64], [as f32]) and the tests of
    [required_integer], [number_to_usize] and [safe_nonnegative_integer] in
    [bindings/napi-xqdb/src/] are here. *)

(** ** [f32] *)

Definition f32_of_bits (bits : Z) : spec_float :=
  let sign := Z.testbit bits 31 in
  let exponent := Z.shiftr bits 23 mod 256 in
  let mantissa := bits mod 2 ^ 23 in
  if exponent =? 255 then if mantissa =? 0 then S754_infinity sign else S754_nan
  else
    match (if exponent =? 0 then mantissa else mantissa + 2 ^ 23) with
    | Zpos m => S754_finite sign m (if exponent =? 0 then -149 else exponent - 150)
    | _ => S754_zero sign
    end.

Definition bits_of_f32 (x : spec_float) : Z :=
  let signed (sign : bool) magnitude := (if sign then 2 ^ 31 else 0) + magnitude in
  match x with
  | S754_zero sign => signed sign 0
  | S754_infinity sign => signed sign (255 * 2 ^ 23)
  | S754_nan => F32_NAN
  | S754_finite sign m e =>
    signed sign (if Zpos m <? 2 ^ 23 then Zpos m else (e + 150) * 2 ^ 23 + (Zpos m - 2 ^ 23))
  end.

(** [as f64] of an [f32] and [as f32] of an [f64]: the nearest number; a NaN is a NaN. *)
Definition round_to (prec emax : Z) (x : spec_float) : spec_float :=
  match x with S754_finite sign m e => binary_round prec emax sign m e | _ => x end.
Definition f64_of_f32 : spec_float -> spec_float := round_to 53 1024.
Definition f32_of_f64 : spec_float -> spec_float := round_to 24 128.

(** [f32::MAX as f64] and [f32::MIN as f64]. *)
Definition F32_MAX : spec_float := binary_normalize 53 1024 (2 ^ 24 - 1) 104 false.
Definition F32_MIN : spec_float := binary_normalize 53 1024 (- (2 ^ 24 - 1)) 104 false.

(** ** Integers *)

(** The integer a finite number without fractional part is. *)
Definition f64_integer (x : spec_float) : option Z :=
  match x with
  | S754_zero _ => Some 0
  | S754_finite sign m e =>
    let signed (magnitude : Z) := if sign then - magnitude else magnitude in
    if 0 <=? e then Some (signed (Zpos m * 2 ^ e))
    else if Zpos m mod 2 ^ (- e) =? 0 then Some (signed (Zpos m / 2 ^ (- e)))
    else None
  | _ => None
  end.

(** The integer in [minimum..=maximum] a number is; the bounds are exact as [f64]. *)
Definition integer_within (minimum maximum : Z) (bits : Z) : option Z :=
  match f64_integer (f64_of_bits bits) with
  | Some value => if (value <? minimum) || (maximum <? value) then None else Some value
  | None => None
  end.

Definition MAX_SAFE_INTEGER : Z := 9007199254740991.

(** A safe integer that a [usize] holds, [usize::MAX as f64] being [2^64]. *)
Definition safe_usize (bits : Z) : option Z :=
  match integer_within 0 MAX_SAFE_INTEGER bits with
  | Some value => if 2 ^ 64 <? value then None else Some value
  | None => None
  end.

(** [value as f64], as the bits of the number. *)
Definition number_of_integer (value : Z) : Z := bits_of_f64 (f64_of_i64 value).
Definition number_of_f32 (bits : Z) : Z := bits_of_f64 (f64_of_f32 (f32_of_bits bits)).

(** ** The conversions that lose nothing *)

(** ** Rounding a number that is representable *)

Lemma digits_log2 m : Zpos (digits2_pos m) = Z.log2 (Zpos m) + 1.
Proof.
  induction m as [m IH|m IH|]; cbn [digits2_pos]; [| |done].
  - rewrite Pos2Z.inj_succ, IH. change (Zpos m~1) with (2 * Zpos m + 1).
    rewrite Z.log2_succ_double by lia. lia.
  - rewrite Pos2Z.inj_succ, IH. change (Zpos m~0) with (2 * Zpos m). rewrite Z.log2_double by lia. lia.
Qed.

Lemma iter_xO m d : Zpos (Pos.iter xO m d) = Zpos m * 2 ^ Zpos d.
Proof.
  revert m. induction d as [|d IH] using Pos.peano_ind; intros m; [cbn; lia|].
  rewrite Pos.iter_succ, Pos2Z.inj_xO, IH, Pos2Z.inj_succ, Z.pow_succ_r by lia. lia.
Qed.

Lemma iter_shr_1 p m :
  iter_pos shr_1 p (Build_shr_record (Zpos m * 2 ^ Zpos p) false false)
  = Build_shr_record (Zpos m) false false.
Proof.
  revert m.
  assert (Hstep : forall m, shr_1 (Build_shr_record (Zpos m * 2) false false) = Build_shr_record (Zpos m) false false).
  { intros m. replace (Zpos m * 2) with (Zpos m~0) by lia. done. }
  assert (Htwice : forall q m, Zpos m * 2 ^ Zpos q = Zpos (Pos.iter xO m q)) by (intros; by rewrite iter_xO).
  induction p as [p IH|p IH|]; intros m; cbn [iter_pos].
  - replace (Zpos m * 2 ^ Zpos p~1) with (Zpos (Pos.iter xO (Pos.iter xO m p) p) * 2).
    2: { rewrite !iter_xO. replace (Zpos p~1) with (Zpos p + Zpos p + 1) by lia.
         rewrite !Z.pow_add_r by lia. lia. }
    by rewrite Hstep, <- Htwice, IH, <- Htwice, IH.
  - replace (Zpos m * 2 ^ Zpos p~0) with (Zpos (Pos.iter xO m p) * 2 ^ Zpos p).
    2: { rewrite iter_xO. replace (Zpos p~0) with (Zpos p + Zpos p) by lia. rewrite Z.pow_add_r by lia. lia. }
    by rewrite IH, <- Htwice, IH.
  - replace (Zpos m * 2 ^ 1) with (Zpos m * 2) by lia. apply Hstep.
Qed.

(** The exponent of a mantissa [m] times [2 ^ e], in canonical form. *)
Definition exponent_of (prec emax m e : Z) : Z := fexp prec emax (Z.log2 m + 1 + e).

Lemma log2_mul_pow2' m n : 0 < m -> 0 <= n -> Z.log2 (m * 2 ^ n) = n + Z.log2 m.
Proof. intros. by rewrite Z.log2_mul_pow2 by lia. Qed.

Lemma round_aux_canonical prec emax sign m e :
  exponent_of prec emax (Zpos m) e = e -> e <= emax - prec ->
  binary_round_aux prec emax sign (Zpos m) e loc_Exact = S754_finite sign m e.
Proof.
  intros He Hmax. unfold binary_round_aux, shr_fexp. cbn [Zdigits2 shr_record_of_loc].
  rewrite digits_log2. unfold exponent_of in He. rewrite He, Z.sub_diag. cbn [shr shr_m loc_of_shr_record].
  cbn [round_nearest_even Zdigits2 shr_record_of_loc]. rewrite digits_log2, He, Z.sub_diag. cbn [shr shr_m].
  by replace (e <=? emax - prec) with true by lia.
Qed.

(** [m' * 2 ^ e'] is canonical and equal to [m * 2 ^ e]. *)
Lemma binary_round_exact prec emax sign m e m' e' :
  exponent_of prec emax (Zpos m') e' = e' -> e' <= emax - prec ->
  (if e' <=? e then Zpos m' = Zpos m * 2 ^ (e - e') else Zpos m = Zpos m' * 2 ^ (e' - e)) ->
  binary_round prec emax sign m e = S754_finite sign m' e'.
Proof.
  intros He Hmax Hm. unfold binary_round. rewrite digits_log2.
  assert (Hlog : Z.log2 (Zpos m) + 1 + e = Z.log2 (Zpos m') + 1 + e').
  { destruct (Z.leb_spec e' e); rewrite Hm, log2_mul_pow2' by lia; lia. }
  assert (He' : fexp prec emax (Z.log2 (Zpos m) + 1 + e) = e') by (by rewrite Hlog).
  rewrite He'. unfold shl_align. destruct (Z.leb_spec e' e) as [Hle|Hgt].
  - destruct (e' - e) as [|d|d] eqn:Ed.
    + assert (e' = e) as -> by lia. rewrite Z.sub_diag, Z.mul_1_r in Hm. injection Hm as ->.
      by apply round_aux_canonical.
    + lia.
    + assert (Pos.iter xO m d = m') as ->; [|by apply round_aux_canonical].
      assert (Zpos (Pos.iter xO m d) = Zpos m') as [=]; [|done]. rewrite iter_xO, Hm. do 2 f_equal. lia.
  - destruct (e' - e) as [|d|d] eqn:Ed; [lia| |lia].
    unfold binary_round_aux. unfold shr_fexp at 1. cbn [Zdigits2 shr_record_of_loc].
    rewrite digits_log2, He', Ed. cbn [shr]. rewrite Hm, iter_shr_1. cbn [shr_m loc_of_shr_record round_nearest_even].
    unfold shr_fexp. cbn [Zdigits2 shr_record_of_loc]. rewrite digits_log2.
    replace (e + Zpos d) with e' by lia. unfold exponent_of in He. rewrite He, Z.sub_diag. cbn [shr shr_m].
    by replace (e' <=? emax - prec) with true by lia.
Qed.

(** ** Normal form of a mantissa *)

(** A mantissa of at most [53] bits, shifted until it has [53]. *)
Lemma normal_mantissa m e :
  Zpos m < 2 ^ 53 -> -1000 <= e <= 900 ->
  exists m' e', e' <= e /\ Zpos m' = Zpos m * 2 ^ (e - e') /\ 2 ^ 52 <= Zpos m' < 2 ^ 53
    /\ e - 52 <= e' /\ exponent_of 53 1024 (Zpos m') e' = e'.
Proof.
  intros Hm He. set (e' := e + Z.log2 (Zpos m) - 52).
  assert (Hlog : 0 <= Z.log2 (Zpos m) < 53) by (split; [apply Z.log2_nonneg|by apply Z.log2_lt_pow2]).
  assert (Hspec : 2 ^ Z.log2 (Zpos m) <= Zpos m < 2 ^ (Z.succ (Z.log2 (Zpos m)))) by (apply Z.log2_spec; lia).
  assert (Hpos : 0 < Zpos m * 2 ^ (e - e')) by (apply Z.mul_pos_pos; [lia|apply Z.pow_pos_nonneg; lia]).
  destruct (Zpos m * 2 ^ (e - e')) as [|m'|] eqn:Em; [lia| |lia].
  assert (Hb : 2 ^ 52 <= Zpos m' < 2 ^ 53).
  { rewrite <- Em. split.
    - replace (2 ^ 52) with (2 ^ Z.log2 (Zpos m) * 2 ^ (e - e')) by (rewrite <- Z.pow_add_r by lia; f_equal; lia).
      apply Z.mul_le_mono_nonneg_r; [apply Z.pow_nonneg; lia|lia].
    - replace (2 ^ 53) with (2 ^ (Z.succ (Z.log2 (Zpos m))) * 2 ^ (e - e')) by (rewrite <- Z.pow_add_r by lia; f_equal; lia).
      apply Z.mul_lt_mono_pos_r; [apply Z.pow_pos_nonneg; lia|lia]. }
  exists m', e'. split_and!; [lia|done|apply Hb|apply Hb|lia|].
  unfold exponent_of, fexp, emin. assert (Z.log2 (Zpos m') = 52) as -> by (apply Z.log2_unique; lia). lia.
Qed.

(** The bits of a normal number. *)
Lemma f64_normal_bits sign m e :
  2 ^ 52 <= Zpos m < 2 ^ 53 -> -1074 <= e <= 971 ->
  f64_of_bits (bits_of_f64 (S754_finite sign m e)) = S754_finite sign m e.
Proof.
  intros Hm He. unfold bits_of_f64. replace (Zpos m <? 2 ^ 52) with false by lia.
  set (mantissa := Zpos m - 2 ^ 52). set (low := (e + 1075) * 2 ^ 52 + mantissa).
  assert (Hlow : 0 <= low < 2 ^ 63) by (unfold low, mantissa; lia).
  assert (Hmod : low mod 2 ^ 52 = mantissa).
  { unfold low. rewrite Z.add_comm, Z.mod_add by lia. apply Z.mod_small. unfold mantissa. lia. }
  assert (Hdiv : low / 2 ^ 52 = e + 1075).
  { unfold low. rewrite Z.add_comm, Z.div_add by lia. rewrite Z.div_small by (unfold mantissa; lia). lia. }
  set (bits := (if sign then 2 ^ 63 else 0) + low).
  assert (Hsign : Z.testbit bits 63 = sign).
  { unfold bits. rewrite Z.testbit_odd, Z.shiftr_div_pow2 by lia. destruct sign.
    - replace (2 ^ 63 + low) with (low + 1 * 2 ^ 63) by lia. rewrite Z.div_add, Z.div_small by lia. done.
    - rewrite Z.add_0_l, Z.div_small by lia. done. }
  assert (Hexp : Z.shiftr bits 52 mod 2048 = e + 1075).
  { unfold bits. rewrite Z.shiftr_div_pow2 by lia. destruct sign.
    - replace (2 ^ 63 + low) with (low + 2048 * 2 ^ 52) by lia.
      rewrite Z.div_add, Hdiv by lia. rewrite <- (Z.mul_1_l 2048) at 1. rewrite Z.mod_add by lia. apply Z.mod_small. lia.
    - rewrite Z.add_0_l, Hdiv. apply Z.mod_small. lia. }
  assert (Hman : bits mod 2 ^ 52 = mantissa).
  { unfold bits. destruct sign; [|by rewrite Z.add_0_l].
    replace (2 ^ 63 + low) with (low + 2 ^ 11 * 2 ^ 52) by lia. by rewrite Z.mod_add by lia. }
  unfold f64_of_bits. rewrite Hsign, Hexp, Hman. replace (e + 1075 =? 2047) with false by lia.
  replace (e + 1075 =? 0) with false by lia. replace (mantissa + 2 ^ 52) with (Zpos m) by (unfold mantissa; lia).
  f_equal. lia.
Qed.

(** ** Integers as numbers *)

Lemma binary_round_normal sign m e m' e' :
  Zpos m' = Zpos m * 2 ^ (e - e') -> e' <= e -> e' <= 971 -> exponent_of 53 1024 (Zpos m') e' = e' ->
  binary_round 53 1024 sign m e = S754_finite sign m' e'.
Proof.
  intros Hm Hle Hmax He. apply binary_round_exact; [done|lia|]. by replace (e' <=? e) with true by lia.
Qed.

(** A safe integer is a number, and read as an integer it is itself. *)
Lemma f64_integer_number v :
  Z.abs v < 2 ^ 53 -> f64_integer (f64_of_bits (number_of_integer v)) = Some v.
Proof.
  intros Hv. unfold number_of_integer, f64_of_i64, binary_normalize. destruct v as [|p|p]; [done| |].
  all: destruct (normal_mantissa p 0) as (m & e & He & Hm & Hb & Hlow & Hexp); [lia..|].
  all: rewrite (binary_round_normal _ p 0 m e) by (done || lia).
  all: rewrite f64_normal_bits by lia; unfold f64_integer; rewrite Z.sub_0_l in Hm.
  all: destruct (Z.leb_spec 0 e) as [Hz|Hz]; [assert (e = 0) as -> by lia; do 2 f_equal; lia|].
  all: rewrite Hm, Z.mod_mul, Z.div_mul by (apply Z.pow_nonzero; lia); done.
Qed.

Lemma integer_within_number lo hi v :
  lo <= v <= hi -> Z.abs v < 2 ^ 53 -> integer_within lo hi (number_of_integer v) = Some v.
Proof.
  intros Hb Hv. unfold integer_within. rewrite f64_integer_number by done.
  by replace ((v <? lo) || (hi <? v)) with false by lia.
Qed.

Lemma safe_usize_number v : 0 <= v < 2 ^ 53 -> safe_usize (number_of_integer v) = Some v.
Proof.
  intros Hv. unfold safe_usize. rewrite integer_within_number by (unfold MAX_SAFE_INTEGER; lia).
  by replace (2 ^ 64 <? v) with false by lia.
Qed.

Lemma integer_within_range lo hi bits v : integer_within lo hi bits = Some v -> lo <= v <= hi.
Proof.
  unfold integer_within. destruct (f64_integer _) as [w|]; [|done].
  destruct ((w <? lo) || (hi <? w)) eqn:E; [done|]. intros [= <-]. lia.
Qed.

(** ** [f32] *)

(** What a finite [f32] is. *)
Definition f32_finite (x : spec_float) : Prop :=
  match x with
  | S754_finite _ m e => exponent_of 24 128 (Zpos m) e = e /\ e <= 104 /\ Zpos m < 2 ^ 24 /\ -149 <= e
  | S754_nan => False
  | _ => True
  end.

Lemma f32_bits_cases bits :
  0 <= bits < 2 ^ 32 -> f32_of_bits bits = S754_nan
  \/ f32_finite (f32_of_bits bits) /\ bits_of_f32 (f32_of_bits bits) = bits.
Proof.
  intros Hb. set (sign := Z.testbit bits 31).
  set (exponent := Z.shiftr bits 23 mod 256). set (mantissa := bits mod 2 ^ 23).
  assert (Hm : 0 <= mantissa < 2 ^ 23) by (apply Z.mod_pos_bound; lia).
  assert (He : 0 <= exponent < 256) by (apply Z.mod_pos_bound; lia).
  assert (Hbits : bits = (if sign then 2 ^ 31 else 0) + exponent * 2 ^ 23 + mantissa).
  { unfold sign, exponent, mantissa. rewrite Z.testbit_odd, !Z.shiftr_div_pow2 by lia.
    assert (Hs : (if Z.odd (bits / 2 ^ 31) then 2 ^ 31 else 0) = 2 ^ 31 * (bits / 2 ^ 31)).
    { assert (0 <= bits / 2 ^ 31 < 2) as H by (split; [apply Z.div_pos; lia|apply Z.div_lt_upper_bound; lia]).
      assert (bits / 2 ^ 31 = 0 \/ bits / 2 ^ 31 = 1) as [-> | ->] by lia; done. }
    rewrite Hs. pose proof (Z.div_mod bits (2 ^ 23) ltac:(lia)).
    pose proof (Z.div_mod (bits / 2 ^ 23) 256 ltac:(lia)) as Hd.
    rewrite Z.div_div in Hd by lia. change (2 ^ 23 * 256) with (2 ^ 31) in Hd. lia. }
  unfold f32_of_bits. fold sign exponent mantissa. destruct (Z.eqb_spec exponent 255) as [Hx|Hx].
  - destruct (Z.eqb_spec mantissa 0) as [H0|]; [right|by left]. split; [done|]. cbn [bits_of_f32]. lia.
  - right. destruct (Z.eqb_spec exponent 0) as [H0|H0].
    + destruct mantissa as [|m|] eqn:Em; [split; [done|cbn [bits_of_f32]; lia]| |lia].
      split; [|cbn [bits_of_f32]; replace (Zpos m <? 2 ^ 23) with true by lia; lia].
      split_and!; [|lia..]. unfold exponent_of, fexp, emin.
      assert (Z.log2 (Zpos m) < 23) by (apply Z.log2_lt_pow2; lia). lia.
    + destruct (mantissa + 2 ^ 23) as [|m|] eqn:Em; [lia| |lia].
      split; [|cbn [bits_of_f32]; replace (Zpos m <? 2 ^ 23) with false by lia; lia].
      split_and!; [|lia..]. unfold exponent_of, fexp, emin.
      assert (Z.log2 (Zpos m) = 23) as -> by (apply Z.log2_unique; lia). lia.
Qed.

(** Widening an [f32] to a number and narrowing it again. *)
Lemma widened_finite x :
  f32_finite x -> f32_of_f64 (f64_of_bits (bits_of_f64 (f64_of_f32 x))) = x.
Proof.
  destruct x as [s|s| |sign m e]; try done; [by destruct s..|]. intros (He & Hmax & Hm & Hlow). cbn [f64_of_f32 round_to].
  destruct (normal_mantissa m e) as (m' & e' & Hle & Hm' & Hb & Hl & Hexp); [lia..|].
  unfold f64_of_f32, round_to. rewrite (binary_round_normal _ m e m' e') by (done || lia).
  rewrite f64_normal_bits by lia. unfold f32_of_f64, round_to.
  apply binary_round_exact; [done|lia|]. destruct (Z.leb_spec e e') as [Heq|]; [|done].
  assert (e = e') as <- by lia. rewrite Z.sub_diag in *. lia.
Qed.

Definition f32_normal (bits : Z) : Prop := 0 <= bits < 2 ^ 32 /\ (f32_of_bits bits = S754_nan -> bits = F32_NAN).

Lemma f32_number bits :
  f32_normal bits -> bits_of_f32 (f32_of_f64 (f64_of_bits (number_of_f32 bits))) = bits.
Proof.
  intros [Hb Hn]. unfold number_of_f32. destruct (f32_bits_cases bits Hb) as [E|[Hf Hbits]].
  - rewrite E, (Hn E). done.
  - by rewrite widened_finite.
Qed.

(** A widened [f32] is within the bounds of [f32]. *)
Lemma widened_bounds x (y := f64_of_bits (bits_of_f64 (f64_of_f32 x))) :
  f32_finite x -> is_finite y && (SFltb y F32_MIN || SFltb F32_MAX y) = false.
Proof.
  destruct x as [s|s| |sign m e]; try done; [by destruct s..|]. intros (He & Hmax & Hm & Hlow).
  destruct (normal_mantissa m e) as (m' & e' & Hle & Hm' & Hb & Hl & Hexp); [lia..|].
  assert (y = S754_finite sign m' e') as ->.
  { unfold y, f64_of_f32, round_to. rewrite (binary_round_normal _ m e m' e') by (done || lia).
    by rewrite f64_normal_bits by lia. }
  assert (Hle' : e' <= 75).
  { destruct (Z.le_gt_cases e' 75) as [|Hgt]; [done|].
    assert (Zpos m' < 2 ^ 24 * 2 ^ 28); [|lia]. rewrite Hm'.
    apply Z.lt_le_trans with (2 ^ 24 * 2 ^ (e - e')); [apply Z.mul_lt_mono_pos_r; [apply Z.pow_pos_nonneg; lia|lia]|].
    apply Z.mul_le_mono_nonneg_l; [lia|]. apply Z.pow_le_mono_r; lia. }
  change F32_MIN with (S754_finite true 9007198717870080 75). change F32_MAX with (S754_finite false 9007198717870080 75).
  cbn [is_finite andb]. unfold SFltb, SFcompare.
  assert (Hlast : e' = 75 -> Zpos m' <= 9007198717870080).
  { intros ->. rewrite Hm'. apply Z.le_trans with ((2 ^ 24 - 1) * 2 ^ (e - 75)).
    - apply Z.mul_le_mono_nonneg_r; [apply Z.pow_nonneg; lia|lia].
    - change 9007198717870080 with ((2 ^ 24 - 1) * 2 ^ 29). apply Z.mul_le_mono_nonneg_l; [lia|]. apply Z.pow_le_mono_r; lia. }
  assert (Hc : forall a b, Pos.compare_cont Eq a b = (a ?= b)%positive) by done.
  destruct sign; rewrite Hc.
  - destruct (Z.compare_spec e' 75) as [He7|?|?]; [|done|lia].
    specialize (Hlast He7). destruct (Pos.compare_spec m' 9007198717870080); [done..|lia].
  - destruct (Z.compare_spec 75 e') as [He7|?|?]; [|lia|done].
    specialize (Hlast (eq_sym He7)). destruct (Pos.compare_spec 9007198717870080 m'); [done|lia|done].
Qed.
