(* ===== verification/Deserialize.v ===== *)
(** * Deserialize: reading a native value
    ([deserialize] of [crates/xqdb/src/serde6.rs])

    The parser recurses at most [MAX_VALUE_DEPTH + 1] levels.  Lists are decoded
    into Polars series by a decoder that is a parameter. *)

From stdpp Require Import prelude strings.
From Stdlib Require Import ZArith.
From S2P Require Import Prelude Errors Types QValue Compress ListScan Text Value AnyValue WireText Float64.

(** What the code asks of Polars when it reads a value.  [symbol_admitted] is not an
    operation: it says which symbols the categories of the process have, or have room
    for. *)
Class SeriesDecoder `{Chrono} (Series DataFrame : Type) := {
  deserialize_series : list Z -> Z -> bool -> SymbolEncoding -> res (K Series DataFrame);
  new_empty_series : Z -> res (K Series DataFrame);
  series_len : Series -> Z;
  series_iter : Series -> list (AnyValue Series);
  categorical_names : Series -> res (list (list Z));
  string_names : Series -> outcome string (list (list Z));
  rename : Series -> list Z -> Series;
  hstack : DataFrame -> DataFrame -> res DataFrame;
  new_frame : list Series -> res DataFrame;
  symbol_admitted : list Z -> Prop
}.

(** [try_vec_with_capacity]. *)
Definition try_vec_with_capacity `{Allocator} (count : Z) (context : string) : res unit :=
  reserve count (fun error =>
    DeserializationErr ("unable to allocate " +:+ context +:+ " for " +:+ show count
                        +:+ " element(s): " +:+ error)).

(** [result.unwrap()]. *)
Definition unwrap {E A} (m : outcome E A) : res A :=
  match m with Ok a => Ok a | OutOfFuel => OutOfFuel | _ => Panicked end.

(** [XqdbError::Err]. *)
Definition failure {A} (message : string) : res A := Err (GeneralErr message).

Definition unix_timestamp_nanoseconds (q_nanoseconds : Z) : res Z :=
  if (q_nanoseconds =? i64_min + 1) || (q_nanoseconds =? i64_max) then
    corrupt "q timestamp infinity cannot be represented as a native timestamp"
  else ok_or (i64_checked (q_nanoseconds + NANOS_DIFF))
    (DeserializationErr "finite q timestamp is outside the Unix nanosecond range").

Section Deserialize.
  Context `{Allocator} `{Chrono} {Series DataFrame : Type} `{!SeriesDecoder Series DataFrame}.

Abbreviation kval := (K Series DataFrame).

(** ** Atoms *)

Definition month_date (unit : Z) : res kval :=
  let out_of_range := DeserializationErr "q month is outside chrono's representable range" in
  year ← ok_or (i32_checked (2000 + unit / 12)) out_of_range;
  d ← ok_or (from_ymd_opt year (unit mod 12 + 1) 1) out_of_range;
  Ok (KDate d).

Definition days_date (q_days : Z) : res kval :=
  let out_of_range := DeserializationErr "q date is outside chrono's representable range" in
  days ← ok_or (i32_checked (q_days + DAY_DIFF)) out_of_range;
  d ← ok_or (from_num_days_from_ce_opt days) out_of_range;
  Ok (KDate d).

(** Times, seconds and minutes: [multiplier] nanoseconds each. *)
Definition unit_time (k_type unit multiplier : Z) : res kval :=
  if unit <? 0 then Err (NotSupportedMinusTimeErr k_type)
  else
    let too_long := DeserializationErr "q time atom exceeds one day" in
    nanoseconds ← ok_or (n ← i64_checked (unit * multiplier);
                         if n <? NANOS_PER_DAY then Some n else None) too_long;
    t ← ok_or (from_num_seconds_from_midnight_opt
                 (nanoseconds / 1000000000) (nanoseconds mod 1000000000)) too_long;
    Ok (KTime t).

Definition boolean_atom (value : Z) : res kval :=
  if value =? 0 then Ok (KBoolean false)
  else if value =? 1 then Ok (KBoolean true)
  else corrupt ("q boolean atom must be 0 or 1, got " +:+ show value).

Definition timestamp_atom (q_ns : Z) : res kval :=
  if q_ns =? i64_min then Ok KNull
  else ns ← unix_timestamp_nanoseconds q_ns; Ok (KDateTime (from_timestamp_nanos ns)).

Definition datetime_atom (bits : Z) : res kval :=
  let unit := f64_of_bits bits in
  if is_nan unit then Ok KNull
  else if negb (is_finite unit) then
    corrupt "q datetime infinity cannot be represented as a native timestamp"
  else ns ← q_datetime_nanoseconds unit; Ok (KDateTime (from_timestamp_nanos ns)).

(** An atom of fixed width: its bytes and the value made of them. *)
Definition fixed_atom (n : Z) (context : string) (make : list Z -> res kval) (vec : list Z) (pos : Z)
    : res (kval * Z) :=
  '(bytes, pos) ← take_bytes n vec pos context;
  v ← make bytes;
  Ok (v, pos).

(** [237..=255 => match k_type]. *)
Definition deserialize_atom (vec : list Z) (pos k_type : Z) (encoding : SymbolEncoding)
    : res (kval * Z) :=
  if k_type =? 255 then
    fixed_atom 1 "q boolean atom" (fun b => boolean_atom (from_le b)) vec pos
  else if k_type =? 254 then fixed_atom 16 "q GUID atom" (fun b => Ok (KGuid b)) vec pos
  else if k_type =? 252 then fixed_atom 1 "q byte atom" (fun b => Ok (KU8 (from_le b))) vec pos
  else if k_type =? 251 then fixed_atom 2 "q short atom" (fun b => Ok (KI16 (i16_from_le b))) vec pos
  else if k_type =? 250 then fixed_atom 4 "q int atom" (fun b => Ok (KI32 (i32_from_le b))) vec pos
  else if k_type =? 249 then fixed_atom 8 "q long atom" (fun b => Ok (KI64 (i64_from_le b))) vec pos
  else if k_type =? 248 then fixed_atom 4 "q real atom" (fun b => Ok (KF32 (from_le b))) vec pos
  else if k_type =? 247 then fixed_atom 8 "q float atom" (fun b => Ok (KF64 (from_le b))) vec pos
  else if k_type =? 246 then fixed_atom 1 "q char atom" (fun b => Ok (KChar (from_le b))) vec pos
  else if k_type =? 245 then
    '(text, pos) ← take_utf8_until_nul vec pos encoding "q symbol atom";
    text ← try_own_decoded text "q symbol atom";
    Ok (KSymbol text, pos)
  else if k_type =? 244 then
    fixed_atom 8 "q timestamp atom" (fun b => timestamp_atom (i64_from_le b)) vec pos
  else if k_type =? 243 then fixed_atom 4 "q month atom" (fun b => month_date (i32_from_le b)) vec pos
  else if k_type =? 242 then fixed_atom 4 "q date atom" (fun b => days_date (i32_from_le b)) vec pos
  else if k_type =? 241 then fixed_atom 8 "q datetime atom" (fun b => datetime_atom (from_le b)) vec pos
  else if k_type =? 240 then
    fixed_atom 8 "q timespan atom" (fun b => Ok (KDuration (duration_nanoseconds (i64_from_le b)))) vec pos
  else if between 237 k_type 239 then
    fixed_atom 4 "q time atom" (fun b =>
      unit_time k_type (i32_from_le b)
        (if k_type =? 237 then 1000000 else if k_type =? 238 then 1000000000 else 60000000000)) vec pos
  else Err (NotSupportedKTypeErr k_type).

(** ** Lambdas *)

(** [error.to_string()] of the error a lambda is refused with. *)
Definition lambda_error (e : XqdbError) : XqdbError :=
  match e with
  | NotAbleToSerializeErr message =>
    DeserializationErr ("Not able to serialize " +:+ debug_str message +:+ ".")
  | e => e
  end.

Definition deserialize_lambda (vec : list Z) (start_pos : Z) (encoding : SymbolEncoding)
    : res (kval * Z) :=
  context_tail ← ok_or (get_from vec start_pos) (DeserializationErr "q lambda omitted its context");
  context_length ← ok_or (find_nul context_tail)
    (DeserializationErr "q lambda context is not NUL-terminated");
  context_end ← ok_or (checked_add start_pos context_length)
    (DeserializationErr "q lambda context overflowed");
  context_bytes ← or_panic (get_range vec start_pos context_end);
  context ← decode_utf8 context_bytes encoding "q lambda context";
  vector_start ← ok_or (checked_add context_end 1)
    (DeserializationErr "q lambda source offset overflowed");
  vector_end ← ok_or (checked_add vector_start 6)
    (DeserializationErr "q lambda source header overflowed");
  header ← ok_or (get_range vec vector_start vector_end)
    (DeserializationErr "q lambda omitted its type-10 character-vector source");
  vector_type ← or_panic (get_at header 0);
  if negb (vector_type =? 10) then
    corrupt ("q lambda source must be a type-10 character vector, got type " +:+ show vector_type)
  else
    attribute ← or_panic (get_at header 1);
    if negb (attribute =? 0) then
      corrupt ("q lambda source has unsupported attribute " +:+ show attribute)
    else
      raw ← or_panic (get_range header 2 6);
      source_length ← ok_or (try_usize (i32_from_le raw))
        (DeserializationErr "q lambda source length cannot be negative");
      source_end ← ok_or (checked_add vector_end source_length)
        (DeserializationErr "q lambda source length overflowed");
      source_bytes ← ok_or (get_range vec vector_end source_end)
        (DeserializationErr ("q lambda source length " +:+ show source_length
                             +:+ " exceeds the available payload"));
      source ← decode_utf8 source_bytes encoding "q lambda source";
      lambda ← map_err lambda_error (QLambda_with_context (decoded_text source) (decoded_text context));
      Ok (KLambda lambda, source_end).

(** ** Lists *)

(** [for _ in 0..length]: the values of a mixed list, one after the other. *)
Fixpoint read_values (read : Z -> res (kval * Z)) (length : nat) (pos : Z) : res (list kval * Z) :=
  match length with
  | O => Ok ([], pos)
  | S length =>
    '(v, pos) ← read pos;
    '(values, pos) ← read_values read length pos;
    Ok (v :: values, pos)
  end.

(** The fallback for a general list that is not a list of lists. *)
Definition mixed_list (read : Z -> res (kval * Z)) (vec : list Z) (pos : Z) : res (kval * Z) :=
  '(_, pos) ← take_bytes 1 vec pos "q mixed-list attribute";
  '(raw, pos) ← take_bytes 4 vec pos "q mixed-list length";
  length ← ok_or (try_usize (i32_from_le raw))
    (DeserializationErr "q mixed-list length cannot be negative");
  let remaining_bytes := saturating_sub (len vec) pos in
  if remaining_bytes / 2 <? length then
    corrupt ("mixed-list count " +:+ show length +:+ " exceeds the available "
             +:+ show remaining_bytes +:+ "-byte payload")
  else
    _ ← reserve length (fun error =>
          DeserializationErr ("unable to allocate mixed list with " +:+ show length
                              +:+ " values: " +:+ error));
    '(values, pos) ← read_values read (Z.to_nat length) pos;
    Ok (KMixedList values, pos).

Definition deserialize_list (read : Z -> res (kval * Z)) (vec : list Z) (pos k_type : Z)
    (is_column : bool) (encoding : SymbolEncoding) : res (kval * Z) :=
  match calculate_array_end_index vec pos k_type with
  | Ok end_pos =>
    payload ← or_panic (get_range vec pos end_pos);
    v ← deserialize_series payload k_type (negb (k_type =? 10)) encoding;
    Ok (v, end_pos)
  | Err e => if negb is_column && (k_type =? 0) then mixed_list read vec pos else Err e
  | Panicked => Panicked
  | OutOfFuel => OutOfFuel
  end.

(** ** Dictionaries *)

Definition into_series (v : kval) : res Series :=
  match v with KSeries s => Ok s | _ => failure "Not Series" end.
Definition into_frame (v : kval) : res DataFrame :=
  match v with KDataFrame df => Ok df | _ => failure "Not DataFrame" end.

Definition dictionary_keys (vec : list Z) (pos key_type : Z) (encoding : SymbolEncoding)
    : res (Series * Z) :=
  if key_type =? 11 then
    end_pos ← calculate_array_end_index vec pos 11;
    payload ← or_panic (get_range vec pos end_pos);
    v ← deserialize_series payload 11 true encoding;
    keys ← into_series v;
    Ok (keys, end_pos)
  else
    '(count, pos) ← take_list_length vec pos "q dictionary keys";
    if count =? 0 then
      v ← new_empty_series 11;
      keys ← into_series v;
      Ok (keys, pos)
    else failure "Only support symbol keys dictionary or keyed table, got k type 0".

(** The number of values, and the values themselves. *)
Definition value_count (v : kval) : res Z :=
  match v with
  | KSeries s => Ok (series_len s)
  | KMixedList values => Ok (len values)
  | KCharVector bytes => Ok (len bytes)
  | _ => corrupt "dictionary values must be a list"
  end.

(** [for value in series.iter()]. *)
Definition series_values (s : Series) : res (list kval) :=
  try_fold (fun decoded value => v ← try_from_any_value value; Ok (decoded ++ [v])) [] (series_iter s).

Definition dictionary_values (v : kval) : res (list kval) :=
  match v with
  | KSeries s =>
    _ ← try_vec_with_capacity (series_len s) "q dictionary values";
    series_values s
  | KMixedList values => Ok values
  | KCharVector bytes =>
    _ ← try_vec_with_capacity (len bytes) "q dictionary char values";
    Ok (map KChar bytes)
  | _ => corrupt "dictionary values changed type during decoding"
  end.

(** [dict.entry(key)]: a key that is already there is refused. *)
Definition insert_entry (dict : list (list Z * kval)) (entry : list Z * kval)
    : res (list (list Z * kval)) :=
  key ← try_own_str entry.1 "q dictionary key";
  if existsb (fun e => bool_decide (e.1 = key)) dict then
    corrupt "duplicate symbol dictionary key; use lossless value mode to preserve duplicate entries"
  else Ok (dict ++ [(key, entry.2)]).

Definition deserialize_dictionary (read : bool -> Z -> res (kval * Z)) (vec : list Z) (pos : Z)
    (is_column : bool) (encoding : SymbolEncoding) : res (kval * Z) :=
  key_type ← ok_or (get_at vec pos) (DeserializationErr "q dictionary omitted its key type");
  if key_type =? 98 then
    '(keys, pos) ← read true pos;
    key_df ← into_frame keys;
    '(values, pos) ← read true pos;
    value_df ← into_frame values;
    df ← hstack key_df value_df;
    Ok (KDataFrame df, pos)
  else if (key_type =? 11) || (key_type =? 0) then
    '(keys, pos) ← dictionary_keys vec (pos + 1) key_type encoding;
    value_type ← ok_or (get_at vec pos) (DeserializationErr "q dictionary omitted its values");
    if 19 <? value_type then
      failure ("Not support k type " +:+ show value_type +:+ " values in dictionary")
    else
      '(values, pos) ← read is_column pos;
      names ← categorical_names keys;
      value_length ← value_count values;
      if negb (series_len keys =? value_length) then
        corrupt ("dictionary key/value length mismatch: " +:+ show (series_len keys) +:+ " keys and "
                 +:+ show value_length +:+ " values")
      else
        values ← dictionary_values values;
        _ ← reserve value_length (fun error =>
              DeserializationErr ("unable to allocate q dictionary with " +:+ show value_length
                                  +:+ " entries: " +:+ error));
        dict ← try_fold insert_entry [] (zip names values);
        Ok (KDict dict, pos)
  else failure ("Only support symbol keys dictionary or keyed table, got k type " +:+ show key_type).

(** ** Tables *)

(** The type and the payload of one column, and the position after it. *)
Definition table_column (vec : list Z) (pos : Z) : res (Z * list Z * Z) :=
  k_type ← or_panic (get_at vec pos);
  end_pos ← calculate_array_end_index vec (pos + 1) k_type;
  payload ← or_panic (get_range vec (pos + 1) end_pos);
  Ok (k_type, payload, end_pos).

Fixpoint table_columns (vec : list Z) (count : nat) (pos : Z) : res (list (Z * list Z) * Z) :=
  match count with
  | O => Ok ([], pos)
  | S count =>
    '(column, pos) ← table_column vec pos;
    '(columns, pos) ← table_columns vec count pos;
    Ok (column :: columns, pos)
  end.

Definition decode_column (encoding : SymbolEncoding) (column : Z * list Z) : res Series :=
  v ← deserialize_series column.2 column.1 true encoding;
  into_series v.

(** The values of an iterator of results, or its first error. *)
Fixpoint collect {A} (results : list (res A)) : res (list A) :=
  match results with
  | [] => Ok []
  | r :: results => a ← r; rest ← collect results; Ok (a :: rest)
  end.

Definition is_panicked {A} (r : res A) : bool := match r with Panicked => true | _ => false end.

(** The columns are decoded in parallel: a panic of any of them ends the decode,
    otherwise the first error in column order does. *)
Definition collect_columns {A} (results : list (res A)) : res (list A) :=
  if existsb is_panicked results then Panicked else collect results.

(** [columns.zip(names)] renamed and put together. *)
Definition assemble_frame (columns : list Series) (names : list (list Z)) : res kval :=
  df ← new_frame (zip_with rename columns names);
  Ok (KDataFrame df).

(** Bytes after the table type byte, and the header of the column list. *)
Definition TABLE_PREAMBLE : Z := 4.
Definition COLUMN_LIST_HEADER : Z := 6.

Definition table_names (vec : list Z) (start_pos end_pos : Z) (encoding : SymbolEncoding)
    : res (list (list Z)) :=
  payload ← or_panic (get_range vec start_pos end_pos);
  v ← deserialize_series payload 11 false encoding;
  match v with
  | KSeries s => unwrap (string_names s)
  | _ => corrupt "Expecting array"
  end.

Definition deserialize_table (vec : list Z) (pos : Z) (encoding : SymbolEncoding) : res (kval * Z) :=
  let pos := pos + 3 in
  end_pos ← calculate_array_end_index vec pos 11;
  names ← table_names vec pos end_pos encoding;
  _ ← try_vec_with_capacity (len names) "q table column types";
  _ ← try_vec_with_capacity (len names) "q table column payloads";
  '(columns, pos) ← table_columns vec (length names) (end_pos + COLUMN_LIST_HEADER);
  _ ← try_vec_with_capacity (len names) "q table column results";
  decoded ← collect_columns (map (decode_column encoding) columns);
  _ ← try_vec_with_capacity (len names) "q table columns";
  _ ← try_vec_with_capacity (len names) "q table frame columns";
  frame ← assemble_frame decoded names;
  Ok (frame, pos).

(** ** Values *)

Fixpoint deserialize_unchecked (fuel : nat) (vec : list Z) (depth : Z) (encoding : SymbolEncoding)
    (is_column : bool) (pos : Z) : res (kval * Z) :=
  match fuel with
  | O => OutOfFuel
  | S fuel =>
    if MAX_VALUE_DEPTH <? depth then
      corrupt ("q value nesting exceeds " +:+ show MAX_VALUE_DEPTH +:+ " levels")
    else
      k_type ← ok_or (get_at vec pos) (DeserializationErr "q value omitted its type byte");
      let pos := pos + 1 in
      let read := deserialize_unchecked fuel vec (depth + 1) encoding in
      if between 237 k_type 255 then deserialize_atom vec pos k_type encoding
      else if between 0 k_type 19 then deserialize_list (read false) vec pos k_type is_column encoding
      else if k_type =? 99 then deserialize_dictionary read vec pos is_column encoding
      else if k_type =? 98 then deserialize_table vec pos encoding
      else if k_type =? 100 then deserialize_lambda vec pos encoding
      else if between 101 k_type 103 then
        opcode ← ok_or (get_at vec pos)
          (DeserializationErr ("q primitive type " +:+ show k_type +:+ " omitted its opcode"));
        if (k_type =? 101) && (opcode =? 0) then Ok (KNull, pos + 1)
        else
          operator ← ok_or (QOperator_from_wire k_type opcode) (NotSupportedKOperatorErr opcode);
          Ok (KOperator operator, pos + 1)
      else if k_type =? 128 then
        '(message, _) ← take_utf8_until_nul vec pos Lossy "q error message";
        Err (ServerErr (decoded_text message))
      else Err (NotSupportedKTypeErr k_type)
  end.

(** Enough for every depth up to the one that is refused. *)
Definition value_fuel : nat := 66.

Definition parser_panic : XqdbError :=
  DeserializationErr "malformed q value caused an internal parser panic".

(** [deserialize(vec, &mut pos, encoding)]: the value must end the bytes, and a panic
    of the parser is contained. *)
Definition deserialize_at (vec : list Z) (pos : Z) (encoding : SymbolEncoding) : res kval :=
  match deserialize_unchecked value_fuel vec 0 encoding false pos with
  | Ok (v, pos) =>
    if pos =? len vec then Ok v
    else corrupt ("q value has " +:+ show (saturating_sub (len vec) pos) +:+ " trailing byte(s)")
  | Err e => Err e
  | Panicked => Err parser_panic
  | OutOfFuel => OutOfFuel
  end.

Definition deserialize (vec : list Z) (encoding : SymbolEncoding) : res kval :=
  deserialize_at vec 0 encoding.
End Deserialize.
