(* ===== verification/SerializeFacts.v ===== *)
(** * SerializeFacts: the announced size is the written size

    The invariants Rust's types give a value, and the agreement of [j6_len] with
    [serialize_into]. *)

From stdpp Require Import prelude strings.
From Stdlib Require Import ZArith Lia ZifyBool.
From S2P Require Import Prelude Errors Types Utf8 QValue Text Value WireText Serialize.

(** ** Well-typed values *)

Definition text_ok (text : list Z) : Prop := slice_ok text /\ is_utf8 text = true.

Definition lambda_ok (l : QLambda) : Prop :=
  text_ok (lambda_source l) /\ text_ok (lambda_context l)
  /\ QLambda_with_context (lambda_source l) (lambda_context l) = Ok l.

(** The values a Rust [K] can hold.  Dates, times, timestamps and durations are values of
    chrono's types, whose ranges the laws [ChronoLaws] know; a symbol may hold NULs, which
    the writers refuse. *)
Fixpoint typed `{Chrono} `{SeriesEncoder Series DataFrame} (k : K Series DataFrame) : Prop :=
  match k with
  | KBoolean _ | KNull => True
  | KSeries s => series_ok s
  | KDataFrame df => Forall series_ok (map snd (frame_columns df))
  | KGuid bytes => bytes_ok bytes /\ length bytes = 16%nat
  | KU8 v | KChar v => is_byte v
  | KI16 v => - 2 ^ 15 <= v < 2 ^ 15
  | KI32 v => i32_min <= v <= i32_max
  | KI64 v => i64_min <= v <= i64_max
  | KF32 bits => 0 <= bits < 2 ^ 32
  | KF64 bits => 0 <= bits < 2 ^ 64
  | KCharVector bytes => slice_ok bytes
  | KSymbol text | KString text => text_ok text
  | KDateTime _ | KDate _ | KTime _ | KDuration _ => True
  | KMixedList values => foldr (fun v rest => typed v /\ rest) True values
  | KDict entries =>
    NoDup (map fst entries) /\ foldr (fun e rest => (text_ok e.1 /\ typed e.2) /\ rest) True entries
  | KQValue v => slice_ok (as_bytes v) /\ @from_owned_bytes unlimited (as_bytes v) = Ok v
  | KOperator o => QOperator_from_wire (op_k_type o) (op_opcode o) = Some o
  | KLambda l => lambda_ok l
  end.

Lemma foldr_Forall {A} (P : A -> Prop) l : foldr (fun a rest => P a /\ rest) True l <-> Forall P l.
Proof.
  induction l; simpl; [by split; constructor|]. rewrite Forall_cons. naive_solver.
Qed.

(** What the code relies on when it writes a series: the size it computed first. *)
Class SeriesEncoderLaws `{SeriesEncoder Series DataFrame} : Prop := {
  series_size s n :
    series_ok s -> get_series_len s = Ok n -> exists bytes, serialize_series s = Ok bytes /\ len bytes = n
}.

(** ** Sizes *)

Lemma add_length_Ok a b n : add_length a b = Ok n <-> n = a + b /\ a + b <= usize_max.
Proof.
  unfold add_length, checked_add. destruct (Z.leb_spec (a + b) usize_max); simpl.
  - split; [by intros [= <-]|by intros [-> _]].
  - split; [done|]. lia.
Qed.

Lemma checked_q_count_Ok n i : checked_q_count n = Ok i <-> i = n /\ i32_min <= n <= i32_max.
Proof.
  unfold checked_q_count, try_i32. destruct (_ && _) eqn:E; simpl.
  - split; [intros [= <-]; split; [done|bool_lia]|by intros [-> _]].
  - split; [done|]. intros. bool_lia.
Qed.

Lemma q_list_length_eq n : i32_min <= n <= i32_max -> q_list_length n = Ok (i32_to_le n).
Proof. intros. unfold q_list_length, try_i32. by replace (_ && _) with true by bool_lia. Qed.

Section Sizes.
  Context `{Chrono} `{!ChronoLaws} `{SeriesEncoder Series DataFrame} `{!SeriesEncoderLaws}.

(** [k] is written as [bytes], whatever precedes it. *)
Definition written (k : K Series DataFrame) (bytes : list Z) : Prop :=
  forall vec, serialize_into k vec = Ok (vec ++ bytes).

Lemma written_list (items : list (K Series DataFrame)) sizes :
  Forall2 (fun k n => exists bytes, written k bytes /\ len bytes = n) items sizes ->
  exists bytes, len bytes = foldr Z.add 0 sizes
    /\ forall vec, try_fold (fun vec v => serialize_into v vec) vec items = Ok (vec ++ bytes).
Proof.
  induction 1 as [|k n items sizes (b & Hb & Hl) _ (bs & Hlen & IH)].
  - exists []. split; [done|]. intros. cbn. by rewrite app_nil_r.
  - exists (b ++ bs). split; [rewrite length_app; simpl; lia|].
    intros vec. cbn [try_fold]. rewrite (Hb vec). cbn [mbind outcome_bind].
    by rewrite IH, <- app_assoc.
Qed.

Lemma push_symbol_Ok vec name :
  validate_q_symbol name = Ok tt -> push_symbol vec name = Ok (vec ++ name ++ [0]).
Proof. intros Hn. unfold push_symbol. by rewrite Hn. Qed.

Lemma validate_q_symbol_cases name u : validate_q_symbol name = Ok u -> validate_q_symbol name = Ok tt.
Proof. by destruct u. Qed.

Lemma push_symbols vec names :
  Forall (fun n => validate_q_symbol n = Ok tt) names ->
  try_fold push_symbol vec names = Ok (vec ++ flat_map (fun n => n ++ [0]) names).
Proof.
  intros Hn. revert vec. induction Hn as [|n names Hn _ IH]; intros vec; cbn [try_fold flat_map].
  - by rewrite app_nil_r.
  - rewrite push_symbol_Ok by done. cbn [mbind outcome_bind]. by rewrite IH, !app_assoc.
Qed.

(** The sizes of the items of a list, each within its bound. *)
Lemma sizes_of (size_of : K Series DataFrame -> res Z) acc items n :
  try_fold (fun length v => size ← size_of v; add_length length size) acc items = Ok n ->
  exists sizes, Forall2 (fun v s => size_of v = Ok s) items sizes /\ n = acc + foldr Z.add 0 sizes.
Proof.
  revert acc. induction items as [|v items IH]; intros acc; cbn [try_fold].
  - intros [= <-]. exists []. split; [constructor|simpl; lia].
  - intros (acc' & (s & Hs & Ha)%bind_Ok & Hrest)%bind_Ok. apply add_length_Ok in Ha as [-> _].
    apply IH in Hrest as (sizes & Hsizes & ->). exists (s :: sizes). split; [by constructor|simpl; lia].
Qed.

Lemma sizes_impl (P Q : K Series DataFrame -> Z -> Prop) items sizes :
  Forall (fun k => forall n, P k n -> Q k n) items -> Forall2 P items sizes -> Forall2 Q items sizes.
Proof.
  intros HI HF. revert HI. induction HF; intros HI; [constructor|].
  apply Forall_cons in HI as [Hh Ht]. constructor; auto.
Qed.

(** The names and the values of a dictionary. *)
Lemma entry_sizes (size_of : K Series DataFrame -> res Z) acc entries n :
  try_fold (fun length (entry : list Z * K Series DataFrame) =>
    let '(key, value) := entry in
    _ ← validate_q_symbol key;
    length ← add_length length (len key);
    length ← add_length length 1;
    size ← size_of value;
    add_length length size) acc entries = Ok n ->
  Forall (fun e => validate_q_symbol e.1 = Ok tt) entries
  /\ exists sizes, Forall2 (fun v s => size_of v = Ok s) (map snd entries) sizes
     /\ n = acc + len (flat_map (fun n => n ++ [0]) (map fst entries)) + foldr Z.add 0 sizes.
Proof.
  revert acc. induction entries as [|[key v] entries IH]; intros acc; cbn [try_fold].
  - intros [= <-]. split; [constructor|]. exists []. split; [constructor|simpl; lia].
  - intros (acc' & (u & Hu & (l1 & Hl1 & (l2 & Hl2 & (s & Hs & Ha)%bind_Ok)%bind_Ok)%bind_Ok)%bind_Ok & Hrest)%bind_Ok.
    apply add_length_Ok in Hl1 as [-> _], Hl2 as [-> _], Ha as [-> _].
    apply IH in Hrest as (Hn & sizes & Hsizes & ->). apply validate_q_symbol_cases in Hu.
    split; [by constructor|]. exists (s :: sizes). split; [by constructor|].
    cbn [map flat_map fst foldr]. rewrite !length_app. cbn [length]. lia.
Qed.

Lemma column_sizes acc (columns : list (list Z * Series)) n :
  Forall series_ok (map snd columns) ->
  try_fold add_column_len acc columns = Ok n ->
  Forall (fun c => validate_q_symbol c.1 = Ok tt) columns
  /\ exists payload, len payload + len (flat_map (fun n => n ++ [0]) (map fst columns)) + acc = n
     /\ forall vec, try_fold push_series vec (map snd columns) = Ok (vec ++ payload).
Proof.
  intros Hok. revert acc Hok. induction columns as [|[name s] columns IH]; intros acc Hok; cbn [try_fold map snd fst].
  - intros [= <-]. split; [constructor|]. exists []. split; [simpl; lia|].
    intros vec. by rewrite app_nil_r.
  - intros (acc' & (u & Hu & (l1 & Hl1 & (l2 & Hl2 & (size & Hs & Ha)%bind_Ok)%bind_Ok)%bind_Ok)%bind_Ok & Hrest)%bind_Ok.
    cbn [fst snd] in *. apply add_length_Ok in Hl1 as [-> _], Hl2 as [-> _], Ha as [-> _].
    apply Forall_cons in Hok as [Hs0 Hok].
    apply IH in Hrest as (Hn & payload & Hpl & Hw); [|done]. apply validate_q_symbol_cases in Hu.
    split; [by constructor|]. destruct (series_size s size Hs0 Hs) as (bytes & Hb & Hl).
    exists (bytes ++ payload). split; [cbn [flat_map]; rewrite !length_app; cbn [length]; lia|].
    intros vec.
    assert (push_series vec s = Ok (vec ++ bytes)) as -> by (unfold push_series; by rewrite Hb).
    cbn [mbind outcome_bind].
    by rewrite Hw, <- app_assoc.
Qed.

Lemma dictionary_symbols vec (entries : list (list Z * K Series DataFrame)) :
  try_fold (fun vec entry => push_symbol vec entry.1) vec entries
  = try_fold push_symbol vec (map fst entries).
Proof.
  revert vec. induction entries as [|e entries IH]; intros vec; [done|]. cbn [try_fold map].
  destruct (push_symbol vec e.1); try done. apply IH.
Qed.

Lemma dictionary_payload vec (entries : list (list Z * K Series DataFrame)) :
  try_fold (fun vec entry => serialize_into entry.2 vec) vec entries
  = try_fold (fun vec v => serialize_into v vec) vec (map snd entries).
Proof.
  revert vec. induction entries as [|e entries IH]; intros vec; [done|]. cbn [try_fold map].
  destruct (serialize_into e.2 vec); try done. apply IH.
Qed.

(** Writes a value whose bytes are known. *)
Ltac write_exactly b :=
  exists b; split; [intros vec; cbn [serialize_into]; rewrite ?app_assoc; reflexivity|].

Lemma leaf_written k depth n :
  leaf k -> typed k -> j6_len_with_depth k depth = Ok n ->
  exists bytes, written k bytes /\ len bytes = n.
Proof.
  intros Hleaf Ht Hn. destruct k; cbn [leaf typed] in *; try done;
    cbn [j6_len_with_depth] in Hn; apply if_Err_Ok in Hn as [_ Hn]; try injection Hn as <-.
  - write_exactly [255; if b then 1 else 0]. done.
  - write_exactly (254 :: bytes). destruct Ht as [_ Hl]. simpl. lia.
  - write_exactly [252; v]. done.
  - write_exactly (251 :: i16_to_le v). done.
  - write_exactly (250 :: i32_to_le v). done.
  - write_exactly (249 :: i64_to_le v). done.
  - write_exactly (248 :: to_le 4 bits). done.
  - write_exactly (247 :: to_le 8 bits). done.
  - write_exactly [246; v]. done.
  - apply bind_Ok in Hn as (i & [-> Hi]%checked_q_count_Ok & [-> _]%add_length_Ok).
    exists ([10; 0] ++ i32_to_le (len bytes) ++ bytes). split.
    + intros vec. cbn [serialize_into]. by rewrite q_list_length_eq.
    + rewrite !length_app, len_i32_to_le. simpl. lia.
  - apply bind_Ok in Hn as (u & Hu%validate_q_symbol_cases & [-> _]%add_length_Ok).
    exists (245 :: text ++ [0]). split.
    + intros vec. cbn [serialize_into]. rewrite push_symbol_Ok by done. by rewrite <- app_assoc.
    + cbn [length]. rewrite length_app. simpl. lia.
  - apply bind_Ok in Hn as (i & [-> Hi]%checked_q_count_Ok & [-> _]%add_length_Ok).
    exists ([10; 0] ++ i32_to_le (len text) ++ text). split.
    + intros vec. cbn [serialize_into]. by rewrite q_list_length_eq.
    + rewrite !length_app, len_i32_to_le. simpl. lia.
  - apply bind_Ok in Hn as (ns & Hns & (q & Hq & [= <-])%bind_Ok). exists (244 :: i64_to_le q).
    split; [|done]. intros vec. cbn [serialize_into]. rewrite Hns. cbn [mbind outcome_bind]. by rewrite Hq.
  - exists (242 :: i32_to_le (num_days_from_ce d - DAY_DIFF)). split; [|done].
    intros vec. cbn [serialize_into]. pose proof (days_range d). unfold i32_checked, in_i32, DAY_DIFF.
    by replace (_ && _) with true by bool_lia.
  - apply if_Err_Ok in Hn as [_ [= <-]]. write_exactly (237 :: i32_to_le (time_milliseconds t)). done.
  - apply bind_Ok in Hn as (ns & Hns & [= <-]). exists (240 :: i64_to_le ns). split; [|done].
    intros vec. cbn [serialize_into]. by rewrite Hns.
  - destruct (series_size s n Ht Hn) as (bytes & Hb & Hl). exists bytes. split; [|done].
    intros vec. cbn [serialize_into]. unfold push_series. by rewrite Hb.
  - apply bind_Ok in Hn as (i & [-> Hi]%checked_q_count_Ok & Hn).
    apply column_sizes in Hn as (Hnames & payload & Hpl & Hw); [|done].
    exists ([98; 0; 99; 11; 0] ++ i32_to_le (len (frame_columns df))
      ++ flat_map (fun n => n ++ [0]) (map fst (frame_columns df))
      ++ [0; 0] ++ i32_to_le (len (frame_columns df)) ++ payload). split.
    + intros vec. cbn [serialize_into]. rewrite q_list_length_eq by done. cbn [mbind outcome_bind].
      rewrite push_symbols by (by apply Forall_map). cbn [mbind outcome_bind]. rewrite Hw.
      by rewrite <- !app_assoc.
    + rewrite !length_app, !len_i32_to_le. cbn [length]. lia.
  - apply if_Err_Ok in Hn as [_ [= <-]]. write_exactly (as_bytes v). done.
  - write_exactly [op_k_type o; op_opcode o]. done.
  - apply bind_Ok in Hn as (i & [-> Hi]%checked_q_count_Ok & (n1 & [-> _]%add_length_Ok & [-> _]%add_length_Ok)%bind_Ok).
    exists (100 :: lambda_context l ++ [0; 10; 0] ++ i32_to_le (len (lambda_source l)) ++ lambda_source l).
    split.
    + intros vec. cbn [serialize_into]. by rewrite q_list_length_eq.
    + cbn [length]. rewrite !length_app, len_i32_to_le. simpl length. lia.
  - write_exactly [101; 0]. done.
Qed.

Lemma typed_list (values : list (K Series DataFrame)) : typed (KMixedList values) <-> Forall typed values.
Proof. apply foldr_Forall. Qed.

Lemma typed_dict (entries : list (list Z * K Series DataFrame)) :
  typed (KDict entries)
  <-> NoDup (map fst entries) /\ Forall (fun e => text_ok e.1) entries
      /\ Forall (fun e => typed e.2) entries.
Proof.
  cbn [typed]. rewrite (foldr_Forall (fun e : list Z * K Series DataFrame => text_ok e.1 /\ typed e.2)).
  rewrite Forall_and. done.
Qed.

(** A value whose size is computed is written, and takes that size. *)
Lemma value_written (k : K Series DataFrame) depth n :
  typed k -> j6_len_with_depth k depth = Ok n ->
  exists bytes, written k bytes /\ len bytes = n.
Proof.
  revert depth n. induction k as [k Hleaf|values IH|entries IH] using K_nested_ind; intros depth n Ht Hn.
  - by eapply leaf_written.
  - apply typed_list in Ht. cbn [j6_len_with_depth] in Hn. apply if_Err_Ok in Hn as [_ Hn].
    apply bind_Ok in Hn as (i & [-> Hi]%checked_q_count_Ok & Hn). apply sizes_of in Hn as (sizes & Hs & ->).
    destruct (written_list values sizes) as (payload & Hl & Hw).
    { eapply sizes_impl; [|exact Hs]. rewrite Forall_forall in *. intros v Hv m Hm. by eapply IH; auto. }
    exists ([0; 0] ++ i32_to_le (len values) ++ payload). split.
    + intros vec. cbn [serialize_into]. rewrite q_list_length_eq by done. cbn [mbind outcome_bind].
      by rewrite Hw, <- !app_assoc.
    + rewrite !length_app, len_i32_to_le. simpl length. lia.
  - apply typed_dict in Ht as (_ & _ & Ht). cbn [j6_len_with_depth] in Hn.
    apply if_Err_Ok in Hn as [_ Hn].
    apply bind_Ok in Hn as (i & [-> Hi]%checked_q_count_Ok & Hn).
    apply entry_sizes in Hn as (Hnames & sizes & Hs & ->).
    destruct (written_list (map snd entries) sizes) as (payload & Hl & Hw).
    { eapply sizes_impl; [|exact Hs]. apply Forall_map. rewrite Forall_forall in *.
      intros e He m Hm. cbn in *. by eapply IH; auto. }
    exists ([99; 11; 0] ++ i32_to_le (len entries) ++ flat_map (fun n => n ++ [0]) (map fst entries)
      ++ [0; 0] ++ i32_to_le (len entries) ++ payload). split.
    + intros vec. cbn [serialize_into]. rewrite q_list_length_eq by done. cbn [mbind outcome_bind].
      rewrite dictionary_symbols, push_symbols by (by apply Forall_map). cbn [mbind outcome_bind].
      rewrite dictionary_payload, Hw. by rewrite <- !app_assoc.
    + rewrite !length_app, !len_i32_to_le. simpl length. lia.
Qed.
End Sizes.
