(* ===== verification/DeserializeFacts.v ===== *)
(** * DeserializeFacts: reading back what was written *)

From stdpp Require Import prelude strings.
From Stdlib Require Import ZArith Lia ZifyBool.
From S2P Require Import Prelude Errors Types Utf8 QValue ListScan ListScanFacts ListScanSpec Text Value AnyValue WireText Serialize Float64 Deserialize SerializeFacts.

(** The process that reads has memory for what it reads. *)
#[local] Existing Instance unlimited.

(** Lengths of concatenations. *)
Ltac len_lia :=
  repeat progress (rewrite ?length_app; cbn [length]); rewrite ?len_i32_to_le in *; lia.

(** ** Reading at a position *)

Lemma reserve_unlimited {E} n (f : string -> E) : @reserve unlimited E n f = Ok tt.
Proof. done. Qed.

Lemma get_at_here {A} (pre : list A) t rest : get_at (pre ++ t :: rest) (len pre) = Some t.
Proof. rewrite <- (Z.add_0_r (len pre)), get_at_app_r by lia. apply get_at_cons0. Qed.

Lemma get_range_here {A} (pre x post : list A) n :
  n = len pre + len x -> get_range (pre ++ x ++ post) (len pre) n = Some x.
Proof. intros ->. apply get_range_Some. by exists pre, post. Qed.

Lemma take_bytes_at n pre x post c :
  len x = n -> len (pre ++ x ++ post) <= isize_max ->
  take_bytes n (pre ++ x ++ post) (len pre) c = Ok (x, len pre + n).
Proof.
  intros Hn Hl. rewrite !length_app in Hl. unfold take_bytes. rewrite checked_add_eq by bool_lia.
  cbn [ok_or mbind outcome_bind]. rewrite get_range_here by lia. done.
Qed.

Lemma take_until_nul_at pre name post c :
  nul_free name -> len (pre ++ name ++ 0 :: post) <= isize_max ->
  take_until_nul (pre ++ name ++ 0 :: post) (len pre) c = Ok (name, len pre + len name + 1).
Proof.
  intros Hn Hl. rewrite !length_app in Hl. cbn [length] in Hl. unfold take_until_nul.
  rewrite get_from_app. cbn [ok_or mbind outcome_bind]. rewrite find_nul_app by done.
  cbn [ok_or mbind outcome_bind]. rewrite checked_add_eq by bool_lia. cbn [ok_or mbind outcome_bind].
  rewrite get_range_here by lia. cbn [or_panic mbind outcome_bind]. rewrite checked_add_eq by bool_lia.
  done.
Qed.

Lemma decode_valid text encoding c :
  is_utf8 text = true -> decode_utf8 text encoding c = Ok (MkDecoded text false).
Proof. intros H. unfold decode_utf8. by rewrite H. Qed.

Lemma contains_nul_free text : contains_nul text = false -> nul_free text.
Proof.
  intros H. apply Forall_forall. intros b Hb ->. unfold contains_nul in H.
  assert (existsb (fun b => b =? 0) text = true) as E; [|congruence].
  apply existsb_exists. exists 0. split; [by apply list_elem_of_In|done].
Qed.

Lemma validated_nul_free name : validate_q_symbol name = Ok tt -> nul_free name.
Proof.
  unfold validate_q_symbol. destruct (contains_nul name) eqn:E; [done|]. intros _.
  by apply contains_nul_free.
Qed.

(** Integers from their bytes. *)
Lemma i16_le_roundtrip z : - 2 ^ 15 <= z < 2 ^ 15 -> i16_from_le (i16_to_le z) = z.
Proof.
  intros. unfold i16_from_le, i16_to_le. rewrite from_to_le. change (8 * Z.of_nat 2) with 16.
  unfold unsigned. rewrite Z.mod_mod by lia. apply (signed_unsigned 16); lia.
Qed.

Lemma from_le_single v : from_le [v] = v.
Proof. cbn [from_le]. lia. Qed.

Lemma from_to_le_small n v : 0 <= v < 2 ^ (8 * Z.of_nat n) -> from_le (to_le n v) = v.
Proof. intros. rewrite from_to_le. by apply Z.mod_small. Qed.

(** ** A general list of values is not a list of lists *)

(** The nested scan refuses a list with a value that cannot be a list element, when the
    values before it are char vectors. *)
Definition char_vector_bytes (text : list Z) : list Z := 10 :: (0 :: i32_to_le (len text)) ++ text.

(** The first bytes of a value that is no vector; a general list among them is not empty. *)
Definition unlike_vector (bytes : list Z) : Prop :=
  exists t rest, bytes = t :: rest /\ nested_child_type t = false
  /\ (t = 0 -> exists n tail, rest = (0 :: i32_to_le n) ++ tail /\ 0 < n <= i32_max).

Lemma unlike_vector_app bytes post : unlike_vector bytes -> unlike_vector (bytes ++ post).
Proof.
  intros (t & rest & -> & Ht & Hz). exists t, (rest ++ post). split_and!; [done..|].
  intros E. destruct (Hz E) as (n & tail & -> & Hn). exists n, (tail ++ post). by rewrite <- app_assoc.
Qed.

Section Refuses.
  Context (body : list Z).
  Hypothesis body_ok : slice_ok body.

Abbreviation run rows s := (advance_nested (scan_fuel body) body (len body) rows s).

Lemma element_refuses pre bytes c s rows :
  body = pre ++ bytes -> unlike_vector bytes -> at_element (len pre) c s -> c = None \/ c = Some 10 -> 0 < rows ->
  exists e, run rows s = Err e.
Proof.
  intros E (t & rest & -> & Ht & Hz) Hs Hc Hr. pose proof (proj2 body_ok) as Hmax.
  assert (len pre + 1 + len rest = len body) as Hlen by (rewrite E, length_app; cbn [length]; lia).
  rewrite (run_unfold body body_ok) by (done || lia || (apply (at_element_ok body 10 eq_refl (len pre) c); [done|naive_solver|lia])).
  destruct (Z.ltb_spec (len body) (len pre + 6)) as [Hshort|Hlong].
  { destruct Hs as (Hp & _ & Hl). unfold nested_round. rewrite Hl, Hp. replace (0 <? rows) with true by lia.
    cbn [Z.ltb Z.compare]. unfold saturating_add, incomplete_or_overrun.
    replace (len body <? Z.min _ _) with true by bool_lia. by eexists. }
  rewrite (round_at_element body 10 body_ok eq_refl rows s (len pre) c) by (done || lia).
  destruct Hs as (Hp & Hct & Hl). unfold nested_element. rewrite Hp, Hct.
  assert (get_at body (len pre) = Some t) as -> by (rewrite E; apply get_at_here).
  cbn [or_panic mbind outcome_bind]. destruct Hc as [->| ->].
  { rewrite Ht. by eexists. }
  cbn [mbind outcome_bind]. destruct (Z.eqb_spec t 10) as [->|Hne]; [by vm_compute in Ht|].
  destruct (Z.eqb_spec t 0) as [->|Hne0]; [|by eexists]. cbn [negb andb].
  destruct (Hz eq_refl) as (n & tail & -> & Hn).
  rewrite ?Hp.
  assert (take_list_length body (len pre + 1) "q nested-list element" = Ok (n, len pre + 6)) as ->.
  { assert (body = (pre ++ [0]) ++ (0 :: i32_to_le n) ++ tail) as E' by (by rewrite <- app_assoc, E).
    replace (len pre + 1) with (len (pre ++ [0])) by (rewrite length_app; simpl; lia). rewrite E' in Hmax |- *.
    rewrite take_list_length_at by (done || lia). rewrite length_app. simpl. do 2 f_equal. lia. }
  cbn [mbind outcome_bind Z.eqb]. replace (n =? 0) with false by lia. by eexists.
Qed.

Lemma elements_refuse texts : forall pre bytes c s rows,
  body = pre ++ concat (map char_vector_bytes texts) ++ bytes -> Forall (fun x => len x <= i32_max) texts ->
  unlike_vector bytes -> at_element (len pre) c s -> c = None \/ c = Some 10 -> len texts < rows ->
  exists e, run rows s = Err e.
Proof.
  induction texts as [|x texts IH]; intros pre bytes c s rows E Hx Hb Hs Hc Hr.
  - eapply element_refuses; [exact E|done..].
  - apply Forall_cons in Hx as [Hx Hxs]. cbn [map concat] in E. rewrite <- app_assoc in E. cbn [length] in Hr.
    assert (element_wf 10 (Values 0 (len x) x)) as Hwf by (split; [done|]; split; [lia|]; exists 1; split; [done|lia]).
    destruct (run_values body 10 body_ok eq_refl pre 0 (len x) x _ c s rows E Hwf Hs ltac:(lia) ltac:(naive_solver))
      as (s' & -> & Hs').
    eapply (IH (pre ++ char_vector_bytes x) bytes (Some 10)); [by rewrite <- app_assoc|done|done| |by right|lia].
    replace (len (pre ++ char_vector_bytes x)) with (len pre + 6 + len x); [done|].
    unfold char_vector_bytes. rewrite length_app. cbn [length]. rewrite length_app. cbn [length]. rewrite len_i32_to_le. lia.
Qed.
End Refuses.

Lemma scan_refuses pre a n texts bytes :
  slice_ok (pre ++ (a :: i32_to_le n) ++ concat (map char_vector_bytes texts) ++ bytes) -> len texts < n <= i32_max ->
  Forall (fun x => len x <= i32_max) texts -> unlike_vector bytes ->
  exists e, calculate_array_end_index (pre ++ (a :: i32_to_le n) ++ concat (map char_vector_bytes texts) ++ bytes)
              (len pre) 0 = Err e.
Proof.
  intros Hok Hn Hx Hb. unfold calculate_array_end_index. rewrite new_header by auto.
  cbn [mbind outcome_bind]. unfold advance.
  rewrite (scan_header_at pre 0 a n [] (concat (map char_vector_bytes texts) ++ bytes)) by (done || lia || auto).
  cbn [orb Z.eqb app mbind outcome_bind].
  edestruct (elements_refuse _ Hok texts (pre ++ a :: i32_to_le n) bytes None
    (set_rows_left (set_pos (MkListScan 0 (len pre) None None 0) (len pre + 5)) n) n) as [e He];
    [by rewrite <- app_assoc|done|done| |by left|lia|].
  - unfold at_element. simpl. rewrite length_app. cbn [length]. rewrite len_i32_to_le. split_and!; [lia|done|done].
  - cbn [ls_k_type set_pos set_rows_left ls_rows_left default from_option id Z.eqb]. cbn [app] in He. rewrite He. by eexists.
Qed.

(** What the round trip relies on of the series decoder: char vectors keep their
    bytes, symbol lists their names, and an empty general list is an empty series. *)
Class SeriesDecoderLaws `{Chrono} `{!SeriesDecoder Series DataFrame} : Prop := {
  char_vector a bytes encoding :
    len bytes <= i32_max ->
    deserialize_series ((a :: i32_to_le (len bytes)) ++ bytes) 10 false encoding
    = Ok (KCharVector bytes);
  empty_general a :
    exists s, (forall encoding, deserialize_series (a :: i32_to_le 0) 0 true encoding = Ok (KSeries s))
      /\ series_len s = 0 /\ series_iter s = [];
  symbol_series a names encoding :
    len names <= i32_max -> Forall nul_free names -> Forall (fun n => is_utf8 n = true) names ->
    Forall symbol_admitted names ->
    exists s, deserialize_series ((a :: i32_to_le (len names)) ++ terminated names) 11 true encoding
              = Ok (KSeries s)
      /\ categorical_names s = Ok names /\ series_len s = len names
}.

(** ** Values that are read back *)

Section Plain.
  Context `{Chrono} {Series DataFrame : Type} `{!SeriesDecoder Series DataFrame}.

Definition is_vector (k : K Series DataFrame) : bool :=
  match k with KCharVector _ | KString _ | KSeries _ | KQValue _ => true | _ => false end.

(** A list with a value that keeps it from being read as a list of lists: q writes
    the empty list, and a list of char vectors only, the way it writes columns. *)
Definition mixable (values : list (K Series DataFrame)) : Prop :=
  Exists (fun v => is_vector v = false) values.

(** Values whose encoding only they have: no series, tables or opaque values, no leap
    seconds, no general list that q reads as a list of lists, and keys that fit the
    categories. *)
Fixpoint plain (k : K Series DataFrame) : Prop :=
  match k with
  | KSeries _ | KDataFrame _ | KQValue _ => False
  | KTime t => nanosecond t < 1000000000
  | KDateTime t => timestamp_subsec_nanos t < 1000000000
  | KMixedList values => mixable values /\ foldr (fun v rest => plain v /\ rest) True values
  | KDict entries =>
    (entries = [] \/ mixable (map snd entries)) /\ Forall symbol_admitted (map fst entries)
    /\ foldr (fun e rest => plain e.2 /\ rest) True entries
  | _ => True
  end.

(** Text is read back as a char vector: the wire does not tell the two apart. *)
Fixpoint read_back (k : K Series DataFrame) : K Series DataFrame :=
  match k with
  | KString text => KCharVector text
  | KMixedList values => KMixedList (map read_back values)
  | KDict entries => KDict (map (fun e => (e.1, read_back e.2)) entries)
  | k => k
  end.

(** The levels the reader descends: a dictionary takes two, one for itself and one
    for the list of its values. *)
Fixpoint wire_depth (k : K Series DataFrame) : Z :=
  match k with
  | KMixedList values => 1 + foldr (fun v m => Z.max (wire_depth v) m) 0 values
  | KDict entries => 2 + foldr (fun e m => Z.max (wire_depth e.2) m) 0 entries
  | _ => 0
  end.

Lemma wire_depth_nonneg k : 0 <= wire_depth k.
Proof.
  assert (forall A (f : A -> Z) l, 0 <= foldr (fun a m => Z.max (f a) m) 0 l) as Hmax
    by (intros A f l; induction l; simpl; lia).
  destruct k; cbn [wire_depth]; try lia.
  - specialize (Hmax _ wire_depth values). lia.
  - specialize (Hmax _ (fun e : list Z * K Series DataFrame => wire_depth e.2) entries). lia.
Qed.
End Plain.

Section Reading.
  Context `{Chrono} `{!ChronoLaws} {Series DataFrame : Type}.
  Context `{!SeriesEncoder Series DataFrame} `{!SeriesEncoderLaws}.
  Context `{!SeriesDecoder Series DataFrame} `{!SeriesDecoderLaws}.

Abbreviation kval := (K Series DataFrame).
Abbreviation read_at fuel body depth encoding pos :=
  (deserialize_unchecked fuel body depth encoding false pos).

(** [bytes] are read as [k], wherever they stand and whatever follows them. *)
Definition reads_back (bytes : list Z) (k : kval) (levels : Z) : Prop :=
  forall fuel pre post depth encoding,
    slice_ok (pre ++ bytes ++ post) -> depth + levels <= MAX_VALUE_DEPTH ->
    levels < Z.of_nat fuel ->
    read_at fuel (pre ++ bytes ++ post) depth encoding (len pre) = Ok (k, len pre + len bytes).

(** The reader past the type byte. *)
Lemma read_tag fuel pre t rest depth encoding :
  depth <= MAX_VALUE_DEPTH ->
  read_at (S fuel) (pre ++ t :: rest) depth encoding (len pre)
  = (let body := pre ++ t :: rest in
     let pos := len (pre ++ [t]) in
     let read := deserialize_unchecked fuel body (depth + 1) encoding in
     if between 237 t 255 then deserialize_atom body pos t encoding
     else if between 0 t 19 then deserialize_list (read false) body pos t false encoding
     else if t =? 99 then deserialize_dictionary read body pos false encoding
     else if t =? 98 then deserialize_table body pos encoding
     else if t =? 100 then deserialize_lambda body pos encoding
     else if between 101 t 103 then
       opcode ← ok_or (get_at body pos)
         (DeserializationErr ("q primitive type " +:+ show t +:+ " omitted its opcode"));
       if (t =? 101) && (opcode =? 0) then Ok (KNull, pos + 1)
       else
         operator ← ok_or (QOperator_from_wire t opcode) (NotSupportedKOperatorErr opcode);
         Ok (KOperator operator, pos + 1)
     else if t =? 128 then
       '(message, _) ← take_utf8_until_nul body pos Lossy "q error message";
       Err (ServerErr (decoded_text message))
     else Err (NotSupportedKTypeErr t)).
Proof.
  intros Hd. cbn [deserialize_unchecked]. replace (MAX_VALUE_DEPTH <? depth) with false by lia.
  rewrite get_at_here. cbn [ok_or mbind outcome_bind].
  replace (len pre + 1) with (len (pre ++ [t])) by (rewrite length_app; simpl; lia). done.
Qed.

(** An atom of fixed width. *)
Lemma fixed_atom_at n c (make : list Z -> res kval) pre t x post k :
  len x = n -> slice_ok (pre ++ (t :: x) ++ post) -> make x = Ok k ->
  fixed_atom n c make (pre ++ (t :: x) ++ post) (len (pre ++ [t])) = Ok (k, len pre + len (t :: x)).
Proof.
  intros Hn [_ Hl] Hm. unfold fixed_atom.
  replace (pre ++ (t :: x) ++ post) with ((pre ++ [t]) ++ x ++ post) in * by (by rewrite <- app_assoc).
  rewrite take_bytes_at by done. cbn [mbind outcome_bind]. rewrite Hm. cbn [mbind outcome_bind].
  rewrite length_app. cbn [length]. do 2 f_equal. lia.
Qed.

(** The tests on a known type byte. *)
Ltac at_tag :=
  intros fuel pre post depth encoding Hok Hd Hf; destruct fuel as [|fuel]; [lia|];
  cbn [app]; rewrite read_tag by lia; cbv zeta;
  cbn [between Z.leb Z.eqb Z.compare Pos.compare Pos.compare_cont Pos.eqb andb orb].

Lemma atom_reads t x n c (make : list Z -> res kval) k :
  between 237 t 255 = true ->
  (forall vec pos encoding, deserialize_atom vec pos t encoding = fixed_atom n c make vec pos) ->
  len x = n -> make x = Ok k -> reads_back (t :: x) k 0.
Proof.
  intros Ht Hatom Hn Hm fuel pre post depth encoding Hok Hd Hf. destruct fuel as [|fuel]; [lia|].
  cbn [app]. rewrite read_tag by lia. cbv zeta. rewrite Ht, Hatom.
  by apply fixed_atom_at.
Qed.

Lemma milliseconds_of t :
  nanosecond t < 1000000000 -> nanosecond t mod 1000000 = 0 ->
  let ms := num_seconds_from_midnight t * 1000 + nanosecond t / 1000000 in
  time_milliseconds t = ms /\ 0 <= ms < 86400000
  /\ ms * 1000000 = num_seconds_from_midnight t * 1000000000 + nanosecond t.
Proof.
  intros Hn Hm ms. pose proof (seconds_range t). pose proof (nanosecond_range t).
  pose proof (Z.div_mod (nanosecond t) 1000000 ltac:(lia)) as Hdiv. rewrite Hm in Hdiv.
  assert (0 <= ms < 86400000) as Hr by (unfold ms; lia).
  split_and!; try lia; try (unfold ms; lia). unfold time_milliseconds. fold ms.
  apply (signed_unsigned 32); lia.
Qed.

Lemma time_reads t :
  nanosecond t < 1000000000 -> nanosecond t mod 1000000 = 0 ->
  @unit_time _ Series DataFrame 237 (time_milliseconds t) 1000000 = Ok (KTime t).
Proof.
  intros Hn Hm. destruct (milliseconds_of t Hn Hm) as (-> & Hr & Hns).
  pose proof (nanosecond_range t) as Hnr.
  unfold unit_time. replace (_ <? 0) with false by lia. rewrite Hns.
  unfold i64_checked, in_i64, NANOS_PER_DAY. replace (_ && _) with true by bool_lia.
  cbn [mbind option_bind]. replace (_ <? 86400000000000) with true by lia.
  cbn [ok_or mbind outcome_bind].
  replace ((num_seconds_from_midnight t * 1000000000 + nanosecond t) / 1000000000)
    with (num_seconds_from_midnight t) by (apply (Z.div_unique _ _ _ (nanosecond t)); lia).
  replace ((num_seconds_from_midnight t * 1000000000 + nanosecond t) mod 1000000000)
    with (nanosecond t) by (apply (Z.mod_unique _ _ (num_seconds_from_midnight t)); lia).
  by rewrite time_roundtrip.
Qed.

Lemma timestamp_reads t n q :
  timestamp_subsec_nanos t < 1000000000 -> timestamp_nanos_opt t = Some n -> q_timestamp_nanoseconds n = Ok q ->
  i64_min <= q <= i64_max /\ @timestamp_atom _ Series DataFrame q = Ok (KDateTime t).
Proof.
  intros Hleap Hn Hq. pose proof (nanos_range t n Hn) as Hr. pose proof (nanos_roundtrip t n Hleap Hn) as Ht.
  unfold q_timestamp_nanoseconds, i64_checked, in_i64 in *.
  destruct (_ && _) eqn:E1 in Hq; [|done]. destruct (_ && _) eqn:E2 in Hq; [|done].
  injection Hq as <-. split; [bool_lia|]. unfold timestamp_atom, unix_timestamp_nanoseconds.
  replace (_ =? i64_min) with false by bool_lia.
  replace (_ || _) with false by bool_lia. unfold i64_checked, in_i64.
  replace (n - NANOS_DIFF + NANOS_DIFF) with n by lia. rewrite Hr. cbn [ok_or mbind outcome_bind].
  by rewrite Ht.
Qed.

Lemma date_reads d :
  i32_min <= num_days_from_ce d - DAY_DIFF <= i32_max
  /\ @days_date _ Series DataFrame (num_days_from_ce d - DAY_DIFF) = Ok (KDate d).
Proof.
  pose proof (days_range d) as Hr. unfold DAY_DIFF. split; [bool_lia|]. unfold days_date, DAY_DIFF.
  replace (num_days_from_ce d - 730120 + 730120) with (num_days_from_ce d) by lia.
  unfold i32_checked, in_i32. replace (_ && _) with true by bool_lia. cbn [ok_or mbind outcome_bind].
  by rewrite days_roundtrip.
Qed.

(** Writes [k] from nothing: the bytes are determined. *)
Lemma written_bytes (k : kval) bytes out : written k bytes -> serialize_into k [] = Ok out -> bytes = out.
Proof. intros Hw. rewrite (Hw []). by intros [= <-]. Qed.

(** The atoms: what is written is read back. *)
Lemma fixed_reads (k : kval) bytes depth n :
  match k with
  | KBoolean _ | KGuid _ | KU8 _ | KI16 _ | KI32 _ | KI64 _ | KF32 _ | KF64 _ | KChar _
  | KDateTime _ | KDate _ | KTime _ | KDuration _ => True
  | _ => False
  end ->
  typed k -> plain k -> j6_len_with_depth k depth = Ok n -> written k bytes -> reads_back bytes k 0.
Proof.
  intros Hk Ht Hp Hn Hw. destruct k; try done; cbn [typed plain] in *;
    cbn [j6_len_with_depth] in Hn; apply if_Err_Ok in Hn as [_ Hn].
  - apply written_bytes with (out := [255; if b then 1 else 0]) in Hw as ->; [|done].
    eapply atom_reads; [done|reflexivity|done|]. cbv beta. rewrite from_le_single. by destruct b.
  - apply written_bytes with (out := 254 :: bytes0) in Hw as ->; [|done]. destruct Ht as [_ Hl].
    eapply atom_reads; [done|reflexivity|lia|done].
  - apply written_bytes with (out := [252; v]) in Hw as ->; [|done].
    eapply atom_reads; [done|reflexivity|done|]. cbv beta. by rewrite from_le_single.
  - apply written_bytes with (out := 251 :: i16_to_le v) in Hw as ->; [|done].
    eapply atom_reads; [done|reflexivity|done|]. cbv beta. by rewrite i16_le_roundtrip.
  - apply written_bytes with (out := 250 :: i32_to_le v) in Hw as ->; [|done].
    eapply atom_reads; [done|reflexivity|done|]. cbv beta. by rewrite i32_le_roundtrip.
  - apply written_bytes with (out := 249 :: i64_to_le v) in Hw as ->; [|done].
    eapply atom_reads; [done|reflexivity|done|]. cbv beta. by rewrite i64_le_roundtrip.
  - apply written_bytes with (out := 248 :: to_le 4 bits) in Hw as ->; [|done].
    eapply atom_reads; [done|reflexivity|done|]. cbv beta. by rewrite from_to_le_small.
  - apply written_bytes with (out := 247 :: to_le 8 bits) in Hw as ->; [|done].
    eapply atom_reads; [done|reflexivity|done|]. cbv beta. by rewrite from_to_le_small.
  - apply written_bytes with (out := [246; v]) in Hw as ->; [|done].
    eapply atom_reads; [done|reflexivity|done|]. cbv beta. by rewrite from_le_single.
  - apply bind_Ok in Hn as (ns & Hns%ok_or_Ok & (q & Hq & _)%bind_Ok).
    destruct (timestamp_reads t ns q Hp Hns Hq) as [Hr Hread].
    apply written_bytes with (out := 244 :: i64_to_le q) in Hw as ->.
    2: { cbn [serialize_into]. rewrite Hns. cbn [ok_or mbind outcome_bind]. by rewrite Hq. }
    eapply atom_reads; [done|reflexivity|done|]. cbv beta. by rewrite i64_le_roundtrip.
  - destruct (date_reads d) as [Hr Hread].
    apply written_bytes with (out := 242 :: i32_to_le (num_days_from_ce d - DAY_DIFF)) in Hw as ->.
    2: { cbn [serialize_into]. unfold i32_checked, in_i32. by replace (_ && _) with true by bool_lia. }
    eapply atom_reads; [done|reflexivity|done|]. cbv beta. by rewrite i32_le_roundtrip.
  - apply if_Err_Ok in Hn as [Hmod _]. assert (nanosecond t mod 1000000 = 0) as Hm by lia.
    destruct (milliseconds_of t Hp Hm) as (Hms & Hr & _).
    apply written_bytes with (out := 237 :: i32_to_le (time_milliseconds t)) in Hw as ->; [|done].
    eapply atom_reads; [done|reflexivity|done|]. cbv beta. rewrite i32_le_roundtrip by (rewrite Hms; bool_lia).
    by apply time_reads.
  - apply bind_Ok in Hn as (ns & Hns%ok_or_Ok & _). destruct (duration_roundtrip d ns Hns) as [Hr Hd].
    apply written_bytes with (out := 240 :: i64_to_le ns) in Hw as ->.
    2: { cbn [serialize_into]. by rewrite Hns. }
    eapply atom_reads; [done|reflexivity|done|]. cbv beta.
    rewrite i64_le_roundtrip by (unfold in_i64 in Hr; lia). by rewrite Hd.
Qed.

Lemma validated_symbol text :
  text_ok text -> validate_q_symbol text = Ok tt -> is_utf8 text = true /\ nul_free text.
Proof. intros [_ Hu] Hv. split; [done|by apply validated_nul_free]. Qed.

Lemma symbol_reads text :
  text_ok text -> validate_q_symbol text = Ok tt -> reads_back (245 :: text ++ [0]) (KSymbol text) 0.
Proof.
  intros Ht Hv. destruct (validated_symbol text Ht Hv) as [Hu Hn].
  intros fuel pre post depth encoding Hok Hd Hf. destruct fuel as [|fuel]; [lia|].
  cbn [app]. rewrite read_tag by lia. cbv zeta. change (between 237 245 255) with true. cbv iota.
  unfold deserialize_atom. cbn [Z.eqb Pos.eqb]. unfold take_utf8_until_nul.
  destruct Hok as [_ Hl].
  replace (pre ++ (245 :: text ++ [0]) ++ post) with ((pre ++ [245]) ++ text ++ 0 :: post) in Hl
    by (rewrite <- ?app_assoc; cbn [app]; by rewrite <- ?app_assoc).
  replace (pre ++ 245 :: (text ++ [0]) ++ post) with ((pre ++ [245]) ++ text ++ 0 :: post)
    by (rewrite <- ?app_assoc; cbn [app]; by rewrite <- ?app_assoc).
  rewrite take_until_nul_at by done. cbn [mbind outcome_bind]. rewrite decode_valid by done.
  cbn [mbind outcome_bind]. unfold try_own_decoded, try_own_str. cbn [decoded_owned decoded_text].
  rewrite reserve_unlimited. cbn [mbind outcome_bind]. do 2 f_equal.
  cbn [length]. rewrite !length_app. cbn [length]. lia.
Qed.

(** A typed list whose payload the decoder turns into [k]. *)
Lemma list_reads t l k levels :
  0 <= t <= 19 -> klist_type l = t -> klist_wf l -> 0 <= levels ->
  (forall encoding, deserialize_series (encode_klist l) t (negb (t =? 10)) encoding = Ok k) ->
  reads_back (t :: encode_klist l) k levels.
Proof.
  intros Ht <- Hwf Hlev Hser fuel pre post depth encoding Hok Hd Hf. destruct fuel as [|fuel]; [lia|].
  cbn [app]. rewrite read_tag by lia. cbv zeta.
  replace (between 237 (klist_type l) 255) with false by bool_lia. replace (between 0 (klist_type l) 19) with true by bool_lia.
  cbv iota. unfold deserialize_list.
  replace (pre ++ klist_type l :: encode_klist l ++ post) with ((pre ++ [klist_type l]) ++ encode_klist l ++ post)
    by (by rewrite <- app_assoc).
  assert (slice_ok ((pre ++ [klist_type l]) ++ encode_klist l ++ post)) as Hok' by (by rewrite <- app_assoc).
  rewrite list_end_exact by done.
  rewrite get_range_here by done. cbn [or_panic mbind outcome_bind]. rewrite Hser.
  cbn [mbind outcome_bind]. do 2 f_equal. rewrite length_app. cbn [length]. lia.
Qed.

Lemma char_vector_reads bytes :
  len bytes <= i32_max -> reads_back ([10; 0] ++ i32_to_le (len bytes) ++ bytes) (KCharVector bytes) 0.
Proof.
  intros Hl. apply (list_reads 10 (FixedList 10 0 (len bytes) bytes)); try done.
  - cbn. split_and!; try lia. exists 1. split_and!; [done|lia|lia].
  - intros encoding. cbn [encode_klist]. by apply char_vector.
Qed.

Lemma operator_reads o :
  QOperator_from_wire (op_k_type o) (op_opcode o) = Some o ->
  reads_back [op_k_type o; op_opcode o] (KOperator o) 0.
Proof.
  intros Ho fuel pre post depth encoding Hok Hd Hf. destruct fuel as [|fuel]; [lia|].
  cbn [app]. rewrite read_tag by lia. cbv zeta.
  assert (op_k_type o = 101 \/ op_k_type o = 102 \/ op_k_type o = 103) as Hk.
  { unfold QOperator_from_wire in Ho. destruct (Z.eqb_spec (op_k_type o) 101); [lia|].
    destruct (Z.eqb_spec (op_k_type o) 102); [lia|]. destruct (Z.eqb_spec (op_k_type o) 103); [lia|done]. }
  replace (between 237 (op_k_type o) 255) with false by bool_lia.
  replace (between 0 (op_k_type o) 19) with false by bool_lia.
  replace (op_k_type o =? 99) with false by lia. replace (op_k_type o =? 98) with false by lia.
  replace (op_k_type o =? 100) with false by lia. replace (between 101 (op_k_type o) 103) with true by bool_lia.
  cbv iota. replace (pre ++ op_k_type o :: op_opcode o :: post)
    with ((pre ++ [op_k_type o]) ++ op_opcode o :: post) by (by rewrite <- app_assoc).
  rewrite get_at_here. cbn [ok_or mbind outcome_bind]. rewrite Ho.
  destruct ((op_k_type o =? 101) && (op_opcode o =? 0)) eqn:E.
  { exfalso. assert (op_k_type o = 101) as E1 by lia. assert (op_opcode o = 0) as E2 by lia.
    rewrite E1, E2 in Ho. by vm_compute in Ho. }
  cbn [ok_or mbind outcome_bind]. do 2 f_equal. rewrite length_app. cbn [length]. lia.
Qed.

Lemma null_reads : reads_back [101; 0] (@KNull _ Series DataFrame) 0.
Proof.
  intros fuel pre post depth encoding Hok Hd Hf. destruct fuel as [|fuel]; [lia|].
  cbn [app]. rewrite read_tag by lia. cbv zeta. change (between 237 101 255) with false.
  change (between 0 101 19) with false. change (between 101 101 103) with true.
  cbn [Z.eqb Pos.eqb]. replace (pre ++ 101 :: 0 :: post) with ((pre ++ [101]) ++ 0 :: post)
    by (by rewrite <- app_assoc).
  rewrite get_at_here. cbn [ok_or mbind outcome_bind andb Z.eqb]. do 2 f_equal.
  rewrite length_app. cbn [length]. lia.
Qed.

Lemma lambda_validated l : lambda_ok l -> nul_free (lambda_context l).
Proof.
  intros (_ & _ & Hl). unfold QLambda_with_context in Hl. destruct (contains_nul (lambda_source l)); [done|].
  destruct (contains_nul (lambda_context l)) eqn:E; [done|]. by apply contains_nul_free.
Qed.

Lemma get_from_at {A} (pre x : list A) n : n = len pre -> get_from (pre ++ x) n = Some x.
Proof. intros ->. apply get_from_app. Qed.

Lemma lambda_reads l :
  lambda_ok l -> len (lambda_source l) <= i32_max ->
  reads_back (100 :: lambda_context l ++ [0; 10; 0] ++ i32_to_le (len (lambda_source l)) ++ lambda_source l)
    (KLambda l) 0.
Proof.
  intros Hl Hlen fuel pre post depth encoding Hok Hd Hf. destruct fuel as [|fuel]; [lia|].
  cbn [app]. rewrite read_tag by lia. cbv zeta. change (between 237 100 255) with false.
  change (between 0 100 19) with false. cbn [Z.eqb Pos.eqb].
  pose proof (lambda_validated l Hl) as Hnul. destruct Hl as ([_ Hus] & [_ Huc] & Hwith).
  set (c := lambda_context l) in *. set (s := lambda_source l) in *.
  set (p := pre ++ [100]). set (h := 10 :: 0 :: i32_to_le (len s)).
  assert (len h = 6) as Hh by (unfold h; cbn [length]; by rewrite len_i32_to_le).
  destruct Hok as [_ Hmax].
  assert (pre ++ 100 :: (c ++ 0 :: 10 :: 0 :: i32_to_le (len s) ++ s) ++ post
          = p ++ c ++ 0 :: h ++ s ++ post) as E.
  { unfold p, h. rewrite <- !app_assoc. cbn [app]. by rewrite <- !app_assoc. }
  assert (len (p ++ c ++ 0 :: h ++ s ++ post) <= isize_max) as Hmax'.
  { rewrite <- E. exact Hmax. }
  rewrite E. clear E Hmax. rewrite !length_app in Hmax'. cbn [length] in Hmax'. rewrite !length_app in Hmax'.
  unfold deserialize_lambda. rewrite get_from_app. cbn [ok_or mbind outcome_bind].
  rewrite find_nul_app by done. cbn [ok_or mbind outcome_bind].
  rewrite checked_add_eq by bool_lia. cbn [ok_or mbind outcome_bind].
  rewrite get_range_here by done. cbn [or_panic mbind outcome_bind].
  rewrite decode_valid by done. cbn [mbind outcome_bind].
  rewrite checked_add_eq by bool_lia. cbn [ok_or mbind outcome_bind].
  rewrite checked_add_eq by bool_lia. cbn [ok_or mbind outcome_bind].
  replace (p ++ c ++ 0 :: h ++ s ++ post) with ((p ++ c ++ [0]) ++ h ++ s ++ post)
    by (rewrite <- !app_assoc; done).
  assert (len p + len c + 1 = len (p ++ c ++ [0])) as -> by (rewrite !length_app; simpl; lia).
  rewrite get_range_here by lia. cbn [ok_or mbind outcome_bind].
  change (get_at h 0) with (Some 10). change (get_at h 1) with (Some 0).
  cbn [or_panic mbind outcome_bind Z.eqb Pos.eqb negb].
  assert (get_range h 2 6 = Some (i32_to_le (len s))) as ->.
  { apply get_range_Some. exists [10; 0], []. rewrite app_nil_r, len_i32_to_le. by split_and!. }
  cbn [or_panic mbind outcome_bind]. rewrite i32_le_roundtrip by bool_lia.
  unfold try_usize. replace (_ && _) with true by bool_lia. cbn [ok_or mbind outcome_bind].
  rewrite checked_add_eq by (rewrite !length_app; cbn [length]; bool_lia). cbn [ok_or mbind outcome_bind].
  rewrite (app_assoc _ h). assert (len (p ++ c ++ [0]) + 6 = len ((p ++ c ++ [0]) ++ h)) as ->
    by (rewrite (length_app _ h); lia).
  rewrite get_range_here by done. cbn [ok_or mbind outcome_bind].
  rewrite decode_valid by done. cbn [mbind outcome_bind decoded_text]. rewrite Hwith.
  cbn [map_err mbind outcome_bind]. do 2 f_equal. unfold p, h.
  len_lia.
Qed.

(** ** Lists of values *)

(** Each item is read back from its bytes. *)
Inductive items_read (levels : Z) : list (list Z) -> list kval -> Prop :=
| items_nil : items_read levels [] []
| items_cons bytes k bss ks :
    reads_back bytes k levels -> 2 <= len bytes -> items_read levels bss ks ->
    items_read levels (bytes :: bss) (k :: ks).

Lemma items_read_min levels bss ks : items_read levels bss ks -> 2 * len ks <= len (concat bss) /\ length bss = length ks.
Proof. induction 1 as [|b k bss ks _ Hb2 _ IH]; [done|]. cbn [concat length]. rewrite length_app. lia. Qed.

Lemma read_items levels fuel pre bss ks post depth encoding :
  items_read levels bss ks -> slice_ok (pre ++ concat bss ++ post) ->
  depth + levels <= MAX_VALUE_DEPTH -> levels < Z.of_nat fuel ->
  read_values (deserialize_unchecked fuel (pre ++ concat bss ++ post) depth encoding false)
    (length ks) (len pre)
  = Ok (ks, len pre + len (concat bss)).
Proof.
  intros Hi. revert pre. induction Hi as [|b k bss ks Hb Hb2 _ IH]; intros pre Hok Hd Hf.
  - cbn. by rewrite Z.add_0_r.
  - cbn [read_values length concat]. rewrite <- app_assoc. cbn [concat] in Hok. rewrite <- app_assoc in Hok.
    rewrite (Hb fuel pre (concat bss ++ post) depth encoding) by done. cbn [mbind outcome_bind].
    rewrite app_assoc in Hok |- *. specialize (IH (pre ++ b) Hok Hd Hf).
    replace (len (pre ++ b)) with (len pre + len b) in IH by (rewrite length_app; lia).
    rewrite IH. cbn [mbind outcome_bind]. rewrite length_app. do 2 f_equal. lia.
Qed.

(** A general list of values, one of which keeps it from being a nested list: the
    bytes of char vectors, if any, and then of a value of another kind. *)
Definition mixed_bytes (bytes : list Z) (n : Z) : Prop :=
  exists texts rest, bytes = concat (map char_vector_bytes texts) ++ rest
  /\ unlike_vector rest /\ len texts < n /\ Forall (fun x => len x <= i32_max) texts.

Lemma mixed_reads bss ks levels :
  mixed_bytes (concat bss) (len ks) -> items_read levels bss ks -> len ks <= i32_max -> 0 <= levels ->
  reads_back ([0; 0] ++ i32_to_le (len ks) ++ concat bss) (KMixedList ks) (1 + levels).
Proof.
  intros (texts & rest & Hfirst & Hunlike & Htexts & Hsmall) Hi Hn Hlev fuel pre post depth encoding Hok Hd Hf.
  destruct fuel as [|fuel]; [lia|]. cbn [app]. rewrite read_tag by lia. cbv zeta.
  change (between 237 0 255) with false. change (between 0 0 19) with true. cbv iota.
  set (p := pre ++ [0]). destruct (items_read_min _ _ _ Hi) as [Hmin _].
  assert (0 < len ks) as Hpos by lia.
  assert (pre ++ 0 :: 0 :: (i32_to_le (len ks) ++ concat bss) ++ post
          = p ++ (0 :: i32_to_le (len ks)) ++ concat bss ++ post) as E
    by (unfold p; rewrite <- ?app_assoc; cbn [app]; by rewrite <- ?app_assoc).
  cbn [app] in Hok. rewrite E in *. clear E.
  unfold deserialize_list. set (body := p ++ _ ++ concat bss ++ post) in *.
  assert (body = p ++ (0 :: i32_to_le (len ks)) ++ concat (map char_vector_bytes texts) ++ rest ++ post) as E0
    by (unfold body; by rewrite Hfirst, <- app_assoc).
  destruct (scan_refuses p 0 (len ks) texts (rest ++ post)) as [e He];
    [by rewrite <- E0|lia|done|by apply unlike_vector_app|].
  rewrite <- E0 in He. rewrite He. cbn [negb andb Z.eqb]. unfold mixed_list.
  pose proof (proj2 Hok) as Hmax.
  assert (body = p ++ [0] ++ i32_to_le (len ks) ++ concat bss ++ post) as E1 by done.
  assert (take_bytes 1 body (len p) "q mixed-list attribute" = Ok ([0], len (p ++ [0]))) as ->.
  { rewrite E1 in Hmax |- *. rewrite take_bytes_at by done. rewrite length_app. do 2 f_equal. simpl. lia. }
  cbn [mbind outcome_bind].
  assert (take_bytes 4 body (len (p ++ [0])) "q mixed-list length"
          = Ok (i32_to_le (len ks), len (p ++ [0]) + 4)) as ->.
  { rewrite E1, app_assoc in Hmax |- *. rewrite take_bytes_at by done. done. }
  cbn [mbind outcome_bind]. rewrite i32_le_roundtrip by bool_lia.
  unfold try_usize. replace (_ && _) with true by bool_lia. cbn [ok_or mbind outcome_bind].
  assert (body = (p ++ [0] ++ i32_to_le (len ks)) ++ concat bss ++ post) as E2
    by (rewrite E1; by rewrite <- !app_assoc).
  assert (len (p ++ [0]) + 4 = len (p ++ [0] ++ i32_to_le (len ks))) as Epos
    by (rewrite !length_app, len_i32_to_le; simpl; lia).
  rewrite Epos. unfold saturating_sub.
  assert (2 * len ks <= len body - len (p ++ [0] ++ i32_to_le (len ks))) as Hroom
    by (rewrite E2, !length_app; lia).
  replace (_ <? len ks) with false.
  2: { symmetry. apply Z.ltb_ge. apply Z.div_le_lower_bound; lia. }
  rewrite reserve_unlimited. cbn [mbind outcome_bind]. rewrite Nat2Z.id.
  rewrite E2 in Hok |- *. rewrite (read_items levels) by (done || lia). cbn [mbind outcome_bind].
  do 2 f_equal. unfold p. len_lia.
Qed.

(** ** Dictionaries *)

Lemma insert_entries (dict entries : list (list Z * kval)) :
  NoDup (map fst dict ++ map fst entries) ->
  try_fold insert_entry dict entries = Ok (dict ++ entries).
Proof.
  revert dict. induction entries as [|[key v] entries IH]; intros dict Hnd; cbn [try_fold].
  - by rewrite app_nil_r.
  - assert (insert_entry dict (key, v) = Ok (dict ++ [(key, v)])) as ->.
    { unfold insert_entry, try_own_str. rewrite reserve_unlimited. cbn [mbind outcome_bind fst snd].
      destruct (existsb _ dict) eqn:E; [|done]. exfalso.
      apply existsb_exists in E as ([k' v'] & Hin & Heq). apply bool_decide_eq_true in Heq. cbn in Heq. subst k'.
      apply NoDup_app in Hnd as (_ & Hdis & _). apply (Hdis key).
      - apply list_elem_of_In. apply in_map_iff. by exists (key, v').
      - cbn. apply list_elem_of_here. }
    cbn [mbind outcome_bind]. rewrite IH; [by rewrite <- app_assoc|].
    by rewrite map_app, <- app_assoc.
Qed.

(** The reader past the names of a dictionary, whose values start with [t]. *)
Lemma dictionary_reads (entries : list (list Z * kval)) payload values levels :
  len entries <= i32_max ->
  Forall (fun e => text_ok e.1 /\ validate_q_symbol e.1 = Ok tt) entries ->
  NoDup (map fst entries) -> Forall symbol_admitted (map fst entries) -> 0 <= levels ->
  reads_back (0 :: payload) values levels ->
  value_count values = Ok (len entries) -> dictionary_values values = Ok (map snd entries) ->
  reads_back ([99; 11; 0] ++ i32_to_le (len entries) ++ terminated (map fst entries) ++ 0 :: payload)
    (KDict entries) (1 + levels).
Proof.
  intros Hn Hnames Hnd Hadm Hlev Hvals Hcount Hvalues fuel pre post depth encoding Hok Hd Hf.
  destruct fuel as [|fuel]; [lia|].
  set (names := terminated (map fst entries)) in *.
  set (keys := (0 :: i32_to_le (len entries)) ++ names).
  set (p := pre ++ [99]). set (p' := p ++ [11]).
  assert (pre ++ ([99; 11; 0] ++ i32_to_le (len entries) ++ names ++ 0 :: payload) ++ post
          = pre ++ 99 :: 11 :: keys ++ (0 :: payload) ++ post) as E
    by (unfold keys; cbn [app]; rewrite <- ?app_assoc; cbn [app]; by rewrite <- ?app_assoc).
  rewrite E in Hok |- *. rewrite read_tag by lia. cbv zeta.
  change (between 237 99 255) with false. change (between 0 99 19) with false. cbn [Z.eqb Pos.eqb].
  set (body := pre ++ 99 :: _) in *. fold p.
  assert (body = p ++ 11 :: keys ++ (0 :: payload) ++ post) as E1
    by (unfold body, p; by rewrite <- app_assoc).
  assert (body = p' ++ keys ++ (0 :: payload) ++ post) as E2 by (rewrite E1; unfold p'; by rewrite <- app_assoc).
  unfold deserialize_dictionary. rewrite E1 at 1. rewrite get_at_here. cbn [ok_or mbind outcome_bind Z.eqb Pos.eqb orb].
  replace (len p + 1) with (len p') by (unfold p'; len_lia). unfold dictionary_keys. cbn [Z.eqb Pos.eqb].
  assert (klist_wf (SymbolList 0 (map fst entries))) as Hwf.
  { cbn. rewrite length_map. split; [done|]. apply Forall_map. eapply Forall_impl; [exact Hnames|].
    intros e [_ Hv]. by apply validated_nul_free. }
  pose proof (list_end_exact p' ((0 :: payload) ++ post) (SymbolList 0 (map fst entries)) Hwf) as Hend.
  cbn [encode_klist klist_type] in Hend. rewrite length_map in Hend. fold names keys in Hend.
  rewrite <- E2 in Hend. rewrite (Hend Hok). cbn [mbind outcome_bind].
  assert (get_range body (len p') (len p' + len keys) = Some keys) as -> by (rewrite E2; by apply get_range_here).
  cbn [or_panic mbind outcome_bind].
  destruct (symbol_series 0 (map fst entries) encoding) as (s & Hs & Hcat & Hlen).
  { by rewrite length_map. }
  { apply Hwf. }
  { apply Forall_map. eapply Forall_impl; [exact Hnames|]. by intros e [[_ ?] _]. }
  { exact Hadm. }
  rewrite length_map in Hs, Hlen. fold names keys in Hs. rewrite Hs.
  cbn [mbind outcome_bind into_series].
  assert (body = (p' ++ keys) ++ (0 :: payload) ++ post) as E3 by (rewrite E2; by rewrite <- app_assoc).
  replace (len p' + len keys) with (len (p' ++ keys)) by len_lia.
  assert (get_at body (len (p' ++ keys)) = Some 0) as -> by (rewrite E3; apply get_at_here).
  cbn [ok_or mbind outcome_bind]. change (19 <? 0) with false. cbv iota.
  rewrite E3 in Hok |- *. rewrite Hvals by (done || lia). cbn [mbind outcome_bind].
  rewrite Hcat. cbn [mbind outcome_bind]. rewrite Hcount. cbn [mbind outcome_bind].
  rewrite Hlen, Z.eqb_refl. cbn [negb]. rewrite Hvalues. cbn [mbind outcome_bind].
  rewrite reserve_unlimited. cbn [mbind outcome_bind].
  assert (zip (map fst entries) (map snd entries) = entries) as -> by (clear; induction entries as [|[] ? IH]; simpl; congruence).
  rewrite (insert_entries [] entries) by done. cbn [mbind outcome_bind app]. do 2 f_equal.
  unfold p', p, keys. len_lia.
Qed.

(** ** Every plain value *)

Lemma reads_back_weaken bytes k levels levels' :
  levels <= levels' -> reads_back bytes k levels -> reads_back bytes k levels'.
Proof. intros Hle Hr fuel pre post depth encoding Hok Hd Hf. apply Hr; [done|lia|lia]. Qed.

Lemma operator_type o :
  QOperator_from_wire (op_k_type o) (op_opcode o) = Some o -> 101 <= op_k_type o <= 103.
Proof.
  unfold QOperator_from_wire. destruct (Z.eqb_spec (op_k_type o) 101); [lia|].
  destruct (Z.eqb_spec (op_k_type o) 102); [lia|]. destruct (Z.eqb_spec (op_k_type o) 103); [lia|done].
Qed.

Lemma high_tag t : 13 <= t -> nested_child_type t = false.
Proof.
  intros Ht. destruct (nested_child_type t) eqn:E; [|done].
  destruct (nested_child_cases t E) as (_ & _ & ?). lia.
Qed.

(** The bytes of a value: at least two, and how they start tells vectors apart. *)
Definition headed (k : kval) (bytes : list Z) : Prop :=
  2 <= len bytes /\ (is_vector k = false -> unlike_vector bytes)
  /\ (is_vector k = true -> exists text, bytes = char_vector_bytes text /\ len text <= i32_max).

Lemma headed_length k bytes : headed k bytes -> 2 <= len bytes.
Proof. by intros []. Qed.

Lemma char_vector_headed k text : is_vector k = true -> len text <= i32_max -> headed k (char_vector_bytes text).
Proof.
  intros Hk Hl. unfold headed. rewrite Hk. split_and!; [|done|by exists text].
  unfold char_vector_bytes. simpl. lia.
Qed.

Lemma tagged k t rest : is_vector k = false -> rest <> [] -> t <> 0 -> nested_child_type t = false -> headed k (t :: rest).
Proof.
  intros Hk Hr Hnz Ht. unfold headed. rewrite Hk. split_and!; [destruct rest; [done|simpl; lia]| |done].
  intros _. by exists t, rest.
Qed.

Lemma app_ne_nil {A} (l : list A) a : l ++ [a] <> [].
Proof. by destruct l. Qed.

Lemma leaf_headed k depth n bytes :
  leaf k -> typed k -> plain k -> j6_len_with_depth k depth = Ok n -> written k bytes -> headed k bytes.
Proof.
  intros Hleaf Ht Hp Hn Hw. specialize (Hw []). cbn [app] in Hw.
  destruct k; try done; cbn [serialize_into app typed j6_len_with_depth] in Hw, Ht, Hn; unfold push_symbol in Hw;
    apply if_Err_Ok in Hn as [_ Hn].
  all: try (match goal with |- headed (KCharVector _) _ => idtac | |- headed (KString _) _ => idtac end;
    apply bind_Ok in Hn as (i & [-> Hi]%checked_q_count_Ok & _);
    rewrite q_list_length_eq in Hw by done; cbn [mbind outcome_bind] in Hw; injection Hw as <-;
    apply char_vector_headed; [done|lia]).
  all: simplify_res; try (apply tagged; done).
  - destruct Ht as [_ Hl]. apply tagged; [done|by destruct bytes0|done|done].
  - apply tagged; [done|apply app_ne_nil|done|done].
  - pose proof (operator_type o Ht) as Ho.
    match goal with E : wire_value o = _ |- _ => unfold wire_value in E; injection E as <- <- end.
    apply tagged; [done|done|lia|apply high_tag; lia].
  - apply tagged; [done|by destruct (lambda_context l)|done|done].
Qed.

Lemma leaf_reads k depth n bytes :
  leaf k -> typed k -> plain k -> j6_len_with_depth k depth = Ok n -> written k bytes ->
  reads_back bytes (read_back k) 0.
Proof.
  intros Hleaf Ht Hp Hn Hw. destruct k; try done; cbn [read_back];
    try (eapply fixed_reads; [|eassumption..]; exact I); cbn [typed] in Ht;
    cbn [j6_len_with_depth] in Hn; apply if_Err_Ok in Hn as [_ Hn].
  - apply bind_Ok in Hn as (i & [-> Hi]%checked_q_count_Ok & _).
    rewrite (written_bytes _ _ ([10; 0] ++ i32_to_le (len bytes0) ++ bytes0) Hw)
      by (cbn [serialize_into app]; by rewrite q_list_length_eq).
    apply char_vector_reads. lia.
  - apply bind_Ok in Hn as (u & Hu%validate_q_symbol_cases & _).
    rewrite (written_bytes _ _ (245 :: text ++ [0]) Hw)
      by (cbn [serialize_into app]; by rewrite push_symbol_Ok).
    by apply symbol_reads.
  - apply bind_Ok in Hn as (i & [-> Hi]%checked_q_count_Ok & _).
    rewrite (written_bytes _ _ ([10; 0] ++ i32_to_le (len text) ++ text) Hw)
      by (cbn [serialize_into app]; by rewrite q_list_length_eq).
    apply char_vector_reads. lia.
  - rewrite (written_bytes _ _ [op_k_type o; op_opcode o] Hw) by done. by apply operator_reads.
  - apply bind_Ok in Hn as (i & [-> Hi]%checked_q_count_Ok & _).
    rewrite (written_bytes _ _ (100 :: lambda_context l ++ [0; 10; 0]
      ++ i32_to_le (len (lambda_source l)) ++ lambda_source l) Hw)
      by (cbn [serialize_into app]; by rewrite q_list_length_eq).
    apply lambda_reads; [done|lia].
  - rewrite (written_bytes _ _ [101; 0] Hw) by done. apply null_reads.
Qed.
(** What is written for a list of values, one after the other. *)
Lemma written_items (values : list kval) levels depth sizes :
  Forall typed values -> Forall plain values ->
  Forall2 (fun v n => j6_len_with_depth v depth = Ok n) values sizes ->
  Forall (fun v => wire_depth v <= levels) values ->
  Forall (fun v => forall n bytes, typed v -> plain v -> j6_len_with_depth v depth = Ok n ->
    written v bytes -> headed v bytes /\ reads_back bytes (read_back v) (wire_depth v)) values ->
  exists bss, items_read levels bss (map read_back values) /\ Forall2 headed values bss
    /\ forall vec, try_fold (fun vec v => serialize_into v vec) vec values = Ok (vec ++ concat bss).
Proof.
  intros Ht Hp Hs Hd IH. induction Hs as [|v n values sizes Hn _ IHs].
  - exists []. split_and!; try constructor. intros vec. cbn. by rewrite app_nil_r.
  - apply Forall_cons in Ht as [Ht Hts], Hp as [Hp Hps], Hd as [Hd Hds], IH as [IH IHv].
    destruct (IHs Hts Hps Hds IHv) as (bss & Hi & Hh & Hw).
    destruct (value_written v depth n Ht Hn) as (bytes & Hb & _).
    destruct (IH n bytes Ht Hp Hn Hb) as [Hhead Hread].
    exists (bytes :: bss). split_and!.
    + cbn [map]. constructor; [by eapply reads_back_weaken|by eapply headed_length|done].
    + by constructor.
    + intros vec. cbn [try_fold concat]. rewrite (Hb vec). cbn [mbind outcome_bind].
      by rewrite Hw, <- app_assoc.
Qed.

(** The char vectors before the first value of another kind. *)
Lemma mixable_bytes (values : list kval) bss :
  mixable values -> Forall2 headed values bss -> mixed_bytes (concat bss) (len values).
Proof.
  intros Hm Hh. induction Hh as [|v b values bss (_ & Hother & Hvector) _ IH]; [by inversion Hm|].
  cbn [concat length]. destruct (is_vector v) eqn:Ev.
  - destruct (Hvector eq_refl) as (text & -> & Hl).
    destruct IH as (texts & rest & -> & Hrest & Hn & Hsmall).
    { apply Exists_cons in Hm as [Hm|Hm]; [congruence|done]. }
    exists (text :: texts), rest. cbn [map concat length]. rewrite <- app_assoc. split_and!; [done..|lia|].
    by constructor.
  - exists [], (b ++ concat bss). split_and!; [done|apply unlike_vector_app; by apply Hother|cbn; lia|done].
Qed.

Lemma max_depth {A} (f : A -> Z) l : Forall (fun a => f a <= foldr (fun a m => Z.max (f a) m) 0 l) l.
Proof.
  induction l as [|a l IH]; constructor; cbn [foldr]; [lia|].
  eapply Forall_impl; [exact IH|]. cbv beta. lia.
Qed.

Lemma plain_list (values : list kval) : plain (KMixedList values) <-> mixable values /\ Forall plain values.
Proof. cbn [plain]. by rewrite foldr_Forall. Qed.

Lemma plain_dict (entries : list (list Z * kval)) :
  plain (KDict entries)
  <-> (entries = [] \/ mixable (map snd entries)) /\ Forall symbol_admitted (map fst entries)
      /\ Forall plain (map snd entries).
Proof.
  cbn [plain]. rewrite (foldr_Forall (fun e : list Z * kval => plain e.2)).
  by rewrite (Forall_map snd plain entries).
Qed.

Lemma map_depth (entries : list (list Z * kval)) :
  foldr (fun e m => Z.max (wire_depth e.2) m) 0 entries
  = foldr (fun v m => Z.max (wire_depth v) m) 0 (map snd entries).
Proof. induction entries as [|e entries IH]; [done|]. cbn [foldr map]. by rewrite IH. Qed.

Lemma max_depth_nonneg (values : list kval) : 0 <= foldr (fun v m => Z.max (wire_depth v) m) 0 values.
Proof. induction values; cbn [foldr]; lia. Qed.

(** The statement of the round trip for one value. *)
Definition comes_back (k : kval) : Prop :=
  forall depth n bytes, typed k -> plain k -> j6_len_with_depth k depth = Ok n -> written k bytes ->
    headed k bytes /\ reads_back bytes (read_back k) (wire_depth k).

(** The items of a list or dictionary that come back. *)
Lemma items_come_back (values : list kval) depth sizes :
  Forall comes_back values -> Forall typed values -> Forall plain values ->
  Forall2 (fun v n => j6_len_with_depth v depth = Ok n) values sizes ->
  let levels := foldr (fun v m => Z.max (wire_depth v) m) 0 values in
  exists bss, items_read levels bss (map read_back values) /\ Forall2 headed values bss
    /\ forall vec, try_fold (fun vec v => serialize_into v vec) vec values = Ok (vec ++ concat bss).
Proof.
  intros IH Ht Hp Hs levels. apply (written_items values levels depth sizes); try done.
  - apply max_depth.
  - eapply Forall_impl; [exact IH|]. intros v Hv n bytes. apply Hv.
Qed.

Lemma list_comes_back (values : list kval) : Forall comes_back values -> comes_back (KMixedList values).
Proof.
  intros IH depth n bytes Ht [Hm Hp]%plain_list Hn Hw. apply typed_list in Ht.
  cbn [j6_len_with_depth] in Hn. apply if_Err_Ok in Hn as [_ Hn].
  apply bind_Ok in Hn as (i & [-> Hi]%checked_q_count_Ok & Hn). apply sizes_of in Hn as (sizes & Hs & _).
  destruct (items_come_back values _ sizes IH Ht Hp Hs) as (bss & Hitems & Hheads & Hpay).
  pose proof (mixable_bytes values bss Hm Hheads) as Hmixed.
  rewrite (written_bytes _ _ ([0; 0] ++ i32_to_le (len values) ++ concat bss) Hw).
  2: { cbn [serialize_into]. rewrite q_list_length_eq by done. cbn [mbind outcome_bind].
       rewrite Hpay. by rewrite <- !app_assoc. }
  assert (0 < len values) as Hpos by (destruct Hmixed as (? & ? & _ & _ & ? & _); lia).
  split.
  - split_and!; [simpl; lia| |done]. intros _. exists 0, (0 :: i32_to_le (len values) ++ concat bss).
    split_and!; [done..|]. intros _. exists (len values), (concat bss). split; [done|lia].
  - cbn [read_back wire_depth]. rewrite <- (length_map read_back values).
    apply mixed_reads; rewrite ?length_map; [done..|lia|apply max_depth_nonneg].
Qed.

Lemma dict_comes_back (entries : list (list Z * kval)) :
  Forall comes_back (map snd entries) -> comes_back (KDict entries).
Proof.
  intros IH depth n bytes (Hnd & Hnames & Ht)%typed_dict (Hm & Hadm & Hp)%plain_dict Hn Hw.
  apply Forall_map in Ht. cbn [j6_len_with_depth] in Hn. apply if_Err_Ok in Hn as [_ Hn].
  apply bind_Ok in Hn as (i & [-> Hi]%checked_q_count_Ok & Hn).
  apply entry_sizes in Hn as (Hvalid & sizes & Hs & _).
  destruct (items_come_back (map snd entries) _ sizes IH Ht Hp Hs) as (bss & Hitems & Hheads & Hpay).
  rewrite (written_bytes _ _ ([99; 11; 0] ++ i32_to_le (len entries) ++ terminated (map fst entries)
    ++ 0 :: 0 :: i32_to_le (len entries) ++ concat bss) Hw).
  2: { cbn [serialize_into]. rewrite q_list_length_eq by done. cbn [mbind outcome_bind].
       rewrite dictionary_symbols, push_symbols by (by apply Forall_map). cbn [mbind outcome_bind].
       rewrite dictionary_payload, Hpay. unfold terminated. by rewrite <- !app_assoc. }
  split; [by apply tagged|].
  cbn [read_back wire_depth]. rewrite map_depth.
  set (levels := foldr _ _ _). set (back := map (fun e => (e.1, read_back e.2)) entries).
  assert (map fst back = map fst entries) as Hfst by (unfold back; by rewrite map_map).
  assert (map snd back = map read_back (map snd entries)) as Hsnd by (unfold back; by rewrite !map_map).
  assert (len back = len entries) as Hlen by (unfold back; by rewrite length_map).
  pose proof (max_depth_nonneg (map snd entries)) as Hlev. fold levels in Hlev.
  assert (exists values, reads_back (0 :: 0 :: i32_to_le (len entries) ++ concat bss) values (1 + levels)
    /\ value_count values = Ok (len back) /\ dictionary_values values = Ok (map snd back))
    as (values & Hread & Hcount & Hvals).
  { rewrite Hlen, Hsnd. destruct Hm as [->|Hm].
    - inversion Hheads; subst. destruct (empty_general 0) as (s & Hs0 & Hl & Hv). exists (KSeries s).
      split_and!.
      + apply (list_reads 0 (GeneralList 0 1 [])); done || lia.
      + cbn. by rewrite Hl.
      + cbn [dictionary_values]. unfold try_vec_with_capacity, series_values.
        rewrite reserve_unlimited, Hv. done.
    - pose proof (mixable_bytes _ bss Hm Hheads) as Hmixed.
      exists (KMixedList (map read_back (map snd entries))). split_and!; [|cbn; by rewrite !length_map|done].
      replace (len entries) with (len (map read_back (map snd entries))) by (by rewrite !length_map).
      apply mixed_reads; rewrite ?length_map in *; done || lia. }
  replace (2 + levels) with (1 + (1 + levels)) by lia. rewrite <- Hlen, <- Hfst.
  apply (dictionary_reads back (0 :: i32_to_le (len back) ++ concat bss) values); try done; try lia.
  - unfold back. apply Forall_map. apply Forall_and. done.
  - by rewrite Hfst.
  - by rewrite Hfst.
  - by rewrite Hlen.
Qed.

Lemma value_comes_back (k : kval) : comes_back k.
Proof.
  induction k as [k Hleaf|values IH|entries IH] using K_nested_ind.
  - intros depth n bytes Ht Hp Hn Hw. split; [by eapply leaf_headed|].
    replace (wire_depth k) with 0 by (by destruct k). by eapply leaf_reads.
  - by apply list_comes_back.
  - apply dict_comes_back. by apply Forall_map.
Qed.
End Reading.
