(* ===== verification/Sample.v ===== *)
(** * Sample: a concrete calendar and concrete series

    Functions that meet the laws the development states of chrono and Polars.  They
    only serve to evaluate the model on concrete inputs. *)

From stdpp Require Import prelude strings.
From Stdlib Require Import ZArith Lia ZifyBool.
From S2P Require Import Prelude Errors Types Utf8 ListScanSpec Text Value AnyValue WireText Serialize Deserialize SerializeFacts DeserializeFacts.

(** ** Calendar: days, nanoseconds and times of day as numbers *)

Definition sample_day (z : Z) : Prop := Z.abs z <= 100000000.
Definition sample_clock (t : Z * Z) : Prop := 0 <= t.1 < 86400 /\ 0 <= t.2 < 2000000000.

#[export] Instance sample_day_dec z : Decision (sample_day z).
Proof. unfold sample_day. apply _. Defined.
#[export] Instance sample_clock_dec t : Decision (sample_clock t).
Proof. unfold sample_clock. apply _. Defined.

(** Only the first of a month of year 2000 is known. *)
Definition sample_ymd (y m d : Z) : Z := DAY_DIFF + (y - 2000) * 366 + (m - 1) * 31 + (d - 1).

Definition as_dsig {A} (P : A -> Prop) `{forall a, Decision (P a)} (a : A) : option (dsig P) :=
  match decide (P a) with left H => Some (dexist a H) | right _ => None end.

Lemma as_dsig_Some {A} (P : A -> Prop) `{forall a, Decision (P a)} (x : dsig P) :
  as_dsig P (proj1_sig x) = Some x.
Proof.
  unfold as_dsig. destruct (decide _) as [Hp|Hn].
  - f_equal. by apply dsig_eq.
  - destruct Hn. apply proj2_dsig.
Qed.

Lemma as_dsig_inv {A} (P : A -> Prop) `{forall a, Decision (P a)} (a : A) (x : dsig P) :
  as_dsig P a = Some x -> proj1_sig x = a.
Proof. unfold as_dsig. destruct (decide _); [|done]. by intros [= <-]. Qed.

#[export] Instance sample_chrono : Chrono := {|
  NaiveDate := dsig sample_day;
  DateTime := Z;
  NaiveTime := dsig sample_clock;
  Duration := Z;
  num_days_from_ce d := proj1_sig d;
  from_num_days_from_ce_opt := as_dsig sample_day;
  from_ymd_opt y m d := as_dsig sample_day (sample_ymd y m d);
  timestamp_nanos_opt := i64_checked;
  from_timestamp_nanos := id;
  timestamp_subsec_nanos t := t mod 1000000000;
  num_seconds_from_midnight t := (proj1_sig t).1;
  nanosecond t := (proj1_sig t).2;
  from_num_seconds_from_midnight_opt s n := as_dsig sample_clock (s, n);
  num_nanoseconds := i64_checked;
  duration_nanoseconds := id
|}.

#[export] Instance sample_chrono_laws : ChronoLaws.
Proof.
  split; cbn.
  - intros d. apply (proj2_dsig d).
  - apply as_dsig_Some.
  - intros z d. apply as_dsig_inv.
  - intros d n. unfold i64_checked. by destruct (in_i64 d) eqn:E; [intros [= <-]|].
  - intros d n _. unfold i64_checked. by destruct (in_i64 d) eqn:E; [intros [= <-]|].
  - intros n Hn. unfold i64_checked, id. rewrite Hn. split; [apply Z.mod_pos_bound; lia|done].
  - intros t. apply (proj2_dsig t).
  - intros t. apply (proj2_dsig t).
  - intros t _. rewrite <- (as_dsig_Some sample_clock t). f_equal. by destruct (proj1_sig t).
  - intros s n t Ht%as_dsig_inv. by rewrite Ht.
  - intros d n. unfold i64_checked. by destruct (in_i64 d) eqn:E; [intros [= <-]|].
  - intros n Hn. unfold i64_checked, id. by rewrite Hn.
Qed.

(** ** Series: the bytes they were read from, and their names if they are symbols *)

Record SampleSeries := MkSample {
  sample_name : list Z;
  sample_type : Z;
  sample_names : list (list Z);
  sample_bytes : list Z
}.

Fixpoint split_names (acc l : list Z) : list (list Z) :=
  match l with
  | [] => []
  | b :: l => if b =? 0 then rev acc :: split_names [] l else split_names (b :: acc) l
  end.

Lemma split_names_app acc name rest :
  nul_free name -> split_names acc (name ++ 0 :: rest) = (rev acc ++ name) :: split_names [] rest.
Proof.
  intros Hn. revert acc. induction Hn as [|b name Hb _ IH]; intros acc; cbn [app split_names].
  - by rewrite app_nil_r.
  - replace (b =? 0) with false by lia. rewrite IH. cbn [rev]. by rewrite <- app_assoc.
Qed.

Lemma split_terminated names : Forall nul_free names -> split_names [] (terminated names) = names.
Proof.
  unfold terminated. induction 1 as [|n names Hn _ IH]; [done|]. cbn [flat_map]. rewrite <- app_assoc.
  cbn [app]. by rewrite split_names_app, IH.
Qed.

Definition sample_read (payload : list Z) (k_type : Z) : SampleSeries :=
  MkSample [] k_type (if k_type =? 11 then split_names [] (drop 5 payload) else []) payload.

#[export] Instance sample_decoder : SeriesDecoder SampleSeries (list SampleSeries) := {|
  deserialize_series payload k_type is_column _ :=
    if (k_type =? 10) && negb is_column then Ok (KCharVector (drop 5 payload))
    else Ok (KSeries (sample_read payload k_type));
  new_empty_series k_type := Ok (KSeries (MkSample [] k_type [] (0 :: i32_to_le 0)));
  series_len s := i32_from_le (take 4 (drop 1 (sample_bytes s)));
  series_iter s := map (fun name => AnyCategorical 0 (Some name)) (sample_names s);
  categorical_names s := Ok (sample_names s);
  string_names s := Ok (sample_names s);
  rename s name := MkSample name (sample_type s) (sample_names s) (sample_bytes s);
  hstack left right := Ok (left ++ right);
  new_frame series := Ok series;
  symbol_admitted _ := True
|}.

#[export] Instance sample_encoder : SeriesEncoder SampleSeries (list SampleSeries) := {|
  frame_columns df := map (fun s => (sample_name s, s)) df;
  get_series_len s := Ok (len (sample_bytes s) + 1);
  serialize_series s := Ok (sample_type s :: sample_bytes s);
  series_ok _ := True
|}.

#[export] Instance sample_encoder_laws : SeriesEncoderLaws.
Proof.
  split. intros s n _ [= <-]. eexists. split; [reflexivity|]. cbn [length]. lia.
Qed.

Lemma drop_header {A} (a b c d e : A) l : drop 5 ([a; b; c; d; e] ++ l) = l.
Proof. done. Qed.

Lemma sample_count a n rest :
  i32_min <= n <= i32_max -> i32_from_le (take 4 (drop 1 ((a :: i32_to_le n) ++ rest))) = n.
Proof.
  intros Hn. pose proof (len_i32_to_le n) as Hl.
  change (drop 1 _) with (i32_to_le n ++ rest). rewrite take_app_length' by lia. by apply i32_le_roundtrip.
Qed.

Lemma sample_payload a n rest : drop 5 ((a :: i32_to_le n) ++ rest) = rest.
Proof.
  pose proof (len_i32_to_le n) as Hl.
  change (drop 5 _) with (drop 4 (i32_to_le n ++ rest)). by rewrite drop_app_length' by lia.
Qed.

#[export] Instance sample_decoder_laws : SeriesDecoderLaws.
Proof.
  split; cbn -[i32_from_le].
  - intros a bytes _ Hl. by do 2 f_equal.
  - intros a. exists (sample_read (a :: i32_to_le 0) 0). by split_and!.
  - intros a names encoding Hn Hnul _ _.
    exists (sample_read (a :: i32_to_le (len names) ++ terminated names) 11). split_and!; [done| |].
    + unfold sample_read, sample_names. cbn [Z.eqb Pos.eqb]. f_equal.
      etrans; [|by apply split_terminated]. by f_equal.
    + apply (sample_count a). bool_lia.
Qed.
