(* ===== verification/SerdeSpec.v ===== *)
(** * SerdeSpec: what serializing and deserializing a value guarantee *)

From stdpp Require Import prelude strings.
From Stdlib Require Import ZArith Lia ZifyBool.
From S2P Require Import Prelude Errors Types Utf8 QValue Compress ListScan ListScanFacts ListScanSpec Text Value AnyValue WireText Serialize Float64 Deserialize SerializeFacts DeserializeFacts Sample.

(** ** The reader always comes to an end *)

(** The computation does not run out of fuel, and a result satisfies [P]. *)
Definition ends_with {E A} (m : outcome E A) (P : A -> Prop) : Prop :=
  match m with Ok a => P a | OutOfFuel => False | _ => True end.

Lemma ends_with_bind {E A B} (m : outcome E A) (f : A -> outcome E B) P Q :
  ends_with m P -> (forall a, P a -> ends_with (f a) Q) -> ends_with (m ≫= f) Q.
Proof. destruct m; cbn; auto. Qed.

Lemma ends_with_impl {E A} (m : outcome E A) (P Q : A -> Prop) :
  ends_with m P -> (forall a, P a -> Q a) -> ends_with m Q.
Proof. destruct m; cbn; auto. Qed.

Lemma ends_with_ok_or {E A} (o : option A) (e : E) (P : A -> Prop) :
  (forall a, o = Some a -> P a) -> ends_with (ok_or o e) P.
Proof. destruct o; cbn; auto. Qed.

Lemma ends_with_or_panic {E A} (o : option A) (P : A -> Prop) :
  (forall a, o = Some a -> P a) -> ends_with (@or_panic E A o) P.
Proof. destruct o; cbn; auto. Qed.

Lemma ends_ok_or {E A} (o : option A) (e : E) : ends_with (ok_or o e) (fun _ => True).
Proof. by destruct o. Qed.
Lemma ends_or_panic {E A} (o : option A) : ends_with (@or_panic E A o) (fun _ => True).
Proof. by destruct o. Qed.

Lemma try_fold_ends {E S A} (f : S -> A -> outcome E S) acc l :
  (forall acc a, ends_with (f acc a) (fun _ => True)) ->
  ends_with (try_fold f acc l) (fun _ => True).
Proof.
  intros Hf. revert acc. induction l as [|a l IH]; intros acc; cbn [try_fold]; [done|].
  eapply ends_with_bind; [apply Hf|]. intros acc' _. apply IH.
Qed.

(** A next position of a reader. *)
Definition forward {A} : A * Z -> Prop := fun r => 0 <= r.2.

(** Closes the goals of computations without loops: every bind is followed, every
    test is split, and what a called operation promises is looked up. *)
Create HintDb ends.
#[export] Hint Resolve ends_ok_or ends_or_panic : ends.

Ltac end_step :=
  match goal with
  | |- ends_with (_ ≫= _) _ =>
    eapply ends_with_bind; [solve [eauto with ends]|cbv beta; intros; try done]
  | |- ends_with (let '(_, _) := ?x in _) _ => destruct x
  | |- ends_with (if ?b then _ else _) _ => destruct b
  | |- ends_with (Ok _) _ => cbn
  | |- ends_with (Err _) _ => exact I
  | |- ends_with (corrupt _) _ => exact I
  | |- ends_with (failure _) _ => exact I
  | |- ends_with Panicked _ => exact I
  end.

Ltac ends := repeat end_step; try done.

(** What the reader relies on of the decoder: it comes to an end, and putting columns
    together into a frame reports its errors. *)
Class SeriesDecoderEnds `{Chrono} `{!SeriesDecoder Series DataFrame} : Prop := {
  deserialize_series_ends payload k_type c encoding :
    ends_with (deserialize_series payload k_type c encoding) (fun _ => True);
  new_empty_series_ends k_type : ends_with (new_empty_series k_type) (fun _ => True);
  categorical_names_ends s : ends_with (categorical_names s) (fun _ => True);
  string_names_ends s : ends_with (string_names s) (fun _ => True);
  hstack_ends l r : ends_with (hstack l r) (fun _ => True);
  new_frame_returns series : returns (new_frame series)
}.
Lemma new_frame_ends `{Chrono} `{!SeriesDecoder Series DataFrame} `{!SeriesDecoderEnds} series :
  ends_with (new_frame series) (fun _ => True).
Proof. pose proof (new_frame_returns series). by destruct (new_frame series). Qed.
#[export] Hint Resolve deserialize_series_ends new_empty_series_ends
  categorical_names_ends string_names_ends hstack_ends new_frame_ends : ends.

Section Ends.
  Context `{Allocator} `{Chrono} {Series DataFrame : Type}.
  Context `{!SeriesDecoder Series DataFrame} `{!SeriesDecoderEnds}.

Abbreviation kval := (K Series DataFrame).

Lemma checked_add_forward a b n : checked_add a b = Some n -> 0 <= a -> 0 <= b -> 0 <= n.
Proof. unfold checked_add. destruct (_ <=? _); [|done]. intros [= <-]. lia. Qed.

Lemma take_bytes_ends n vec pos c : 0 <= n -> 0 <= pos -> ends_with (take_bytes n vec pos c) forward.
Proof.
  intros Hn Hp. unfold take_bytes. eapply ends_with_bind; [apply ends_with_ok_or; intros a Ha; exact Ha|].
  intros stop Hs%checked_add_forward; [|done..]. ends.
Qed.

Lemma find_nul_nonneg l n : find_nul l = Some n -> 0 <= n.
Proof. intros (name & rest & _ & -> & _)%find_nul_Some. lia. Qed.

Lemma take_until_nul_ends vec pos c : 0 <= pos -> ends_with (take_until_nul vec pos c) forward.
Proof.
  intros Hp. unfold take_until_nul. eapply ends_with_bind; [apply ends_ok_or|]. intros tail _.
  eapply ends_with_bind; [apply ends_with_ok_or; intros a Ha; exact (find_nul_nonneg _ _ Ha)|].
  intros n Hn. cbv beta in Hn.
  eapply ends_with_bind; [apply ends_with_ok_or; intros a Ha; exact (checked_add_forward _ _ _ Ha Hp Hn)|].
  intros stop Hs. cbv beta in Hs. eapply ends_with_bind; [apply ends_or_panic|]. intros value _.
  eapply ends_with_bind.
  { apply ends_with_ok_or; intros a Ha. eapply checked_add_forward; [exact Ha|done|]. lia. }
  intros next Hnx. exact Hnx.
Qed.

Lemma reserve_ends {E} n (f : string -> E) : ends_with (reserve n f) (fun _ => True).
Proof. unfold reserve. by destruct (try_reserve n). Qed.

Lemma decode_utf8_ends bytes encoding c : ends_with (decode_utf8 bytes encoding c) (fun _ => True).
Proof.
  unfold decode_utf8. destruct (is_utf8 bytes); [done|]. destruct encoding; [done|].
  apply (ends_with_bind _ _ (fun _ => True)); [|intros; exact I].
  unfold transcode_utf8_lossy. eapply ends_with_bind; [apply reserve_ends|intros; exact I].
Qed.

Lemma try_own_str_ends text c : ends_with (try_own_str text c) (fun _ => True).
Proof. unfold try_own_str. eapply ends_with_bind; [apply reserve_ends|by intros]. Qed.
Lemma try_own_decoded_ends text c : ends_with (try_own_decoded text c) (fun _ => True).
Proof. unfold try_own_decoded. destruct (decoded_owned text); [done|]. apply try_own_str_ends. Qed.

Lemma try_vec_ends n c : ends_with (try_vec_with_capacity n c) (fun _ => True).
Proof. apply reserve_ends. Qed.
#[local] Hint Resolve try_own_str_ends reserve_ends decode_utf8_ends try_own_decoded_ends try_vec_ends : ends.

Lemma take_utf8_ends vec pos encoding c :
  0 <= pos -> ends_with (take_utf8_until_nul vec pos encoding c) forward.
Proof.
  intros Hp. unfold take_utf8_until_nul. eapply ends_with_bind; [by apply take_until_nul_ends|].
  intros [value p] Hv. ends.
Qed.

Lemma fixed_atom_ends n c (make : list Z -> res kval) vec pos :
  0 <= n -> 0 <= pos -> (forall b, ends_with (make b) (fun _ => True)) ->
  ends_with (fixed_atom n c make vec pos) forward.
Proof.
  intros Hn Hp Hm. unfold fixed_atom. eapply ends_with_bind; [by apply take_bytes_ends|].
  intros [b p] Hb. eapply ends_with_bind; [apply Hm|]. intros v _. exact Hb.
Qed.

Lemma finite_f64_ends v c : ends_with (finite_f64_to_i64 v c) (fun _ => True).
Proof. unfold finite_f64_to_i64. destruct v; ends. Qed.
#[local] Hint Resolve finite_f64_ends : ends.
Lemma q_datetime_ends f : ends_with (q_datetime_nanoseconds f) (fun _ => True).
Proof. unfold q_datetime_nanoseconds. ends; eauto with ends. Qed.
Lemma unix_timestamp_ends q : ends_with (unix_timestamp_nanoseconds q) (fun _ => True).
Proof. unfold unix_timestamp_nanoseconds. ends; eauto with ends. Qed.
#[local] Hint Resolve q_datetime_ends unix_timestamp_ends : ends.

Lemma deserialize_atom_ends vec pos t encoding :
  0 <= pos -> ends_with (@deserialize_atom _ _ Series DataFrame vec pos t encoding) forward.
Proof.
  intros Hp. unfold deserialize_atom.
  repeat match goal with
  | |- ends_with (if ?b then _ else _) _ => destruct b
  | |- ends_with (fixed_atom _ _ _ _ _) _ =>
    apply fixed_atom_ends; [lia|done|intros b;
      unfold boolean_atom, timestamp_atom, datetime_atom, month_date, days_date, unit_time; cbv zeta; ends]
  | |- ends_with (Err _) _ => exact I
  end.
  eapply ends_with_bind; [by apply take_utf8_ends|]. intros [text p] Hf. ends.
Qed.

(** An index that is found is not negative. *)
Ltac next_index H :=
  eapply ends_with_bind;
  [let a := fresh in let Ha := fresh in apply ends_with_ok_or; intros a Ha;
   first [exact (find_nul_nonneg _ _ Ha) | eapply checked_add_forward; [exact Ha|lia|lia]]
  |let n := fresh in intros n H; cbv beta in H].

Lemma try_usize_nonneg z n : try_usize z = Some n -> 0 <= n.
Proof. unfold try_usize. destruct (_ && _) eqn:E; [|done]. intros [= <-]. bool_lia. Qed.

Lemma lambda_ends source context : ends_with (QLambda_with_context source context) (fun _ => True).
Proof. unfold QLambda_with_context. ends. Qed.

Lemma map_err_ends {A} (m : res A) (f : XqdbError -> XqdbError) (P : A -> Prop) : ends_with m P -> ends_with (map_err f m) P.
Proof. by destruct m. Qed.

Lemma deserialize_lambda_ends vec start encoding :
  0 <= start -> ends_with (@deserialize_lambda _ _ Series DataFrame vec start encoding) forward.
Proof.
  intros Hp. unfold deserialize_lambda. eapply ends_with_bind; [apply ends_ok_or|]. intros tail _.
  next_index Hn. next_index He. do 2 end_step. next_index Hs. next_index Hv.
  end_step. end_step. destruct (negb _); [done|]. end_step. destruct (negb _); [done|]. end_step.
  eapply ends_with_bind; [apply ends_with_ok_or; intros l Hl; exact (try_usize_nonneg _ _ Hl)|].
  intros l Hl. cbv beta in Hl. next_index Hse. do 2 end_step.
  eapply ends_with_bind; [apply map_err_ends, lambda_ends|]. intros lam _. exact Hse.
Qed.

Lemma array_end_ends vec pos t :
  slice_ok vec -> 0 <= pos -> ends_with (calculate_array_end_index vec pos t) (fun stop => 0 <= stop).
Proof.
  intros Hok Hp. destruct (array_end_returns vec pos t Hok Hp) as [Hret Hstop].
  destruct (calculate_array_end_index vec pos t); try done. cbn. destruct (Hstop _ eq_refl). lia.
Qed.

Section Lists.
  Context (vec : list Z) (Hok : slice_ok vec) (read : bool -> Z -> res (kval * Z)).
  Context (Hread : forall c p, 0 <= p -> ends_with (read c p) forward).

Lemma read_values_ends n pos : 0 <= pos -> ends_with (read_values (read false) n pos) forward.
Proof.
  revert pos. induction n as [|n IH]; intros pos Hp; cbn [read_values]; [done|].
  eapply ends_with_bind; [by apply Hread|]. intros [v p] Hf.
  eapply ends_with_bind; [by apply IH|]. intros [vs p'] Hf'. exact Hf'.
Qed.

Lemma mixed_list_ends pos : 0 <= pos -> ends_with (@mixed_list _ _ _ _ (read false) vec pos) forward.
Proof.
  intros Hp. unfold mixed_list. eapply ends_with_bind; [by apply take_bytes_ends|]. intros [b p] Hf.
  eapply ends_with_bind; [by apply take_bytes_ends|]. intros [b' p'] Hf'. ends.
  eapply ends_with_bind; [by apply read_values_ends|]. intros [vs p''] Hf''. exact Hf''.
Qed.

Lemma deserialize_list_ends pos t c encoding :
  0 <= pos ->
  ends_with (@deserialize_list _ _ _ _ _ (read false) vec pos t c encoding) forward.
Proof.
  intros Hp. unfold deserialize_list. pose proof (array_end_ends vec pos t Hok Hp) as He.
  destruct (calculate_array_end_index vec pos t) as [stop|e| |]; try done.
  - cbn in He. ends.
  - destruct (negb c && (t =? 0)); [by apply mixed_list_ends|done].
Qed.

Lemma take_list_length_ends pos c : 0 <= pos -> ends_with (take_list_length vec pos c) forward.
Proof.
  intros Hp. unfold take_list_length. next_index Hs. end_step. end_step.
  eapply ends_with_bind; [apply ends_with_ok_or; intros l Hl; exact (try_usize_nonneg _ _ Hl)|].
  intros l Hl. exact Hs.
Qed.

Lemma into_series_ends (v : kval) : ends_with (into_series v) (fun _ => True).
Proof. by destruct v. Qed.
Lemma into_frame_ends (v : kval) : ends_with (into_frame v) (fun _ => True).
Proof. by destruct v. Qed.
#[local] Hint Resolve into_series_ends into_frame_ends : ends.

Lemma dictionary_keys_ends pos t encoding :
  0 <= pos -> ends_with (@dictionary_keys _ Series DataFrame _ vec pos t encoding) forward.
Proof.
  intros Hp. unfold dictionary_keys. destruct (t =? 11).
  - eapply ends_with_bind; [by apply array_end_ends|]. intros stop Hs. ends.
  - eapply ends_with_bind; [by apply take_list_length_ends|]. intros [n p] Hf. ends.
Qed.

Lemma value_count_ends (v : kval) : ends_with (value_count v) (fun _ => True).
Proof. by destruct v. Qed.
Lemma validate_symbol_ends text : ends_with (validate_q_symbol text) (fun _ => True).
Proof. unfold validate_q_symbol. ends. Qed.
#[local] Hint Resolve validate_symbol_ends : ends.
Lemma any_value_ends (a : AnyValue Series) :
  ends_with (@try_from_any_value _ _ Series DataFrame a) (fun _ => True).
Proof.
  destruct a; cbn [try_from_any_value]; unfold guid_of; ends; eauto with ends.
Qed.
Lemma series_values_ends (s : Series) :
  ends_with (@series_values _ _ _ DataFrame _ s) (fun _ => True).
Proof.
  apply try_fold_ends. intros acc a. eapply ends_with_bind; [apply any_value_ends|]. done.
Qed.
#[local] Hint Resolve series_values_ends : ends.
Lemma dictionary_values_ends (v : kval) : ends_with (dictionary_values v) (fun _ => True).
Proof. unfold dictionary_values. destruct v; ends; eauto with ends. Qed.
Lemma insert_entry_ends (dict : list (list Z * kval)) entry :
  ends_with (insert_entry dict entry) (fun _ => True).
Proof. unfold insert_entry. ends. Qed.
Lemma insert_entries_end (entries : list (list Z * kval)) dict :
  ends_with (try_fold insert_entry dict entries) (fun _ => True).
Proof. apply try_fold_ends. apply insert_entry_ends. Qed.
#[local] Hint Resolve value_count_ends dictionary_values_ends insert_entries_end : ends.

Lemma deserialize_dictionary_ends pos c encoding :
  0 <= pos ->
  ends_with (deserialize_dictionary read vec pos c encoding) forward.
Proof.
  intros Hp. unfold deserialize_dictionary. end_step. destruct (_ =? 98).
  - eapply ends_with_bind; [by apply Hread|]. intros [keys p] Hf. end_step.
    eapply ends_with_bind; [by apply Hread|]. intros [values p'] Hf'. ends.
  - destruct (_ || _); [|done].
    eapply ends_with_bind; [apply dictionary_keys_ends; lia|]. intros [keys p] Hf. end_step.
    destruct (19 <? _); [done|]. eapply ends_with_bind; [by apply Hread|]. intros [values p'] Hf'. ends.
Qed.

(** ** Tables *)

Lemma table_columns_ends count pos :
  0 <= pos -> ends_with (table_columns vec count pos) forward.
Proof.
  revert pos. induction count as [|count IH]; intros pos Hp; cbn [table_columns]; [done|].
  eapply (ends_with_bind _ _ forward).
  - unfold table_column. end_step. eapply ends_with_bind; [apply array_end_ends; [done|lia]|].
    intros stop Hs. ends.
  - intros [column p] Hf. eapply ends_with_bind; [by apply IH|]. intros [columns p'] Hf'. exact Hf'.
Qed.

Lemma collect_ends {A} (results : list (res A)) :
  Forall (fun r => ends_with r (fun _ => True)) results ->
  ends_with (collect_columns results) (fun _ => True).
Proof.
  intros Hr. unfold collect_columns. destruct (existsb _ _); [done|].
  induction Hr as [|r results Hr _ IH]; cbn [collect]; [done|].
  eapply ends_with_bind; [exact Hr|]. intros a _. eapply ends_with_bind; [exact IH|]. done.
Qed.

Lemma decode_column_ends encoding column :
  ends_with (@decode_column _ Series DataFrame _ encoding column) (fun _ => True).
Proof. unfold decode_column. ends. apply into_series_ends. Qed.

Lemma table_names_ends start stop encoding :
  ends_with (@table_names _ Series DataFrame _ vec start stop encoding) (fun _ => True).
Proof.
  unfold table_names. end_step. eapply ends_with_bind; [apply deserialize_series_ends|].
  intros v _. destruct v as [| | | | | | | | | | | | | | | | |s| | | | | |]; try done.
  pose proof (string_names_ends s). by destruct (string_names s).
Qed.

Lemma assemble_frame_ends (columns : list Series) names :
  ends_with (@assemble_frame _ Series DataFrame _ columns names) (fun _ => True).
Proof. unfold assemble_frame. ends. Qed.

Lemma deserialize_table_ends pos encoding :
  0 <= pos -> ends_with (@deserialize_table _ _ Series DataFrame _ vec pos encoding) forward.
Proof.
  intros Hp. unfold deserialize_table. eapply ends_with_bind; [apply array_end_ends; [done|lia]|].
  intros stop Hs. cbv beta in Hs. eapply ends_with_bind; [apply table_names_ends|]. intros names _. do 2 end_step.
  eapply ends_with_bind; [apply table_columns_ends; unfold COLUMN_LIST_HEADER; lia|]. intros [columns p] Hf.
  end_step. eapply ends_with_bind.
  { apply collect_ends. apply Forall_map, Forall_forall. intros c' _. apply decode_column_ends. }
  intros decoded _. do 2 end_step. eapply ends_with_bind; [apply assemble_frame_ends|]. done.
Qed.
End Lists.

(** The value reader, with fuel for the levels that are left. *)
Lemma deserialize_unchecked_ends fuel vec depth encoding c pos :
  slice_ok vec -> 0 <= pos -> depth <= MAX_VALUE_DEPTH + 1 -> MAX_VALUE_DEPTH - depth + 1 < Z.of_nat fuel ->
  ends_with (@deserialize_unchecked _ _ Series DataFrame _ fuel vec depth encoding c pos) forward.
Proof.
  intros Hok. revert depth c pos. induction fuel as [|fuel IH]; intros depth c pos Hp Hd Hf; [lia|].
  cbn [deserialize_unchecked]. destruct (Z.ltb_spec MAX_VALUE_DEPTH depth); [done|]. end_step.
  assert (forall c p, 0 <= p ->
    ends_with (@deserialize_unchecked _ _ Series DataFrame _ fuel vec (depth + 1) encoding c p) forward)
    as Hread by (intros; apply IH; lia).
  repeat match goal with
  | |- ends_with (deserialize_atom _ _ _ _) _ => apply deserialize_atom_ends; lia
  | |- ends_with (deserialize_list _ _ _ _ _ _) _ => apply deserialize_list_ends; done || lia
  | |- ends_with (deserialize_dictionary _ _ _ _ _) _ => apply deserialize_dictionary_ends; done || lia
  | |- ends_with (deserialize_table _ _ _) _ => apply deserialize_table_ends; done || lia
  | |- ends_with (deserialize_lambda _ _ _) _ => apply deserialize_lambda_ends; lia
  | |- ends_with (take_utf8_until_nul _ _ _ _ ≫= _) _ =>
    eapply ends_with_bind; [apply take_utf8_ends; lia|intros [? ?] ?]
  | |- _ => end_step
  end; unfold forward; cbn; lia.
Qed.
End Ends.

Lemma deserialize_at_returns `{Allocator} `{Chrono} `{!SeriesDecoder Series DataFrame} `{!SeriesDecoderEnds}
    (vec : list Z) (pos : Z) (encoding : SymbolEncoding) :
  slice_ok vec -> 0 <= pos -> returns (@deserialize_at _ _ Series DataFrame _ vec pos encoding).
Proof.
  intros Hok Hp. unfold deserialize_at.
  pose proof (deserialize_unchecked_ends value_fuel vec 0 encoding false pos Hok Hp ltac:(done) ltac:(done)) as He.
  destruct (deserialize_unchecked value_fuel vec 0 encoding false pos) as [[v p]|e| |]; try done.
  by destruct (p =? len vec).
Qed.

(** ** Properties *)

(** C37: every body is answered: whatever the bytes and whatever the allocator refuses,
    reading a value returns a value or an error.  Neither the recursion over nested values nor a loop over announced
    counts can keep the reader going, and a panic of the parser is an error. *)
Theorem deserialize_total `{Allocator} `{Chrono} `{!SeriesDecoder Series DataFrame} `{!SeriesDecoderEnds}
    (vec : list Z) (encoding : SymbolEncoding) :
  slice_ok vec -> returns (@deserialize _ _ Series DataFrame _ vec encoding).
Proof. intros Hok. by apply deserialize_at_returns. Qed.

#[local] Existing Instance unlimited.

#[export] Instance sample_decoder_ends : SeriesDecoderEnds.
Proof. split; cbn; intros; try done. by destruct (_ && _). Qed.

Lemma deserialize_total_witness :
  slice_ok [99; 11; 0; 255; 255; 255; 255; 0]
  /\ returns (@deserialize unlimited _ SampleSeries (list SampleSeries) _ [99; 11; 0; 255; 255; 255; 255; 0] Strict).
Proof.
  assert (slice_ok [99; 11; 0; 255; 255; 255; 255; 0]) as Hok.
  { split; [by repeat constructor|by vm_compute]. }
  split; [exact Hok|]. exact (deserialize_total _ Strict Hok).
Defined.


(** A symbol-keyed dictionary of a symbol, a list and a time. *)
Definition sample_time : NaiveTime := exist _ (3600, 5000000) I.

Definition sample_value : K SampleSeries (list SampleSeries) :=
  KDict [([97], KSymbol [120]);
         ([98], KMixedList [KString [104; 105]; KBoolean true; KI64 (-5); KNull]);
         ([99], KTime sample_time)].

Lemma short_text text : Forall is_byte text -> len text <= 10 -> is_utf8 text = true -> text_ok text.
Proof. intros Hb Hl Hu. split; [split; [done|unfold isize_max; lia]|done]. Qed.

Ltac ascii := apply short_text; [repeat constructor; done|cbn; lia|reflexivity].

Lemma sample_typed : typed sample_value.
Proof.
  cbn [typed sample_value foldr map fst snd]. split.
  - apply (bool_decide_unpack _). by vm_compute.
  - split_and!; try exact I; try ascii; unfold i64_min, i64_max; lia.
Qed.

Definition sample_bytes_out : list Z :=
  Eval vm_compute in match serialize sample_value with Ok bytes => bytes | _ => [] end.

Lemma sample_serialized : serialize sample_value = Ok sample_bytes_out.
Proof. by vm_compute. Qed.


Lemma serialized_reads_back `{Chrono} `{!ChronoLaws} `{!SeriesEncoder Series DataFrame}
    `{!SeriesEncoderLaws} `{!SeriesDecoder Series DataFrame} `{!SeriesDecoderLaws}
    (k : K Series DataFrame) (bytes : list Z) (encoding : SymbolEncoding) :
  typed k -> plain k -> wire_depth k <= MAX_VALUE_DEPTH ->
  serialize k = Ok bytes -> slice_ok bytes ->
  @deserialize unlimited _ Series DataFrame _ bytes encoding = Ok (read_back k).
Proof.
  intros Ht Hp Hd (n & Hn & Hs)%bind_Ok Hok.
  destruct (value_written k 0 n Ht Hn) as (bytes' & Hw & _).
  pose proof (written_bytes k bytes' bytes Hw Hs) as ->.
  destruct (value_comes_back k 0 n bytes Ht Hp Hn Hw) as [_ Hread].
  specialize (Hread value_fuel [] [] 0 encoding). rewrite app_nil_r in Hread. cbn [app] in Hread.
  unfold deserialize, deserialize_at. change (len []) with 0 in Hread. unfold MAX_VALUE_DEPTH in Hd.
  rewrite Hread; [|done|unfold MAX_VALUE_DEPTH; lia|change (Z.of_nat value_fuel) with 66; lia].
  by rewrite Z.add_0_l, Z.eqb_refl.
Qed.

(** C3: serialization is undone by deserialization, for the values whose bytes are
    theirs only: [typed] and [plain] (no series, tables or opaque values; no times and
    timestamps in leap seconds; no general list that is empty or holds strings and char
    vectors only, which q writes as columns; dictionary keys the categories admit), and
    nested in at most 64 levels, a dictionary counting for two.  Read from its own
    bytes, such a value is itself, with every string in it turned into the char vector
    it is on the wire. *)
Theorem serialize_roundtrip `{Chrono} `{!ChronoLaws} `{!SeriesEncoder Series DataFrame}
    `{!SeriesEncoderLaws} `{!SeriesDecoder Series DataFrame} `{!SeriesDecoderLaws}
    (k : K Series DataFrame) (bytes : list Z) (encoding : SymbolEncoding) :
  typed k -> plain k -> wire_depth k <= MAX_VALUE_DEPTH ->
  serialize k = Ok bytes -> slice_ok bytes ->
  @deserialize unlimited _ Series DataFrame _ bytes encoding = Ok (read_back k).
Proof. apply serialized_reads_back. Qed.

Lemma bytes_ok_dec (l : list Z) : forallb (fun b => (0 <=? b) && (b <? 256)) l = true -> bytes_ok l.
Proof.
  intros Hl. apply Forall_forall. intros b Hb%list_elem_of_In. rewrite forallb_forall in Hl.
  specialize (Hl b Hb). unfold is_byte. lia.
Qed.

(** The value that makes a list [mixable], found by position. *)
Ltac has_other := repeat first [by left|right].

Lemma sample_plain : plain sample_value.
Proof. cbn. split_and!; try exact I; try lia; [right; has_other|by repeat constructor|has_other]. Qed.

Lemma serialize_roundtrip_witness :
  typed sample_value /\ plain sample_value /\ wire_depth sample_value = 3
  /\ serialize sample_value = Ok sample_bytes_out
  /\ @deserialize unlimited _ _ _ _ sample_bytes_out Strict = Ok (read_back sample_value).
Proof.
  pose proof sample_plain as Hp.
  assert (slice_ok sample_bytes_out) as Hok.
  { split; [by apply bytes_ok_dec|by vm_compute]. }
  split_and!; [exact sample_typed|exact Hp|done|exact sample_serialized|].
  refine (serialize_roundtrip sample_value sample_bytes_out Strict sample_typed Hp _ sample_serialized Hok).
  by vm_compute.
Defined.

(** ** Where writing and reading disagree *)

(** A time of day in chrono's leap-second notation at the end of the day passes
    sizing and is written, as a time of 24 hours or more, which the reader then
    refuses. *)
Theorem leap_second_refused `{Chrono} `{!ChronoLaws} `{!SeriesEncoder Series DataFrame}
    `{!SeriesDecoder Series DataFrame} (t : NaiveTime) (encoding : SymbolEncoding) :
  num_seconds_from_midnight t = 86399 -> 1000000000 <= nanosecond t ->
  nanosecond t mod 1000000 = 0 ->
  exists bytes, serialize (KTime t) = Ok bytes
    /\ @deserialize unlimited _ Series DataFrame _ bytes encoding
       = corrupt "q time atom exceeds one day".
Proof.
  intros Hs Hn Hm. pose proof (nanosecond_range t) as Hr.
  set (ms := 86399 * 1000 + nanosecond t / 1000000).
  assert (86400000 <= ms < 86401000) as Hms.
  { unfold ms. pose proof (Z.div_mod (nanosecond t) 1000000 ltac:(lia)). lia. }
  exists (237 :: i32_to_le ms). split.
  - unfold serialize, j6_len. cbn [j6_len_with_depth]. change (MAX_VALUE_DEPTH <? 0) with false. cbv iota.
    rewrite Hm. cbn. do 2 f_equal. unfold time_milliseconds. rewrite Hs. fold ms. f_equal.
    apply (signed_unsigned 32); lia.
  - unfold deserialize, deserialize_at. change value_fuel with (S 65).
    pose proof (read_tag (Series := Series) (DataFrame := DataFrame) 65 [] 237 (i32_to_le ms) 0 encoding ltac:(done)) as E.
    cbn [app] in E. change (len []) with 0 in E. rewrite E. clear E. cbv zeta.
    change (between 237 237 255) with true. cbv iota. unfold deserialize_atom. cbn [Z.eqb Pos.eqb].
    change (between 237 237 239) with true. cbv iota.
    unfold fixed_atom. replace (237 :: i32_to_le ms) with ([237] ++ i32_to_le ms ++ []) by (by rewrite app_nil_r).
    rewrite take_bytes_at; [|by rewrite len_i32_to_le|rewrite !length_app, Nat2Z.inj_add, len_i32_to_le; by vm_compute].
    cbn [mbind outcome_bind]. rewrite i32_le_roundtrip by bool_lia. unfold unit_time.
    replace (ms <? 0) with false by lia. unfold i64_checked, in_i64. replace (_ && _) with true by bool_lia.
    cbn [mbind option_bind]. unfold NANOS_PER_DAY. by replace (_ <? 86400000000000) with false by lia.
Qed.

Definition sample_leap : NaiveTime := exist _ (86399, 1500000000) I.

Lemma leap_second_refused_witness :
  num_seconds_from_midnight sample_leap = 86399 /\ nanosecond sample_leap = 1500000000
  /\ exists bytes, @serialize _ SampleSeries (list SampleSeries) _ (KTime sample_leap) = Ok bytes
    /\ @deserialize unlimited _ SampleSeries (list SampleSeries) _ bytes Strict
       = corrupt "q time atom exceeds one day".
Proof.
  split_and!; [reflexivity|reflexivity|].
  refine (leap_second_refused (Series := SampleSeries) (DataFrame := list SampleSeries) sample_leap Strict _ _ _);
    [reflexivity|cbn; lia|reflexivity].
Defined.

(** Dictionaries inside dictionaries: one level each for the writer, two for the
    reader. *)
Fixpoint nested_dictionary (n : nat) : K SampleSeries (list SampleSeries) :=
  match n with O => KNull | S n => KDict [([97], nested_dictionary n)] end.

(** The error a value is refused with when its own bytes are read, if it is. *)
Definition refusal (k : K SampleSeries (list SampleSeries)) : option XqdbError :=
  match serialize k with
  | Ok bytes =>
    match @deserialize unlimited _ SampleSeries (list SampleSeries) _ bytes Strict with
    | Err e => Some e
    | _ => None
    end
  | _ => None
  end.

(** 33 dictionaries inside each other are written, well below the writer's limit
    of 64 levels, and refused by the reader, which counts two levels for each; 32 are
    read back without an error. *)
Theorem nested_dictionary_refused :
  is_ok (serialize (nested_dictionary 33)) = true
  /\ refusal (nested_dictionary 33)
     = Some (DeserializationErr ("q value nesting exceeds " +:+ show MAX_VALUE_DEPTH +:+ " levels"))
  /\ refusal (nested_dictionary 32) = None.
Proof. split_and!; by vm_compute. Qed.
