(* ===== verification/AnyValueSpec.v ===== *)
(** * AnyValueSpec: what converted values say, and that type codes are those of the wire *)

From stdpp Require Import prelude strings.
From Stdlib Require Import ZArith Lia ZifyBool.
From S2P Require Import Prelude Errors Types Utf8 QValue QGrammar QValueFacts QValueSpec Text Value AnyValue WireText Serialize SerializeFacts DeserializeFacts Sample SerdeSpec.

(** The values Rust's types let an [AnyValue] hold. *)
Definition any_typed `{SeriesEncoder Series DataFrame} (a : AnyValue Series) : Prop :=
  match a with
  | AnyString s | AnyStringOwned s => text_ok s
  | AnyUInt8 v => is_byte v
  | AnyInt16 v => - 2 ^ 15 <= v < 2 ^ 15
  | AnyInt32 v => i32_min <= v <= i32_max
  | AnyInt64 v => i64_min <= v <= i64_max
  | AnyFloat32 bits => 0 <= bits < 2 ^ 32
  | AnyFloat64 bits => 0 <= bits < 2 ^ 64
  | AnyBinary value | AnyBinaryOwned value => slice_ok value
  | AnyDate v => i32_min <= v <= i32_max
  | AnyDatetime v _ | AnyDuration v _ | AnyTime v => i64_min <= v <= i64_max
  | AnyCategorical _ (Some symbol) => text_ok symbol
  | AnyList s => series_ok s
  | _ => True
  end.

(** Nanoseconds in one unit of time. *)
Definition nanoseconds_in (unit : TimeUnit) : Z :=
  match unit with Nanoseconds => 1 | Microseconds => 10 ^ 3 | Milliseconds => 10 ^ 6 end.

Section Convert.
  Context `{Allocator} `{Chrono} `{SeriesEncoder Series DataFrame}.

(** What a Polars value says, in the terms of the value made of it: a date is so many days
    after 1970-01-01 (day 719163 of the common era), a timestamp so many units after its
    first second, a duration so many units, a time so many nanoseconds after midnight; a
    categorical is the symbol its index stands for, which q can only end with a NUL. *)
Definition any_means (a : AnyValue Series) (k : K Series DataFrame) : Prop :=
  match a, k with
  | AnyNull, KNull => True
  | AnyBoolean b, KBoolean b' => b' = b
  | AnyString s, KString text | AnyStringOwned s, KString text => text = s
  | AnyUInt8 v, KU8 w | AnyInt16 v, KI16 w | AnyInt32 v, KI32 w | AnyInt64 v, KI64 w => w = v
  | AnyFloat32 bits, KF32 w | AnyFloat64 bits, KF64 w => w = bits
  | AnyBinary value, KGuid g | AnyBinaryOwned value, KGuid g => g = value /\ length g = 16%nat
  | AnyDate v, KDate d => num_days_from_ce d = 719163 + v
  | AnyDatetime v unit, KDateTime t =>
    timestamp_nanos_opt t = Some (v * nanoseconds_in unit) /\ timestamp_subsec_nanos t < 10 ^ 9
  | AnyDuration v unit, KDuration d => num_nanoseconds d = Some (v * nanoseconds_in unit)
  | AnyTime v, KTime t => num_seconds_from_midnight t * 10 ^ 9 + nanosecond t = v /\ nanosecond t < 10 ^ 9
  | AnyCategorical _ (Some symbol), KSymbol text => text = symbol /\ nul_free symbol
  | AnyList s, KSeries s' => s' = s
  | _, _ => False
  end.

(** The memory a conversion asks for: the copy of a text. *)
Definition any_granted (a : AnyValue Series) : Prop :=
  match a with AnyString s | AnyStringOwned s => try_reserve (len s) = true | _ => True end.

Lemma unit_nanoseconds unit : time_unit_multiplier unit = nanoseconds_in unit.
Proof. by destruct unit. Qed.

Context `{!ChronoLaws}.

Abbreviation kval := (K Series DataFrame).
Abbreviation converted a k := (@try_from_any_value _ _ Series DataFrame a = Ok k).

Lemma text_converted s a (k : kval) :
  a = AnyString s \/ a = AnyStringOwned s ->
  converted a k <-> any_granted a /\ any_means a k.
Proof.
  intros Ha. destruct Ha as [->| ->]; cbn [try_from_any_value any_granted any_means]; unfold try_own_str, reserve;
    (destruct (try_reserve (len s)); cbn [mbind outcome_bind]; [|by split; [|intros [? _]]]);
    (split; [by intros [= <-]|]; intros [_ Hk]; destruct k; naive_solver).
Qed.

Lemma guid_converted value (k : kval) :
  guid_of value = Ok k <-> match k with KGuid g => g = value /\ length g = 16%nat | _ => False end.
Proof.
  unfold guid_of. destruct (Z.eqb_spec (len value) 16) as [E|E].
  - split; [intros [= <-]; split; [done|lia]|]. intros Hk. destruct k; try done. by destruct Hk as [-> _].
  - split; [done|]. intros Hk. destruct k; try done. destruct Hk as [-> Hk]. lia.
Qed.

Lemma date_converted v (k : kval) : converted (AnyDate v) k <-> any_means (AnyDate v) k.
Proof.
  cbn [try_from_any_value any_means]. unfold UNIX_DAY_OFFSET. split.
  - intros (d & Hd%ok_or_Ok & [= <-])%bind_Ok. unfold i32_checked in Hd. destruct (in_i32 _); [|done].
    apply days_exact in Hd. lia.
  - intros Hk. destruct k; try done.
    pose proof (days_range d) as Hr. unfold i32_checked, in_i32.
    replace (_ && _) with true by bool_lia. cbn [mbind option_bind].
    replace (v + 719163) with (num_days_from_ce d) by lia. by rewrite days_roundtrip.
Qed.

Lemma datetime_converted v unit (k : kval) :
  converted (AnyDatetime v unit) k <-> any_means (AnyDatetime v unit) k.
Proof.
  cbn [try_from_any_value any_means]. rewrite unit_nanoseconds. unfold i64_checked. split.
  - destruct (in_i64 _) eqn:Hi; [|done]. intros [= <-]. by destruct (nanos_exact _ Hi).
  - intros Hk. destruct k; try done. destruct Hk as [Hn Hs]. rewrite (nanos_range _ _ Hn).
    cbn [ok_or mbind outcome_bind]. by rewrite (nanos_roundtrip _ _ Hs Hn).
Qed.

Lemma duration_converted v unit (k : kval) :
  converted (AnyDuration v unit) k <-> any_means (AnyDuration v unit) k.
Proof.
  cbn [try_from_any_value any_means]. rewrite unit_nanoseconds. unfold i64_checked. split.
  - destruct (in_i64 _) eqn:Hi; [|done]. intros [= <-]. by apply duration_exact.
  - intros Hk. destruct k; try done. destruct (duration_roundtrip _ _ Hk) as [Hi Hd].
    rewrite Hi. cbn [ok_or mbind outcome_bind]. by rewrite Hd.
Qed.

Lemma time_converted v (k : kval) : converted (AnyTime v) k <-> any_means (AnyTime v) k.
Proof.
  cbn [try_from_any_value any_means]. unfold NANOS_PER_DAY. change (10 ^ 9) with 1000000000. split.
  - destruct (_ && _) eqn:Hr; [|done]. cbn [ok_or mbind outcome_bind].
    intros (t & Ht%ok_or_Ok & [= <-])%bind_Ok. apply time_exact in Ht as [-> ->].
    pose proof (Z.div_mod v 1000000000 ltac:(lia)). pose proof (Z.mod_pos_bound v 1000000000 ltac:(lia)). lia.
  - intros Hk. destruct k; try done. destruct Hk as [<- Hn].
    pose proof (seconds_range t). pose proof (nanosecond_range t).
    replace (_ && _) with true by bool_lia. cbn [ok_or mbind outcome_bind].
    rewrite Z.div_add_l, (Z.div_small (nanosecond t)), Z.add_0_r by lia.
    rewrite Z.add_comm, Z.mod_add, (Z.mod_small (nanosecond t)) by lia. by rewrite time_roundtrip.
Qed.

Lemma categorical_converted i symbol (k : kval) :
  converted (AnyCategorical i symbol) k <-> any_means (AnyCategorical i symbol) k.
Proof.
  cbn [try_from_any_value any_means]. destruct symbol as [symbol|]; [|done]. cbn [ok_or mbind outcome_bind].
  unfold validate_q_symbol. destruct (contains_nul symbol) eqn:E.
  - split; [done|]. intros Hk. destruct k; try done. destruct Hk as [_ Hk]. unfold contains_nul in E.
    apply existsb_exists in E as (b & Hb%list_elem_of_In & E). unfold nul_free in Hk. rewrite Forall_forall in Hk.
    specialize (Hk b Hb). lia.
  - cbn [mbind outcome_bind]. split; [intros [= <-]; split; [done|by apply contains_nul_free]|].
    intros Hk. destruct k; try done. by destruct Hk as [-> _].
Qed.

Lemma any_converted a (k : kval) : converted a k <-> any_granted a /\ any_means a k.
Proof.
  assert (forall P : Prop, True /\ P <-> P) as Htrue by naive_solver.
  destruct a; try (rewrite Htrue; first [apply guid_converted|apply date_converted|apply datetime_converted
    |apply duration_converted|apply time_converted|apply categorical_converted]);
    try (by apply (text_converted text); auto);
    cbn [try_from_any_value any_means any_granted]; rewrite Htrue; (split; [by intros [= <-]|]);
    intros Hk; destruct k; naive_solver.
Qed.

Lemma any_returns a : returns (@try_from_any_value _ _ Series DataFrame a).
Proof.
  destruct a; cbn [try_from_any_value]; try done; unfold guid_of, try_own_str, reserve, validate_q_symbol;
    repeat match goal with
    | |- _ => progress cbn [ok_or mbind outcome_bind]
    | |- context [if ?b then _ else _] => destruct b
    | |- context [ok_or ?o _] => destruct o
    end; done.
Qed.

Lemma means_typed a (k : kval) : any_typed (DataFrame := DataFrame) a -> any_means a k -> typed k.
Proof.
  intros Ha Hk. destruct a; try (destruct symbol); destruct k; try done; cbn [any_typed any_means typed] in *;
    try (destruct Hk as [-> Hk]); subst; try done; split; try done; apply Ha.
Qed.

(** C40: converting a Polars value gives what the value says or an error.  The
    conversion returns, and it gives a value of the core exactly when that value means
    the same ([any_means]: the same number, text, day, instant, span, time of day or
    symbol, a GUID of 16 bytes, a symbol without NULs) and there is memory for the copy
    of a text; so what has no meaning in q, and nothing else, is an error.  What is
    converted keeps the invariants of [K], and [from_any_value] is null where there is
    an error. *)
Theorem any_value_exact (a : AnyValue Series) (k : K Series DataFrame) :
  (try_from_any_value a = Ok k <-> any_granted a /\ any_means a k)
  /\ returns (@try_from_any_value _ _ Series DataFrame a)
  /\ (any_typed (DataFrame := DataFrame) a -> typed (@from_any_value _ _ Series DataFrame a))
  /\ (from_any_value a = k <->
      any_granted a /\ any_means a k
      \/ k = KNull /\ forall k' : K Series DataFrame, ~ (any_granted a /\ any_means a k')).
Proof.
  split_and!; [apply any_converted|apply any_returns|..]; unfold from_any_value.
  - intros Ha. destruct (try_from_any_value a) as [k'| | |] eqn:E; try exact I.
    apply any_converted in E as [_ E]. by eapply means_typed.
  - setoid_rewrite <- any_converted. destruct (try_from_any_value a) as [k'| | |] eqn:E.
    + split; [intros ->; by left|]. intros [[= <-]|[-> Hno]]; [done|by destruct (Hno k')].
    + split; [intros <-; right; split; [done|intros ? [=]]|by intros [[=]|[-> _]]].
    + split; [intros <-; right; split; [done|intros ? [=]]|by intros [[=]|[-> _]]].
    + split; [intros <-; right; split; [done|intros ? [=]]|by intros [[=]|[-> _]]].
Qed.
End Convert.

(** A timestamp in milliseconds, a time in the evening, and a symbol with a NUL. *)
Lemma any_value_exact_witness :
  @try_from_any_value unlimited _ SampleSeries (list SampleSeries) (AnyDatetime (-1500) Milliseconds)
    = Ok (KDateTime (-1500000000))
  /\ typed (@from_any_value unlimited _ SampleSeries (list SampleSeries) (AnyCategorical 3 (Some [97; 98])))
  /\ @from_any_value unlimited _ SampleSeries (list SampleSeries) (AnyCategorical 3 (Some [97; 0])) = KNull.
Proof.
  split_and!.
  - apply any_value_exact. split; [exact I|]. by vm_compute.
  - apply (any_value_exact (AnyCategorical 3 (Some [97; 98])) KNull). cbn. ascii.
  - apply any_value_exact. right. split; [reflexivity|]. intros k' [_ Hk]. destruct k'; try exact Hk.
    destruct Hk as [_ Hk]. unfold nul_free in Hk. inversion Hk as [|? ? _ Hn]. by inversion Hn.
Defined.

(** ** Type codes *)

Lemma encode_type_code v : wf v = true ->
  exists rest, encode v = parsed_type_code (parsed_of v) mod 256 :: rest.
Proof.
  intros Hwf. destruct v; cbn [encode parsed_of parsed_type_code wf] in *; unfold fixed_kind in *;
    eexists; try (f_equal; rewrite ?Z.sub_0_l; first [reflexivity | symmetry; apply Z.mod_small; split_andb; bool_lia]).
Qed.

Lemma qvalue_type_code v :
  slice_ok (as_bytes v) -> @from_owned_bytes unlimited (as_bytes v) = Ok v ->
  exists rest, as_bytes v = q_type_code v mod 256 :: rest.
Proof.
  intros Hok (t & [Hwf _] & Ht & Hq)%from_owned_bytes_iff; [|done].
  destruct (encode_type_code t Hwf) as [rest Hr]. exists rest.
  rewrite <- Ht, Hr. by rewrite Hq.
Qed.

Lemma try_fold_prefix {A} (f : list Z -> A -> res (list Z)) l vec out :
  Forall (fun a => forall v w, f v a = Ok w -> exists b, w = v ++ b) l ->
  try_fold f vec l = Ok out -> exists b, out = vec ++ b.
Proof.
  intros Hf. revert vec. induction Hf as [|a l Ha _ IH]; intros vec; cbn [try_fold].
  - intros [= <-]. exists []. by rewrite app_nil_r.
  - intros (v & Hv & Ho)%bind_Ok. apply Ha in Hv as [b ->]. apply IH in Ho as [b' ->].
    exists (b ++ b'). by rewrite app_assoc.
Qed.

Create HintDb appends.

(** Every step of a loop that writes appends. *)
Ltac appends :=
  repeat match goal with
  | H : try_fold _ _ _ = Ok _ |- _ =>
    apply try_fold_prefix in H as [? ->];
    [|first [assumption
            |apply Forall_forall; intros ? _ ? ?;
             first [solve [eauto with appends]
                   |cbv beta delta [push_symbol push_series]; intros; simplify_res; by eexists]]]
  end; rewrite <- ?app_assoc; try by eexists.

(** Writing only appends. *)
Lemma serialize_into_prefix `{Chrono} `{SeriesEncoder Series DataFrame} (k : K Series DataFrame) :
  forall vec out, serialize_into k vec = Ok out -> exists b, out = vec ++ b.
Proof.
  induction k as [k Hleaf|values IH|entries IH] using K_nested_ind; intros vec out.
  - destruct k; try done; cbn [serialize_into]; unfold push_symbol, push_series; intros Hs;
      simplify_res; appends.
  - cbn [serialize_into]. intros (l & _ & Hs)%bind_Ok. appends.
  - cbn [serialize_into]. intros (l & _ & (v & Hv & Hs)%bind_Ok)%bind_Ok. appends.
Qed.

#[export] Hint Resolve serialize_into_prefix : appends.

(** The type code a value reports is the type byte its encoding starts with,
    negative codes in two's complement. *)
Theorem type_code_on_wire `{Chrono} `{!ChronoLaws} `{SeriesEncoder Series DataFrame}
    `{!SeriesEncoderLaws} `{SeriesType Series} (k : K Series DataFrame) (bytes : list Z) (code : Z) :
  typed k -> match k with KSeries _ => False | _ => True end ->
  serialize k = Ok bytes -> try_get_j_type_code k = Ok code ->
  exists rest, bytes = code mod 256 :: rest.
Proof.
  intros Ht Hk (n & _ & Hs)%bind_Ok Hc.
  destruct k; cbn [serialize_into try_get_j_type_code app typed] in *; try done; injection Hc as <-;
    unfold push_symbol, push_series in *; simplify_res; appends.
  - apply qvalue_type_code; apply Ht.
  - pose proof (operator_type o Ht) as Hr.
    match goal with E : wire_value o = _ |- _ => injection E as <- <- end.
    rewrite Z.mod_small by lia. by eexists.
Qed.

#[export] Instance sample_series_type : SeriesType SampleSeries := {| dtype s := DCategorical |}.

Lemma type_code_on_wire_witness :
  typed sample_value /\ serialize sample_value = Ok sample_bytes_out
  /\ exists rest, sample_bytes_out = 99 mod 256 :: rest.
Proof.
  split_and!; [exact sample_typed|exact sample_serialized|].
  exact (type_code_on_wire sample_value sample_bytes_out 99 sample_typed I sample_serialized eq_refl).
Defined.
