(* ===== verification/Arrow.v ===== *)
(** * Arrow: the arrays series are made of

    The arrays of [polars_arrow] that the series codec builds and takes apart
    ([crates/xqdb/src/serde6.rs]), with the checks their constructors document: a
    constructor given parts that do not fit panics.  Numbers are [Z], floats are bit
    patterns, validity is a bitmap or nothing when every value is valid. *)

From stdpp Require Import prelude strings.
From Stdlib Require Import ZArith.
From S2P Require Import Prelude Errors Utf8 AnyValue.

(** ** Types *)

(** The element types of primitive arrays. *)
Inductive NativeType : Type := U8 | U32 | I16 | I32 | I64 | F32 | F64.

#[export] Instance NativeType_eq_dec : EqDecision NativeType.
Proof. solve_decision. Defined.

Inductive ArrowDataType : Type :=
| ArrowNull | ArrowBoolean | ArrowBinary | ArrowUInt8 | ArrowUInt32 | ArrowInt16 | ArrowInt32 | ArrowInt64
| ArrowFloat32 | ArrowFloat64 | ArrowLargeUtf8 | ArrowUtf8View | ArrowBinaryView
| ArrowTimestamp (unit : TimeUnit) | ArrowDate32 | ArrowTime32 (unit : TimeUnit)
| ArrowTime64 (unit : TimeUnit) | ArrowDuration (unit : TimeUnit) | ArrowFixedSizeBinary (size : Z)
| ArrowList (name : string) (child : ArrowDataType) (nullable : bool)
| ArrowLargeList (name : string) (child : ArrowDataType) (nullable : bool)
| ArrowFixedSizeList (name : string) (child : ArrowDataType) (nullable : bool) (size : Z).

#[export] Instance ArrowDataType_eq_dec : EqDecision ArrowDataType.
Proof. solve_decision. Defined.

(** [Field::new(name, data_type, nullable)]. *)
Record Field : Type := MkField {
  field_name : string;
  field_type : ArrowDataType;
  field_nullable : bool
}.

Definition list_of (field : Field) : ArrowDataType :=
  ArrowList (field_name field) (field_type field) (field_nullable field).

(** The native type that stores the values of a primitive array. *)
Definition native_type (t : ArrowDataType) : option NativeType :=
  match t with
  | ArrowUInt8 => Some U8
  | ArrowUInt32 => Some U32
  | ArrowInt16 => Some I16
  | ArrowInt32 | ArrowDate32 | ArrowTime32 _ => Some I32
  | ArrowInt64 | ArrowTimestamp _ | ArrowTime64 _ | ArrowDuration _ => Some I64
  | ArrowFloat32 => Some F32
  | ArrowFloat64 => Some F64
  | _ => None
  end.

(** ** Arrays *)

(** [View]: the bytes themselves when there are at most twelve, otherwise where they
    are. *)
Inductive View : Type :=
| ViewInline (bytes : list Z)
| ViewRef (length buffer offset : Z).

Inductive Array : Type :=
| NullArray (length : Z)
| BooleanArray (values : list bool) (validity : option (list bool))
| PrimitiveArray (data_type : ArrowDataType) (values : list Z) (validity : option (list bool))
| FixedSizeBinaryArray (size : Z) (values : list Z) (validity : option (list bool))
| Utf8ViewArray (views : list View) (buffers : list (list Z)) (validity : option (list bool))
| BinaryViewArray (views : list View) (buffers : list (list Z)) (validity : option (list bool))
| LargeUtf8Array (offsets values : list Z) (validity : option (list bool))
| ListArray (data_type : ArrowDataType) (offsets : list Z) (values : Array) (validity : option (list bool))
| LargeListArray (data_type : ArrowDataType) (offsets : list Z) (values : Array)
    (validity : option (list bool))
| FixedSizeListArray (data_type : ArrowDataType) (size length : Z) (values : Array)
    (validity : option (list bool)).

Definition data_type (a : Array) : ArrowDataType :=
  match a with
  | NullArray _ => ArrowNull
  | BooleanArray _ _ => ArrowBoolean
  | PrimitiveArray t _ _ | ListArray t _ _ _ | LargeListArray t _ _ _ | FixedSizeListArray t _ _ _ _ => t
  | FixedSizeBinaryArray size _ _ => ArrowFixedSizeBinary size
  | Utf8ViewArray _ _ _ => ArrowUtf8View
  | BinaryViewArray _ _ _ => ArrowBinaryView
  | LargeUtf8Array _ _ _ => ArrowLargeUtf8
  end.

Definition array_validity (a : Array) : option (list bool) :=
  match a with
  | NullArray _ => None
  | BooleanArray _ v | PrimitiveArray _ _ v | FixedSizeBinaryArray _ _ v | Utf8ViewArray _ _ v
  | BinaryViewArray _ _ v | LargeUtf8Array _ _ v | ListArray _ _ _ v | LargeListArray _ _ _ v
  | FixedSizeListArray _ _ _ _ v => v
  end.

(** [slice.windows(2)]. *)
Fixpoint windows {A} (l : list A) : list (A * A) :=
  match l with
  | a :: ((b :: _) as rest) => (a, b) :: windows rest
  | _ => []
  end.

(** The multiples of [size] that bound [count] rows of that size. *)
Definition strides (size : Z) (count : nat) : list Z :=
  map (fun i => Z.of_nat i * size) (seq 0 (S count)).

(** The number of rows. *)
Definition array_len (a : Array) : Z :=
  match a with
  | NullArray length => length
  | BooleanArray values _ => len values
  | PrimitiveArray _ values _ => len values
  | FixedSizeBinaryArray size values _ => len values / size
  | Utf8ViewArray views _ _ | BinaryViewArray views _ _ => len views
  | LargeUtf8Array offsets _ _ | ListArray _ offsets _ _ | LargeListArray _ offsets _ _ => len offsets - 1
  | FixedSizeListArray _ _ length _ _ => length
  end.

(** [unset_bits] of a bitmap, and [null_count]. *)
Definition unset_bits (bits : list bool) : Z := len (filter (fun b => negb b) bits).
Definition null_count (a : Array) : Z :=
  match a with
  | NullArray length => length
  | _ => match array_validity a with Some bits => unset_bits bits | None => 0 end
  end.

(** [array.is_null(i)]. *)
Definition is_null (a : Array) (i : Z) : bool :=
  match array_validity a with
  | Some bits => negb (default true (get_at bits i))
  | None => false
  end.

(** ** Rows: what an array holds, whatever its layout *)

Inductive Cell : Type :=
| CellBool (b : bool)
| CellNumber (v : Z)
| CellBytes (bytes : list Z)
| CellRow (cells : list (option Cell)).

(** The rows under a validity bitmap. *)
Definition mask {A} (validity : option (list bool)) (l : list A) : list (option A) :=
  match validity with
  | None => map Some l
  | Some bits => zip_with (fun (valid : bool) a => if valid then Some a else None) bits l
  end.

(** The elements of a list between two offsets. *)
Definition between_offsets {A} (l : list A) (range : Z * Z) : list A :=
  take (Z.to_nat (range.2 - range.1)) (drop (Z.to_nat range.1) l).

Definition view_bytes (buffers : list (list Z)) (v : View) : list Z :=
  match v with
  | ViewInline bytes => bytes
  | ViewRef length buffer offset =>
    between_offsets (default [] (get_at buffers buffer)) (offset, offset + length)
  end.

Fixpoint rows (a : Array) : list (option Cell) :=
  match a with
  | NullArray length => replicate (Z.to_nat length) None
  | BooleanArray values validity => mask validity (map CellBool values)
  | PrimitiveArray _ values validity => mask validity (map CellNumber values)
  | FixedSizeBinaryArray size values validity =>
    mask validity (map (fun range => CellBytes (between_offsets values range))
                     (windows (strides size (Z.to_nat (len values / size)))))
  | Utf8ViewArray views buffers validity | BinaryViewArray views buffers validity =>
    mask validity (map (fun v => CellBytes (view_bytes buffers v)) views)
  | LargeUtf8Array offsets values validity =>
    mask validity (map (fun range => CellBytes (between_offsets values range)) (windows offsets))
  | ListArray _ offsets values validity | LargeListArray _ offsets values validity =>
    mask validity (map (fun range => CellRow (between_offsets (rows values) range)) (windows offsets))
  | FixedSizeListArray _ size length values validity =>
    mask validity (map (fun range => CellRow (between_offsets (rows values) range))
                     (windows (strides size (Z.to_nat length))))
  end.

(** ** Constructors with their checks *)

(** [View::new_inline] and [View::new_from_bytes]. *)
Definition new_inline (bytes : list Z) : View := ViewInline bytes.
Definition new_from_bytes (bytes : list Z) (buffer offset : Z) : View :=
  if len bytes <=? 12 then ViewInline bytes else ViewRef (len bytes) buffer offset.

Definition validity_fits (validity : option (list bool)) (n : Z) : bool :=
  match validity with Some bits => len bits =? n | None => true end.

Definition or_panics {A} (fits : bool) (a : A) : res A := if fits then Ok a else Panicked.

(** [BooleanArray::new]. *)
Definition boolean_array (values : list bool) (validity : option (list bool)) : res Array :=
  or_panics (validity_fits validity (len values)) (BooleanArray values validity).

(** [PrimitiveArray::<T>::new] and [from_vec] with [set_validity]: [T] stores values of
    the data type and the bitmap has a bit for each value. *)
Definition primitive_array (native : NativeType) (t : ArrowDataType) (values : list Z)
    (validity : option (list bool)) : res Array :=
  or_panics (bool_decide (native_type t = Some native) && validity_fits validity (len values))
    (PrimitiveArray t values validity).

(** [FixedSizeBinaryArray::new]: the values are whole rows. *)
Definition fixed_size_binary_array (size : Z) (values : list Z) : res Array :=
  or_panics ((0 <? size) && (len values mod size =? 0)) (FixedSizeBinaryArray size values None).

(** The offsets of an [OffsetsBuffer] that is made unchecked: the callers promise they
    never decrease. *)
Definition last_offset (offsets : list Z) : Z := default 0 (last offsets).

(** [Utf8Array::<i64>::new]: the offsets stay inside the values and each row is UTF-8. *)
Definition large_utf8_array (offsets values : list Z) : res Array :=
  or_panics ((last_offset offsets <=? len values)
             && forallb (fun range => is_utf8 (between_offsets values range)) (windows offsets))
    (LargeUtf8Array offsets values None).

(** [ListArray::<i32>::new]: the child has the type the field announces and every row
    its offsets reach. *)
Definition list_array (field : Field) (offsets : list Z) (values : Array) : res Array :=
  or_panics (bool_decide (field_type field = data_type values)
             && (last_offset offsets <=? array_len values))
    (ListArray (list_of field) offsets values None).

(** ** Well-formed arrays *)

(** The validity bitmap has a bit for each row. *)
Definition validity_ok (validity : option (list bool)) (n : Z) : Prop :=
  match validity with Some bits => len bits = n | None => True end.

(** Offsets that never decrease, start at zero or later and stay inside [n] values. *)
Definition offsets_ok (offsets : list Z) (n : Z) : Prop :=
  (exists first, head offsets = Some first /\ 0 <= first)
  /\ Forall (fun range : Z * Z => range.1 <= range.2) (windows offsets)
  /\ last_offset offsets <= n.

(** A view of bytes that are there. *)
Definition view_ok (buffers : list (list Z)) (v : View) : Prop :=
  match v with
  | ViewInline bytes => bytes_ok bytes
  | ViewRef length buffer offset =>
    exists bytes, get_at buffers buffer = Some bytes
      /\ 0 <= offset /\ 0 <= length /\ offset + length <= len bytes
      /\ bytes_ok bytes
  end.

(** The range of a stored number. *)
Definition in_native (t : NativeType) (v : Z) : Prop :=
  match t with
  | U8 => is_byte v
  | U32 | F32 => 0 <= v < 2 ^ 32
  | I16 => - 2 ^ 15 <= v < 2 ^ 15
  | I32 => i32_min <= v <= i32_max
  | I64 => i64_min <= v <= i64_max
  | F64 => 0 <= v < 2 ^ 64
  end.

Fixpoint array_ok (a : Array) : Prop :=
  0 <= array_len a <= isize_max /\ validity_ok (array_validity a) (array_len a)
  /\ match a with
     | NullArray _ | BooleanArray _ _ => True
     | PrimitiveArray t values _ => exists n, native_type t = Some n /\ Forall (in_native n) values
     | FixedSizeBinaryArray size values _ => 0 < size /\ len values mod size = 0 /\ bytes_ok values
     | Utf8ViewArray views buffers _ =>
       Forall (fun v => view_ok buffers v /\ is_utf8 (view_bytes buffers v) = true) views
     | BinaryViewArray views buffers _ => Forall (view_ok buffers) views
     | LargeUtf8Array offsets values _ =>
       offsets_ok offsets (len values) /\ bytes_ok values
       /\ Forall (fun range => is_utf8 (between_offsets values range) = true) (windows offsets)
     | ListArray t offsets values _ =>
       (exists name nullable, t = ArrowList name (data_type values) nullable)
       /\ offsets_ok offsets (array_len values) /\ array_ok values
     | LargeListArray t offsets values _ =>
       (exists name nullable, t = ArrowLargeList name (data_type values) nullable)
       /\ offsets_ok offsets (array_len values) /\ array_ok values
     | FixedSizeListArray t size length values _ =>
       (exists name nullable, t = ArrowFixedSizeList name (data_type values) nullable size)
       /\ 0 <= size /\ array_len values = size * length /\ array_ok values
     end.
