(* ===== verification/Polars.v ===== *)
(** * Polars: series and tables as the code uses them

    What the code asks of Polars, as a class of operations: series are opaque, and are
    looked at through their type and their chunks.  The accessors that iterate over the
    chunks are definitions over that view.  [PolarsLaws] states what Polars documents. *)

From stdpp Require Import prelude strings.
From Stdlib Require Import ZArith.
From S2P Require Import Prelude Errors Utf8 Value AnyValue Arrow.

(** The global categories are one mapping of the process, which only grows: a symbol
    keeps the index it is first given. *)
Class Polars (Series DataFrame : Type) := {
  polars_type :: SeriesType Series;
  polars_name : Series -> list Z;
  polars_len : Series -> Z;
  chunks : Series -> list Array;
  polars_null_count : Series -> Z;
  rechunk : Series -> Series;
  cast : Series -> DataType -> outcome string Series;
  from_arrow : string -> Array -> outcome string Series;
  new_empty : string -> DataType -> Series;
  from_categories : string -> list Z -> Series;
  insert_cat : list Z -> outcome string Z;
  cat_to_str : Series -> Z -> option (list Z);
  accessor_error : Series -> string;
  try_transmute : NativeType -> list Z -> option (list Z);
  polars_columns : DataFrame -> list Series;
  polars_iter : Series -> list (AnyValue Series);
  polars_rename : Series -> list Z -> Series;
  polars_hstack : DataFrame -> DataFrame -> outcome string DataFrame;
  polars_frame : list Series -> outcome string DataFrame
}.

(** ** Numbers on the wire

    [WireNumber]: the width of a number and its little-endian bytes. *)

Definition wire_width (t : NativeType) : Z :=
  match t with U8 => 1 | I16 => 2 | U32 | I32 | F32 => 4 | I64 | F64 => 8 end.

(** Is the stored integer two's complement. *)
Definition is_signed (t : NativeType) : bool :=
  match t with I16 | I32 | I64 => true | _ => false end.

(** [from_le_bytes] and [to_le_bytes]. *)
Definition from_le_chunk (t : NativeType) (chunk : list Z) : Z :=
  if is_signed t then signed (8 * wire_width t) (from_le chunk) else from_le chunk.
Definition wire_number (t : NativeType) (value : Z) : list Z :=
  to_le (Z.to_nat (wire_width t)) (unsigned (8 * wire_width t) value).

(** [chunks_exact(w)]: the first [n] chunks. *)
Fixpoint chunks_exact (n w : nat) (bytes : list Z) : list (list Z) :=
  match n with
  | O => []
  | S n => take w bytes :: chunks_exact n w (drop w bytes)
  end.

(** The numbers in a payload. *)
Definition wire_values (t : NativeType) (bytes : list Z) : list Z :=
  map (from_le_chunk t)
    (chunks_exact (Z.to_nat (len bytes / wire_width t)) (Z.to_nat (wire_width t)) bytes).

(** ** The typed views of a series *)

Section Accessors.
  Context `{Polars Series DataFrame}.

(** [series.bool()], [series.i64()] and the like: every chunk has that layout. *)
Definition accessor {A} (pick : Array -> option A) (s : Series) : res (list A) :=
  ok_or (mapM pick (chunks s)) (NotAbleToSerializeErr (accessor_error s)).

Definition as_boolean (a : Array) : option (list bool * option (list bool)) :=
  match a with BooleanArray values validity => Some (values, validity) | _ => None end.

Definition as_primitive (t : NativeType) (a : Array) : option (list Z * option (list bool)) :=
  match a with
  | PrimitiveArray dt values validity =>
    if bool_decide (native_type dt = Some t) then Some (values, validity) else None
  | _ => None
  end.

(** The values of a view array, each with the bytes it views. *)
Definition as_utf8_view (a : Array) : option (list (list Z) * option (list bool)) :=
  match a with
  | Utf8ViewArray views buffers validity => Some (map (view_bytes buffers) views, validity)
  | _ => None
  end.
Definition as_binary_view (a : Array) : option (list (list Z) * option (list bool)) :=
  match a with
  | BinaryViewArray views buffers validity => Some (map (view_bytes buffers) views, validity)
  | _ => None
  end.

(** [values.iter()] over the chunks. *)
Definition iter {A} (chunked : list (list A * option (list bool))) : list (option A) :=
  concat (map (fun chunk => mask chunk.2 chunk.1) chunked).

(** [iter().flatten()]: the values that are there. *)
Definition flatten {A} (values : list (option A)) : list A := omap id values.

(** [values.cont_slice()]: a single chunk without nulls. *)
Definition cont_slice {A} (chunked : list (list A * option (list bool))) : option (list A) :=
  match chunked with
  | [(values, validity)] =>
    if match validity with Some bits => unset_bits bits =? 0 | None => true end then Some values else None
  | _ => None
  end.

(** The rows of a series. *)
Definition series_rows (s : Series) : list (option Cell) := concat (map rows (chunks s)).
End Accessors.

(** ** What Polars documents *)

(** The chunks of a series of each type. *)
Fixpoint layout (t : DataType) (a : Array) : Prop :=
  let primitive n := exists dt values validity, a = PrimitiveArray dt values validity /\ native_type dt = Some n in
  match t with
  | DNull => exists n, a = NullArray n
  | DBoolean => exists values validity, a = BooleanArray values validity
  | DUInt8 => primitive U8
  | DInt16 => primitive I16
  | DInt32 | DDate => primitive I32
  | DInt64 | DDatetime _ | DDuration _ | DTime => primitive I64
  | DFloat32 => primitive F32
  | DFloat64 => primitive F64
  | DString => exists views buffers validity, a = Utf8ViewArray views buffers validity
  | DBinary => exists views buffers validity, a = BinaryViewArray views buffers validity
  | DCategorical => primitive U32
  | DList child => exists dt offsets values validity, a = LargeListArray dt offsets values validity /\ layout child values
  | DArray child size =>
    exists dt length values validity, a = FixedSizeListArray dt size length values validity /\ layout child values
  | DUnsupported _ => True
  end.

(** The type of the series an array becomes. *)
Fixpoint polars_of (t : ArrowDataType) : DataType :=
  match t with
  | ArrowNull => DNull
  | ArrowBoolean => DBoolean
  | ArrowBinary | ArrowBinaryView | ArrowFixedSizeBinary _ => DBinary
  | ArrowUInt8 => DUInt8
  | ArrowUInt32 => DUnsupported "u32"
  | ArrowInt16 => DInt16
  | ArrowInt32 => DInt32
  | ArrowInt64 => DInt64
  | ArrowFloat32 => DFloat32
  | ArrowFloat64 => DFloat64
  | ArrowLargeUtf8 | ArrowUtf8View => DString
  | ArrowTimestamp unit => DDatetime unit
  | ArrowDate32 => DDate
  | ArrowTime32 _ | ArrowTime64 _ => DTime
  | ArrowDuration unit => DDuration unit
  | ArrowList _ child _ | ArrowLargeList _ child _ => DList (polars_of child)
  | ArrowFixedSizeList _ child _ size => DArray (polars_of child) size
  end.

(** The arrays whose values Polars keeps as they are: times of day other than
    nanoseconds are rescaled. *)
Fixpoint keeps_values (t : ArrowDataType) : bool :=
  match t with
  | ArrowTime32 _ | ArrowTime64 Microseconds | ArrowTime64 Milliseconds => false
  | ArrowList _ child _ | ArrowLargeList _ child _ | ArrowFixedSizeList _ child _ _ => keeps_values child
  | _ => true
  end.

(** Types whose arrays have a size. *)
Fixpoint sized (t : DataType) : bool :=
  match t with
  | DList child => sized child
  | DArray child size => sized child && (0 <=? size)
  | _ => true
  end.

(** Temporal series are numbers underneath. *)
Definition physical_type (t : DataType) : option DataType :=
  match t with
  | DDate => Some DInt32
  | DDatetime _ | DDuration _ | DTime => Some DInt64
  | _ => None
  end.

Class PolarsLaws `{Polars Series DataFrame} : Prop := {
  chunks_ok s : Forall (fun a => array_ok a /\ layout (dtype s) a) (chunks s);
  chunks_some s : chunks s <> [];
  polars_len_rows s : polars_len s = len (series_rows s);
  polars_null_count_chunks s : polars_null_count s = foldr Z.add 0 (map null_count (chunks s));
  rechunk_one s : exists a, chunks (rechunk s) = [a];
  rechunk_dtype s : dtype (rechunk s) = dtype s;
  rechunk_rows s : series_rows (rechunk s) = series_rows s;
  rechunk_symbols s : cat_to_str (rechunk s) = cat_to_str s;
  cast_physical s t :
    physical_type (dtype s) = Some t ->
    exists s', cast s t = Ok s' /\ dtype s' = t /\ series_rows s' = series_rows s;
  cast_rows s t s' : cast s t = Ok s' -> dtype s' = t /\ len (series_rows s') = len (series_rows s);
  from_arrow_rows name a :
    array_ok a -> keeps_values (data_type a) = true ->
    exists s, from_arrow name a = Ok s /\ dtype s = polars_of (data_type a) /\ series_rows s = rows a;
  new_empty_rows name t :
    sized t = true -> dtype (new_empty name t) = t /\ series_rows (new_empty name t) = [];
  from_categories_rows name ids :
    Forall (in_native U32) ids -> len ids <= isize_max ->
    dtype (from_categories name ids) = DCategorical
    /\ series_rows (from_categories name ids) = map (fun i => Some (CellNumber i)) ids;
  insert_cat_symbol symbol category name ids :
    insert_cat symbol = Ok category ->
    in_native U32 category /\ cat_to_str (from_categories name ids) category = Some symbol;
  polars_iter_empty s : series_rows s = [] -> polars_iter s = [];
  try_transmute_values t bytes values :
    try_transmute t bytes = Some values ->
    len bytes mod wire_width t = 0 /\ values = wire_values t bytes
}.

(** Every operation comes back, and those the decoder relies on report their errors. *)
Class PolarsReturns `{Polars Series DataFrame} : Prop := {
  cast_returns s t : returns (cast s t);
  from_arrow_returns name a : returns (from_arrow name a);
  insert_cat_returns symbol : returns (insert_cat symbol);
  polars_hstack_returns left right : returns (polars_hstack left right);
  polars_frame_returns columns : returns (polars_frame columns)
}.
