(* ===== verification/SeriesWrite.v ===== *)
(** * SeriesWrite: sizing and writing one series
    ([get_series_len] of [crates/xqdb/src/types.rs], [serialize_series_into] of
    [crates/xqdb/src/serde6.rs])

    A series is written by appending to the output; the definitions return what is
    appended.  An error drops the output in every caller. *)

From stdpp Require Import prelude strings.
From Stdlib Require Import ZArith.
From S2P Require Import Prelude Errors Types Text Value AnyValue WireText Float64 Arrow Polars.

(** ** Sizes *)

Definition checked_series_size (length value_width : Z) : res Z :=
  _ ← checked_q_count length;
  ok_or (length ← checked_mul length value_width; checked_add length 6) OverLengthErr.

Definition checked_nested_series_size (outer_length values_length value_width : Z) : res Z :=
  _ ← checked_q_count outer_length;
  values_size ← ok_or (checked_mul values_length value_width) OverLengthErr;
  headers_size ← ok_or (checked_mul outer_length 6) OverLengthErr;
  ok_or (length ← checked_add values_size headers_size; checked_add length 6) OverLengthErr.

(** [downcast_array]. *)
Definition downcast_array {A} (pick : Array -> option A) (a : Array) (expected : string) : res A :=
  ok_or (pick a) (NotAbleToSerializeErr ("expected Arrow " +:+ expected +:+ " array")).

(** [try_usize] of an [i64], and its difference. *)
Definition i64_sub (a b : Z) : option Z := i64_checked (a - b).

Definition as_large_list (a : Array) : option (list Z * Array) :=
  match a with LargeListArray _ offsets values _ => Some (offsets, values) | _ => None end.

(** One chunk of [list_values_length]. *)
Definition chunk_values_length (total : Z) (a : Array) : res Z :=
  '(offsets, _) ← ok_or (as_large_list a)
    (NotAbleToSerializeErr "expected Arrow LargeList array for Polars List series");
  first ← ok_or (head offsets) (NotAbleToSerializeErr "Polars List offsets are empty");
  last ← ok_or (last offsets) (NotAbleToSerializeErr "Polars List offsets are empty");
  chunk_length ← ok_or (i64_sub last first)
    (NotAbleToSerializeErr "Polars List offsets are not monotonically increasing");
  chunk_length ← ok_or (try_usize chunk_length) OverLengthErr;
  ok_or (checked_add total chunk_length) OverLengthErr.

(** ** Symbols of a categorical column *)

(** A direct-mapped cache of the symbols seen so far, by category. *)
Definition SLOTS : Z := 256.
Definition Slots : Type := list (option (Z * list Z)).
Definition SymbolLookup_new : Slots := replicate (Z.to_nat SLOTS) None.

Section Symbols.
  Context (cat_to_str : Z -> option (list Z)).

Definition resolve (slots : Slots) (category : Z) : res (list Z * Slots) :=
  let index := category mod SLOTS in
  slot ← or_panic (get_at slots index);
  let missed :=
    symbol ← ok_or (cat_to_str category)
      (NotAbleToSerializeErr ("categorical value " +:+ show category
                              +:+ " is missing from its category mapping"));
    _ ← validate_q_symbol symbol;
    slots ← or_panic (set_at slots index (Some (category, symbol)));
    Ok (symbol, slots) in
  match slot with
  | Some (cached, symbol) => if cached =? category then Ok (symbol, slots) else missed
  | None => missed
  end.
End Symbols.

(** Visits every row of a categorical column, the physical chunks in order. *)
Definition for_each_category {S} (categorical : list (list Z * option (list bool)))
    (visit : S -> option Z -> res S) (state : S) : res S :=
  try_fold (fun state chunk =>
    match chunk.2 with
    | None => try_fold (fun state category => visit state (Some category)) state chunk.1
    | Some validity =>
      try_fold (fun state row => visit state (if row.2 : bool then Some row.1 else None)) state
        (zip chunk.1 validity)
    end) state categorical.

Section Series.
  Context `{Polars Series DataFrame}.

Definition list_values_length (s : Series) : res Z := try_fold chunk_values_length 0 (chunks s).

(** ** Validation *)

(** [series.cast(..)] and the accessor of the cast series. *)
Definition cast_values (t : DataType) (native : NativeType) (s : Series) : res (list (option Z)) :=
  physical ← map_err NotAbleToSerializeErr (cast s t);
  values ← accessor (as_primitive native) physical;
  Ok (iter values).

Definition validate_q_time (_ : unit) (nanoseconds : Z) : res unit :=
  if negb ((0 <=? nanoseconds) && (nanoseconds <? 86400000000000)) then
    serialize_error "q time values must be within a single day"
  else if negb (Z.rem nanoseconds 1000000 =? 0) then
    serialize_error "q time only supports millisecond precision"
  else Ok tt.

Definition validate_q_time_series (s : Series) : res unit :=
  values ← cast_values DInt64 I64 s;
  try_fold validate_q_time tt (flatten values).

Definition validate_guid_series (s : Series) : res unit :=
  values ← accessor as_binary_view s;
  if existsb (fun value => negb (len value =? 16)) (flatten (iter values)) then
    serialize_error "binary series values must be exactly 16 bytes to encode as GUIDs"
  else Ok tt.

(** [value.checked_mul(multiplier)]. *)
Definition scaled (multiplier value : Z) : option Z := i64_checked (value * multiplier).

Definition validate_q_timestamp (multiplier : Z) (_ : unit) (value : Z) : res unit :=
  _ ← ok_or (value ← scaled multiplier value;
             value ← i64_checked (value - NANOS_DIFF);
             if (i64_min + 1 <? value) && (value <? i64_max) then Some value else None)
    (NotAbleToSerializeErr "timestamp is outside q's representable nanosecond range");
  Ok tt.

(** ** [get_series_len] *)

(** The width of the values of a nested list; other children are not supported. *)
Definition nested_width (child : DataType) : option Z :=
  match child with
  | DBoolean | DUInt8 => Some 1
  | DInt16 => Some 2
  | DInt32 | DFloat32 => Some 4
  | DInt64 | DFloat64 => Some 8
  | _ => None
  end.

(** [{data_type:?}], opaque. *)
Definition debug_type (t : DataType) : string :=
  match t with DUnsupported debug => debug | _ => EmptyString end.

Definition string_series_len (s : Series) : res Z :=
  values ← accessor as_utf8_view s;
  value_bytes ← try_fold (fun length (value : list Z) =>
    _ ← checked_q_count (len value); add_length length (len value)) 0 (flatten (iter values));
  checked_nested_series_size (polars_len s) value_bytes 1.

Definition list_series_len (s : Series) (child : DataType) : res Z :=
  if 0 <? polars_null_count s then serialize_error "null values in List columns"
  else
    values_length ← list_values_length s;
    value_width ← ok_or (nested_width child) (NotSupportedPolarsNestedListTypeErr (debug_type child));
    checked_nested_series_size (polars_len s) values_length value_width.

Definition array_series_len (s : Series) (child : DataType) (size : Z) : res Z :=
  if size =? 0 then serialize_error "zero-width Array columns cannot be encoded as q lists"
  else if 0 <? polars_null_count s then serialize_error "null values in Array columns"
  else
    match child with
    | DBoolean =>
      values_length ← ok_or (checked_mul (polars_len s) size) OverLengthErr;
      checked_nested_series_size (polars_len s) values_length 1
    | _ => Err (NotSupportedPolarsNestedListTypeErr (debug_type child))
    end.

Definition categorical_series_len (s : Series) : res Z :=
  categorical ← accessor (as_primitive U32) s;
  _ ← checked_q_count (polars_len s);
  '(_, total) ← for_each_category categorical (fun '(slots, total) category =>
    '(slots, symbol_length) ←
      match category with
      | Some category => '(symbol, slots) ← resolve (cat_to_str s) slots category; Ok (slots, len symbol)
      | None => Ok (slots, 0)
      end;
    total ← add_length total symbol_length;
    total ← add_length total 1;
    Ok (slots, total)) (SymbolLookup_new, 6);
  Ok total.

(** The temporal types are checked value by value first. *)
Definition datetime_series_len (s : Series) (unit : TimeUnit) : res Z :=
  _ ← match unit with
      | Milliseconds => Ok tt
      | _ => values ← cast_values DInt64 I64 s;
             try_fold (validate_q_timestamp (time_unit_multiplier unit)) tt (flatten values)
      end;
  checked_series_size (polars_len s) 8.

Definition date_series_len (s : Series) : res Z :=
  values ← cast_values DInt32 I32 s;
  if existsb (fun days => bool_decide (i32_checked (days - 10957) = None)) (flatten values) then
    serialize_error "date is outside q's representable range"
  else checked_series_size (polars_len s) 4.

Definition duration_series_len (s : Series) (unit : TimeUnit) : res Z :=
  values ← cast_values DInt64 I64 s;
  if existsb (fun value => bool_decide (scaled (time_unit_multiplier unit) value = None)) (flatten values) then
    serialize_error "duration is outside q's representable nanosecond range"
  else checked_series_size (polars_len s) 8.

Definition get_series_len (s : Series) : res Z :=
  let length := polars_len s in
  match dtype s with
  | DNull =>
    if length =? 0 then checked_series_size length 0
    else serialize_error "nonempty Null series cannot be encoded as q values"
  | DBoolean => checked_series_size length 1
  | DInt16 => checked_series_size length 2
  | DInt32 => checked_series_size length 4
  | DInt64 => checked_series_size length 8
  | DUInt8 => checked_series_size length 1
  | DFloat32 => checked_series_size length 4
  | DFloat64 => checked_series_size length 8
  | DDatetime unit => datetime_series_len s unit
  | DDate => date_series_len s
  | DTime => _ ← validate_q_time_series s; checked_series_size length 4
  | DDuration unit => duration_series_len s unit
  | DString => string_series_len s
  | DList child => list_series_len s child
  | DArray child size => array_series_len s child size
  | DBinary => _ ← validate_guid_series s; checked_series_size length 16
  | DCategorical => categorical_series_len s
  | DUnsupported debug => Err (NotSupportedSeriesTypeErr debug)
  end.

(** ** Writing *)

(** [[k_type, 0]] and the count. *)
Definition series_header (k_type k_length : Z) : list Z := [k_type; 0] ++ i32_to_le k_length.

(** [write_wire_numbers] and [write_wire_numbers_from_iter]. *)
Definition write_wire_numbers (t : NativeType) (values : list Z) : list Z :=
  flat_map (wire_number t) values.

(** [try_write_wire_numbers_from_iter]. *)
Definition try_write_wire_numbers (t : NativeType) (convert : option Z -> res Z) (values : list (option Z))
    : res (list Z) :=
  try_fold (fun output value => v ← convert value; Ok (output ++ wire_number t v)) [] values.

Definition write_boolean (s : Series) : res (list Z) :=
  values ← accessor as_boolean s;
  Ok (map (fun value => if default false value : bool then 1 else 0) (iter values)).

(** Numbers that are stored as they are sent: a null is sent as [null_value]. *)
Definition write_primitive (t : NativeType) (null_value : Z) (s : Series) : res (list Z) :=
  values ← accessor (as_primitive t) s;
  match cont_slice values with
  | Some values => Ok (write_wire_numbers t values)
  | None => Ok (write_wire_numbers t (map (default null_value) (iter values)))
  end.

Definition write_strings (s : Series) : res (list Z) :=
  values ← accessor as_utf8_view s;
  try_fold (fun output value =>
    match value with
    | Some value => length ← q_list_length (len value); Ok (output ++ [10; 0] ++ length ++ value)
    | None => Ok (output ++ [10; 0; 0; 0; 0; 0])
    end) [] (iter values).

Definition write_converted (native wire : NativeType) (convert : option Z -> res Z) (s : Series)
    : res (list Z) :=
  physical ← accessor (as_primitive native) s;
  try_write_wire_numbers wire convert (iter physical).

(** A null is the lowest number of its width; other values are converted. *)
Definition or_null (null_value : Z) (convert : Z -> res Z) (value : option Z) : res Z :=
  match value with None => Ok null_value | Some value => convert value end.

Definition q_date (days : Z) : res Z :=
  ok_or (i32_checked (days - 10957)) (NotAbleToSerializeErr "date is outside q's representable range").

Definition q_timestamp (multiplier value : Z) : res Z :=
  unix_nanoseconds ← ok_or (scaled multiplier value)
    (NotAbleToSerializeErr "timestamp is outside q's representable nanosecond range");
  q_timestamp_nanoseconds unix_nanoseconds.

Definition q_duration (multiplier value : Z) : res Z :=
  ok_or (scaled multiplier value)
    (NotAbleToSerializeErr "duration is outside q's representable nanosecond range").

(** [value / 1_000_000] truncates. *)
Definition q_time (value : Z) : res Z :=
  ok_or (try_i32 (Z.quot value 1000000)) (NotAbleToSerializeErr "time is outside q's representable range").

(** [Option<f64>] of a datetime in milliseconds. *)
Definition q_datetime (value : option Z) : Z :=
  match value with Some value => q_datetime_bits value | None => F64_NAN end.

(** [(start..end).map(|i| array.get(i).unwrap_or(false) as u8)]. *)
Definition boolean_run (a : list bool * option (list bool)) (first last : Z) : list Z :=
  map (fun value =>
    match get_at (mask a.2 a.1) value with Some (Some true) => 1 | _ => 0 end) (seqZ first (last - first)).

(** The rows of an [Array] column of booleans. *)
Definition write_array (s : Series) (child : DataType) (size : Z) : res (list Z) :=
  a ← or_panic (head (chunks s));
  '(values, nulls) ← downcast_array (fun a =>
    match a with FixedSizeListArray _ _ _ values _ => Some (values, null_count a) | _ => None end) a "FixedSizeList";
  if 0 <? nulls then serialize_error "null values in Array columns"
  else
    match child with
    | DBoolean =>
      array ← downcast_array as_boolean values "Boolean";
      len_vec ← q_list_length size;
      try_fold (fun output row =>
        first ← ok_or (checked_mul row size) OverLengthErr;
        last ← ok_or (checked_add first size) OverLengthErr;
        Ok (output ++ [1; 0] ++ len_vec ++ boolean_run array first last)) [] (seqZ 0 (polars_len s))
    | _ => Err (NotSupportedPolarsNestedListTypeErr (debug_type child))
    end.

(** The offsets of one row, as indices. *)
Definition row_offsets (message : string) (range : Z * Z) : res (Z * Z) :=
  first ← ok_or (try_usize range.1) (NotAbleToSerializeErr message);
  last ← ok_or (try_usize range.2) (NotAbleToSerializeErr message);
  Ok (first, last).

Definition write_boolean_row (values : list bool * option (list bool)) (output : list Z) (range : Z * Z)
    : res (list Z) :=
  '(first, last) ← row_offsets "List offsets cannot be negative" range;
  count ← usub last first;
  length ← q_list_length count;
  Ok (output ++ [1; 0] ++ length ++ boolean_run values first last).

(** The values of a row, [null_value] where the child is null. *)
Definition row_values (a : Array) (first : Z) (null_value : Z) (row : list Z) : list Z :=
  imap (fun offset value => if is_null a (first + Z.of_nat offset) then null_value else value) row.

Definition write_byte_row (a : Array) (values : list Z) (output : list Z) (range : Z * Z) : res (list Z) :=
  '(first, last) ← row_offsets "List offsets cannot be negative" range;
  row ← ok_or (get_range values first last)
    (NotAbleToSerializeErr "List offsets exceed the child values");
  length ← q_list_length (len row);
  Ok (output ++ [4; 0] ++ length ++ (if 0 <? null_count a then row_values a first 0 row else row)).

(** One row of [write_nested_wire_lists]. *)
Definition write_nested_row (t : NativeType) (a : Array) (raw_values : list Z) (k_type null_value : Z)
    (output : list Z) (range : Z * Z) : res (list Z) :=
  '(first, last) ← row_offsets "nested-list offsets cannot be negative" range;
  nested_values ← ok_or (get_range raw_values first last)
    (NotAbleToSerializeErr "nested-list offsets exceed the child values");
  length ← q_list_length (len nested_values);
  Ok (output ++ [k_type; 0] ++ length
      ++ write_wire_numbers t
           (if 0 <? null_count a then row_values a first null_value nested_values else nested_values)).

Definition write_nested_wire_lists (t : NativeType) (a : Array) (raw_values offsets : list Z)
    (k_type null_value : Z) : res (list Z) :=
  try_fold (write_nested_row t a raw_values k_type null_value) [] (windows offsets).

(** The child types that are written number by number: native type, q type and null. *)
Definition nested_numbers (child : DataType) : option (NativeType * Z * Z * string) :=
  match child with
  | DInt16 => Some (I16, 5, - 2 ^ 15, "Int16")
  | DInt32 => Some (I32, 6, i32_min, "Int32")
  | DInt64 => Some (I64, 7, i64_min, "Int64")
  | DFloat32 => Some (F32, 8, F32_NAN, "Float32")
  | DFloat64 => Some (F64, 9, F64_NAN, "Float64")
  | _ => None
  end%string.

Definition write_list (s : Series) (child : DataType) : res (list Z) :=
  list ← or_panic (head (chunks s));
  '(offsets, values) ← downcast_array as_large_list list "List";
  if negb (len offsets =? polars_len s + 1) then
    serialize_error ("List offsets contain " +:+ show (len offsets) +:+ " entries for "
                     +:+ show (polars_len s) +:+ " rows")
  else if 0 <? null_count list then serialize_error "null values in List columns"
  else
    match child with
    | DBoolean =>
      values ← downcast_array as_boolean values "Boolean";
      try_fold (write_boolean_row values) [] (windows offsets)
    | DUInt8 =>
      bytes ← downcast_array (as_primitive U8) values "UInt8";
      try_fold (write_byte_row values bytes.1) [] (windows offsets)
    | _ =>
      '(t, k_type, null_value, expected) ← ok_or (nested_numbers child)
        (NotSupportedPolarsNestedListTypeErr (debug_type child));
      raw ← downcast_array (as_primitive t) values expected;
      write_nested_wire_lists t values raw.1 offsets k_type null_value
    end.

Definition write_categorical (s : Series) : res (list Z) :=
  categorical ← accessor (as_primitive U32) s;
  '(_, output) ← for_each_category categorical (fun '(slots, output) category =>
    match category with
    | Some category =>
      '(symbol, slots) ← resolve (cat_to_str s) slots category;
      Ok (slots, output ++ symbol ++ [0])
    | None => Ok (slots, output ++ [0])
    end) (SymbolLookup_new, []);
  Ok output.

Definition write_guids (s : Series) : res (list Z) :=
  array ← accessor as_binary_view s;
  Ok (flat_map (default (replicate 16 0)) (iter array)).

(** The bytes after the header and the q type in it, for each type of series. *)
Definition series_payload (s : Series) : res (Z * list Z) :=
  let tagged k_type payload := bytes ← payload; Ok (k_type, bytes) in
  match dtype s with
  | DBoolean => tagged 1 (write_boolean s)
  | DUInt8 => tagged 4 (write_primitive U8 0 s)
  | DInt16 => tagged 5 (write_primitive I16 (- 2 ^ 15) s)
  | DInt32 => tagged 6 (write_primitive I32 i32_min s)
  | DInt64 => tagged 7 (write_primitive I64 i64_min s)
  | DFloat32 => tagged 8 (write_primitive F32 F32_NAN s)
  | DFloat64 => tagged 9 (write_primitive F64 F64_NAN s)
  | DString => tagged 0 (write_strings s)
  | DDate => tagged 14 (write_converted I32 I32 (or_null i32_min q_date) s)
  | DDatetime Milliseconds => tagged 15 (write_converted I64 F64 (fun value => Ok (q_datetime value)) s)
  | DDatetime unit =>
    tagged 12 (write_converted I64 I64 (or_null i64_min (q_timestamp (time_unit_multiplier unit))) s)
  | DDuration unit =>
    tagged 16 (write_converted I64 I64 (or_null i64_min (q_duration (time_unit_multiplier unit))) s)
  | DTime => _ ← validate_q_time_series s; tagged 19 (write_converted I64 I32 (or_null i32_min q_time) s)
  | DArray child size => tagged 0 (write_array s child size)
  | DList child => tagged 0 (write_list s child)
  | DCategorical => tagged 11 (write_categorical s)
  | DBinary => _ ← validate_guid_series s; tagged 2 (write_guids s)
  | DNull => if polars_len s =? 0 then Ok (0, []) else Err (NotSupportedSeriesTypeErr EmptyString)
  | DUnsupported debug => Err (NotSupportedSeriesTypeErr debug)
  end.

Definition serialize_series_into (s : Series) : res (list Z) :=
  let s := if 1 <? len (chunks s) then rechunk s else s in
  let k_length := polars_len s in
  if i32_max <? k_length then Err OverLengthErr
  else
    '(k_type, payload) ← series_payload s;
    Ok (series_header k_type k_length ++ payload).
End Series.
