(* ===== verification/SeriesRead.v ===== *)
(** * SeriesRead: decoding one list into a series
    ([deserialize_series], [deserialize_nested_array] and their helpers in
    [crates/xqdb/src/serde6.rs])

    A list of q values becomes an Arrow array and then a Polars series; every vector is
    reserved fallibly before it is filled. *)

From stdpp Require Import prelude strings gmap.
From Stdlib Require Import ZArith.
From S2P Require Import Prelude Errors Types Utf8 QValue Compress Framing ListScan Text Value AnyValue WireText Float64 Deserialize Arrow Polars.

(** The name of the series of each q type. *)
Definition K_TYPE_NAME : list string :=
  [""; "boolean"; "guid"; ""; "byte"; "short"; "int"; "long"; "real"; "float"; "char"; "symbol";
   "timestamp"; ""; "date"; "datetime"; "timespan"; "minute"; "second"; "time"]%string.

(** [K_TYPE_NAME[k_type as usize]]. *)
Definition k_type_name (k_type : Z) : res string := or_panic (get_at K_TYPE_NAME k_type).

Definition is_ascii (bytes : list Z) : bool := forallb (fun b => b <? 128) bytes.

(** [value.is_nan()] of a bit pattern. *)
Definition is_nan_bits (t : NativeType) (bits : Z) : bool :=
  match t with
  | F32 => 2139095040 <? bits mod 2 ^ 31
  | F64 => 9218868437227405312 <? bits mod 2 ^ 63
  | _ => false
  end.

(** The lowest and the highest number a signed width holds. *)
Definition native_min (t : NativeType) : Z := - 2 ^ (8 * wire_width t - 1).
Definition native_max (t : NativeType) : Z := 2 ^ (8 * wire_width t - 1) - 1.

Section Buffers.
  Context `{Allocator}.

(** [try_collect]: the values of a fallible iterator, in order. *)
Fixpoint collect_values {A B} (f : A -> res B) (l : list A) : res (list B) :=
  match l with
  | [] => Ok []
  | a :: l => b ← f a; rest ← collect_values f l; Ok (b :: rest)
  end.
Definition try_collect {A B} (f : A -> res B) (l : list A) (context : string) : res (list B) :=
  _ ← try_vec_with_capacity (len l) context;
  collect_values f l.

Definition try_copy_payload (payload : list Z) (context : string) : res (list Z) :=
  _ ← try_vec_with_capacity (len payload) context;
  Ok payload.

(** A vector with room for [count] elements. *)
Definition vec_with_capacity (count : Z) (context : string) : res Buffer :=
  _ ← try_vec_with_capacity count context;
  Ok (MkBuffer [] count).

(** Appends when the spare capacity is enough, and reserves first when it is not. *)
Definition grow (buffer : Buffer) (additional : Z) (on_error : string -> XqdbError) : res Buffer :=
  if buffer_capacity buffer - len (buffer_data buffer) <? additional then
    _ ← reserve additional on_error;
    Ok (MkBuffer (buffer_data buffer) (len (buffer_data buffer) + additional))
  else Ok buffer.

Definition try_extend (buffer : Buffer) (payload : list Z) (context : string) : res Buffer :=
  buffer ← grow buffer (len payload) (fun error =>
    DeserializationErr ("unable to grow " +:+ context +:+ " by " +:+ show (len payload)
                        +:+ " byte(s): " +:+ error));
  Ok (extend_buffer buffer payload).

Definition try_push (values : Buffer) (value : Z) (context : string) : res Buffer :=
  values ← grow values 1 (fun error =>
    DeserializationErr ("unable to grow " +:+ context +:+ ": " +:+ error));
  Ok (extend_buffer values [value]).

(** ** Numbers and bitmaps *)

Definition decode_wire_numbers (t : NativeType) (bytes : list Z) (context : string) : res (list Z) :=
  let width := wire_width t in
  if negb (len bytes mod width =? 0) then
    corrupt (context +:+ " payload has " +:+ show (len bytes mod width) +:+ " trailing byte(s)")
  else
    let value_count := len bytes / width in
    _ ← reserve value_count (fun error =>
          DeserializationErr ("unable to allocate " +:+ context +:+ " with " +:+ show value_count
                              +:+ " values: " +:+ error));
    Ok (wire_values t bytes).

(** [try_bitmap]: a bit for each value, over bytes reserved first. *)
Definition try_bitmap (bits : list bool) (context : string) : res (list bool) :=
  _ ← try_vec_with_capacity ((len bits + 7) / 8) context;
  Ok bits.

Definition optional_validity (validity : list bool) (context : string) : res (option (list bool)) :=
  bitmap ← try_bitmap validity context;
  Ok (if negb (unset_bits bitmap =? 0) then Some bitmap else None).

End Buffers.

Definition check_symbol_list_consumed (payload : list Z) (cursor : Z) : res unit :=
  if cursor =? len payload then Ok tt
  else corrupt ("q symbol list has " +:+ show (len payload - cursor) +:+ " trailing byte(s)").

(** [memchr(0, &payload[cursor..])]. *)
Definition next_symbol (payload : list Z) (cursor : Z) : res (list Z) :=
  tail ← or_panic (get_from payload cursor);
  terminator ← ok_or (find_nul tail) (DeserializationErr "q symbol-list value is not NUL-terminated");
  or_panic (get_range payload cursor (cursor + terminator)).

(** ** Fields of nested lists *)

Definition create_field (k_type : Z) (name : string) : res Field :=
  let field t nullable := Ok (MkField name t nullable) in
  if k_type =? 1 then field ArrowBoolean false
  else if k_type =? 2 then field ArrowBinary false
  else if k_type =? 4 then field ArrowUInt8 false
  else if k_type =? 5 then field ArrowInt16 true
  else if k_type =? 6 then field ArrowInt32 true
  else if k_type =? 7 then field ArrowInt64 true
  else if k_type =? 8 then field ArrowFloat32 false
  else if k_type =? 9 then field ArrowFloat64 false
  else if k_type =? 10 then field ArrowLargeUtf8 false
  else if k_type =? 11 then field ArrowLargeUtf8 false
  else if k_type =? 12 then field (ArrowTimestamp Nanoseconds) true
  else if k_type =? 14 then field ArrowDate32 true
  else if k_type =? 15 then field (ArrowTimestamp Nanoseconds) true
  else if k_type =? 16 then field (ArrowTime64 Nanoseconds) true
  else if between 17 k_type 19 then field (ArrowTime32 Milliseconds) true
  else Err (NotSupportedKListErr k_type).

(** ** Symbols *)

(** The categories of the symbols met so far: the last one, those of at most eight
    bytes packed into a word, and the longer ones. *)
Record SymbolInterner : Type := MkInterner {
  interned_last : option (list Z * Z);
  interned_short : gmap Z Z;
  interned_long : gmap (list Z) Z
}.
Definition SymbolInterner_new : SymbolInterner := MkInterner None ∅ ∅.

Section Series.
  Context `{Allocator} `{Chrono} {Series DataFrame : Type} `{!Polars Series DataFrame}.

Abbreviation kval := (K Series DataFrame).

Definition insert_global_category (symbol : list Z) : res Z :=
  map_err DeserializationErr (insert_cat symbol).

Definition category (interner : SymbolInterner) (symbol : list Z) : res (Z * SymbolInterner) :=
  let lookup :=
    '(cat, interner) ←
      (if len symbol <=? 8 then
         let word := from_le (symbol ++ replicate (8 - length symbol) 0) in
         match interned_short interner !! word with
         | Some cat => Ok (cat, interner)
         | None =>
           cat ← insert_global_category symbol;
           Ok (cat, MkInterner (interned_last interner) (<[word := cat]> (interned_short interner))
                      (interned_long interner))
         end
       else
         match interned_long interner !! symbol with
         | Some cat => Ok (cat, interner)
         | None =>
           cat ← insert_global_category symbol;
           Ok (cat, MkInterner (interned_last interner) (interned_short interner)
                      (<[symbol := cat]> (interned_long interner)))
         end);
    Ok (cat, MkInterner (Some (symbol, cat)) (interned_short interner) (interned_long interner)) in
  match interned_last interner with
  | Some (last, cat) => if bool_decide (last = symbol) then Ok (cat, interner) else lookup
  | None => lookup
  end.

(** [for _ in 0..length]: the categories of the symbols from [cursor] on. *)
Fixpoint decode_categories (length : nat) (payload : list Z) (cursor : Z) (interner : SymbolInterner)
    : res (list Z * Z) :=
  match length with
  | O => Ok ([], cursor)
  | S length =>
    symbol ← next_symbol payload cursor;
    '(cat, interner) ← category interner symbol;
    '(categories, cursor) ← decode_categories length payload (cursor + len symbol + 1) interner;
    Ok (cat :: categories, cursor)
  end.

Definition decode_symbol_column (payload : list Z) (length : Z) (name : string) : res kval :=
  _ ← try_vec_with_capacity length "q symbol-list categories";
  '(categories, cursor) ← decode_categories (Z.to_nat length) payload 0 SymbolInterner_new;
  _ ← check_symbol_list_consumed payload cursor;
  Ok (KSeries (from_categories name categories)).

(** ** One list *)

(** [Series::from_arrow(name, array)]. *)
Definition series_from (name : string) (a : Array) : res kval :=
  series ← map_err DeserializationErr (from_arrow name a);
  Ok (KSeries series).

Definition new_empty_series (k_type : Z) : res kval :=
  name ← k_type_name k_type;
  let empty t := Ok (KSeries (new_empty name t)) in
  if k_type =? 0 then empty DNull
  else if k_type =? 1 then empty DBoolean
  else if k_type =? 2 then empty DBinary
  else if (k_type =? 4) || (k_type =? 10) then empty DString
  else if k_type =? 5 then empty DInt16
  else if k_type =? 6 then empty DInt32
  else if k_type =? 7 then empty DInt64
  else if k_type =? 8 then empty DFloat32
  else if k_type =? 9 then empty DFloat64
  else if k_type =? 11 then empty DCategorical
  else if (k_type =? 12) || (k_type =? 15) then empty (DDatetime Nanoseconds)
  else if k_type =? 14 then empty DDate
  else if k_type =? 16 then empty (DDuration Nanoseconds)
  else if between 17 k_type 19 then empty DTime
  else Err (NotSupportedKListErr k_type).

(** [1]: bytes that are 0 or 1. *)
Definition boolean_values (bytes : list Z) (refused : string) (context : string) : res (list bool) :=
  match find (fun value => 1 <? value) bytes with
  | Some value => corrupt (refused +:+ " must be 0 or 1, got " +:+ show value)
  | None => try_bitmap (map (fun value => value =? 1) bytes) context
  end.

Definition boolean_list (array_vec : list Z) (name : string) : res kval :=
  values ← boolean_values array_vec "q boolean list values" "q boolean list values";
  a ← boolean_array values None;
  series_from name a.

(** [2] and [4]: the payload itself. *)
Definition guid_list (array_vec : list Z) (name : string) : res kval :=
  values ← try_copy_payload array_vec "q guid list";
  a ← fixed_size_binary_array 16 values;
  series_from name a.

Definition byte_list (array_vec : list Z) (name : string) : res kval :=
  values ← try_copy_payload array_vec "q byte list";
  a ← primitive_array U8 ArrowUInt8 values None;
  series_from name a.

(** [5], [6], [7]: null and the infinities are not valid. *)
Definition integer_list (t : NativeType) (dt : ArrowDataType) (context : string)
    (array_vec : list Z) (name : string) : res kval :=
  values ← decode_wire_numbers t array_vec context;
  validity ← optional_validity
    (map (fun value => (native_min t + 1 <? value) && (value <? native_max t)) values)
    (context +:+ " validity");
  a ← primitive_array t dt values validity;
  series_from name a.

(** [8], [9]: NaN is not valid. *)
Definition float_list (t : NativeType) (dt : ArrowDataType) (context : string)
    (array_vec : list Z) (name : string) : res kval :=
  values ← decode_wire_numbers t array_vec context;
  validity ← optional_validity (map (fun value => negb (is_nan_bits t value)) values)
    (context +:+ " validity");
  a ← primitive_array t dt values validity;
  series_from name a.

(** [10]: one row for each byte of a column. *)
Definition char_column (array_vec : list Z) (name : string) (encoding : SymbolEncoding) : res kval :=
  _ ← try_vec_with_capacity (len array_vec) "q char column views";
  views ←
    (if is_ascii array_vec then Ok (map (fun byte => new_inline [byte]) array_vec)
     else
       match encoding with
       | Lossy =>
         Ok (map (fun byte => if byte <? 128 then new_inline [byte] else new_inline REPLACEMENT_CHARACTER)
               array_vec)
       | Strict => corrupt "q char columns require valid one-byte UTF-8 characters"
       end);
  series_from name (Utf8ViewArray views [] None).

Definition char_vector (array_vec : list Z) : res kval :=
  bytes ← try_copy_payload array_vec "q char vector";
  Ok (KCharVector bytes).

(** [11], outside a column: the offsets and the bytes of the symbols, without their
    terminators. *)
Fixpoint symbol_values (length : nat) (payload : list Z) (cursor : Z) (values : list Z)
    : res (list Z * list Z * Z) :=
  match length with
  | O => Ok ([], values, cursor)
  | S length =>
    symbol ← next_symbol payload cursor;
    let values := values ++ symbol in
    offset ← ok_or (i64_checked (len values)) (DeserializationErr "q symbol-list offsets overflowed");
    '(offsets, values, cursor) ← symbol_values length payload (cursor + len symbol + 1) values;
    Ok (offset :: offsets, values, cursor)
  end.

Definition symbol_list (array_vec : list Z) (length : Z) (name : string) : res kval :=
  _ ← try_vec_with_capacity (saturating_sub (len array_vec) length) "q symbol-list values";
  count ← uadd length 1;
  _ ← try_vec_with_capacity count "q symbol-list offsets";
  '(offsets, values, cursor) ← symbol_values (Z.to_nat length) array_vec 0 [];
  _ ← check_symbol_list_consumed array_vec cursor;
  a ← large_utf8_array (0 :: offsets) values;
  series_from name a.

(** [12]: nanoseconds since 2000. *)
Definition unix_timestamp (value : Z) : res Z :=
  if value =? i64_min then Ok value else unix_timestamp_nanoseconds value.

Definition timestamp_list (array_vec : list Z) (name : string) : res kval :=
  values ← decode_wire_numbers I64 array_vec "q timestamp list";
  values ← collect_values unix_timestamp values;
  validity ← optional_validity (map (fun value => negb (value =? i64_min)) values) "q timestamp list validity";
  a ← primitive_array I64 (ArrowTimestamp Nanoseconds) values validity;
  series_from name a.

(** [14]: days since 2000. *)
Definition unix_date (value : Z) : res Z :=
  if value =? i32_min then Ok value
  else ok_or (i32_checked (value + 10957))
         (DeserializationErr "q date is outside Polars' representable range").

Definition date_list (array_vec : list Z) (name : string) : res kval :=
  values ← decode_wire_numbers I32 array_vec "q date list";
  validity ← optional_validity (map (fun value => negb (value =? i32_min)) values) "q date list validity";
  values ← collect_values unix_date values;
  a ← primitive_array I32 ArrowDate32 values validity;
  series_from name a.

(** [15]: days since 2000 as a float. *)
Definition unix_datetime (bits : Z) : res Z :=
  let value := f64_of_bits bits in
  if is_nan value then Ok i64_min
  else if negb (is_finite value) then
    corrupt "q datetime infinity cannot be represented as a native timestamp"
  else q_datetime_nanoseconds value.

Definition datetime_list (array_vec : list Z) (name : string) : res kval :=
  q_values ← decode_wire_numbers F64 array_vec "q datetime list";
  values ← try_collect unix_datetime q_values "q datetime list";
  validity ← optional_validity (map (fun value => negb (value =? i64_min)) values) "q datetime list validity";
  a ← primitive_array I64 (ArrowTimestamp Nanoseconds) values validity;
  series_from name a.

(** [16]: nanoseconds. *)
Definition timespan_list (array_vec : list Z) (name : string) : res kval :=
  values ← decode_wire_numbers I64 array_vec "q timespan list";
  validity ← optional_validity (map (fun value => negb (value =? i64_min)) values) "q timespan list validity";
  a ← primitive_array I64 (ArrowDuration Nanoseconds) values validity;
  series_from name a.

(** [17..=19]: minutes, seconds and milliseconds. *)
Definition time_multiplier (k_type : Z) : Z :=
  if k_type =? 17 then 60000000000 else if k_type =? 18 then 1000000000 else 1000000.

Definition unix_time (multiplier value : Z) : res Z :=
  if value =? i32_min then Ok 0
  else ok_or (value ← i64_checked (value * multiplier);
              if (0 <=? value) && (value <? NANOS_PER_DAY) then Some value else None)
         (DeserializationErr "q time-list value exceeds one day").

Definition time_list (k_type : Z) (array_vec : list Z) (name : string) : res kval :=
  q_values ← decode_wire_numbers I32 array_vec "q time list";
  validity ← optional_validity (map (fun value => negb (value =? i32_min)) q_values) "q time list validity";
  values ← try_collect (unix_time (time_multiplier k_type)) q_values "q time list";
  a ← primitive_array I64 (ArrowTime64 Nanoseconds) values validity;
  series_from name a.

(** ** Lists of lists *)

(** [&values[start..end]] of each row of offsets. *)
Definition validate_boundary (values : list Z) (_ : unit) (window : Z * Z) : res unit :=
  let start := window.1 in
  if start <? len values then
    byte ← or_panic (get_at values start);
    if Z.land byte 192 =? 128 then
      corrupt "q nested char value is not valid UTF-8: row boundary splits a code point"
    else Ok tt
  else Ok tt.

Definition validate_nested_char (values boundaries : list Z) : res unit :=
  if negb (is_utf8 values) then
    corrupt ("q nested char value is not valid UTF-8: " +:+ utf8_error_at 0 (utf8_units values))
  else try_fold (validate_boundary values) tt (windows boundaries).

Definition transcode_row (values : list Z) (state : Buffer * list Z) (window : Z * Z)
    : res (Buffer * list Z) :=
  let '(transcoded, offsets) := state in
  row ← or_panic (get_range values window.1 window.2);
  row ← decode_utf8 row Lossy "q nested char value";
  transcoded ← try_extend transcoded (decoded_text row) "q nested char values";
  offset ← ok_or (try_i32 (len (buffer_data transcoded)))
    (DeserializationErr "q nested char values exceed i32::MAX bytes after transcoding");
  Ok (transcoded, offsets ++ [offset]).

Definition transcode_nested_char_lossy (values boundaries : list Z) : res (list Z * list Z) :=
  transcoded ← vec_with_capacity (len values) "q nested char values";
  _ ← try_vec_with_capacity (len boundaries) "q nested char offsets";
  '(transcoded, offsets) ← try_fold (transcode_row values) (transcoded, [0]) (windows boundaries);
  Ok (buffer_data transcoded, offsets).

(** The type byte and the count of one element. *)
Definition element_header (vec : list Z) (pos : Z) : res (Z * Z * Z) :=
  current_k_type ← ok_or (get_at vec pos) (DeserializationErr "q nested list omitted an element type");
  '(sub_length, pos) ← take_list_length vec (pos + 1) "q nested-list element";
  Ok (current_k_type, sub_length, pos).

(** The payload of one element of fixed width. *)
Definition element_payload (vec : list Z) (pos payload_length : Z) : res (list Z * Z) :=
  stop ← ok_or (checked_add pos payload_length)
    (DeserializationErr "q nested-list payload offset overflowed");
  payload ← ok_or (get_range vec pos stop)
    (DeserializationErr ("q nested-list payload length " +:+ show payload_length
                         +:+ " exceeds the available bytes"));
  Ok (payload, stop).

Definition trailing_bytes (vec : list Z) (pos : Z) : res unit :=
  if negb (pos =? len vec) then
    corrupt ("q nested list has " +:+ show (len vec - pos) +:+ " trailing byte(s)")
  else Ok tt.

(** The rows of a char list in one pass: [None] on the first that is not UTF-8. *)
Fixpoint char_rows (length : nat) (vec : list Z) (pos : Z) (views : list View) (values : Buffer)
    : res (option (list View * Buffer * Z)) :=
  match length with
  | O => Ok (Some (views, values, pos))
  | S length =>
    '(current_k_type, sub_length, pos) ← element_header vec pos;
    '(payload, pos) ←
      (if (current_k_type =? 0) && (sub_length =? 0) then Ok ([], pos)
       else if current_k_type =? 10 then element_payload vec pos sub_length
       else Err (NotSupportedKMixedListErr 10 current_k_type));
    if negb (is_ascii payload) && negb (is_utf8 payload) then Ok None
    else
      let offset := len (buffer_data values) in
      if u32_max <? offset then corrupt "q nested char values exceed the view buffer limit"
      else
        values ← try_extend values payload "q nested-list values";
        char_rows length vec pos (views ++ [new_from_bytes payload 0 offset]) values
  end.

Definition decode_char_rows (vec : list Z) (pos length payload_capacity : Z) : res (option Array) :=
  _ ← try_vec_with_capacity length "q nested char views";
  values ← vec_with_capacity payload_capacity "q nested-list values";
  decoded ← char_rows (Z.to_nat length) vec pos [] values;
  match decoded with
  | None => Ok None
  | Some (views, values, pos) =>
    _ ← trailing_bytes vec pos;
    Ok (Some (Utf8ViewArray views [buffer_data values] None))
  end.

(** The offsets, the values and the offsets of the symbols, as they are filled. *)
Record Nested : Type := MkNested {
  nested_offsets : list Z;
  nested_values : Buffer;
  nested_symbols : Buffer
}.

(** The symbols of one element. *)
Fixpoint nested_symbol_run (count : nat) (vec : list Z) (pos : Z) (encoding : SymbolEncoding)
    (values symbols : Buffer) : res (Buffer * Buffer * Z) :=
  match count with
  | O => Ok (values, symbols, pos)
  | S count =>
    '(symbol, pos) ← take_utf8_until_nul vec pos encoding "q nested symbol";
    values ← try_extend values (decoded_text symbol) "q nested-symbol values";
    offset ← ok_or (i64_checked (len (buffer_data values)))
      (DeserializationErr "q nested-symbol offsets overflowed");
    symbols ← try_push symbols offset "q nested-symbol offsets";
    nested_symbol_run count vec pos encoding values symbols
  end.

Definition next_offset (offsets : list Z) (sub_length : Z) : res Z :=
  count ← ok_or (try_i32 sub_length)
    (DeserializationErr "q nested-list child count exceeds i32::MAX");
  ok_or (i32_checked (last_offset offsets + count))
    (DeserializationErr "q nested-list cumulative child count overflowed").

(** One element of a nested list. *)
Definition nested_element (vec : list Z) (k_type : Z) (encoding : SymbolEncoding) (pos : Z) (n : Nested)
    : res (Z * Nested) :=
  '(current_k_type, sub_length, pos) ← element_header vec pos;
  if (if current_k_type =? 0 then negb (sub_length =? 0) else negb (current_k_type =? k_type)) then
    Err (NotSupportedKMixedListErr k_type current_k_type)
  else
    offset ← next_offset (nested_offsets n) sub_length;
    let offsets := nested_offsets n ++ [offset] in
    if current_k_type =? 0 then Ok (pos, MkNested offsets (nested_values n) (nested_symbols n))
    else if k_type =? 11 then
      '(values, symbols, pos) ← nested_symbol_run (Z.to_nat sub_length) vec pos encoding
        (nested_values n) (nested_symbols n);
      Ok (pos, MkNested offsets values symbols)
    else
      width ← k_type_size k_type;
      payload_length ← ok_or (checked_mul sub_length width)
        (DeserializationErr "q nested-list payload length overflowed");
      '(payload, pos) ← element_payload vec pos payload_length;
      values ← try_extend (nested_values n) payload "q nested-list values";
      Ok (pos, MkNested offsets values (nested_symbols n)).

Fixpoint nested_elements (length : nat) (vec : list Z) (k_type : Z) (encoding : SymbolEncoding) (pos : Z)
    (n : Nested) : res (Z * Nested) :=
  match length with
  | O => Ok (pos, n)
  | S length =>
    '(pos, n) ← nested_element vec k_type encoding pos n;
    nested_elements length vec k_type encoding pos n
  end.

(** The flat payload as numbers, in place when its storage is aligned. *)
Definition decode_owned_wire_numbers (t : NativeType) (bytes : list Z) (context : string) : res (list Z) :=
  match try_transmute t bytes with
  | Some values => Ok values
  | None => decode_wire_numbers t bytes context
  end.

Definition nested_integers (t : NativeType) (dt : ArrowDataType) (context : string) (values : list Z)
    : res Array :=
  decoded ← decode_owned_wire_numbers t values context;
  validity ← optional_validity (map (fun value => negb (value =? native_min t)) decoded)
    (context +:+ " validity");
  primitive_array t dt decoded validity.

Definition nested_floats (t : NativeType) (dt : ArrowDataType) (context : string) (values : list Z)
    : res Array :=
  decoded ← decode_owned_wire_numbers t values context;
  validity ← optional_validity (map (fun value => negb (is_nan_bits t value)) decoded)
    (context +:+ " validity");
  primitive_array t dt decoded validity.

Definition nested_timestamps (values : list Z) : res Array :=
  decoded ← decode_owned_wire_numbers I64 values "q nested timestamp list";
  decoded ← collect_values unix_timestamp decoded;
  validity ← optional_validity (map (fun value => negb (value =? i64_min)) decoded)
    "q nested timestamp list validity";
  primitive_array I64 (ArrowTimestamp Nanoseconds) decoded validity.

(** The rows of a char list, transcoded one by one when they are not UTF-8. *)
Definition nested_chars (values boundaries : list Z) (encoding : SymbolEncoding) : res Array :=
  '(values, boundaries) ←
    match validate_nested_char values boundaries with
    | Ok _ => Ok (values, boundaries)
    | Err error =>
      match encoding with
      | Strict => Err error
      | Lossy => transcode_nested_char_lossy values boundaries
      end
    | Panicked => Panicked
    | OutOfFuel => OutOfFuel
    end;
  _ ← try_vec_with_capacity (len boundaries - 1) "q nested char views";
  views ← collect_values (fun window =>
    row ← or_panic (get_range values window.1 window.2);
    Ok (new_from_bytes row 0 window.1)) (windows boundaries);
  Ok (Utf8ViewArray views [values] None).

(** The child array of each type. *)
Definition nested_child (k_type : Z) (n : Nested) (encoding : SymbolEncoding) : res Array :=
  let values := buffer_data (nested_values n) in
  if k_type =? 1 then
    bits ← boolean_values values "q nested boolean values" "q nested boolean values";
    boolean_array bits None
  else if k_type =? 4 then primitive_array U8 ArrowUInt8 values None
  else if k_type =? 5 then nested_integers I16 ArrowInt16 "q nested short list" values
  else if k_type =? 6 then nested_integers I32 ArrowInt32 "q nested int list" values
  else if k_type =? 7 then nested_integers I64 ArrowInt64 "q nested long list" values
  else if k_type =? 8 then nested_floats F32 ArrowFloat32 "q nested real list" values
  else if k_type =? 9 then nested_floats F64 ArrowFloat64 "q nested float list" values
  else if k_type =? 10 then nested_chars values (nested_offsets n) encoding
  else if k_type =? 11 then large_utf8_array (buffer_data (nested_symbols n)) values
  else if k_type =? 12 then nested_timestamps values
  else Err (NotSupportedKNestedListErr k_type).

(** The bytes the payloads of [length] elements can take. *)
Definition nested_capacity (vec : list Z) (pos length k_type : Z) : res Z :=
  if k_type =? 11 then Ok 0
  else
    remaining ← usub (len vec) pos;
    ok_or (headers ← checked_mul length 6; checked_sub remaining headers)
      (DeserializationErr "q nested list is too short for its child headers").

(** The general decoder, after the fast path for chars. *)
Definition nested_list (vec : list Z) (pos length k_type payload_capacity : Z) (name : string)
    (encoding : SymbolEncoding) : res kval :=
  count ← uadd length 1;
  _ ← try_vec_with_capacity count "q nested-list offsets";
  values ← vec_with_capacity payload_capacity "q nested-list values";
  '(pos, n) ← nested_elements (Z.to_nat length) vec k_type encoding pos
    (MkNested [0] values (MkBuffer [0] 1));
  _ ← trailing_bytes vec pos;
  field ← create_field k_type name;
  child ← nested_child k_type n encoding;
  if k_type =? 10 then series_from name child
  else
    list ← list_array field (nested_offsets n) child;
    series ← map_err DeserializationErr (from_arrow name list);
    if k_type =? 11 then
      series ← map_err DeserializationErr (cast series (DList DCategorical));
      Ok (KSeries series)
    else Ok (KSeries series).

(** The types a nested list may have. *)
Definition nested_type (k_type : Z) : bool := (k_type =? 1) || between 4 k_type 12.

Definition deserialize_nested_array (vec : list Z) (encoding : SymbolEncoding) : res kval :=
  '(length, pos) ← take_list_length vec 0 "q nested list";
  if length =? 0 then
    if negb (pos =? len vec) then
      corrupt ("empty q nested list has " +:+ show (len vec - pos) +:+ " trailing byte(s)")
    else new_empty_series 0
  else
    k_type ← ok_or (get_at vec pos) (DeserializationErr "q nested list omitted its child type");
    if negb (nested_type k_type) then Err (NotSupportedKNestedListErr k_type)
    else
      name ← k_type_name k_type;
      payload_capacity ← nested_capacity vec pos length k_type;
      decoded ← (if k_type =? 10 then decode_char_rows vec pos length payload_capacity else Ok None);
      match decoded with
      | Some a => series_from name a
      | None => nested_list vec pos length k_type payload_capacity name encoding
      end.

(** ** [deserialize_series] *)

(** The payload of a list of fixed width is as long as the count says. *)
Definition check_payload (k_type length : Z) (array_vec : list Z) : res unit :=
  if (k_type =? 0) || (k_type =? 11) then Ok tt
  else
    width ← k_type_size k_type;
    expected_length ← ok_or (checked_mul length width)
      (DeserializationErr "q list payload length overflowed");
    if negb (len array_vec =? expected_length) then
      corrupt ("q list declares " +:+ show length +:+ " values but has " +:+ show (len array_vec)
               +:+ " payload byte(s), expected " +:+ show expected_length)
    else Ok tt.

Definition deserialize_symbols (array_vec : list Z) (length : Z) (name : string) (as_column : bool)
    (encoding : SymbolEncoding) : res kval :=
  text ← decode_utf8 array_vec encoding "q symbol-list value";
  if as_column then decode_symbol_column (decoded_text text) length name
  else symbol_list (decoded_text text) length name.

Definition deserialize_payload (vec array_vec : list Z) (k_type length : Z) (name : string)
    (as_column : bool) (encoding : SymbolEncoding) : res kval :=
  if k_type =? 0 then deserialize_nested_array vec encoding
  else if k_type =? 1 then boolean_list array_vec name
  else if k_type =? 2 then guid_list array_vec name
  else if k_type =? 4 then byte_list array_vec name
  else if k_type =? 5 then integer_list I16 ArrowInt16 "q short list" array_vec name
  else if k_type =? 6 then integer_list I32 ArrowInt32 "q int list" array_vec name
  else if k_type =? 7 then integer_list I64 ArrowInt64 "q long list" array_vec name
  else if k_type =? 8 then float_list F32 ArrowFloat32 "q real list" array_vec name
  else if k_type =? 9 then float_list F64 ArrowFloat64 "q float list" array_vec name
  else if k_type =? 10 then
    if as_column then char_column array_vec name encoding else char_vector array_vec
  else if k_type =? 11 then deserialize_symbols array_vec length name as_column encoding
  else if k_type =? 12 then timestamp_list array_vec name
  else if k_type =? 14 then date_list array_vec name
  else if k_type =? 15 then datetime_list array_vec name
  else if k_type =? 16 then timespan_list array_vec name
  else if between 17 k_type 19 then time_list k_type array_vec name
  else Err (NotSupportedKListErr k_type).

Definition deserialize_series (vec : list Z) (k_type : Z) (as_column : bool) (encoding : SymbolEncoding)
    : res kval :=
  if len K_TYPE_SIZE <=? k_type then Err (NotSupportedKListErr k_type)
  else
    '(length, pos) ← take_list_length vec 0 "q list";
    if length =? 0 then
      if negb (pos =? len vec) then
        corrupt ("empty q list has " +:+ show (len vec - pos) +:+ " trailing byte(s)")
      else if (k_type =? 10) && negb as_column then Ok (KCharVector [])
      else new_empty_series k_type
    else
      array_vec ← ok_or (get_from vec pos)
        (DeserializationErr "q list payload starts beyond its frame");
      name ← k_type_name k_type;
      _ ← check_payload k_type length array_vec;
      deserialize_payload vec array_vec k_type length name as_column encoding.
End Series.
