(* ===== verification/SeriesFacts.v ===== *)
(** * SeriesFacts: series as rows

    The accessors of a series only depend on its rows, however it is cut into chunks. *)

From stdpp Require Import prelude strings.
From Stdlib Require Import ZArith Lia ZifyBool.
From S2P Require Import Prelude Errors Types Utf8 Text Value AnyValue WireText Arrow Polars.

(** ** Validity *)

Lemma length_mask {A} validity (l : list A) : validity_ok validity (len l) -> length (mask validity l) = length l.
Proof.
  destruct validity as [bits|]; cbn; [|by rewrite length_map]. intros Hb.
  rewrite length_zip_with. lia.
Qed.

Lemma mask_map {A B} (f : A -> B) validity (l : list A) :
  mask validity (map f l) = map (fmap f) (mask validity l).
Proof.
  destruct validity as [bits|]; cbn.
  - revert l. induction bits as [|b bits IH]; intros [|a l]; try done. cbn [zip_with map].
    f_equal; [by destruct b|apply IH].
  - by rewrite !map_map.
Qed.

Lemma unset_bits_cons b bits : unset_bits (b :: bits) = (if b then 0 else 1) + unset_bits bits.
Proof.
  unfold unset_bits. rewrite filter_cons. case_decide as Hb; destruct b; cbn in Hb; try done.
  cbn [length]. lia.
Qed.

Lemma unset_bits_nonneg bits : 0 <= unset_bits bits.
Proof. unfold unset_bits. lia. Qed.

(** A bitmap without unset bits masks nothing. *)
Lemma mask_all_set {A} bits (l : list A) :
  len bits = len l -> unset_bits bits = 0 -> mask (Some bits) l = map Some l.
Proof.
  revert l. induction bits as [|b bits IH]; intros [|a l] Hl Hb; try done; cbn [length] in Hl; try lia.
  rewrite unset_bits_cons in Hb. pose proof (unset_bits_nonneg bits).
  destruct b; [|lia]. cbn [mask zip_with map]. f_equal. apply IH; lia.
Qed.

(** A row that is missing is an unset bit. *)
Lemma mask_some {A} validity (l : list A) :
  validity_ok validity (len l) ->
  match validity with Some bits => unset_bits bits | None => 0 end = 0 -> mask validity l = map Some l.
Proof. destruct validity as [bits|]; [|done]. apply mask_all_set. Qed.

Lemma mask_not_null {A} validity (l : list A) :
  validity_ok validity (len l) ->
  0 < match validity with Some bits => unset_bits bits | None => 0 end -> In None (mask validity l).
Proof.
  destruct validity as [bits|]; cbn; [|lia]. revert l.
  induction bits as [|b bits IH]; intros [|a l] Hl Hb; cbn [length] in Hl; try lia; [by cbn in Hb|].
  rewrite unset_bits_cons in Hb. cbn. destruct b; [right; apply IH; lia|by left].
Qed.

(** ** Accessors *)

Section Accessors.
  Context `{Polars Series DataFrame}.

Lemma mapM_chunks {A} (pick : Array -> option A) (P : Array -> Prop) (arrays : list Array) :
  Forall (fun a => P a) arrays -> (forall a, P a -> exists x, pick a = Some x) ->
  exists l, mapM pick arrays = Some l /\ Forall2 (fun a x => P a /\ pick a = Some x) arrays l.
Proof.
  intros HP Hpick. induction HP as [|a arrays Ha _ (l & Hl & HF)]; [by exists []|].
  destruct (Hpick a Ha) as [x Hx]. exists (x :: l). cbn. rewrite Hx, Hl. by split; [|constructor].
Qed.

(** What the accessor of a well-formed series gives: its rows, read as [inject] says. *)
Lemma accessor_rows {A} (pick : Array -> option (list A * option (list bool))) (inject : A -> Cell)
    (P : Array -> Prop) s :
  Forall (fun a => P a) (chunks s) ->
  (forall a, P a -> exists values validity, pick a = Some (values, validity)
     /\ rows a = mask validity (map inject values)) ->
  exists chunked, accessor pick s = Ok chunked /\ series_rows s = map (fmap inject) (iter chunked)
    /\ Forall2 (fun a x => P a /\ pick a = Some x) (chunks s) chunked.
Proof.
  intros HP Hpick. destruct (mapM_chunks pick P (chunks s) HP) as (l & Hl & HF).
  { intros a Ha. destruct (Hpick a Ha) as (v & b & E & _). by exists (v, b). }
  exists l. unfold accessor. rewrite Hl. split_and!; [done| |done].
  unfold series_rows, iter. clear Hl HP. induction HF as [|a x arrays l [HPa Hx] _ IH]; [done|].
  cbn [map concat]. rewrite map_app, <- IH. f_equal.
  destruct (Hpick a HPa) as (v & b & E & ->). rewrite E in Hx. injection Hx as <-. apply mask_map.
Qed.

(** Options of [inject]ed values come from one list of values only. *)
Lemma map_fmap_inj {A} (inject : A -> Cell) (l1 l2 : list (option A)) :
  (forall a b, inject a = inject b -> a = b) ->
  map (fmap inject) l1 = map (fmap inject) l2 -> l1 = l2.
Proof.
  intros Hinj. revert l2. induction l1 as [|x l1 IH]; intros [|y l2]; try done.
  cbn. intros [= Hxy Hl]. f_equal; [|by apply IH].
  destruct x, y; cbn in Hxy; try done. f_equal. apply Hinj. congruence.
Qed.

(** ** Values of a chunk and its rows *)

Definition primitive_layout (n : NativeType) (a : Array) : Prop :=
  array_ok a /\ exists dt values validity, a = PrimitiveArray dt values validity /\ native_type dt = Some n.

Lemma primitive_pick n a :
  primitive_layout n a ->
  exists values validity, as_primitive n a = Some (values, validity)
    /\ rows a = mask validity (map CellNumber values)
    /\ validity_ok validity (len values) /\ Forall (in_native n) values.
Proof.
  intros (Hok & dt & values & validity & -> & Hn). destruct Hok as (_ & Hv & n' & Hn' & Hf).
  exists values, validity.
  cbn [as_primitive rows]. rewrite Hn, bool_decide_eq_true_2 by done. split_and!; try done.
  congruence.
Qed.

Lemma accessor_primitive n s :
  Forall (primitive_layout n) (chunks s) ->
  exists chunked, accessor (as_primitive n) s = Ok chunked
    /\ series_rows s = map (fmap CellNumber) (iter chunked)
    /\ Forall (fun c => validity_ok c.2 (len c.1) /\ Forall (in_native n) c.1) chunked.
Proof.
  intros Hs.
  destruct (accessor_rows (as_primitive n) CellNumber (primitive_layout n) s Hs) as (chunked & Ha & Hr & HF).
  { intros a Ha. destruct (primitive_pick n a Ha) as (v & b & ? & ? & _). by eauto. }
  exists chunked. split_and!; [done|done|].
  clear Ha Hr Hs. induction HF as [|a x arrays l [HPa Hx] _ IH]; constructor; [|done].
  destruct (primitive_pick n a HPa) as (v & b & E & _ & Hv & Hn). rewrite E in Hx. by injection Hx as <-.
Qed.

Lemma accessor_boolean s :
  Forall (fun a => exists values validity, a = BooleanArray values validity) (chunks s) ->
  exists chunked, accessor as_boolean s = Ok chunked /\ series_rows s = map (fmap CellBool) (iter chunked).
Proof.
  intros Hs. destruct (accessor_rows as_boolean CellBool _ s Hs) as (chunked & Ha & Hr & _); [|by eauto].
  intros a (values & validity & ->). by exists values, validity.
Qed.

Lemma accessor_utf8_view s :
  Forall (fun a => exists views buffers validity, a = Utf8ViewArray views buffers validity) (chunks s) ->
  exists chunked, accessor as_utf8_view s = Ok chunked /\ series_rows s = map (fmap CellBytes) (iter chunked).
Proof.
  intros Hs. destruct (accessor_rows as_utf8_view CellBytes _ s Hs) as (chunked & Ha & Hr & _); [|by eauto].
  intros a (views & buffers & validity & ->). eexists _, validity. split; [done|]. cbn [rows]. by rewrite map_map.
Qed.

Lemma accessor_binary_view s :
  Forall (fun a => exists views buffers validity, a = BinaryViewArray views buffers validity) (chunks s) ->
  exists chunked, accessor as_binary_view s = Ok chunked /\ series_rows s = map (fmap CellBytes) (iter chunked).
Proof.
  intros Hs. destruct (accessor_rows as_binary_view CellBytes _ s Hs) as (chunked & Ha & Hr & _); [|by eauto].
  intros a (views & buffers & validity & ->). eexists _, validity. split; [done|]. cbn [rows]. by rewrite map_map.
Qed.

(** A single chunk without nulls is its values. *)
Lemma cont_slice_iter {A} (chunked : list (list A * option (list bool))) values :
  Forall (fun c => validity_ok c.2 (len c.1)) chunked ->
  cont_slice chunked = Some values -> iter chunked = map Some values.
Proof.
  intros Hv. destruct chunked as [|[v b] [|]]; [done| |done]. cbn [cont_slice].
  apply Forall_cons in Hv as [Hv _]. cbn in Hv.
  destruct b as [bits|]; [destruct (Z.eqb_spec (unset_bits bits) 0); [|done]|]; intros [= ->];
    unfold iter; cbn [map concat snd fst]; rewrite app_nil_r; [by apply mask_some|done].
Qed.
End Accessors.

(** ** Lists of rows *)

(** [offsets.windows(2)] of offsets that never decrease. *)
Lemma windows_cons {A} (a b : A) l : windows (a :: b :: l) = (a, b) :: windows (b :: l).
Proof. done. Qed.

Lemma length_windows {A} (l : list A) : length (windows l) = (length l - 1)%nat.
Proof.
  induction l as [|a l IH]; [done|]. destruct l as [|b l]; [done|].
  rewrite windows_cons. cbn [length] in *. lia.
Qed.

(** Every row of well-formed offsets lies within the values. *)
Lemma offsets_ok_rows offsets n :
  offsets_ok offsets n -> Forall (fun range : Z * Z => 0 <= range.1 <= range.2 /\ range.2 <= n) (windows offsets).
Proof.
  intros ((first & Hfirst & H0) & Hmono & Hlast). revert first Hfirst H0 Hmono Hlast.
  induction offsets as [|a offsets IH]; intros first Hfirst H0 Hmono Hlast; [constructor|].
  destruct offsets as [|b offsets]; [constructor|]. rewrite windows_cons in *.
  cbn in Hfirst. injection Hfirst as ->.
  apply Forall_cons in Hmono as [Hab Hmono]. cbn in Hab.
  assert (Forall (fun range : Z * Z => 0 <= range.1 <= range.2 /\ range.2 <= n) (windows (b :: offsets))) as HF.
  { apply (IH b); try done; lia. }
  constructor; [|done]. cbn. split; [lia|].
  clear IH HF. unfold last_offset in Hlast. cbn [last] in Hlast. revert b Hab Hmono Hlast.
  induction offsets as [|c offsets IH]; intros b Hab Hmono Hlast; [done|].
  rewrite windows_cons in Hmono. apply Forall_cons in Hmono as [Hbc Hmono]. cbn in Hbc.
  enough (c <= n) by lia. apply (IH c); [lia|done|]. exact Hlast.
Qed.

Lemma length_between {A} (l : list A) range :
  0 <= range.1 <= range.2 -> range.2 <= len l -> len (between_offsets l range) = range.2 - range.1.
Proof. intros. unfold between_offsets. rewrite length_take, length_drop. lia. Qed.

Lemma between_map {A B} (f : A -> B) (l : list A) range :
  between_offsets (map f l) range = map f (between_offsets l range).
Proof. unfold between_offsets. by rewrite <- firstn_map, <- skipn_map. Qed.

Lemma get_range_between {A} (l : list A) a b :
  0 <= a <= b -> b <= len l -> get_range l a b = Some (between_offsets l (a, b)).
Proof. intros. unfold get_range, between_offsets. by replace (_ && _) with true by bool_lia. Qed.

(** The values between the first and the last offset are those of all rows. *)
Lemma windows_total offsets :
  foldr Z.add 0 (map (fun range : Z * Z => range.2 - range.1) (windows offsets))
  = last_offset offsets - default 0 (head offsets).
Proof.
  induction offsets as [|a offsets IH]; [done|]. destruct offsets as [|b offsets].
  - unfold last_offset. cbn. lia.
  - rewrite windows_cons. cbn [map foldr]. rewrite IH.
    change (last_offset (a :: b :: offsets)) with (last_offset (b :: offsets)). cbn. lia.
Qed.
