(* ===== verification/SymbolSpec.v ===== *)
(** * SymbolSpec: the symbol caches are invisible

    Writing a categorical column looks symbols up through a direct-mapped cache, and
    reading one finds categories through the last symbol and two maps.  Both give what
    the mapping itself gives, symbol by symbol. *)

From stdpp Require Import prelude strings gmap.
From Stdlib Require Import ZArith Lia ZifyBool.
From S2P Require Import Prelude Errors Types Utf8 Text Value AnyValue WireText Deserialize Arrow Polars SeriesWrite SeriesRead Sample.

(** ** Writing *)

Section Lookup.
  Context (cat_to_str : Z -> option (list Z)).

(** The symbol of a category, looked up and validated. *)
Definition symbol_of (category : Z) : res (list Z) :=
  symbol ← ok_or (cat_to_str category)
    (NotAbleToSerializeErr ("categorical value " +:+ show category
                            +:+ " is missing from its category mapping"));
  _ ← validate_q_symbol symbol;
  Ok symbol.

(** A cache that only holds symbols of the mapping. *)
Definition cache_ok (slots : Slots) : Prop :=
  length slots = Z.to_nat SLOTS
  /\ forall i category symbol,
       get_at slots i = Some (Some (category, symbol)) -> symbol_of category = Ok symbol.

Lemma new_cache_ok : cache_ok SymbolLookup_new.
Proof.
  split; [done|]. intros i category symbol [_ Hi]%get_at_Some.
  by apply lookup_replicate in Hi as [? _].
Qed.

(** What a lookup through the cache gives, and that the cache stays good. *)
Lemma resolve_exact slots category :
  cache_ok slots ->
  match symbol_of category with
  | Ok symbol => exists slots', resolve cat_to_str slots category = Ok (symbol, slots') /\ cache_ok slots'
  | Err e => resolve cat_to_str slots category = Err e
  | Panicked => resolve cat_to_str slots category = Panicked
  | OutOfFuel => resolve cat_to_str slots category = OutOfFuel
  end.
Proof.
  intros [Hlen Hslots]. unfold resolve, SLOTS in *.
  assert (0 <= category mod 256 < len slots) as Hi by (rewrite Hlen; pose proof (Z.mod_pos_bound category 256); lia).
  destruct (get_at_is_Some slots _ Hi) as [slot Hslot]. rewrite Hslot. cbn [or_panic mbind outcome_bind].
  set (missed := (symbol ← ok_or (cat_to_str category) _; _)).
  assert (match symbol_of category with
    | Ok symbol => exists slots', missed = Ok (symbol, slots') /\ cache_ok slots'
    | Err e => missed = Err e | Panicked => missed = Panicked | OutOfFuel => missed = OutOfFuel end) as Hmissed.
  { assert (forall s, symbol_of category = Ok s -> cat_to_str category = Some s
        /\ validate_q_symbol s = Ok tt) as Hinv.
    { unfold symbol_of. intros s. destruct (cat_to_str category) as [x|]; [|done].
      cbn [ok_or mbind outcome_bind]. destruct (validate_q_symbol x) as [[]| | |] eqn:E; try done. by intros [= ->]. }
    destruct (symbol_of category) as [symbol| | |] eqn:E.
    - destruct (Hinv symbol eq_refl) as [Hc Hv]. unfold missed. rewrite Hc. cbn [ok_or mbind outcome_bind].
      rewrite Hv, (set_at_eq slots) by exact Hi. eexists. split; [reflexivity|]. split; [by rewrite length_insert|].
      intros i c s Hg. destruct (set_at slots (category mod 256) (Some (category, symbol))) as [slots'|] eqn:Es.
      2: { rewrite (set_at_eq slots) in Es by exact Hi. discriminate. }
      pose proof (get_at_set _ _ _ _ i Es) as Hget. rewrite (set_at_eq slots) in Es by exact Hi. injection Es as <-.
      rewrite Hget in Hg. destruct (i =? _); [injection Hg as <- <-; exact E|by eapply Hslots].
    - revert E. unfold missed, symbol_of. destruct (cat_to_str category) as [x|]; cbn [ok_or mbind outcome_bind];
        [|by intros [= ->]].
      destruct (validate_q_symbol x) as [[]| | |]; try done. by intros [= ->].
    - revert E. unfold symbol_of, validate_q_symbol. destruct (cat_to_str category) as [x|]; [|done]. cbn.
      by destruct (contains_nul x).
    - revert E. unfold symbol_of, validate_q_symbol. destruct (cat_to_str category) as [x|]; [|done]. cbn.
      by destruct (contains_nul x). }
  destruct slot as [[cached symbol]|]; [|exact Hmissed].
  destruct (Z.eqb_spec cached category) as [->|]; [|exact Hmissed].
  rewrite (Hslots _ _ _ Hslot). by exists slots.
Qed.

(** The symbols of a sequence of rows, through one cache. *)
Fixpoint resolve_all (slots : Slots) (categories : list Z) : res (list (list Z)) :=
  match categories with
  | [] => Ok []
  | category :: categories =>
    '(symbol, slots) ← resolve cat_to_str slots category;
    symbols ← resolve_all slots categories;
    Ok (symbol :: symbols)
  end.

Lemma resolve_all_exact slots categories :
  cache_ok slots -> resolve_all slots categories = collect_values symbol_of categories.
Proof.
  revert slots. induction categories as [|c categories IH]; intros slots Hok; [done|].
  cbn [resolve_all collect_values]. pose proof (resolve_exact slots c Hok) as Hr.
  destruct (symbol_of c) as [s|e| |]; [|by rewrite Hr..].
  destruct Hr as (slots' & -> & Hok'). cbn [mbind outcome_bind]. by rewrite IH.
Qed.
End Lookup.

(** The cache of the symbol writer is invisible: whatever categories a column holds,
    in whatever order and however many collide in the 256 slots, resolving them through
    one cache gives the symbols, or the first error, that looking each one up in the
    mapping and validating it would give. *)
Theorem symbol_cache_exact (cat_to_str : Z -> option (list Z)) (categories : list Z) :
  resolve_all cat_to_str SymbolLookup_new categories = collect_values (symbol_of cat_to_str) categories.
Proof. apply resolve_all_exact, new_cache_ok. Qed.

(** ** Reading *)

Section Interner.
  Context `{Polars Series DataFrame}.

(** A symbol as q sends it. *)
Definition symbol_ok (symbol : list Z) : Prop := bytes_ok symbol /\ nul_free symbol.

Definition packed (symbol : list Z) : Z := from_le (symbol ++ replicate (8 - length symbol) 0).

Lemma nul_free_padding_inj (s1 s2 : list Z) k1 k2 :
  nul_free s1 -> nul_free s2 -> s1 ++ replicate k1 0 = s2 ++ replicate k2 0 -> s1 = s2.
Proof.
  intros H1. revert s2. induction H1 as [|b s1 Hb _ IH]; intros s2 H2 E.
  - destruct H2 as [|b s2 Hb _]; [done|]. destruct k1; [done|]. cbn in E. congruence.
  - destruct H2 as [|c s2 Hc H2].
    + destruct k2; [done|]. cbn in E. congruence.
    + injection E as -> E. f_equal. by apply IH.
Qed.

(** Zero padding cannot make two symbols collide. *)
Lemma packed_inj s1 s2 :
  symbol_ok s1 -> symbol_ok s2 -> len s1 <= 8 -> len s2 <= 8 -> packed s1 = packed s2 -> s1 = s2.
Proof.
  intros [Hb1 Hn1] [Hb2 Hn2] Hl1 Hl2 E.
  assert (forall s, bytes_ok s -> len s <= 8 -> to_le 8 (packed s) = s ++ replicate (8 - length s) 0) as Hle.
  { intros s Hb Hl. unfold packed.
    assert (length (s ++ replicate (8 - length s) 0) = 8%nat) as Hlen by (rewrite length_app, length_replicate; lia).
    rewrite <- Hlen at 1. apply to_from_le. apply Forall_app. split; [done|]. by apply Forall_replicate. }
  apply (nul_free_padding_inj s1 s2 (8 - length s1) (8 - length s2)); try done.
  by rewrite <- !Hle, E.
Qed.

(** An interner that only remembers what the mapping answered. *)
Record interner_ok (i : SymbolInterner) : Prop := {
  last_ok symbol cat : interned_last i = Some (symbol, cat) -> insert_cat symbol = Ok cat;
  short_ok symbol cat :
    symbol_ok symbol -> len symbol <= 8 -> interned_short i !! packed symbol = Some cat ->
    insert_cat symbol = Ok cat;
  long_ok symbol cat : interned_long i !! symbol = Some cat -> insert_cat symbol = Ok cat
}.

Lemma new_interner_ok : interner_ok SymbolInterner_new.
Proof. split; cbn; [done|intros *; by rewrite lookup_empty|intros *; by rewrite lookup_empty]. Qed.

Lemma insert_global_Ok symbol cat : insert_global_category symbol = Ok cat -> insert_cat symbol = Ok cat.
Proof. unfold insert_global_category. by destruct (insert_cat symbol); cbn; try done; intros [= ->]. Qed.
Lemma insert_global_known symbol cat : insert_cat symbol = Ok cat -> insert_global_category symbol = Ok cat.
Proof. unfold insert_global_category. by intros ->. Qed.

(** The category of a symbol is the mapping's, and the interner stays good. *)
Lemma category_exact i symbol :
  interner_ok i -> symbol_ok symbol ->
  match insert_global_category symbol with
  | Ok cat => exists i', category i symbol = Ok (cat, i') /\ interner_ok i'
  | Err e => category i symbol = Err e
  | Panicked => category i symbol = Panicked
  | OutOfFuel => category i symbol = OutOfFuel
  end.
Proof.
  intros Hi Hs. unfold category.
  set (lookup := ('(cat, interner) ← _; Ok (cat, MkInterner (Some (symbol, cat)) _ _))).
  assert (match insert_global_category symbol with
    | Ok cat => exists i', lookup = Ok (cat, i') /\ interner_ok i'
    | Err e => lookup = Err e | Panicked => lookup = Panicked | OutOfFuel => lookup = OutOfFuel end) as Hlookup.
  { unfold lookup. fold (packed symbol). destruct (Z.leb_spec (len symbol) 8) as [Hl|Hl].
    - destruct (interned_short i !! packed symbol) as [cat|] eqn:E.
      + pose proof (short_ok i Hi _ _ Hs Hl E) as Hc. rewrite (insert_global_known _ _ Hc).
        eexists. split; [reflexivity|]. destruct Hi. split; [by intros ? ? [= <- <-]|done..].
      + destruct (insert_global_category symbol) as [cat| | |] eqn:Ei; cbn [mbind outcome_bind]; try done.
        eexists. split; [reflexivity|]. apply insert_global_Ok in Ei. destruct Hi as [_ Hsh Hlo].
        split; cbn; [by intros ? ? [= <- <-]| |done].
        intros s c Hs' Hl'. rewrite lookup_insert. case_decide as Hp; [|by apply Hsh].
        intros [= <-]. by rewrite <- (packed_inj symbol s).
    - destruct (interned_long i !! symbol) as [cat|] eqn:E.
      + pose proof (long_ok i Hi _ _ E) as Hc. rewrite (insert_global_known _ _ Hc).
        eexists. split; [reflexivity|]. destruct Hi. split; [by intros ? ? [= <- <-]|done..].
      + destruct (insert_global_category symbol) as [cat| | |] eqn:Ei; cbn [mbind outcome_bind]; try done.
        eexists. split; [reflexivity|]. apply insert_global_Ok in Ei. destruct Hi as [_ Hsh Hlo].
        split; cbn; [by intros ? ? [= <- <-]|done|].
        intros s c. rewrite lookup_insert. case_decide as Hp; [|by apply Hlo]. intros [= <-]. by subst. }
  destruct (interned_last i) as [[l cat]|] eqn:El; [|exact Hlookup].
  destruct (bool_decide_reflect (l = symbol)) as [->|]; [|exact Hlookup].
  rewrite (insert_global_known symbol cat) by (by eapply last_ok). by exists i.
Qed.

(** The same decoding with the mapping asked for every row. *)
Fixpoint mapped_categories (length : nat) (payload : list Z) (cursor : Z) : res (list Z * Z) :=
  match length with
  | O => Ok ([], cursor)
  | S length =>
    symbol ← next_symbol payload cursor;
    cat ← insert_global_category symbol;
    '(categories, cursor) ← mapped_categories length payload (cursor + len symbol + 1);
    Ok (cat :: categories, cursor)
  end.

Lemma next_symbol_ok payload cursor symbol :
  bytes_ok payload -> next_symbol payload cursor = Ok symbol -> symbol_ok symbol.
Proof.
  intros Hb. unfold next_symbol. intros (tail & Ht%or_panic_Ok & (n & Hn%ok_or_Ok & Hr%or_panic_Ok)%bind_Ok)%bind_Ok.
  destruct (find_nul_Some _ _ Hn) as (name & rest & -> & -> & Hname).
  pose proof (get_range_bounds _ _ _ _ Ht) as (H0 & Hle & Hlen).
  apply (get_range_app payload name (0 :: rest)) in Ht as [Hname' _].
  rewrite Hname' in Hr. injection Hr as <-. split; [by eapply get_range_Forall|done].
Qed.

Lemma decode_categories_exact length payload cursor i :
  bytes_ok payload -> interner_ok i ->
  decode_categories length payload cursor i = mapped_categories length payload cursor.
Proof.
  intros Hb. revert cursor i. induction length as [|length IH]; intros cursor i Hi; [done|].
  cbn [decode_categories mapped_categories].
  destruct (next_symbol payload cursor) as [symbol| | |] eqn:E; try done. cbn [mbind outcome_bind].
  pose proof (category_exact i symbol Hi (next_symbol_ok _ _ _ Hb E)) as Hc.
  destruct (insert_global_category symbol) as [cat| | |]; [|by rewrite Hc..].
  destruct Hc as (i' & -> & Hi'). cbn [mbind outcome_bind]. by rewrite IH.
Qed.
End Interner.

(** The interner of the symbol reader is invisible: for every payload, the
    categories decoded through the last symbol, the word map and the long-symbol map, or
    the first error, are those of asking the mapping for every row.  In particular the
    zero padding of short symbols never makes two symbols share a category. *)
Theorem interner_exact `{Polars Series DataFrame} (length : nat) (payload : list Z) :
  bytes_ok payload ->
  decode_categories length payload 0 SymbolInterner_new = mapped_categories length payload 0.
Proof. intros Hb. apply decode_categories_exact; [done|apply new_interner_ok]. Qed.
