(* ===== verification/SeriesFormat.v ===== *)
(** * SeriesFormat: what a series is on the wire

    The abstract specification of the series codec: the q type of each kind of series,
    and the bytes of each row.  It only speaks of rows; how a series is cut into chunks,
    which of its rows share buffers and what its bitmaps are does not matter. *)

From stdpp Require Import prelude strings.
From Stdlib Require Import ZArith Lia ZifyBool.
From S2P Require Import Prelude Errors Types Utf8 Text Value AnyValue WireText Float64 Arrow Polars SeriesWrite.

(** ** Rows *)

Definition with_null (null_value : Z) (convert : Z -> option Z) (value : option Z) : option Z :=
  match value with None => Some null_value | Some value => convert value end.

(** A number, or what stands for a missing one. *)
Definition number_row (t : NativeType) (convert : option Z -> option Z) (c : option Cell) : option (list Z) :=
  match c with
  | None => wire_number t <$> convert None
  | Some (CellNumber v) => wire_number t <$> convert (Some v)
  | _ => None
  end.

Definition boolean_row (c : option Cell) : option (list Z) :=
  match c with
  | None => Some [0]
  | Some (CellBool b) => Some [if b then 1 else 0]
  | _ => None
  end.

(** The values that are sent as they are stored, and are therefore the ones a list may
    hold. *)
Definition flat_row (t : DataType) : option Cell -> option (list Z) :=
  match t with
  | DBoolean => boolean_row
  | DUInt8 => number_row U8 (with_null 0 Some)
  | DInt16 => number_row I16 (with_null (- 2 ^ 15) Some)
  | DInt32 => number_row I32 (with_null i32_min Some)
  | DInt64 => number_row I64 (with_null i64_min Some)
  | DFloat32 => number_row F32 (with_null F32_NAN Some)
  | DFloat64 => number_row F64 (with_null F64_NAN Some)
  | _ => fun _ => None
  end.

(** The q type of a list of such values. *)
Definition flat_code (t : DataType) : option Z :=
  match t with
  | DBoolean => Some 1
  | DUInt8 => Some 4
  | DInt16 => Some 5
  | DInt32 => Some 6
  | DInt64 => Some 7
  | DFloat32 => Some 8
  | DFloat64 => Some 9
  | _ => None
  end.

(** A list that is a row: its own header, and its values. *)
Definition sublist (k_type count : Z) (payload : list Z) : option (list Z) :=
  if count <=? i32_max then Some ([k_type; 0] ++ i32_to_le count ++ payload) else None.

Definition list_row (child : DataType) (c : option Cell) : option (list Z) :=
  match c with
  | Some (CellRow cells) =>
    k_type ← flat_code child;
    payload ← mapM (flat_row child) cells;
    sublist k_type (len cells) (concat payload)
  | _ => None
  end.

Definition string_row (c : option Cell) : option (list Z) :=
  match c with
  | Some (CellBytes bytes) => sublist 10 (len bytes) bytes
  | None => sublist 10 0 []
  | _ => None
  end.

Definition guid_row (c : option Cell) : option (list Z) :=
  match c with
  | Some (CellBytes bytes) => if len bytes =? 16 then Some bytes else None
  | None => Some (replicate 16 0)
  | _ => None
  end.

Definition symbol_row (cat_to_str : Z -> option (list Z)) (c : option Cell) : option (list Z) :=
  match c with
  | Some (CellNumber category) =>
    symbol ← cat_to_str category;
    if contains_nul symbol then None else Some (symbol ++ [0])
  | None => Some [0]
  | _ => None
  end.

(** Milliseconds of a time of day that has no smaller part. *)
Definition time_of_day (v : Z) : option Z :=
  if (0 <=? v) && (v <? NANOS_PER_DAY) && (v mod 1000000 =? 0) then Some (v / 1000000) else None.

(** Nanoseconds since 2000, none of q's three special timestamps. *)
Definition timestamp_of (multiplier v : Z) : option Z :=
  if in_i64 (v * multiplier) then
    let q := v * multiplier - NANOS_DIFF in
    if (i64_min + 1 <? q) && (q <? i64_max) then Some q else None
  else None.

Definition wire_row (cat_to_str : Z -> option (list Z)) (t : DataType) : option Cell -> option (list Z) :=
  match t with
  | DString => string_row
  | DBinary => guid_row
  | DCategorical => symbol_row cat_to_str
  | DDate => number_row I32 (with_null i32_min (fun v => i32_checked (v - 10957)))
  | DDatetime Milliseconds => number_row F64 (fun v => Some (q_datetime v))
  | DDatetime unit => number_row I64 (with_null i64_min (timestamp_of (time_unit_multiplier unit)))
  | DDuration unit =>
    number_row I64 (with_null i64_min (fun v => i64_checked (v * time_unit_multiplier unit)))
  | DTime => number_row I32 (with_null i32_min time_of_day)
  | DList child => list_row child
  | DArray DBoolean _ => list_row DBoolean
  | DArray _ _ => fun _ => None
  | t => flat_row t
  end.

(** ** Series *)

Definition wire_code (t : DataType) : option Z :=
  match t with
  | DNull | DString => Some 0
  | DList child => _ ← flat_code child; Some 0
  | DArray DBoolean size => if size <=? i32_max then Some 0 else None
  | DArray _ _ => None
  | DBinary => Some 2
  | DCategorical => Some 11
  | DDatetime Milliseconds => Some 15
  | DDatetime _ => Some 12
  | DDate => Some 14
  | DDuration _ => Some 16
  | DTime => Some 19
  | DUnsupported _ => None
  | t => flat_code t
  end.

(** A series of type [t] with the given rows, if q has one. *)
Definition wire_series (cat_to_str : Z -> option (list Z)) (t : DataType) (rs : list (option Cell))
    : option (list Z) :=
  k_type ← wire_code t;
  payload ← mapM (wire_row cat_to_str t) rs;
  if len rs <=? i32_max then Some (series_header k_type (len rs) ++ concat payload) else None.
