(* ===== verification/SeriesWriteFacts.v ===== *)
(** * SeriesWriteFacts: each kind of series is written row by row, symbol columns and
    columns of lists included *)

From stdpp Require Import prelude strings.
From Stdlib Require Import ZArith Lia ZifyBool.
From S2P Require Import Prelude Errors Utf8 Types Text Value AnyValue WireText Float64 Deserialize SerializeFacts Arrow Polars SeriesWrite SeriesRead SeriesFacts SymbolSpec SeriesFormat.

(** ** A computation that succeeds exactly when a specification has a value *)

Definition agrees {A} (m : res A) (o : option A) : Prop := forall a, m = Ok a <-> o = Some a.

Lemma agrees_ok {A} (a : A) : agrees (Ok a) (Some a).
Proof. intros b. split; by intros [= ->]. Qed.
Lemma agrees_err {A} (e : XqdbError) : agrees (Err e : res A) None.
Proof. done. Qed.
Lemma agrees_ok_or {A} (o : option A) e : agrees (ok_or o e) o.
Proof. destruct o; [apply agrees_ok|apply agrees_err]. Qed.

Lemma agrees_next {A B} (m : res A) o (f : A -> res B) g :
  agrees m o -> (forall a, o = Some a -> agrees (f a) (g a)) -> agrees (m ≫= f) (o ≫= g).
Proof.
  intros Hm Hf b. rewrite bind_Ok. destruct o as [a|]; cbn.
  - rewrite <- (Hf a eq_refl b). assert (m = Ok a) as -> by (by apply Hm).
    split; [by intros (? & [= <-] & ?)|eauto].
  - split; [|done]. by intros (a & ?%Hm & _).
Qed.

Lemma agrees_fmap {A B} (m : res A) o (f : A -> B) :
  agrees m o -> agrees (a ← m; Ok (f a)) (f <$> o).
Proof.
  intros Hm b. rewrite bind_Ok. setoid_rewrite (fun a => Hm a). destruct o as [a|]; cbn.
  - split; [by intros (? & [= <-] & [= <-])|]. intros [= <-]. eauto.
  - split; [by intros (? & ? & _)|done].
Qed.

Lemma agrees_if {A} (b : bool) (m : res A) o e :
  (b = false -> agrees m o) -> agrees (if b then Err e else m) (if b then None else o).
Proof. destruct b; [intros; apply agrees_err|auto]. Qed.

#[export] Hint Resolve agrees_ok agrees_err agrees_ok_or : prelude.

Lemma agrees_eq {A} (m : res A) o o' : agrees m o -> o = o' -> agrees m o'.
Proof. by intros ? <-. Qed.

(** A loop that appends what it makes of each row. *)
Lemma agrees_fold {A} (step : list Z -> A -> res (list Z)) (f : A -> option (list Z)) acc l :
  (forall output a, In a l -> agrees (step output a) (app output <$> f a)) ->
  agrees (try_fold step acc l) ((fun bs => acc ++ concat bs) <$> mapM f l).
Proof.
  revert acc. induction l as [|a l IH]; intros acc Hstep; cbn [try_fold].
  - cbn. rewrite app_nil_r. apply agrees_ok.
  - eapply agrees_eq.
    + apply (agrees_next _ (app acc <$> f a) _ (fun acc => (fun bs => acc ++ concat bs) <$> mapM f l)).
      * apply Hstep. by left.
      * intros acc' _. apply IH. intros output a' Ha. apply Hstep. by right.
    + cbn. destruct (f a) as [b|]; [|done]. cbn. destruct (mapM f l) as [bs|]; [|done]. cbn.
      by rewrite app_assoc.
Qed.

Lemma agrees_append (m : res (list Z)) o output :
  agrees m o -> agrees (b ← m; Ok (output ++ b)) (app output <$> o).
Proof. apply agrees_fmap. Qed.

Lemma mapM_map {A B C} (f : A -> B) (g : B -> option C) l : mapM g (map f l) = mapM (fun a => g (f a)) l.
Proof. induction l as [|a l IH]; [done|]. cbn. destruct (g (f a)); [|done]. cbn. by rewrite IH. Qed.

Lemma mapM_pure {A B} (f : A -> B) l : mapM (fun a => Some (f a)) l = Some (map f l).
Proof. induction l as [|a l IH]; [done|]. cbn. by rewrite IH. Qed.

Lemma mapM_ext_in {A B} (f g : A -> option B) l :
  (forall a, In a l -> f a = g a) -> mapM f l = mapM g l.
Proof.
  intros Hfg. induction l as [|a l IH]; [done|]. cbn. rewrite Hfg by (by left).
  destruct (g a); [|done]. cbn. rewrite IH; [done|]. intros. apply Hfg. by right.
Qed.

Lemma mapM_length {A B} (f : A -> option B) l bs : mapM f l = Some bs -> length bs = length l.
Proof.
  revert bs. induction l as [|a l IH]; intros bs; cbn; [by intros [= <-]|].
  destruct (f a); [|done]. cbn. destruct (mapM f l); [|done]. cbn. intros [= <-]. cbn. by rewrite IH.
Qed.

(** ** Numbers and booleans *)

Section Rows.
  Context `{Polars Series DataFrame}.

(** The payload of rows read through [inject]. *)
Definition payload_of {A} (row : option Cell -> option (list Z)) (inject : A -> Cell) (values : list (option A))
    : option (list Z) :=
  @concat Z <$> mapM row (map (fmap inject) values).

Lemma payload_pure {A} row (inject : A -> Cell) (f : option A -> list Z) values :
  (forall v, row (inject <$> v) = Some (f v)) -> payload_of row inject values = Some (flat_map f values).
Proof.
  intros Hrow. unfold payload_of. rewrite mapM_map, (mapM_ext_in _ (fun v => Some (f v))) by auto.
  rewrite mapM_pure. cbn. by rewrite flat_map_concat_map.
Qed.

Lemma number_row_pure t null v :
  number_row t (with_null null Some) (CellNumber <$> v) = Some (wire_number t (default null v)).
Proof. by destruct v. Qed.

Lemma write_boolean_agrees s :
  Forall (fun a => exists values validity, a = BooleanArray values validity) (chunks s) ->
  agrees (write_boolean s) (@concat Z <$> mapM boolean_row (series_rows s)).
Proof.
  intros Hs. destruct (accessor_boolean s Hs) as (chunked & Ha & ->). unfold write_boolean. rewrite Ha.
  cbn [mbind outcome_bind]. fold (payload_of boolean_row CellBool (iter chunked)).
  rewrite (payload_pure _ _ (fun v => [if default false v : bool then 1 else 0])) by (by intros [[]|]).
  apply (agrees_eq _ (Some (map (fun value => if default false value : bool then 1 else 0) (iter chunked)))).
  - apply agrees_ok.
  - apply (f_equal Some). induction (iter chunked) as [|v l IH]; [done|]. cbn. by rewrite IH.
Qed.

Lemma write_numbers_map t null values :
  write_wire_numbers t (map (default null) values) = flat_map (fun v => wire_number t (default null v)) values.
Proof. unfold write_wire_numbers. induction values as [|v l IH]; [done|]. cbn. by rewrite IH. Qed.

Lemma write_primitive_agrees t null s :
  Forall (primitive_layout t) (chunks s) ->
  agrees (write_primitive t null s)
    (@concat Z <$> mapM (number_row t (with_null null Some)) (series_rows s)).
Proof.
  intros Hs. destruct (accessor_primitive t s Hs) as (chunked & Ha & -> & Hv). unfold write_primitive. rewrite Ha.
  cbn [mbind outcome_bind]. fold (payload_of (number_row t (with_null null Some)) CellNumber (iter chunked)).
  rewrite (payload_pure _ _ _ _ (number_row_pure t null)).
  rewrite <- write_numbers_map. destruct (cont_slice chunked) as [values|] eqn:E; [|apply agrees_ok].
  apply cont_slice_iter in E.
  2: { eapply Forall_impl; [exact Hv|]. by intros c [? _]. }
  rewrite E, map_map. cbn [default]. rewrite map_id. apply agrees_ok.
Qed.

(** Numbers that are converted, each conversion being allowed to fail. *)
Lemma write_converted_agrees native wire (convert : option Z -> res Z) f s :
  Forall (primitive_layout native) (chunks s) ->
  (forall v, In (CellNumber <$> v) (series_rows s) -> from_option (in_native native) True v ->
     agrees (convert v) (f v)) ->
  agrees (write_converted native wire convert s) (@concat Z <$> mapM (number_row wire f) (series_rows s)).
Proof.
  intros Hs Hf. destruct (accessor_primitive native s Hs) as (chunked & Ha & Hrows & Hv).
  rewrite Hrows in *.
  unfold write_converted. rewrite Ha. cbn [mbind outcome_bind]. unfold try_write_wire_numbers.
  rewrite mapM_map. eapply agrees_eq.
  - apply (agrees_fold _ (fun v => wire_number wire <$> f v)). intros output v Hin.
    eapply agrees_eq.
    + apply (agrees_fmap _ (f v) (fun v => output ++ wire_number wire v)). apply Hf; [by apply in_map|].
      unfold iter in Hin. apply in_concat in Hin as (rows & (c & <- & Hc)%in_map_iff & Hin).
      rewrite Forall_forall in Hv. apply list_elem_of_In in Hc. destruct (Hv c Hc) as [_ Hn].
      destruct v as [v|]; [|done]. cbn. destruct c as [values validity]. cbn in *.
      rewrite Forall_forall in Hn. apply Hn, list_elem_of_In. destruct validity as [bits|]; cbn in Hin.
      * clear -Hin. revert bits Hin. induction values as [|w values IH]; intros [|b bits] Hin; try done.
        cbn in Hin. destruct Hin as [Hw|Hin]; [|right; by eapply IH]. left. destruct b; congruence.
      * by apply in_map_iff in Hin as (? & [= ->] & ?).
    + by destruct (f v).
  - rewrite (mapM_ext_in _ (fun v => number_row wire f (CellNumber <$> v))) by (by intros [v|]).
    by destruct (mapM _ _).
Qed.

(** ** Strings, GUIDs and symbols *)

Lemma q_list_length_agrees k_type (bytes : list Z) :
  agrees (length ← q_list_length (len bytes); Ok ([k_type; 0] ++ length ++ bytes))
    (sublist k_type (len bytes) bytes).
Proof.
  unfold q_list_length, sublist, try_i32. replace (i32_min <=? len bytes) with true by bool_lia. cbn [andb].
  destruct (_ <=? _); [apply agrees_ok|apply agrees_err].
Qed.

Lemma write_strings_agrees s :
  Forall (fun a => exists views buffers validity, a = Utf8ViewArray views buffers validity) (chunks s) ->
  agrees (write_strings s) (@concat Z <$> mapM string_row (series_rows s)).
Proof.
  intros Hs. destruct (accessor_utf8_view s Hs) as (chunked & Ha & ->). unfold write_strings. rewrite Ha.
  cbn [mbind outcome_bind]. rewrite mapM_map. eapply agrees_eq.
  - apply (agrees_fold _ (fun v => string_row (CellBytes <$> v))). intros output [v|] _; [|apply agrees_ok].
    assert (forall m : res (list Z), (length ← m; Ok (output ++ [10; 0] ++ length ++ v))
      = (b ← (length ← m; Ok ([10; 0] ++ length ++ v)); Ok (output ++ b))) as -> by (by intros []).
    apply agrees_append, q_list_length_agrees.
  - by destruct (mapM _ _).
Qed.

(** [validate_guid_series] accepts the rows that are GUIDs. *)
Lemma guid_rows_valid (values : list (option (list Z))) :
  existsb (fun value => negb (len value =? 16)) (flatten values) = false <->
  payload_of guid_row CellBytes values = Some (flat_map (default (replicate 16 0)) values).
Proof.
  unfold payload_of. induction values as [|[v|] values IH]; cbn; [done| |].
  - destruct (len v =? 16); cbn; [|done]. rewrite IH.
    destruct (mapM guid_row _) as [bs|]; cbn; [|done]. split; intros [= ?]; f_equal; [congruence|by eapply app_inv_head].
  - rewrite IH. destruct (mapM guid_row _) as [bs|]; cbn; [|done]. split; intros [= ?]; f_equal; [congruence|done].
Qed.

Lemma guid_rows_invalid (values : list (option (list Z))) :
  existsb (fun value => negb (len value =? 16)) (flatten values) = true ->
  payload_of guid_row CellBytes values = None.
Proof.
  unfold payload_of. induction values as [|[v|] values IH]; cbn; [done| |].
  - destruct (len v =? 16); cbn; [|done]. intros E. specialize (IH E). by destruct (mapM guid_row _).
  - intros E. specialize (IH E). by destruct (mapM guid_row _).
Qed.

Lemma write_guids_agrees s :
  Forall (fun a => exists views buffers validity, a = BinaryViewArray views buffers validity) (chunks s) ->
  agrees (_ ← validate_guid_series s; write_guids s) (@concat Z <$> mapM guid_row (series_rows s)).
Proof.
  intros Hs. destruct (accessor_binary_view s Hs) as (chunked & Ha & ->).
  unfold validate_guid_series, write_guids. rewrite Ha. cbn [mbind outcome_bind].
  fold (payload_of guid_row CellBytes (iter chunked)).
  destruct (existsb _ _) eqn:E; cbn [mbind outcome_bind].
  - rewrite guid_rows_invalid by done. apply agrees_err.
  - apply guid_rows_valid in E. rewrite E. apply agrees_ok.
Qed.
End Rows.

(** ** Symbol columns and columns of lists are written row by row *)

(** ** Symbols *)

Lemma zip_mask {A} (values : list A) bits :
  map (fun row : A * bool => if row.2 then Some row.1 else None) (zip values bits) = mask (Some bits) values.
Proof.
  revert bits. induction values as [|v values IH]; intros [|b bits]; try done. cbn. f_equal. apply IH.
Qed.

Lemma try_fold_map {E S A B} (g : A -> B) (f : S -> B -> outcome E S) acc l :
  try_fold f acc (map g l) = try_fold (fun s a => f s (g a)) acc l.
Proof. revert acc. induction l as [|a l IH]; intros acc; [done|]. cbn. by destruct (f acc (g a)); cbn. Qed.

Lemma try_fold_app {E S A} (f : S -> A -> outcome E S) acc l1 l2 :
  try_fold f acc (l1 ++ l2) = acc ← try_fold f acc l1; try_fold f acc l2.
Proof. revert acc. induction l1 as [|a l1 IH]; intros acc; [done|]. cbn. by destruct (f acc a); cbn. Qed.

(** Visiting the chunks is visiting the rows. *)
Lemma for_each_category_rows {S} categorical (visit : S -> option Z -> res S) state :
  for_each_category categorical visit state = try_fold visit state (iter categorical).
Proof.
  unfold for_each_category, iter. revert state. induction categorical as [|[values validity] l IH]; intros state; [done|].
  cbn [try_fold map concat fst snd]. rewrite try_fold_app.
  assert (match validity with
    | None => try_fold (fun state category => visit state (Some category)) state values
    | Some validity => try_fold (fun state row => visit state (if row.2 : bool then Some row.1 else None)) state
        (zip values validity) end = try_fold visit state (mask validity values)) as ->.
  { destruct validity as [bits|]; [by rewrite <- zip_mask, try_fold_map|]. cbn. by rewrite try_fold_map. }
  destruct (try_fold visit state (mask validity values)) as [state'| | |]; [|done..]. apply IH.
Qed.

Lemma symbol_of_Ok cat_to_str category symbol :
  symbol_of cat_to_str category = Ok symbol <-> cat_to_str category = Some symbol /\ contains_nul symbol = false.
Proof.
  unfold symbol_of, validate_q_symbol. destruct (cat_to_str category) as [s|]; cbn; [|naive_solver].
  destruct (contains_nul s) eqn:E; cbn; [|naive_solver].
  split; [done|]. intros [[= ->] ?]. congruence.
Qed.

Section Nested.
  Context `{Polars Series DataFrame}.

Lemma symbols_agree cat_to_str slots output (rs : list (option Z)) :
  cache_ok cat_to_str slots ->
  agrees
    ('(_, output) ← try_fold (fun '(slots, output) category =>
       match category with
       | Some category =>
         '(symbol, slots) ← resolve cat_to_str slots category;
         Ok (slots, output ++ symbol ++ [0])
       | None => Ok (slots, output ++ [0])
       end) (slots, output) rs; Ok output)
    ((fun bs => output ++ concat bs) <$> mapM (fun v => symbol_row cat_to_str (CellNumber <$> v)) rs).
Proof.
  revert slots output. induction rs as [|[category|] rs IH]; intros slots output Hok; cbn [try_fold].
  - cbn. rewrite app_nil_r. apply agrees_ok.
  - pose proof (resolve_exact cat_to_str slots category Hok) as Hr. cbn [mapM fmap option_fmap option_map symbol_row].
    destruct (symbol_of cat_to_str category) as [symbol| | |] eqn:E.
    + destruct Hr as (slots' & -> & Hok'). cbn [mbind outcome_bind].
      apply symbol_of_Ok in E as [-> Hn]. cbn [mbind option_bind]. rewrite Hn. cbn [mbind option_bind].
      eapply agrees_eq; [by apply IH|]. destruct (mapM _ rs) as [bs|]; [|done]. cbn. by rewrite <- !app_assoc.
    + rewrite Hr. cbn. assert (symbol_row cat_to_str (Some (CellNumber category)) = None) as Hnone.
      { destruct (symbol_row cat_to_str (Some (CellNumber category))) eqn:Es; [|done]. cbn in Es.
        unfold symbol_of, validate_q_symbol in E. destruct (cat_to_str category); [|done]. cbn in *.
        by destruct (contains_nul _). }
      cbn in Hnone. rewrite Hnone. apply agrees_err.
    + unfold symbol_of, validate_q_symbol in E. destruct (cat_to_str category) as [s|]; [|done]. cbn in E.
      by destruct (contains_nul s).
    + unfold symbol_of, validate_q_symbol in E. destruct (cat_to_str category) as [s|]; [|done]. cbn in E.
      by destruct (contains_nul s).
  - cbn [mbind outcome_bind mapM fmap option_fmap option_map symbol_row option_bind].
    eapply agrees_eq; [by apply IH|]. destruct (mapM _ rs) as [bs|]; [|done]. cbn. by rewrite <- app_assoc.
Qed.

Lemma write_categorical_agrees s :
  Forall (primitive_layout U32) (chunks s) ->
  agrees (write_categorical s) (@concat Z <$> mapM (symbol_row (cat_to_str s)) (series_rows s)).
Proof.
  intros Hs. destruct (accessor_primitive U32 s Hs) as (chunked & Ha & -> & _). unfold write_categorical.
  rewrite Ha. cbn [mbind outcome_bind]. rewrite for_each_category_rows, mapM_map.
  apply (symbols_agree (cat_to_str s) SymbolLookup_new [] (iter chunked)), new_cache_ok.
Qed.

(** ** Rows of a child *)

Lemma get_at_between {A} (l : list A) a b :
  0 <= a <= b -> b <= len l -> map (get_at l) (seqZ a (b - a)) = map Some (between_offsets l (a, b)).
Proof.
  intros Hab Hb. apply list_eq. intros i. rewrite !list_lookup_fmap.
  unfold between_offsets. cbn [fst snd].
  destruct (decide (Z.of_nat i < b - a)) as [Hi|Hi].
  - rewrite lookup_seqZ_lt by lia. cbn. rewrite lookup_take_lt, lookup_drop by lia.
    unfold get_at. replace (_ && _) with true by bool_lia.
    replace (Z.to_nat (a + Z.of_nat i)) with (Z.to_nat a + i)%nat by lia.
    destruct (lookup_lt_is_Some_2 l (Z.to_nat a + i)) as [x ->]; [lia|]. done.
  - rewrite lookup_seqZ_ge by lia. rewrite lookup_take_ge by lia. done.
Qed.

Lemma length_mask_map {A B} (f : A -> B) validity (l : list A) :
  validity_ok validity (len l) -> length (mask validity (map f l)) = length l.
Proof. intros Hv. rewrite length_mask by (by rewrite length_map). apply length_map. Qed.

Lemma boolean_run_rows (values : list bool) validity a b :
  0 <= a <= b -> b <= len values -> validity_ok validity (len values) ->
  @concat Z <$> mapM boolean_row (between_offsets (mask validity (map CellBool values)) (a, b))
  = Some (boolean_run (values, validity) a b).
Proof.
  intros Hab Hb Hv. rewrite mask_map, between_map. unfold boolean_run. cbn [fst snd].
  fold (payload_of boolean_row CellBool (between_offsets (mask validity values) (a, b))).
  rewrite (payload_pure _ _ (fun v => [if default false v : bool then 1 else 0])) by (by intros [[]|]).
  apply (f_equal Some).
  assert (map (fun i => match get_at (mask validity values) i with Some (Some true) => 1 | _ => 0 end) (seqZ a (b - a))
    = map (fun o : option (option bool) => match o with Some (Some true) => 1 | _ => 0 end)
        (map (get_at (mask validity values)) (seqZ a (b - a)))) as -> by (by rewrite map_map).
  rewrite get_at_between by (rewrite ?length_mask; done). rewrite map_map.
  induction (between_offsets _ _) as [|v l IH]; [done|]. cbn. rewrite IH. by destruct v as [[]|].
Qed.

(** The values of a row as they are written, nulls replaced. *)
Lemma nested_row_values dt (values : list Z) validity null a b :
  0 <= a <= b -> b <= len values -> validity_ok validity (len values) ->
  (if 0 <? null_count (PrimitiveArray dt values validity)
   then row_values (PrimitiveArray dt values validity) a null (between_offsets values (a, b))
   else between_offsets values (a, b))
  = map (default null) (between_offsets (mask validity values) (a, b)).
Proof.
  intros Hab Hb Hv. cbn [null_count array_validity].
  destruct (Z.ltb_spec 0 (match validity with Some bits => unset_bits bits | None => 0 end)) as [Hn|Hn].
  - destruct validity as [bits|]; [|lia]. unfold row_values, is_null. cbn [array_validity validity_ok] in *.
    apply list_eq. intros i. rewrite list_lookup_imap, list_lookup_fmap. unfold between_offsets. cbn [fst snd].
    destruct (decide (Z.of_nat i < b - a)) as [Hi|Hi].
    2: { by rewrite !lookup_take_ge by lia. }
    rewrite !lookup_take_lt, !lookup_drop by lia. cbn [mask]. rewrite lookup_zip_with.
    destruct (lookup_lt_is_Some_2 values (Z.to_nat a + i)) as [x Hx]; [lia|].
    destruct (lookup_lt_is_Some_2 bits (Z.to_nat a + i)) as [bit Hbit]; [lia|].
    rewrite Hx, Hbit. cbn. unfold get_at. replace (_ && _) with true by bool_lia.
    replace (Z.to_nat (a + Z.of_nat i)) with (Z.to_nat a + i)%nat by lia. rewrite Hbit. by destruct bit.
  - assert (mask validity values = map Some values) as ->.
    { apply mask_some; [done|]. destruct validity as [bits|]; [|done]. pose proof (unset_bits_nonneg bits). lia. }
    rewrite between_map, map_map. cbn. by rewrite map_id.
Qed.

(** The rows of a list column: their offsets are indices into the child. *)
Lemma row_offsets_Ok message a b n :
  0 <= a <= b -> b <= n -> n <= isize_max -> row_offsets message (a, b) = Ok (a, b).
Proof.
  intros. unfold row_offsets, try_usize. cbn [fst snd].
  replace ((0 <=? a) && _) with true by bool_lia. cbn [ok_or mbind outcome_bind].
  by replace ((0 <=? b) && _) with true by bool_lia.
Qed.

(** A header, a length that fits, and the payload of a row. *)
Lemma row_agrees output k_type n payload :
  0 <= n ->
  agrees (length ← q_list_length n; Ok (output ++ [k_type; 0] ++ length ++ payload))
    (app output <$> sublist k_type n payload).
Proof.
  intros Hn. unfold q_list_length, sublist, try_i32. replace (i32_min <=? n) with true by bool_lia. cbn [andb].
  destruct (_ <=? _); [apply agrees_ok|apply agrees_err].
Qed.

Lemma list_row_eq child k_type cells payload :
  flat_code child = Some k_type -> @concat Z <$> mapM (flat_row child) cells = Some payload ->
  list_row child (Some (CellRow cells)) = sublist k_type (len cells) payload.
Proof.
  intros Hk Hp. cbn [list_row]. rewrite Hk. cbn [mbind option_bind].
  destruct (mapM (flat_row child) cells); [|done]. cbn in *. by injection Hp as ->.
Qed.

Lemma write_boolean_row_agrees values validity output a b :
  0 <= a <= b -> b <= len values -> len values <= isize_max -> validity_ok validity (len values) ->
  agrees (write_boolean_row (values, validity) output (a, b))
    (app output <$> list_row DBoolean
       (Some (CellRow (between_offsets (mask validity (map CellBool values)) (a, b))))).
Proof.
  intros Hab Hb Hlen Hv. unfold write_boolean_row.
  rewrite (row_offsets_Ok _ a b (len values)) by done. cbn [mbind outcome_bind].
  unfold usub, checked_sub. replace (a <=? b) with true by lia. cbn [or_panic mbind outcome_bind].
  erewrite (list_row_eq DBoolean 1); [|done|by apply boolean_run_rows].
  rewrite length_between by (cbn [fst snd]; rewrite ?length_mask_map; done). cbn [fst snd].
  apply row_agrees. lia.
Qed.

Lemma number_payload t null (l : list (option Z)) :
  @concat Z <$> mapM (number_row t (with_null null Some)) (map (fmap CellNumber) l)
  = Some (write_wire_numbers t (map (default null) l)).
Proof.
  fold (payload_of (number_row t (with_null null Some)) CellNumber l).
  by rewrite (payload_pure _ _ _ _ (number_row_pure t null)), write_numbers_map.
Qed.

(** The numeric children share one shape. *)
Lemma numeric_row_agrees child t k_type null dt values validity output a b :
  flat_code child = Some k_type -> flat_row child = number_row t (with_null null Some) ->
  0 <= a <= b -> b <= len values -> validity_ok validity (len values) ->
  agrees (length ← q_list_length (len (between_offsets values (a, b)));
          Ok (output ++ [k_type; 0] ++ length ++ write_wire_numbers t
               (if 0 <? null_count (PrimitiveArray dt values validity)
                then row_values (PrimitiveArray dt values validity) a null (between_offsets values (a, b))
                else between_offsets values (a, b))))
    (app output <$> list_row child
       (Some (CellRow (between_offsets (mask validity (map CellNumber values)) (a, b))))).
Proof.
  intros Hk Hrow Hab Hb Hv. rewrite nested_row_values by done. rewrite mask_map, between_map.
  erewrite (list_row_eq child k_type); [|done|by rewrite Hrow, number_payload].
  rewrite length_map, !length_between by (cbn [fst snd]; rewrite ?length_mask; done). cbn [fst snd].
  apply row_agrees. lia.
Qed.
End Nested.
