(* ===== verification/SeriesWriteSpec.v ===== *)
(** * SeriesWriteSpec: a series is written as its rows, in the size announced *)

From stdpp Require Import prelude strings.
From Stdlib Require Import ZArith Lia ZifyBool.
From S2P Require Import Prelude Errors Types Utf8 Text Value AnyValue WireText Deserialize SerializeFacts Float64 Arrow Polars SeriesWrite SeriesRead SeriesFacts SymbolSpec SeriesFormat SeriesWriteFacts.

(** ** Columns of lists *)

Lemma mapM_None_in {A B} (f : A -> option B) l a : In a l -> f a = None -> mapM f l = None.
Proof.
  induction l as [|x l IH]; [done|]. intros [->|Hin] Hf; cbn; [by rewrite Hf|].
  destruct (f x); [|done]. cbn. by rewrite IH.
Qed.

(** The rows of a list array without nulls. *)
Definition sublists (values : list (option Cell)) (ranges : list (Z * Z)) : list (option Cell) :=
  map (fun range => Some (CellRow (between_offsets values range))) ranges.

(** Writing the rows of [child] one range at a time. *)
Lemma agrees_ranges (child : DataType) (cells : list (option Cell)) ranges step :
  (forall output range, In range ranges ->
     agrees (step output range) (app output <$> list_row child (Some (CellRow (between_offsets cells range))))) ->
  agrees (try_fold step [] ranges) (@concat Z <$> mapM (list_row child) (sublists cells ranges)).
Proof.
  intros Hstep. unfold sublists. rewrite mapM_map. exact (agrees_fold step _ [] ranges Hstep).
Qed.

(** Rows with a null cannot be written. *)
Lemma null_row_refused child validity (cells : list Cell) :
  validity_ok validity (len cells) ->
  0 < match validity with Some bits => unset_bits bits | None => 0 end ->
  @concat Z <$> mapM (list_row child) (mask validity cells) = None.
Proof.
  intros Hv Hn. rewrite (mapM_None_in _ _ None); [done| |done]. by apply mask_not_null.
Qed.

Section Lists.
  Context `{Polars Series DataFrame}.

Lemma numbers_agree child t k_type null dt values validity ranges :
  flat_code child = Some k_type -> flat_row child = number_row t (with_null null Some) ->
  validity_ok validity (len values) -> len values <= isize_max ->
  Forall (fun range : Z * Z => 0 <= range.1 <= range.2 /\ range.2 <= len values) ranges ->
  agrees (try_fold (write_nested_row t (PrimitiveArray dt values validity) values k_type null) [] ranges)
    (@concat Z <$> mapM (list_row child) (sublists (mask validity (map CellNumber values)) ranges)).
Proof.
  intros Hk Hrow Hv Hlen Hr. apply agrees_ranges. intros output [a b] Hin.
  rewrite Forall_forall in Hr. apply list_elem_of_In in Hin. destruct (Hr _ Hin) as [Hab Hb]. cbn [fst snd] in *.
  unfold write_nested_row. rewrite (row_offsets_Ok _ a b (len values)) by done. cbn [mbind outcome_bind].
  rewrite get_range_between by done. cbn [ok_or mbind outcome_bind]. by apply numeric_row_agrees.
Qed.

Lemma bytes_agree dt values validity ranges :
  validity_ok validity (len values) -> len values <= isize_max -> Forall is_byte values ->
  Forall (fun range : Z * Z => 0 <= range.1 <= range.2 /\ range.2 <= len values) ranges ->
  agrees (try_fold (write_byte_row (PrimitiveArray dt values validity) values) [] ranges)
    (@concat Z <$> mapM (list_row DUInt8) (sublists (mask validity (map CellNumber values)) ranges)).
Proof.
  intros Hv Hlen Hbytes Hr. apply agrees_ranges. intros output [a b] Hin.
  rewrite Forall_forall in Hr. apply list_elem_of_In in Hin. destruct (Hr _ Hin) as [Hab Hb]. cbn [fst snd] in *.
  unfold write_byte_row. rewrite (row_offsets_Ok _ a b (len values)) by done. cbn [mbind outcome_bind].
  rewrite get_range_between by done. cbn [ok_or mbind outcome_bind].
  pose proof (numeric_row_agrees DUInt8 U8 4 0 dt values validity output a b eq_refl eq_refl Hab Hb Hv) as Hn.
  replace (write_wire_numbers U8 _) with
    (if 0 <? null_count (PrimitiveArray dt values validity)
     then row_values (PrimitiveArray dt values validity) a 0 (between_offsets values (a, b))
     else between_offsets values (a, b)) in Hn; [exact Hn|].
  rewrite nested_row_values by done.
  assert (Forall is_byte (map (default 0) (between_offsets (mask validity values) (a, b)))) as HF.
  { rewrite <- (nested_row_values dt values validity 0 a b) by done.
    assert (Forall is_byte (between_offsets values (a, b))) as Hsub by (by apply Forall_take, Forall_drop).
    destruct (_ <? _); [|done]. unfold row_values. apply Forall_lookup. intros i x.
    rewrite list_lookup_imap. destruct (between_offsets values (a, b) !! i) as [y|] eqn:E; [|done]. cbn.
    intros [= <-]. destruct (is_null _ _); [done|]. by eapply Forall_lookup_1. }
  induction HF as [|v l Hv0 _ IH]; [done|]. cbn [write_wire_numbers flat_map]. f_equal.
  - change (wire_number U8 v) with [unsigned 8 v mod 256]. cbn [app]. f_equal; [|exact IH].
    unfold unsigned. unfold is_byte in Hv0. change (2 ^ (8 * wire_width U8)) with 256.
    rewrite (Z.mod_small v), Z.mod_small by lia. done.
Qed.

Lemma booleans_agree values validity ranges :
  validity_ok validity (len values) -> len values <= isize_max ->
  Forall (fun range : Z * Z => 0 <= range.1 <= range.2 /\ range.2 <= len values) ranges ->
  agrees (try_fold (write_boolean_row (values, validity)) [] ranges)
    (@concat Z <$> mapM (list_row DBoolean) (sublists (mask validity (map CellBool values)) ranges)).
Proof.
  intros Hv Hlen Hr. apply agrees_ranges. intros output [a b] Hin.
  rewrite Forall_forall in Hr. apply list_elem_of_In in Hin. destruct (Hr _ Hin) as [Hab Hb].
  by apply write_boolean_row_agrees.
Qed.

(** The only chunk of a series. *)
Definition single (s : Series) (a : Array) : Prop :=
  chunks s = [a] /\ array_ok a /\ layout (dtype s) a /\ polars_len s = len (rows a).

Lemma single_rows s a : single s a -> series_rows s = rows a.
Proof. intros (Hc & _). unfold series_rows. rewrite Hc. cbn. apply app_nil_r. Qed.

Lemma offsets_some offsets n : offsets_ok offsets n -> 1 <= len offsets.
Proof. intros ((x & Hx & _) & _). destruct offsets; [done|]. cbn [length]. lia. Qed.

(** The values of a child of numbers. *)
Lemma primitive_child t values ranges :
  array_ok values -> (exists dt vs v, values = PrimitiveArray dt vs v /\ native_type dt = Some t) ->
  Forall (fun range : Z * Z => 0 <= range.1 <= range.2 /\ range.2 <= array_len values) ranges ->
  exists dt vs v, values = PrimitiveArray dt vs v
    /\ (forall expected, downcast_array (as_primitive t) values expected = Ok (vs, v))
    /\ validity_ok v (len vs) /\ len vs <= isize_max /\ Forall (in_native t) vs
    /\ Forall (fun range : Z * Z => 0 <= range.1 <= range.2 /\ range.2 <= len vs) ranges.
Proof.
  intros Hok (dt & vs & v & -> & Hn) Hr. destruct Hok as (Hl & Hv & n & Hn' & Hf). cbn [array_len] in *.
  exists dt, vs, v. split_and!; try done; [|lia|by assert (n = t) as <- by congruence].
  intros expected. unfold downcast_array. cbn [as_primitive]. by rewrite bool_decide_eq_true_2.
Qed.

(** The rows of a list without nulls, whatever its child. *)
Lemma list_child_agrees child values offsets :
  array_ok values -> layout child values ->
  Forall (fun range : Z * Z => 0 <= range.1 <= range.2 /\ range.2 <= array_len values) (windows offsets) ->
  agrees
    match child with
    | DBoolean =>
      values ← downcast_array as_boolean values "Boolean";
      try_fold (write_boolean_row values) [] (windows offsets)
    | DUInt8 =>
      bytes ← downcast_array (as_primitive U8) values "UInt8";
      try_fold (write_byte_row values bytes.1) [] (windows offsets)
    | _ =>
      '(t, k_type, null_value, expected) ← ok_or (nested_numbers child)
        (NotSupportedPolarsNestedListTypeErr (debug_type child));
      raw ← downcast_array (as_primitive t) values expected;
      write_nested_wire_lists t values raw.1 offsets k_type null_value
    end
    (_ ← flat_code child; @concat Z <$> mapM (list_row child) (sublists (rows values) (windows offsets))).
Proof.
  intros Hok Hlay Hr.
  assert (forall t k_type null expected, flat_code child = Some k_type ->
    flat_row child = number_row t (with_null null Some) ->
    (exists dt vs v, values = PrimitiveArray dt vs v /\ native_type dt = Some t) ->
    agrees (raw ← downcast_array (as_primitive t) values expected;
            write_nested_wire_lists t values raw.1 offsets k_type null)
      (_ ← flat_code child; @concat Z <$> mapM (list_row child) (sublists (rows values) (windows offsets)))) as Hnumbers.
  { intros t k_type null expected Hk Hrow Hp.
    destruct (primitive_child t values _ Hok Hp Hr) as (dt & vs & v & -> & Hd & Hv & Hlen & _ & Hr').
    rewrite Hd, Hk. cbn [mbind outcome_bind option_bind fst]. by apply numbers_agree. }
  destruct child; cbn [nested_numbers ok_or mbind outcome_bind]; try apply agrees_err.
  - destruct Hlay as (vs & v & ->). destruct Hok as (Hl & Hv & _). cbn [array_len array_validity] in *.
    unfold downcast_array. cbn [as_boolean ok_or mbind outcome_bind flat_code option_bind].
    apply booleans_agree; [done|lia|done].
  - destruct (primitive_child U8 values _ Hok Hlay Hr) as (dt & vs & v & -> & Hd & Hv & Hlen & Hf & Hr').
    rewrite Hd. cbn [mbind outcome_bind fst flat_code option_bind]. by apply bytes_agree.
  - by apply (Hnumbers I16).
  - by apply (Hnumbers I32).
  - by apply (Hnumbers I64).
  - by apply (Hnumbers F32).
  - by apply (Hnumbers F64).
Qed.

(** Rows that reach a child of type [child], each type written its way. *)
Lemma write_list_agrees s a child :
  dtype s = DList child -> single s a ->
  agrees (write_list s child) (_ ← flat_code child; @concat Z <$> mapM (list_row child) (series_rows s)).
Proof.
  intros Ht Hs. rewrite (single_rows s a Hs). destruct Hs as (Hc & Hok & Hlay & Hlen).
  rewrite Ht in Hlay. cbn [layout] in Hlay. destruct Hlay as (dt & offsets & values & validity & -> & Hchild).
  destruct Hok as (Hl & Hv & _ & Hoff & Hvals). cbn [array_len array_validity] in *.
  pose proof (offsets_some _ _ Hoff) as Hone. pose proof (offsets_ok_rows _ _ Hoff) as Hranges.
  set (ranges := windows offsets) in *.
  assert (len ranges = len offsets - 1) as Hwin by (unfold ranges; rewrite length_windows; lia).
  assert (validity_ok validity (len (map (fun range => CellRow (between_offsets (rows values) range)) ranges))) as Hv'.
  { rewrite length_map. by rewrite Hwin. }
  cbn [rows] in Hlen. fold ranges in Hlen. rewrite length_mask, length_map in Hlen by done.
  unfold write_list. rewrite Hc. cbn [head hd_error or_panic mbind outcome_bind].
  assert (forall e, downcast_array as_large_list (LargeListArray dt offsets values validity) e
    = Ok (offsets, values)) as -> by done. cbn [mbind outcome_bind].
  rewrite (proj2 (Z.eqb_eq (len offsets) (polars_len s + 1))) by (rewrite Hlen, Hwin; lia).
  cbn [negb rows]. fold ranges.
  destruct (Z.ltb_spec 0 (null_count (LargeListArray dt offsets values validity))) as [Hnull|Hnull];
    cbn [null_count array_validity] in Hnull.
  { rewrite null_row_refused by done. destruct (flat_code child); apply agrees_err. }
  rewrite mask_some; [|done|].
  2: { destruct validity as [bits|]; [|done]. pose proof (unset_bits_nonneg bits). lia. }
  rewrite map_map. fold (sublists (rows values) ranges). fold ranges.
  by apply list_child_agrees.
Qed.

(** ** Columns of arrays of booleans *)

Lemma strides_windows size n :
  windows (strides size n) = map (fun i => (Z.of_nat i * size, (Z.of_nat i + 1) * size)) (seq 0 n).
Proof.
  unfold strides. generalize 0%nat as k. induction n as [|n IH]; intros k; [done|].
  change (seq k (S (S n))) with (k :: S k :: seq (S (S k)) n). cbn [map]. rewrite windows_cons.
  change (seq k (S n)) with (k :: seq (S k) n). cbn [map]. f_equal; [f_equal; lia|].
  exact (IH (S k)).
Qed.

Lemma seqZ_seq n : seqZ 0 (Z.of_nat n) = map Z.of_nat (seq 0 n).
Proof.
  unfold seqZ. rewrite Nat2Z.id. apply map_ext. intros i. apply Z.add_0_r.
Qed.

Lemma write_array_agrees s a child size :
  dtype s = DArray child size -> single s a ->
  agrees (write_array s child size)
    (_ ← wire_code (dtype s); @concat Z <$> mapM (wire_row (cat_to_str s) (dtype s)) (series_rows s)).
Proof.
  intros Ht Hs. rewrite (single_rows s a Hs). destruct Hs as (Hc & Hok & Hlay & Hlen).
  rewrite Ht in *. cbn [layout] in Hlay. destruct Hlay as (dt & n & values & validity & -> & Hchild).
  destruct Hok as (Hl & Hv & _ & Hsize & Hn & Hvals). cbn [array_len array_validity] in *.
  set (ranges := windows (strides size (Z.to_nat n))).
  assert (length ranges = Z.to_nat n) as Hwin.
  { unfold ranges. rewrite strides_windows, length_map, length_seq. done. }
  assert (validity_ok validity (len (map (fun range => CellRow (between_offsets (rows values) range)) ranges))) as Hv'.
  { rewrite length_map, Hwin, Z2Nat.id by lia. done. }
  cbn [rows] in Hlen. fold ranges in Hlen. rewrite length_mask, length_map, Hwin, Z2Nat.id in Hlen by (done || lia).
  unfold write_array. rewrite Hc. cbn [head hd_error or_panic mbind outcome_bind].
  unfold downcast_array. cbn [ok_or mbind outcome_bind null_count array_validity rows]. fold ranges.
  destruct child; cbn [wire_code]; try (destruct (0 <? _); apply agrees_err).
  cbn [wire_row]. destruct Hchild as (vs & v & ->).
  destruct Hvals as (Hl' & Hv'' & _). cbn [array_len array_validity] in *.
  destruct (Z.ltb_spec 0 (match validity with Some bits => unset_bits bits | None => 0 end)) as [Hnull|Hnull].
  { rewrite null_row_refused by done. destruct (size <=? i32_max); apply agrees_err. }
  rewrite mask_some; [|done|].
  2: { destruct validity as [bits|]; [|done]. pose proof (unset_bits_nonneg bits). lia. }
  rewrite map_map. fold (sublists (rows (BooleanArray vs v)) ranges).
  cbn [as_boolean ok_or mbind outcome_bind]. unfold q_list_length, try_i32.
  replace (i32_min <=? size) with true by bool_lia. cbn [andb].
  destruct (size <=? i32_max) eqn:Efit; [|apply agrees_err]. cbn [ok_or mbind outcome_bind option_bind].
  rewrite Hlen. unfold ranges. rewrite strides_windows. rewrite <- (Z2Nat.id n) at 1 by lia. rewrite seqZ_seq.
  rewrite try_fold_map. unfold sublists. rewrite !mapM_map.
  apply (agrees_fold _ _ []). intros output i [_ Hi]%in_seq. cbn [rows].
  assert (Z.of_nat i * size + size <= len vs) as Hin by nia.
  unfold checked_mul, checked_add. replace (Z.of_nat i * size <=? usize_max) with true by bool_lia.
  cbn [ok_or mbind outcome_bind]. replace (_ <=? usize_max) with true by bool_lia.
  cbn [ok_or mbind outcome_bind].
  replace ((Z.of_nat i + 1) * size) with (Z.of_nat i * size + size) by lia.
  assert (0 <= Z.of_nat i * size <= Z.of_nat i * size + size) as Hrow by nia.
  rewrite (list_row_eq DBoolean 1 _ _ eq_refl (boolean_run_rows vs v _ _ Hrow Hin Hv'')).
  rewrite length_between by (cbn [fst snd]; rewrite ?length_mask_map by done; done). cbn [fst snd].
  unfold sublist. replace (Z.of_nat i * size + size - Z.of_nat i * size) with size by lia. rewrite Efit.
  apply agrees_ok.
Qed.
End Lists.

(** ** Series *)

Section Series.
  Context `{PolarsLaws Series DataFrame}.

(** What is written is a series in one chunk, with the same rows. *)
Lemma rechunked_single s :
  let s' := if 1 <? len (chunks s) then rechunk s else s in
  (exists a, single s' a) /\ dtype s' = dtype s /\ series_rows s' = series_rows s
  /\ cat_to_str s' = cat_to_str s.
Proof.
  assert (forall s a, chunks s = [a] -> single s a) as Hsingle.
  { intros s0 a Hc. pose proof (chunks_ok s0) as Hok. rewrite Hc in Hok.
    apply Forall_cons in Hok as [[Ha Hl] _]. split_and!; try done.
    rewrite polars_len_rows. unfold series_rows. rewrite Hc. cbn. by rewrite app_nil_r. }
  cbv zeta. destruct (Z.ltb_spec 1 (len (chunks s))) as [Hl|Hl].
  - rewrite rechunk_dtype, rechunk_rows, rechunk_symbols. split_and!; try done.
    destruct (rechunk_one s) as [a Ha]. exists a. by apply Hsingle.
  - split_and!; try done. pose proof (chunks_some s). destruct (chunks s) as [|a [|]] eqn:E; [done| |].
    + exists a. by apply Hsingle.
    + cbn [length] in Hl. lia.
Qed.

Lemma layout_chunks s (P : Array -> Prop) :
  (forall a, array_ok a -> layout (dtype s) a -> P a) -> Forall P (chunks s).
Proof. intros HP. eapply Forall_impl; [apply chunks_ok|]. intros a [? ?]. auto. Qed.

(** The values a temporal series is checked by are its rows. *)
Lemma cast_values_rows s t n :
  physical_type (dtype s) = Some t -> (forall a, layout t a -> array_ok a -> primitive_layout n a) ->
  exists values, cast_values t n s = Ok values /\ series_rows s = map (fmap CellNumber) values.
Proof.
  intros Ht Hn. destruct (cast_physical s t Ht) as (s' & Hc & Hd & <-).
  destruct (accessor_primitive n s') as (chunked & Ha & Hr & _).
  { apply layout_chunks. intros a Hok Hl. rewrite Hd in Hl. by apply Hn. }
  exists (iter chunked). split; [|done]. unfold cast_values. rewrite Hc. cbn [map_err mbind outcome_bind].
  by rewrite Ha.
Qed.

Lemma try_fold_checks {A} (check : unit -> A -> res unit) (P : A -> bool) l :
  (forall a, check tt a = Ok tt <-> P a = true) -> (forall a, check tt a <> Panicked /\ check tt a <> OutOfFuel) ->
  if forallb P l then try_fold check tt l = Ok tt else exists e, try_fold check tt l = Err e.
Proof.
  intros HP Hret. induction l as [|a l IH]; [done|]. cbn [forallb try_fold].
  specialize (HP a). specialize (Hret a). destruct (check tt a) as [[]|e| |]; [|..].
  - rewrite (proj1 HP eq_refl). exact IH.
  - destruct (P a); [by pose proof (proj2 HP eq_refl)|]. by exists e.
  - by destruct Hret.
  - by destruct Hret.
Qed.

(** Rows of numbers with a value the conversion refuses cannot be written. *)
Lemma number_rows_refused t null f values :
  forallb (fun v => bool_decide (f v <> None)) (flatten values) = false ->
  mapM (number_row t (with_null null f)) (map (fmap CellNumber) values) = None.
Proof.
  rewrite mapM_map. induction values as [|[v|] values IH]; cbn; [done| |].
  - destruct (f v) eqn:E; cbn; [|done]. intros Hf. by rewrite IH.
  - intros Hf. by rewrite IH.
Qed.

Lemma forallb_row f values v :
  forallb (fun v => bool_decide (f v <> @None Z)) (flatten values) = true ->
  In (Some (CellNumber v)) (map (fmap CellNumber) values) -> f v <> None.
Proof.
  intros Hf ([w|] & Hw & Hin)%in_map_iff; [|done]. injection Hw as ->.
  rewrite forallb_forall in Hf. specialize (Hf v).
  assert (In v (flatten values)) as Hv.
  { apply list_elem_of_In, list_elem_of_omap. exists (Some v). split; [by apply list_elem_of_In|done]. }
  by apply bool_decide_eq_true_1 in Hf.
Qed.

Lemma validate_q_time_of v : validate_q_time tt v = Ok tt <-> bool_decide (time_of_day v <> None) = true.
Proof.
  unfold validate_q_time, time_of_day, NANOS_PER_DAY. rewrite bool_decide_eq_true.
  destruct (Z.leb_spec 0 v); cbn [andb negb]; [|by split].
  destruct (v <? 86400000000000); cbn [andb negb]; [|by split].
  rewrite Z.rem_mod_nonneg by lia. by destruct (v mod 1000000 =? 0); cbn.
Qed.

Lemma validate_q_time_returns v : validate_q_time tt v <> Panicked /\ validate_q_time tt v <> OutOfFuel.
Proof.
  unfold validate_q_time. destruct (negb _); [done|]. by destruct (negb _).
Qed.

Lemma q_time_of v : time_of_day v <> None -> agrees (q_time v) (time_of_day v).
Proof.
  unfold q_time, time_of_day, NANOS_PER_DAY. destruct (_ && _) eqn:E; [|done]. intros _.
  rewrite Z.quot_div_nonneg by lia. unfold try_i32.
  assert (0 <= v / 1000000 <= 86400000) by (split; [apply Z.div_pos; lia|apply Z.div_le_upper_bound; lia]).
  replace (_ && _) with true by bool_lia. apply agrees_ok.
Qed.

Lemma q_timestamp_of multiplier v : agrees (q_timestamp multiplier v) (timestamp_of multiplier v).
Proof.
  unfold q_timestamp, timestamp_of, scaled, q_timestamp_nanoseconds, i64_checked.
  destruct (in_i64 (v * multiplier)); cbn [ok_or mbind outcome_bind]; [|apply agrees_err].
  destruct (in_i64 (v * multiplier - NANOS_DIFF)) eqn:E.
  - destruct (_ && _); [apply agrees_ok|apply agrees_err].
  - unfold in_i64 in E. replace (_ && _) with false by bool_lia. apply agrees_err.
Qed.

Lemma or_null_agrees null (convert : Z -> res Z) f v :
  (forall x, v = Some x -> agrees (convert x) (f x)) ->
  agrees (or_null null convert v) (with_null null f v).
Proof. destruct v as [x|]; cbn; [auto|intros; apply agrees_ok]. Qed.

Lemma write_times_agree s :
  dtype s = DTime ->
  agrees (_ ← validate_q_time_series s; write_converted I64 I32 (or_null i32_min q_time) s)
    (@concat Z <$> mapM (number_row I32 (with_null i32_min time_of_day)) (series_rows s)).
Proof.
  intros Ht. destruct (cast_values_rows s DInt64 I64) as (values & Hv & Hr); [by rewrite Ht|by split|].
  unfold validate_q_time_series. rewrite Hv. cbn [mbind outcome_bind].
  pose proof (try_fold_checks validate_q_time _ (flatten values) validate_q_time_of validate_q_time_returns) as Hcheck.
  destruct (forallb _ (flatten values)) eqn:E.
  - rewrite Hcheck. cbn [mbind outcome_bind].
    apply (write_converted_agrees I64 I32).
    + apply layout_chunks. intros a Hok Hl. rewrite Ht in Hl. by split.
    + intros v Hin _. apply or_null_agrees. intros x ->. apply q_time_of.
      rewrite Hr in Hin. by eapply forallb_row.
  - destruct Hcheck as [e ->]. rewrite Hr, number_rows_refused by done. apply agrees_err.
Qed.

Lemma tagged_agrees (k : Z) (m : res (list Z)) (rs : list (option Cell)) row :
  agrees m (@concat Z <$> mapM row rs) ->
  agrees (bytes ← m; Ok (k, bytes)) (payload ← mapM row rs; Some (k, concat payload)).
Proof.
  intros Hm. eapply agrees_eq; [apply (agrees_fmap m (@concat Z <$> mapM row rs) (pair k)), Hm|]. by destruct (mapM row rs).
Qed.

Lemma refused_agrees {A B} (m : res A) (f : A -> res B) : agrees m None -> agrees (m ≫= f) None.
Proof. intros Hm b. rewrite bind_Ok. split; [by intros (a & ?%Hm & _)|done]. Qed.

(** A check before a payload. *)
Lemma checked_tagged (k : Z) (check : res unit) (m : res (list Z)) :
  (_ ← check; bytes ← m; Ok (k, bytes)) = (bytes ← (_ ← check; m); Ok (k, bytes)).
Proof. by destruct check. Qed.

(** The type byte and the payload of a series in one chunk. *)
Lemma series_payload_agrees s a :
  single s a ->
  agrees (series_payload s)
    (k_type ← wire_code (dtype s); payload ← mapM (wire_row (cat_to_str s) (dtype s)) (series_rows s);
     Some (k_type, concat payload)).
Proof.
  intros Hs. unfold series_payload.
  assert (forall (P : Array -> Prop), (forall a, array_ok a -> layout (dtype s) a -> P a) -> Forall P (chunks s)) as Hlay
    by (intros; by apply layout_chunks).
  destruct (dtype s) as [| |child|child size| | | | | | | | | |unit| |unit| |] eqn:Ht;
    cbn [wire_code wire_row flat_code flat_row mbind option_bind].
  - destruct Hs as (Hc & Hok & Hl & Hlen). rewrite Ht in Hl. destruct Hl as [n ->].
    unfold series_rows. rewrite Hc in *. cbn [map concat rows] in *. rewrite app_nil_r, length_replicate in *.
    destruct (Z.eqb_spec (polars_len s) 0) as [E|E]; destruct (Z.to_nat n) eqn:En; try lia; apply agrees_ok || apply agrees_err.
  - apply tagged_agrees, write_strings_agrees, Hlay. by intros ? _.
  - pose proof (write_list_agrees s a child Ht Hs) as Hw. destruct (flat_code child); cbn in *.
    + by apply tagged_agrees.
    + by apply refused_agrees.
  - pose proof (write_array_agrees s a child size Ht Hs) as Hw. rewrite Ht in Hw. cbn [wire_code wire_row] in Hw.
    destruct child; cbn [mbind option_bind] in *; try by apply refused_agrees.
    destruct (size <=? i32_max); cbn in *; [by apply tagged_agrees|].
    by apply refused_agrees.
  - apply tagged_agrees, write_boolean_agrees, Hlay. by intros ? _.
  - rewrite checked_tagged. apply tagged_agrees, write_guids_agrees, Hlay. by intros ? _.
  - apply tagged_agrees, write_primitive_agrees, Hlay. by split.
  - apply tagged_agrees, write_primitive_agrees, Hlay. by split.
  - apply tagged_agrees, write_primitive_agrees, Hlay. by split.
  - apply tagged_agrees, write_primitive_agrees, Hlay. by split.
  - apply tagged_agrees, write_primitive_agrees, Hlay. by split.
  - apply tagged_agrees, write_primitive_agrees, Hlay. by split.
  - apply tagged_agrees, write_categorical_agrees, Hlay. by split.
  - assert (Forall (primitive_layout I64) (chunks s)) as Hp by (apply Hlay; by split).
    destruct unit; cbn [mbind option_bind];
      (apply tagged_agrees, (write_converted_agrees I64); [done|]; intros v _ _; [..]).
    + apply or_null_agrees. intros. apply q_timestamp_of.
    + apply or_null_agrees. intros. apply q_timestamp_of.
    + apply agrees_ok.
  - apply tagged_agrees, (write_converted_agrees I32); [apply Hlay; by split|].
    intros v _ _. apply or_null_agrees. intros. apply agrees_ok_or.
  - apply tagged_agrees, (write_converted_agrees I64); [apply Hlay; by split|].
    intros v _ _. apply or_null_agrees. intros. apply agrees_ok_or.
  - rewrite checked_tagged. by apply tagged_agrees, write_times_agree.
  - apply agrees_err.
Qed.

Lemma series_encodes (s : Series) (bytes : list Z) :
  serialize_series_into s = Ok bytes
  <-> wire_series (cat_to_str s) (dtype s) (series_rows s) = Some bytes.
Proof.
  unfold serialize_series_into, wire_series. pose proof (rechunked_single s) as Hs. cbv zeta in Hs |- *.
  destruct Hs as ((a & Hs) & <- & <- & <-). set (s' := if 1 <? len (chunks s) then rechunk s else s) in *.
  pose proof (series_payload_agrees s' a Hs) as Hp.
  rewrite (polars_len_rows s').
  destruct (Z.ltb_spec i32_max (len (series_rows s'))) as [Hl|Hl].
  - replace (_ <=? i32_max) with false by lia. split; [done|].
    destruct (wire_code _); [|done]. cbn. by destruct (mapM _ _).
  - replace (_ <=? i32_max) with true by lia. rewrite bind_Ok.
    destruct (wire_code _) as [k|]; cbn [mbind option_bind] in *.
    + destruct (mapM _ _) as [payload|]; cbn [mbind option_bind] in *.
      * pose proof (proj2 (Hp _) eq_refl) as ->. split; [by intros (? & [= <-] & [= <-])|intros [= <-]; eauto].
      * split; [|done]. by intros (r & Hr%Hp & _).
    + split; [|done]. by intros (r & Hr%Hp & _).
Qed.

(** C25: a series is written exactly as its rows: for every series of every type, in
    however many chunks, with whatever bitmaps and buffers, [serialize_series_into]
    succeeds exactly when q has a list with those rows, and then writes that list, bit
    for bit. *)
Theorem series_written (s : Series) (bytes : list Z) :
  serialize_series_into s = Ok bytes
  <-> wire_series (cat_to_str s) (dtype s) (series_rows s) = Some bytes.
Proof. apply series_encodes. Qed.
End Series.
