(* ===== verification/SeriesSizeSpec.v ===== *)
(** * SeriesSizeSpec: the size announced for a series is the size written, when it is *)

From stdpp Require Import prelude strings.
From Stdlib Require Import ZArith Lia ZifyBool.
From S2P Require Import Prelude Errors Types Utf8 Text Value AnyValue WireText Deserialize SerializeFacts Float64 Arrow Polars SeriesWrite SeriesRead SeriesFacts SymbolSpec SeriesFormat SeriesWriteFacts SeriesWriteSpec.

(** ** Rows of a known width *)

Definition row_sized (row : option Cell -> option (list Z)) (w : Z) : Prop :=
  forall c bytes, row c = Some bytes -> len bytes = w.

Lemma sized_rows row w rs bss :
  row_sized row w -> mapM row rs = Some bss -> len (concat bss) = len rs * w.
Proof.
  intros Hw. revert bss. induction rs as [|c rs IH]; intros bss; cbn; [by intros [= <-]|].
  destruct (row c) as [b|] eqn:E; [|done]. cbn. destruct (mapM row rs) as [bs|]; [|done]. cbn.
  intros [= <-]. cbn [concat]. rewrite length_app. specialize (IH bs eq_refl). apply Hw in E. lia.
Qed.

Lemma number_row_sized t f : row_sized (number_row t f) (wire_width t).
Proof.
  intros c bytes. assert (forall v, len (wire_number t v) = wire_width t) as Hl.
  { intros v. unfold wire_number. rewrite length_to_le. by destruct t. }
  unfold number_row. destruct c as [[]|]; try done; destruct (f _); try done; cbn; intros [= <-]; apply Hl.
Qed.

Lemma boolean_row_sized : row_sized boolean_row 1.
Proof. intros [[]|] out; cbn; try done; by intros [= <-]. Qed.

Lemma guid_row_sized : row_sized guid_row 16.
Proof.
  intros [[| |l|]|] out; cbn; try done; [|by intros [= <-]].
  destruct (Z.eqb_spec (len l) 16); [|done]. by intros [= <-].
Qed.

Lemma flat_row_sized t w : nested_width t = Some w -> row_sized (flat_row t) w.
Proof.
  destruct t; try done; intros [= <-]; try apply number_row_sized. apply boolean_row_sized.
Qed.

Lemma flat_code_of t w : nested_width t = Some w -> exists k, flat_code t = Some k.
Proof. destruct t; try done; intros _; by eexists. Qed.

(** Rows that a layout gives a type can be written when they are flat. *)
Lemma flat_rows_write t a :
  is_Some (flat_code t) -> array_ok a -> layout t a -> Forall (fun c => is_Some (flat_row t c)) (rows a).
Proof.
  intros Hk Hok Hl.
  assert (forall n null, flat_row t = number_row n (with_null null Some) -> primitive_layout n a ->
    Forall (fun c => is_Some (flat_row t c)) (rows a)) as Hnum.
  { intros n null Hrow Hp. destruct (primitive_pick n a Hp) as (vs & v & _ & -> & _). rewrite Hrow, mask_map.
    apply Forall_map, Forall_forall. intros [x|] _; by eexists. }
  destruct t; try (by destruct Hk); cbn [layout] in Hl.
  - destruct Hl as (vs & v & ->). cbn [rows]. rewrite mask_map. apply Forall_map, Forall_forall.
    intros [x|] _; by eexists.
  - by apply (Hnum U8 0).
  - by apply (Hnum I16 (- 2 ^ 15)).
  - by apply (Hnum I32 i32_min).
  - by apply (Hnum I64 i64_min).
  - by apply (Hnum F32 F32_NAN).
  - by apply (Hnum F64 F64_NAN).
Qed.

Lemma mapM_all {A B} (f : A -> option B) l : Forall (fun a => is_Some (f a)) l -> exists bs, mapM f l = Some bs.
Proof. intros Hf. by apply mapM_is_Some_2. Qed.

Lemma Forall_between {A} (P : A -> Prop) l range : Forall P l -> Forall P (between_offsets l range).
Proof. intros. by apply Forall_take, Forall_drop. Qed.

(** ** Sizes of lists *)

Lemma checked_series_size_Ok length w n :
  checked_series_size length w = Ok n <-> 
  i32_min <= length <= i32_max /\ length * w + 6 = n /\ length * w <= usize_max /\ n <= usize_max.
Proof.
  unfold checked_series_size. rewrite bind_Ok. setoid_rewrite checked_q_count_Ok.
  unfold checked_mul, checked_add. split.
  - intros (i & [-> Hi] & Hn%ok_or_Ok). destruct (Z.leb_spec (length * w) usize_max); [|done]. cbn in Hn.
    destruct (Z.leb_spec (length * w + 6) usize_max); [|done]. injection Hn as <-. done.
  - intros (Hi & <- & ? & ?). exists length. split; [done|]. replace (length * w <=? _) with true by lia. cbn.
    by replace (_ <=? _) with true by lia.
Qed.

Lemma checked_nested_size_Ok outer values w n :
  checked_nested_series_size outer values w = Ok n ->
  i32_min <= outer <= i32_max /\ n = values * w + outer * 6 + 6.
Proof.
  unfold checked_nested_series_size. intros (i & [-> Hi]%checked_q_count_Ok & (v & Hv & (h & Hh & Hn)%bind_Ok)%bind_Ok)%bind_Ok.
  unfold checked_mul, checked_add in *. simplify_res.
  destruct (values * w <=? _); [|done]. injection Hv as <-. destruct (outer * 6 <=? _); [|done]. injection Hh as <-.
  destruct (_ <=? _) in Hn; [|done]. cbn in Hn. destruct (_ <=? _) in Hn; [|done]. injection Hn as <-. lia.
Qed.

Lemma series_header_len k n : len (series_header k n) = 6.
Proof. unfold series_header. rewrite length_app, len_i32_to_le. done. Qed.

(** The number of cells of a row, and of all rows. *)
Definition row_cells (c : option Cell) : Z :=
  match c with Some (CellRow cells) => len cells | _ => 0 end.
Definition total_cells (rs : list (option Cell)) : Z := foldr Z.add 0 (map row_cells rs).

Lemma total_cells_app l1 l2 : total_cells (l1 ++ l2) = total_cells l1 + total_cells l2.
Proof. unfold total_cells. induction l1 as [|c l1 IH]; [done|]. cbn. lia. Qed.

(** Rows that are lists: six bytes each, and their cells. *)
Lemma list_rows_size child w rs :
  nested_width child = Some w ->
  Forall (fun c => exists cells, c = Some (CellRow cells) /\ len cells <= i32_max
            /\ Forall (fun c => is_Some (flat_row child c)) cells) rs ->
  exists bss, mapM (list_row child) rs = Some bss /\ len (concat bss) = total_cells rs * w + len rs * 6.
Proof.
  intros Hw. destruct (flat_code_of child w Hw) as [k Hk].
  induction 1 as [|c rs (cells & -> & Hfit & Hcells) _ (bss & Hbss & Hlen)]; [by exists []|].
  destruct (mapM_all _ _ Hcells) as [payload Hp].
  assert (list_row child (Some (CellRow cells)) = Some ([k; 0] ++ i32_to_le (len cells) ++ concat payload)) as Hrow.
  { cbn [list_row]. rewrite Hk, Hp. cbn. unfold sublist. by replace (_ <=? _) with true by lia. }
  exists (([k; 0] ++ i32_to_le (len cells) ++ concat payload) :: bss). cbn [mapM]. rewrite Hrow, Hbss. split; [done|].
  cbn [concat]. rewrite !length_app, len_i32_to_le.
  pose proof (sized_rows _ w _ _ (flat_row_sized child w Hw) Hp) as Hpl. unfold total_cells in *. cbn [map foldr row_cells length].
  lia.
Qed.

(** ** Sizes of symbols *)

Lemma symbol_sizes cat_to_str slots total (rs : list (option Z)) r :
  cache_ok cat_to_str slots ->
  try_fold (fun '(slots, total) category =>
    '(slots, symbol_length) ←
      match category with
      | Some category => '(symbol, slots) ← resolve cat_to_str slots category; Ok (slots, len symbol)
      | None => Ok (slots, 0)
      end;
    total ← add_length total symbol_length;
    total ← add_length total 1;
    Ok (slots, total)) (slots, total) rs = Ok r ->
  exists bss, mapM (fun v => symbol_row cat_to_str (CellNumber <$> v)) rs = Some bss
    /\ r.2 = total + len (concat bss).
Proof.
  revert slots total. induction rs as [|[category|] rs IH]; intros slots total Hok; cbn [try_fold].
  - intros [= <-]. exists []. split; [done|]. cbn. lia.
  - pose proof (resolve_exact cat_to_str slots category Hok) as Hr.
    destruct (symbol_of cat_to_str category) as [symbol| | |] eqn:E; [|by rewrite Hr..].
    destruct Hr as (slots' & -> & Hok'). cbn [mbind outcome_bind].
    intros (st & (l1 & [-> _]%add_length_Ok & (l2 & [-> _]%add_length_Ok & [= <-])%bind_Ok)%bind_Ok & Hrest)%bind_Ok.
    destruct (IH _ _ Hok' Hrest) as (bss & Hbss & ->). apply symbol_of_Ok in E as [Hc Hn].
    exists ((symbol ++ [0]) :: bss). cbn [mapM fmap option_fmap option_map symbol_row].
    rewrite Hc. cbn [mbind option_bind]. rewrite Hn. cbn [mbind option_bind]. rewrite Hbss. split; [done|].
    cbn [concat]. rewrite !length_app. cbn [length]. lia.
  - cbn [mbind outcome_bind].
    intros (st & (l1 & [-> _]%add_length_Ok & (l2 & [-> _]%add_length_Ok & [= <-])%bind_Ok)%bind_Ok & Hrest)%bind_Ok.
    destruct (IH _ _ Hok Hrest) as (bss & Hbss & ->). exists ([0] :: bss).
    cbn [mapM fmap option_fmap option_map symbol_row mbind option_bind]. rewrite Hbss. split; [done|]. cbn [concat].
    rewrite length_app. cbn [length]. lia.
Qed.

(** ** Sizes of strings *)

Lemma string_sizes total (values : list (option (list Z))) n :
  try_fold (fun length (value : list Z) =>
    _ ← checked_q_count (len value); add_length length (len value)) total (flatten values) = Ok n ->
  exists bss, mapM string_row (map (fmap CellBytes) values) = Some bss
    /\ len (concat bss) = n - total + len values * 6.
Proof.
  rewrite mapM_map. revert total. induction values as [|[v|] values IH]; intros total.
  - cbn. intros [= <-]. exists []. split; [done|]. cbn. lia.
  - change (flatten (Some v :: values)) with (v :: flatten values). cbn [try_fold].
    intros (t & (i & [-> Hi]%checked_q_count_Ok & [-> _]%add_length_Ok)%bind_Ok & Hrest)%bind_Ok.
    destruct (IH _ Hrest) as (bss & Hbss & Hlen).
    exists (([10; 0] ++ i32_to_le (len v) ++ v) :: bss). cbn [mapM fmap option_fmap option_map string_row].
    unfold sublist at 1. replace (len v <=? i32_max) with true by lia. cbn [mbind option_bind]. rewrite Hbss.
    split; [done|]. cbn [concat]. rewrite !length_app, len_i32_to_le. cbn [length]. lia.
  - change (flatten (None :: values)) with (flatten values). intros Hrest.
    destruct (IH _ Hrest) as (bss & Hbss & Hlen). exists (([10; 0] ++ i32_to_le 0 ++ []) :: bss).
    cbn [mapM fmap option_fmap option_map string_row]. unfold sublist at 1. cbn [Z.leb Z.compare mbind option_bind i32_max].
    rewrite Hbss. split; [done|]. cbn [concat]. rewrite !length_app, len_i32_to_le. cbn [length]. lia.
Qed.

Section Series.
  Context `{PolarsLaws Series DataFrame}.

(** Every row that is a list fits a q list, and so does the row of an array type. *)
Definition series_fits (s : Series) : Prop :=
  Forall (fun c => row_cells c <= i32_max) (series_rows s)
  /\ match dtype s with DArray _ size => size <= i32_max | _ => True end.

(** A series of [n] bytes: the header and the payload. *)
Definition announced (s : Series) (n : Z) : Prop :=
  exists bytes, wire_series (cat_to_str s) (dtype s) (series_rows s) = Some bytes /\ len bytes = n.

Lemma announce s k bss n :
  wire_code (dtype s) = Some k -> mapM (wire_row (cat_to_str s) (dtype s)) (series_rows s) = Some bss ->
  len (series_rows s) <= i32_max -> n = len (concat bss) + 6 -> announced s n.
Proof.
  intros Hk Hb Hl ->. exists (series_header k (len (series_rows s)) ++ concat bss).
  unfold wire_series. rewrite Hk, Hb. cbn [mbind option_bind]. replace (_ <=? _) with true by lia. split; [done|].
  rewrite length_app. pose proof (series_header_len k (len (series_rows s))). lia.
Qed.

(** A type whose rows all have the same width. *)
Lemma announce_fixed s k w n :
  wire_code (dtype s) = Some k -> row_sized (wire_row (cat_to_str s) (dtype s)) w ->
  Forall (fun c => is_Some (wire_row (cat_to_str s) (dtype s) c)) (series_rows s) ->
  checked_series_size (polars_len s) w = Ok n -> announced s n.
Proof.
  intros Hk Hw Hrows (Hlen & <- & _)%checked_series_size_Ok. rewrite polars_len_rows in *.
  destruct (mapM_all _ _ Hrows) as [bss Hbss]. apply (announce s k bss); [done|done|lia|].
  pose proof (sized_rows _ _ _ _ Hw Hbss). lia.
Qed.

Lemma series_rows_Forall s (P : option Cell -> Prop) :
  (forall a, array_ok a -> layout (dtype s) a -> Forall P (rows a)) -> Forall P (series_rows s).
Proof.
  intros HP. unfold series_rows. apply Forall_concat, Forall_map. eapply Forall_impl; [apply chunks_ok|].
  intros a [? ?]. by apply HP.
Qed.

Lemma announce_flat s w n :
  nested_width (dtype s) = Some w -> wire_code (dtype s) = flat_code (dtype s) ->
  wire_row (cat_to_str s) (dtype s) = flat_row (dtype s) ->
  checked_series_size (polars_len s) w = Ok n -> announced s n.
Proof.
  intros Hw Hc Hr Hn. destruct (flat_code_of _ _ Hw) as [k Hk].
  apply (announce_fixed s k w); [by rewrite Hc|rewrite Hr; by apply flat_row_sized| |done].
  rewrite Hr. apply series_rows_Forall. intros a Ha Hl. apply flat_rows_write; [by rewrite Hk|done|done].
Qed.

(** Temporal series are checked value by value. *)
Lemma announce_numbers s t phys native k null f n :
  wire_code (dtype s) = Some k ->
  wire_row (cat_to_str s) (dtype s) = number_row t (with_null null f) ->
  physical_type (dtype s) = Some phys -> (forall a, layout phys a -> array_ok a -> primitive_layout native a) ->
  (forall values, cast_values phys native s = Ok values ->
     forallb (fun v => bool_decide (f v <> None)) (flatten values) = true) ->
  checked_series_size (polars_len s) (wire_width t) = Ok n -> announced s n.
Proof.
  intros Hk Hr Hp Hn Hcheck Hs. apply (announce_fixed s k (wire_width t)); try done.
  - rewrite Hr. apply number_row_sized.
  - rewrite Hr. destruct (cast_values_rows s phys native Hp Hn) as (values & Hv & ->).
    specialize (Hcheck values Hv). apply Forall_map, Forall_forall. intros [v|] Hin; [|by eexists].
    destruct (f v) as [x|] eqn:E; [exists (wire_number t x); cbn; by rewrite E|].
    rewrite forallb_forall in Hcheck. specialize (Hcheck v). rewrite E in Hcheck. exfalso.
    enough (In v (flatten values)) as Hv' by (apply Hcheck in Hv'; done).
    apply list_elem_of_In, list_elem_of_omap. by exists (Some v).
Qed.

(** ** Lists *)

Lemma total_sublists (cells : list (option Cell)) ranges :
  Forall (fun range : Z * Z => 0 <= range.1 <= range.2 /\ range.2 <= len cells) ranges ->
  total_cells (sublists cells ranges) = foldr Z.add 0 (map (fun range : Z * Z => range.2 - range.1) ranges).
Proof.
  unfold total_cells, sublists. induction 1 as [|range ranges [Hr Hb] _ IH]; [done|]. cbn [map foldr row_cells].
  rewrite length_between by done. by rewrite IH.
Qed.

Lemma len_mask_map {A B} (f : A -> B) validity (l : list A) n :
  len l = n -> validity_ok validity n -> len (mask validity (map f l)) = n.
Proof. intros <- Hv. by rewrite length_mask_map. Qed.

Lemma len_windows offsets n : offsets_ok offsets n -> len (windows offsets) = len offsets - 1.
Proof. intros Ho. pose proof (offsets_some _ _ Ho). rewrite length_windows. lia. Qed.

Lemma len_strides size n : 0 <= n -> len (windows (strides size (Z.to_nat n))) = n.
Proof. intros. rewrite strides_windows, length_map, length_seq. lia. Qed.

Lemma length_rows a : array_ok a -> len (rows a) = array_len a.
Proof.
  destruct a; intros (Hl & Hv & Hrest); cbn [rows array_len array_validity] in *;
    try (apply len_mask_map; [|exact Hv]); try done.
  - rewrite length_replicate. lia.
  - apply len_strides. lia.
  - destruct Hrest as (Ho & _). by eapply len_windows.
  - destruct Hrest as (_ & Ho & _). by eapply len_windows.
  - destruct Hrest as (_ & Ho & _). by eapply len_windows.
  - apply len_strides. lia.
Qed.

(** A chunk of lists without nulls. *)
Lemma list_chunk_rows a child :
  array_ok a -> layout (DList child) a -> null_count a = 0 ->
  exists dt offsets values validity, a = LargeListArray dt offsets values validity
    /\ array_ok values /\ layout child values /\ offsets_ok offsets (array_len values)
    /\ rows a = sublists (rows values) (windows offsets).
Proof.
  intros Hok (dt & offsets & values & validity & -> & Hl) Hn. exists dt, offsets, values, validity.
  destruct Hok as (Hlen & Hv & _ & Ho & Hvals). cbn [array_len array_validity rows] in *.
  split_and!; try done. pose proof (offsets_some _ _ Ho). rewrite mask_some.
  - unfold sublists. by rewrite map_map.
  - rewrite length_map, length_windows. destruct validity; cbn in *; [|done]. lia.
  - exact Hn.
Qed.

Lemma chunk_values_length_Ok total a child t :
  array_ok a -> layout (DList child) a -> null_count a = 0 ->
  chunk_values_length total a = Ok t -> t = total + total_cells (rows a).
Proof.
  intros Ha Hl Hn. destruct (list_chunk_rows a child Ha Hl Hn) as (dt & offsets & values & validity & -> & Hv & _ & Ho & Hr).
  rewrite Hr, total_sublists by (rewrite length_rows by done; by apply offsets_ok_rows).
  rewrite windows_total. unfold chunk_values_length, last_offset. cbn [as_large_list ok_or mbind outcome_bind].
  destruct (head offsets); [|done]. destruct (last offsets); [|done]. cbn [ok_or mbind outcome_bind default].
  unfold i64_sub, i64_checked, try_usize, checked_add. intros Ht. simplify_res.
  repeat match goal with H : (if ?b then _ else _) = Some _ |- _ => destruct b; [|discriminate H] end. simplify_res.
  done.
Qed.

Lemma chunks_total child l acc t :
  Forall (fun a => array_ok a /\ layout (DList child) a) l -> Forall (fun a => null_count a = 0) l ->
  try_fold chunk_values_length acc l = Ok t -> t = acc + total_cells (concat (map rows l)).
Proof.
  intros Hok. revert acc. induction Hok as [|a l [Ha Hl] _ IH]; intros acc Hnull; cbn [try_fold map concat].
  - intros [= <-]. cbn. lia.
  - apply Forall_cons in Hnull as [Hna Hnull]. intros (acc' & Hacc & Hrest)%bind_Ok.
    apply (chunk_values_length_Ok _ _ child) in Hacc as ->; try done. apply IH in Hrest as ->; [|done].
    rewrite total_cells_app. lia.
Qed.

(** No nulls in a column of lists is no nulls in its chunks. *)
Lemma no_null_chunks (l : list Array) :
  Forall (fun a => 0 <= null_count a) l -> foldr Z.add 0 (map null_count l) = 0 ->
  Forall (fun a => null_count a = 0) l.
Proof.
  induction 1 as [|a l Ha Hl IH]; [constructor|]. cbn. intros Hn.
  assert (0 <= foldr Z.add 0 (map null_count l)) by (clear -Hl; induction Hl; cbn; lia).
  constructor; [lia|]. apply IH. lia.
Qed.

Lemma null_count_nonneg a : array_ok a -> 0 <= null_count a.
Proof.
  destruct a; intros (Hl & _); cbn [null_count array_len array_validity] in *; [lia|..];
    (destruct validity; [apply unset_bits_nonneg|lia]).
Qed.

Lemma list_values_total s child t :
  dtype s = DList child -> polars_null_count s = 0 -> list_values_length s = Ok t ->
  t = total_cells (series_rows s).
Proof.
  intros Ht Hn. unfold list_values_length, series_rows.
  rewrite polars_null_count_chunks in Hn. pose proof (chunks_ok s) as Hok. rewrite Ht in Hok.
  assert (Forall (fun a => null_count a = 0) (chunks s)) as Hnull.
  { apply no_null_chunks; [|done]. eapply Forall_impl; [exact Hok|]. intros a [? _]. by apply null_count_nonneg. }
  rewrite <- (Z.add_0_l (total_cells _)). by apply (chunks_total child).
Qed.

(** The rows of a column of lists without nulls. *)
Lemma list_rows_cells s child :
  dtype s = DList child -> polars_null_count s = 0 -> is_Some (flat_code child) ->
  Forall (fun c => exists cells, c = Some (CellRow cells)
            /\ Forall (fun c => is_Some (flat_row child c)) cells) (series_rows s).
Proof.
  intros Ht Hn Hk. rewrite polars_null_count_chunks in Hn.
  assert (Forall (fun a => null_count a = 0) (chunks s)) as Hnull.
  { apply no_null_chunks; [|done]. eapply Forall_impl; [apply chunks_ok|]. intros a [? _]. by apply null_count_nonneg. }
  unfold series_rows. apply Forall_concat, Forall_map.
  pose proof (chunks_ok s) as Hok. rewrite Ht in Hok. rewrite Forall_forall in *.
  intros a Hin. destruct (Hok a Hin) as [Ha Hl].
  destruct (list_chunk_rows a child Ha Hl (Hnull a Hin)) as (dt & o & values & v & -> & Hv & Hc & _ & ->).
  unfold sublists. apply Forall_map, Forall_forall. intros range _. eexists. split; [done|].
  apply Forall_between. by apply flat_rows_write.
Qed.

(** The rows of an array column without nulls. *)
Lemma array_rows_cells s size :
  dtype s = DArray DBoolean size -> polars_null_count s = 0 ->
  Forall (fun c => exists cells, c = Some (CellRow cells) /\ len cells = size
            /\ Forall (fun c => is_Some (boolean_row c)) cells) (series_rows s).
Proof.
  intros Ht Hn. rewrite polars_null_count_chunks in Hn.
  assert (Forall (fun a => null_count a = 0) (chunks s)) as Hnull.
  { apply no_null_chunks; [|done]. eapply Forall_impl; [apply chunks_ok|]. intros a [? _]. by apply null_count_nonneg. }
  unfold series_rows. apply Forall_concat, Forall_map.
  pose proof (chunks_ok s) as Hok. rewrite Ht in Hok. rewrite Forall_forall in *.
  intros a Hin. destruct (Hok a Hin) as [Ha (dt & n & values & validity & -> & Hl)].
  specialize (Hnull _ Hin). destruct Ha as (Hlen & Hv & _ & Hsize & Hvals & Hvok).
  cbn [array_len array_validity null_count rows] in *.
  rewrite mask_some; [|rewrite length_map, len_strides by lia; exact Hv|exact Hnull].
  rewrite map_map, strides_windows, map_map. apply Forall_map, Forall_forall.
  intros i [_ Hi]%list_elem_of_In%in_seq. eexists. split; [done|]. split.
  - rewrite length_between by (cbn [fst snd]; rewrite ?length_rows by done; nia). cbn [fst snd]. lia.
  - apply Forall_between. apply (flat_rows_write DBoolean); [by eexists|done|done].
Qed.

Lemma announce_list s child n :
  dtype s = DList child -> series_fits s -> list_series_len s child = Ok n -> announced s n.
Proof.
  intros Ht [Hfit _]. unfold list_series_len. intros Hn. apply if_Err_Ok in Hn as [Hnull Hn].
  apply bind_Ok in Hn as (t & Htot & (w & Hw%ok_or_Ok & Hn)%bind_Ok).
  assert (polars_null_count s = 0) as Hnull0.
  { enough (0 <= polars_null_count s) by lia. rewrite polars_null_count_chunks. pose proof (chunks_ok s) as Hok.
    induction Hok as [|a l [Ha _] _ IH]; cbn; [lia|]. pose proof (null_count_nonneg a Ha). lia. }
  pose proof (list_values_total s child t Ht Hnull0 Htot) as ->.
  apply checked_nested_size_Ok in Hn as (Hlen & ->). rewrite polars_len_rows in *.
  destruct (flat_code_of child w Hw) as [k Hk].
  destruct (list_rows_size child w (series_rows s) Hw) as (bss & Hbss & Hsize).
  { pose proof (list_rows_cells s child Ht Hnull0 ltac:(by rewrite Hk)) as Hcells.
    rewrite Forall_forall in *. intros c Hc. destruct (Hcells c Hc) as (cells & -> & Hf).
    specialize (Hfit _ Hc). by exists cells. }
  apply (announce s 0 bss); [by rewrite Ht; cbn; rewrite Hk|by rewrite Ht|lia|lia].
Qed.

Lemma announce_array s child size n :
  dtype s = DArray child size -> series_fits s -> array_series_len s child size = Ok n -> announced s n.
Proof.
  intros Ht [_ Hfit]. rewrite Ht in Hfit. unfold array_series_len. intros Hn.
  apply if_Err_Ok in Hn as [Hsize Hn]. apply if_Err_Ok in Hn as [Hnull Hn].
  destruct child; try discriminate Hn. apply bind_Ok in Hn as (values & Hv%ok_or_Ok & Hn).
  assert (polars_null_count s = 0) as Hnull0.
  { enough (0 <= polars_null_count s) by lia. rewrite polars_null_count_chunks. pose proof (chunks_ok s) as Hok.
    induction Hok as [|a l [Ha _] _ IH]; cbn; [lia|]. pose proof (null_count_nonneg a Ha). lia. }
  unfold checked_mul in Hv. destruct (_ <=? _) in Hv; [|done]. injection Hv as <-.
  apply checked_nested_size_Ok in Hn as (Hlen & ->). rewrite polars_len_rows in *.
  pose proof (array_rows_cells s size Ht Hnull0) as Hcells.
  destruct (list_rows_size DBoolean 1 (series_rows s) eq_refl) as (bss & Hbss & Hbl).
  { eapply Forall_impl; [exact Hcells|]. intros c (cells & -> & Hl & Hf). exists cells. split_and!; [done|lia|done]. }
  assert (total_cells (series_rows s) = len (series_rows s) * size) as Htotal.
  { clear -Hcells. unfold total_cells. induction Hcells as [|c rs (cells & -> & Hl & _) _ IH]; [done|].
    cbn [map foldr row_cells length]. lia. }
  apply (announce s 0 bss); [|by rewrite Ht|lia|lia].
  rewrite Ht. cbn. by replace (size <=? _) with true by lia.
Qed.

(** Values none of which a conversion refuses. *)
Lemma none_refused (f : Z -> option Z) l :
  existsb (fun v => bool_decide (f v = None)) l = false -> forallb (fun v => bool_decide (f v <> None)) l = true.
Proof.
  induction l as [|v l IH]; [done|]. cbn. intros [Hv Hl]%orb_false_elim. rewrite IH by done.
  apply bool_decide_eq_false in Hv. by rewrite bool_decide_eq_true_2.
Qed.

Lemma validate_timestamp_of multiplier v :
  validate_q_timestamp multiplier tt v = Ok tt <-> bool_decide (timestamp_of multiplier v <> None) = true.
Proof.
  unfold validate_q_timestamp, timestamp_of, scaled, i64_checked. rewrite bool_decide_eq_true.
  destruct (in_i64 (v * multiplier)); cbn; [|by split]. destruct (in_i64 (v * multiplier - NANOS_DIFF)) eqn:E; cbn.
  - destruct (_ && _); cbn; by split.
  - unfold in_i64 in E. replace (_ && _) with false by bool_lia. by split.
Qed.

Lemma validate_timestamp_returns multiplier v :
  validate_q_timestamp multiplier tt v <> Panicked /\ validate_q_timestamp multiplier tt v <> OutOfFuel.
Proof.
  unfold validate_q_timestamp. match goal with |- context [ok_or ?o _] => destruct o end; done.
Qed.

Lemma announce_datetimes s unit n :
  dtype s = DDatetime unit -> datetime_series_len s unit = Ok n -> announced s n.
Proof.
  intros Ht. unfold datetime_series_len. intros ([] & Hc & Hn)%bind_Ok.
  assert (forall m, (values ← cast_values DInt64 I64 s; try_fold (validate_q_timestamp m) tt (flatten values)) = Ok tt ->
    wire_row (cat_to_str s) (dtype s) = number_row I64 (with_null i64_min (timestamp_of m)) ->
    wire_code (dtype s) = Some 12 -> announced s n) as Htimestamps.
  { intros m (values & Hv & Hf)%bind_Ok Hr Hk.
    apply (announce_numbers s I64 DInt64 I64 12 i64_min (timestamp_of m)); rewrite ?Ht; rewrite ?Ht in Hr, Hk; try done.
    intros values' Hv'. rewrite Hv in Hv'. injection Hv' as <-.
    pose proof (try_fold_checks _ _ (flatten values) (validate_timestamp_of m) (validate_timestamp_returns m)) as Hchecks.
    destruct (forallb _ _); [done|]. destruct Hchecks. congruence. }
  destruct unit.
  - apply (Htimestamps 1); by rewrite ?Ht.
  - apply (Htimestamps 1000); by rewrite ?Ht.
  - apply (announce_fixed s 15 8); rewrite ?Ht; [done|apply number_row_sized| |done].
    destruct (accessor_primitive I64 s) as (chunked & _ & Hr & _).
    { apply layout_chunks. intros a Hok Hl. rewrite Ht in Hl. by split. }
    rewrite Hr. apply Forall_map, Forall_forall. intros [v|] _; by eexists.
Qed.

(** The size that is announced for a series is the size of the list its rows make. *)
Lemma size_announced s n : series_fits s -> get_series_len s = Ok n -> announced s n.
Proof.
  intros Hfit. unfold get_series_len.
  destruct (dtype s) as [| |child|child size| | | | | | | | | |unit| |unit| |] eqn:Ht; intros Hn.
  - destruct (Z.eqb_spec (polars_len s) 0) as [E|]; [|done].
    apply (announce_fixed s 0 0); rewrite ?Ht; try done.
    rewrite polars_len_rows in E. by destruct (series_rows s).
  - unfold string_series_len in Hn. destruct (accessor_utf8_view s) as (chunked & Ha & Hr).
    { apply layout_chunks. intros a _ Hl. by rewrite Ht in Hl. }
    rewrite Ha in Hn. cbn [mbind outcome_bind] in Hn. apply bind_Ok in Hn as (b & Hb & Hn).
    apply checked_nested_size_Ok in Hn as (Hlen & ->). apply string_sizes in Hb as (bss & Hbss & Hbl).
    rewrite polars_len_rows, Hr, length_map in *.
    apply (announce s 0 bss); rewrite ?Ht, ?Hr, ?length_map; [done|done|lia|lia].
  - by eapply announce_list.
  - by eapply announce_array.
  - apply (announce_flat s 1); by rewrite ?Ht.
  - apply bind_Ok in Hn as ([] & Hv & Hn). unfold validate_guid_series in Hv.
    destruct (accessor_binary_view s) as (chunked & Ha & Hr).
    { apply layout_chunks. intros a _ Hl. by rewrite Ht in Hl. }
    rewrite Ha in Hv. cbn [mbind outcome_bind] in Hv. apply if_Err_Ok in Hv as [Hv _].
    apply (announce_fixed s 2 16); rewrite ?Ht; [done|apply guid_row_sized| |done].
    cbn [wire_row]. rewrite Hr. apply guid_rows_valid in Hv. unfold payload_of in Hv.
    destruct (mapM guid_row _) as [bss|] eqn:E; [|done]. by apply mapM_is_Some_1.
  - apply (announce_flat s 1); by rewrite ?Ht.
  - apply (announce_flat s 2); by rewrite ?Ht.
  - apply (announce_flat s 4); by rewrite ?Ht.
  - apply (announce_flat s 8); by rewrite ?Ht.
  - apply (announce_flat s 4); by rewrite ?Ht.
  - apply (announce_flat s 8); by rewrite ?Ht.
  - unfold categorical_series_len in Hn. destruct (accessor_primitive U32 s) as (chunked & Ha & Hr & _).
    { apply layout_chunks. intros a Hok Hl. rewrite Ht in Hl. by split. }
    rewrite Ha in Hn. cbn [mbind outcome_bind] in Hn. apply bind_Ok in Hn as (i & [-> Hlen]%checked_q_count_Ok & Hn).
    apply bind_Ok in Hn as ([slots total] & Hn & [= <-]). rewrite for_each_category_rows in Hn.
    apply symbol_sizes in Hn as (bss & Hbss & Hbl); [|apply new_cache_ok]. cbn [snd] in Hbl.
    rewrite polars_len_rows, Hr, length_map in *.
    apply (announce s 11 bss); rewrite ?Ht, ?Hr, ?length_map; [done|by rewrite mapM_map|lia|lia].
  - by eapply announce_datetimes.
  - unfold date_series_len in Hn. apply bind_Ok in Hn as (values & Hv & Hn). apply if_Err_Ok in Hn as [Hc Hn].
    apply (announce_numbers s I32 DInt32 I32 14 i32_min (fun v => i32_checked (v - 10957))); rewrite ?Ht; try done.
    intros values' Hv'. rewrite Hv in Hv'. injection Hv' as <-. by apply none_refused.
  - unfold duration_series_len in Hn. apply bind_Ok in Hn as (values & Hv & Hn). apply if_Err_Ok in Hn as [Hc Hn].
    apply (announce_numbers s I64 DInt64 I64 16 i64_min (fun v => i64_checked (v * time_unit_multiplier unit)));
      rewrite ?Ht; try done.
    intros values' Hv'. rewrite Hv in Hv'. injection Hv' as <-. by apply none_refused.
  - apply bind_Ok in Hn as ([] & Hc & Hn). unfold validate_q_time_series in Hc. apply bind_Ok in Hc as (values & Hv & Hc).
    apply (announce_numbers s I32 DInt64 I64 19 i32_min time_of_day); rewrite ?Ht; try done.
    intros values' Hv'. rewrite Hv in Hv'. injection Hv' as <-.
    pose proof (try_fold_checks validate_q_time _ (flatten values) validate_q_time_of validate_q_time_returns) as Hf.
    destruct (forallb _ _); [done|]. destruct Hf. congruence.
  - done.
Qed.

(** A row that the format has is no longer than a q list. *)
Lemma row_fits cats t c bytes : wire_row cats t c = Some bytes -> row_cells c <= i32_max.
Proof.
  assert (0 <= i32_max) as Hmax by done. destruct c as [[| | |cells]|]; try done.
  assert (forall child, list_row child (Some (CellRow cells)) = Some bytes -> len cells <= i32_max) as Hlist.
  { intros child Hrow. cbn [list_row] in Hrow. destruct (flat_code child); [|done]. cbn [mbind option_bind] in Hrow.
    destruct (mapM _ _); [|done]. cbn [mbind option_bind] in Hrow. unfold sublist in Hrow.
    by destruct (Z.leb_spec (len cells) i32_max). }
  destruct t as [| | child | [] | | | | | | | | | | [] | | | |]; try done; apply Hlist.
Qed.

Lemma written_fits s bytes : serialize_series_into s = Ok bytes -> series_fits s.
Proof.
  intros Hb%series_encodes. unfold wire_series in Hb. destruct (wire_code (dtype s)) as [k|] eqn:Hk; [|done].
  cbn [mbind option_bind] in Hb. destruct (mapM _ _) as [bss|] eqn:Hbss; [|done]. split.
  - apply mapM_Some in Hbss. clear -Hbss. induction Hbss as [|c bs rs bss Hc _ IH]; constructor; [|done].
    by eapply row_fits.
  - destruct (dtype s) as [| | |child size| | | | | | | | | | | | | |]; try done. cbn [wire_code] in Hk.
    destruct child; try done. by destruct (Z.leb_spec size i32_max).
Qed.

(** C32: the size computed for a series is the size it is written in.  When
    [get_series_len] accepts a series, [serialize_series_into] succeeds exactly if every
    row of a list column is short enough for a q list ([series_fits], which sizing does
    not check), and what it appends then has exactly the announced length.  So a frame
    reserved by size is never over- or underfilled by a column. *)
Theorem series_sized (s : Series) (n : Z) :
  get_series_len s = Ok n ->
  (is_ok (serialize_series_into s) = true <-> series_fits s)
  /\ (forall bytes, serialize_series_into s = Ok bytes -> len bytes = n).
Proof.
  intros Hn. assert (series_fits s -> exists bytes, serialize_series_into s = Ok bytes /\ len bytes = n) as Hsize.
  { intros Hfit. destruct (size_announced s n Hfit Hn) as (bytes & Hb & Hl). exists bytes.
    split; [by apply series_encodes|done]. }
  split.
  - split; [|by intros (bytes & -> & _)%Hsize]. intros Hok.
    destruct (serialize_series_into s) as [bytes| | |] eqn:E; try done. by eapply written_fits.
  - intros bytes Hb. destruct (Hsize (written_fits s bytes Hb)) as (bytes' & Hb' & Hl). congruence.
Qed.
End Series.
