(* ===== verification/NestedCharSpec.v ===== *)
(** * NestedCharSpec: one validation covers every row of a char list *)

From stdpp Require Import prelude strings.
From Stdlib Require Import ZArith Lia ZifyBool.
From S2P Require Import Prelude Errors Types Utf8 Value AnyValue WireText Deserialize Arrow Polars SeriesRead SeriesFacts Sample.

(** Boundaries that cut [n] bytes into rows. *)
Record boundaries_ok (boundaries : list Z) (n : Z) : Prop := {
  from_start : head boundaries = Some 0;
  in_order : Forall (fun range : Z * Z => range.1 <= range.2) (windows boundaries);
  to_end : last_offset boundaries = n
}.

Definition char_rows_of (values boundaries : list Z) : list (list Z) :=
  map (between_offsets values) (windows boundaries).

Lemma ordered_last (b : Z) rest :
  Forall (fun range : Z * Z => range.1 <= range.2) (windows (b :: rest)) -> b <= last_offset (b :: rest).
Proof.
  revert b. induction rest as [|c rest IH]; intros b Hw; [unfold last_offset; cbn; lia|].
  rewrite windows_cons in Hw. apply Forall_cons in Hw as [Hbc Hw]. cbn in Hbc. apply IH in Hw.
  change (last_offset (b :: c :: rest)) with (last_offset (c :: rest)). lia.
Qed.

(** The rows from a boundary on are the bytes from there on. *)
Lemma rows_suffix (values : list Z) b rest :
  0 <= b -> Forall (fun range : Z * Z => range.1 <= range.2) (windows (b :: rest)) ->
  last_offset (b :: rest) = len values ->
  concat (char_rows_of values (b :: rest)) = drop (Z.to_nat b) values.
Proof.
  revert b. induction rest as [|c rest IH]; intros b Hb Hw Hl.
  - cbn in Hl. cbn. symmetry. apply drop_ge. unfold last_offset in Hl. cbn in Hl. lia.
  - unfold char_rows_of. rewrite windows_cons in *. apply Forall_cons in Hw as [Hbc Hw]. cbn [fst snd] in Hbc.
    change (last_offset (b :: c :: rest)) with (last_offset (c :: rest)) in Hl.
    cbn [map concat]. fold (char_rows_of values (c :: rest)). rewrite IH by (done || lia).
    unfold between_offsets. cbn [fst snd].
    replace (drop (Z.to_nat c) values) with (drop (Z.to_nat (c - b)) (drop (Z.to_nat b) values))
      by (rewrite drop_drop; f_equal; lia).
    apply take_drop.
Qed.

(** Every row starts where a text may be cut. *)
Lemma validate_boundaries (values : list Z) ranges :
  bytes_ok values -> Forall (fun range : Z * Z => 0 <= range.1) ranges ->
  match try_fold (validate_boundary values) tt ranges with
  | Ok _ => Forall (fun range : Z * Z => starts_here (drop (Z.to_nat range.1) values)) ranges
  | Err _ => ~ Forall (fun range : Z * Z => starts_here (drop (Z.to_nat range.1) values)) ranges
  | _ => False
  end.
Proof.
  intros Hbytes. induction 1 as [|[s e] ranges Hs _ IH]; [constructor|]. cbn [try_fold fst] in *.
  unfold validate_boundary at 2. cbn [fst].
  assert (starts_here (drop (Z.to_nat s) values) ->
    match try_fold (validate_boundary values) tt ranges with
    | Ok _ => Forall (fun range : Z * Z => starts_here (drop (Z.to_nat range.1) values)) ((s, e) :: ranges)
    | Err _ => ~ Forall (fun range : Z * Z => starts_here (drop (Z.to_nat range.1) values)) ((s, e) :: ranges)
    | _ => False
    end) as Hgo.
  { intros Hstart. destruct (try_fold _ _ ranges); try done; [by constructor|].
    by intros [_ ?]%Forall_cons. }
  destruct (Z.ltb_spec s (len values)) as [Hlt|Hge].
  - destruct (get_at_is_Some values s) as [b Hb]; [lia|]. rewrite Hb. cbn [or_panic mbind outcome_bind].
    pose proof (get_at_Forall _ _ _ _ Hbytes Hb) as Hbyte. rewrite continuation_bits by done.
    assert (exists rest, drop (Z.to_nat s) values = b :: rest) as [rest Hd].
    { apply get_at_Some in Hb as [_ Hb]. exists (drop (S (Z.to_nat s)) values). by apply drop_S. }
    destruct (is_continuation b) eqn:Hc; cbn [mbind outcome_bind].
    + intros [Hstart _]%Forall_cons. cbn [fst] in Hstart. rewrite Hd in Hstart. cbn in Hstart. congruence.
    + apply Hgo. by rewrite Hd.
  - cbn [mbind outcome_bind]. apply Hgo. by rewrite drop_ge by lia.
Qed.

Section Exact.
  Context (values : list Z) (Hbytes : bytes_ok values).

(** Rows that are texts start where a text may be cut, and make a text. *)
Lemma rows_valid b rest :
  0 <= b -> Forall (fun range : Z * Z => range.1 <= range.2) (windows (b :: rest)) ->
  last_offset (b :: rest) = len values ->
  Forall (fun row => is_utf8 row = true) (char_rows_of values (b :: rest)) ->
  is_utf8 (drop (Z.to_nat b) values) = true
  /\ Forall (fun range : Z * Z => starts_here (drop (Z.to_nat range.1) values)) (windows (b :: rest)).
Proof.
  intros Hb Hw Hl Hrows. assert (is_utf8 (drop (Z.to_nat b) values) = true) as Hdrop.
  { rewrite <- (rows_suffix values b rest) by done. by apply concat_utf8. }
  split; [done|]. revert b Hb Hw Hl Hrows Hdrop. induction rest as [|c rest IH]; intros b Hb Hw Hl Hrows Hdrop;
    [constructor|].
  unfold char_rows_of in *. rewrite windows_cons in *. cbn [map] in Hrows.
  apply Forall_cons in Hw as [Hbc Hw], Hrows as [Hrow Hrows]. cbn [fst snd] in *.
  change (last_offset (b :: c :: rest)) with (last_offset (c :: rest)) in Hl.
  constructor; [by apply is_utf8_starts|]. apply IH; try done; [lia|].
  rewrite <- (rows_suffix values c rest) by (done || lia). by apply concat_utf8.
Qed.

(** Rows that start where a text may be cut are texts. *)
Lemma starts_valid b rest :
  0 <= b -> Forall (fun range : Z * Z => range.1 <= range.2) (windows (b :: rest)) ->
  last_offset (b :: rest) = len values -> is_utf8 (drop (Z.to_nat b) values) = true ->
  Forall (fun range : Z * Z => starts_here (drop (Z.to_nat range.1) values)) (windows (b :: rest)) ->
  Forall (fun row => is_utf8 row = true) (char_rows_of values (b :: rest)).
Proof.
  revert b. induction rest as [|c rest IH]; intros b Hb Hw Hl Hdrop Hstarts; [constructor|].
  unfold char_rows_of in *. rewrite windows_cons in *. cbn [map].
  apply Forall_cons in Hw as [Hbc Hw], Hstarts as [Hstart Hstarts]. cbn [fst snd] in *.
  change (last_offset (b :: c :: rest)) with (last_offset (c :: rest)) in Hl.
  assert (starts_here (drop (Z.to_nat c) values)) as Hc.
  { destruct rest as [|d rest].
    - unfold last_offset in Hl. cbn in Hl. by rewrite drop_ge by lia.
    - rewrite windows_cons in Hstarts. by apply Forall_cons in Hstarts as [? _]. }
  assert (drop (Z.to_nat b) values = between_offsets values (b, c) ++ drop (Z.to_nat c) values) as Hsplit.
  { unfold between_offsets. cbn [fst snd].
    replace (drop (Z.to_nat c) values) with (drop (Z.to_nat (c - b)) (drop (Z.to_nat b) values))
      by (rewrite drop_drop; f_equal; lia).
    by rewrite take_drop. }
  rewrite Hsplit in Hdrop. apply is_utf8_split in Hdrop as [Hrow Hrest]; [|done].
  constructor; [done|]. apply IH; [lia|done..].
Qed.

Lemma validate_nested_exact boundaries :
  boundaries_ok boundaries (len values) ->
  match validate_nested_char values boundaries with
  | Ok _ => Forall (fun row => is_utf8 row = true) (char_rows_of values boundaries)
  | Err _ => ~ Forall (fun row => is_utf8 row = true) (char_rows_of values boundaries)
  | _ => False
  end.
Proof.
  intros [H0 Hw Hl]. destruct boundaries as [|b rest]; [done|]. cbn in H0. injection H0 as ->.
  unfold validate_nested_char.
  assert (Forall (fun range : Z * Z => 0 <= range.1) (windows (0 :: rest))) as Hnn.
  { pose proof (offsets_ok_rows (0 :: rest) (len values)) as Ho.
    eapply Forall_impl; [apply Ho|]; [|by intros r [[? _] _]]. split_and!; [by exists 0|done|lia]. }
  pose proof (validate_boundaries values (windows (0 :: rest)) Hbytes Hnn) as Hv.
  destruct (is_utf8 values) eqn:E; cbn [negb].
  - destruct (try_fold _ _ _); try done.
    + by apply starts_valid.
    + intros Hrows. apply Hv. by apply rows_valid.
  - intros Hrows. apply rows_valid in Hrows as [Hd _]; [|done..].
    change (drop (Z.to_nat 0) values) with values in Hd. congruence.
Qed.
End Exact.

(** One validation covers every row of a nested char list: when the boundaries cut
    the payload into rows, [validate_nested_char] accepts exactly when each row on its
    own is valid UTF-8, although it validates the payload once as a whole and only looks
    at one byte of each row. *)
Theorem nested_char_validated (values boundaries : list Z) :
  bytes_ok values -> boundaries_ok boundaries (len values) ->
  validate_nested_char values boundaries = Ok tt
  <-> Forall (fun row => is_utf8 row = true) (char_rows_of values boundaries).
Proof.
  intros Hb Ho. pose proof (validate_nested_exact values Hb boundaries Ho) as Hv.
  destruct (validate_nested_char values boundaries) as [[]| | |]; by split.
Qed.

(** Two rows that split an e-acute, and the same bytes as one row. *)
Lemma nested_char_validated_witness :
  validate_nested_char [97; 195; 169] [0; 1; 3] = Ok tt
  /\ validate_nested_char [97; 195; 169] [0; 2; 3] <> Ok tt
  /\ Forall (fun row => is_utf8 row = true) (char_rows_of [97; 195; 169] [0; 1; 3]).
Proof.
  assert (bytes_ok [97; 195; 169]) as Hb by (repeat constructor; done).
  assert (boundaries_ok [0; 1; 3] (len [97; 195; 169])) as Ho by (split; [done|repeat constructor; done|done]).
  assert (validate_nested_char [97; 195; 169] [0; 1; 3] = Ok tt) as Hv by (vm_compute; reflexivity).
  split_and!; [exact Hv|vm_compute; discriminate|].
  exact (proj1 (nested_char_validated [97; 195; 169] [0; 1; 3] Hb Ho) Hv).
Defined.
