(* ===== verification/SeriesReadFacts.v ===== *)
(** * SeriesReadFacts: the arrays of flat lists are well formed, and symbol lists are read,
    as strings and as categories *)

From stdpp Require Import prelude strings gmap.
From Stdlib Require Import ZArith Lia ZifyBool.
From S2P Require Import Prelude Errors Utf8 Types QValue Compress Framing ListScan ListScanSpec Text Value AnyValue WireText Float64 Deserialize Arrow Polars SeriesRead SeriesFacts SymbolSpec SeriesWriteFacts SeriesWriteSpec.

(** ** Numbers *)

Lemma wire_width_pos t : 0 < wire_width t.
Proof. by destruct t. Qed.

Lemma length_wire_number t v : length (wire_number t v) = Z.to_nat (wire_width t).
Proof. apply length_to_le. Qed.

Lemma from_le_chunk_range t chunk :
  bytes_ok chunk -> len chunk = wire_width t -> in_native t (from_le_chunk t chunk).
Proof.
  intros Hb Hl. pose proof (from_le_bound chunk Hb) as Hr. rewrite Hl in Hr.
  unfold from_le_chunk, signed. destruct t; cbn [is_signed wire_width in_native] in *;
    unfold is_byte; try case_match; bool_lia.
Qed.

Lemma from_wire_number t v : in_native t v -> from_le_chunk t (wire_number t v) = v.
Proof.
  intros Hv. unfold from_le_chunk, wire_number. rewrite from_to_le.
  replace (8 * Z.of_nat (Z.to_nat (wire_width t))) with (8 * wire_width t) by (by destruct t).
  assert (unsigned (8 * wire_width t) v mod 2 ^ (8 * wire_width t) = unsigned (8 * wire_width t) v) as ->.
  { unfold unsigned. by rewrite Z.mod_mod by (destruct t; cbn; lia). }
  destruct t; cbn [is_signed wire_width in_native] in *; try (apply signed_unsigned; bool_lia);
    unfold unsigned, is_byte in *; apply Z.mod_small; bool_lia.
Qed.

Lemma chunks_exact_shape n w bytes :
  (length bytes = n * w)%nat -> length (chunks_exact n w bytes) = n
  /\ Forall (fun c => length c = w) (chunks_exact n w bytes)
  /\ (bytes_ok bytes -> Forall (fun c => bytes_ok c) (chunks_exact n w bytes)).
Proof.
  revert bytes. induction n as [|n IH]; intros bytes Hl; [by split_and!; [|constructor|constructor]|].
  destruct (IH (drop w bytes)) as (Hlen & Hw & Hb); [rewrite length_drop; lia|].
  cbn [chunks_exact length]. split_and!; [lia| |].
  - constructor; [rewrite length_take; lia|done].
  - intros Hbytes. constructor; [by apply Forall_take|]. by apply Hb, Forall_drop.
Qed.

(** A payload of [n] numbers. *)
Lemma wire_values_shape t bytes n :
  len bytes = n * wire_width t -> bytes_ok bytes ->
  len (wire_values t bytes) = n /\ Forall (in_native t) (wire_values t bytes).
Proof.
  intros Hl Hb. pose proof (wire_width_pos t). assert (0 <= n) by nia.
  assert (len bytes / wire_width t = n) as Hd by (rewrite Hl; apply Z.div_mul; lia).
  unfold wire_values. rewrite Hd.
  destruct (chunks_exact_shape (Z.to_nat n) (Z.to_nat (wire_width t)) bytes) as (Hlen & Hw & Hbs); [lia|].
  rewrite length_map. split; [lia|]. apply Forall_map. specialize (Hbs Hb).
  rewrite Forall_forall in *. intros c Hc. apply from_le_chunk_range; [by apply Hbs|].
  rewrite (Hw c Hc). lia.
Qed.

Lemma wire_values_numbers t values :
  Forall (in_native t) values -> wire_values t (flat_map (wire_number t) values) = values.
Proof.
  intros Hv. unfold wire_values. pose proof (wire_width_pos t).
  assert (len (flat_map (wire_number t) values) = len values * wire_width t) as Hl.
  { clear Hv. induction values as [|v l IH]; [done|]. cbn [flat_map]. rewrite length_app, length_wire_number.
    cbn [length]. lia. }
  rewrite Hl, Z.div_mul, Nat2Z.id by lia. clear Hl.
  induction Hv as [|v l Hv _ IH]; [done|]. cbn [length chunks_exact flat_map map].
  rewrite take_app_length', drop_app_length' by (by rewrite length_wire_number).
  by rewrite from_wire_number, IH.
Qed.

(** ** Building blocks *)

Section Blocks.
  Context `{Allocator}.

Lemma reserve_ok {E} n (f : string -> E) : ok_with (reserve n f) (fun _ => True).
Proof. unfold reserve. destruct (try_reserve n); [by apply ok_with_ret|done]. Qed.

Lemma try_vec_ok n c : ok_with (try_vec_with_capacity n c) (fun _ => True).
Proof. apply reserve_ok. Qed.

Lemma decode_wire_numbers_ok t bytes context :
  ok_with (decode_wire_numbers t bytes context) (fun values => values = wire_values t bytes).
Proof.
  unfold decode_wire_numbers. apply ok_with_guard. intros _.
  eapply ok_with_bind; [apply reserve_ok|]. intros _ _. by apply ok_with_ret.
Qed.

Lemma try_bitmap_ok bits context : ok_with (try_bitmap bits context) (fun b => b = bits).
Proof.
  unfold try_bitmap. eapply ok_with_bind; [apply try_vec_ok|]. intros _ _. by apply ok_with_ret.
Qed.

(** The bitmap masks what its bits mask, also when it is left out. *)
Lemma optional_validity_ok bits context :
  ok_with (optional_validity bits context) (fun v => validity_ok v (len bits)
    /\ forall (l : list Z), len bits = len l -> mask v (map CellNumber l) = mask (Some bits) (map CellNumber l)).
Proof.
  unfold optional_validity. eapply ok_with_bind; [apply try_bitmap_ok|]. cbv beta. intros b ->.
  apply ok_with_ret. destruct (Z.eqb_spec (unset_bits bits) 0) as [E|]; cbn [negb]; [|done].
  split; [done|]. intros l Hl. rewrite mask_all_set; [done| |done]. by rewrite length_map.
Qed.

Lemma mask_test (p : Z -> bool) (values : list Z) :
  mask (Some (map p values)) (map CellNumber values)
  = map (fun v => if p v then Some (CellNumber v) else None) values.
Proof. induction values as [|v l IH]; [done|]. cbn. f_equal. exact IH. Qed.

(** An array [Series::from_arrow] takes as it is. *)
Definition good_array (a : Array) : Prop := array_ok a /\ keeps_values (data_type a) = true.

Lemma primitive_array_ok n t values validity :
  native_type t = Some n -> keeps_values t = true -> Forall (in_native n) values -> len values <= isize_max ->
  validity_ok validity (len values) ->
  ok_with (primitive_array n t values validity) (fun a => a = PrimitiveArray t values validity /\ good_array a).
Proof.
  intros Ht Hk Hv Hl Hval. unfold primitive_array, or_panics. rewrite bool_decide_eq_true_2 by done.
  assert (validity_fits validity (len values) = true) as ->.
  { destruct validity; cbn in *; [lia|done]. }
  apply ok_with_ret. split; [done|]. split; [|done]. split_and!; cbn [array_len]; [lia|done|done|].
  by exists n.
Qed.

Lemma boolean_array_ok values :
  len values <= isize_max ->
  ok_with (boolean_array values None) (fun a => a = BooleanArray values None /\ good_array a).
Proof. intros Hl. apply ok_with_ret. split; [done|]. split; [|done]. split_and!; cbn [array_len]; try done. lia. Qed.

Lemma collect_values_ok {A B} (f : A -> res B) (P : B -> Prop) l :
  Forall (fun a => ok_with (f a) P) l ->
  ok_with (collect_values f l) (fun bs => length bs = length l /\ Forall P bs).
Proof.
  induction 1 as [|a l Ha _ IH]; [by apply ok_with_ret|]. cbn [collect_values].
  eapply ok_with_bind; [exact Ha|]. intros b Hb. eapply ok_with_bind; [exact IH|]. cbv beta.
  intros bs [Hl Hbs]. apply ok_with_ret. cbn [length]. split; [lia|by constructor].
Qed.
End Blocks.

(** ** Rows between cumulative offsets *)

(** The offsets of consecutive rows, the first of which starts at [base]. *)
Fixpoint offsets_from (base : Z) (rows : list (list Z)) : list Z :=
  match rows with
  | [] => []
  | row :: rows => (base + len row) :: offsets_from (base + len row) rows
  end.

Lemma offsets_from_app base rows1 rows2 :
  offsets_from base (rows1 ++ rows2) = offsets_from base rows1 ++ offsets_from (base + len (concat rows1)) rows2.
Proof.
  revert base. induction rows1 as [|row rows1 IH]; intros base; cbn [offsets_from app concat].
  - f_equal. cbn. lia.
  - rewrite IH, length_app. do 3 f_equal. lia.
Qed.

Lemma length_offsets_from base rows : length (offsets_from base rows) = length rows.
Proof. revert base. induction rows as [|row rows IH]; intros base; [done|]. cbn. by rewrite IH. Qed.

Lemma last_offsets_from base rows : last_offset (base :: offsets_from base rows) = base + len (concat rows).
Proof.
  revert base. induction rows as [|row rows IH]; intros base; cbn [offsets_from concat].
  - unfold last_offset. cbn. lia.
  - change (last_offset (base :: base + len row :: offsets_from (base + len row) rows))
      with (last_offset (base + len row :: offsets_from (base + len row) rows)).
    rewrite IH, length_app. lia.
Qed.

Lemma offsets_from_ordered base rows :
  Forall (fun range : Z * Z => range.1 <= range.2) (windows (base :: offsets_from base rows)).
Proof.
  revert base. induction rows as [|row rows IH]; intros base; [constructor|]. cbn [offsets_from].
  rewrite windows_cons. constructor; [cbn; lia|apply IH].
Qed.

Lemma offsets_from_ok base rows n :
  0 <= base -> base + len (concat rows) <= n -> offsets_ok (base :: offsets_from base rows) n.
Proof.
  intros Hb Hn. split_and!; [by exists base|apply offsets_from_ordered|]. by rewrite last_offsets_from.
Qed.

(** The rows that were put one after the other. *)
Lemma rows_between pre rows :
  map (between_offsets (pre ++ concat rows)) (windows (len pre :: offsets_from (len pre) rows)) = rows.
Proof.
  revert pre. induction rows as [|row rows IH]; intros pre; [done|]. cbn [offsets_from concat].
  rewrite windows_cons. cbn [map]. f_equal.
  - unfold between_offsets. cbn [fst snd]. rewrite drop_app_length' by lia.
    apply take_app_length'. lia.
  - rewrite app_assoc. replace (len pre + len row) with (len (pre ++ row)) by (rewrite length_app; lia).
    apply IH.
Qed.

Lemma rows_from_zero rows : map (between_offsets (concat rows)) (windows (0 :: offsets_from 0 rows)) = rows.
Proof. exact (rows_between [] rows). Qed.

(** ** Flat lists *)

Section Flat.
  Context `{Allocator} `{Chrono} {Series DataFrame : Type} `{!Polars Series DataFrame} `{!PolarsLaws}.

Abbreviation kval := (K Series DataFrame).

(** A series of type [t] with rows [rs]. *)
Definition is_series (t : DataType) (rs : list (option Cell)) (k : kval) : Prop :=
  exists s, k = KSeries s /\ dtype s = t /\ series_rows s = rs.

(** A series of type [t] with [n] rows. *)
Definition has_rows (t : DataType) (n : Z) (k : kval) : Prop :=
  exists s, k = KSeries s /\ dtype s = t /\ len (series_rows s) = n.

Lemma is_series_rows t rs n (m : res kval) :
  ok_with m (is_series t rs) -> len rs = n -> ok_with m (has_rows t n).
Proof. intros Hm <-. eapply ok_with_weaken; [exact Hm|]. intros k (s & -> & Ht & <-). by exists s. Qed.

Lemma series_from_ok name a :
  good_array a -> ok_with (series_from name a) (is_series (polars_of (data_type a)) (rows a)).
Proof.
  intros [Ha Hk]. destruct (from_arrow_rows name a Ha Hk) as (s & Hs & Ht & Hr).
  unfold series_from. rewrite Hs. cbn. apply ok_with_ret. by exists s.
Qed.

Lemma series_from_rows name a t rs :
  good_array a -> polars_of (data_type a) = t -> rows a = rs -> ok_with (series_from name a) (is_series t rs).
Proof. intros Ha <- <-. by apply series_from_ok. Qed.

(** What a number is as a row, [null] being the missing one. *)
Definition unless (null : Z -> bool) (f : Z -> Z) (v : Z) : option Cell :=
  if null v then None else Some (CellNumber (f v)).

Lemma boolean_values_ok bytes refused context :
  len bytes <= isize_max ->
  ok_with (boolean_values bytes refused context) (fun bits => bits = map (fun v => v =? 1) bytes).
Proof. intros _. unfold boolean_values. destruct (find _ _); [done|apply try_bitmap_ok]. Qed.

Lemma boolean_list_ok bytes name :
  len bytes <= isize_max ->
  ok_with (boolean_list bytes name) (is_series DBoolean (map (fun v => Some (CellBool (v =? 1))) bytes)).
Proof.
  intros Hl. unfold boolean_list. eapply ok_with_bind; [by apply boolean_values_ok|]. cbv beta. intros bits ->.
  eapply ok_with_bind; [apply boolean_array_ok; by rewrite length_map|]. cbv beta. intros a [-> Ha].
  apply series_from_rows; [done|done|]. cbn [rows mask]. by rewrite !map_map.
Qed.

Lemma try_copy_ok payload context : ok_with (try_copy_payload payload context) (fun b => b = payload).
Proof. unfold try_copy_payload. eapply ok_with_bind; [apply try_vec_ok|]. intros _ _. by apply ok_with_ret. Qed.

(** The rows of sixteen bytes. *)
Lemma strides_chunks size n (bytes : list Z) :
  0 <= size -> map (between_offsets bytes) (windows (strides size n)) = chunks_exact n (Z.to_nat size) bytes.
Proof.
  intros Hs. rewrite strides_windows, map_map.
  assert (forall k, map (fun i => between_offsets bytes (Z.of_nat i * size, (Z.of_nat i + 1) * size)) (seq k n)
    = chunks_exact n (Z.to_nat size) (drop (k * Z.to_nat size) bytes)) as Hk.
  { clear -Hs. induction n as [|n IH]; intros k; [done|]. cbn [seq map chunks_exact]. rewrite IH. f_equal.
    - unfold between_offsets. cbn [fst snd]. f_equal; [lia|]. f_equal. lia.
    - rewrite drop_drop. do 2 f_equal. lia. }
  rewrite Hk. done.
Qed.

Lemma guid_list_ok bytes name n :
  len bytes = n * 16 -> bytes_ok bytes -> len bytes <= isize_max ->
  ok_with (guid_list bytes name)
    (is_series DBinary (map (fun g => Some (CellBytes g)) (chunks_exact (Z.to_nat n) 16 bytes))).
Proof.
  intros Hn Hb Hl. unfold guid_list. eapply ok_with_bind; [apply try_copy_ok|]. cbv beta. intros v ->.
  unfold fixed_size_binary_array, or_panics. rewrite Hn, Z.mod_mul by lia. cbn [Z.ltb Z.compare Z.eqb andb].
  change (0 =? 0) with true. cbn [andb mbind outcome_bind].
  apply series_from_rows; [|done|].
  - split; [|done]. split_and!; cbn [array_len]; try done; rewrite Hn, ?Z.div_mul, ?Z.mod_mul by lia; try done; lia.
  - cbn [rows mask]. rewrite Hn, Z.div_mul by lia. rewrite map_map.
    change 16%nat with (Z.to_nat 16). rewrite <- (strides_chunks 16 (Z.to_nat n) bytes) by lia.
    by rewrite map_map.
Qed.

Lemma byte_list_ok bytes name :
  bytes_ok bytes -> len bytes <= isize_max ->
  ok_with (byte_list bytes name) (is_series DUInt8 (map (fun v => Some (CellNumber v)) bytes)).
Proof.
  intros Hb Hl. unfold byte_list. eapply ok_with_bind; [apply try_copy_ok|]. cbv beta. intros v ->.
  eapply ok_with_bind; [by apply primitive_array_ok|]. cbv beta. intros a [-> Ha].
  apply series_from_rows; [done|done|]. cbn [rows mask]. by rewrite map_map.
Qed.

(** Numbers under a bitmap made of a test of them. *)
Lemma tested_list_ok n dt (p : Z -> bool) context name values :
  native_type dt = Some n -> keeps_values dt = true -> Forall (in_native n) values -> len values <= isize_max ->
  ok_with (validity ← optional_validity (map p values) context; a ← primitive_array n dt values validity;
           series_from name a)
    (is_series (polars_of dt) (map (fun v => if p v then Some (CellNumber v) else None) values)).
Proof.
  intros Hn Hk Hv Hl. eapply ok_with_bind; [apply optional_validity_ok|]. cbv beta. rewrite length_map.
  intros validity [Hval Hmask].
  eapply ok_with_bind; [by apply primitive_array_ok|]. cbv beta. intros a [-> Ha].
  apply series_from_rows; [done|done|]. cbn [rows]. rewrite Hmask by done. apply mask_test.
Qed.

Lemma integer_list_ok t dt context bytes name n :
  native_type dt = Some t -> keeps_values dt = true -> len bytes = n * wire_width t -> bytes_ok bytes ->
  n <= isize_max ->
  ok_with (integer_list t dt context bytes name)
    (is_series (polars_of dt)
       (map (unless (fun v => negb ((native_min t + 1 <? v) && (v <? native_max t))) id) (wire_values t bytes))).
Proof.
  intros Ht Hk Hl Hb Hn. unfold integer_list.
  destruct (wire_values_shape t bytes n Hl Hb) as [Hlen Hnat].
  eapply ok_with_bind; [apply decode_wire_numbers_ok|]. cbv beta. intros values ->.
  eapply ok_with_weaken; [apply tested_list_ok; try done; lia|]. intros k (s & -> & Hd & Hr).
  exists s. split_and!; [done|done|]. rewrite Hr. apply map_ext. intros v. unfold unless. by destruct (_ && _).
Qed.

Lemma float_list_ok t dt context bytes name n :
  native_type dt = Some t -> keeps_values dt = true -> len bytes = n * wire_width t -> bytes_ok bytes ->
  n <= isize_max ->
  ok_with (float_list t dt context bytes name)
    (is_series (polars_of dt) (map (unless (is_nan_bits t) id) (wire_values t bytes))).
Proof.
  intros Ht Hk Hl Hb Hn. unfold float_list. destruct (wire_values_shape t bytes n Hl Hb) as [Hlen Hnat].
  eapply ok_with_bind; [apply decode_wire_numbers_ok|]. cbv beta. intros values ->.
  eapply ok_with_weaken; [apply tested_list_ok; try done; lia|]. intros k (s & -> & Hd & Hr).
  exists s. split_and!; [done|done|]. rewrite Hr. apply map_ext. intros v. unfold unless. by destruct (is_nan_bits _ _).
Qed.

Lemma timespan_list_ok bytes name n :
  len bytes = n * 8 -> bytes_ok bytes -> n <= isize_max ->
  ok_with (timespan_list bytes name)
    (is_series (DDuration Nanoseconds) (map (unless (fun v => v =? i64_min) id) (wire_values I64 bytes))).
Proof.
  intros Hl Hb Hn. unfold timespan_list. destruct (wire_values_shape I64 bytes n Hl Hb) as [Hlen Hnat].
  eapply ok_with_bind; [apply decode_wire_numbers_ok|]. cbv beta. intros values ->.
  eapply ok_with_weaken; [apply tested_list_ok; try done; lia|]. intros k (s & -> & Hd & Hr).
  exists s. split_and!; [done|done|]. rewrite Hr. apply map_ext. intros v. unfold unless. by destruct (_ =? _).
Qed.

(** ** Char columns *)

Lemma char_column_ok bytes name encoding :
  bytes_ok bytes -> len bytes <= isize_max ->
  ok_with (char_column bytes name encoding)
    (is_series DString
       (map (fun b => Some (CellBytes (if b <? 128 then [b] else REPLACEMENT_CHARACTER))) bytes)).
Proof.
  intros Hb Hl. unfold char_column. eapply ok_with_bind; [apply try_vec_ok|]. intros _ _.
  eapply (ok_with_bind _ _ (fun views => views = map (fun b => new_inline (if b <? 128 then [b] else REPLACEMENT_CHARACTER)) bytes)).
  - destruct (is_ascii bytes) eqn:E.
    + apply ok_with_ret. apply map_ext_in. intros b Hin. unfold is_ascii in E. rewrite forallb_forall in E.
      by rewrite E.
    + destruct encoding; [done|]. apply ok_with_ret. apply map_ext. intros b. by destruct (b <? 128).
  - cbv beta. intros views ->. apply series_from_rows; [|done|cbn [rows mask]; by rewrite !map_map].
    split; [|done]. split_and!; cbn [array_len]; rewrite ?length_map; try done; try lia.
    apply Forall_map. rewrite Forall_forall in *. intros b Hin. cbn [view_ok view_bytes new_inline].
    destruct (b <? 128) eqn:E.
    + split; [by constructor; [apply Hb|]|]. apply ascii_utf8. cbn. by rewrite E.
    + split; [|done]. repeat constructor; done.
Qed.

(** ** Times *)

(** Values that are converted one by one, nulls apart. *)
Lemma converted_ok (convert : Z -> res Z) (null : Z -> bool) (f : Z -> Z) (g : Z -> Z) (P : Z -> Prop) values :
  Forall (fun v => null v = true -> convert v = Ok (g v) /\ P (g v)) values ->
  Forall (fun v => null v = false -> ok_with (convert v) (fun r => r = f v /\ P r)) values ->
  ok_with (collect_values convert values)
    (fun rs => rs = map (fun v => if null v then g v else f v) values /\ Forall P rs).
Proof.
  induction values as [|v l IH]; intros Hnull Hf; [by apply ok_with_ret|]. cbn [collect_values].
  apply Forall_cons in Hnull as [Hnv Hnull], Hf as [Hfv Hf].
  apply (ok_with_bind _ _ (fun r => r = (if null v then g v else f v) /\ P r)).
  - destruct (null v) eqn:E; [|by apply Hfv]. destruct Hnv as [-> ?]; [done|]. by apply ok_with_ret.
  - intros r [-> Hr]. eapply ok_with_bind; [by apply IH|]. cbv beta. intros rs [-> HP]. apply ok_with_ret.
    split; [done|by constructor].
Qed.

Lemma mask_converted (p : Z -> bool) (h : Z -> Z) (raw : list Z) :
  mask (Some (map p raw)) (map CellNumber (map h raw)) = map (fun v => if p v then Some (CellNumber (h v)) else None) raw.
Proof. induction raw as [|v l IH]; [done|]. cbn. f_equal. exact IH. Qed.

(** A bitmap made of the raw values over the converted ones. *)
Lemma raw_tested_ok n dt (p : Z -> bool) (h : Z -> Z) name validity raw :
  native_type dt = Some n -> keeps_values dt = true -> Forall (in_native n) (map h raw) -> len raw <= isize_max ->
  validity_ok validity (len (map p raw)) ->
  (forall l : list Z, len (map p raw) = len l -> mask validity (map CellNumber l) = mask (Some (map p raw)) (map CellNumber l)) ->
  ok_with (a ← primitive_array n dt (map h raw) validity; series_from name a)
    (is_series (polars_of dt) (map (fun v => if p v then Some (CellNumber (h v)) else None) raw)).
Proof.
  intros Hn Hk Hv Hl Hval Hmask.
  eapply ok_with_bind; [apply primitive_array_ok; rewrite ?length_map in *; done|]. cbv beta. intros a [-> Ha].
  apply series_from_rows; [done|done|]. cbn [rows]. rewrite Hmask by (by rewrite !length_map). apply mask_converted.
Qed.

Lemma is_series_ext t rs rs' k : is_series t rs k -> rs = rs' -> is_series t rs' k.
Proof. by intros ? <-. Qed.

Lemma unix_timestamps_ok values :
  Forall (in_native I64) values ->
  ok_with (collect_values unix_timestamp values)
    (fun rs => rs = map (fun v => if v =? i64_min then v else v + NANOS_DIFF) values /\ Forall (in_native I64) rs).
Proof.
  intros Hv. apply converted_ok; eapply Forall_impl; [exact Hv| |exact Hv|]; cbv beta; intros v Hn E.
  - unfold unix_timestamp. by rewrite E.
  - unfold unix_timestamp, unix_timestamp_nanoseconds. rewrite E. apply ok_with_guard. intros _.
    apply ok_with_ok_or. unfold i64_checked, in_i64. intros r. destruct (_ && _) eqn:Hr; [|done].
    intros [= <-]. split; [done|]. cbn. bool_lia.
Qed.

(** The rows of timestamps, whichever way their bitmap is made. *)
Lemma timestamp_rows values :
  Forall (in_native I64) values ->
  map (fun v => if negb (v =? i64_min) then Some (CellNumber v) else None)
    (map (fun v => if v =? i64_min then v else v + NANOS_DIFF) values)
  = map (unless (fun v => v =? i64_min) (fun v => v + NANOS_DIFF)) values.
Proof.
  intros Hv. rewrite map_map. apply map_ext_in. intros v Hin%list_elem_of_In. rewrite Forall_forall in Hv.
  specialize (Hv v Hin). cbn in Hv. unfold unless. destruct (Z.eqb_spec v i64_min) as [->|Hne]; [done|].
  assert (NANOS_DIFF = 946684800000000000) by done.
  replace (v + NANOS_DIFF =? i64_min) with false by (symmetry; apply Z.eqb_neq; bool_lia). done.
Qed.

Lemma timestamp_list_ok bytes name n :
  len bytes = n * 8 -> bytes_ok bytes -> n <= isize_max ->
  ok_with (timestamp_list bytes name)
    (is_series (DDatetime Nanoseconds)
       (map (unless (fun v => v =? i64_min) (fun v => v + NANOS_DIFF)) (wire_values I64 bytes))).
Proof.
  intros Hl Hb Hn. unfold timestamp_list. destruct (wire_values_shape I64 bytes n Hl Hb) as [Hlen Hnat].
  eapply ok_with_bind; [apply decode_wire_numbers_ok|]. cbv beta. intros values ->.
  eapply ok_with_bind; [by apply unix_timestamps_ok|]. cbv beta. intros values [-> Hv].
  rewrite <- timestamp_rows by done.
  apply (tested_list_ok I64 (ArrowTimestamp Nanoseconds)); try done. rewrite length_map. lia.
Qed.

Lemma date_list_ok bytes name n :
  len bytes = n * 4 -> bytes_ok bytes -> n <= isize_max ->
  ok_with (date_list bytes name)
    (is_series DDate (map (unless (fun v => v =? i32_min) (fun v => v + 10957)) (wire_values I32 bytes))).
Proof.
  intros Hl Hb Hn. unfold date_list. destruct (wire_values_shape I32 bytes n Hl Hb) as [Hlen Hnat].
  eapply ok_with_bind; [apply decode_wire_numbers_ok|]. cbv beta. intros values ->.
  eapply ok_with_bind; [apply optional_validity_ok|]. cbv beta. intros validity [Hval Hmask].
  eapply (ok_with_bind _ _ (fun rs => rs = map (fun v => if v =? i32_min then v else v + 10957) (wire_values I32 bytes)
    /\ Forall (in_native I32) rs)).
  { apply converted_ok; eapply Forall_impl; [exact Hnat| |exact Hnat|]; cbv beta; intros v Hv E.
    - unfold unix_date. by rewrite E.
    - unfold unix_date. rewrite E. apply ok_with_ok_or. unfold i32_checked, in_i32. intros r.
      destruct (_ && _) eqn:Hr; [|done]. intros [= <-]. split; [done|]. cbn. bool_lia. }
  intros values [-> Hv].
  eapply ok_with_weaken; [apply (raw_tested_ok I32 ArrowDate32); try done; lia|].
  intros k Hk. eapply is_series_ext; [exact Hk|]. apply map_ext. intros v. unfold unless. by destruct (v =? i32_min).
Qed.

Lemma try_collect_ok {A B} (f : A -> res B) l context P :
  ok_with (collect_values f l) P -> ok_with (try_collect f l context) P.
Proof. intros Hc. unfold try_collect. eapply ok_with_bind; [apply try_vec_ok|]. intros _ _. exact Hc. Qed.

Lemma time_list_ok k_type bytes name n :
  len bytes = n * 4 -> bytes_ok bytes -> n <= isize_max ->
  ok_with (time_list k_type bytes name)
    (is_series DTime
       (map (unless (fun v => v =? i32_min) (fun v => v * time_multiplier k_type)) (wire_values I32 bytes))).
Proof.
  intros Hl Hb Hn. unfold time_list. destruct (wire_values_shape I32 bytes n Hl Hb) as [Hlen Hnat].
  eapply ok_with_bind; [apply decode_wire_numbers_ok|]. cbv beta. intros values ->.
  eapply ok_with_bind; [apply optional_validity_ok|]. cbv beta. intros validity [Hval Hmask].
  eapply (ok_with_bind _ _ (fun rs =>
    rs = map (fun v => if v =? i32_min then 0 else v * time_multiplier k_type) (wire_values I32 bytes)
    /\ Forall (in_native I64) rs)).
  { apply try_collect_ok. apply converted_ok; eapply Forall_impl; [exact Hnat| |exact Hnat|]; cbv beta; intros v Hv E.
    - unfold unix_time. by rewrite E.
    - unfold unix_time. rewrite E. apply ok_with_ok_or. unfold i64_checked, in_i64. intros r.
      destruct (_ && _) eqn:Hr; [|done]. cbn [mbind option_bind].
      destruct ((0 <=? v * time_multiplier k_type) && _); [|done]. intros [= <-].
      split; [done|]. cbn [in_native]. bool_lia. }
  intros values [-> Hv].
  eapply ok_with_weaken; [apply (raw_tested_ok I64 (ArrowTime64 Nanoseconds)); try done; lia|].
  intros k Hk. eapply is_series_ext; [exact Hk|]. apply map_ext. intros v. unfold unless. by destruct (v =? i32_min).
Qed.

Lemma q_datetime_nanoseconds_ok x : ok_with (q_datetime_nanoseconds x) (in_native I64).
Proof.
  unfold q_datetime_nanoseconds. eapply (ok_with_bind _ _ (fun _ => True)).
  - unfold finite_f64_to_i64. destruct (f64_round _); [|done]. destruct (_ && _); [by apply ok_with_ret|done].
  - intros ms _. apply ok_with_ok_or. unfold i64_checked, in_i64. intros r. destruct (_ && _); cbn [mbind option_bind]; [|done].
    match goal with |- context [if ?b then _ else _] => destruct b eqn:Hr; [|done] end.
    intros [= <-]. cbn [in_native]. bool_lia.
Qed.

Lemma datetime_list_ok bytes name n :
  len bytes = n * 8 -> bytes_ok bytes -> n <= isize_max ->
  ok_with (datetime_list bytes name)
    (fun k => exists values, collect_values unix_datetime (wire_values F64 bytes) = Ok values
       /\ is_series (DDatetime Nanoseconds) (map (unless (fun v => v =? i64_min) id) values) k).
Proof.
  intros Hl Hb Hn. unfold datetime_list. destruct (wire_values_shape F64 bytes n Hl Hb) as [Hlen Hnat].
  eapply ok_with_bind; [apply decode_wire_numbers_ok|]. cbv beta. intros values ->.
  assert (ok_with (collect_values unix_datetime (wire_values F64 bytes))
    (fun rs => length rs = length (wire_values F64 bytes) /\ Forall (in_native I64) rs)) as Hc.
  { apply collect_values_ok, Forall_forall. intros v _. unfold unix_datetime.
    destruct (is_nan _); [by apply ok_with_ret|]. destruct (negb _); [done|]. apply q_datetime_nanoseconds_ok. }
  eapply (ok_with_bind _ _ (fun rs => collect_values unix_datetime (wire_values F64 bytes) = Ok rs
    /\ length rs = length (wire_values F64 bytes) /\ Forall (in_native I64) rs)).
  { apply try_collect_ok. destruct Hc as [Hr HP]. split; [exact Hr|]. intros rs Hrs. split; [exact Hrs|]. by apply HP. }
  intros values (Hrs & Hlv & Hv).
  eapply ok_with_weaken; [apply (tested_list_ok I64 (ArrowTimestamp Nanoseconds)); try done; lia|].
  intros k Hk. exists values. split; [done|]. eapply is_series_ext; [exact Hk|].
  apply map_ext. intros v. unfold unless. by destruct (v =? i64_min).
Qed.
End Flat.

(** ** Reading symbol lists, as strings and as categories *)

(** ** Text *)

Lemma units_bytes l : bytes_ok l -> Forall (fun u => bytes_ok (unit_bytes u)) (utf8_units l).
Proof.
  intros Hl. apply (Forall_map unit_bytes (fun bs => bytes_ok bs)). apply Forall_concat.
  by rewrite utf8_units_concat.
Qed.

Lemma lossy_text_bytes l : bytes_ok l -> bytes_ok (lossy_text l).
Proof.
  intros Hl. unfold lossy_text. induction (units_bytes l Hl) as [|u us Hu _ IH]; [constructor|]. cbn [flat_map].
  apply Forall_app. split; [|exact IH]. destruct u; cbn; [exact Hu|repeat constructor; done].
Qed.

Lemma decode_utf8_ok `{Allocator} bytes encoding context :
  bytes_ok bytes ->
  ok_with (decode_utf8 bytes encoding context)
    (fun d => is_utf8 (decoded_text d) = true /\ bytes_ok (decoded_text d)
              /\ (is_utf8 bytes = true -> decoded_text d = bytes)).
Proof.
  intros Hb. unfold decode_utf8. destruct (is_utf8 bytes) eqn:E; [by apply ok_with_ret|].
  destruct encoding; [done|]. eapply (ok_with_bind _ _ (fun t => t = lossy_text bytes)).
  - unfold transcode_utf8_lossy. eapply ok_with_bind; [apply reserve_ok|]. intros _ _. by apply ok_with_ret.
  - intros t ->. apply ok_with_ret. cbn. split_and!; [apply lossy_text_utf8|by apply lossy_text_bytes|done].
Qed.

(** ** Symbols, one after the other *)

Lemma next_symbol_ok_at (pre rest : list Z) :
  ok_with (next_symbol (pre ++ rest) (len pre))
    (fun name => nul_free name /\ exists rest', rest = name ++ 0 :: rest').
Proof.
  unfold next_symbol. rewrite get_from_app. cbn [or_panic mbind outcome_bind].
  destruct (find_nul rest) as [n|] eqn:E; [|done]. cbn [ok_or mbind outcome_bind].
  destruct (find_nul_Some _ _ E) as (name & rest' & -> & -> & Hn).
  assert (get_range (pre ++ name ++ 0 :: rest') (len pre) (len pre + len name) = Some name) as ->.
  { apply get_range_Some. by exists pre, (0 :: rest'). }
  apply ok_with_ret. split; [done|by exists rest'].
Qed.

Lemma terminated_cons name names : terminated (name :: names) = (name ++ [0]) ++ terminated names.
Proof. done. Qed.

Lemma terminated_utf8 names :
  is_utf8 (terminated names) = true -> Forall (fun n => is_utf8 n = true) names.
Proof.
  induction names as [|n names IH]; [constructor|]. rewrite terminated_cons, <- app_assoc.
  intros [Hn Hr]%is_utf8_nul. constructor; [done|by apply IH].
Qed.

(** What reading [n] symbols from [rest] leaves. *)
Definition symbols_read (n : nat) (pre rest : list Z) (names : list (list Z)) (cursor : Z) : Prop :=
  length names = n /\ Forall nul_free names /\ exists rest', rest = terminated names ++ rest'
    /\ cursor = len (pre ++ terminated names).

Lemma symbols_read_cons n pre name rest names cursor :
  nul_free name -> symbols_read n (pre ++ name ++ [0]) rest names cursor ->
  symbols_read (S n) pre (name ++ 0 :: rest) (name :: names) cursor.
Proof.
  intros Hn (Hl & Hf & rest' & -> & ->). split_and!; [cbn; lia|by constructor|].
  exists rest'. rewrite terminated_cons. split; [by rewrite <- !app_assoc|]. by rewrite <- !app_assoc.
Qed.

Lemma symbol_values_ok n pre rest values :
  ok_with (symbol_values n (pre ++ rest) (len pre) values)
    (fun '(offsets, values', cursor) => exists names, symbols_read n pre rest names cursor
       /\ values' = values ++ concat names /\ offsets = offsets_from (len values) names).
Proof.
  revert pre rest values. induction n as [|n IH]; intros pre rest values; cbn [symbol_values].
  - apply ok_with_ret. exists []. split_and!; [|by rewrite app_nil_r|done].
    split_and!; [done|constructor|]. exists rest. cbn. by rewrite app_nil_r.
  - eapply ok_with_bind; [apply next_symbol_ok_at|]. cbv beta. intros name (Hn & rest' & ->).
    eapply ok_with_bind; [apply ok_with_ok_or; unfold i64_checked; intros o; destruct (in_i64 _); [intros [= <-]; exact eq_refl|done]|].
    cbv beta. intros o <-.
    replace (pre ++ name ++ 0 :: rest') with ((pre ++ name ++ [0]) ++ rest') by (by rewrite <- !app_assoc).
    replace (len pre + len name + 1) with (len (pre ++ name ++ [0])) by (rewrite !length_app; cbn [length]; lia).
    eapply ok_with_bind; [apply IH|]. cbv beta. intros [[offsets values'] cursor] (names & Hs & -> & ->).
    apply ok_with_ret. exists (name :: names). split_and!; [by apply symbols_read_cons| |].
    + cbn [concat]. by rewrite <- app_assoc.
    + cbn [offsets_from]. rewrite length_app. repeat (f_equal; try lia).
Qed.

Lemma check_consumed_ok payload cursor :
  ok_with (check_symbol_list_consumed payload cursor) (fun _ => cursor = len payload).
Proof.
  unfold check_symbol_list_consumed. destruct (Z.eqb_spec cursor (len payload)); [by apply ok_with_ret|done].
Qed.

(** Symbols that take the whole payload. *)
Lemma symbols_read_all n payload names :
  symbols_read n [] payload names (len payload) -> length names = n /\ Forall nul_free names /\ payload = terminated names.
Proof.
  intros (Hl & Hf & rest & -> & Hc). split_and!; try done. rewrite length_app in Hc. cbn [app] in Hc.
  destruct rest; [by rewrite app_nil_r|]. cbn [length] in Hc. lia.
Qed.

Section Symbols.
  Context `{Allocator} `{Chrono} {Series DataFrame : Type} `{!Polars Series DataFrame}.
  Context `{!PolarsLaws} `{!PolarsReturns}.

Abbreviation kval := (K Series DataFrame).

Lemma large_utf8_array_ok names :
  Forall (fun n => is_utf8 n = true) names -> Forall (fun n => bytes_ok n) names -> len names < isize_max ->
  ok_with (large_utf8_array (0 :: offsets_from 0 names) (concat names))
    (fun a => a = LargeUtf8Array (0 :: offsets_from 0 names) (concat names) None /\ good_array a
              /\ rows a = map (fun n => Some (CellBytes n)) names).
Proof.
  intros Hu Hb Hl. unfold large_utf8_array, or_panics. rewrite last_offsets_from.
  pose proof (rows_from_zero names) as Hrows.
  assert (Forall (fun range => is_utf8 (between_offsets (concat names) range) = true)
    (windows (0 :: offsets_from 0 names))) as Hf.
  { apply (Forall_map (between_offsets (concat names)) (fun l => is_utf8 l = true)). by rewrite Hrows. }
  assert (forallb (fun range => is_utf8 (between_offsets (concat names) range)) (windows (0 :: offsets_from 0 names)) = true) as ->.
  { apply forallb_forall. intros r Hr%list_elem_of_In. rewrite Forall_forall in Hf. by apply Hf. }
  replace (0 + len (concat names) <=? len (concat names)) with true by lia. cbn [andb].
  apply ok_with_ret. split_and!; [done| |].
  - split; [|done]. split_and!; cbn [array_len array_validity]; try done.
    + cbn [length]. rewrite length_offsets_from. lia.
    + cbn [length]. rewrite length_offsets_from. lia.
    + apply offsets_from_ok; lia.
    + by apply Forall_concat.
  - cbn [rows mask]. rewrite map_map. rewrite <- Hrows at 2. by rewrite map_map.
Qed.

Lemma terminated_bytes names : bytes_ok (terminated names) -> Forall (fun n => bytes_ok n) names.
Proof.
  induction names as [|n names IH]; [constructor|]. rewrite terminated_cons, <- app_assoc.
  intros [Hn [_ Hr]%Forall_app]%Forall_app. constructor; [done|by apply IH].
Qed.

(** A list of strings. *)
Lemma symbol_list_ok payload n name :
  is_utf8 payload = true -> bytes_ok payload -> 0 <= n <= i32_max ->
  ok_with (symbol_list payload n name : res kval)
    (fun k => exists names, payload = terminated names /\ len names = n
       /\ is_series DString (map (fun s => Some (CellBytes s)) names) k).
Proof.
  intros Hu Hb Hn. unfold symbol_list. eapply ok_with_bind; [apply try_vec_ok|]. intros _ _.
  unfold uadd, checked_add. replace (n + 1 <=? usize_max) with true by bool_lia. cbn [or_panic mbind outcome_bind].
  eapply ok_with_bind; [apply try_vec_ok|]. intros _ _.
  eapply ok_with_bind; [apply (symbol_values_ok (Z.to_nat n) [] payload [])|]. cbv beta.
  intros [[offsets values] cursor] (names & Hs & -> & ->).
  eapply ok_with_bind; [apply check_consumed_ok|]. cbv beta. intros _ ->.
  apply symbols_read_all in Hs as (Hlen & Hf & ->). cbn [app length].
  eapply ok_with_bind; [apply large_utf8_array_ok|].
  - by apply terminated_utf8.
  - by apply terminated_bytes.
  - bool_lia.
  - cbv beta. intros a (-> & Ha & Hr). eapply ok_with_weaken; [by apply series_from_rows|].
    intros k Hk. exists names. split_and!; [done|lia|exact Hk].
Qed.

(** A column of categories: those the mapping gives the symbols. *)
Lemma mapped_categories_ok n pre rest :
  bytes_ok (pre ++ rest) ->
  ok_with (mapped_categories n (pre ++ rest) (len pre))
    (fun '(ids, cursor) => exists names, symbols_read n pre rest names cursor
       /\ Forall2 (fun name id => insert_cat name = Ok id) names ids).
Proof.
  revert pre rest. induction n as [|n IH]; intros pre rest Hb; cbn [mapped_categories].
  - apply ok_with_ret. exists []. split; [|constructor]. split_and!; [done|constructor|]. exists rest. cbn.
    by rewrite app_nil_r.
  - eapply ok_with_bind; [apply next_symbol_ok_at|]. cbv beta. intros name (Hn & rest' & ->).
    eapply (ok_with_bind _ _ (fun id => insert_cat name = Ok id)).
    { unfold insert_global_category. pose proof (insert_cat_returns name) as Hr.
      destruct (insert_cat name) as [id|e| |]; try done. by apply ok_with_ret. }
    cbv beta. intros id Hid.
    replace (pre ++ name ++ 0 :: rest') with ((pre ++ name ++ [0]) ++ rest') in * by (by rewrite <- !app_assoc).
    replace (len pre + len name + 1) with (len (pre ++ name ++ [0])) by (rewrite !length_app; cbn [length]; lia).
    eapply ok_with_bind; [by apply IH|]. cbv beta. intros [ids cursor] (names & Hs & Hids).
    apply ok_with_ret. exists (name :: names). split; [by apply symbols_read_cons|by constructor].
Qed.

Lemma decode_symbol_column_ok payload n name :
  bytes_ok payload -> 0 <= n ->
  ok_with (decode_symbol_column payload n name : res kval)
    (fun k => exists names ids, payload = terminated names /\ len names = n /\ Forall nul_free names
       /\ Forall2 (fun name id => insert_cat name = Ok id) names ids
       /\ k = KSeries (from_categories name ids)).
Proof.
  intros Hb Hn. unfold decode_symbol_column. eapply ok_with_bind; [apply try_vec_ok|]. intros _ _.
  rewrite decode_categories_exact by (done || apply new_interner_ok).
  eapply ok_with_bind; [by apply (mapped_categories_ok (Z.to_nat n) [] payload)|]. cbv beta.
  intros [ids cursor] (names & Hs & Hids).
  eapply ok_with_bind; [apply check_consumed_ok|]. cbv beta. intros _ ->.
  apply symbols_read_all in Hs as (Hlen & Hf & ->). apply ok_with_ret. exists names, ids. split_and!; try done. lia.
Qed.
End Symbols.
