(* ===== verification/NestedReadFacts.v ===== *)
(** * NestedReadFacts: the arrays of lists of lists, and the lists around them, are well formed *)

From stdpp Require Import prelude strings gmap.
From Stdlib Require Import ZArith Lia ZifyBool.
From S2P Require Import Prelude Errors Utf8 Types QValue Compress Framing ListScan ListScanSpec Text Value AnyValue WireText Float64 Deserialize Arrow Polars SeriesRead SeriesFacts SymbolSpec SeriesFormat SeriesWriteFacts SeriesWriteSpec SeriesSizeSpec NestedCharSpec SeriesReadFacts.

(** ** Headers and payloads *)

Lemma i32_from_le_range l : bytes_ok l -> length l = 4%nat -> i32_min <= i32_from_le l <= i32_max.
Proof. intros Hb Hl. by destruct (i32_from_le_inv l _ Hb Hl eq_refl) as [_ ?]. Qed.

Lemma list_length_ok bytes pos context :
  bytes_ok bytes -> 0 <= pos ->
  ok_with (take_list_length bytes pos context)
    (fun '(n, stop) => 0 <= n <= i32_max /\ stop = pos + 5 /\ stop <= len bytes).
Proof.
  intros Hb Hp. unfold take_list_length, checked_add.
  destruct (pos + 5 <=? usize_max); [|done]. cbn [ok_or mbind outcome_bind].
  destruct (get_range bytes pos (pos + 5)) as [header|] eqn:E; [|done]. cbn [ok_or mbind outcome_bind].
  pose proof (get_range_bounds _ _ _ _ E) as (_ & Hle & Hlen).
  destruct (get_range_is_Some header 1 5) as (raw & Hraw & Hl); [lia..|]. rewrite Hraw. cbn [or_panic mbind outcome_bind].
  assert (bytes_ok raw) as Hbr by (eapply get_range_Forall; [|exact Hraw]; by eapply get_range_Forall).
  pose proof (i32_from_le_range raw Hbr ltac:(lia)).
  unfold try_usize. destruct (_ && _) eqn:Er; [|done]. apply ok_with_ret. split_and!; [bool_lia|bool_lia|done|lia].
Qed.

Lemma element_header_ok vec pos :
  bytes_ok vec -> 0 <= pos ->
  ok_with (element_header vec pos)
    (fun '(t, n, stop) => 0 <= n <= i32_max /\ stop = pos + 6 /\ stop <= len vec).
Proof.
  intros Hb Hp. unfold element_header. destruct (get_at vec pos) as [t|]; [|done]. cbn [ok_or mbind outcome_bind].
  eapply ok_with_bind; [apply list_length_ok; [done|lia]|]. cbv beta. intros [n stop] (Hn & -> & Hl).
  apply ok_with_ret. split_and!; lia.
Qed.

Lemma element_payload_ok vec pos n :
  bytes_ok vec -> 0 <= n ->
  ok_with (element_payload vec pos n)
    (fun '(payload, stop) => len payload = n /\ bytes_ok payload /\ stop = pos + n /\ stop <= len vec
       /\ get_range vec pos stop = Some payload).
Proof.
  intros Hb Hn. unfold element_payload, checked_add. destruct (pos + n <=? usize_max); [|done].
  cbn [ok_or mbind outcome_bind]. destruct (get_range vec pos (pos + n)) as [p|] eqn:E; [|done].
  cbn [ok_or mbind outcome_bind]. apply ok_with_ret. pose proof (get_range_bounds _ _ _ _ E).
  split_and!; [lia|by eapply get_range_Forall|lia|lia|done].
Qed.

Section Nested.
  Context `{Allocator} `{Chrono} {Series DataFrame : Type} `{!Polars Series DataFrame}.
  Context `{!PolarsLaws} `{!PolarsReturns}.

Abbreviation kval := (K Series DataFrame).

Lemma grow_ok b n f : ok_with (grow b n f) (fun b' => buffer_data b' = buffer_data b).
Proof.
  unfold grow. destruct (_ <? _); [|by apply ok_with_ret]. eapply ok_with_bind; [apply reserve_ok|].
  intros _ _. by apply ok_with_ret.
Qed.

Lemma try_extend_ok b payload c :
  ok_with (try_extend b payload c) (fun b' => buffer_data b' = buffer_data b ++ payload).
Proof.
  unfold try_extend. eapply ok_with_bind; [apply grow_ok|]. cbv beta. intros b' <-. by apply ok_with_ret.
Qed.

Lemma try_push_ok b v c : ok_with (try_push b v c) (fun b' => buffer_data b' = buffer_data b ++ [v]).
Proof.
  unfold try_push. eapply ok_with_bind; [apply grow_ok|]. cbv beta. intros b' <-. by apply ok_with_ret.
Qed.

Lemma vec_with_capacity_ok n c : ok_with (vec_with_capacity n c) (fun b => buffer_data b = []).
Proof. unfold vec_with_capacity. eapply ok_with_bind; [apply try_vec_ok|]. intros _ _. by apply ok_with_ret. Qed.

(** ** The vectors of a nested list *)

(** Offsets that start at zero, never decrease and fit their type. *)
Record offsets_grow (offsets : list Z) : Prop := {
  grow_head : head offsets = Some 0;
  grow_order : Forall (fun range : Z * Z => range.1 <= range.2) (windows offsets);
  grow_fits : last_offset offsets <= i32_max
}.

Lemma windows_snoc (offsets : list Z) (o : Z) :
  offsets <> [] -> windows (offsets ++ [o]) = windows offsets ++ [(last_offset offsets, o)].
Proof.
  induction offsets as [|a offsets IH]; [done|]. intros _. destruct offsets as [|b offsets]; [done|].
  change ((a :: b :: offsets) ++ [o]) with (a :: b :: (offsets ++ [o])). rewrite !windows_cons.
  cbn [app]. f_equal. change (b :: offsets ++ [o]) with ((b :: offsets) ++ [o]). rewrite IH by done. done.
Qed.

Lemma last_offset_snoc (offsets : list Z) o : last_offset (offsets ++ [o]) = o.
Proof. unfold last_offset. by rewrite last_snoc. Qed.

Lemma offsets_grow_snoc offsets o :
  offsets_grow offsets -> last_offset offsets <= o <= i32_max -> offsets_grow (offsets ++ [o]).
Proof.
  intros [Hh Ho Hf] Hr. assert (offsets <> []) as Hne by by intros ->. split.
  - by destruct offsets.
  - rewrite windows_snoc by done. apply Forall_app. split; [done|]. constructor; [cbn; lia|constructor].
  - rewrite last_offset_snoc. lia.
Qed.

Lemma offsets_grow_nonneg offsets : offsets_grow offsets -> 0 <= last_offset offsets.
Proof.
  intros [Hh Ho _]. destruct offsets as [|a l]; [done|]. cbn in Hh. injection Hh as ->. by apply ordered_last.
Qed.

(** The values the offsets reach: payloads of fixed width, or symbols. *)
Record nested_ok (k_type : Z) (n : Nested) : Prop := {
  nested_grow : offsets_grow (nested_offsets n);
  nested_bytes : bytes_ok (buffer_data (nested_values n));
  nested_fixed w :
    k_type <> 11 -> get_at K_TYPE_SIZE k_type = Some w ->
    len (buffer_data (nested_values n)) = last_offset (nested_offsets n) * w;
  nested_names :
    k_type = 11 -> exists names, Forall (fun s => is_utf8 s = true) names
      /\ buffer_data (nested_values n) = concat names
      /\ buffer_data (nested_symbols n) = 0 :: offsets_from 0 names
      /\ len names = last_offset (nested_offsets n)
}.

Lemma next_offset_ok offsets n :
  offsets_grow offsets -> 0 <= n -> ok_with (next_offset offsets n) (fun o => o = last_offset offsets + n /\ o <= i32_max).
Proof.
  intros Ho Hn. unfold next_offset, try_i32. destruct (_ && _) eqn:E; [|done]. cbn [ok_or mbind outcome_bind].
  apply ok_with_ok_or. unfold i32_checked, in_i32. intros o.
  match goal with |- context [if ?b then _ else _] => destruct b eqn:Er; [|done] end.
  intros [= <-]. split; [done|]. bool_lia.
Qed.

Lemma take_utf8_ok vec pos encoding context :
  bytes_ok vec -> 0 <= pos ->
  ok_with (take_utf8_until_nul vec pos encoding context)
    (fun '(d, stop) => is_utf8 (decoded_text d) = true /\ bytes_ok (decoded_text d) /\ pos <= stop).
Proof.
  intros Hb Hp. unfold take_utf8_until_nul, take_until_nul.
  destruct (get_from vec pos) as [tail|] eqn:Et; [|done]. cbn [ok_or mbind outcome_bind].
  destruct (find_nul tail) as [n|] eqn:En; [|done]. cbn [ok_or mbind outcome_bind].
  destruct (find_nul_Some _ _ En) as (name & rest & -> & -> & Hname).
  apply (get_range_app vec name (0 :: rest)) in Et as [Ht _].
  unfold checked_add. destruct (_ <=? usize_max); [|done]. cbn [ok_or mbind outcome_bind].
  rewrite Ht. cbn [or_panic mbind outcome_bind]. destruct (_ <=? usize_max); [|done]. cbn [ok_or mbind outcome_bind].
  eapply ok_with_bind; [apply decode_utf8_ok; by eapply get_range_Forall|]. cbv beta.
  intros d (Hu & Hbd & _). apply ok_with_ret. split_and!; [done|done|lia].
Qed.

Lemma nested_symbols_ok n vec pos encoding values symbols names :
  bytes_ok vec -> 0 <= pos -> buffer_data values = concat names ->
  buffer_data symbols = 0 :: offsets_from 0 names -> Forall (fun s => is_utf8 s = true) names -> bytes_ok (concat names) ->
  ok_with (nested_symbol_run n vec pos encoding values symbols)
    (fun '(values, symbols, stop) => pos <= stop /\ exists more, length more = n
       /\ buffer_data values = concat (names ++ more) /\ buffer_data symbols = 0 :: offsets_from 0 (names ++ more)
       /\ Forall (fun s => is_utf8 s = true) (names ++ more) /\ bytes_ok (concat (names ++ more))).
Proof.
  intros Hb. revert pos values symbols names. induction n as [|n IH]; intros pos values symbols names Hp Hv Hs Hu Hc;
    cbn [nested_symbol_run].
  - apply ok_with_ret. split; [lia|]. exists []. by rewrite app_nil_r.
  - eapply ok_with_bind; [by apply take_utf8_ok|]. cbv beta. intros [d stop] (Hd & Hdb & Hstop).
    eapply ok_with_bind; [apply try_extend_ok|]. cbv beta. intros values' Hv'.
    eapply (ok_with_bind _ _ (fun o => o = len (buffer_data values'))).
    { apply ok_with_ok_or. unfold i64_checked. intros o. destruct (in_i64 _); [by intros [= <-]|done]. }
    cbv beta. intros o ->. eapply ok_with_bind; [apply try_push_ok|]. cbv beta. intros symbols' Hs'.
    assert (concat (names ++ [decoded_text d]) = concat names ++ decoded_text d) as Hcat
      by (rewrite concat_app; cbn; by rewrite app_nil_r).
    eapply ok_with_weaken; [apply (IH stop values' symbols' (names ++ [decoded_text d])); [lia|..]|].
    + by rewrite Hv', Hv, Hcat.
    + rewrite Hs', Hs, offsets_from_app. cbn [app]. f_equal. f_equal. cbn [offsets_from]. f_equal.
      rewrite Hv', Hv, length_app. lia.
    + apply Forall_app. by split; [|constructor].
    + rewrite Hcat. apply Forall_app. by split.
    + intros [[values'' symbols''] stop'] (Hle & more & Hl & Hrest). split; [lia|].
      exists (decoded_text d :: more). rewrite <- app_assoc in Hrest. cbn [length]. split; [lia|exact Hrest].
Qed.

(** One more element. *)
Lemma child_element_ok vec k_type encoding pos n :
  bytes_ok vec -> 0 <= pos -> nested_type k_type = true -> nested_ok k_type n ->
  ok_with (nested_element vec k_type encoding pos n)
    (fun '(stop, n') => pos <= stop /\ nested_ok k_type n'
       /\ len (nested_offsets n') = len (nested_offsets n) + 1).
Proof.
  intros Hb Hp Hk [Hg Hby Hf Hn]. unfold nested_element.
  eapply ok_with_bind; [by apply element_header_ok|]. cbv beta. intros [[t count] stop] (Hcount & -> & Hstop).
  destruct (if t =? 0 then _ else _) eqn:Eguard; [done|].
  eapply ok_with_bind; [apply next_offset_ok; [done|lia]|]. cbv beta. intros o [-> Ho].
  assert (offsets_grow (nested_offsets n ++ [last_offset (nested_offsets n) + count])) as Hg'
    by (apply offsets_grow_snoc; [done|lia]).
  assert (forall values symbols, len (nested_offsets (MkNested (nested_offsets n ++ [last_offset (nested_offsets n) + count])
    values symbols)) = len (nested_offsets n) + 1) as Hlen
    by (intros; cbn [nested_offsets]; rewrite length_app; cbn [length]; lia).
  destruct (Z.eqb_spec t 0) as [->|Ht].
  - assert (count = 0) as -> by lia. apply ok_with_ret. split_and!; [lia| |apply Hlen].
    split; cbn [nested_offsets nested_values nested_symbols]; try done; rewrite last_offset_snoc, Z.add_0_r; done.
  - destruct (Z.eqb_spec k_type 11) as [->|Hk11].
    + destruct (Hn eq_refl) as (names & Hu & Hv & Hs & Hl).
      eapply ok_with_bind; [apply (nested_symbols_ok _ _ _ _ _ _ names); [done|lia|done|done|done|by rewrite <- Hv]|].
      cbv beta. intros [[values symbols] stop] (Hle & more & Hm & Hv' & Hs' & Hu' & Hb').
      apply ok_with_ret. split_and!; [lia| |apply Hlen].
      split; cbn [nested_offsets nested_values nested_symbols]; try done; [by rewrite Hv'|].
      intros _. exists (names ++ more). split_and!; try done. rewrite last_offset_snoc, length_app. lia.
    + destruct (get_at_is_Some K_TYPE_SIZE k_type) as [w Hw].
      { change (len K_TYPE_SIZE) with 20. unfold nested_type in Hk. bool_lia. }
      unfold k_type_size. rewrite Hw. cbn [or_panic mbind outcome_bind].
      assert (0 <= w) as Hw0.
      { assert (Forall (fun w => 0 <= w) K_TYPE_SIZE) as HK by (repeat constructor; lia).
        by apply (get_at_Forall _ _ _ _ HK Hw). }
      eapply (ok_with_bind _ _ (fun p => p = count * w)).
      { apply ok_with_ok_or. unfold checked_mul. intros p. destruct (_ <=? _); [by intros [= <-]|done]. }
      cbv beta. intros p ->. eapply ok_with_bind; [apply element_payload_ok; [done|nia]|]. cbv beta.
      intros [payload stop] (Hpl & Hpb & -> & Hpe & _). eapply ok_with_bind; [apply try_extend_ok|]. cbv beta.
      intros values Hv. apply ok_with_ret. split_and!; [nia| |apply Hlen].
      split; cbn [nested_offsets nested_values nested_symbols]; [done|rewrite Hv; apply Forall_app; by split| |done].
      intros w' _ Hw'. assert (w' = w) as -> by congruence. rewrite last_offset_snoc, Hv, length_app.
      specialize (Hf w Hk11 Hw). nia.
Qed.

Lemma nested_elements_ok length vec k_type encoding pos n :
  bytes_ok vec -> 0 <= pos -> nested_type k_type = true -> nested_ok k_type n ->
  ok_with (nested_elements length vec k_type encoding pos n)
    (fun '(stop, n') => nested_ok k_type n' /\ len (nested_offsets n') = len (nested_offsets n) + Z.of_nat length).
Proof.
  intros Hb. revert pos n. induction length as [|length IH]; intros pos n Hp Hk Hn; cbn [nested_elements].
  - apply ok_with_ret. split; [done|lia].
  - eapply ok_with_bind; [by apply child_element_ok|]. cbv beta. intros [stop n'] (Hs & Hn' & Hl).
    eapply ok_with_weaken; [apply IH; [lia|done|done]|]. intros [stop' n''] [Hn'' Hl']. split; [done|lia].
Qed.

(** The state the elements are read into. *)
Lemma nested_start k_type values : buffer_data values = [] -> nested_ok k_type (MkNested [0] values (MkBuffer [0] 1)).
Proof.
  intros Hv. split; cbn [nested_offsets nested_values nested_symbols]; rewrite ?Hv.
  - by split; [|constructor|].
  - constructor.
  - done.
  - intros _. by exists [].
Qed.

(** ** Views of rows *)

Lemma lossy_text_valid l : is_utf8 l = true -> lossy_text l = l.
Proof.
  intros Hl. unfold lossy_text. rewrite <- (utf8_units_concat l) at 2. unfold is_utf8 in Hl.
  induction (utf8_units l) as [|u us IH]; [done|]. cbn [forallb] in Hl. apply andb_prop in Hl as [Hu Hl].
  cbn [flat_map map concat]. rewrite IH by done. by destruct u.
Qed.

Lemma row_view (values : list Z) a b :
  0 <= a <= b -> b <= len values -> bytes_ok values ->
  let v := new_from_bytes (between_offsets values (a, b)) 0 a in
  view_ok [values] v /\ view_bytes [values] v = between_offsets values (a, b).
Proof.
  intros Hab Hb Hv. pose proof (length_between values (a, b) Hab Hb) as Hl. cbn [fst snd] in Hl.
  unfold new_from_bytes. destruct (_ <=? 12).
  - split; [cbn; by apply Forall_take, Forall_drop|done].
  - cbn [view_ok view_bytes]. change (get_at [values] 0) with (Some values). cbn [default]. unfold id. split.
    + exists values. split_and!; try done; lia.
    + rewrite Hl. by replace (a + (b - a)) with b by lia.
Qed.

(** Views into a buffer stay good when it grows. *)
Lemma view_grows (buffer more : list Z) v :
  bytes_ok more -> view_ok [buffer] v ->
  view_ok [buffer ++ more] v /\ view_bytes [buffer ++ more] v = view_bytes [buffer] v.
Proof.
  intros Hm. destruct v as [bytes|n i o]; [done|]. cbn [view_ok view_bytes].
  intros (b & Hi & Ho & Hn & Hle & Hb). assert (i = 0 /\ b = buffer) as [-> ->].
  { apply get_at_Some in Hi as [Hi0 Hi]. destruct (Z.to_nat i) as [|k] eqn:E; [|by destruct k].
    cbn in Hi. split; [lia|congruence]. }
  change (get_at [buffer ++ more] 0) with (Some (buffer ++ more)). change (get_at [buffer] 0) with (Some buffer).
  cbn [default]. unfold id. split.
  - exists (buffer ++ more). split_and!; try done; [rewrite length_app; lia|]. apply Forall_app. by split.
  - unfold between_offsets. cbn [fst snd]. rewrite drop_app_le by lia. apply take_app_le. rewrite length_drop. lia.
Qed.

Definition bytes_row (row : list Z) : option Cell := Some (CellBytes row).

(** A string column made of views. *)
Lemma view_array_ok views buffers :
  Forall (fun v => view_ok buffers v /\ is_utf8 (view_bytes buffers v) = true) views -> len views <= isize_max ->
  good_array (Utf8ViewArray views buffers None)
  /\ rows (Utf8ViewArray views buffers None) = map (fun v => bytes_row (view_bytes buffers v)) views.
Proof.
  intros Hv Hl. split; [|cbn [rows mask]; by rewrite map_map].
  split; [|done]. split_and!; cbn [array_len array_validity]; try done. lia.
Qed.

(** ** Char rows, the general way *)

Lemma decode_lossy_ok row context :
  bytes_ok row -> ok_with (decode_utf8 row Lossy context) (fun d => decoded_text d = lossy_text row).
Proof.
  intros Hb. unfold decode_utf8. destruct (is_utf8 row) eqn:E.
  - apply ok_with_ret. by rewrite lossy_text_valid.
  - eapply (ok_with_bind _ _ (fun t => t = lossy_text row)); [|intros t ->; by apply ok_with_ret].
    unfold transcode_utf8_lossy. eapply ok_with_bind; [apply reserve_ok|]. intros _ _. by apply ok_with_ret.
Qed.

Lemma transcode_rows_ok values ranges transcoded done_rows :
  bytes_ok values -> Forall (fun r : Z * Z => 0 <= r.1 <= r.2 /\ r.2 <= len values) ranges ->
  buffer_data transcoded = concat done_rows ->
  ok_with (try_fold (transcode_row values) (transcoded, 0 :: offsets_from 0 done_rows) ranges)
    (fun '(transcoded, offsets) =>
       let all := done_rows ++ map (fun r => lossy_text (between_offsets values r)) ranges in
       buffer_data transcoded = concat all /\ offsets = 0 :: offsets_from 0 all).
Proof.
  intros Hv Hr. revert transcoded done_rows. induction Hr as [|[a b] ranges [Hab Hb] _ IH]; intros transcoded done_rows Hd.
  - apply ok_with_ret. cbn. by rewrite app_nil_r.
  - cbn [try_fold]. unfold transcode_row at 2. cbn [fst snd] in *.
    rewrite get_range_between by done. cbn [or_panic mbind outcome_bind].
    eapply (ok_with_bind _ _ (fun '(t, o) => buffer_data t = concat (done_rows ++ [lossy_text (between_offsets values (a, b))])
      /\ o = 0 :: offsets_from 0 (done_rows ++ [lossy_text (between_offsets values (a, b))]))).
    + eapply ok_with_bind; [apply decode_lossy_ok; by apply Forall_take, Forall_drop|]. cbv beta. intros d Hdt.
      eapply ok_with_bind; [apply try_extend_ok|]. cbv beta. intros t Ht.
      eapply (ok_with_bind _ _ (fun o => o = len (buffer_data t))).
      { apply ok_with_ok_or. unfold try_i32. intros o. destruct (_ && _); [by intros [= <-]|done]. }
      cbv beta. intros o ->. apply ok_with_ret.
      rewrite Ht, Hd, Hdt, concat_app, offsets_from_app. cbn [concat offsets_from]. rewrite app_nil_r, length_app.
      split; [done|]. cbn [app]. by rewrite Z.add_0_l, Nat2Z.inj_add.
    + intros [t o] [Ht ->]. eapply ok_with_weaken; [by apply IH|]. intros [t' o']. cbn [map]. by rewrite <- app_assoc.
Qed.

Lemma collect_views (values : list Z) ranges :
  Forall (fun r : Z * Z => 0 <= r.1 <= r.2 /\ r.2 <= len values) ranges ->
  collect_values (fun window => row ← or_panic (get_range values window.1 window.2);
                                Ok (new_from_bytes row 0 window.1)) ranges
  = Ok (map (fun r => new_from_bytes (between_offsets values r) 0 r.1) ranges).
Proof.
  induction 1 as [|[a b] ranges [Hab Hb] _ IH]; [done|]. cbn [collect_values fst snd map] in *.
  rewrite get_range_between by done. cbn [or_panic mbind outcome_bind]. rewrite IH. done.
Qed.

(** Views of rows that are texts. *)
Lemma row_views_ok (values : list Z) boundaries :
  bytes_ok values -> boundaries_ok boundaries (len values) -> len boundaries <= isize_max ->
  Forall (fun row => is_utf8 row = true) (char_rows_of values boundaries) ->
  let a := Utf8ViewArray (map (fun r => new_from_bytes (between_offsets values r) 0 r.1) (windows boundaries)) [values] None in
  good_array a /\ rows a = map bytes_row (char_rows_of values boundaries).
Proof.
  intros Hv [Hz Ho Hl] Hlen Hrows.
  assert (Forall (fun r : Z * Z => 0 <= r.1 <= r.2 /\ r.2 <= len values) (windows boundaries)) as Hr.
  { apply offsets_ok_rows. split_and!; [by exists 0|done|lia]. }
  assert (Forall (fun r => view_ok [values] (new_from_bytes (between_offsets values r) 0 r.1)
    /\ view_bytes [values] (new_from_bytes (between_offsets values r) 0 r.1) = between_offsets values r)
    (windows boundaries)) as Hviews.
  { eapply Forall_impl; [exact Hr|]. intros [a b] [Hab Hb]. cbn [fst]. by apply row_view. }
  destruct (view_array_ok (map (fun r => new_from_bytes (between_offsets values r) 0 r.1) (windows boundaries)) [values])
    as [Ha Hrs].
  - apply Forall_map. unfold char_rows_of in Hrows. apply (Forall_map (between_offsets values)) in Hrows.
    rewrite Forall_forall in *. intros r Hin. destruct (Hviews r Hin) as [Hok Heq]. rewrite Heq. split; [done|].
    by apply Hrows.
  - rewrite length_map, length_windows. lia.
  - split; [done|]. rewrite Hrs. unfold char_rows_of. rewrite !map_map. apply map_ext_in.
    intros r Hin%list_elem_of_In. rewrite Forall_forall in Hviews. by destruct (Hviews r Hin) as [_ ->].
Qed.

Lemma offsets_from_boundaries rows : boundaries_ok (0 :: offsets_from 0 rows) (len (concat rows)).
Proof. split; [done|apply offsets_from_ordered|]. by rewrite last_offsets_from. Qed.

Lemma lossy_rows_valid rows : Forall (fun row => is_utf8 row = true) rows -> map lossy_text rows = rows.
Proof. induction 1 as [|r rows Hr _ IH]; [done|]. cbn. by rewrite lossy_text_valid, IH. Qed.

(** Char rows are read as texts, each transcoded on its own when it is not one. *)
Lemma nested_chars_ok values boundaries encoding :
  bytes_ok values -> boundaries_ok boundaries (len values) -> len boundaries <= isize_max ->
  ok_with (nested_chars values boundaries encoding)
    (fun a => good_array a /\ data_type a = ArrowUtf8View
       /\ rows a = map (fun row => bytes_row (lossy_text row)) (char_rows_of values boundaries)).
Proof.
  intros Hv Hb Hlen. unfold nested_chars.
  eapply (ok_with_bind _ _ (fun '(values', boundaries') => bytes_ok values' /\ boundaries_ok boundaries' (len values')
    /\ len boundaries' = len boundaries
    /\ Forall (fun row => is_utf8 row = true) (char_rows_of values' boundaries')
    /\ char_rows_of values' boundaries' = map lossy_text (char_rows_of values boundaries))).
  - pose proof (validate_nested_exact values Hv boundaries Hb) as Hval.
    destruct (validate_nested_char values boundaries) as [u|e| |]; try done.
    + apply ok_with_ret. split_and!; try done. by rewrite lossy_rows_valid.
    + destruct encoding; [done|]. unfold transcode_nested_char_lossy.
      eapply ok_with_bind; [apply vec_with_capacity_ok|]. cbv beta. intros t Ht.
      eapply ok_with_bind; [apply try_vec_ok|]. intros _ _.
      assert (Forall (fun r : Z * Z => 0 <= r.1 <= r.2 /\ r.2 <= len values) (windows boundaries)) as Hr.
      { destruct Hb as [Hz Ho Hl]. apply offsets_ok_rows. split_and!; [by exists 0|done|lia]. }
      eapply ok_with_bind; [by apply (transcode_rows_ok values (windows boundaries) t [])|]. cbv beta zeta.
      intros [t' o'] [Ht' ->]. apply ok_with_ret. cbn [app] in *. rewrite Ht'.
      set (rs := map (fun r => lossy_text (between_offsets values r)) (windows boundaries)).
      assert (char_rows_of (concat rs) (0 :: offsets_from 0 rs) = rs) as Hrs by apply rows_from_zero.
      split_and!.
      * apply Forall_concat. unfold rs. apply Forall_map, Forall_forall. intros r _.
        apply lossy_text_bytes. by apply Forall_take, Forall_drop.
      * apply offsets_from_boundaries.
      * cbn [length]. rewrite length_offsets_from. unfold rs. rewrite length_map, length_windows.
        destruct Hb as [Hz _ _]. destruct boundaries; [done|]. cbn [length]. lia.
      * rewrite Hrs. unfold rs. apply Forall_map, Forall_forall. intros r _. apply lossy_text_utf8.
      * rewrite Hrs. unfold rs, char_rows_of. by rewrite map_map.
  - intros [values' boundaries'] (Hv' & Hb' & Hl' & Hu & Hrows).
    eapply ok_with_bind; [apply try_vec_ok|]. intros _ _.
    rewrite collect_views.
    2: { destruct Hb' as [Hz Ho Hl]. apply offsets_ok_rows. split_and!; [by exists 0|done|lia]. }
    cbn [mbind outcome_bind]. apply ok_with_ret.
    destruct (row_views_ok values' boundaries') as [Ha Hrs]; [done|done|lia|done|].
    split_and!; [done|done|]. rewrite Hrs, Hrows. by rewrite map_map.
Qed.
End Nested.

(** ** The children of lists of lists, and the list around them *)

Section Children.
  Context `{Allocator} `{Chrono} {Series DataFrame : Type} `{!Polars Series DataFrame}.
  Context `{!PolarsLaws} `{!PolarsReturns}.

Abbreviation kval := (K Series DataFrame).

(** A child array with [n] rows, as its field announces it. *)
Definition child_of (t : ArrowDataType) (n : Z) (a : Array) : Prop :=
  good_array a /\ data_type a = t /\ array_len a = n.

Lemma owned_numbers_ok t bytes context :
  ok_with (decode_owned_wire_numbers t bytes context) (fun values => values = wire_values t bytes).
Proof.
  unfold decode_owned_wire_numbers. destruct (try_transmute t bytes) as [values|] eqn:E.
  - apply ok_with_ret. by destruct (try_transmute_values _ _ _ E).
  - apply decode_wire_numbers_ok.
Qed.

(** Numbers under a bitmap made of a test of them, as a child. *)
Lemma tested_child_ok t dt (p : Z -> bool) context values :
  native_type dt = Some t -> keeps_values dt = true -> Forall (in_native t) values -> len values <= isize_max ->
  ok_with (validity ← optional_validity (map p values) context; primitive_array t dt values validity)
    (child_of dt (len values)).
Proof.
  intros Ht Hk Hv Hl. eapply ok_with_bind; [apply optional_validity_ok|]. cbv beta. rewrite length_map.
  intros validity [Hval _]. eapply ok_with_weaken; [by apply primitive_array_ok|]. by intros a [-> Ha].
Qed.

Lemma nested_integers_ok t dt context bytes n :
  native_type dt = Some t -> keeps_values dt = true -> len bytes = n * wire_width t -> bytes_ok bytes ->
  n <= isize_max -> ok_with (nested_integers t dt context bytes) (child_of dt n).
Proof.
  intros Ht Hk Hl Hb Hn. destruct (wire_values_shape t bytes n Hl Hb) as [<- Hnat]. unfold nested_integers.
  eapply ok_with_bind; [apply owned_numbers_ok|]. cbv beta. intros values ->. by apply tested_child_ok.
Qed.

Lemma nested_floats_ok t dt context bytes n :
  native_type dt = Some t -> keeps_values dt = true -> len bytes = n * wire_width t -> bytes_ok bytes ->
  n <= isize_max -> ok_with (nested_floats t dt context bytes) (child_of dt n).
Proof.
  intros Ht Hk Hl Hb Hn. destruct (wire_values_shape t bytes n Hl Hb) as [<- Hnat]. unfold nested_floats.
  eapply ok_with_bind; [apply owned_numbers_ok|]. cbv beta. intros values ->. by apply tested_child_ok.
Qed.

Lemma nested_timestamps_ok bytes n :
  len bytes = n * 8 -> bytes_ok bytes -> n <= isize_max ->
  ok_with (nested_timestamps bytes) (child_of (ArrowTimestamp Nanoseconds) n).
Proof.
  intros Hl Hb Hn. destruct (wire_values_shape I64 bytes n Hl Hb) as [<- Hnat]. unfold nested_timestamps.
  eapply ok_with_bind; [apply owned_numbers_ok|]. cbv beta. intros values ->.
  eapply ok_with_bind; [by apply unix_timestamps_ok|]. cbv beta. intros values [-> Hv].
  eapply ok_with_weaken; [by apply tested_child_ok; rewrite ?length_map|]. intros a. by rewrite length_map.
Qed.

(** The type the field of a nested list gives its child. *)
Definition child_type (k_type : Z) : ArrowDataType :=
  match k_type with
  | 1 => ArrowBoolean | 4 => ArrowUInt8 | 5 => ArrowInt16 | 6 => ArrowInt32 | 7 => ArrowInt64
  | 8 => ArrowFloat32 | 9 => ArrowFloat64 | 12 => ArrowTimestamp Nanoseconds | _ => ArrowLargeUtf8
  end.

Lemma nested_types k_type : nested_type k_type = true -> k_type ∈ [1; 4; 5; 6; 7; 8; 9; 10; 11; 12].
Proof.
  unfold nested_type. intros Hk. assert (k_type = 1 \/ 4 <= k_type <= 12) as Hr by bool_lia.
  rewrite !elem_of_cons. lia.
Qed.

Lemma create_field_child k_type name :
  nested_type k_type = true ->
  exists nullable, create_field k_type name = Ok (MkField name (child_type k_type) nullable).
Proof.
  intros Hk%nested_types. revert k_type Hk. apply Forall_forall. repeat constructor; by eexists.
Qed.

Lemma nested_width k_type n w :
  nested_ok k_type n -> k_type <> 11 -> get_at K_TYPE_SIZE k_type = Some w ->
  len (buffer_data (nested_values n)) = last_offset (nested_offsets n) * w.
Proof. intros [_ _ Hf _] Hk Hw. by apply Hf. Qed.

Lemma boolean_child_ok n encoding :
  nested_ok 1 n -> ok_with (nested_child 1 n encoding) (child_of ArrowBoolean (last_offset (nested_offsets n))).
Proof.
  intros Hn. pose proof (nested_width 1 n 1 Hn ltac:(lia) eq_refl) as Hl. destruct Hn as [[_ _ Hfit] _ _ _].
  unfold nested_child. cbn [Z.eqb].
  eapply ok_with_bind; [apply boolean_values_ok; bool_lia|]. cbv beta. intros bits ->.
  eapply ok_with_weaken; [apply boolean_array_ok; rewrite length_map; bool_lia|]. intros a [-> Ha].
  split_and!; [done|done|]. cbn [array_len]. rewrite length_map. lia.
Qed.

Lemma byte_child_ok n encoding :
  nested_ok 4 n -> ok_with (nested_child 4 n encoding) (child_of ArrowUInt8 (last_offset (nested_offsets n))).
Proof.
  intros Hn. pose proof (nested_width 4 n 1 Hn ltac:(lia) eq_refl) as Hl. destruct Hn as [[_ _ Hfit] Hb _ _].
  unfold nested_child. cbn [Z.eqb].
  eapply ok_with_weaken; [apply primitive_array_ok; try done; bool_lia|]. intros a [-> Ha].
  split_and!; [done|done|]. cbn [array_len]. lia.
Qed.

Lemma symbol_child_ok n encoding :
  nested_ok 11 n -> ok_with (nested_child 11 n encoding) (child_of ArrowLargeUtf8 (last_offset (nested_offsets n))).
Proof.
  intros [[_ _ Hfit] Hb _ Hn]. destruct (Hn eq_refl) as (names & Hu & Hv & Hs & Hl).
  unfold nested_child. cbn [Z.eqb]. rewrite Hs, Hv. rewrite Hv in Hb.
  eapply ok_with_weaken; [apply large_utf8_array_ok; [done| |bool_lia]|].
  - apply Forall_forall. intros x Hx. apply Forall_forall. intros b Hb'. rewrite Forall_forall in Hb.
    apply Hb. apply list_elem_of_In, in_concat. exists x. by rewrite <- !list_elem_of_In.
  - cbv beta. intros a (-> & Ha & _). split_and!; [done|done|]. cbn [array_len length]. rewrite length_offsets_from. lia.
Qed.

(** The series a list of lists becomes: texts for chars, and lists of the type of the
    elements for the others. *)
Definition nested_dtype (k_type : Z) : DataType :=
  match k_type with
  | 1 => DList DBoolean | 4 => DList DUInt8 | 5 => DList DInt16 | 6 => DList DInt32 | 7 => DList DInt64
  | 8 => DList DFloat32 | 9 => DList DFloat64 | 10 => DString | 11 => DList DCategorical
  | 12 => DList (DDatetime Nanoseconds) | _ => DNull
  end.

Lemma nested_dtype_child k_type :
  nested_type k_type = true -> k_type <> 10 -> k_type <> 11 -> DList (polars_of (child_type k_type)) = nested_dtype k_type.
Proof.
  intros Hk%nested_types. rewrite !elem_of_cons, elem_of_nil in Hk.
  destruct Hk as [->|[->|[->|[->|[->|[->|[->|[->|[->|[->|[]]]]]]]]]]]; done.
Qed.

(** Every child but a char one is as its field announces it. *)
Lemma nested_child_ok k_type n encoding :
  nested_type k_type = true -> k_type <> 10 -> nested_ok k_type n ->
  ok_with (nested_child k_type n encoding) (child_of (child_type k_type) (last_offset (nested_offsets n))).
Proof.
  intros Hk Hc Hn. pose proof (nested_grow _ _ Hn) as [_ _ Hfit]. pose proof (nested_bytes _ _ Hn) as Hb.
  assert (last_offset (nested_offsets n) <= isize_max) as Hmax by bool_lia.
  apply nested_types in Hk. rewrite !elem_of_cons, elem_of_nil in Hk.
  destruct Hk as [->|[->|[->|[->|[->|[->|[->|[->|[->|[->|[]]]]]]]]]]].
  - by apply boolean_child_ok.
  - by apply byte_child_ok.
  - by apply nested_integers_ok; try done; apply (nested_width 5).
  - by apply nested_integers_ok; try done; apply (nested_width 6).
  - by apply nested_integers_ok; try done; apply (nested_width 7).
  - by apply nested_floats_ok; try done; apply (nested_width 8).
  - by apply nested_floats_ok; try done; apply (nested_width 9).
  - done.
  - by apply symbol_child_ok.
  - by apply nested_timestamps_ok; try done; apply (nested_width 12).
Qed.

Lemma child_keeps k_type : keeps_values (child_type k_type) = true.
Proof. unfold child_type. by repeat case_match. Qed.

(** The list over a child. *)
Lemma list_array_ok name t nullable offsets a :
  child_of t (last_offset offsets) a -> offsets_grow offsets -> len offsets <= isize_max ->
  ok_with (list_array (MkField name t nullable) offsets a)
    (fun l => l = ListArray (ArrowList name t nullable) offsets a None /\ good_array l).
Proof.
  intros ([Ha Hk] & <- & Hl) [Hh Ho Hf] Hlen. unfold list_array, or_panics. cbn [field_type].
  rewrite bool_decide_eq_true_2 by done. replace (last_offset offsets <=? array_len a) with true by lia.
  apply ok_with_ret. split; [done|]. split; [|done].
  assert (0 < len offsets) by (destruct offsets; [done|cbn [length]; lia]).
  split; [cbn [array_len]; lia|]. split; [done|]. split; [by eexists _, _|]. split; [|done]. split_and!; [by exists 0|done|lia].
Qed.

Lemma char_boundaries n : nested_ok 10 n -> boundaries_ok (nested_offsets n) (len (buffer_data (nested_values n))).
Proof.
  intros Hn. pose proof (nested_width 10 n 1 Hn ltac:(lia) eq_refl) as Hl. destruct Hn as [[Hh Ho _] _ _ _].
  split; [done|done|lia].
Qed.

Lemma series_from_is name a t n :
  good_array a -> polars_of (data_type a) = t -> len (rows a) = n ->
  ok_with (series_from name a : res kval) (has_rows t n).
Proof. intros Ha <- Hn. eapply is_series_rows; [by apply series_from_ok|exact Hn]. Qed.

Lemma cast_ok s t :
  ok_with (map_err DeserializationErr (cast s t)) (fun s' => dtype s' = t /\ len (series_rows s') = len (series_rows s)).
Proof.
  pose proof (cast_returns s t) as Hc. destruct (cast s t) as [s'| | |] eqn:E; try done. apply ok_with_ret.
  by apply cast_rows.
Qed.

Lemma len_char_rows values boundaries : boundaries <> [] -> len (char_rows_of values boundaries) = len boundaries - 1.
Proof.
  intros Hne. unfold char_rows_of. rewrite length_map, length_windows. destruct boundaries; [done|]. cbn [length]. lia.
Qed.

Lemma trailing_ok vec pos : ok_with (trailing_bytes vec pos) (fun _ => pos = len vec).
Proof. unfold trailing_bytes. destruct (Z.eqb_spec pos (len vec)); [by apply ok_with_ret|done]. Qed.

(** A list of lists, the general way. *)
Lemma nested_list_ok vec pos length k_type capacity name encoding :
  bytes_ok vec -> 0 <= pos -> 0 <= length <= i32_max -> nested_type k_type = true ->
  ok_with (nested_list vec pos length k_type capacity name encoding : res kval) (has_rows (nested_dtype k_type) length).
Proof.
  intros Hb Hp Hlen Hk. unfold nested_list, uadd. rewrite checked_add_eq by bool_lia. cbn [or_panic mbind outcome_bind].
  eapply ok_with_bind; [apply try_vec_ok|]. intros _ _.
  eapply ok_with_bind; [apply vec_with_capacity_ok|]. cbv beta. intros values Hv.
  eapply ok_with_bind; [apply nested_elements_ok; [done|done|done|by apply nested_start]|]. cbv beta.
  cbn [nested_offsets]. intros [stop n] [Hn Hl]. cbn [base.length] in Hl.
  assert (len (nested_offsets n) <= isize_max) as Hmax by bool_lia.
  assert (nested_offsets n <> []) as Hne by (intros E; rewrite E in Hl; cbn [base.length] in Hl; lia).
  eapply ok_with_bind; [apply trailing_ok|]. intros _ _.
  destruct (create_field_child k_type name Hk) as [nullable Hfield]. rewrite Hfield. cbn [mbind outcome_bind].
  destruct (Z.eqb_spec k_type 10) as [->|Hc].
  - eapply ok_with_bind.
    + unfold nested_child. cbn [Z.eqb]. apply nested_chars_ok; [apply Hn|by apply char_boundaries|done].
    + cbv beta. intros a (Ha & Ht & Hr). apply series_from_is; [done|by rewrite Ht|].
      rewrite Hr, length_map, len_char_rows by done. lia.
  - eapply ok_with_bind; [by apply nested_child_ok|]. cbv beta. intros a Ha.
    eapply ok_with_bind; [apply list_array_ok; [done|apply Hn|done]|]. cbv beta. intros l [-> [Hl1 Hl2]].
    destruct (from_arrow_rows name _ Hl1 Hl2) as (s & Hs & Ht & Hr). rewrite Hs. cbn [map_err mbind outcome_bind].
    assert (len (series_rows s) = length) as Hrows.
    { rewrite Hr. cbn [rows mask]. rewrite !length_map, length_windows. destruct (nested_offsets n); [done|].
      cbn [base.length] in *. lia. }
    destruct (Z.eqb_spec k_type 11) as [->|Hc'].
    + eapply ok_with_bind; [apply cast_ok|]. cbv beta. intros s' [Ht' Hr']. apply ok_with_ret. exists s'.
      split_and!; [done|done|lia].
    + apply ok_with_ret. exists s. split_and!; [done| |done]. rewrite Ht. by apply nested_dtype_child.
Qed.
End Children.
