(* ===== verification/SeriesReadSpec.v ===== *)
(** * SeriesReadSpec: a list from the wire decodes to a value of its length and type, or to
    an error *)

From stdpp Require Import prelude strings gmap.
From Stdlib Require Import ZArith Lia ZifyBool.
From S2P Require Import Prelude Errors Types Utf8 QValue Compress Framing ListScan ListScanSpec Text Value AnyValue WireText Float64 Deserialize Arrow Polars SeriesRead SeriesFacts SymbolSpec SeriesFormat SeriesWriteFacts SeriesWriteSpec SeriesSizeSpec NestedCharSpec SeriesReadFacts NestedReadFacts.

Section Reading.
  Context `{Allocator} `{Chrono} {Series DataFrame : Type} `{!Polars Series DataFrame}.
  Context `{!PolarsLaws} `{!PolarsReturns}.

Abbreviation kval := (K Series DataFrame).

(** ** Char rows in one pass *)

(** Views of texts in one buffer. *)
Definition text_views (data : list Z) (views : list View) : Prop :=
  Forall (fun v => view_ok [data] v /\ is_utf8 (view_bytes [data] v) = true) views.

Lemma text_views_push data views payload :
  bytes_ok data -> bytes_ok payload -> is_utf8 payload = true -> text_views data views ->
  text_views (data ++ payload) (views ++ [new_from_bytes payload 0 (len data)]).
Proof.
  intros Hd Hp Hu Hv. apply Forall_app. split.
  - eapply Forall_impl; [exact Hv|]. intros v [Hok Ht]. destruct (view_grows data payload v Hp Hok) as [Hok' Heq].
    by rewrite Heq.
  - constructor; [|constructor].
    assert (between_offsets (data ++ payload) (len data, len data + len payload) = payload) as Hb.
    { unfold between_offsets. cbn [fst snd]. rewrite drop_app_length' by lia. rewrite take_ge by lia. done. }
    destruct (row_view (data ++ payload) (len data) (len data + len payload)) as [Hok Heq]; [lia| | |].
    + rewrite length_app. lia.
    + by apply Forall_app.
    + cbn zeta in *. rewrite Hb in Hok, Heq. by rewrite Heq.
Qed.

Lemma char_payload_ok vec t n pos :
  bytes_ok vec -> 0 <= n -> 0 <= pos ->
  ok_with (if (t =? 0) && (n =? 0) then Ok ([], pos)
           else if t =? 10 then element_payload vec pos n else Err (NotSupportedKMixedListErr 10 t))
    (fun '(payload, stop) => bytes_ok payload /\ pos <= stop).
Proof.
  intros Hb Hn Hp. destruct (_ && _); [apply ok_with_ret; by split; [constructor|]|]. destruct (t =? 10); [|done].
  eapply ok_with_weaken; [by apply element_payload_ok|]. intros [payload stop] (_ & Hpb & -> & _). split; [done|lia].
Qed.

Lemma text_test payload : negb (is_ascii payload) && negb (is_utf8 payload) = negb (is_utf8 payload).
Proof.
  destruct (is_ascii payload) eqn:E; [|done]. cbn [negb andb]. by rewrite ascii_utf8.
Qed.

Lemma char_rows_ok length vec pos views values :
  bytes_ok vec -> 0 <= pos -> bytes_ok (buffer_data values) -> text_views (buffer_data values) views ->
  ok_with (char_rows length vec pos views values)
    (fun decoded => forall views' values' stop, decoded = Some (views', values', stop) ->
       text_views (buffer_data values') views' /\ len views' = len views + Z.of_nat length).
Proof.
  intros Hb. revert pos views values. induction length as [|length IH]; intros pos views values Hp Hd Hv;
    cbn [char_rows].
  - apply ok_with_ret. intros ??? [= <- <- _]. split; [done|lia].
  - eapply ok_with_bind; [by apply element_header_ok|]. cbv beta. intros [[t n] stop] (Hn & -> & _).
    eapply ok_with_bind; [apply char_payload_ok; [done|lia|lia]|]. cbv beta. intros [payload stop] [Hpb Hstop].
    rewrite text_test. destruct (is_utf8 payload) eqn:E; cbn [negb]; [|by apply ok_with_ret].
    apply ok_with_guard. intros _. eapply ok_with_bind; [apply try_extend_ok|]. cbv beta. intros values' Hv'.
    eapply ok_with_weaken; [apply IH; [lia| |]|].
    + rewrite Hv'. apply Forall_app. by split.
    + rewrite Hv'. by apply text_views_push.
    + cbv beta. intros decoded Hdec v' b' s' Heq. destruct (Hdec v' b' s' Heq) as [Ht Hl]. split; [done|].
      rewrite Hl, length_app. cbn [base.length]. lia.
Qed.

Lemma decode_char_rows_ok vec pos length capacity :
  bytes_ok vec -> 0 <= pos -> 0 <= length <= i32_max ->
  ok_with (decode_char_rows vec pos length capacity)
    (fun decoded => forall a, decoded = Some a ->
       good_array a /\ polars_of (data_type a) = DString /\ len (rows a) = length).
Proof.
  intros Hb Hp Hl. unfold decode_char_rows. eapply ok_with_bind; [apply try_vec_ok|]. intros _ _.
  eapply ok_with_bind; [apply vec_with_capacity_ok|]. cbv beta. intros values Hv.
  eapply ok_with_bind; [apply (char_rows_ok _ vec pos [] values); [done|done|rewrite Hv; constructor|constructor]|].
  cbv beta. intros [[[views values'] stop]|] Hdec; [|by apply ok_with_ret].
  destruct (Hdec _ _ _ eq_refl) as [Ht Hlen]. eapply ok_with_bind; [apply trailing_ok|]. intros _ _.
  apply ok_with_ret. intros a [= <-]. cbn [base.length] in Hlen.
  destruct (view_array_ok views [buffer_data values']) as [Ha Hr]; [done|bool_lia|].
  split_and!; [done|done|]. rewrite Hr, length_map. lia.
Qed.

Lemma collect_values_length {A B} (f : A -> res B) l values : collect_values f l = Ok values -> length values = length l.
Proof.
  revert values. induction l as [|a l IH]; intros values; cbn [collect_values]; [by intros [= <-]|].
  intros (b & _ & (rest & Hr & [= <-])%bind_Ok)%bind_Ok. cbn [length]. by rewrite (IH rest).
Qed.

(** ** Lists of lists *)

(** The type of a series without rows. *)
Definition empty_dtype (k_type : Z) : DataType :=
  match k_type with
  | 1 => DBoolean | 2 => DBinary | 4 | 10 => DString | 5 => DInt16 | 6 => DInt32 | 7 => DInt64 | 8 => DFloat32
  | 9 => DFloat64 | 11 => DCategorical | 12 | 15 => DDatetime Nanoseconds | 14 => DDate
  | 16 => DDuration Nanoseconds | 17 | 18 | 19 => DTime | _ => DNull
  end.

Lemma empty_has_rows name t : sized t = true -> has_rows t 0 (KSeries (new_empty name t) : kval).
Proof. intros Ht. destruct (new_empty_rows name t Ht) as [Hd Hr]. eexists. split_and!; [done|done|by rewrite Hr]. Qed.

Lemma new_empty_ok k_type :
  0 <= k_type < 20 -> ok_with (new_empty_series k_type : res kval) (has_rows (empty_dtype k_type) 0).
Proof.
  intros Hk. unfold new_empty_series, k_type_name.
  destruct (get_at_is_Some K_TYPE_NAME k_type) as [name ->]; [done|]. cbn [or_panic mbind outcome_bind].
  repeat match goal with
  | |- context [k_type =? ?n] => destruct (Z.eqb_spec k_type n) as [->|]; cbn [orb]; [by apply ok_with_ret, empty_has_rows|]
  end.
  destruct (between 17 k_type 19) eqn:E; [|done]. apply ok_with_ret.
  assert (k_type = 17 \/ k_type = 18 \/ k_type = 19) as Hr by (unfold between in E; bool_lia).
  destruct Hr as [->|[->| ->]]; by apply empty_has_rows.
Qed.

Lemma nested_capacity_ok vec pos length k_type :
  0 <= length <= i32_max -> pos <= len vec -> ok_with (nested_capacity vec pos length k_type) (fun _ => True).
Proof.
  intros Hl Hp. unfold nested_capacity. destruct (k_type =? 11); [by apply ok_with_ret|].
  unfold usub, checked_sub. replace (pos <=? len vec) with true by lia. cbn [or_panic mbind outcome_bind].
  by apply ok_with_ok_or.
Qed.

(** The number of elements a list declares, and the series a general list becomes: that
    of its first element, which stands after the list's own header. *)
Definition declared (vec : list Z) : Z := i32_from_le (take 4 (drop 1 vec)).

Definition general_dtype (vec : list Z) : DataType :=
  if declared vec =? 0 then DNull else nested_dtype (default 0 (get_at vec 5)).

Lemma list_length_declared vec context :
  bytes_ok vec ->
  ok_with (take_list_length vec 0 context)
    (fun '(n, stop) => 0 <= n <= i32_max /\ stop = 0 + 5 /\ stop <= len vec /\ n = declared vec).
Proof.
  intros Hb. pose proof (list_length_ok vec 0 context Hb ltac:(lia)) as [Hr Hok]. split; [exact Hr|].
  intros [n stop] E. destruct (Hok _ E) as (Hn & Hs & Hl). split_and!; [lia|lia|done|done|].
  unfold take_list_length in E. apply bind_Ok in E as (? & Hadd%ok_or_Ok & E).
  unfold checked_add in Hadd. destruct (_ <=? _); [|done]. injection Hadd as <-.
  apply bind_Ok in E as (header & Hh%ok_or_Ok & E). apply bind_Ok in E as (raw & Hraw & E).
  apply bind_Ok in E as (m & Hm%ok_or_Ok & [= <- <-]). unfold try_usize in Hm. destruct (_ && _); [|done].
  injection Hm as <-. unfold declared. f_equal. unfold get_range in Hh, Hraw.
  destruct (_ && _ && _) in Hh; [|done]. injection Hh as <-. destruct (_ && _ && _) in Hraw; [|done].
  cbn [or_panic] in Hraw. injection Hraw as <-.
  change (Z.to_nat (0 + 5 - 0)) with 5%nat. change (Z.to_nat (5 - 1)) with 4%nat. change (Z.to_nat 1) with 1%nat.
  change (drop (Z.to_nat 0) vec) with vec. by rewrite (skipn_firstn_comm 1 5), take_take.
Qed.

Lemma deserialize_nested_ok vec encoding :
  bytes_ok vec ->
  ok_with (deserialize_nested_array vec encoding : res kval) (has_rows (general_dtype vec) (declared vec)).
Proof.
  intros Hb. unfold deserialize_nested_array.
  eapply ok_with_bind; [by apply list_length_declared|]. cbv beta. intros [length pos] (Hl & -> & Hpos & E).
  unfold general_dtype. rewrite <- E. destruct (Z.eqb_spec length 0) as [->|].
  { destruct (negb _); [done|]. by apply new_empty_ok. }
  destruct (get_at vec (0 + 5)) as [k_type|] eqn:Ek; [|done]. cbn [ok_or mbind outcome_bind].
  change (get_at vec 5) with (get_at vec (0 + 5)). rewrite Ek. cbn [default]. unfold id.
  destruct (nested_type k_type) eqn:Hk; cbn [negb]; [|done].
  assert (0 <= k_type < 20) as Hr by (unfold nested_type in Hk; bool_lia).
  unfold k_type_name. destruct (get_at_is_Some K_TYPE_NAME k_type) as [name ->]; [done|]. cbn [or_panic mbind outcome_bind].
  eapply ok_with_bind; [apply nested_capacity_ok; [done|lia]|]. intros capacity _.
  eapply (ok_with_bind _ _ (fun decoded => forall a, decoded = Some a ->
    good_array a /\ polars_of (data_type a) = nested_dtype k_type /\ len (rows a) = length)).
  { destruct (Z.eqb_spec k_type 10) as [->|]; [apply decode_char_rows_ok; [done|lia|done]|by apply ok_with_ret]. }
  cbv beta. intros [a|] Ha.
  - by apply series_from_is; apply Ha.
  - apply nested_list_ok; [done|lia|done|done].
Qed.

(** ** Any list *)

Lemma check_payload_ok k_type length array_vec :
  0 <= k_type < 20 ->
  ok_with (check_payload k_type length array_vec)
    (fun _ => k_type = 0 \/ k_type = 11 \/ exists w, get_at K_TYPE_SIZE k_type = Some w /\ len array_vec = length * w).
Proof.
  intros Hk. unfold check_payload. destruct ((k_type =? 0) || (k_type =? 11)) eqn:E.
  { apply ok_with_ret. lia. }
  unfold k_type_size. destruct (get_at_is_Some K_TYPE_SIZE k_type) as [w Hw]; [done|]. rewrite Hw.
  cbn [or_panic mbind outcome_bind]. unfold checked_mul. destruct (_ <=? _); [|done]. cbn [ok_or mbind outcome_bind].
  destruct (Z.eqb_spec (len array_vec) (length * w)); cbn [negb]; [|done]. apply ok_with_ret. right. right. by exists w.
Qed.

(** What a decoded list is: the char vector of the declared length, outside a table, and
    otherwise a series with the declared number of rows, of the type that belongs to the
    list's.  A symbol list is a column of categories or one of strings. *)
Definition list_dtype (k_type : Z) (as_column : bool) (vec : list Z) : DataType :=
  if k_type =? 0 then general_dtype vec
  else if declared vec =? 0 then empty_dtype k_type
  else if k_type =? 4 then DUInt8
  else if (k_type =? 11) && negb as_column then DString
  else empty_dtype k_type.

Definition list_value (k_type : Z) (as_column : bool) (vec : list Z) (k : kval) : Prop :=
  if (k_type =? 10) && negb as_column then exists bytes, k = KCharVector bytes /\ len bytes = declared vec
  else has_rows (list_dtype k_type as_column vec) (declared vec) k.

Lemma deserialize_symbols_ok array_vec length name as_column encoding :
  bytes_ok array_vec -> 0 <= length <= i32_max ->
  ok_with (deserialize_symbols array_vec length name as_column encoding)
    (has_rows (if as_column then DCategorical else DString) length).
Proof.
  intros Hb Hl. unfold deserialize_symbols. eapply ok_with_bind; [by apply decode_utf8_ok|]. cbv beta.
  intros d (Hu & Hd & _). destruct as_column.
  - eapply ok_with_weaken; [apply decode_symbol_column_ok; [done|lia]|]. cbv beta.
    intros k (names & ids & _ & Hn & _ & Hids & ->).
    assert (len ids = length) as Hlen by (apply Forall2_length in Hids; lia).
    destruct (from_categories_rows name ids) as [Ht Hr]; [|bool_lia|].
    { apply Forall_forall. intros id Hin. apply list_elem_of_lookup in Hin as [i Hi].
      destruct (Forall2_lookup_r _ _ _ _ _ Hids Hi) as (s & _ & Hid). by destruct (insert_cat_symbol s id name [] Hid). }
    eexists. split_and!; [done|done|]. by rewrite Hr, length_map.
  - eapply ok_with_weaken; [by apply symbol_list_ok|]. cbv beta. intros k (names & _ & Hn & s & -> & Ht & Hr).
    exists s. split_and!; [done|done|]. by rewrite Hr, length_map.
Qed.

Lemma len_wire_values t bytes n :
  len bytes = n * wire_width t -> bytes_ok bytes -> len (wire_values t bytes) = n.
Proof. intros Hl Hb. by destruct (wire_values_shape t bytes n Hl Hb). Qed.

(** The payload of a list that is not empty, when it is as long as its count says. *)
Lemma deserialize_payload_ok vec array_vec k_type length name as_column encoding :
  slice_ok vec -> slice_ok array_vec -> 0 <= length <= i32_max -> length = declared vec -> length <> 0 ->
  (k_type = 0 \/ k_type = 11 \/ exists w, get_at K_TYPE_SIZE k_type = Some w /\ len array_vec = length * w) ->
  ok_with (deserialize_payload vec array_vec k_type length name as_column encoding)
    (list_value k_type as_column vec).
Proof.
  intros [Hb _] [Hab Hal] Hl Hdecl Hne Hw. unfold deserialize_payload, list_value, list_dtype. rewrite <- Hdecl.
  assert (length <= isize_max) as Hm by bool_lia. replace (length =? 0) with false by lia.
  destruct (Z.eqb_spec k_type 0) as [->|Hk0].
  { cbn [Z.eqb andb]. subst length. by apply deserialize_nested_ok. }
  destruct (Z.eqb_spec k_type 11) as [->|Hk11].
  { cbn [Z.eqb Pos.eqb andb]. pose proof (deserialize_symbols_ok array_vec length name as_column encoding Hab Hl).
    by destruct as_column. }
  destruct Hw as [?|[?|(w & Hw & Hlen)]]; [done|done|].
  repeat match goal with
  | |- context [k_type =? ?n] =>
    destruct (Z.eqb_spec k_type n) as [->|]; [vm_compute in Hw; injection Hw as <-; cbn [Z.eqb Pos.eqb andb]|]
  end.
  - eapply is_series_rows; [by apply boolean_list_ok|]. rewrite length_map. lia.
  - eapply is_series_rows; [by apply (guid_list_ok _ _ length)|]. rewrite length_map.
    destruct (chunks_exact_shape (Z.to_nat length) 16 array_vec) as [-> _]; lia.
  - eapply is_series_rows; [by apply byte_list_ok|]. rewrite length_map. lia.
  - eapply is_series_rows; [by apply (integer_list_ok I16 ArrowInt16 _ _ _ length)|]. rewrite length_map. by apply len_wire_values.
  - eapply is_series_rows; [by apply (integer_list_ok I32 ArrowInt32 _ _ _ length)|]. rewrite length_map. by apply len_wire_values.
  - eapply is_series_rows; [by apply (integer_list_ok I64 ArrowInt64 _ _ _ length)|]. rewrite length_map. by apply len_wire_values.
  - eapply is_series_rows; [by apply (float_list_ok F32 ArrowFloat32 _ _ _ length)|]. rewrite length_map. by apply len_wire_values.
  - eapply is_series_rows; [by apply (float_list_ok F64 ArrowFloat64 _ _ _ length)|]. rewrite length_map. by apply len_wire_values.
  - destruct as_column; cbn [negb].
    { eapply is_series_rows; [by apply char_column_ok|]. rewrite length_map. lia. }
    unfold char_vector. eapply ok_with_bind; [apply try_copy_ok|]. cbv beta. intros bytes ->. apply ok_with_ret.
    eexists. split; [done|lia].
  - eapply is_series_rows; [by apply (timestamp_list_ok _ _ length)|]. rewrite length_map. by apply len_wire_values.
  - eapply is_series_rows; [by apply (date_list_ok _ _ length)|]. rewrite length_map. by apply len_wire_values.
  - eapply ok_with_weaken; [by apply (datetime_list_ok _ _ length)|]. intros k (values & Hv & s & -> & Ht & Hr). exists s.
    split_and!; [done|done|]. apply collect_values_length in Hv. rewrite Hr, length_map, Hv. by apply len_wire_values.
  - eapply is_series_rows; [by apply (timespan_list_ok _ _ length)|]. rewrite length_map. by apply len_wire_values.
  - destruct (between 17 k_type 19) eqn:E; [|done].
    assert (k_type = 17 \/ k_type = 18 \/ k_type = 19) as Hk by (unfold between in E; bool_lia).
    assert (len array_vec = length * 4) as Hl4 by (destruct Hk as [->|[->| ->]]; vm_compute in Hw; by injection Hw as <-).
    replace (k_type =? 10) with false by lia. cbn [andb].
    replace (empty_dtype k_type) with DTime by (by destruct Hk as [->|[->| ->]]).
    eapply is_series_rows; [by apply (time_list_ok _ _ _ length)|]. rewrite length_map. by apply len_wire_values.
Qed.

Lemma deserialize_series_ok vec k_type as_column encoding :
  slice_ok vec -> 0 <= k_type ->
  ok_with (deserialize_series vec k_type as_column encoding) (list_value k_type as_column vec).
Proof.
  intros [Hb Hlen] Hk. unfold deserialize_series. change (len K_TYPE_SIZE) with 20.
  destruct (Z.leb_spec 20 k_type) as [|Hk']; [done|].
  eapply ok_with_bind; [by apply list_length_declared|]. cbv beta. intros [length pos] (Hl & -> & Hpos & Hd).
  destruct (Z.eqb_spec length 0) as [->|Hne].
  { destruct (negb _); [done|]. unfold list_value, list_dtype, general_dtype. rewrite <- Hd.
    destruct ((k_type =? 10) && negb as_column); [apply ok_with_ret; by exists []|]. cbn [Z.eqb].
    eapply ok_with_weaken; [by apply new_empty_ok|]. intros k Hr. by destruct (Z.eqb_spec k_type 0) as [->|]. }
  destruct (get_from vec (0 + 5)) as [array_vec|] eqn:E; [|done]. cbn [ok_or mbind outcome_bind].
  unfold k_type_name. destruct (get_at_is_Some K_TYPE_NAME k_type) as [name Hname]; [done|]. rewrite Hname.
  cbn [or_panic mbind outcome_bind].
  eapply ok_with_bind; [by apply check_payload_ok|]. cbv beta. intros _ Hw.
  apply deserialize_payload_ok; [done| |done|done|done|exact Hw].
  unfold get_from in E. pose proof (get_range_bounds _ _ _ _ E). split; [by eapply get_range_Forall|lia].
Qed.
End Reading.

