(* ===== verification/CharRowsSpec.v ===== *)
(** * CharRowsSpec: the one-pass reader of char rows and the general reader agree,
    but for the message of one error *)

From stdpp Require Import prelude strings gmap.
From Stdlib Require Import ZArith Lia ZifyBool.
From S2P Require Import Prelude Errors Types Utf8 QValue Compress Framing ListScan ListScanSpec Text Value AnyValue WireText Float64 Deserialize DeserializeFacts Arrow Polars SeriesRead SeriesFacts SymbolSpec SeriesFormat SeriesWriteFacts SeriesWriteSpec SeriesSizeSpec NestedCharSpec SeriesReadFacts NestedReadFacts SeriesReadSpec.

#[local] Existing Instance unlimited.

Lemma grow_granted b n f : exists c, grow b n f = Ok (MkBuffer (buffer_data b) c).
Proof.
  unfold grow. destruct (_ <? _); [|by destruct b as [d c]; exists c]. rewrite reserve_unlimited. by eexists.
Qed.

Lemma extend_granted b payload c : exists k, try_extend b payload c = Ok (MkBuffer (buffer_data b ++ payload) k).
Proof. unfold try_extend. destruct (grow_granted b (len payload) (fun error =>
    DeserializationErr ("unable to grow " +:+ c +:+ " by " +:+ show (len payload) +:+ " byte(s): " +:+ error))) as [k ->].
  by eexists.
Qed.

(** Rows that are already there do not see what is appended. *)
Lemma between_grows (data more : list Z) (r : Z * Z) :
  0 <= r.1 <= r.2 -> r.2 <= len data -> between_offsets (data ++ more) r = between_offsets data r.
Proof.
  intros Hr Hl. unfold between_offsets. rewrite drop_app_le by lia. apply take_app_le. rewrite length_drop. lia.
Qed.

Lemma between_last (data more : list Z) : between_offsets (data ++ more) (len data, len data + len more) = more.
Proof. unfold between_offsets. cbn [fst snd]. rewrite drop_app_length' by lia. rewrite take_ge; [done|lia]. Qed.

Lemma boundaries_rows boundaries n :
  boundaries_ok boundaries n -> Forall (fun r : Z * Z => 0 <= r.1 <= r.2 /\ r.2 <= n) (windows boundaries).
Proof. intros [Hh Ho Hl]. apply offsets_ok_rows. split_and!; [by exists 0|done|lia]. Qed.

Lemma boundaries_push boundaries n m :
  boundaries_ok boundaries n -> 0 <= m -> boundaries_ok (boundaries ++ [n + m]) (n + m).
Proof.
  intros [Hh Ho Hl] Hm. assert (boundaries <> []) as Hne by by intros ->. split.
  - by destruct boundaries.
  - rewrite windows_snoc by done. apply Forall_app. split; [done|]. constructor; [cbn; lia|constructor].
  - apply last_offset_snoc.
Qed.

Lemma char_rows_push data boundaries payload :
  boundaries_ok boundaries (len data) ->
  char_rows_of (data ++ payload) (boundaries ++ [len data + len payload]) = char_rows_of data boundaries ++ [payload].
Proof.
  intros Hb. pose proof (boundaries_rows _ _ Hb) as Hr. destruct Hb as [Hh _ Hl]. unfold char_rows_of.
  rewrite windows_snoc by by intros ->. rewrite map_app, Hl. cbn [map]. rewrite between_last. f_equal.
  apply map_ext_in. intros r Hin%list_elem_of_In. rewrite Forall_forall in Hr. destruct (Hr r Hin). by apply between_grows.
Qed.

(** The views of the rows. *)
Definition row_views (data boundaries : list Z) : list View :=
  map (fun r => new_from_bytes (between_offsets data r) 0 r.1) (windows boundaries).

Lemma row_views_push data boundaries payload :
  boundaries_ok boundaries (len data) ->
  row_views (data ++ payload) (boundaries ++ [len data + len payload])
  = row_views data boundaries ++ [new_from_bytes payload 0 (len data)].
Proof.
  intros Hb. pose proof (boundaries_rows _ _ Hb) as Hr. destruct Hb as [Hh _ Hl]. unfold row_views.
  rewrite windows_snoc by by intros ->. rewrite map_app, Hl. cbn [map fst]. rewrite between_last. f_equal.
  apply map_ext_in. intros r Hin%list_elem_of_In. rewrite Forall_forall in Hr. destruct (Hr r Hin).
  by rewrite between_grows.
Qed.

(** The same rows, as views and as offsets. *)
Record same_rows (views : list View) (values : Buffer) (n : Nested) : Prop := {
  same_data : buffer_data (nested_values n) = buffer_data values;
  same_bytes : bytes_ok (buffer_data values);
  same_cut : boundaries_ok (nested_offsets n) (len (buffer_data values));
  same_views : views = row_views (buffer_data values) (nested_offsets n);
  same_texts : Forall (fun row => is_utf8 row = true) (char_rows_of (buffer_data values) (nested_offsets n))
}.

Lemma same_rows_push views values n payload k k' :
  same_rows views values n -> bytes_ok payload -> is_utf8 payload = true ->
  same_rows (views ++ [new_from_bytes payload 0 (len (buffer_data values))])
    (MkBuffer (buffer_data values ++ payload) k)
    (MkNested (nested_offsets n ++ [len (buffer_data values) + len payload])
       (MkBuffer (buffer_data values ++ payload) k') (nested_symbols n)).
Proof.
  intros [Hd Hb Hc Hv Ht] Hp Hu. split; cbn [buffer_data nested_values nested_offsets].
  - done.
  - by apply Forall_app.
  - rewrite length_app, Nat2Z.inj_add. apply boundaries_push; [done|lia].
  - by rewrite row_views_push, Hv.
  - rewrite char_rows_push by done. apply Forall_app. split; [done|by constructor].
Qed.

(** An empty element of a mixed list, which takes no payload. *)
Lemma same_rows_empty views values n k :
  same_rows views values n ->
  same_rows (views ++ [new_from_bytes [] 0 (len (buffer_data values))])
    (MkBuffer (buffer_data values ++ []) k)
    (MkNested (nested_offsets n ++ [len (buffer_data values)]) (nested_values n) (nested_symbols n)).
Proof.
  intros Hs. destruct (same_rows_push views values n [] k 0 Hs) as [Hd Hb Hc Hv Ht]; [constructor|done|].
  cbn [length Z.of_nat nested_offsets nested_values buffer_data] in *. rewrite Z.add_0_r in *.
  split; cbn [nested_offsets nested_values buffer_data]; try done. rewrite app_nil_r. apply Hs.
Qed.

Lemma header_at vec pos t n stop :
  bytes_ok vec -> 0 <= pos -> element_header vec pos = Ok (t, n, stop) -> 0 <= n <= i32_max /\ stop = pos + 6 /\ stop <= len vec.
Proof. intros Hb Hp E. pose proof (element_header_ok vec pos Hb Hp) as H. rewrite E in H. exact (proj2 H _ eq_refl). Qed.

Lemma payload_at vec pos n payload stop :
  bytes_ok vec -> 0 <= n -> element_payload vec pos n = Ok (payload, stop) ->
  len payload = n /\ bytes_ok payload /\ stop = pos + n /\ stop <= len vec.
Proof.
  intros Hb Hn E. pose proof (element_payload_ok vec pos n Hb Hn) as H. rewrite E in H.
  destruct (proj2 H _ eq_refl) as (? & ? & ? & ? & _). done.
Qed.

Lemma next_offset_char offsets n (data : list Z) :
  boundaries_ok offsets (len data) -> 0 <= n -> len data + n <= i32_max -> next_offset offsets n = Ok (len data + n).
Proof.
  intros [_ _ Hl] Hn Hm. unfold next_offset, try_i32, i32_checked, in_i32. rewrite Hl.
  pose proof (Zle_0_nat (length data)).
  repeat match goal with |- context [if ?b then _ else _] => replace b with true by bool_lia; cbn [ok_or mbind outcome_bind] end.
  done.
Qed.

(** One element, both ways. *)
Lemma element_agrees vec pos encoding views values n t count stop payload stop' :
  bytes_ok vec -> len vec <= i32_max -> 0 <= pos -> len (buffer_data values) <= pos -> same_rows views values n ->
  element_header vec pos = Ok (t, count, stop) ->
  (if (t =? 0) && (count =? 0) then Ok ([], stop)
   else if t =? 10 then element_payload vec stop count else Err (NotSupportedKMixedListErr 10 t)) = Ok (payload, stop') ->
  is_utf8 payload = true ->
  exists n', nested_element vec 10 encoding pos n = Ok (stop', n')
    /\ (forall k, same_rows (views ++ [new_from_bytes payload 0 (len (buffer_data values))])
          (MkBuffer (buffer_data values ++ payload) k) n')
    /\ len (buffer_data values ++ payload) <= stop' /\ stop' <= len vec /\ pos <= stop'.
Proof.
  intros Hb Hlen Hp Hd Hs Hh Hpay Hu. destruct (header_at _ _ _ _ _ Hb Hp Hh) as (Hc & -> & Hstop).
  pose proof (same_cut _ _ _ Hs) as Hcut. unfold nested_element. rewrite Hh. cbn [mbind outcome_bind].
  destruct ((t =? 0) && (count =? 0)) eqn:E0.
  - assert (t = 0 /\ count = 0) as [-> ->] by lia. injection Hpay as <- <-. change (negb (0 =? 0)) with false.
    cbn [Z.eqb]. rewrite (next_offset_char _ _ _ Hcut) by lia. cbn [mbind outcome_bind]. eexists. split; [done|].
    rewrite Z.add_0_r, app_nil_r. split_and!; [|lia..]. intros k.
    rewrite <- (app_nil_r (buffer_data values)) at 2. by apply same_rows_empty.
  - destruct (Z.eqb_spec t 10) as [->|]; [|done]. destruct (payload_at vec (pos + 6) count payload stop' Hb (proj1 Hc) Hpay) as (Hpl & Hpb & -> & Hpe).
    cbn [Z.eqb Pos.eqb negb]. rewrite (next_offset_char _ _ _ Hcut) by lia. cbn [mbind outcome_bind].
    change (k_type_size 10) with (@Ok XqdbError Z 1). cbn [mbind outcome_bind].
    unfold checked_mul. replace (count * 1 <=? usize_max) with true by bool_lia. cbn [ok_or mbind outcome_bind].
    rewrite Z.mul_1_r, Hpay. cbn [mbind outcome_bind].
    destruct (extend_granted (nested_values n) payload "q nested-list values") as [k' ->]. cbn [mbind outcome_bind].
    eexists. split; [done|]. rewrite (same_data _ _ _ Hs), <- Hpl, length_app. split_and!; [|lia..]. intros k.
    by apply same_rows_push.
Qed.

(** The errors of a count that the bytes left cannot hold: the one-pass reader finds that
    the payload is not there, the general one first that the offsets no longer fit. *)
Definition payload_missing (count : Z) : XqdbError :=
  DeserializationErr ("q nested-list payload length " +:+ show count +:+ " exceeds the available bytes").
Definition count_overflow : XqdbError := DeserializationErr "q nested-list cumulative child count overflowed".

(** The same result, but for the message of such a count. *)
Definition agree {A} (r reference : res A) : Prop :=
  r = reference \/ exists count, r = Err (payload_missing count) /\ reference = Err count_overflow.

Lemma agree_bind {A B} (r reference : res A) (f : A -> res B) :
  agree r reference -> agree (r ≫= f) (reference ≫= f).
Proof. intros [->|(count & -> & ->)]; [by left|right; by exists count]. Qed.

Lemma payload_refused vec pos n e :
  0 <= pos -> pos <= len vec -> len vec <= i32_max -> 0 <= n <= i32_max ->
  element_payload vec pos n = Err e -> e = payload_missing n.
Proof.
  intros Hp Hl Hm Hn. unfold element_payload. rewrite checked_add_eq by bool_lia. cbn [ok_or mbind outcome_bind].
  destruct (get_range vec pos (pos + n)); [done|]. cbn [ok_or mbind outcome_bind]. by intros [= <-].
Qed.

(** Elements the one-pass reader refuses, the general one refuses. *)
Lemma element_refused vec pos encoding views values n t count stop e :
  bytes_ok vec -> len vec <= i32_max -> 0 <= pos -> len (buffer_data values) <= i32_max -> same_rows views values n ->
  element_header vec pos = Ok (t, count, stop) ->
  (if (t =? 0) && (count =? 0) then Ok ([], stop)
   else if t =? 10 then element_payload vec stop count else Err (NotSupportedKMixedListErr 10 t)) = Err e ->
  agree (Err e) (nested_element vec 10 encoding pos n).
Proof.
  intros Hb Hlen Hp Hm Hs Hh Hpay. destruct (header_at _ _ _ _ _ Hb Hp Hh) as (Hc & -> & Hstop).
  unfold nested_element. rewrite Hh. cbn [mbind outcome_bind].
  destruct (Z.eqb_spec t 0) as [->|Ht].
  - cbn [Z.eqb andb] in *. destruct (count =? 0); [done|]. cbn [negb]. left. by injection Hpay as <-.
  - cbn [andb] in Hpay. destruct (Z.eqb_spec t 10) as [->|]; [|left; by injection Hpay as <-]. cbn [negb].
    apply payload_refused in Hpay as He; [|lia..].
    destruct (Z.leb_spec (len (buffer_data values) + count) i32_max) as [Hfit|Hover].
    + rewrite (next_offset_char _ _ _ (same_cut _ _ _ Hs)) by lia. cbn [mbind outcome_bind Z.eqb Pos.eqb].
      change (k_type_size 10) with (@Ok XqdbError Z 1). cbn [mbind outcome_bind].
      unfold checked_mul. replace (count * 1 <=? usize_max) with true by bool_lia. cbn [ok_or mbind outcome_bind].
      rewrite Z.mul_1_r, Hpay. by left.
    + right. exists count. split; [by f_equal|]. unfold next_offset. destruct (same_cut _ _ _ Hs) as [_ _ ->].
      unfold try_i32, i32_checked, in_i32. replace (_ && (count <=? _)) with true by bool_lia.
      cbn [ok_or mbind outcome_bind]. by replace (_ && _) with false by bool_lia.
Qed.

Lemma char_rows_agree length vec pos encoding views values n :
  bytes_ok vec -> len vec <= i32_max -> 0 <= pos -> len (buffer_data values) <= pos ->
  len (buffer_data values) <= i32_max -> same_rows views values n ->
  let reference := nested_elements length vec 10 encoding pos n in
  match char_rows length vec pos views values with
  | Ok (Some (views', values', stop)) => exists n', reference = Ok (stop, n') /\ same_rows views' values' n'
  | Ok None => True
  | Err e => agree (Err e) reference
  | Panicked => reference = Panicked
  | OutOfFuel => reference = OutOfFuel
  end.
Proof.
  intros Hb Hlen. revert pos views values n. induction length as [|length IH]; intros pos views values n Hp Hd Hm Hs;
    cbn [char_rows nested_elements]; [by exists n|].
  destruct (element_header vec pos) as [[[t count] stop]|e| |] eqn:Hh;
    try (unfold nested_element; rewrite Hh; try left; done).
  cbn [mbind outcome_bind]. pose proof (header_at _ _ _ _ _ Hb Hp Hh) as (Hc & Hst & Hstop).
  destruct (if (t =? 0) && (count =? 0) then Ok ([], stop)
            else if t =? 10 then element_payload vec stop count
            else Err (NotSupportedKMixedListErr 10 t)) as [[payload stop']|e| |] eqn:Hpay.
  - cbn [mbind outcome_bind]. rewrite text_test. destruct (is_utf8 payload) eqn:Hu; cbn [negb]; [|done].
    replace (u32_max <? len (buffer_data values)) with false by bool_lia.
    destruct (extend_granted values payload "q nested-list values") as [k ->]. cbn [mbind outcome_bind].
    destruct (element_agrees vec pos encoding views values n t count stop payload stop') as (n' & -> & Hs' & Hl & Hl' & Hps); try done.
    cbn [mbind outcome_bind]. apply IH; cbn [buffer_data]; try lia. apply Hs'.
  - cbn [mbind outcome_bind]. apply (agree_bind (Err e) (nested_element vec 10 encoding pos n)
      (fun '(pos, n) => nested_elements length vec 10 encoding pos n)). by eapply element_refused.
  - exfalso. pose proof (char_payload_ok vec t count stop Hb ltac:(lia) ltac:(lia)) as Ho. rewrite Hpay in Ho. by destruct Ho.
  - exfalso. pose proof (char_payload_ok vec t count stop Hb ltac:(lia) ltac:(lia)) as Ho. rewrite Hpay in Ho. by destruct Ho.
Qed.

Section Agreement.
  Context `{Chrono} {Series DataFrame : Type} `{!Polars Series DataFrame}.

Abbreviation kval := (K Series DataFrame).

(** [deserialize_nested_array] after its header, on chars. *)
Definition chars_with_fast_path (vec : list Z) (pos length capacity : Z) (name : string)
    (encoding : SymbolEncoding) : res kval :=
  decoded ← decode_char_rows vec pos length capacity;
  match decoded with
  | Some a => series_from name a
  | None => nested_list vec pos length 10 capacity name encoding
  end.

Lemma vec_granted n c : exists k, vec_with_capacity n c = Ok (MkBuffer [] k).
Proof. unfold vec_with_capacity, try_vec_with_capacity. rewrite reserve_unlimited. by eexists. Qed.

(** The rows of a char list as the general reader makes them. *)
Lemma nested_chars_agree views values n encoding :
  same_rows views values n ->
  nested_child 10 n encoding = Ok (Utf8ViewArray views [buffer_data values] None).
Proof.
  intros [Hd Hb Hc -> Ht]. unfold nested_child, nested_chars. cbn [Z.eqb Pos.eqb]. rewrite Hd.
  pose proof (validate_nested_exact _ Hb _ Hc) as Hv.
  destruct (validate_nested_char (buffer_data values) (nested_offsets n)); try done.
  cbn [mbind outcome_bind]. unfold try_vec_with_capacity. rewrite reserve_unlimited. cbn [mbind outcome_bind].
  by rewrite collect_views by by apply boundaries_rows.
Qed.

Lemma fast_path_agrees vec pos length capacity name encoding :
  bytes_ok vec -> len vec <= i32_max -> 0 <= pos -> 0 <= length <= i32_max ->
  agree (chars_with_fast_path vec pos length capacity name encoding)
    (nested_list vec pos length 10 capacity name encoding).
Proof.
  intros Hb Hlen Hp Hl. unfold chars_with_fast_path, decode_char_rows. unfold nested_list at 2, uadd.
  rewrite checked_add_eq by bool_lia. unfold try_vec_with_capacity. rewrite !reserve_unlimited. cbn [or_panic mbind outcome_bind].
  destruct (vec_granted capacity "q nested-list values") as [c Hcap]. rewrite Hcap. cbn [mbind outcome_bind].
  pose proof (char_rows_agree (Z.to_nat length) vec pos encoding [] (MkBuffer [] c)
    (MkNested [0] (MkBuffer [] c) (MkBuffer [0] 1)) Hb Hlen Hp) as Ha. cbn [buffer_data base.length] in Ha.
  specialize (Ha ltac:(lia) ltac:(done)).
  assert (same_rows [] (MkBuffer [] c) (MkNested [0] (MkBuffer [] c) (MkBuffer [0] 1))) as Hstart.
  { split; cbn; try done; try constructor. }
  specialize (Ha Hstart).
  destruct (char_rows _ vec pos [] _) as [[[[views values] stop]|]|e| |]; cbn [mbind outcome_bind].
  - left. destruct Ha as (n & -> & Hs). cbn [mbind outcome_bind]. destruct (trailing_bytes vec stop); try done.
    cbn [mbind outcome_bind]. destruct (create_field_child 10 name eq_refl) as [nullable ->]. cbn [mbind outcome_bind].
    by rewrite (nested_chars_agree views values n encoding Hs).
  - left. unfold nested_list, uadd. rewrite checked_add_eq by bool_lia. unfold try_vec_with_capacity.
    rewrite !reserve_unlimited. cbn [or_panic mbind outcome_bind]. by rewrite Hcap.
  - destruct Ha as [E|(count & [= ->] & E)]; [rewrite <- E; by left|right; exists count; by rewrite E].
  - left. by rewrite Ha.
  - left. by rewrite Ha.
Qed.

(** The general decoder alone: [deserialize_nested_array] without its fast path. *)
Definition nested_reference (vec : list Z) (encoding : SymbolEncoding) : res kval :=
  '(length, pos) ← take_list_length vec 0 "q nested list";
  if length =? 0 then
    if negb (pos =? len vec) then
      corrupt ("empty q nested list has " +:+ show (len vec - pos) +:+ " trailing byte(s)")
    else new_empty_series 0
  else
    k_type ← ok_or (get_at vec pos) (DeserializationErr "q nested list omitted its child type");
    if negb (nested_type k_type) then Err (NotSupportedKNestedListErr k_type)
    else
      name ← k_type_name k_type;
      payload_capacity ← nested_capacity vec pos length k_type;
      nested_list vec pos length k_type payload_capacity name encoding.

(** C29: the one-pass reader of nested char lists changes nothing: on a frame of at most
    [i32::MAX] bytes the result of [deserialize_nested_array], a value or an error, is
    that of the general decoder without the fast path.  The single traversal that
    validates each row, copies it and builds its view stands for reading all offsets,
    validating the payload as a whole and cutting it into views; a row that is not UTF-8
    sends the whole list to the general decoder.  One message differs: a row whose
    announced bytes are missing and would bring the rows past [i32::MAX] bytes together
    is refused for the one reason or for the other. *)
Theorem one_pass_chars_agree (vec : list Z) (encoding : SymbolEncoding) :
  bytes_ok vec -> len vec <= i32_max ->
  @deserialize_nested_array _ _ Series DataFrame _ vec encoding = nested_reference vec encoding
  \/ exists count, @deserialize_nested_array _ _ Series DataFrame _ vec encoding = Err (payload_missing count)
       /\ nested_reference vec encoding = Err count_overflow.
Proof.
  intros Hb Hlen. change (agree (@deserialize_nested_array _ _ Series DataFrame _ vec encoding)
    (nested_reference vec encoding)). unfold deserialize_nested_array, nested_reference.
  pose proof (list_length_ok vec 0 "q nested list" Hb ltac:(lia)) as [Hr Hok].
  destruct (take_list_length vec 0 "q nested list") as [[length pos]|e| |]; try by left.
  destruct (Hok _ eq_refl) as (Hl & -> & Hpos). cbn [mbind outcome_bind]. destruct (length =? 0); [by left|].
  destruct (get_at vec (0 + 5)) as [k_type|]; [|by left]. cbn [ok_or mbind outcome_bind].
  destruct (nested_type k_type) eqn:Hk; cbn [negb]; [|by left].
  destruct (k_type_name k_type) as [name|e| |]; try by left. cbn [mbind outcome_bind].
  destruct (nested_capacity vec (0 + 5) length k_type) as [capacity|e| |]; try by left. cbn [mbind outcome_bind].
  destruct (Z.eqb_spec k_type 10) as [->|]; [|by left]. by apply fast_path_agrees.
Qed.
End Agreement.
