(* ===== verification/SamplePolars.v ===== *)
(** * SamplePolars: concrete series that keep the laws asked of Polars

    A series is one well-formed array with a name and a type; a few symbols are
    categories.  The instance only serves to evaluate the codec on concrete inputs. *)

From stdpp Require Import prelude strings.
From Stdlib Require Import ZArith Lia ZifyBool.
From S2P Require Import Prelude Errors Utf8 Value AnyValue Deserialize Arrow Polars SeriesWrite SeriesFacts SeriesFormat SeriesWriteFacts SeriesWriteSpec Sample.

(** ** Well-formedness as a test *)

Definition bytes_okb (l : list Z) : bool := forallb (fun b => (0 <=? b) && (b <? 256)) l.

Lemma bytes_okb_spec l : bytes_okb l = true <-> bytes_ok l.
Proof.
  unfold bytes_okb. rewrite forallb_forall, Forall_forall.
  split; intros H b Hb; [apply list_elem_of_In in Hb|apply list_elem_of_In in Hb]; specialize (H b Hb);
    unfold is_byte in *; lia.
Qed.

Definition validity_okb (v : option (list bool)) (n : Z) : bool :=
  match v with Some bits => len bits =? n | None => true end.
Definition offsets_okb (offsets : list Z) (n : Z) : bool :=
  match offsets with first :: _ => 0 <=? first | [] => false end
  && forallb (fun range => range.1 <=? range.2) (windows offsets) && (last_offset offsets <=? n).
Definition view_okb (buffers : list (list Z)) (v : View) : bool :=
  match v with
  | ViewInline bytes => bytes_okb bytes
  | ViewRef length buffer offset =>
    match get_at buffers buffer with
    | Some bytes => (0 <=? offset) && (0 <=? length) && (offset + length <=? len bytes) && bytes_okb bytes
    | None => false
    end
  end.
Definition in_nativeb (t : NativeType) (v : Z) : bool :=
  match t with
  | U8 => (0 <=? v) && (v <? 256)
  | U32 | F32 => (0 <=? v) && (v <? 2 ^ 32)
  | I16 => (- 2 ^ 15 <=? v) && (v <? 2 ^ 15)
  | I32 => (i32_min <=? v) && (v <=? i32_max)
  | I64 => (i64_min <=? v) && (v <=? i64_max)
  | F64 => (0 <=? v) && (v <? 2 ^ 64)
  end.

(** The child type of a list type. *)
Definition list_child (t : ArrowDataType) : option ArrowDataType :=
  match t with ArrowList _ child _ => Some child | _ => None end.
Definition large_child (t : ArrowDataType) : option ArrowDataType :=
  match t with ArrowLargeList _ child _ => Some child | _ => None end.
Definition fixed_child (t : ArrowDataType) (size : Z) : option ArrowDataType :=
  match t with ArrowFixedSizeList _ child _ n => if n =? size then Some child else None | _ => None end.

Fixpoint array_okb (a : Array) : bool :=
  (0 <=? array_len a) && (array_len a <=? isize_max) && validity_okb (array_validity a) (array_len a)
  && match a with
     | NullArray _ | BooleanArray _ _ => true
     | PrimitiveArray t values _ =>
       match native_type t with Some n => forallb (in_nativeb n) values | None => false end
     | FixedSizeBinaryArray size values _ => (0 <? size) && (len values mod size =? 0) && bytes_okb values
     | Utf8ViewArray views buffers _ =>
       forallb (fun v => view_okb buffers v && is_utf8 (view_bytes buffers v)) views
     | BinaryViewArray views buffers _ => forallb (view_okb buffers) views
     | LargeUtf8Array offsets values _ =>
       offsets_okb offsets (len values) && bytes_okb values
       && forallb (fun range => is_utf8 (between_offsets values range)) (windows offsets)
     | ListArray t offsets values _ =>
       bool_decide (list_child t = Some (data_type values)) && offsets_okb offsets (array_len values) && array_okb values
     | LargeListArray t offsets values _ =>
       bool_decide (large_child t = Some (data_type values)) && offsets_okb offsets (array_len values) && array_okb values
     | FixedSizeListArray t size length values _ =>
       bool_decide (fixed_child t size = Some (data_type values)) && (0 <=? size)
       && (array_len values =? size * length) && array_okb values
     end.

Lemma forallb_Forall {A} (f : A -> bool) (P : A -> Prop) l :
  (forall a, f a = true <-> P a) -> forallb f l = true <-> Forall P l.
Proof.
  intros Hf. rewrite forallb_forall, Forall_forall. split; intros H a Ha; apply Hf, H; by apply list_elem_of_In.
Qed.

Lemma offsets_okb_spec offsets n : offsets_okb offsets n = true <-> offsets_ok offsets n.
Proof.
  unfold offsets_okb, offsets_ok. rewrite !andb_true_iff.
  rewrite (forallb_Forall _ (fun range : Z * Z => range.1 <= range.2)) by (intros; lia).
  destruct offsets as [|first offsets]; cbn [head].
  - split; [by intros [[??] ?]|by intros ((? & ? & ?) & ?)].
  - split.
    + intros [[H0 H1] H2]. split_and!; [exists first; split; [done|lia]|done|lia].
    + intros ((x & [= <-] & H0) & H1 & H2). split_and!; [lia|done|lia].
Qed.

Lemma view_okb_spec buffers v : view_okb buffers v = true <-> view_ok buffers v.
Proof.
  destruct v as [bytes|n i o]; cbn; [apply bytes_okb_spec|]. destruct (get_at buffers i) as [bytes|].
  - rewrite !andb_true_iff, bytes_okb_spec. split.
    + intros [[[? ?] ?] ?]. exists bytes. split_and!; try done; lia.
    + intros (b & [= <-] & ? & ? & ? & ?). split_and!; try done; lia.
  - by split; [|intros (? & ? & _)].
Qed.

Lemma in_nativeb_spec t v : in_nativeb t v = true <-> in_native t v.
Proof. destruct t; cbn; unfold is_byte; lia. Qed.

Lemma validity_okb_spec v n : validity_okb v n = true <-> validity_ok v n.
Proof. destruct v; cbn; [lia|done]. Qed.

Lemma list_child_spec t c : list_child t = Some c <-> exists name nullable, t = ArrowList name c nullable.
Proof.
  destruct t; cbn; try by split; [|intros (? & ? & ?)].
  split; [intros [= ->]; by eexists _, _|by intros (? & ? & [= -> -> ->])].
Qed.

Lemma large_child_spec t c : large_child t = Some c <-> exists name nullable, t = ArrowLargeList name c nullable.
Proof.
  destruct t; cbn; try by split; [|intros (? & ? & ?)].
  split; [intros [= ->]; by eexists _, _|by intros (? & ? & [= -> -> ->])].
Qed.

Lemma fixed_child_spec t size c :
  fixed_child t size = Some c <-> exists name nullable, t = ArrowFixedSizeList name c nullable size.
Proof.
  destruct t; cbn; try by split; [|intros (? & ? & ?)].
  destruct (Z.eqb_spec size0 size) as [->|]; [|by split; [|intros (? & ? & [= ? ? ? ?])]].
  split; [intros [= ->]; by eexists _, _|by intros (? & ? & [= -> -> ->])].
Qed.

Lemma array_okb_spec a : array_okb a = true <-> array_ok a.
Proof.
  assert (forall a (b : bool) (P : Prop), (b = true <-> P) ->
    (0 <=? array_len a) && (array_len a <=? isize_max) && validity_okb (array_validity a) (array_len a) && b = true
    <-> 0 <= array_len a <= isize_max /\ validity_ok (array_validity a) (array_len a) /\ P) as Hcommon.
  { intros a' b P HP. rewrite !andb_true_iff, HP, validity_okb_spec. rewrite !Z.leb_le. tauto. }
  induction a; cbn [array_okb array_ok]; apply Hcommon.
  - done.
  - done.
  - destruct (native_type data_type) as [n|].
    + rewrite (forallb_Forall _ (in_native n)) by (intros; apply in_nativeb_spec).
      split; [by exists n|by intros (? & [= <-] & ?)].
    + by split; [|intros (? & ? & _)].
  - rewrite !andb_true_iff, bytes_okb_spec. rewrite Z.ltb_lt, Z.eqb_eq. tauto.
  - apply forallb_Forall. intros v. rewrite andb_true_iff, view_okb_spec. done.
  - apply forallb_Forall. intros v. apply view_okb_spec.
  - rewrite !andb_true_iff, bytes_okb_spec, offsets_okb_spec.
    rewrite (forallb_Forall _ (fun range => is_utf8 (between_offsets values range) = true)) by done. tauto.
  - rewrite !andb_true_iff, bool_decide_eq_true, offsets_okb_spec, IHa, list_child_spec. tauto.
  - rewrite !andb_true_iff, bool_decide_eq_true, offsets_okb_spec, IHa, large_child_spec. tauto.
  - rewrite !andb_true_iff, bool_decide_eq_true, IHa, Z.leb_le, Z.eqb_eq, fixed_child_spec. tauto.
Qed.

(** The layout of a type, as a test. *)
Definition is_primitive (n : NativeType) (a : Array) : bool :=
  match a with PrimitiveArray t _ _ => bool_decide (native_type t = Some n) | _ => false end.

Fixpoint layoutb (t : DataType) (a : Array) : bool :=
  match t with
  | DNull => match a with NullArray _ => true | _ => false end
  | DBoolean => match a with BooleanArray _ _ => true | _ => false end
  | DUInt8 => is_primitive U8 a
  | DInt16 => is_primitive I16 a
  | DInt32 | DDate => is_primitive I32 a
  | DInt64 | DDatetime _ | DDuration _ | DTime => is_primitive I64 a
  | DFloat32 => is_primitive F32 a
  | DFloat64 => is_primitive F64 a
  | DString => match a with Utf8ViewArray _ _ _ => true | _ => false end
  | DBinary => match a with BinaryViewArray _ _ _ => true | _ => false end
  | DCategorical => is_primitive U32 a
  | DList child => match a with LargeListArray _ _ values _ => layoutb child values | _ => false end
  | DArray child size =>
    match a with FixedSizeListArray _ n _ values _ => (n =? size) && layoutb child values | _ => false end
  | DUnsupported _ => true
  end.

Lemma is_primitive_spec n a :
  is_primitive n a = true <-> exists dt values validity, a = PrimitiveArray dt values validity /\ native_type dt = Some n.
Proof.
  destruct a; cbn; try (split; [done|by intros (? & ? & ? & ? & _)]). rewrite bool_decide_eq_true.
  split; [by eexists _, _, _|by intros (? & ? & ? & [= -> -> ->] & ?)].
Qed.

Lemma layoutb_spec t a : layoutb t a = true <-> layout t a.
Proof.
  revert a. induction t; intros a; cbn [layoutb layout]; try apply is_primitive_spec; try done.
  all: destruct a; try (split; [discriminate|intros; repeat match goal with
    | H : exists _, _ |- _ => destruct H | H : _ /\ _ |- _ => destruct H end; discriminate]).
  all: try (by split; [eexists|]); try (by split; [eexists _, _|]); try (by split; [eexists _, _, _|]).
  - rewrite IHt. split; [by eexists _, _, _, _|by intros (? & ? & ? & ? & [= -> -> -> ->] & ?)].
  - rewrite andb_true_iff, IHt, Z.eqb_eq. split.
    + intros [-> ?]. by eexists _, _, _, _.
    + by intros (? & ? & ? & ? & [= -> -> -> -> ->] & ?).
Qed.


(** ** The arrays a series keeps *)

(** Rows as views, and lists as the lists of a series. *)
Definition row_view_of (values : list Z) (range : Z * Z) : View := ViewInline (between_offsets values range).

Fixpoint convert (a : Array) : Array :=
  match a with
  | FixedSizeBinaryArray size values v =>
    BinaryViewArray (map (row_view_of values) (windows (strides size (Z.to_nat (len values / size))))) [] v
  | LargeUtf8Array offsets values v => Utf8ViewArray (map (row_view_of values) (windows offsets)) [] v
  | ListArray t offsets values v =>
    LargeListArray match t with
                   | ArrowList name _ nullable => ArrowLargeList name (data_type (convert values)) nullable
                   | t => t
                   end offsets (convert values) v
  | LargeListArray t offsets values v =>
    LargeListArray match t with
                   | ArrowLargeList name _ nullable => ArrowLargeList name (data_type (convert values)) nullable
                   | t => t
                   end offsets (convert values) v
  | FixedSizeListArray t size length values v =>
    FixedSizeListArray match t with
                       | ArrowFixedSizeList name _ nullable n =>
                         ArrowFixedSizeList name (data_type (convert values)) nullable n
                       | t => t
                       end size length (convert values) v
  | a => a
  end.

(** The same rows and type, laid out as in a series. *)
Record converted (a b : Array) : Prop := {
  converted_ok : array_ok b;
  converted_len : array_len b = array_len a;
  converted_rows : rows b = rows a;
  converted_type : polars_of (data_type b) = polars_of (data_type a);
  converted_validity : array_validity b = array_validity a;
  converted_layout : keeps_values (data_type a) = true -> layout (polars_of (data_type a)) b
}.

Lemma view_rows values ranges validity :
  mask validity (map (fun v => CellBytes (view_bytes [] v)) (map (row_view_of values) ranges))
  = mask validity (map (fun range => CellBytes (between_offsets values range)) ranges).
Proof. by rewrite map_map. Qed.

Lemma convert_primitive t values v :
  array_ok (PrimitiveArray t values v) -> converted (PrimitiveArray t values v) (PrimitiveArray t values v).
Proof.
  intros Hok. split; try done. intros Hk. destruct Hok as (_ & _ & n & Hn & _).
  destruct t as [| | | | | | | | | | | | |unit| |unit|unit|unit| | | |]; try done; try (by eexists _, _, _).
Qed.

Lemma convert_spec a : array_ok a -> converted a (convert a).
Proof.
  induction a as [length|values v|t values v|size values v|views buffers v|views buffers v|offsets values v
    |t offsets values IH v|t offsets values IH v|t size length values IH v]; intros Hok; cbn [convert].
  - split; try done. by eexists.
  - split; try done. by eexists _, _.
  - by apply convert_primitive.
  - destruct Hok as (Hl & Hv & Hs & Hm & Hb). cbn [array_len array_validity] in *.
    assert (len (map (row_view_of values) (windows (strides size (Z.to_nat (len values / size))))) = len values / size) as Hlen
      by (rewrite strides_windows, !length_map, length_seq; lia).
    split; cbn [array_len array_validity data_type rows]; try done; [|by apply view_rows|by eexists _, _, _].
    split_and!; cbn [array_len array_validity]; rewrite ?Hlen; try done; try lia.
    apply Forall_map, Forall_forall. intros r _. by apply Forall_take, Forall_drop.
  - split; try done. by eexists _, _, _.
  - split; try done. by eexists _, _, _.
  - destruct Hok as (Hl & Hv & Ho & Hb & Hu). cbn [array_len array_validity] in *.
    assert (len (map (row_view_of values) (windows offsets)) = len offsets - 1) as Hlen.
    { rewrite length_map, length_windows. destruct Ho as ((x & Hx & _) & _). destruct offsets; [done|]. cbn [Datatypes.length]. lia. }
    split; cbn [array_len array_validity data_type rows]; try done; [|by apply view_rows|by eexists _, _, _].
    split_and!; cbn [array_len array_validity]; rewrite ?Hlen; try done; try lia.
    apply Forall_map. eapply Forall_impl; [exact Hu|]. intros r Hr. split; [|exact Hr].
    by apply Forall_take, Forall_drop.
  - destruct Hok as (Hl & Hv & (name & nullable & ->) & Ho & Hok). destruct (IH Hok) as [Ha Hn Hr Ht _ Hlay].
    cbn [array_len array_validity] in *.
    split; cbn [array_len array_validity data_type rows polars_of keeps_values layout]; try done; [|by rewrite Hr|by rewrite Ht|].
    + split; [done|]. split; [done|]. split; [by eexists _, _|]. by rewrite Hn.
    + intros Hk. eexists _, _, _, _. split; [done|by apply Hlay].
  - destruct Hok as (Hl & Hv & (name & nullable & ->) & Ho & Hok). destruct (IH Hok) as [Ha Hn Hr Ht _ Hlay].
    cbn [array_len array_validity] in *.
    split; cbn [array_len array_validity data_type rows polars_of keeps_values layout]; try done; [|by rewrite Hr|by rewrite Ht|].
    + split; [done|]. split; [done|]. split; [by eexists _, _|]. by rewrite Hn.
    + intros Hk. eexists _, _, _, _. split; [done|by apply Hlay].
  - destruct Hok as (Hl & Hv & (name & nullable & ->) & Hs & Hlen & Hok). destruct (IH Hok) as [Ha Hn Hr Ht _ Hlay].
    cbn [array_len array_validity] in *.
    split; cbn [array_len array_validity data_type rows polars_of keeps_values layout]; try done; [|by rewrite Hr|by rewrite Ht|].
    + split; [done|]. split; [done|]. split; [by eexists _, _|]. split; [done|]. split; [by rewrite Hn|done].
    + intros Hk. eexists _, _, _, _. split; [done|by apply Hlay].
Qed.

(** ** Series *)

Record RawSeries : Type := MkRaw { raw_name : list Z; raw_type : DataType; raw_array : Array }.

Definition goodb (s : RawSeries) : bool := array_okb (raw_array s) && layoutb (raw_type s) (raw_array s).
Definition Series : Type := { s : RawSeries | goodb s = true }.

Lemma goodb_spec s : goodb s = true <-> array_ok (raw_array s) /\ layout (raw_type s) (raw_array s).
Proof. unfold goodb. by rewrite andb_true_iff, array_okb_spec, layoutb_spec. Qed.

(** The series of parts that fit. *)
Definition make (s : RawSeries) : option Series :=
  match decide (goodb s = true) with left H => Some (exist _ s H) | right _ => None end.

Lemma make_good s : goodb s = true -> exists H, make s = Some (exist _ s H).
Proof. intros Hs. unfold make. destruct (decide _) as [H|H]; [by exists H|done]. Qed.

Definition text_bytes (s : string) : list Z := map (fun c => Z.of_N (Ascii.N_of_ascii c)) (String.list_ascii_of_string s).

(** The array of an empty series. *)
Fixpoint empty_array (t : DataType) : Array :=
  match t with
  | DNull | DUnsupported _ => NullArray 0
  | DBoolean => BooleanArray [] None
  | DUInt8 => PrimitiveArray ArrowUInt8 [] None
  | DInt16 => PrimitiveArray ArrowInt16 [] None
  | DInt32 | DDate => PrimitiveArray ArrowInt32 [] None
  | DInt64 | DDatetime _ | DDuration _ | DTime => PrimitiveArray ArrowInt64 [] None
  | DFloat32 => PrimitiveArray ArrowFloat32 [] None
  | DFloat64 => PrimitiveArray ArrowFloat64 [] None
  | DString => Utf8ViewArray [] [] None
  | DBinary => BinaryViewArray [] [] None
  | DCategorical => PrimitiveArray ArrowUInt32 [] None
  | DList child =>
    LargeListArray (ArrowLargeList "item" (data_type (empty_array child)) true) [0] (empty_array child) None
  | DArray child size =>
    FixedSizeListArray (ArrowFixedSizeList "item" (data_type (empty_array child)) true size) size 0 (empty_array child) None
  end.

Lemma empty_array_ok t :
  sized t = true ->
  array_ok (empty_array t) /\ layout t (empty_array t) /\ array_len (empty_array t) = 0 /\ rows (empty_array t) = [].
Proof.
  assert (forall dt n, native_type dt = Some n ->
    array_ok (PrimitiveArray dt [] None)
    /\ (exists d values validity, PrimitiveArray dt [] None = PrimitiveArray d values validity /\ native_type d = Some n)
    /\ array_len (PrimitiveArray dt [] None) = 0 /\ rows (PrimitiveArray dt [] None) = []) as Hprim.
  { intros dt n Hn. split_and!; try done; [|by eexists _, _, _]. split; [done|]. split; [done|]. by exists n. }
  induction t as [| |child IH|child IH size| | | | | | | | | | | | | |]; cbn [sized empty_array]; intros Hs;
    try (by apply Hprim).
  - split_and!; try done. by eexists.
  - split_and!; try done. by eexists _, _, _.
  - destruct (IH Hs) as (Ha & Hl & Hn & Hr). split_and!; try done; [|by eexists _, _, _, _].
    split; [done|]. split; [done|]. split; [by eexists _, _|]. split; [|done].
    split_and!; [by exists 0|constructor|]. cbn. lia.
  - apply andb_true_iff in Hs as [Hs Hsize]. destruct (IH Hs) as (Ha & Hl & Hn & Hr).
    split_and!; try done; [|by eexists _, _, _, _].
    split; [done|]. split; [done|]. split; [by eexists _, _|]. split_and!; [lia|lia|done].
  - split_and!; try done. by eexists _, _.
  - split_and!; try done. by eexists _, _, _.
  - by split_and!.
Qed.

(** The empty series of a type, and of nulls for a type without a size. *)
Definition null_series : Series := exist _ (MkRaw [] DNull (NullArray 0)) eq_refl.
Definition empty_series (name : string) (t : DataType) : Series :=
  default null_series (make (MkRaw (text_bytes name) t (empty_array t))).

(** ** Categories *)

Definition symbol_table : list (list Z) :=
  map text_bytes [""; "a"; "b"; "bid"; "ask"; "EURUSD"; "long.symbol"; "time"]%string.

Definition table_index (symbol : list Z) : option Z :=
  '(i, _) ← list_find (fun s => s = symbol) symbol_table; Some (Z.of_nat i).

Lemma table_index_Some symbol i : table_index symbol = Some i -> in_native U32 i /\ get_at symbol_table i = Some symbol.
Proof.
  unfold table_index. destruct (list_find _ symbol_table) as [[k s]|] eqn:E; [|done]. cbn. intros [= <-].
  apply list_find_Some in E as (Hk & -> & _). pose proof (lookup_lt_Some _ _ _ Hk) as Hlt.
  change (length symbol_table) with 8%nat in Hlt. split; [cbn; lia|]. apply get_at_Some. by rewrite Nat2Z.id; split; [lia|].
Qed.

Definition categories (name : string) (ids : list Z) : Series :=
  default null_series (make (MkRaw (text_bytes name) DCategorical (PrimitiveArray ArrowUInt32 ids None))).

(** ** The instance *)

#[export] Instance DataType_eq_dec : EqDecision DataType.
Proof. solve_decision. Defined.

Definition cell_value (c : option Cell) : AnyValue Series :=
  match c with
  | Some (CellNumber v) => AnyInt64 v
  | Some (CellBool b) => AnyBoolean b
  | Some (CellBytes bytes) => AnyBinary bytes
  | _ => AnyNull
  end.

#[export] Instance sample_polars : Polars Series (list Series) := {|
  polars_type := {| dtype s := raw_type (proj1_sig s) |};
  polars_name s := raw_name (proj1_sig s);
  polars_len s := len (rows (raw_array (proj1_sig s)));
  chunks s := [raw_array (proj1_sig s)];
  polars_null_count s := null_count (raw_array (proj1_sig s));
  rechunk s := s;
  cast s t :=
    if bool_decide (physical_type (raw_type (proj1_sig s)) = Some t) then
      ok_or (make (MkRaw (raw_name (proj1_sig s)) t (raw_array (proj1_sig s)))) "unsupported cast"%string
    else Err "unsupported cast"%string;
  from_arrow name a :=
    ok_or (make (MkRaw (text_bytes name) (polars_of (data_type a)) (convert a))) "unsupported array"%string;
  new_empty := empty_series;
  from_categories := categories;
  insert_cat symbol := ok_or (table_index symbol) "the categories are full"%string;
  cat_to_str _ := get_at symbol_table;
  accessor_error _ := "invalid series dtype"%string;
  try_transmute t bytes := if len bytes mod wire_width t =? 0 then Some (wire_values t bytes) else None;
  polars_columns df := df;
  polars_iter s := map cell_value (rows (raw_array (proj1_sig s)));
  polars_rename s name := exist _ (MkRaw name (raw_type (proj1_sig s)) (raw_array (proj1_sig s))) (proj2_sig s);
  polars_hstack left right := Ok (left ++ right);
  polars_frame columns := Ok columns
|}.

Lemma single_chunk (s : Series) : series_rows s = rows (raw_array (proj1_sig s)).
Proof. unfold series_rows. cbn. apply app_nil_r. Qed.

Lemma physical_layout t t' a : physical_type t = Some t' -> layout t a -> layout t' a.
Proof. by destruct t; intros [= <-]. Qed.

#[export] Instance sample_polars_laws : PolarsLaws.
Proof.
  split.
  - intros [s Hs]. pose proof (proj1 (goodb_spec s) Hs). by constructor.
  - done.
  - intros s. by rewrite single_chunk.
  - intros s. cbn. lia.
  - intros s. by eexists.
  - done.
  - done.
  - done.
  - intros [[name t a] Hs] t' Ht. cbn in Ht. pose proof Hs as [Ha Hl]%goodb_spec. cbn in Ha, Hl. cbn.
    rewrite bool_decide_eq_true_2 by done.
    destruct (make_good (MkRaw name t' a)) as [H ->].
    { apply goodb_spec. split; [done|]. by eapply physical_layout. }
    eexists. split_and!; [done|done|]. done.
  - intros [[name t a] Hs] t' s'. cbn. destruct (bool_decide _); [|done]. unfold make. destruct (decide _); [|done].
    by intros [= <-].
  - intros name a Ha Hk. destruct (convert_spec a Ha) as [Hok Hl Hr Ht _ Hlay]. cbn.
    destruct (make_good (MkRaw (text_bytes name) (polars_of (data_type a)) (convert a))) as [H ->].
    { apply goodb_spec. split; [done|by apply Hlay]. }
    eexists. split_and!; [done|done|]. cbn. by rewrite app_nil_r.
  - intros name t Ht. destruct (empty_array_ok t Ht) as (Ha & Hl & _ & Hr). cbn. unfold empty_series.
    destruct (make_good (MkRaw (text_bytes name) t (empty_array t))) as [H ->]; [by apply goodb_spec|].
    split; [done|]. cbn. by rewrite app_nil_r.
  - intros name ids Hids Hlen. cbn. unfold categories.
    destruct (make_good (MkRaw (text_bytes name) DCategorical (PrimitiveArray ArrowUInt32 ids None))) as [H ->].
    { apply goodb_spec. split; [|by eexists _, _, _]. split; [cbn; lia|]. split; [done|]. by exists U32. }
    split; [done|]. cbn. by rewrite app_nil_r, map_map.
  - intros symbol category name ids Hi. apply table_index_Some.
    change (ok_or (table_index symbol) "the categories are full"%string = Ok category) in Hi.
    destruct (table_index symbol); [|done]. by injection Hi as ->.
  - intros s. rewrite single_chunk. cbn. by intros ->.
  - intros t bytes values. cbn. destruct (Z.eqb_spec (len bytes mod wire_width t) 0); [|done]. by intros [= <-].
Qed.

#[export] Instance sample_polars_returns : PolarsReturns.
Proof.
  split; cbn.
  - intros s t. destruct (bool_decide _); [|done]. by destruct (make _).
  - intros name a. by destruct (make _).
  - intros symbol. change (returns (ok_or (table_index symbol) "the categories are full"%string)).
    by destruct (table_index symbol).
  - done.
  - done.
Qed.
