(* ===== verification/SeriesReadEnds.v ===== *)
(** * SeriesReadEnds: the reader of series comes to an end on any bytes *)

From stdpp Require Import prelude strings gmap.
From Stdlib Require Import ZArith Lia ZifyBool.
From S2P Require Import Prelude Errors Types Utf8 QValue Compress Framing ListScan Text Value AnyValue WireText Float64 Deserialize SerdeSpec Arrow Polars SeriesRead.

#[local] Hint Resolve reserve_ends decode_utf8_ends q_datetime_ends unix_timestamp_ends : ends.

(** Follows every bind and looks up what is left. *)
Ltac end_all := ends; try solve [eauto with ends].

Section Ends.
  Context `{Allocator} `{Chrono} {Series DataFrame : Type} `{!Polars Series DataFrame} `{!PolarsReturns}.

Abbreviation kval := (K Series DataFrame).

(** The computation does not run out of fuel. *)
Abbreviation comes_to_end m := (ends_with m (fun _ => True)).

(** ** Building blocks *)

Lemma vec_ends n context : comes_to_end (try_vec_with_capacity n context).
Proof. apply reserve_ends. Qed.
#[local] Hint Resolve vec_ends : ends.

Lemma collect_values_ends {A B} (f : A -> res B) l : (forall a, comes_to_end (f a)) -> comes_to_end (collect_values f l).
Proof.
  intros Hf. induction l as [|a l IH]; cbn [collect_values]; [done|].
  eapply ends_with_bind; [apply Hf|]. intros b _. eapply ends_with_bind; [apply IH|]. done.
Qed.

Lemma mapped_error_ends {E F A} (f : E -> F) (m : outcome E A) : returns m -> comes_to_end (map_err f m).
Proof. by destruct m. Qed.

Lemma list_length_ends vec pos c : comes_to_end (take_list_length vec pos c).
Proof. unfold take_list_length. end_all. Qed.

Lemma take_nul_ends vec pos c : comes_to_end (take_until_nul vec pos c).
Proof. unfold take_until_nul. end_all. Qed.
#[local] Hint Resolve take_nul_ends : ends.
Lemma take_text_ends vec pos encoding c : comes_to_end (take_utf8_until_nul vec pos encoding c).
Proof. unfold take_utf8_until_nul. end_all. Qed.

Lemma type_size_ends k : comes_to_end (@k_type_size XqdbError k).
Proof. unfold k_type_size. end_all. Qed.
Lemma type_name_ends k : comes_to_end (k_type_name k).
Proof. unfold k_type_name. end_all. Qed.

Lemma bounded_ends (o : option Z) : comes_to_end (@or_panic XqdbError _ o).
Proof. by destruct o. Qed.

Lemma or_panics_ends {A} b (a : A) : comes_to_end (or_panics b a).
Proof. by destruct b. Qed.
#[local] Hint Resolve list_length_ends take_text_ends type_size_ends type_name_ends bounded_ends or_panics_ends : ends.

Lemma grow_ends b n f : comes_to_end (grow b n f).
Proof. unfold grow. end_all. Qed.
#[local] Hint Resolve grow_ends : ends.
Lemma extend_ends b payload c : comes_to_end (try_extend b payload c).
Proof. unfold try_extend. end_all. Qed.
Lemma push_ends b v c : comes_to_end (try_push b v c).
Proof. unfold try_push. end_all. Qed.
Lemma capacity_ends n c : comes_to_end (vec_with_capacity n c).
Proof. unfold vec_with_capacity. end_all. Qed.
Lemma numbers_ends t bytes c : comes_to_end (decode_wire_numbers t bytes c).
Proof. unfold decode_wire_numbers. cbv zeta. end_all. Qed.
#[local] Hint Resolve extend_ends push_ends capacity_ends numbers_ends : ends.
Lemma bitmap_ends bits c : comes_to_end (try_bitmap bits c).
Proof. unfold try_bitmap. end_all. Qed.
#[local] Hint Resolve bitmap_ends : ends.
Lemma validity_ends bits c : comes_to_end (optional_validity bits c).
Proof. unfold optional_validity. end_all. Qed.
Lemma copy_ends payload c : comes_to_end (try_copy_payload payload c).
Proof. unfold try_copy_payload. end_all. Qed.
Lemma owned_ends t bytes c : comes_to_end (decode_owned_wire_numbers t bytes c).
Proof. unfold decode_owned_wire_numbers. destruct (try_transmute t bytes); [done|]. apply numbers_ends. Qed.
Lemma booleans_ends bytes r c : comes_to_end (boolean_values bytes r c).
Proof. unfold boolean_values. destruct (find _ _); [done|]. apply bitmap_ends. Qed.
Lemma from_ends name a : comes_to_end (series_from name a : res kval).
Proof.
  unfold series_from. eapply ends_with_bind; [apply mapped_error_ends, from_arrow_returns|]. done.
Qed.
#[local] Hint Resolve validity_ends copy_ends owned_ends booleans_ends from_ends : ends.

(** ** Flat lists *)

Lemma boolean_array_ends values v : comes_to_end (boolean_array values v).
Proof. apply or_panics_ends. Qed.
Lemma primitive_array_ends n t values v : comes_to_end (primitive_array n t values v).
Proof. apply or_panics_ends. Qed.
Lemma binary_array_ends n values : comes_to_end (fixed_size_binary_array n values).
Proof. apply or_panics_ends. Qed.
Lemma utf8_array_ends offsets values : comes_to_end (large_utf8_array offsets values).
Proof. apply or_panics_ends. Qed.
Lemma list_array_ends field offsets values : comes_to_end (list_array field offsets values).
Proof. apply or_panics_ends. Qed.
#[local] Hint Resolve boolean_array_ends primitive_array_ends binary_array_ends utf8_array_ends list_array_ends : ends.

Lemma timestamps_end values : comes_to_end (collect_values unix_timestamp values).
Proof. apply collect_values_ends. intros v. unfold unix_timestamp. end_all. Qed.
Lemma dates_end values : comes_to_end (collect_values unix_date values).
Proof. apply collect_values_ends. intros v. unfold unix_date. end_all. Qed.
Lemma datetimes_end values c : comes_to_end (try_collect unix_datetime values c).
Proof.
  unfold try_collect. end_step. apply collect_values_ends. intros v. unfold unix_datetime. cbv zeta.
  destruct (is_nan _); [exact I|]. destruct (negb _); [exact I|]. apply q_datetime_ends.
Qed.
Lemma times_end m values c : comes_to_end (try_collect (unix_time m) values c).
Proof.
  unfold try_collect. end_step. apply collect_values_ends. intros v. unfold unix_time. end_all.
Qed.
#[local] Hint Resolve timestamps_end dates_end datetimes_end times_end : ends.

Lemma flat_lists_end vec name :
  comes_to_end (boolean_list vec name : res kval) /\ comes_to_end (guid_list vec name : res kval)
  /\ comes_to_end (byte_list vec name : res kval)
  /\ (forall t dt c, comes_to_end (integer_list t dt c vec name : res kval))
  /\ (forall t dt c, comes_to_end (float_list t dt c vec name : res kval))
  /\ comes_to_end (timestamp_list vec name : res kval) /\ comes_to_end (date_list vec name : res kval)
  /\ comes_to_end (datetime_list vec name : res kval) /\ comes_to_end (timespan_list vec name : res kval)
  /\ (forall t, comes_to_end (time_list t vec name : res kval)).
Proof.
  split_and!; intros; unfold boolean_list, guid_list, byte_list, integer_list, float_list, timestamp_list, date_list,
    datetime_list, timespan_list, time_list; end_all.
Qed.

Lemma char_lists_end vec name encoding :
  comes_to_end (char_column vec name encoding : res kval) /\ comes_to_end (char_vector vec : res kval).
Proof.
  split; [|unfold char_vector; ends]. unfold char_column. end_step.
  eapply (ends_with_bind _ _ (fun _ => True)); [|intros; apply from_ends].
  destruct (is_ascii vec); [done|]. by destruct encoding.
Qed.

(** ** Symbols *)

Lemma next_symbol_ends payload cursor : comes_to_end (next_symbol payload cursor).
Proof. unfold next_symbol. end_all. Qed.
Lemma consumed_ends payload cursor : comes_to_end (check_symbol_list_consumed payload cursor).
Proof. unfold check_symbol_list_consumed. end_all. Qed.
Lemma global_ends symbol : comes_to_end (insert_global_category symbol).
Proof. apply mapped_error_ends, insert_cat_returns. Qed.
#[local] Hint Resolve next_symbol_ends consumed_ends global_ends : ends.

Lemma category_ends interner symbol : comes_to_end (category interner symbol).
Proof.
  unfold category. cbv zeta.
  assert (forall m : res (Z * SymbolInterner), comes_to_end m ->
    comes_to_end ('(cat, interner) ← m; Ok (cat, MkInterner (Some (symbol, cat)) (interned_short interner) (interned_long interner))))
    as Hm by (intros m Hm; eapply ends_with_bind; [exact Hm|by intros [c i] _]).
  destruct (interned_last interner) as [[last cat]|]; [destruct (bool_decide _); [done|]|];
    apply Hm; destruct (_ <=? 8); (destruct (_ !! _); [done|]); end_all.
Qed.
#[local] Hint Resolve category_ends : ends.

Lemma categories_end n payload cursor interner : comes_to_end (decode_categories n payload cursor interner).
Proof.
  revert cursor interner. induction n as [|n IH]; intros cursor interner; cbn [decode_categories]; [done|].
  end_step. end_step. destruct a0. eapply ends_with_bind; [apply IH|]. by intros [categories stop] _.
Qed.
Lemma symbol_values_end n payload cursor values : comes_to_end (symbol_values n payload cursor values).
Proof.
  revert cursor values. induction n as [|n IH]; intros cursor values; cbn [symbol_values]; [done|]. cbv zeta.
  end_step. end_step. eapply ends_with_bind; [apply IH|]. by intros [[offsets more] stop] _.
Qed.
#[local] Hint Resolve categories_end symbol_values_end : ends.

Lemma symbols_end vec length name as_column encoding :
  comes_to_end (deserialize_symbols vec length name as_column encoding : res kval).
Proof.
  unfold deserialize_symbols, decode_symbol_column, symbol_list, uadd. end_all.
Qed.

(** ** Lists of lists *)

Lemma header_ends vec pos : comes_to_end (element_header vec pos).
Proof. unfold element_header. end_all. Qed.
Lemma payload_ends vec pos n : comes_to_end (element_payload vec pos n).
Proof. unfold element_payload. end_all. Qed.
Lemma trailing_ends vec pos : comes_to_end (trailing_bytes vec pos).
Proof. unfold trailing_bytes. end_all. Qed.
Lemma offset_ends offsets n : comes_to_end (next_offset offsets n).
Proof. unfold next_offset. end_all. Qed.
#[local] Hint Resolve header_ends payload_ends trailing_ends offset_ends : ends.

Lemma char_rows_end n vec pos views values : comes_to_end (char_rows n vec pos views values).
Proof.
  revert pos views values. induction n as [|n IH]; intros pos views values; cbn [char_rows]; [done|].
  end_step. destruct a as [[t count] stop].
  eapply (ends_with_bind _ _ (fun _ => True)); [destruct (_ && _); [done|]; destruct (t =? 10); [apply payload_ends|done]|].
  intros [payload next] _. cbv zeta. destruct (negb _ && _); [done|]. destruct (u32_max <? _); [done|]. end_step.
Qed.
#[local] Hint Resolve char_rows_end : ends.

Lemma decode_char_rows_end vec pos length capacity : comes_to_end (decode_char_rows vec pos length capacity).
Proof.
  unfold decode_char_rows. do 3 end_step. destruct a1 as [[[views values] stop]|]; [|done]. end_all.
Qed.

Lemma symbol_run_ends n vec pos encoding values symbols :
  comes_to_end (nested_symbol_run n vec pos encoding values symbols).
Proof.
  revert pos values symbols. induction n as [|n IH]; intros pos values symbols; cbn [nested_symbol_run]; [done|].
  end_step. destruct a as [symbol stop]. do 3 end_step.
Qed.
#[local] Hint Resolve symbol_run_ends : ends.

Lemma nested_element_ends vec k_type encoding pos n : comes_to_end (nested_element vec k_type encoding pos n).
Proof.
  unfold nested_element. end_step. destruct a as [[t count] stop]. destruct (if t =? 0 then _ else _); [done|].
  end_step. cbv zeta. end_all.
Qed.

Lemma nested_elements_end n vec k_type encoding pos state :
  comes_to_end (nested_elements n vec k_type encoding pos state).
Proof.
  revert pos state. induction n as [|n IH]; intros pos state; cbn [nested_elements]; [done|].
  eapply ends_with_bind; [apply nested_element_ends|]. intros [stop state'] _. apply IH.
Qed.
#[local] Hint Resolve nested_elements_end : ends.

Lemma validated_ends values boundaries : comes_to_end (validate_nested_char values boundaries).
Proof.
  unfold validate_nested_char. destruct (negb _); [done|]. apply try_fold_ends. intros acc window.
  unfold validate_boundary. cbv zeta. end_all.
Qed.

Lemma transcoded_ends values boundaries : comes_to_end (transcode_nested_char_lossy values boundaries).
Proof.
  unfold transcode_nested_char_lossy. do 2 end_step. eapply (ends_with_bind _ _ (fun _ => True)).
  - apply try_fold_ends. intros [transcoded offsets] window. unfold transcode_row. end_all.
  - by intros [transcoded offsets] _.
Qed.

Lemma nested_chars_end values boundaries encoding : comes_to_end (nested_chars values boundaries encoding).
Proof.
  unfold nested_chars. eapply (ends_with_bind _ _ (fun _ => True)).
  - pose proof (validated_ends values boundaries) as Hv. destruct (validate_nested_char values boundaries); try done.
    destruct encoding; [done|]. apply transcoded_ends.
  - intros [values' boundaries'] _. end_step. eapply ends_with_bind; [|done].
    apply collect_values_ends. intros window. end_all.
Qed.

Lemma nested_child_ends k_type n encoding : comes_to_end (nested_child k_type n encoding).
Proof.
  unfold nested_child, nested_integers, nested_floats, nested_timestamps. cbv zeta.
  repeat match goal with
  | |- ends_with (if ?b then _ else _) _ => destruct b
  | |- ends_with (_ ≫= _) _ => end_step
  | |- ends_with (nested_chars _ _ _) _ => apply nested_chars_end
  | |- ends_with (Err _) _ => exact I
  | |- _ => apply or_panics_ends
  end.
Qed.

Lemma nested_list_ends vec pos length k_type capacity name encoding :
  comes_to_end (nested_list vec pos length k_type capacity name encoding : res kval).
Proof.
  unfold nested_list, uadd. do 4 end_step. destruct a2 as [stop n]. end_step.
  eapply (ends_with_bind _ _ (fun _ => True)).
  { unfold create_field. cbv zeta. repeat match goal with |- context [if ?b then _ else _] => destruct b; [exact I|] end. done. }
  intros field _. eapply ends_with_bind; [apply nested_child_ends|]. intros child _.
  destruct (k_type =? 10); [apply from_ends|]. end_step.
  eapply ends_with_bind; [apply mapped_error_ends, from_arrow_returns|]. intros s _. destruct (k_type =? 11); [|done].
  eapply ends_with_bind; [apply mapped_error_ends, cast_returns|]. done.
Qed.

Lemma new_empty_series_ends_any k_type : comes_to_end (new_empty_series k_type : res kval).
Proof.
  unfold new_empty_series. end_step. cbv zeta.
  repeat match goal with |- context [if ?b then _ else _] => destruct b; [exact I|] end. done.
Qed.

Lemma nested_array_ends vec encoding : comes_to_end (deserialize_nested_array vec encoding : res kval).
Proof.
  unfold deserialize_nested_array. end_step. destruct a as [length pos]. destruct (length =? 0).
  { destruct (negb _); [done|]. apply new_empty_series_ends_any. }
  end_step. destruct (negb _); [done|]. end_step. eapply (ends_with_bind _ _ (fun _ => True)).
  { unfold nested_capacity, usub. destruct (_ =? 11); [done|]. end_step. apply ends_ok_or. }
  intros capacity _. eapply (ends_with_bind _ _ (fun _ => True)).
  { destruct (_ =? 10); [apply decode_char_rows_end|done]. }
  intros [a'|] _; [apply from_ends|apply nested_list_ends].
Qed.

Lemma deserialize_series_ends_any vec k_type as_column encoding :
  comes_to_end (deserialize_series vec k_type as_column encoding : res kval).
Proof.
  unfold deserialize_series. destruct (_ <=? k_type); [done|]. end_step. destruct a as [length pos].
  destruct (length =? 0).
  { destruct (negb _); [done|]. destruct (_ && _); [done|]. apply new_empty_series_ends_any. }
  do 2 end_step. eapply (ends_with_bind _ _ (fun _ => True)).
  { unfold check_payload. end_all. }
  intros _ _. unfold deserialize_payload.
  destruct (flat_lists_end a a0) as (? & ? & ? & ? & ? & ? & ? & ? & ? & ?), (char_lists_end a a0 encoding) as [? ?].
  repeat match goal with |- context [if ?b then _ else _] => destruct b end;
    try done; try apply nested_array_ends; try apply symbols_end; eauto.
Qed.
End Ends.
