(* ===== verification/SeriesCodec.v ===== *)
(** * SeriesCodec: the series codec as the value codec uses it

    The writer and the reader of single series, with the operations of Polars around
    them, are the encoder and the decoder of series that values and messages are read
    and written with. *)

From stdpp Require Import prelude strings gmap.
From Stdlib Require Import ZArith Lia ZifyBool.
From S2P Require Import Prelude Errors Types Utf8 QValue Compress Framing ListScan ListScanSpec Text Value AnyValue WireText Float64 Deserialize SerializeFacts DeserializeFacts SerdeSpec Arrow Polars SeriesWrite SeriesRead SeriesFacts SymbolSpec SeriesFormat SeriesWriteFacts SeriesWriteSpec SeriesSizeSpec SeriesReadFacts NestedReadFacts SeriesReadSpec SeriesReadEnds.

(** ** Writing *)

#[export] Instance polars_encoder `{!Polars Series DataFrame} `{!PolarsLaws} : SeriesEncoder Series DataFrame := {|
  frame_columns df := map (fun s => (polars_name s, s)) (polars_columns df);
  Value.get_series_len := SeriesWrite.get_series_len;
  Value.serialize_series := serialize_series_into;
  series_ok := series_fits
|}.

#[export] Instance polars_encoder_laws `{!Polars Series DataFrame} `{!PolarsLaws} : SeriesEncoderLaws.
Proof.
  split. intros s n Hfit Hn. destruct (size_announced s n Hfit Hn) as (bytes & Hb & Hl).
  exists bytes. split; [by apply series_encodes|done].
Qed.

(** ** Reading *)

Section Reader.
  Context `{Allocator} `{Chrono} {Series DataFrame : Type} `{!Polars Series DataFrame}.

(** [keys.cat32()] and [keys.iter_str()], a missing key being the empty text. *)
Definition key_names (s : Series) : res (list (list Z)) :=
  categories ← ok_or
    (match dtype s with DCategorical => mapM (as_primitive U32) (chunks s) | _ => None end)
    (DeserializationErr (accessor_error s));
  Ok (map (fun category => match category with
                           | Some category => default [] (cat_to_str s category)
                           | None => []
                           end) (iter categories)).

(** [symbols.str()] and its values. *)
Definition column_names (s : Series) : outcome string (list (list Z)) :=
  texts ← ok_or
    (match dtype s with DString => mapM as_utf8_view (chunks s) | _ => None end) (accessor_error s);
  Ok (map (default []) (iter texts)).

#[export] Instance polars_decoder : SeriesDecoder Series DataFrame := {|
  Deserialize.deserialize_series := SeriesRead.deserialize_series;
  Deserialize.new_empty_series := SeriesRead.new_empty_series;
  series_len := polars_len;
  series_iter := polars_iter;
  categorical_names := key_names;
  string_names := column_names;
  rename := polars_rename;
  hstack left right := map_err DeserializationErr (polars_hstack left right);
  new_frame columns := map_err DeserializationErr (polars_frame columns);
  symbol_admitted name := bytes_ok name /\ exists category, insert_cat name = Ok category
|}.
End Reader.

(** ** What the reader promises *)

Section Laws.
  Context `{Chrono} {Series DataFrame : Type} `{!Polars Series DataFrame} {Hlaws : PolarsLaws}.

#[local] Existing Instance unlimited.

Abbreviation kval := (K Series DataFrame).

(** The header of a list. *)
Lemma header_read a n rest context :
  0 <= n <= i32_max ->
  take_list_length ((a :: i32_to_le n) ++ rest) 0 context = Ok (n, 5)
  /\ get_from ((a :: i32_to_le n) ++ rest) 5 = Some rest.
Proof.
  intros Hn. assert (len (a :: i32_to_le n) = 5) as H5 by (cbn [length]; rewrite Nat2Z.inj_succ, len_i32_to_le; done).
  split; [|rewrite <- H5; apply get_from_app].
  unfold take_list_length. rewrite checked_add_eq by done. cbn [ok_or mbind outcome_bind].
  assert (get_range ((a :: i32_to_le n) ++ rest) 0 (0 + 5) = Some (a :: i32_to_le n)) as ->.
  { apply get_range_Some. exists [], rest. by rewrite H5. }
  cbn [ok_or mbind outcome_bind].
  assert (get_range (a :: i32_to_le n) 1 5 = Some (i32_to_le n)) as ->.
  { apply get_range_Some. exists [a], []. rewrite app_nil_r, len_i32_to_le. by split_and!. }
  cbn [or_panic mbind outcome_bind]. rewrite i32_le_roundtrip by bool_lia.
  unfold try_usize. by replace (_ && _) with true by bool_lia.
Qed.

Lemma vec_grants n context : try_vec_with_capacity n context = Ok tt.
Proof. apply reserve_unlimited. Qed.

Lemma char_vector_read a bytes encoding :
  len bytes <= i32_max ->
  SeriesRead.deserialize_series ((a :: i32_to_le (len bytes)) ++ bytes) 10 false encoding
  = (Ok (KCharVector bytes) : res kval).
Proof.
  intros Hl. unfold SeriesRead.deserialize_series. change (len K_TYPE_SIZE <=? 10) with false. cbv iota.
  destruct (header_read a (len bytes) bytes "q list" ltac:(lia)) as [-> Hfrom]. cbn [mbind outcome_bind].
  destruct (Z.eqb_spec (len bytes) 0) as [E|E].
  - destruct bytes; [|done]. rewrite app_nil_r. cbn [length]. rewrite Nat2Z.inj_succ, len_i32_to_le. done.
  - rewrite Hfrom. cbn [ok_or mbind outcome_bind]. change (k_type_name 10) with (@Ok XqdbError _ "char"%string).
    cbn [mbind outcome_bind]. unfold check_payload. cbn [Z.eqb Pos.eqb orb].
    change (k_type_size 10) with (@Ok XqdbError Z 1). cbn [mbind outcome_bind]. unfold checked_mul.
    replace (len bytes * 1 <=? usize_max) with true by bool_lia. cbn [ok_or mbind outcome_bind].
    rewrite Z.mul_1_r, Z.eqb_refl. cbn [negb mbind outcome_bind]. unfold deserialize_payload. cbn [Z.eqb Pos.eqb].
    unfold char_vector, try_copy_payload. by rewrite vec_grants.
Qed.

Lemma empty_general_read a encoding :
  SeriesRead.deserialize_series (a :: i32_to_le 0) 0 true encoding = (Ok (KSeries (new_empty "" DNull)) : res kval).
Proof.
  unfold SeriesRead.deserialize_series. change (len K_TYPE_SIZE <=? 0) with false. cbv iota.
  pose proof (proj1 (header_read a 0 [] "q list" ltac:(bool_lia))) as Hh. rewrite app_nil_r in Hh. by rewrite Hh.
Qed.

(** ** Symbols *)

Lemma terminated_is_utf8 names : Forall (fun n => is_utf8 n = true) names -> is_utf8 (terminated names) = true.
Proof.
  induction 1 as [|n names Hn _ IH]; [done|]. rewrite terminated_cons, <- app_assoc. by apply is_utf8_nul.
Qed.

Lemma next_symbol_at pre name rest :
  nul_free name -> next_symbol (pre ++ name ++ 0 :: rest) (len pre) = Ok name.
Proof.
  intros Hn. unfold next_symbol. rewrite get_from_app. cbn [or_panic mbind outcome_bind].
  rewrite find_nul_app by done. cbn [ok_or mbind outcome_bind].
  assert (get_range (pre ++ name ++ 0 :: rest) (len pre) (len pre + len name) = Some name) as ->; [|done].
  apply get_range_Some. by exists pre, (0 :: rest).
Qed.

Lemma mapped_names names ids pre :
  Forall nul_free names -> Forall2 (fun name id => insert_cat name = Ok id) names ids ->
  mapped_categories (length names) (pre ++ terminated names) (len pre) = Ok (ids, len (pre ++ terminated names)).
Proof.
  intros Hn Hids. revert pre Hn. induction Hids as [|name id names ids Hid _ IH]; intros pre Hn.
  - cbn [length mapped_categories]. by rewrite app_nil_r.
  - apply Forall_cons in Hn as [Hname Hn]. cbn [length mapped_categories].
    rewrite terminated_cons, <- !app_assoc. cbn [app]. rewrite next_symbol_at by done. cbn [mbind outcome_bind].
    unfold insert_global_category. rewrite Hid. cbn [map_err mbind outcome_bind].
    specialize (IH (pre ++ name ++ [0]) Hn). rewrite <- !app_assoc in IH. cbn [app] in IH.
    replace (len pre + len name + 1) with (len (pre ++ name ++ [0])) by (rewrite !length_app; cbn [length]; lia).
    by rewrite IH.
Qed.

Lemma admitted_ids names :
  Forall symbol_admitted names ->
  exists ids, Forall2 (fun name id => insert_cat name = Ok id) names ids /\ Forall (fun n => bytes_ok n) names.
Proof.
  induction 1 as [|n names [Hb [id Hid]] _ (ids & IH & IHb)]; [by exists []|].
  exists (id :: ids). by split; constructor.
Qed.

Lemma names_of_ids name all ids names :
  Forall2 (fun name id => insert_cat name = Ok id) names ids ->
  map (fun i => default [] (cat_to_str (from_categories name all) i)) ids = names.
Proof.
  induction 1 as [|n id names ids Hid _ IH]; [done|]. cbn [map]. rewrite IH. f_equal.
  by apply (insert_cat_symbol n id name all) in Hid as [_ ->].
Qed.

(** The names of categories are the symbols they were made of. *)
Lemma key_names_of name ids names :
  Forall2 (fun name id => insert_cat name = Ok id) names ids -> len names <= isize_max ->
  key_names (from_categories name ids) = Ok names /\ polars_len (from_categories name ids) = len names.
Proof.
  intros Hids Hlen.
  assert (Forall (in_native U32) ids) as Hnat.
  { clear -Hids Hlaws name. induction Hids as [|n id names ids Hid _ IH]; constructor; [|done].
    by apply (insert_cat_symbol n id name []) in Hid as [? _]. }
  destruct (from_categories_rows name ids Hnat ltac:(by rewrite (Forall2_length _ _ _ Hids) in Hlen)) as [Ht Hr].
  destruct (accessor_primitive U32 (from_categories name ids)) as (chunked & Ha & Hrows & _).
  { apply layout_chunks. intros a Hok Hl. rewrite Ht in Hl. by split. }
  assert (iter chunked = map Some ids) as Hiter.
  { rewrite Hr in Hrows. revert Hrows. generalize (iter chunked). clear. induction ids as [|i ids IH]; intros [|[x|] l]; cbn; try done.
    intros [= -> Hl]. f_equal. by apply IH. }
  split.
  - unfold key_names. rewrite Ht. unfold accessor in Ha.
    destruct (mapM (as_primitive U32) (chunks (from_categories name ids))); [|done]. injection Ha as ->.
    cbn [ok_or mbind outcome_bind]. rewrite Hiter, map_map. f_equal. by apply names_of_ids.
  - rewrite polars_len_rows, Hr, length_map. symmetry. f_equal. by eapply Forall2_length.
Qed.

Lemma symbols_read_back a names encoding :
  len names <= i32_max -> Forall nul_free names -> Forall (fun n => is_utf8 n = true) names ->
  Forall symbol_admitted names ->
  exists s, SeriesRead.deserialize_series ((a :: i32_to_le (len names)) ++ terminated names) 11 true encoding
            = (Ok (KSeries s) : res kval)
    /\ key_names s = Ok names /\ polars_len s = len names.
Proof.
  intros Hl Hn Hu Hadm. unfold SeriesRead.deserialize_series. change (len K_TYPE_SIZE <=? 11) with false. cbv iota.
  destruct (header_read a (len names) (terminated names) "q list" ltac:(lia)) as [-> Hfrom]. cbn [mbind outcome_bind].
  destruct (Z.eqb_spec (len names) 0) as [E|E].
  - destruct names; [|done]. cbn [terminated flat_map]. rewrite app_nil_r. cbn [length].
    rewrite Nat2Z.inj_succ, len_i32_to_le. cbn [Z.succ Z.add Z.eqb Pos.add Pos.succ Pos.eqb negb andb].
    exists (new_empty "symbol" DCategorical). split; [done|].
    destruct (new_empty_rows "symbol" DCategorical eq_refl) as [Ht Hr]. split; [|by rewrite polars_len_rows, Hr].
    destruct (accessor_primitive U32 (new_empty "symbol" DCategorical)) as (chunked & Ha & Hrows & _).
    { apply layout_chunks. intros b Hok Hlay. rewrite Ht in Hlay. by split. }
    unfold key_names. rewrite Ht. unfold accessor in Ha.
    destruct (mapM (as_primitive U32) (chunks (new_empty "symbol" DCategorical))); [|done]. injection Ha as ->.
    cbn [ok_or mbind outcome_bind]. rewrite Hr in Hrows. by destruct (iter chunked).
  - rewrite Hfrom. cbn [ok_or mbind outcome_bind]. change (k_type_name 11) with (@Ok XqdbError _ "symbol"%string).
    cbn [mbind outcome_bind]. change (check_payload 11 (len names) (terminated names)) with (@Ok XqdbError _ tt).
    cbn [mbind outcome_bind]. unfold deserialize_payload. cbn [Z.eqb Pos.eqb].
    unfold deserialize_symbols, decode_utf8. rewrite terminated_is_utf8 by done. cbn [mbind outcome_bind decoded_text].
    unfold decode_symbol_column. rewrite vec_grants. cbn [mbind outcome_bind].
    destruct (admitted_ids names Hadm) as (ids & Hids & Hb).
    rewrite decode_categories_exact; [| |apply new_interner_ok].
    + rewrite Nat2Z.id. pose proof (mapped_names names ids [] Hn Hids) as Hm. cbn [app length] in Hm.
      change (Z.of_nat 0) with 0 in Hm. rewrite Hm. cbn [mbind outcome_bind].
      unfold check_symbol_list_consumed. rewrite Z.eqb_refl. cbn [mbind outcome_bind].
      exists (from_categories "symbol" ids). split; [done|]. apply key_names_of; [done|bool_lia].
    + clear -Hb. induction Hb as [|n names Hn _ IH]; [constructor|]. rewrite terminated_cons.
      apply Forall_app. split; [|exact IH]. apply Forall_app. by split; [|repeat constructor].
Qed.

#[export] Instance polars_decoder_laws : SeriesDecoderLaws.
Proof.
  split.
  - exact char_vector_read.
  - intros a. exists (new_empty "" DNull). destruct (new_empty_rows "" DNull eq_refl) as [_ Hr].
    split_and!; [by intros; apply empty_general_read|cbn; by rewrite polars_len_rows, Hr|by apply polars_iter_empty].
  - exact symbols_read_back.
Qed.
End Laws.

(** Every operation of the decoder comes back. *)
#[export] Instance polars_decoder_ends `{Allocator} `{Chrono} `{!Polars Series DataFrame} `{!PolarsReturns} :
  SeriesDecoderEnds.
Proof.
  split; cbn.
  - apply deserialize_series_ends_any.
  - intros k_type. apply new_empty_series_ends_any.
  - intros s. unfold key_names. destruct (dtype s); cbn; try done. by destruct (mapM (as_primitive U32) (chunks s)).
  - intros s. unfold column_names. destruct (dtype s); cbn; try done. by destruct (mapM as_utf8_view (chunks s)).
  - intros l r. pose proof (polars_hstack_returns l r). by destruct (polars_hstack l r).
  - intros columns. pose proof (polars_frame_returns columns). by destruct (polars_frame columns).
Qed.
