(* ===== verification/SeriesRoundtrip.v ===== *)
(** * SeriesRoundtrip: a written column of an exact type is read back *)

From stdpp Require Import prelude strings gmap.
From Stdlib Require Import ZArith Lia ZifyBool.
From S2P Require Import Prelude Errors Utf8 Types QValue Compress Framing ListScan ListScanSpec Text Value AnyValue WireText Float64 Deserialize DeserializeFacts Arrow Polars SeriesWrite SeriesRead SeriesFacts SymbolSpec SeriesFormat SeriesWriteFacts SeriesWriteSpec SeriesSizeSpec NestedCharSpec SeriesReadFacts NestedReadFacts SeriesReadSpec CharRowsSpec SeriesCodec.

#[local] Existing Instance unlimited.

(** ** Texts *)

(** A text as a row of a general list. *)
Definition char_list (text : list Z) : list Z := [10; 0] ++ i32_to_le (len text) ++ text.

#[local] Arguments char_list : simpl never.

Lemma element_header_at pre text rest :
  len text <= i32_max -> len (pre ++ char_list text ++ rest) <= isize_max ->
  element_header (pre ++ char_list text ++ rest) (len pre) = Ok (10, len text, len pre + 6).
Proof.
  intros Hl Hmax. unfold element_header, char_list in *. cbn [app] in *. rewrite get_at_here. cbn [ok_or mbind outcome_bind].
  replace (pre ++ 10 :: 0 :: (i32_to_le (len text) ++ text) ++ rest)
    with ((pre ++ [10]) ++ (0 :: i32_to_le (len text)) ++ text ++ rest) in *
    by (rewrite <- !app_assoc; cbn [app]; rewrite <- ?app_assoc; done).
  replace (len pre + 1) with (len (pre ++ [10])) by (rewrite length_app; cbn [length]; lia).
  rewrite take_list_length_at by (done || lia). cbn [mbind outcome_bind]. do 2 f_equal. rewrite length_app. cbn [length]. lia.
Qed.

Lemma element_payload_at pre text rest :
  len (pre ++ char_list text ++ rest) <= isize_max ->
  element_payload (pre ++ char_list text ++ rest) (len pre + 6) (len text) = Ok (text, len (pre ++ char_list text)).
Proof.
  intros Hmax. assert (len (char_list text) = 6 + len text) as Hc.
  { unfold char_list. rewrite !length_app. cbn [length]. pose proof (len_i32_to_le (len text)). lia. }
  unfold element_payload. rewrite checked_add_eq.
  2: { rewrite !length_app in Hmax. bool_lia. }
  cbn [ok_or mbind outcome_bind].
  assert (get_range (pre ++ char_list text ++ rest) (len pre + 6) (len pre + 6 + len text) = Some text) as ->.
  { apply get_range_Some. exists (pre ++ [10; 0] ++ i32_to_le (len text)), rest. unfold char_list.
    split_and!; [by rewrite <- !app_assoc| |done]. rewrite !length_app. cbn [length]. pose proof (len_i32_to_le (len text)). lia. }
  cbn [ok_or mbind outcome_bind]. do 2 f_equal. rewrite length_app. lia.
Qed.

Lemma len_char_list text : len (char_list text) = 6 + len text.
Proof. unfold char_list. rewrite !length_app. cbn [length]. pose proof (len_i32_to_le (len text)). lia. Qed.

(** The views of rows do not change when a row is added. *)
Lemma pushed_views data views text :
  bytes_ok data -> bytes_ok text -> text_views data views ->
  map (view_bytes [data ++ text]) (views ++ [new_from_bytes text 0 (len data)]) = map (view_bytes [data]) views ++ [text].
Proof.
  intros Hd Ht Hv. rewrite map_app. cbn [map]. f_equal.
  - apply map_ext_in. intros v Hin%list_elem_of_In. unfold text_views in Hv. rewrite Forall_forall in Hv. destruct (Hv v Hin) as [Hok _].
    by destruct (view_grows data text v Ht Hok).
  - f_equal. destruct (row_view (data ++ text) (len data) (len data + len text)) as [_ Heq]; [lia| | |].
    + rewrite length_app. lia.
    + by apply Forall_app.
    + cbv zeta in Heq. by rewrite between_last in Heq.
Qed.

(** Texts one after the other. *)
Lemma char_rows_written texts pre views values :
  Forall (fun t => is_utf8 t = true /\ bytes_ok t /\ len t <= i32_max) texts ->
  len (pre ++ flat_map char_list texts) <= isize_max ->
  len (buffer_data values) + len (flat_map char_list texts) <= u32_max ->
  bytes_ok (buffer_data values) -> text_views (buffer_data values) views ->
  exists views' values',
    char_rows (length texts) (pre ++ flat_map char_list texts) (len pre) views values
      = Ok (Some (views', values', len (pre ++ flat_map char_list texts)))
    /\ text_views (buffer_data values') views'
    /\ map (view_bytes [buffer_data values']) views' = map (view_bytes [buffer_data values]) views ++ texts.
Proof.
  intros Ht. revert pre views values.
  induction Ht as [|t texts (Hu & Hb & Hl) _ IH]; intros pre views values Hmax Hsize Hv Hviews.
  - exists views, values. cbn [char_rows length flat_map]. by rewrite !app_nil_r.
  - cbn [length char_rows flat_map] in *. rewrite length_app, Nat2Z.inj_add, len_char_list in Hsize.
    rewrite element_header_at by done. cbn [mbind outcome_bind].
    change ((10 =? 0) && (len t =? 0)) with false. change (10 =? 10) with true. cbv iota.
    rewrite element_payload_at by done. cbn [mbind outcome_bind]. rewrite text_test, Hu. cbn [negb].
    replace (u32_max <? len (buffer_data values)) with false by lia.
    destruct (extend_granted values t "q nested-list values") as [k ->]. cbn [mbind outcome_bind].
    rewrite app_assoc. destruct (IH (pre ++ char_list t) (views ++ [new_from_bytes t 0 (len (buffer_data values))])
      (MkBuffer (buffer_data values ++ t) k)) as (views' & values' & -> & Hviews' & Hmap); cbn [buffer_data].
    + by rewrite <- app_assoc.
    + rewrite length_app. lia.
    + by apply Forall_app.
    + by apply text_views_push.
    + exists views', values'. split; [done|]. split; [done|]. rewrite Hmap. cbn [buffer_data].
      by rewrite pushed_views, <- app_assoc.
Qed.

Section Texts.
  Context `{Chrono} {Series DataFrame : Type} `{!Polars Series DataFrame} `{!PolarsLaws}.

Abbreviation kval := (K Series DataFrame).

(** A general list of texts. *)
Lemma texts_read a texts as_column encoding :
  Forall (fun t => is_utf8 t = true /\ bytes_ok t /\ len t <= i32_max) texts ->
  0 < len texts <= i32_max -> len (flat_map char_list texts) <= u32_max ->
  exists s, deserialize_series ((a :: i32_to_le (len texts)) ++ flat_map char_list texts) 0 as_column encoding
            = (Ok (KSeries s) : res kval)
    /\ dtype s = DString /\ series_rows s = map bytes_row texts.
Proof.
  intros Ht Hn Hsize. set (vec := (a :: i32_to_le (len texts)) ++ flat_map char_list texts).
  assert (len (a :: i32_to_le (len texts)) = 5) as H5 by (cbn [length]; rewrite Nat2Z.inj_succ, len_i32_to_le; done).
  assert (len vec = 5 + len (flat_map char_list texts)) as Hvec by (unfold vec; rewrite length_app; lia).
  unfold deserialize_series. change (len K_TYPE_SIZE <=? 0) with false. cbv iota.
  destruct (header_read a (len texts) (flat_map char_list texts) "q list" ltac:(lia)) as [Hh Hfrom].
  fold vec in Hh, Hfrom. rewrite Hh. cbn [mbind outcome_bind]. destruct (Z.eqb_spec (len texts) 0); [lia|].
  rewrite Hfrom. cbn [ok_or mbind outcome_bind]. change (k_type_name 0) with (@Ok XqdbError _ ""%string).
  cbn [mbind outcome_bind]. change (check_payload 0 (len texts) (flat_map char_list texts)) with (@Ok XqdbError _ tt).
  cbn [mbind outcome_bind]. unfold deserialize_payload. cbn [Z.eqb]. unfold deserialize_nested_array.
  destruct (header_read a (len texts) (flat_map char_list texts) "q nested list" ltac:(lia)) as [Hh' _].
  fold vec in Hh'. rewrite Hh'. cbn [mbind outcome_bind]. destruct (Z.eqb_spec (len texts) 0); [lia|].
  assert (exists rest, flat_map char_list texts = 10 :: rest) as [rest Hrest].
  { destruct texts as [|t texts]; [done|]. cbn [flat_map]. unfold char_list. by eexists. }
  assert (get_at vec 5 = Some 10) as ->.
  { unfold vec. rewrite Hrest, <- H5. apply get_at_here. }
  cbn [ok_or mbind outcome_bind]. change (negb (nested_type 10)) with false. cbv iota.
  change (k_type_name 10) with (@Ok XqdbError _ "char"%string). cbn [mbind outcome_bind].
  assert (exists capacity, nested_capacity vec 5 (len texts) 10 = Ok capacity) as [capacity ->].
  { unfold nested_capacity, usub, checked_sub, checked_mul. cbn [Z.eqb Pos.eqb].
    assert (len texts * 6 <= len (flat_map char_list texts)) as H6.
    { clear. induction texts as [|t texts IH]; [done|]. cbn [flat_map length]. rewrite length_app.
      pose proof (len_char_list t). lia. }
    replace (5 <=? len vec) with true by lia. cbn [or_panic mbind outcome_bind].
    replace (len texts * 6 <=? usize_max) with true by bool_lia. cbn [mbind option_bind].
    replace (len texts * 6 <=? len vec - 5) with true by lia. by eexists. }
  cbn [mbind outcome_bind]. change (10 =? 10) with true. cbv iota. unfold decode_char_rows. rewrite vec_grants.
  destruct (vec_granted capacity "q nested-list values") as [c Hc]. rewrite Hc. cbn [mbind outcome_bind].
  destruct (char_rows_written texts (a :: i32_to_le (len texts)) [] (MkBuffer [] c) Ht)
    as (views & values & Hrows & Hviews & Hmap); [fold vec; bool_lia|cbn; lia|constructor|constructor|].
  fold vec in Hrows. rewrite H5 in Hrows. rewrite Nat2Z.id, Hrows. cbn [mbind outcome_bind].
  unfold trailing_bytes. rewrite Z.eqb_refl. cbn [negb mbind outcome_bind].
  cbn [map app] in Hmap. assert (length views = length texts) as Hlen by (rewrite <- Hmap; by rewrite length_map).
  destruct (view_array_ok views [buffer_data values]) as [[Ha Hk] Hr]; [done|bool_lia|].
  destruct (from_arrow_rows "char" _ Ha Hk) as (s & Hs & Hd & Hrs). unfold series_from. rewrite Hs. exists s.
  split_and!; [done|done|]. rewrite Hrs, Hr, <- Hmap. by rewrite map_map.
Qed.
End Texts.

(** ** A column that is written is read back

    Reading does not give back the very rows: q has no missing boolean or byte, its
    infinities and NaN are read as missing numbers, and every timestamp is in
    nanoseconds.  [read_row] says what becomes of a row. *)

(** ** What a row is read as *)

(** Numbers that q keeps for other things. *)
Definition plain_number (t : NativeType) (v : Z) : bool :=
  match t with
  | F32 | F64 => negb (is_nan_bits t v)
  | U8 | U32 => true
  | _ => (native_min t + 1 <? v) && (v <? native_max t)
  end.

Definition read_number (t : NativeType) (c : option Cell) : option Cell :=
  match c with
  | Some (CellNumber v) => if plain_number t v then c else None
  | _ => None
  end.

Definition scaled_number (multiplier missing : Z) (c : option Cell) : option Cell :=
  match c with
  | Some (CellNumber v) => if v * multiplier =? missing then None else Some (CellNumber (v * multiplier))
  | _ => None
  end.

Definition read_row (t : DataType) (c : option Cell) : option Cell :=
  match t with
  | DBoolean => Some (default (CellBool false) c)
  | DUInt8 => Some (default (CellNumber 0) c)
  | DInt16 => read_number I16 c
  | DInt32 => read_number I32 c
  | DInt64 => read_number I64 c
  | DFloat32 => read_number F32 c
  | DFloat64 => read_number F64 c
  | DBinary => Some (default (CellBytes (replicate 16 0)) c)
  | DString => Some (default (CellBytes []) c)
  | DDate => match c with
             | Some (CellNumber v) => if v - 10957 =? i32_min then None else c
             | _ => None
             end
  | DDatetime unit => match c with
                      | Some (CellNumber v) => Some (CellNumber (v * time_unit_multiplier unit))
                      | _ => None
                      end
  | DDuration unit => scaled_number (time_unit_multiplier unit) i64_min c
  | _ => c
  end.

Definition read_type (t : DataType) : DataType :=
  match t with
  | DDatetime _ => DDatetime Nanoseconds
  | DDuration _ => DDuration Nanoseconds
  | t => t
  end.

(** Columns that are exact on the wire: not datetimes, which are fractions of a day. *)
Definition exact_type (t : DataType) : bool :=
  match t with
  | DString | DBoolean | DUInt8 | DInt16 | DInt32 | DInt64 | DFloat32 | DFloat64 | DBinary | DDate | DDuration _ | DTime => true
  | DDatetime Milliseconds => false
  | DDatetime _ => true
  | _ => false
  end.

(** ** Numbers on the wire *)

(** The number a row is written as. *)
Definition row_number (convert : option Z -> option Z) (c : option Cell) : option Z :=
  match c with
  | None => convert None
  | Some (CellNumber v) => convert (Some v)
  | _ => None
  end.

Lemma number_rows t convert rs bss :
  Forall2 (fun c bs => number_row t convert c = Some bs) rs bss ->
  exists vs, Forall2 (fun c v => row_number convert c = Some v) rs vs /\ concat bss = flat_map (wire_number t) vs.
Proof.
  induction 1 as [|c bs rs bss Hbs _ (vs & Hvs & Hc)]; [by exists []|].
  assert (exists v, row_number convert c = Some v /\ bs = wire_number t v) as (v & Hv & ->).
  { unfold number_row, row_number in *. destruct c as [[]|]; try done; destruct (convert _) as [x|]; try done;
      injection Hbs as <-; by exists x. }
  exists (v :: vs). split; [by constructor|]. cbn. by rewrite Hc.
Qed.

(** A row of a column of numbers. *)
Definition native_row (n : NativeType) (c : option Cell) : Prop :=
  match c with Some (CellNumber v) => in_native n v | Some _ => False | None => True end.

Lemma mask_native n validity (values : list Z) :
  Forall (in_native n) values -> Forall (fun o : option Z => match o with Some v => in_native n v | None => True end) (mask validity values).
Proof.
  intros Hv. destruct validity as [bits|]; cbn [mask].
  - revert bits. induction Hv as [|v values Hv _ IH]; intros [|b bits]; cbn; try constructor; [by destruct b|apply IH].
  - by apply Forall_map.
Qed.

Lemma pointwise {C} (ok : C -> Prop) (P : C -> Z -> Prop) (Q : Z -> Prop) (g : Z -> option Cell) (r : C -> option Cell) rs vs :
  Forall2 P rs vs -> Forall ok rs -> (forall c v, ok c -> P c v -> g v = r c /\ Q v) ->
  map g vs = map r rs /\ Forall Q vs.
Proof.
  intros HP Hok Hgr. revert Hok. induction HP as [|c v rs vs Hcv _ IH]; intros Hok; [by split|].
  apply Forall_cons in Hok as [Hc Hok]. destruct (Hgr c v Hc Hcv) as [Hg HQ], (IH Hok) as [Hm HF].
  cbn. split; [by rewrite Hg, Hm|by constructor].
Qed.

(** ** Reading what was written, with memory to spare *)

Section Roundtrip.
  Context `{Chrono} {Series DataFrame : Type} `{!Polars Series DataFrame} `{!PolarsLaws}.

#[local] Existing Instance unlimited.

Abbreviation kval := (K Series DataFrame).

Lemma series_native s n :
  Forall (primitive_layout n) (chunks s) -> Forall (native_row n) (series_rows s).
Proof.
  intros Hs. destruct (accessor_primitive n s Hs) as (chunked & _ & -> & Hn).
  unfold iter. rewrite concat_map, map_map. apply Forall_concat, Forall_map.
  eapply Forall_impl; [exact Hn|]. intros [values validity] [_ Hv]. cbn [fst snd] in *.
  apply Forall_map. eapply Forall_impl; [by apply mask_native|]. by intros [v|].
Qed.

(** The column [m] yields. *)
Definition reads_rows (m : res kval) (t : DataType) (rs : list (option Cell)) : Prop :=
  exists s, m = Ok (KSeries s) /\ dtype s = t /\ series_rows s = rs.

Lemma reads_of (m : res kval) t rs : ok_with m (is_series t rs) -> (exists k, m = Ok k) -> reads_rows m t rs.
Proof. intros [_ Hm] [k ->]. destruct (Hm k eq_refl) as (s & -> & Ht & Hr). by exists s. Qed.

Lemma numbers_answer t bytes n context :
  len bytes = n * wire_width t -> decode_wire_numbers t bytes context = Ok (wire_values t bytes).
Proof.
  intros Hl. pose proof (wire_width_pos t). unfold decode_wire_numbers. cbv zeta. rewrite Hl, Z.mod_mul by lia.
  cbn [Z.eqb negb]. by rewrite reserve_unlimited.
Qed.

Lemma bitmap_answers bits context : try_bitmap bits context = Ok bits.
Proof. unfold try_bitmap. by rewrite vec_grants. Qed.

(** The bitmap kept of some bits. *)
Definition kept_validity (bits : list bool) : option (list bool) :=
  if negb (unset_bits bits =? 0) then Some bits else None.

Lemma validity_answers bits context : optional_validity bits context = Ok (kept_validity bits).
Proof. unfold optional_validity. by rewrite bitmap_answers. Qed.

Lemma array_answers t dt (values : list Z) (bits : list bool) name :
  native_type dt = Some t -> keeps_values dt = true -> Forall (in_native t) values -> len values <= isize_max ->
  length bits = length values ->
  exists k : kval, (a ← primitive_array t dt values (kept_validity bits); series_from name a) = Ok k.
Proof.
  intros Ht Hk Hv Hl Hb.
  assert (validity_fits (kept_validity bits) (len values) = true) as Hfit.
  { unfold kept_validity. destruct (negb _); [|done]. cbn. lia. }
  unfold primitive_array, or_panics. rewrite bool_decide_eq_true_2, Hfit by done. cbn [andb mbind outcome_bind].
  assert (array_ok (PrimitiveArray dt values (kept_validity bits))) as Ha.
  { split; [cbn [array_len]; lia|]. split; [|by exists t]. cbn [array_validity array_len].
    unfold validity_fits in Hfit. unfold validity_ok. by destruct (kept_validity bits); [lia|]. }
  destruct (from_arrow_rows name _ Ha Hk) as (s & Hs & _). unfold series_from. rewrite Hs. by exists (KSeries s).
Qed.

Lemma collect_answers (f : Z -> res Z) values :
  Forall (fun v => exists r, f v = Ok r) values -> exists rs, collect_values f values = Ok rs.
Proof.
  induction 1 as [|v values [r Hr] _ [rs IH]]; [by exists []|]. cbn [collect_values]. rewrite Hr, IH. by exists (r :: rs).
Qed.

(** The payload of a column of numbers. *)
Lemma written_numbers t vs :
  Forall (in_native t) vs ->
  wire_values t (flat_map (wire_number t) vs) = vs
  /\ len (flat_map (wire_number t) vs) = len vs * wire_width t /\ bytes_ok (flat_map (wire_number t) vs).
Proof.
  intros Hv. split; [by apply wire_values_numbers|]. clear Hv.
  induction vs as [|v vs [IH IHb]]; [by split|]. cbn [flat_map length]. rewrite length_app, length_wire_number.
  pose proof (wire_width_pos t). split; [lia|]. apply Forall_app. split; [apply to_le_bytes|done].
Qed.

(** Columns of each kind of number. *)
Section Numbers.
  Context (t : NativeType) (vs : list Z) (name : string).
  Context (Hv : Forall (in_native t) vs) (Hl : len vs <= isize_max).

Abbreviation payload := (flat_map (wire_number t) vs).

Lemma integers_read dt context :
  native_type dt = Some t -> keeps_values dt = true ->
  reads_rows (integer_list t dt context payload name) (polars_of dt)
    (map (unless (fun v => negb ((native_min t + 1 <? v) && (v <? native_max t))) id) vs).
Proof.
  intros Ht Hk. destruct (written_numbers t vs Hv) as (Hw & Hlen & Hb). apply reads_of.
  - pose proof (integer_list_ok t dt context payload name (len vs) Ht Hk Hlen Hb Hl) as H'. by rewrite Hw in H'.
  - unfold integer_list. rewrite (numbers_answer t payload _ _ Hlen), Hw. cbn [mbind outcome_bind].
    rewrite validity_answers. apply array_answers; try done. by rewrite length_map.
Qed.

Lemma floats_read dt context :
  native_type dt = Some t -> keeps_values dt = true ->
  reads_rows (float_list t dt context payload name) (polars_of dt) (map (unless (is_nan_bits t) id) vs).
Proof.
  intros Ht Hk. destruct (written_numbers t vs Hv) as (Hw & Hlen & Hb). apply reads_of.
  - pose proof (float_list_ok t dt context payload name (len vs) Ht Hk Hlen Hb Hl) as H'. by rewrite Hw in H'.
  - unfold float_list. rewrite (numbers_answer t payload _ _ Hlen), Hw. cbn [mbind outcome_bind].
    rewrite validity_answers. apply array_answers; try done. by rewrite length_map.
Qed.
End Numbers.

Lemma timespans_read vs name :
  Forall (in_native I64) vs -> len vs <= isize_max ->
  reads_rows (timespan_list (flat_map (wire_number I64) vs) name) (DDuration Nanoseconds)
    (map (unless (fun v => v =? i64_min) id) vs).
Proof.
  intros Hv Hl. destruct (written_numbers I64 vs Hv) as (Hw & Hlen & Hb). apply reads_of.
  - pose proof (timespan_list_ok _ name (len vs) Hlen Hb Hl) as H'. by rewrite Hw in H'.
  - unfold timespan_list. rewrite (numbers_answer I64 _ _ _ Hlen), Hw. cbn [mbind outcome_bind].
    rewrite validity_answers. apply array_answers; try done. by rewrite length_map.
Qed.

(** Timestamps in q's range. *)
Definition q_timestamp_read (q : Z) : Prop := q = i64_min \/ i64_min + 1 < q < i64_max /\ q + NANOS_DIFF <= i64_max.

Lemma timestamps_read vs name :
  Forall q_timestamp_read vs -> len vs <= isize_max ->
  reads_rows (timestamp_list (flat_map (wire_number I64) vs) name) (DDatetime Nanoseconds)
    (map (unless (fun v => v =? i64_min) (fun v => v + NANOS_DIFF)) vs).
Proof.
  intros Hq Hl. assert (Forall (in_native I64) vs) as Hv.
  { eapply Forall_impl; [exact Hq|]. intros q Hr. unfold q_timestamp_read in Hr. cbn. bool_lia. }
  destruct (written_numbers I64 vs Hv) as (Hw & Hlen & Hb). apply reads_of.
  - pose proof (timestamp_list_ok _ name (len vs) Hlen Hb Hl) as H'. by rewrite Hw in H'.
  - unfold timestamp_list. rewrite (numbers_answer I64 _ _ _ Hlen), Hw. cbn [mbind outcome_bind].
    destruct (collect_answers unix_timestamp vs) as [rs Hrs].
    { eapply Forall_impl; [exact Hq|]. intros q Hr. unfold unix_timestamp, unix_timestamp_nanoseconds.
      destruct (Z.eqb_spec q i64_min); [by eexists|]. destruct Hr as [?|[Hr Hmax]]; [done|].
      replace ((q =? i64_min + 1) || (q =? i64_max)) with false by bool_lia.
      unfold i64_checked, in_i64. change NANOS_DIFF with 946684800000000000 in *.
      replace (_ && _) with true by bool_lia. by eexists. }
    pose proof (proj2 (unix_timestamps_ok vs Hv) rs Hrs) as [Hmap Hnat]. rewrite Hrs. cbn [mbind outcome_bind].
    rewrite validity_answers. apply array_answers; try done; rewrite ?length_map; [|done].
    by rewrite Hmap, length_map.
Qed.

Lemma dates_read vs name :
  Forall (fun v => in_native I32 v /\ v + 10957 <= i32_max) vs -> len vs <= isize_max ->
  reads_rows (date_list (flat_map (wire_number I32) vs) name) DDate
    (map (unless (fun v => v =? i32_min) (fun v => v + 10957)) vs).
Proof.
  intros Hd Hl. assert (Forall (in_native I32) vs) as Hv by (eapply Forall_impl; [exact Hd|by intros v [? _]]).
  destruct (written_numbers I32 vs Hv) as (Hw & Hlen & Hb). apply reads_of.
  - pose proof (date_list_ok _ name (len vs) Hlen Hb Hl) as H'. by rewrite Hw in H'.
  - unfold date_list. rewrite (numbers_answer I32 _ _ _ Hlen), Hw. cbn [mbind outcome_bind].
    rewrite validity_answers. cbn [mbind outcome_bind].
    assert (collect_values unix_date vs = Ok (map (fun v => if v =? i32_min then v else v + 10957) vs)
      /\ Forall (in_native I32) (map (fun v => if v =? i32_min then v else v + 10957) vs)) as [-> Hnat].
    { clear -Hd. induction Hd as [|v vs [Hv Hm] _ [IH IHn]]; [by split|]. cbn [collect_values map].
      assert (unix_date v = Ok (if v =? i32_min then v else v + 10957)) as ->.
      { unfold unix_date. destruct (v =? i32_min); [done|]. unfold i32_checked, in_i32. cbn in Hv.
        by replace (_ && _) with true by bool_lia. }
      cbn [mbind outcome_bind]. rewrite IH. split; [done|]. constructor; [|done]. cbn in *. case_match; bool_lia. }
    cbn [mbind outcome_bind]. apply array_answers; try done; by rewrite ?length_map.
Qed.

(** Milliseconds of a day, or null. *)
Definition q_time_read (v : Z) : Prop := v = i32_min \/ 0 <= v /\ v * 1000000 < NANOS_PER_DAY.

Lemma times_read vs name :
  Forall q_time_read vs -> len vs <= isize_max ->
  reads_rows (time_list 19 (flat_map (wire_number I32) vs) name) DTime
    (map (unless (fun v => v =? i32_min) (fun v => v * 1000000)) vs).
Proof.
  intros Hd Hl. assert (NANOS_PER_DAY = 86400000000000) as Hday by done.
  assert (Forall (in_native I32) vs) as Hv.
  { eapply Forall_impl; [exact Hd|]. intros v Hq. unfold q_time_read in Hq. cbn. bool_lia. }
  destruct (written_numbers I32 vs Hv) as (Hw & Hlen & Hb). apply reads_of.
  - pose proof (time_list_ok 19 _ name (len vs) Hlen Hb Hl) as H'. by rewrite Hw in H'.
  - unfold time_list. rewrite (numbers_answer I32 _ _ _ Hlen), Hw. cbn [mbind outcome_bind].
    rewrite validity_answers. cbn [mbind outcome_bind]. change (time_multiplier 19) with 1000000.
    assert (collect_values (unix_time 1000000) vs = Ok (map (fun v => if v =? i32_min then 0 else v * 1000000) vs)
      /\ Forall (in_native I64) (map (fun v => if v =? i32_min then 0 else v * 1000000) vs)) as [Hc Hnat].
    { clear -Hd Hday. induction Hd as [|v vs Hq _ [IH IHn]]; [by split|]. cbn [collect_values map].
      assert (unix_time 1000000 v = Ok (if v =? i32_min then 0 else v * 1000000)) as ->.
      { unfold unix_time. destruct (Z.eqb_spec v i32_min); [done|]. destruct Hq as [?|Hq]; [done|].
        unfold i64_checked, in_i64. replace ((i64_min <=? _) && _) with true by bool_lia.
        cbn [mbind option_bind]. by replace (_ && _) with true by bool_lia. }
      cbn [mbind outcome_bind]. rewrite IH. split; [done|]. constructor; [|done].
      unfold q_time_read in Hq. cbn. destruct (Z.eqb_spec v i32_min); bool_lia. }
    unfold try_collect. rewrite vec_grants. cbn [mbind outcome_bind]. rewrite Hc. cbn [mbind outcome_bind].
    apply array_answers; try done; by rewrite ?length_map.
Qed.

(** ** Bits, bytes and GUIDs *)

Lemma from_answers name a : good_array a -> exists k : kval, series_from name a = Ok k.
Proof.
  intros [Ha Hk]. destruct (from_arrow_rows name a Ha Hk) as (s & Hs & _). unfold series_from. rewrite Hs.
  by exists (KSeries s).
Qed.

Lemma booleans_read (bits : list bool) name :
  len bits <= isize_max ->
  reads_rows (boolean_list (map (fun b : bool => if b then 1 else 0) bits) name) DBoolean (map (fun b => Some (CellBool b)) bits).
Proof.
  intros Hl. set (bytes := map (fun b : bool => if b then 1 else 0) bits).
  assert (map (fun v => v =? 1) bytes = bits) as Hbits.
  { unfold bytes. rewrite map_map. rewrite <- (map_id bits) at 2. apply map_ext. by intros []. }
  apply reads_of.
  - pose proof (boolean_list_ok bytes name) as Hok.
    replace (map (fun b => Some (CellBool b)) bits) with (map (fun v => Some (CellBool (v =? 1))) bytes).
    + apply Hok. unfold bytes. by rewrite length_map.
    + rewrite <- Hbits. by rewrite map_map.
  - unfold boolean_list, boolean_values.
    assert (find (fun value => 1 <? value) bytes = None) as ->.
    { unfold bytes. clear. induction bits as [|b bits IH]; [done|]. cbn. by destruct b. }
    rewrite bitmap_answers, Hbits. cbn [mbind outcome_bind]. apply from_answers.
    split; [|done]. split; [cbn [array_len]; lia|]. done.
Qed.

Lemma bytes_read (bytes : list Z) name :
  bytes_ok bytes -> len bytes <= isize_max ->
  reads_rows (byte_list bytes name) DUInt8 (map (fun v => Some (CellNumber v)) bytes).
Proof.
  intros Hb Hl. apply reads_of; [by apply byte_list_ok|]. unfold byte_list, try_copy_payload. rewrite vec_grants.
  cbn [mbind outcome_bind]. change (primitive_array U8 ArrowUInt8 bytes None) with (@Ok XqdbError _ (PrimitiveArray ArrowUInt8 bytes None)).
  cbn [mbind outcome_bind]. apply from_answers. split; [|done]. split; [cbn [array_len]; lia|]. split; [done|]. by exists U8.
Qed.

Lemma chunks_of_rows w (gs : list (list Z)) :
  Forall (fun g => length g = w) gs ->
  chunks_exact (length gs) w (concat gs) = gs /\ length (concat gs) = (length gs * w)%nat.
Proof.
  induction 1 as [|g gs Hg _ [IH IHl]]; [done|]. cbn [length chunks_exact concat]. rewrite length_app.
  rewrite take_app_length', drop_app_length', IH by done. split; [done|lia].
Qed.

Lemma guids_read (gs : list (list Z)) name :
  Forall (fun g => length g = 16%nat /\ bytes_ok g) gs -> len (concat gs) <= isize_max ->
  reads_rows (guid_list (concat gs) name) DBinary (map (fun g => Some (CellBytes g)) gs).
Proof.
  intros Hg Hl. destruct (chunks_of_rows 16 gs) as [Hc Hlen]; [by eapply Forall_impl; [exact Hg|]; intros g []|].
  assert (bytes_ok (concat gs)) as Hb by (apply Forall_concat; eapply Forall_impl; [exact Hg|]; by intros g []).
  assert (len (concat gs) = len gs * 16) as Hlen' by lia. apply reads_of.
  - pose proof (guid_list_ok (concat gs) name (len gs) Hlen' Hb Hl) as Hok. by rewrite Nat2Z.id, Hc in Hok.
  - unfold guid_list, try_copy_payload. rewrite vec_grants. cbn [mbind outcome_bind].
    unfold fixed_size_binary_array, or_panics. rewrite Hlen', Z.mod_mul by lia.
    change ((0 <? 16) && (0 =? 0)) with true. cbn [mbind outcome_bind]. apply from_answers. split; [|done].
    split; [cbn [array_len]; rewrite Hlen', Z.div_mul by lia; lia|]. split; [done|].
    split_and!; [done|by rewrite Hlen', Z.mod_mul by lia|done].
Qed.

(** ** Any exact column *)

(** The code and the name of each type. *)
Lemma payload_read a k_type n payload w as_column encoding :
  0 < n <= i32_max -> 0 < k_type < 20 -> k_type <> 11 -> get_at K_TYPE_SIZE k_type = Some w ->
  len payload = n * w -> n * w <= usize_max ->
  exists name, deserialize_series ((a :: i32_to_le n) ++ payload) k_type as_column encoding
    = deserialize_payload ((a :: i32_to_le n) ++ payload) payload k_type n name as_column encoding.
Proof.
  intros Hn Hk H11 Hw Hl Hmax. unfold deserialize_series. change (len K_TYPE_SIZE) with 20.
  destruct (Z.leb_spec 20 k_type); [lia|]. destruct (header_read a n payload "q list" ltac:(lia)) as [-> Hfrom].
  cbn [mbind outcome_bind]. destruct (Z.eqb_spec n 0); [lia|]. rewrite Hfrom. cbn [ok_or mbind outcome_bind].
  unfold k_type_name. destruct (get_at_is_Some K_TYPE_NAME k_type) as [name ->]; [cbn; lia|]. exists name.
  cbn [or_panic mbind outcome_bind]. unfold check_payload, k_type_size.
  replace ((k_type =? 0) || (k_type =? 11)) with false by lia. rewrite Hw. cbn [or_panic mbind outcome_bind].
  unfold checked_mul. replace (n * w <=? usize_max) with true by lia. cbn [ok_or mbind outcome_bind].
  by rewrite Hl, Z.eqb_refl.
Qed.

Section Column.
  Context (cat_to_str : Z -> option (list Z)) (a : Z) (encoding : SymbolEncoding).

(** The column is read from its rows on the wire. *)
Definition column_read (t : DataType) (k_type : Z) (rs : list (option Cell)) : Prop :=
  forall bss, Forall2 (fun c bs => wire_row cat_to_str t c = Some bs) rs bss -> 0 < len rs <= i32_max ->
  len (concat bss) <= u32_max ->
  reads_rows (deserialize_series ((a :: i32_to_le (len rs)) ++ concat bss) k_type true encoding)
    (read_type t) (map (read_row t) rs).

(** A column of numbers, which [arm] reads. *)
Lemma number_column t k_type n m convert (Q : Z -> Prop) (g : Z -> option Cell) (arm : list Z -> string -> res kval) rs :
  wire_row cat_to_str t = number_row n convert ->
  (forall c v, native_row m c -> row_number convert c = Some v -> g v = read_row t c /\ Q v) ->
  (forall v, Q v -> in_native n v) ->
  (forall vs name, Forall Q vs -> len vs <= isize_max ->
     reads_rows (arm (flat_map (wire_number n) vs) name) (read_type t) (map g vs)) ->
  (forall vec payload length name, deserialize_payload vec payload k_type length name true encoding = arm payload name) ->
  0 < k_type < 20 -> k_type <> 11 -> get_at K_TYPE_SIZE k_type = Some (wire_width n) ->
  Forall (native_row m) rs -> column_read t k_type rs.
Proof.
  intros Hrow Hpoint HQ Harm Hpay Hk H11 Hw Hrs bss Hbss Hlen _. rewrite Hrow in Hbss.
  destruct (number_rows n convert rs bss Hbss) as (vs & Hvs & ->).
  destruct (pointwise (native_row m) _ Q g (read_row t) rs vs Hvs Hrs Hpoint) as [Hmap Hall].
  apply Forall2_length in Hvs as Hl. rewrite <- Hmap.
  assert (Forall (in_native n) vs) as Hnat by (by eapply Forall_impl).
  destruct (written_numbers n vs Hnat) as (_ & Hpl & _).
  assert (0 < wire_width n <= 8) as Hwidth by by destruct n.
  destruct (payload_read a k_type (len rs) (flat_map (wire_number n) vs) (wire_width n) true encoding)
    as [name ->]; try done; [by rewrite Hpl, Hl| |].
  { transitivity (len rs * 8); [apply Z.mul_le_mono_nonneg_l; lia|bool_lia]. }
  rewrite Hpay. apply Harm; [done|bool_lia].
Qed.

(** Integers: the two lowest numbers and the highest one are q's null and infinities. *)
Lemma integer_column t k_type n dt rs :
  wire_row cat_to_str t = number_row n (with_null (native_min n) Some) ->
  read_row t = read_number n -> read_type t = polars_of dt -> native_type dt = Some n -> keeps_values dt = true ->
  plain_number n = (fun v => (native_min n + 1 <? v) && (v <? native_max n)) -> in_native n (native_min n) ->
  (exists context, forall vec payload length name, deserialize_payload vec payload k_type length name true encoding
     = integer_list (DataFrame := DataFrame) n dt context payload name) ->
  0 < k_type < 20 -> k_type <> 11 -> get_at K_TYPE_SIZE k_type = Some (wire_width n) ->
  Forall (native_row n) rs -> column_read t k_type rs.
Proof.
  intros Hrow Hread Ht Hdt Hk Hplain Hmin [context Hpay] Hkt H11 Hw Hrs.
  apply (number_column t k_type n n _ (in_native n)
    (unless (fun v => negb ((native_min n + 1 <? v) && (v <? native_max n))) id) (integer_list n dt context) rs Hrow); try done.
  - intros c v Hc Hv. rewrite Hread. unfold read_number, unless. destruct c as [[| x| |]|]; try done; cbn in Hv; injection Hv as <-.
    + rewrite Hplain. by destruct (_ && _).
    + replace (native_min n + 1 <? native_min n) with false by lia. done.
  - intros vs name Hvs Hl. rewrite Ht. by apply integers_read.
Qed.

Lemma float_column t k_type n dt null rs :
  wire_row cat_to_str t = number_row n (with_null null Some) ->
  read_row t = read_number n -> read_type t = polars_of dt -> native_type dt = Some n -> keeps_values dt = true ->
  plain_number n = (fun v => negb (is_nan_bits n v)) -> in_native n null -> is_nan_bits n null = true ->
  (exists context, forall vec payload length name, deserialize_payload vec payload k_type length name true encoding
     = float_list (DataFrame := DataFrame) n dt context payload name) ->
  0 < k_type < 20 -> k_type <> 11 -> get_at K_TYPE_SIZE k_type = Some (wire_width n) ->
  Forall (native_row n) rs -> column_read t k_type rs.
Proof.
  intros Hrow Hread Ht Hdt Hk Hplain Hmin Hnan [context Hpay] Hkt H11 Hw Hrs.
  apply (number_column t k_type n n _ (in_native n) (unless (is_nan_bits n) id) (float_list n dt context) rs Hrow); try done.
  - intros c v Hc Hv. rewrite Hread. unfold read_number, unless. destruct c as [[| x| |]|]; try done; cbn in Hv; injection Hv as <-.
    + rewrite Hplain. by destruct (is_nan_bits n x).
    + by rewrite Hnan.
  - intros vs name Hvs Hl. rewrite Ht. by apply floats_read.
Qed.

Lemma byte_numbers bytes : bytes_ok bytes -> flat_map (wire_number U8) bytes = bytes.
Proof.
  induction 1 as [|b bytes Hb _ IH]; [done|]. cbn [flat_map]. rewrite IH.
  change (wire_number U8 b) with [unsigned 8 b mod 256]. unfold unsigned, is_byte in *. change (2 ^ 8) with 256.
  cbn [app]. f_equal. rewrite Z.mod_mod by lia. apply Z.mod_small. lia.
Qed.

Lemma byte_column rs : Forall (native_row U8) rs -> column_read DUInt8 4 rs.
Proof.
  intros Hrs. apply (number_column DUInt8 4 U8 U8 (with_null 0 Some) (in_native U8) (fun v => Some (CellNumber v)) byte_list); try done.
  - intros c v Hc Hv. destruct c as [[| x| |]|]; try done; cbn in Hv; injection Hv as <-; by cbn.
  - intros vs name Hvs Hl. rewrite byte_numbers by exact Hvs. by apply bytes_read.
Qed.

Lemma date_column rs : Forall (native_row I32) rs -> column_read DDate 14 rs.
Proof.
  intros Hrs. apply (number_column DDate 14 I32 I32 (with_null i32_min (fun v => i32_checked (v - 10957)))
    (fun v => in_native I32 v /\ v + 10957 <= i32_max)
    (unless (fun v => v =? i32_min) (fun v => v + 10957)) date_list); try done.
  - intros c v Hc Hv. destruct c as [[| x| |]|]; try done; cbn in Hc, Hv.
    + unfold i32_checked in Hv. destruct (in_i32 (x - 10957)) eqn:E; [|done]. injection Hv as <-.
      unfold unless. cbn [read_row]. split; [by replace (x - 10957 + 10957) with x by lia|]. unfold in_i32 in E. cbn. bool_lia.
    + injection Hv as <-. split; [done|]. cbn. bool_lia.
  - by intros v [? _].
  - intros vs name Hvs Hl. by apply dates_read.
Qed.

Lemma datetime_column unit rs :
  unit <> Milliseconds -> Forall (native_row I64) rs -> column_read (DDatetime unit) 12 rs.
Proof.
  intros Hu Hrs. set (m := time_unit_multiplier unit).
  apply (number_column (DDatetime unit) 12 I64 I64 (with_null i64_min (timestamp_of m)) q_timestamp_read
    (unless (fun v => v =? i64_min) (fun v => v + NANOS_DIFF)) timestamp_list); try done.
  - by destruct unit.
  - intros c v Hc Hv. destruct c as [[| x| |]|]; try done; cbn in Hc, Hv.
    + unfold timestamp_of in Hv. destruct (in_i64 (x * m)) eqn:E; [|done]. cbv zeta in Hv.
      destruct (_ && _) eqn:Hr in Hv; [|done]. injection Hv as <-. unfold unless. cbn [read_row].
      replace (x * m - NANOS_DIFF =? i64_min) with false by bool_lia.
      split; [by replace (x * m - NANOS_DIFF + NANOS_DIFF) with (x * m) by lia|].
      right. unfold in_i64 in E. bool_lia.
    + injection Hv as <-. split; [done|]. by left.
  - intros v Hq. unfold q_timestamp_read in Hq. cbn. bool_lia.
  - intros vs name Hvs Hl. by apply timestamps_read.
Qed.

Lemma duration_column unit rs : Forall (native_row I64) rs -> column_read (DDuration unit) 16 rs.
Proof.
  intros Hrs. set (m := time_unit_multiplier unit).
  apply (number_column (DDuration unit) 16 I64 I64 (with_null i64_min (fun v => i64_checked (v * m))) (in_native I64)
    (unless (fun v => v =? i64_min) id) timespan_list); try done.
  - intros c v Hc Hv. destruct c as [[| x| |]|]; try done; cbn in Hc, Hv.
    + unfold i64_checked in Hv. destruct (in_i64 (x * m)) eqn:E; [|done]. injection Hv as <-.
      split; [done|]. unfold in_i64 in E. cbn. bool_lia.
    + by injection Hv as <-.
  - intros vs name Hvs Hl. by apply timespans_read.
Qed.

Lemma time_column rs : Forall (native_row I64) rs -> column_read DTime 19 rs.
Proof.
  intros Hrs. assert (NANOS_PER_DAY = 86400000000000) as Hday by done.
  apply (number_column DTime 19 I32 I64 (with_null i32_min time_of_day) q_time_read
    (unless (fun v => v =? i32_min) (fun v => v * 1000000)) (time_list 19)); try done.
  - intros c v Hc Hv. destruct c as [[| x| |]|]; try done; cbn in Hc, Hv.
    + unfold time_of_day in Hv. destruct (_ && _) eqn:E in Hv; [|done]. injection Hv as <-.
      assert (0 <= x < NANOS_PER_DAY /\ x mod 1000000 = 0) as [Hx Hm] by bool_lia.
      assert (x / 1000000 * 1000000 = x) as Hdiv by (pose proof (Z.div_mod x 1000000); lia).
      assert (0 <= x / 1000000) by (apply Z.div_pos; lia). unfold unless. cbn [read_row].
      replace (x / 1000000 =? i32_min) with false by bool_lia. rewrite Hdiv. split; [done|]. right. lia.
    + injection Hv as <-. split; [done|]. by left.
  - intros v Hq. unfold q_time_read in Hq. cbn. bool_lia.
  - intros vs name Hvs Hl. by apply times_read.
Qed.

Lemma boolean_column rs : column_read DBoolean 1 rs.
Proof.
  intros bss Hbss Hlen _.
  assert (exists bits, concat bss = map (fun b : bool => if b then 1 else 0) bits /\ length bits = length rs
    /\ map (fun b => Some (CellBool b)) bits = map (read_row DBoolean) rs) as (bits & -> & Hl & Hmap).
  { clear Hlen. cbn [wire_row flat_row] in Hbss. induction Hbss as [|c bs rs bss Hc _ (bits & Hcat & Hl & IH)]; [by exists []|].
    assert (exists b, bs = [if b : bool then 1 else 0] /\ Some (CellBool b) = read_row DBoolean c) as (b & -> & Hb).
    { unfold boolean_row in Hc. destruct c as [[b| | |]|]; try done; injection Hc as <-; [by exists b|by exists false]. }
    exists (b :: bits). cbn [map concat app length]. by rewrite Hcat, Hl, IH, Hb. }
  destruct (payload_read a 1 (len rs) (map (fun b : bool => if b then 1 else 0) bits) 1 true encoding)
    as [name ->]; try done; [rewrite length_map; lia|bool_lia|].
  rewrite <- Hmap. apply booleans_read. bool_lia.
Qed.

(** A row of a column of GUIDs. *)
Definition binary_row (c : option Cell) : Prop :=
  match c with Some (CellBytes bytes) => bytes_ok bytes | Some _ => False | None => True end.

Lemma guid_column rs : Forall binary_row rs -> column_read DBinary 2 rs.
Proof.
  intros Hrs bss Hbss Hlen _. cbn [wire_row] in Hbss.
  assert (Forall (fun g => length g = 16%nat /\ bytes_ok g) bss
    /\ map (fun g => Some (CellBytes g)) bss = map (read_row DBinary) rs) as [Hg Hmap].
  { clear Hlen. induction Hbss as [|c bs rs bss Hc _ IH]; [by split|]. apply Forall_cons in Hrs as [Hrow Hrs].
    destruct (IH Hrs) as [IHg IHm].
    assert ((length bs = 16%nat /\ bytes_ok bs) /\ Some (CellBytes bs) = read_row DBinary c) as [Hb Hr].
    { unfold guid_row in Hc. destruct c as [[| |bytes|]|]; try done.
      - destruct (Z.eqb_spec (len bytes) 16); [|done]. injection Hc as <-. split; [split; [lia|exact Hrow]|done].
      - injection Hc as <-. split; [|done]. split; [done|]. repeat constructor; done. }
    split; [by constructor|]. cbn [map]. by rewrite Hr, IHm. }
  apply Forall2_length in Hbss as Hl.
  destruct (chunks_of_rows 16 bss) as [_ Hcl]; [by eapply Forall_impl; [exact Hg|]; intros g []|].
  destruct (payload_read a 2 (len rs) (concat bss) 16 true encoding) as [name ->]; try done; [lia|bool_lia|].
  rewrite <- Hmap. apply guids_read; [done|bool_lia].
Qed.

(** A row of a column of texts. *)
Definition text_row (c : option Cell) : Prop :=
  match c with Some (CellBytes bytes) => is_utf8 bytes = true /\ bytes_ok bytes | Some _ => False | None => True end.

Lemma text_column rs : Forall text_row rs -> column_read DString 0 rs.
Proof.
  intros Hrs bss Hbss Hlen Hsize. cbn [wire_row] in Hbss.
  assert (exists texts, concat bss = flat_map char_list texts /\ length texts = length rs
    /\ Forall (fun t => is_utf8 t = true /\ bytes_ok t /\ len t <= i32_max) texts
    /\ map bytes_row texts = map (read_row DString) rs) as (texts & Hc & Hl & Ht & Hmap).
  { clear Hlen Hsize. induction Hbss as [|c bs rs bss Hrow _ IH]; [by exists []|]. apply Forall_cons in Hrs as [Hok Hrs].
    destruct (IH Hrs) as (texts & Hcat & Hl & Ht & Hmap).
    assert (exists t, bs = char_list t /\ (is_utf8 t = true /\ bytes_ok t /\ len t <= i32_max)
      /\ bytes_row t = read_row DString c) as (t & -> & Hgood & Hr).
    { unfold string_row, sublist in Hrow. destruct c as [[| |bytes|]|]; try done.
      - destruct (Z.leb_spec (len bytes) i32_max); [|done]. injection Hrow as <-. exists bytes. by destruct Hok.
      - injection Hrow as <-. exists []. by split_and!; try constructor. }
    exists (t :: texts). cbn [concat flat_map map length]. rewrite Hcat, Hl, Hr, Hmap. split_and!; try done. by constructor. }
  rewrite <- Hmap, Hc in *. rewrite <- Hl in *. by apply texts_read.
Qed.
End Column.

Lemma view_bytes_ok buffers v : view_ok buffers v -> bytes_ok (view_bytes buffers v).
Proof.
  destruct v as [bytes|n i o]; [done|]. cbn [view_ok view_bytes]. intros (b & -> & _ & _ & _ & Hb). cbn [default].
  by apply Forall_take, Forall_drop.
Qed.

Lemma mask_Forall {A} (P : option A -> Prop) validity (l : list A) :
  P None -> Forall (fun x => P (Some x)) l -> Forall P (mask validity l).
Proof.
  intros Hn Hl. destruct validity as [bits|]; cbn [mask]; [|by apply Forall_map].
  revert bits. induction Hl as [|x l Hx _ IH]; intros [|b bits]; cbn; constructor; [by destruct b|apply IH].
Qed.

Lemma binary_rows s : dtype s = DBinary -> Forall binary_row (series_rows s).
Proof.
  intros Ht. unfold series_rows. apply Forall_concat, Forall_map. eapply Forall_impl; [exact (chunks_ok s)|].
  intros arr [Ha Hl]. rewrite Ht in Hl. destruct Hl as (views & buffers & validity & ->). destruct Ha as (_ & _ & Hv).
  cbn [rows]. apply mask_Forall; [done|]. apply Forall_map. eapply Forall_impl; [exact Hv|]. intros v Hok.
  by apply view_bytes_ok.
Qed.

Lemma text_rows s : dtype s = DString -> Forall text_row (series_rows s).
Proof.
  intros Ht. unfold series_rows. apply Forall_concat, Forall_map. eapply Forall_impl; [exact (chunks_ok s)|].
  intros arr [Ha Hl]. rewrite Ht in Hl. destruct Hl as (views & buffers & validity & ->). destruct Ha as (_ & _ & Hv).
  cbn [rows]. apply mask_Forall; [done|]. apply Forall_map. eapply Forall_impl; [exact Hv|]. intros v [Hok Hu].
  split; [done|]. by apply view_bytes_ok.
Qed.

Lemma column_of s a encoding :
  exact_type (dtype s) = true ->
  exists k_type, wire_code (dtype s) = Some k_type
    /\ column_read (cat_to_str s) a encoding (dtype s) k_type (series_rows s).
Proof.
  intros He.
  assert (forall n, (forall arr, layout (dtype s) arr ->
      exists dt values validity, arr = PrimitiveArray dt values validity /\ native_type dt = Some n) ->
    Forall (native_row n) (series_rows s)) as Hnat.
  { intros n Hn. apply series_native. eapply Forall_impl; [exact (chunks_ok s)|]. intros arr [Ha Hl].
    split; [done|by apply Hn]. }
  destruct (dtype s) as [| |child|child size| | | | | | | | | |unit| |unit| |] eqn:Ht; try done; cbn [wire_code flat_code].
  - exists 0. split; [done|]. by apply text_column, text_rows.
  - exists 1. split; [done|]. apply boolean_column.
  - exists 2. split; [done|]. by apply guid_column, binary_rows.
  - exists 4. split; [done|]. by apply byte_column, Hnat.
  - exists 5. split; [done|]. eapply (integer_column _ _ _ _ _ I16 ArrowInt16); try done; [by eexists|by apply Hnat].
  - exists 6. split; [done|]. eapply (integer_column _ _ _ _ _ I32 ArrowInt32); try done; [by eexists|by apply Hnat].
  - exists 7. split; [done|]. eapply (integer_column _ _ _ _ _ I64 ArrowInt64); try done; [by eexists|by apply Hnat].
  - exists 8. split; [done|]. eapply (float_column _ _ _ _ _ F32 ArrowFloat32 F32_NAN); try done; [by eexists|by apply Hnat].
  - exists 9. split; [done|]. eapply (float_column _ _ _ _ _ F64 ArrowFloat64 F64_NAN); try done; [by eexists|by apply Hnat].
  - exists 12. destruct unit; try done; (split; [done|]); apply datetime_column; try done; by apply Hnat.
  - exists 14. split; [done|]. by apply date_column, Hnat.
  - exists 16. split; [done|]. by apply duration_column, Hnat.
  - exists 19. split; [done|]. by apply time_column, Hnat.
Qed.
End Roundtrip.

(** C4: a column of one of the exact types is read back.  The exact types are strings,
    booleans, GUIDs, bytes, shorts, ints, longs, reals, floats, dates, timestamps in
    microseconds or nanoseconds, durations and times; lists, arrays, symbols (see C28)
    and timestamps in milliseconds are not among them.  What [serialize_series_into]
    writes for a series of such a type, not empty and of at most [u32_max] bytes on the
    wire, is decoded by [deserialize_series], in either encoding, to a series of the same
    type, in nanoseconds where the type has a unit, with the same rows; only what q
    cannot say changes: missing texts are empty, missing booleans, bytes and GUIDs are
    zeros, q's infinities and NaN are missing. *)
Theorem series_roundtrip `{Chrono} `{!Polars Series DataFrame} `{!PolarsLaws} (s : Series) (bytes : list Z)
    (encoding : SymbolEncoding) :
  exact_type (dtype s) = true -> series_rows s <> [] -> serialize_series_into s = Ok bytes ->
  len bytes <= u32_max ->
  exists k_type payload s', bytes = k_type :: payload
    /\ @SeriesRead.deserialize_series unlimited _ Series DataFrame _ payload k_type true encoding = Ok (KSeries s')
    /\ dtype s' = read_type (dtype s) /\ series_rows s' = map (read_row (dtype s)) (series_rows s).
Proof.
  intros He Hne Hs Hmax. apply series_encodes in Hs. destruct (column_of s 0 encoding He) as (k_type & Hk & Hcol).
  unfold wire_series in Hs. rewrite Hk in Hs. cbn [mbind option_bind] in Hs.
  destruct (mapM _ _) as [bss|] eqn:Hbss; [|done]. cbn [mbind option_bind] in Hs.
  destruct (Z.leb_spec (len (series_rows s)) i32_max) as [Hl|]; [|done]. injection Hs as <-.
  apply mapM_Some in Hbss. destruct (Hcol bss Hbss) as (s' & Hs' & Ht & Hr).
  { destruct (series_rows s); [done|]. cbn [length] in *. lia. }
  { cbn [length] in Hmax. lia. }
  by exists k_type, ((0 :: i32_to_le (len (series_rows s))) ++ concat bss), s'.
Qed.

(** ** Symbols *)

Lemma symbol_rows cats (categories : list (option Z)) bss :
  Forall2 (fun c bs => symbol_row cats (CellNumber <$> c) = Some bs) categories bss ->
  let names := map (fun c => match c with Some id => default [] (cats id) | None => [] end) categories in
  concat bss = terminated names /\ Forall nul_free names.
Proof.
  induction 1 as [|c bs categories bss Hc _ [IHc IHn]]; [by split; [|constructor]|].
  cbn [concat map]. rewrite terminated_cons, IHc.
  set (name := match c with Some id => default [] (cats id) | None => [] end).
  assert (bs = name ++ [0] /\ nul_free name) as [-> Hn]; [|by split; [|constructor]].
  unfold name. destruct c as [id|]; cbn in Hc.
  - destruct (cats id) as [symbol|]; [|done]. cbn in Hc. destruct (contains_nul symbol) eqn:E; [done|].
    injection Hc as <-. split; [done|]. by apply contains_nul_free.
  - injection Hc as <-. split; [done|constructor].
Qed.

(** C28: a symbol column keeps its symbols: the list written for a categorical series,
    through the cache of recent symbols and from whatever categories its chunks hold, is
    decoded, through the interner, to a categorical series of the same length whose
    symbols are the same, row by row, a missing one being the empty symbol. *)
Theorem symbols_roundtrip `{Chrono} `{!Polars Series DataFrame} `{!PolarsLaws} (s : Series) (bytes : list Z)
    (names : list (list Z)) (encoding : SymbolEncoding) :
  dtype s = DCategorical -> serialize_series_into s = Ok bytes -> key_names s = Ok names ->
  Forall (fun n => is_utf8 n = true) names ->
  Forall (fun n => bytes_ok n /\ exists category, insert_cat n = Ok category) names ->
  exists payload s', bytes = 11 :: payload
    /\ @SeriesRead.deserialize_series unlimited _ Series DataFrame _ payload 11 true encoding = Ok (KSeries s')
    /\ key_names s' = Ok names /\ polars_len s' = polars_len s.
Proof.
  intros Ht Hs Hnames Hutf8 Hadm. apply series_encodes in Hs. rewrite Ht in Hs. unfold wire_series in Hs.
  cbn [wire_code mbind option_bind wire_row] in Hs. destruct (mapM _ _) as [bss|] eqn:Hbss; [|done].
  cbn [mbind option_bind] in Hs. destruct (Z.leb_spec (len (series_rows s)) i32_max) as [Hl|]; [|done]. injection Hs as <-.
  destruct (accessor_primitive U32 s) as (chunked & Ha & Hr & _).
  { apply layout_chunks. intros arr Hok Hlay. rewrite Ht in Hlay. by split. }
  unfold key_names in Hnames. rewrite Ht in Hnames. unfold accessor in Ha.
  destruct (mapM (as_primitive U32) (chunks s)); [|done]. injection Ha as ->. cbn [ok_or mbind outcome_bind] in Hnames.
  rewrite polars_len_rows, Hr, length_map in *. apply mapM_Some, Forall2_fmap_l in Hbss.
  destruct (symbol_rows (cat_to_str s) (iter chunked) bss Hbss) as [Hc Hn]. injection Hnames as Hnames.
  rewrite Hnames in Hc, Hn. assert (length names = length (iter chunked)) as Hlen by (rewrite <- Hnames; by rewrite length_map).
  destruct (symbols_read_back 0 names encoding) as (s' & Hs' & Hk & Hp); try done; [lia|].
  exists ((0 :: i32_to_le (len names)) ++ terminated names), s'. rewrite Hc, <- Hlen. by rewrite <- Hlen in *.
Qed.
