(* ===== verification/SeriesExamples.v ===== *)
(** * SeriesExamples: the series codec at concrete columns *)

From stdpp Require Import prelude strings gmap.
From Stdlib Require Import ZArith Lia ZifyBool.
From S2P Require Import Prelude Errors Types Utf8 Value AnyValue WireText Float64 Deserialize Arrow Polars SeriesWrite SeriesRead SeriesFacts SymbolSpec SeriesFormat SeriesWriteSpec SeriesSizeSpec Sample SamplePolars SeriesReadFacts SeriesReadSpec CharRowsSpec SeriesCodec SeriesRoundtrip.

#[local] Existing Instance unlimited.

Lemma is_Ok {E A} (m : outcome E A) : match m with Ok _ => true | _ => false end = true -> exists a, m = Ok a.
Proof. destruct m; try done. by eexists. Qed.

(** The series of an array. *)
Definition series_of (name : string) (a : Array) : Series :=
  match from_arrow name a with Ok s => s | _ => null_series end.

(** Three longs, the second missing. *)
Definition some_longs : Series :=
  series_of "x" (PrimitiveArray ArrowInt64 [1; 7; 3] (Some [true; false; true])).

(** Two texts, one of them past the inline limit. *)
Definition some_texts : Series :=
  series_of "t" (Utf8ViewArray [ViewInline [97; 98]; ViewRef 14 0 1] [replicate 15 99] None).

(** The symbols bid, a and the long one. *)
Definition some_symbols : Series := categories "sym" [3; 1; 6; 3].

Definition long_list : list Z :=
  Eval vm_compute in match serialize_series_into some_longs with Ok bytes => bytes | _ => [] end.
Definition text_list : list Z :=
  Eval vm_compute in match serialize_series_into some_texts with Ok bytes => bytes | _ => [] end.
Definition symbol_column_list : list Z :=
  Eval vm_compute in match serialize_series_into some_symbols with Ok bytes => bytes | _ => [] end.

Lemma interner_exact_witness :
  bytes_ok [98; 105; 100; 0; 97; 0; 98; 105; 100; 0]
  /\ decode_categories 3 [98; 105; 100; 0; 97; 0; 98; 105; 100; 0] 0 SymbolInterner_new = Ok ([3; 1; 3], 10).
Proof.
  assert (bytes_ok [98; 105; 100; 0; 97; 0; 98; 105; 100; 0]) as Hb by (repeat constructor; done).
  split; [exact Hb|]. rewrite (interner_exact 3 _ Hb). vm_compute. reflexivity.
Defined.

Lemma series_written_witness :
  serialize_series_into some_longs = Ok long_list /\ serialize_series_into some_texts = Ok text_list.
Proof.
  split.
  - apply (series_written some_longs). vm_compute. reflexivity.
  - apply (series_written some_texts). vm_compute. reflexivity.
Defined.

Lemma some_texts_fit : series_fits some_texts.
Proof.
  assert (series_rows some_texts = [Some (CellBytes [97; 98]); Some (CellBytes (replicate 14 99))]) as Hr
    by (vm_compute; reflexivity).
  assert (dtype some_texts = DString) as Ht by (vm_compute; reflexivity).
  split; [rewrite Hr; repeat constructor; cbn; bool_lia|by rewrite Ht].
Qed.

Lemma series_sized_witness :
  SeriesWrite.get_series_len some_texts = Ok 34
  /\ exists bytes, serialize_series_into some_texts = Ok bytes /\ len bytes = 34.
Proof.
  assert (SeriesWrite.get_series_len some_texts = Ok 34) as Hn by (vm_compute; reflexivity).
  destruct (series_sized some_texts 34 Hn) as [Hfits Hsize]. split; [exact Hn|].
  pose proof (proj2 Hfits some_texts_fit) as Hok.
  destruct (serialize_series_into some_texts) as [bytes| | |]; try discriminate Hok.
  exists bytes. split; [reflexivity|exact (Hsize bytes eq_refl)].
Defined.

(** The payload of two texts, the second of which has an e-acute. *)
Definition char_rows_payload : list Z := [0; 2; 0; 0; 0; 10; 0; 1; 0; 0; 0; 97; 10; 0; 2; 0; 0; 0; 195; 169].


(** A second row of more bytes than there are. *)
Definition cut_rows_payload : list Z := [0; 2; 0; 0; 0; 10; 0; 1; 0; 0; 0; 97; 10; 0; 9; 0; 0; 0; 98].

Definition cut_rows_error : string := "q nested-list payload length 9 exceeds the available bytes".

Lemma cut_rows_refused :
  @nested_reference _ Series (list Series) _ cut_rows_payload Strict = Err (DeserializationErr cut_rows_error).
Proof. vm_cast_no_check (eq_refl (@Err XqdbError (K Series (list Series)) (DeserializationErr cut_rows_error))). Qed.

Lemma missing_is_no_overflow :
  @Err XqdbError (K Series (list Series)) (DeserializationErr cut_rows_error) = Err count_overflow -> False.
Proof. unfold cut_rows_error, count_overflow. intros E. injection E. congruence. Qed.

Lemma one_pass_chars_agree_witness :
  is_ok (@deserialize_nested_array unlimited _ Series (list Series) _ char_rows_payload Strict) = true
  /\ @deserialize_nested_array unlimited _ Series (list Series) _ char_rows_payload Strict
     = nested_reference char_rows_payload Strict
  /\ @deserialize_nested_array unlimited _ Series (list Series) _ cut_rows_payload Strict
     = nested_reference cut_rows_payload Strict.
Proof.
  assert (bytes_ok char_rows_payload /\ bytes_ok cut_rows_payload) as [Hb Hc] by (split; repeat constructor; done).
  assert (is_ok (@deserialize_nested_array unlimited _ Series (list Series) _ char_rows_payload Strict) = true) as Hk
    by (vm_compute; reflexivity).
  split; [exact Hk|]. split.
  - destruct (one_pass_chars_agree (DataFrame := list Series) char_rows_payload Strict Hb ltac:(vm_compute; discriminate))
      as [E|(count & E & _)]; [exact E|]. rewrite E in Hk. exact (False_ind _ (Bool.diff_false_true Hk)).
  - destruct (one_pass_chars_agree (DataFrame := list Series) cut_rows_payload Strict Hc ltac:(vm_compute; discriminate))
      as [E|(count & _ & E)]; [exact E|]. rewrite cut_rows_refused in E. exact (False_ind _ (missing_is_no_overflow E)).
Defined.

Lemma series_roundtrip_witness :
  exists s' : Series,
    @SeriesRead.deserialize_series unlimited _ Series (list Series) _ (drop 1 long_list) 7 true Strict = Ok (KSeries s')
    /\ dtype s' = DInt64 /\ series_rows s' = [Some (CellNumber 1); None; Some (CellNumber 3)].
Proof.
  destruct (series_roundtrip (DataFrame := list Series) some_longs long_list Strict) as (k & payload & s' & Hl & Hs' & Ht & Hr).
  - vm_compute. reflexivity.
  - vm_compute. discriminate.
  - vm_compute. reflexivity.
  - vm_compute. discriminate.
  - injection Hl as <- <-. exists s'. split_and!; [exact Hs'|exact Ht|]. rewrite Hr. vm_compute. reflexivity.
Defined.

Lemma symbols_roundtrip_witness :
  exists s' : Series,
    @SeriesRead.deserialize_series unlimited _ Series (list Series) _ (drop 1 symbol_column_list) 11 true Strict
      = Ok (KSeries s')
    /\ key_names s' = Ok [[98; 105; 100]; [97]; text_bytes "long.symbol"; [98; 105; 100]].
Proof.
  destruct (symbols_roundtrip (DataFrame := list Series) some_symbols symbol_column_list
    [[98; 105; 100]; [97]; text_bytes "long.symbol"; [98; 105; 100]] Strict) as (payload & s' & Hl & Hs' & Hn & _).
  - vm_compute. reflexivity.
  - vm_compute. reflexivity.
  - vm_compute. reflexivity.
  - repeat constructor.
  - repeat constructor; try done; eexists; vm_compute; reflexivity.
  - injection Hl as <-. exists s'. split; [exact Hs'|exact Hn].
Defined.
