(* ===== verification/Stream.v ===== *)
(** * Stream: computations with a state, and reading from a stream

    A Rust function with [&mut] arguments that returns [Result] leaves its arguments
    changed also when it returns an error; [proc S A] threads the state through every
    outcome. *)

From stdpp Require Import prelude strings.
From Stdlib Require Import ZArith.
From S2P Require Import Prelude Errors.

Definition proc (S A : Type) : Type := S -> res A * S.

Declare Scope proc_scope.
Delimit Scope proc_scope with proc.

Section Proc.
  Context {S : Type}.

Definition pret {A} (a : A) : proc S A := fun s => (Ok a, s).
Definition pfail {A} (e : XqdbError) : proc S A := fun s => (Err e, s).
Definition lift {A} (m : res A) : proc S A := fun s => (m, s).
Definition get : proc S S := fun s => (Ok s, s).
Definition put (s : S) : proc S unit := fun _ => (Ok tt, s).
Definition update (f : S -> S) : proc S unit := fun s => (Ok tt, f s).

Definition pbind {A B} (m : proc S A) (f : A -> proc S B) : proc S B := fun s =>
  match m s with
  | (Ok a, s) => f a s
  | (Err e, s) => (Err e, s)
  | (Panicked, s) => (Panicked, s)
  | (OutOfFuel, s) => (OutOfFuel, s)
  end.

(** [match m { Err(error) => { cleanup; return Err(error) }, Ok(a) => a }]. *)
Definition on_error {A} (m : proc S A) (cleanup : proc S unit) : proc S A := fun s =>
  match m s with
  | (Err e, s) => pbind cleanup (fun _ => pfail e) s
  | r => r
  end.

(** The outcome as a value. *)
Definition attempt {A} (m : proc S A) : proc S (res A) := fun s =>
  match m s with
  | (Panicked, s) => (Panicked, s)
  | (OutOfFuel, s) => (OutOfFuel, s)
  | (r, s) => (Ok r, s)
  end.
End Proc.

Notation "x <- m ;; k" := (pbind m (fun x => k))
  (at level 100, m at next level, right associativity) : proc_scope.
Notation "'let*' p := m 'in' k" := (pbind m (fun p => k))
  (at level 200, p pattern, m at level 200, k at level 200, right associativity,
   format "'let*'  p  :=  m  'in' '//' k") : proc_scope.

(** A computation on a part of the state. *)
Definition zoom {S T A} (view : S -> T) (set : T -> S -> S) (m : proc T A) : proc S A := fun s =>
  let '(r, t) := m (view s) in (r, set t s).

Section Laws.
  Context {S : Type}.

Lemma pbind_ret {A B} (a : A) (f : A -> proc S B) s : pbind (pret a) f s = f a s.
Proof. done. Qed.

Lemma pbind_Ok {A B} (m : proc S A) (f : A -> proc S B) s a s1 :
  m s = (Ok a, s1) -> pbind m f s = f a s1.
Proof. intros H. unfold pbind. by rewrite H. Qed.

Lemma pbind_lift {A B} (m : res A) (f : A -> proc S B) s a :
  m = Ok a -> pbind (lift m) f s = f a s.
Proof. by intros ->. Qed.

Lemma pbind_Err {A B} (m : proc S A) (f : A -> proc S B) s e s1 :
  m s = (Err e, s1) -> pbind m f s = (Err e, s1).
Proof. intros H. unfold pbind. by rewrite H. Qed.

(** Every outcome of the first part is one of the whole, or the second part runs. *)
Lemma pbind_inv {A B} (m : proc S A) (f : A -> proc S B) s b s' :
  pbind m f s = (Ok b, s') -> exists a s1, m s = (Ok a, s1) /\ f a s1 = (Ok b, s').
Proof. unfold pbind. destruct (m s) as [[a|e| |] s1]; naive_solver. Qed.
End Laws.

(** ** What a computation promises

    From a state in [P] the computation comes to an end, in [Q] when it succeeds and in
    [I] when it fails; it panics only where [panics] allows it. *)
Section Triple.
  Context {S : Type} (panics : Prop).

Definition triple {A} (P : S -> Prop) (m : proc S A) (I : S -> Prop) (Q : A -> S -> Prop) : Prop :=
  forall s, P s ->
    let '(r, s') := m s in
    match r with Ok a => Q a s' | Err _ => I s' | Panicked => panics | OutOfFuel => False end.

Lemma triple_bind {A B} (P : S -> Prop) (m : proc S A) (f : A -> proc S B) I Q R :
  triple P m I Q -> (forall a, triple (Q a) (f a) I R) -> triple P (pbind m f) I R.
Proof.
  intros Hm Hf s Hs. specialize (Hm s Hs). unfold pbind. destruct (m s) as [[a|e| |] s']; try done.
  exact (Hf a s' Hm).
Qed.

Lemma triple_lift {A} (P : S -> Prop) (r : res A) (I : S -> Prop) (Q : A -> S -> Prop) :
  r <> OutOfFuel -> (r = Panicked -> panics) -> (forall s, P s -> I s) ->
  (forall a s, P s -> r = Ok a -> Q a s) -> triple P (lift r) I Q.
Proof. intros Hr Hp HI HQ s Hs. unfold lift. destruct r; auto. Qed.

(** A step that is known to succeed. *)
Lemma triple_Ok {A B} (P : S -> Prop) (a : A) (f : A -> proc S B) I Q :
  triple P (f a) I Q -> triple P (pbind (lift (Ok a)) f) I Q.
Proof. done. Qed.

Lemma triple_Err {A B} (P : S -> Prop) e (f : A -> proc S B) (I : S -> Prop) Q :
  (forall s, P s -> I s) -> triple P (pbind (lift (Err e)) f) I Q.
Proof. intros HI s Hs. exact (HI s Hs). Qed.

Lemma triple_ret {A} (P : S -> Prop) (a : A) (I : S -> Prop) (Q : A -> S -> Prop) :
  (forall s, P s -> Q a s) -> triple P (pret a) I Q.
Proof. intros HQ s Hs. by apply HQ. Qed.

Lemma triple_fail {A} (P : S -> Prop) e (I : S -> Prop) (Q : A -> S -> Prop) :
  (forall s, P s -> I s) -> triple P (pfail e) I Q.
Proof. intros HI s Hs. by apply HI. Qed.

Lemma triple_weaken {A} (P P' : S -> Prop) (m : proc S A) (I I' : S -> Prop) (Q Q' : A -> S -> Prop) :
  triple P m I Q -> (forall s, P' s -> P s) -> (forall s, I s -> I' s) -> (forall a s, Q a s -> Q' a s) ->
  triple P' m I' Q'.
Proof.
  intros Hm HP HI HQ s Hs. specialize (Hm s (HP s Hs)). destruct (m s) as [[a|e| |] s']; auto.
Qed.

(** A fact about the states is one about the computation. *)
Lemma triple_pure {A} (X : Prop) (P : S -> Prop) (m : proc S A) (I : S -> Prop) (Q : A -> S -> Prop) :
  (X -> triple P m I Q) -> triple (fun s => X /\ P s) m I Q.
Proof. intros Hm s [Hx Hs]. exact (Hm Hx s Hs). Qed.

Lemma triple_if {A} (b : bool) (P : S -> Prop) (m1 m2 : proc S A) (I : S -> Prop) (Q : A -> S -> Prop) :
  (b = true -> triple P m1 I Q) -> (b = false -> triple P m2 I Q) ->
  triple P (if b then m1 else m2) I Q.
Proof. destruct b; auto. Qed.
End Triple.

(** ** Stream: the byte stream of a connection
    ([QStream] and the reads of [crates/xqdb/src/connector.rs])

    What later reads of a connection will find: chunks of bytes in the sizes the
    transport hands them over, and failures.  A read never crosses a chunk, so every
    way of cutting a message into reads is a stream.  [read_exact] and the bounded
    [read_to_end] are Rust's standard library, with its treatment of interrupted
    reads. *)

Inductive event : Type :=
| Data (chunk : list Z)
| Failure (e : io_error).

Abbreviation stream := (list event).
Abbreviation io := (outcome io_error).

Definition is_interrupted (e : io_error) : bool :=
  match kind e with Interrupted => true | _ => false end.

(** [stream.read(buffer)] with a buffer of [want] bytes; a stream without events,
    or an empty chunk, is the end, where every read finds nothing. *)
Definition read (want : Z) (s : stream) : io (list Z) * stream :=
  match s with
  | [] | Data [] :: _ => (Ok [], s)
  | Data chunk :: s =>
    (Ok (take (Z.to_nat want) chunk),
     match drop (Z.to_nat want) chunk with [] => s | rest => Data rest :: s end)
  | Failure e :: s => (Err e, s)
  end.

(** More than the reads that can make progress. *)
Definition stream_size (s : stream) : nat :=
  foldr (fun e n => match e with Data chunk => S (length chunk) + n | Failure _ => S n end)%nat O s.

Definition unexpected_eof (message : string) : io_error := IoError UnexpectedEof message.

(** [stream.read_exact(&mut buffer)] with a buffer of [n] bytes. *)
Fixpoint read_exact_loop (fuel : nat) (n : Z) (filled : list Z) (s : stream) : io (list Z) * stream :=
  match fuel with
  | O => (OutOfFuel, s)
  | S fuel =>
    if n <=? len filled then (Ok filled, s)
    else
      match read (n - len filled) s with
      | (Ok [], s) => (Err (unexpected_eof "failed to fill whole buffer"), s)
      | (Ok bytes, s) => read_exact_loop fuel n (filled ++ bytes) s
      | (Err e, s) => if is_interrupted e then read_exact_loop fuel n filled s else (Err e, s)
      | (r, s) => (r, s)
      end
  end.

Definition read_exact (n : Z) (s : stream) : io (list Z) * stream :=
  read_exact_loop (S (stream_size s)) n [] s.

(** [stream.take(limit).read_to_end(buffer)]: the outcome and what was appended, which
    is kept when a read fails. *)
Fixpoint read_to_end_loop (fuel : nat) (limit : Z) (appended : list Z) (s : stream)
    : io unit * list Z * stream :=
  match fuel with
  | O => (OutOfFuel, appended, s)
  | S fuel =>
    if limit <=? len appended then (Ok tt, appended, s)
    else
      match read (limit - len appended) s with
      | (Ok [], s) => (Ok tt, appended, s)
      | (Ok bytes, s) => read_to_end_loop fuel limit (appended ++ bytes) s
      | (Err e, s) =>
        if is_interrupted e then read_to_end_loop fuel limit appended s else (Err e, appended, s)
      | (Panicked, s) => (Panicked, appended, s)
      | (OutOfFuel, s) => (OutOfFuel, appended, s)
      end
  end.

Definition read_to_end (limit : Z) (s : stream) : io unit * list Z * stream :=
  read_to_end_loop (S (stream_size s)) limit [] s.
