(* ===== verification/Pipeline.v ===== *)
(** * Pipeline: decoding a table while it is received ([crates/xqdb/src/pipeline.rs])

    The reader appends to the body and publishes how much has arrived; the scanner
    walks the table behind it and starts a task for every complete column; the tasks
    finish in any order.  What the scanner sees of the reader's progress and the order
    in which the tasks report are the schedule, a parameter of the model. *)

From stdpp Require Import prelude strings.
From Stdlib Require Import ZArith.
From S2P Require Import Prelude Errors Types Compress ListScan Text Value AnyValue WireText Deserialize Framing Stream.

Definition TABLE_TYPE : Z := 98.

(** ** The shared body *)

Record Progress : Type := MkProgress { received : Z; failed : bool }.

Definition publish (count : Z) (p : Progress) : Progress := MkProgress count (failed p).
Definition fail (p : Progress) : Progress := MkProgress (received p) true.

Definition receipt_failed : XqdbError :=
  IOError (IoError UnexpectedEof "IPC message body ended before its declared length").

(** The progress the scanner finds each time it takes the lock, then what it is when
    nothing more happens; and the column tasks it has started. *)
Record Scanner : Type := MkScanner {
  sees : list Progress;
  settled : Progress;
  tasks : list (Z * list Z)
}.

Definition observe (s : Scanner) : Progress * Scanner :=
  match sees s with
  | [] => (settled s, s)
  | p :: later => (p, MkScanner later (settled s) (tasks s))
  end.

Definition outcome_of (p : Progress) : res Z :=
  if failed p then Err receipt_failed else Ok (received p).

Definition snapshot : proc Scanner Z := fun s =>
  let '(p, s) := observe s in (outcome_of p, s).

(** The loop on the condition variable: a wait that nothing ends is [OutOfFuel]. *)
Fixpoint wait_loop (needed : Z) (later : list Progress) (settled : Progress)
    : res Z * list Progress :=
  match later with
  | [] =>
    if (received settled <? needed) && negb (failed settled) then (OutOfFuel, [])
    else (outcome_of settled, [])
  | p :: later =>
    if (received p <? needed) && negb (failed p) then wait_loop needed later settled
    else (outcome_of p, later)
  end.

Definition wait_for (total needed : Z) : proc Scanner Z := fun s =>
  if total <? needed then (corrupt "q table structure extends beyond its frame", s)
  else
    let '(r, later) := wait_loop needed (sees s) (settled s) in
    (r, MkScanner later (settled s) (tasks s)).

(** [body.received(count)]. *)
Definition received_bytes (body : list Z) (count : Z) : list Z := take (Z.to_nat count) body.

Definition spawn (task : Z * list Z) : proc Scanner unit :=
  update (fun s => MkScanner (sees s) (settled s) (tasks s ++ [task])).

(** ** The scanner *)

#[local] Open Scope proc_scope.

(** Every round but the last waits for at least one byte more. *)
Fixpoint scan_loop (fuel : nat) (body : list Z) (total : Z) (scan : ListScan) (count : Z) : proc Scanner Z :=
  match fuel with
  | O => lift OutOfFuel
  | S fuel =>
    let* (outcome, scan) := lift (advance (received_bytes body count) total scan) in
    match outcome with
    | Complete stop => pret stop
    | Incomplete =>
      count <- wait_for total (saturating_add count 1);;
      scan_loop fuel body total scan count
    end
  end.

Definition scan_to_end (body : list Z) (total : Z) (scan : ListScan) : proc Scanner Z :=
  count <- snapshot;;
  scan_loop (scan_fuel body) body total scan count.

Section Pipeline.
  Context `{Allocator} `{Chrono} {Series DataFrame : Type} `{!SeriesDecoder Series DataFrame}.

Abbreviation kval := (K Series DataFrame).

(** One column: its type, its end and the task that decodes it. *)
Definition scan_column (body : list Z) (total : Z) (pos : Z) : proc Scanner Z :=
  count <- wait_for total (saturating_add pos 1);;
  k_type <- lift (or_panic (get_at (received_bytes body count) pos));;
  let pos := pos + 1 in
  scan <- lift (ListScan_new k_type pos);;
  stop <- scan_to_end body total scan;;
  count <- wait_for total stop;;
  column <- lift (or_panic (get_range (received_bytes body count) pos stop));;
  _ <- spawn (k_type, column);;
  pret stop.

Fixpoint scan_all_columns (body : list Z) (total : Z) (count : nat) (pos : Z) : proc Scanner Z :=
  match count with
  | O => pret pos
  | S count => pos <- scan_column body total pos;; scan_all_columns body total count pos
  end.

Definition scan_columns (body : list Z) (total : Z) (encoding : SymbolEncoding) : proc Scanner (list (list Z)) :=
  let pos := TABLE_PREAMBLE in
  scan <- lift (ListScan_new 11 pos);;
  names_end <- scan_to_end body total scan;;
  count <- wait_for total names_end;;
  payload <- lift (or_panic (get_range (received_bytes body count) pos names_end));;
  v <- lift (deserialize_series payload 11 false encoding);;
  s <- lift (match v with KSeries s => Ok s | _ => corrupt "Expecting array" end);;
  names <- lift (map_err DeserializationErr (string_names s));;
  pos <- lift (ok_or (checked_add names_end COLUMN_LIST_HEADER)
                 (DeserializationErr "q table column list overflowed"));;
  pos <- scan_all_columns body total (length names) pos;;
  _ <- wait_for total total;;
  if negb (pos =? total) then
    trailing <- lift (usub total pos);;
    lift (corrupt ("q value has " +:+ show trailing +:+ " trailing byte(s)"))
  else pret names.

(** ** The reader *)

(** Reads the rest of the body, [data] being what has arrived; [history] is every
    progress published. *)
Fixpoint read_remaining (fuel : nat) (total : Z) (data : list Z) (history : list Progress) (s : stream)
    : res unit * (list Z * list Progress * stream) :=
  match fuel with
  | O => (OutOfFuel, (data, history, s))
  | S fuel =>
    if len data <? total then
      let stop_waiting e s :=
        (Err e, (data, history ++ [fail (MkProgress (len data) false)], s)) in
      match read (total - len data) s with
      | (Ok [], s) => stop_waiting receipt_failed s
      | (Ok bytes, s) =>
        let data := data ++ bytes in
        read_remaining fuel total data (history ++ [publish (len data) (MkProgress 0 false)]) s
      | (Err e, s) =>
        if is_interrupted e then read_remaining fuel total data history s else stop_waiting (IOError e) s
      | (Panicked, s) => (Panicked, (data, history, s))
      | (OutOfFuel, s) => (OutOfFuel, (data, history, s))
      end
    else (Ok tt, (data, history, s))
  end.

(** ** The frame *)

(** What the interleaving of the threads decides: the progress the scanner sees, out of
    what the reader published, and the order in which the tasks report. *)
Record Schedule : Type := MkSchedule {
  observations : list Progress -> list Progress;
  arrivals : nat -> list nat
}.

(** [for (index, column) in results.try_iter()]. *)
Fixpoint collect_arrivals (order : list nat) (results : list (res Series))
    (columns : list (option Series)) : res (list (option Series)) :=
  match order with
  | [] => Ok columns
  | index :: order =>
    result ← or_panic (results !! index);
    column ← result;
    columns ← or_panic (set_at columns (Z.of_nat index) (Some column));
    collect_arrivals order results columns
  end.

(** [let Some(column) = column else ...] for every column. *)
Fixpoint all_columns (columns : list (option Series)) : res (list Series) :=
  match columns with
  | [] => Ok []
  | column :: columns =>
    column ← ok_or column parser_panic;
    columns ← all_columns columns;
    Ok (column :: columns)
  end.

(** After the scope: a task or scanner that panicked, a scan that failed, or the
    columns put together. *)
Definition join_columns (order : list nat) (scanned : res (list (list Z)))
    (results : list (res Series)) : res kval :=
  if is_panicked scanned || existsb is_panicked results then Err parser_panic
  else
    names ← scanned;
    columns ← collect_arrivals order results (replicate (length names) None);
    columns ← all_columns columns;
    assemble_frame columns names.

Definition receive_table (schedule : Schedule) (body_length : Z) (encoding : SymbolEncoding)
    (b : Buffer) : proc stream (res kval) := fun s =>
  if (buffer_capacity b <? body_length) || negb (bool_decide (head (buffer_data b) = Some TABLE_TYPE))
  then (Panicked, s)
  else
    let start := MkProgress (len (buffer_data b)) false in
    let '(io_result, (body, history, s)) :=
      read_remaining (S (stream_size s)) body_length (buffer_data b) [start] s in
    let scanner := MkScanner (observations schedule history) (default start (last history)) [] in
    let '(scanned, scanner) := scan_columns body body_length encoding scanner in
    match scanned, io_result with
    | OutOfFuel, _ => (OutOfFuel, s)
    | _, Ok tt =>
      (match join_columns (arrivals schedule (length (tasks scanner))) scanned
               (map (decode_column encoding) (tasks scanner)) with
       | Panicked => Panicked
       | OutOfFuel => OutOfFuel
       | decoded => Ok decoded
       end, s)
    | _, Err e => (Err e, s)
    | _, Panicked => (Panicked, s)
    | _, OutOfFuel => (OutOfFuel, s)
    end.
End Pipeline.
