(* ===== verification/PipelineFacts.v ===== *)
(** * PipelineFacts: the pipelined scan finds what the sequential one finds *)

From stdpp Require Import prelude strings.
From Stdlib Require Import ZArith Lia ZifyBool.
From S2P Require Import Prelude Errors Types Compress ListScan ListScanFacts ListScanSpec Text Value AnyValue WireText Deserialize DeserializeFacts SerdeSpec Framing Stream Pipeline.

#[local] Existing Instance unlimited.

(** ** Agreement: equal values, or an error or a panic on both sides *)

Definition agrees {A} (r1 r2 : res A) : Prop :=
  match r1, r2 with
  | Ok a, Ok b => a = b
  | Err _, Err _ | Err _, Panicked | Panicked, Err _ | Panicked, Panicked => True
  | _, _ => False
  end.

Lemma agrees_bind {A B} (m1 m2 : res A) (f1 f2 : A -> res B) :
  agrees m1 m2 -> (forall a, m1 = Ok a -> m2 = Ok a -> agrees (f1 a) (f2 a)) ->
  agrees (m1 ≫= f1) (m2 ≫= f2).
Proof. destruct m1, m2; cbn; try done. intros -> H. by apply H. Qed.

Lemma agrees_trans {A} (r1 r2 r3 : res A) : agrees r1 r2 -> agrees r2 r3 -> agrees r1 r3.
Proof. destruct r1, r2, r3; cbn; congruence || done. Qed.

Lemma bind_assoc {A B C} (m : res A) (f : A -> res B) (g : B -> res C) :
  (m ≫= f) ≫= g = m ≫= (fun a => f a ≫= g).
Proof. by destruct m. Qed.

Lemma agrees_refl {A} (r : res A) : r <> OutOfFuel -> agrees r r.
Proof. by destruct r. Qed.

(** ** What the scanner sees of a receipt that completes *)

Definition in_flight (total : Z) (p : Progress) : Prop :=
  failed p = false /\ 0 <= received p <= total.

Definition follows (total : Z) (s : Scanner) : Prop :=
  settled s = MkProgress total false /\ Forall (in_flight total) (sees s).

Section Scan.
  Context (body : list Z) (Hok : slice_ok body).
  Abbreviation total := (len body).

Lemma wait_loop_follows needed later p :
  p = MkProgress total false -> Forall (in_flight total) later -> needed <= total ->
  exists c later', wait_loop needed later p = (Ok c, later') /\ needed <= c <= total /\ 0 <= c
    /\ Forall (in_flight total) later'.
Proof.
  intros -> Hl Hn. induction Hl as [|p later [Hf Hr] Hl IH]; cbn [wait_loop received failed].
  - replace (total <? needed) with false by lia. cbn. exists total, []. split_and!; done || lia.
  - rewrite Hf. destruct (Z.ltb_spec (received p) needed) as [|Hge]; cbn [andb negb]; [done|].
    exists (received p), later. unfold outcome_of. rewrite Hf. split_and!; done || lia.
Qed.

Lemma wait_for_follows needed s :
  follows total s -> needed <= total ->
  exists c s', wait_for total needed s = (Ok c, s') /\ needed <= c <= total /\ 0 <= c
    /\ follows total s' /\ tasks s' = tasks s.
Proof.
  intros [Hp Hl] Hn. unfold wait_for. replace (total <? needed) with false by lia.
  destruct (wait_loop_follows needed (sees s) (settled s) Hp Hl Hn) as (c & later & -> & Hc & H0 & Hl').
  eexists c, _. split_and!; try done; lia.
Qed.

Lemma wait_for_beyond needed s :
  total < needed -> exists e, wait_for total needed s = (Err e, s).
Proof. intros. unfold wait_for. replace (total <? needed) with true by lia. by eexists. Qed.

Lemma snapshot_follows s :
  follows total s -> exists c s', snapshot s = (Ok c, s') /\ 0 <= c <= total
    /\ follows total s' /\ tasks s' = tasks s.
Proof.
  intros [Hp Hl]. unfold snapshot, observe. destruct (sees s) as [|p later] eqn:E.
  - rewrite Hp. cbn. exists total, s. split_and!; try done; try lia.
    split; [done|]. rewrite E. constructor.
  - apply Forall_cons in Hl as [[Hf Hr] Hl]. unfold outcome_of. rewrite Hf.
    eexists _, _. split_and!; try done; lia.
Qed.

(** What has arrived is a prefix of the body. *)
Lemma received_prefix c : received_bytes body c `prefix_of` body.
Proof. apply take_prefix. Qed.
Lemma received_grows c d : c <= d -> received_bytes body c `prefix_of` received_bytes body d.
Proof. intros. apply take_prefix_le. lia. Qed.
Lemma received_all : received_bytes body total = body.
Proof. unfold received_bytes. by rewrite Nat2Z.id, take_ge. Qed.

Lemma received_range c a b :
  b <= c -> c <= total -> get_range (received_bytes body c) a b = get_range body a b.
Proof.
  intros Hb Hc. unfold received_bytes.
  destruct (get_range body a b) as [x|] eqn:E.
  - apply get_range_bounds in E as Hx. destruct Hx as (Ha & _ & Hbx).
    apply get_range_Some in E as (pre & post & Heq & -> & ->).
    apply get_range_Some. exists pre, (take (Z.to_nat c - length pre - length x) post).
    split_and!; [|done|done]. rewrite Heq, take_app_ge by lia. f_equal. by rewrite take_app_ge by lia.
  - unfold get_range in *. rewrite length_take.
    destruct ((0 <=? a) && (a <=? b) && (b <=? len body)) eqn:E3; [done|].
    case_match; [bool_lia|done].
Qed.

Lemma received_byte c a : 0 <= a -> a + 1 <= c -> c <= total -> get_at (received_bytes body c) a = get_at body a.
Proof.
  intros Ha Hc Ht. apply option_eq. intros x. rewrite !get_at_Some. unfold received_bytes.
  by rewrite lookup_take_lt by lia.
Qed.

(** The end a scan reports on the whole body. *)
Definition scan_result (scan : ListScan) : res Z :=
  '(outcome, _) ← advance body total scan;
  match outcome with
  | Complete stop => Ok stop
  | Incomplete => corrupt "q list ends before its declared length"
  end.

Lemma scan_loop_agrees fuel scan count s :
  scan_valid total (received_bytes body count) scan -> follows total s -> 0 <= count <= total ->
  total - count < Z.of_nat fuel ->
  exists r s', scan_loop fuel body total scan count s = (r, s') /\ agrees r (scan_result scan)
    /\ (is_ok r = true -> follows total s' /\ tasks s' = tasks s).
Proof.
  revert scan count s. induction fuel as [|fuel IH]; intros scan count s Hv Hs Hc Hf; [lia|].
  cbn [scan_loop]. unfold scan_result.
  destruct (advance_resumes total (proj2 Hok) body eq_refl Hok (received_bytes body count) scan
    (received_prefix count) Hv) as [Hres Hval].
  destruct (advance (received_bytes body count) total scan) as [[[e|] scan']|e| |] eqn:Eadv; try done;
    cbn [resumes is_complete fst snd] in Hres; rewrite Hres; unfold pbind, lift; cbn [mbind outcome_bind].
  - eexists _, _. split_and!; done.
  - specialize (Hval _ eq_refl). unfold saturating_add.
    pose proof (proj2 Hok) as Hmax. replace (Z.min (count + 1) usize_max) with (count + 1) by bool_lia.
    destruct (Z.leb_spec (count + 1) total) as [Hle|Hgt].
    + destruct (wait_for_follows (count + 1) s Hs Hle) as (c & s1 & -> & Hc1 & H0 & Hs1 & Ht1).
      destruct (IH scan' c s1) as (r & s2 & Hr & Hag & Hfin); [|done|lia|lia|].
      { eapply scan_valid_grow; [|exact Hval]. apply received_grows. lia. }
      rewrite Hr. exists r, s2. split_and!; [done|done|]. intros Hokr. rewrite <- Ht1. by apply Hfin.
    + assert (count = total) as -> by lia. destruct (wait_for_beyond (total + 1) s) as [e ->]; [lia|].
      exists (Err e), s. split_and!; [done| |done].
      rewrite received_all in Eadv. by rewrite <- Hres, Eadv.
  - exists (Err e), s. by split_and!.
Qed.

(** ** The scanner against a sequential computation

    From [s], [m] has the outcome [r] or fails as [r] does, and what it started
    satisfies [P]. *)
Definition yields {A} (s : Scanner) (m : proc Scanner A) (r : res A) (P : A -> list (Z * list Z) -> Prop)
    : Prop :=
  exists r' s', m s = (r', s') /\ agrees r' r
    /\ forall a, r' = Ok a -> follows total s' /\ exists t, tasks s' = tasks s ++ t /\ P a t.

Lemma yields_bind {A B} s (m : proc Scanner A) (f : A -> proc Scanner B) r g P Q :
  yields s m r P ->
  (forall a t s1, follows total s1 -> r = Ok a -> P a t ->
     yields s1 (f a) (g a) (fun b t' => Q b (t ++ t'))) ->
  yields s (pbind m f) (r ≫= g) Q.
Proof.
  intros (r' & s1 & Hm & Hag & Hfin) Hf. unfold yields, pbind. rewrite Hm.
  destruct r' as [a|e| |], r as [a'|e'| |]; try done; cbn [agrees] in Hag; try (by eexists _, _; split_and!).
  subst a'. destruct (Hfin a eq_refl) as (Hs1 & t & Ht & Hp).
  destruct (Hf a t s1 Hs1 eq_refl Hp) as (r' & s2 & Hr & Hag2 & Hfin2).
  exists r', s2. split_and!; [done|done|]. intros b Hb. destruct (Hfin2 b Hb) as (Hs2 & t' & Ht' & Hq).
  split; [done|]. exists (t ++ t'). split; [|done]. by rewrite Ht', Ht, app_assoc.
Qed.

Lemma yields_pure {A B} s (a : A) (f : A -> proc Scanner B) r P :
  yields s (f a) r P -> yields s (pbind (lift (Ok a)) f) r P.
Proof. done. Qed.

(** Steps that start nothing. *)
Definition nothing {A} (Q : A -> Prop) : A -> list (Z * list Z) -> Prop := fun a t => Q a /\ t = [].

Lemma yields_lift {A} s (m r : res A) (Q : A -> Prop) :
  follows total s -> agrees m r -> (forall a, m = Ok a -> Q a) -> yields s (lift m) r (nothing Q).
Proof.
  intros Hs Hag Hq. exists m, s. split_and!; [done|done|]. intros a Ha. split; [done|].
  exists []. rewrite app_nil_r. split; [done|]. split; [by apply Hq|done].
Qed.

Definition fails {A} (r : res A) : Prop := match r with Err _ | Panicked => True | _ => False end.

Lemma yields_fails {A} s (m : proc Scanner A) r P e s' :
  m s = (Err e, s') -> fails r -> yields s m r P.
Proof. intros Hm Hr. exists (Err e), s'. split_and!; [done|by destruct r|done]. Qed.

(** A wait has no counterpart: it succeeds unless the body is too short. *)
Lemma yields_wait {A} s needed (f : Z -> proc Scanner A) r P :
  follows total s ->
  (needed <= total -> forall c s1, needed <= c <= total -> 0 <= c -> follows total s1 ->
     yields s1 (f c) r P) ->
  (total < needed -> fails r) ->
  yields s (pbind (wait_for total needed) f) r P.
Proof.
  intros Hs Hf Hr. destruct (Z.leb_spec needed total) as [Hle|Hgt].
  - destruct (wait_for_follows needed s Hs Hle) as (c & s1 & Hw & Hc & H0 & Hs1 & Ht1).
    destruct (Hf Hle c s1 Hc H0 Hs1) as (r' & s2 & Hm & Hag & Hfin).
    exists r', s2. unfold pbind. rewrite Hw. split_and!; [done|done|]. by rewrite <- Ht1.
  - destruct (wait_for_beyond needed s Hgt) as [e He]. eapply (yields_fails _ _ _ _ e s); [|by apply Hr].
    unfold pbind. by rewrite He.
Qed.

Lemma yields_weaken {A} s (m : proc Scanner A) r (P Q : A -> list (Z * list Z) -> Prop) :
  yields s m r P -> (forall a t, r = Ok a -> P a t -> Q a t) -> yields s m r Q.
Proof.
  intros (r' & s' & Hm & Hag & Hfin) HPQ. exists r', s'. split_and!; [done|done|].
  intros a Ha. destruct (Hfin a Ha) as (Hs' & t & Ht & Hp). split; [done|]. exists t. split; [done|].
  apply HPQ; [|done]. subst r'. destruct r; try done. cbn in Hag. by subst.
Qed.

Lemma scan_to_end_yields s k pos scan :
  follows total s -> 0 <= pos -> ListScan_new k pos = Ok scan ->
  yields s (scan_to_end body total scan) (scan_result scan) (nothing (fun _ => True)).
Proof.
  intros Hs Hp Hnew. destruct (snapshot_follows s Hs) as (c & s1 & Hsnap & Hc & Hs1 & Ht1).
  apply scan_type_of_new in Hnew as [Ht ->].
  destruct (scan_loop_agrees (scan_fuel body) (MkListScan k pos None None 0) c s1) as (r & s2 & Hr & Hag & Hfin);
    [by split; [|split_and!]|done|done|unfold scan_fuel; lia|].
  exists r, s2. unfold scan_to_end, pbind. rewrite Hsnap. split_and!; [done|done|].
  intros a ->. destruct (Hfin eq_refl) as [Hs2 Ht2]. split; [done|]. exists [].
  rewrite app_nil_r. split; [congruence|done].
Qed.

(** The scan for the end of one list. *)
Lemma list_end_yields {A} s k pos (f : Z -> proc Scanner A) g Q :
  follows total s -> 0 <= pos ->
  (forall stop s1, follows total s1 -> calculate_array_end_index body pos k = Ok stop ->
     pos + 5 <= stop <= total -> yields s1 (f stop) (g stop) Q) ->
  yields s (pbind (lift (ListScan_new k pos)) (fun scan => pbind (scan_to_end body total scan) f))
    (calculate_array_end_index body pos k ≫= g) Q.
Proof.
  intros Hs Hp Hf. destruct (array_end_returns body pos k Hok Hp) as [_ Hstop].
  assert (calculate_array_end_index body pos k ≫= g
    = (scan ← ListScan_new k pos; stop ← scan_result scan; g stop)) as ->.
  { unfold calculate_array_end_index, scan_result. destruct (ListScan_new k pos) as [scan| | |]; [|done..].
    cbn [mbind outcome_bind]. by destruct (advance body total scan) as [[[e|] s']| | |]. }
  eapply yields_bind; [apply (yields_lift _ _ (ListScan_new k pos) (fun scan => ListScan_new k pos = Ok scan)); [done| |done]|].
  { apply agrees_refl. pose proof (ListScan_new_returns k pos). by destruct (ListScan_new k pos). }
  intros scan t s1 Hs1 Hnew [_ ->].
  eapply yields_bind; [by eapply scan_to_end_yields|]. intros stop t s2 Hs2 Hres [_ ->]. cbn [app].
  assert (calculate_array_end_index body pos k = Ok stop) as Hend.
  { unfold calculate_array_end_index. rewrite Hnew. exact Hres. }
  eapply yields_weaken; [by apply Hf; [|..|apply Hstop]|done].
Qed.

(** ** Columns *)

Definition column_end (r : res (Z * list Z * Z)) : res Z := '(_, stop) ← r; Ok stop.

Lemma scan_column_yields s pos :
  follows total s -> 0 <= pos -> pos <= total + 6 ->
  yields s (scan_column body total pos) (column_end (table_column body pos))
    (fun stop t => exists column, table_column body pos = Ok (column, stop) /\ t = [column] /\ 0 <= stop <= total).
Proof.
  intros Hs Hp Hp6. pose proof (proj2 Hok) as Hmax. unfold scan_column, saturating_add.
  replace (Z.min (pos + 1) usize_max) with (pos + 1) by bool_lia.
  apply yields_wait; [done| |].
  2: { intros Hlt. unfold column_end, table_column. destruct (get_at body pos) eqn:E; [|done].
       apply get_at_Some in E as [_ E%lookup_lt_Some]. lia. }
  intros Hle c s1 Hc H0 Hs1. destruct (get_at_is_Some body pos ltac:(lia)) as [k Hk].
  eapply yields_bind with (r := Ok k) (g := fun k => column_end (table_column body pos)).
  { apply (yields_lift _ _ _ (fun k' => k' = k)); [done|by rewrite received_byte by lia; rewrite Hk|].
    rewrite received_byte by lia. rewrite Hk. by intros a [= <-]. }
  intros k' t s2 Hs2 _ [-> ->]. cbv zeta.
  assert (column_end (table_column body pos)
    = (stop ← calculate_array_end_index body (pos + 1) k;
       payload ← or_panic (get_range body (pos + 1) stop); Ok stop)) as ->.
  { unfold column_end, table_column. rewrite Hk. cbn [or_panic mbind outcome_bind].
    destruct (calculate_array_end_index body (pos + 1) k); [|done..]. cbn [mbind outcome_bind].
    by destruct (get_range _ _ _). }
  apply list_end_yields; [done|lia|]. intros stop s3 Hs3 Hend Hstop.
  destruct (get_range_is_Some body (pos + 1) stop) as (x & Hx & _); [lia..|].
  apply yields_wait; [done| |lia]. intros _ c' s4 Hc' H0' Hs4.
  exists (Ok stop), (MkScanner (sees s4) (settled s4) (tasks s4 ++ [(k, x)])).
  unfold pbind, lift, spawn, update. rewrite received_range, Hx by lia. split_and!; [done|done|].
  intros a [= <-]. split; [exact Hs4|]. exists [(k, x)]. split; [done|]. exists (k, x).
  split_and!; [|done|lia|lia]. unfold table_column. rewrite Hk. cbn [or_panic mbind outcome_bind].
  rewrite Hend. cbn [mbind outcome_bind]. by rewrite Hx.
Qed.

Lemma scan_all_columns_yields s n pos :
  follows total s -> 0 <= pos -> pos <= total + 6 ->
  yields s (scan_all_columns body total n pos) ('(_, stop) ← table_columns body n pos; Ok stop)
    (fun stop t => table_columns body n pos = Ok (t, stop)).
Proof.
  revert s pos. induction n as [|n IH]; intros s pos Hs Hp Hp6; cbn [scan_all_columns table_columns].
  - exists (Ok pos), s. split_and!; [done|done|]. intros a [= <-]. split; [done|]. exists [].
    by rewrite app_nil_r.
  - assert (('(_, stop) ← ('(column, pos) ← table_column body pos;
                 '(columns, pos) ← table_columns body n pos;
                 Ok (column :: columns, pos)); Ok stop)
      = (stop ← column_end (table_column body pos);
         '(_, stop) ← table_columns body n stop; Ok stop)) as E.
    { unfold column_end. destruct (table_column body pos) as [[c p]| | |]; [|done..]. cbn [mbind outcome_bind].
      by destruct (table_columns body n p) as [[cs p']| | |]. }
    rewrite E. eapply yields_bind; [by apply scan_column_yields|]. cbv beta.
    intros stop t s1 Hs1 _ (column & Hcol & -> & Hstop).
    eapply yields_weaken; [apply IH; [done|lia|lia]|]. cbv beta. intros a t _ Hcols.
    rewrite Hcol. cbn [mbind outcome_bind]. by rewrite Hcols.
Qed.
End Scan.

Section Table.
  Context `{Chrono} {Series DataFrame : Type}.
  Context `{!SeriesDecoder Series DataFrame} `{!SeriesDecoderEnds}.
  Context (body : list Z) (Hok : slice_ok body) (encoding : SymbolEncoding).
  Abbreviation total := (len body).

(** The names and the columns of a table that fills its body. *)
Definition table_plan : res (list (list Z) * list (Z * list Z)) :=
  stop ← calculate_array_end_index body TABLE_PREAMBLE 11;
  names ← @table_names _ Series DataFrame _ body TABLE_PREAMBLE stop encoding;
  '(columns, pos) ← table_columns body (length names) (stop + COLUMN_LIST_HEADER);
  if pos =? total then Ok (names, columns) else corrupt "q value has trailing byte(s)".

Lemma ends_agrees {A} (r : res A) P : ends_with r P -> agrees r r.
Proof. by destruct r. Qed.

Lemma table_names_steps {B} stop (g : list (list Z) -> res B) :
  @table_names _ Series DataFrame _ body TABLE_PREAMBLE stop encoding ≫= g
  = (payload ← or_panic (get_range body TABLE_PREAMBLE stop);
     v ← @deserialize_series _ Series DataFrame _ payload 11 false encoding;
     s ← match v with KSeries s => Ok s | _ => corrupt "Expecting array" end;
     names ← unwrap (@string_names _ Series DataFrame _ s);
     g names).
Proof.
  unfold table_names. destruct (or_panic _) as [x| | |]; [|done..]. cbn [mbind outcome_bind].
  destruct (deserialize_series x 11 false encoding) as [v| | |]; [|done..]. cbn [mbind outcome_bind].
  by destruct v.
Qed.

(** From the end of the names: the columns, and the rest of the body. *)
Definition plan_columns (stop : Z) (names : list (list Z)) : res (list (list Z) * list (Z * list Z)) :=
  '(columns, pos) ← table_columns body (length names) (stop + COLUMN_LIST_HEADER);
  if pos =? total then Ok (names, columns) else corrupt "q value has trailing byte(s)".

Lemma rest_yields s stop (names : list (list Z)) :
  follows total s -> 0 <= stop <= total ->
  yields body s
    (pos <- lift (ok_or (checked_add stop COLUMN_LIST_HEADER)
                    (DeserializationErr "q table column list overflowed"));;
     pos <- scan_all_columns body total (length names) pos;;
     _ <- wait_for total total;;
     if negb (pos =? total) then
       trailing <- lift (usub total pos);;
       lift (corrupt ("q value has " +:+ show trailing +:+ " trailing byte(s)"))
     else pret names)%proc
    ('(names, _) ← plan_columns stop names; Ok names)
    (fun names' t => plan_columns stop names = Ok (names', t)).
Proof.
  intros Hs Hstop. pose proof (proj2 Hok) as Hmax. unfold COLUMN_LIST_HEADER.
  rewrite checked_add_eq by bool_lia. cbn [ok_or]. apply yields_pure.
  assert (('(names, _) ← plan_columns stop names; Ok names)
    = (pos ← ('(_, pos) ← table_columns body (length names) (stop + 6); Ok pos);
       if pos =? total then Ok names else corrupt "q value has trailing byte(s)")) as E.
  { unfold plan_columns, COLUMN_LIST_HEADER.
    destruct (table_columns body (length names) (stop + 6)) as [[cs p]| | |]; [|done..].
    cbn [mbind outcome_bind]. by destruct (p =? total). }
  rewrite E. eapply yields_bind; [apply scan_all_columns_yields; done || lia|]. cbv beta.
  intros pos t s1 Hs1 _ Hcols. apply yields_wait; [done| |lia]. intros _ c s2 _ _ Hs2.
  destruct (Z.eqb_spec pos total) as [->|Hne]; cbn [negb].
  - exists (Ok names), s2. split_and!; [done|done|]. intros a [= <-]. split; [done|]. exists [].
    rewrite !app_nil_r. split; [done|]. unfold plan_columns, COLUMN_LIST_HEADER. rewrite Hcols.
    cbn [mbind outcome_bind]. by rewrite Z.eqb_refl.
  - unfold usub, checked_sub. destruct (pos <=? total); cbn [or_panic];
      eexists _, s2; (split_and!; [reflexivity|done|done]).
Qed.

Lemma scan_columns_yields s :
  follows total s ->
  yields body s (scan_columns body total encoding) ('(names, _) ← table_plan; Ok names)
    (fun names t => table_plan = Ok (names, t)).
Proof.
  intros Hs. unfold scan_columns. cbv zeta.
  assert (('(names, _) ← table_plan; Ok names)
    = (stop ← calculate_array_end_index body TABLE_PREAMBLE 11;
       '(names, _) ← (@table_names _ Series DataFrame _ body TABLE_PREAMBLE stop encoding ≫= plan_columns stop);
       Ok names)) as E.
  { unfold table_plan. by destruct (calculate_array_end_index body TABLE_PREAMBLE 11). }
  rewrite E. apply list_end_yields; [done|done|done|]. intros stop s1 Hs1 Hend Hstop.
  unfold TABLE_PREAMBLE in Hstop.
  destruct (get_range_is_Some body TABLE_PREAMBLE stop) as (x & Hx & _); [done|unfold TABLE_PREAMBLE in *; lia|lia|].
  apply yields_wait; [done| |lia]. intros _ c s2 Hc Hc0 Hs2.
  rewrite received_range, Hx by lia. apply yields_pure.
  assert (table_plan = @table_names _ Series DataFrame _ body TABLE_PREAMBLE stop encoding ≫= plan_columns stop)
    as E2 by (unfold table_plan; by rewrite Hend).
  rewrite table_names_steps, Hx in E2 |- *. cbn [or_panic mbind outcome_bind] in E2.
  change (@or_panic XqdbError _ (Some x) ≫= ?f) with (f x). cbv beta.
  pose proof (deserialize_series_ends x 11 false encoding) as Hd.
  rewrite bind_assoc. eapply yields_bind.
  { apply (yields_lift _ _ _ _ (fun v => deserialize_series x 11 false encoding = Ok v)); [done| |done].
    by eapply ends_agrees. }
  intros v t s3 Hs3 Hv [_ ->]. rewrite Hv in E2. cbn [mbind outcome_bind] in E2.
  destruct v as [| | | | | | | | | | | | | | | | |ser| | | | | |];
    try (eapply yields_fails with (s' := s3); [reflexivity|exact I]).
  apply yields_pure. cbn [mbind outcome_bind] in E2 |- *. pose proof (string_names_ends ser) as Hn.
  destruct (string_names ser) as [names|e| |] eqn:Enames; try done; cbn [unwrap map_err mbind outcome_bind] in E2 |- *.
  - apply yields_pure. eapply yields_weaken; [apply rest_yields; done || lia|]. cbv beta. cbn [app].
    intros names' t _ Hplan. by rewrite E2, Hplan.
  - eapply yields_fails with (s' := s3); [reflexivity|exact I].
  - exists Panicked, s3. by split_and!.
Qed.

(** ** The columns in the order they are decoded *)

Lemma collect_map_Ok {A} (cols : list A) : collect (map Ok cols) = Ok cols.
Proof. induction cols as [|c cols IH]; [done|]. cbn. by rewrite IH. Qed.

Lemma arrivals_Ok order (cols : list Series) columns :
  Forall (fun i => i < length cols)%nat order -> length columns = length cols ->
  exists columns', collect_arrivals order (map Ok cols) columns = Ok columns'
    /\ length columns' = length cols
    /\ forall i, columns' !! i = if decide (i ∈ order) then (Some <$> cols !! i) else columns !! i.
Proof.
  intros Ho. revert columns. induction Ho as [|j order Hj _ IH]; intros columns Hlen; cbn [collect_arrivals].
  - exists columns. split_and!; [done|done|]. intros i. by destruct (decide (i ∈ [])) as [[]%elem_of_nil|].
  - destruct (lookup_lt_is_Some_2 cols j Hj) as [c Hc]. rewrite list_lookup_fmap, Hc.
    cbn [fmap option_fmap option_map or_panic mbind outcome_bind].
    unfold set_at. replace (_ && _) with true by lia. rewrite Nat2Z.id. cbn [or_panic mbind outcome_bind].
    destruct (IH (<[j:=Some c]> columns)) as (columns' & Hc' & Hl' & Hlook); [by rewrite length_insert|].
    exists columns'. split_and!; [done|done|]. intros i. rewrite Hlook.
    destruct (decide (i ∈ order)) as [Hi|Hi], (decide (i ∈ j :: order)) as [Hi'|Hi']; try done.
    + destruct Hi'. by apply list_elem_of_further.
    + apply elem_of_cons in Hi' as [->|]; [|done]. rewrite Hc. apply list_lookup_insert_eq. lia.
    + rewrite list_lookup_insert_ne; [done|]. intros <-. apply Hi'. apply list_elem_of_here.
Qed.

Lemma arrivals_fail order (results : list (res Series)) columns :
  (exists i r, i ∈ order /\ results !! i = Some r /\ is_ok r = false) ->
  Forall (fun r => r <> OutOfFuel) results -> fails (collect_arrivals order results columns).
Proof.
  intros (i & r & Hi & Hr & Hbad) Hres. revert columns.
  induction order as [|j order IH]; intros columns; [by apply not_elem_of_nil in Hi|].
  cbn [collect_arrivals]. destruct (results !! j) as [rj|] eqn:Ej; [|done]. cbn [or_panic mbind outcome_bind].
  rewrite Forall_lookup in Hres. specialize (Hres j rj Ej).
  destruct rj as [c|e| |]; try done. cbn [mbind outcome_bind].
  destruct (set_at columns (Z.of_nat j) (Some c)); [|done]. cbn [or_panic mbind outcome_bind].
  apply IH. apply elem_of_cons in Hi as [->|]; [|done]. rewrite Hr in Ej. injection Ej as ->. done.
Qed.

Lemma all_columns_Some (cols : list Series) : all_columns (map Some cols) = Ok cols.
Proof. induction cols as [|c cols IH]; [done|]. cbn. by rewrite IH. Qed.

Lemma results_cases {A} (results : list (res A)) :
  Forall (fun r => r <> OutOfFuel) results ->
  (exists cols, results = map Ok cols)
  \/ (exists i r, results !! i = Some r /\ is_ok r = false) /\ fails (collect_columns results).
Proof.
  intros Hr. destruct (decide (forallb is_ok results = true)) as [Hall|Hbad].
  - left. clear Hr. induction results as [|r results IH]; [by exists []|]. cbn in Hall.
    destruct r as [a|e| |]; try done. destruct (IH Hall) as [cols ->]. by exists (a :: cols).
  - right. split.
    + apply not_true_is_false in Hbad. clear Hr. induction results as [|r results IH]; [done|].
      cbn in Hbad. destruct (is_ok r) eqn:E.
      * destruct (IH Hbad) as (i & r' & Hi & Hn). by exists (S i), r'.
      * by exists O, r.
    + unfold collect_columns. destruct (existsb is_panicked results) eqn:Ep; [done|].
      apply not_true_is_false in Hbad. induction Hr as [|r results Hr _ IH]; [done|].
      cbn in Hbad, Ep |- *. destruct r as [a|e| |]; try done. cbn [mbind outcome_bind].
      specialize (IH Hbad Ep). by destruct (collect results).
Qed.

Lemma no_panics {A} (cols : list A) : existsb is_panicked (map Ok cols : list (res A)) = false.
Proof. by induction cols. Qed.

Lemma collect_columns_Ok {A} (cols : list A) : collect_columns (map Ok cols) = Ok cols.
Proof.
  unfold collect_columns. rewrite no_panics. apply collect_map_Ok.
Qed.

Lemma join_agrees order names (results : list (res Series)) :
  Permutation order (seq 0 (length results)) -> length names = length results ->
  Forall (fun r => r <> OutOfFuel) results ->
  agrees (@join_columns _ Series DataFrame _ order (Ok names) results)
    (decoded ← collect_columns results; assemble_frame decoded names).
Proof.
  intros Hperm Hlen Hres. unfold join_columns. cbn [is_panicked orb mbind outcome_bind].
  destruct (results_cases results Hres) as [[cols ->]|[(i & r & Hi & Hbad) Hfail]].
  - rewrite no_panics, collect_columns_Ok. rewrite length_map in *.
    destruct (arrivals_Ok order cols (replicate (length names) None)) as (columns' & -> & Hl & Hlook).
    + apply Forall_forall. intros j Hj. rewrite Hperm in Hj. apply elem_of_seq in Hj. lia.
    + rewrite length_replicate. lia.
    + assert (columns' = map Some cols) as ->.
      { apply list_eq. intros j. rewrite Hlook, list_lookup_fmap.
        destruct (decide (j ∈ order)) as [|Hj]; [done|]. rewrite Hperm, elem_of_seq in Hj.
        rewrite (lookup_ge_None_2 cols) by lia. apply lookup_ge_None_2. rewrite length_replicate. lia. }
      cbn [mbind outcome_bind]. rewrite all_columns_Some. cbn [mbind outcome_bind].
      apply (ends_agrees _ (fun _ => True)). apply assemble_frame_ends.
  - assert (fails (collect_arrivals order results (replicate (length names) None))) as Hf.
    { apply arrivals_fail; [|done]. exists i, r. split_and!; [|done|done]. rewrite Hperm.
      apply elem_of_seq. apply lookup_lt_Some in Hi. lia. }
    destruct (existsb is_panicked results).
    + by destruct (collect_columns results).
    + destruct (collect_arrivals _ _ _), (collect_columns results); done.
Qed.

(** When every task reports once there is a report for every column. *)
Lemma arrivals_return order (results : list (res Series)) columns :
  Forall (fun i => i < length results)%nat order -> length columns = length results ->
  Forall (fun r => r <> OutOfFuel) results -> existsb is_panicked results = false ->
  returns (collect_arrivals order results columns).
Proof.
  intros Ho Hl Hr Hp. revert columns Hl. induction Ho as [|j order Hj _ IH]; intros columns Hl; cbn [collect_arrivals]; [done|].
  destruct (lookup_lt_is_Some_2 results j Hj) as [r Ej]. rewrite Ej. cbn [or_panic mbind outcome_bind].
  assert (r <> OutOfFuel) as Hne by (rewrite Forall_lookup in Hr; by apply (Hr j)).
  assert (r <> Panicked) as Hnp.
  { intros ->. assert (existsb is_panicked results = true) as Ht; [|by rewrite Ht in Hp].
    apply existsb_exists. exists Panicked. split; [|done]. apply list_elem_of_In. by eapply list_elem_of_lookup_2. }
  destruct r as [c|e| |]; try done. cbn [mbind outcome_bind].
  unfold set_at. replace (_ && _) with true by lia. cbn [or_panic mbind outcome_bind].
  apply IH. by rewrite length_insert.
Qed.

Lemma all_columns_return (columns : list (option Series)) : returns (all_columns columns).
Proof.
  induction columns as [|[c|] columns IH]; cbn [all_columns]; [done| |done]. cbn [ok_or mbind outcome_bind].
  by destruct (all_columns columns).
Qed.

Lemma join_returns order scanned (results : list (res Series)) :
  scanned <> OutOfFuel ->
  (forall names, scanned = Ok names -> Permutation order (seq 0 (length results)) /\ length names = length results) ->
  Forall (fun r => r <> OutOfFuel) results ->
  returns (@join_columns _ Series DataFrame _ order scanned results).
Proof.
  intros Hs Hn Hr. unfold join_columns. destruct (existsb is_panicked results) eqn:Ep; [by rewrite orb_true_r|].
  rewrite orb_false_r. destruct scanned as [names|e| |]; try done. cbn [is_panicked mbind outcome_bind].
  destruct (Hn names eq_refl) as [Hperm Hlen].
  assert (returns (collect_arrivals order results (replicate (length names) None))) as Hc.
  { apply arrivals_return; [|by rewrite length_replicate|done|done].
    apply Forall_forall. intros j Hj. rewrite Hperm in Hj. apply elem_of_seq in Hj. lia. }
  destruct (collect_arrivals _ _ _) as [columns| | |]; try done. cbn [mbind outcome_bind].
  pose proof (all_columns_return columns) as Ha. destruct (all_columns columns) as [cols| | |]; try done.
  cbn [mbind outcome_bind]. unfold assemble_frame. pose proof (new_frame_returns (zip_with rename cols names)).
  by destruct (new_frame _).
Qed.

(** ** Against the sequential decoder *)

Definition decode_plan : res (K Series DataFrame) :=
  '(names, columns) ← table_plan;
  decoded ← collect_columns (map (decode_column encoding) columns);
  assemble_frame decoded names.

Lemma columns_decode_ends (columns : list (Z * list Z)) :
  Forall (fun r => r <> OutOfFuel) (map (@decode_column _ Series DataFrame _ encoding) columns).
Proof.
  apply Forall_map, Forall_forall. intros c _ E. pose proof (decode_column_ends encoding c) as Hd.
  by rewrite E in Hd.
Qed.

Lemma deserialize_table_body :
  get_at body 0 = Some TABLE_TYPE ->
  Deserialize.deserialize body encoding
  = match @deserialize_table _ _ Series DataFrame _ body 1 encoding with
    | Ok (v, pos) =>
      if pos =? total then Ok v
      else corrupt ("q value has " +:+ show (saturating_sub total pos) +:+ " trailing byte(s)")
    | Err e => Err e
    | Panicked => Err parser_panic
    | OutOfFuel => OutOfFuel
    end.
Proof.
  intros Hb. unfold Deserialize.deserialize, deserialize_at. change value_fuel with (S 65). generalize 65%nat.
  intros fuel. cbn [deserialize_unchecked].
  change (MAX_VALUE_DEPTH <? 0) with false. cbv iota. by rewrite Hb.
Qed.

Lemma plan_agrees : get_at body 0 = Some TABLE_TYPE -> agrees decode_plan (Deserialize.deserialize body encoding).
Proof.
  intros Hb. rewrite deserialize_table_body by done. unfold decode_plan, table_plan, deserialize_table.
  change (1 + 3) with TABLE_PREAMBLE.
  pose proof (array_end_ends body TABLE_PREAMBLE 11 Hok ltac:(done)) as He.
  destruct (calculate_array_end_index body TABLE_PREAMBLE 11) as [stop| | |]; try done.
  cbn [mbind outcome_bind ends_with] in He |- *.
  pose proof (table_names_ends (Series := Series) (DataFrame := DataFrame) body TABLE_PREAMBLE stop encoding) as Hn.
  destruct (table_names body TABLE_PREAMBLE stop encoding) as [names| | |]; try done.
  cbn [mbind outcome_bind]. unfold try_vec_with_capacity. rewrite !reserve_unlimited. cbn [mbind outcome_bind].
  pose proof (table_columns_ends body Hok (length names) (stop + COLUMN_LIST_HEADER)
    ltac:(unfold COLUMN_LIST_HEADER; lia)) as Hc.
  destruct (table_columns body (length names) (stop + COLUMN_LIST_HEADER)) as [[columns pos]| | |]; try done.
  cbn [mbind outcome_bind].
  pose proof (collect_ends (map (decode_column encoding) columns)) as Hd.
  assert (Forall (fun r => ends_with r (fun _ => True)) (map (@decode_column _ Series DataFrame _ encoding) columns)) as Hall.
  { apply Forall_map, Forall_forall. intros c _. apply decode_column_ends. }
  specialize (Hd Hall).
  destruct (Z.eqb_spec pos total) as [->|Hne]; cbn [mbind outcome_bind];
    (destruct (collect_columns (map (decode_column encoding) columns)) as [decoded| | |]; try done);
    cbn [mbind outcome_bind]; pose proof (assemble_frame_ends decoded names) as Ha;
    (destruct (assemble_frame decoded names) as [frame| | |]; try done); cbn [mbind outcome_bind].
  - by rewrite Z.eqb_refl.
  - destruct (Z.eqb_spec pos total); done.
Qed.

Lemma table_columns_length n pos columns stop :
  table_columns body n pos = Ok (columns, stop) -> length columns = n.
Proof.
  revert pos columns. induction n as [|n IH]; intros pos columns; cbn [table_columns].
  - by intros [= <- _].
  - intros ([c p] & _ & ([cs p'] & Hcs & [= <- <-])%bind_Ok)%bind_Ok. cbn. f_equal. by eapply IH.
Qed.

Lemma plan_lengths names columns : table_plan = Ok (names, columns) -> length names = length columns.
Proof.
  intros (stop & _ & (ns & _ & ([cs pos] & Hcs & Hfin)%bind_Ok)%bind_Ok)%bind_Ok.
  destruct (pos =? total); [|done]. injection Hfin as <- <-. symmetry. by eapply table_columns_length.
Qed.

(** The scanner and the tasks it starts, joined in any order. *)
Lemma pipeline_agrees s order :
  get_at body 0 = Some TABLE_TYPE -> follows total s -> tasks s = [] ->
  (forall n, Permutation (order n) (seq 0 n)) ->
  let '(scanned, s') := scan_columns body total encoding s in
  scanned <> OutOfFuel
  /\ let joined := @join_columns _ Series DataFrame _ (order (length (tasks s'))) scanned
       (map (decode_column encoding) (tasks s')) in
     returns joined /\ agrees joined (Deserialize.deserialize body encoding).
Proof.
  intros Hb Hs Ht Hord. cbv zeta. destruct (scan_columns_yields s Hs) as (r & s' & -> & Hag & Hfin).
  pose proof (plan_agrees Hb) as Hplan. unfold decode_plan in Hplan. revert Hplan.
  generalize (@Deserialize.deserialize _ _ Series DataFrame _ body encoding). intros reference Hplan.
  destruct r as [names|e| |].
  - destruct (Hfin names eq_refl) as (_ & t & Htasks & Hnames). rewrite Ht in Htasks. cbn in Htasks.
    split; [done|]. rewrite Htasks, Hnames in *. cbn [mbind outcome_bind] in Hplan.
    pose proof (plan_lengths _ _ Hnames) as Hlen. split.
    { apply join_returns; [done| |apply columns_decode_ends]. intros ? [= <-]. by rewrite length_map. }
    assert (agrees (join_columns (order (length t)) (Ok names) (map (decode_column encoding) t))
      (decoded ← collect_columns (map (decode_column encoding) t); assemble_frame decoded names)) as Hjoin.
    { apply join_agrees; [by rewrite length_map|by rewrite length_map|apply columns_decode_ends]. }
    by eapply agrees_trans.
  - split; [done|]. split; [apply join_returns; [done|done|apply columns_decode_ends]|].
    unfold join_columns. destruct table_plan as [[names columns]| | |]; try done;
      cbn [mbind outcome_bind is_panicked orb] in *.
    all: destruct (existsb _ _), reference; done.
  - split; [done|]. split; [apply join_returns; [done|done|apply columns_decode_ends]|].
    unfold join_columns. cbn [is_panicked orb].
    destruct table_plan as [[names columns]| | |]; try done; by destruct reference.
  - by destruct (table_plan ≫= _).
Qed.
End Table.
