(* ===== verification/StreamFacts.v ===== *)
(** * StreamFacts: reads see the bytes of the stream, not its chunks *)

From stdpp Require Import prelude strings.
From Stdlib Require Import ZArith Lia ZifyBool.
From S2P Require Import Prelude Errors Stream Framing Pipeline.

(** The bytes that arrive before the first failure or the end, and that failure. *)
Fixpoint payload (s : stream) : list Z :=
  match s with
  | [] | Data [] :: _ => []
  | Data chunk :: s => chunk ++ payload s
  | Failure e :: s => if is_interrupted e then payload s else []
  end.

Fixpoint ending (s : stream) : option io_error :=
  match s with
  | [] | Data [] :: _ => None
  | Data _ :: s => ending s
  | Failure e :: s => if is_interrupted e then ending s else Some e
  end.

Lemma payload_size s : (length (payload s) <= stream_size s)%nat.
Proof.
  induction s as [|[chunk|e] s IH]; cbn [payload]; [cbn; lia| |]; unfold stream_size in *; cbn [foldr].
  - destruct chunk; [cbn; lia|]. rewrite length_app. lia.
  - destruct (is_interrupted e); [lia|cbn; lia].
Qed.

Lemma read_spec want s :
  0 < want ->
  let '(r, s') := read want s in
  match r with
  | Ok [] => payload s = [] /\ ending s = None /\ s' = s
  | Ok bytes => len bytes <= want /\ payload s = bytes ++ payload s' /\ ending s' = ending s
      /\ (stream_size s' < stream_size s)%nat
  | Err e =>
    if is_interrupted e then payload s' = payload s /\ ending s' = ending s
      /\ (stream_size s' < stream_size s)%nat
    else payload s = [] /\ ending s = Some e
  | _ => False
  end.
Proof.
  intros Hw. destruct s as [|[chunk|e] s]; cbn [read payload ending].
  - done.
  - destruct chunk as [|b chunk]; [done|].
    destruct (Z.to_nat want) as [|n] eqn:En; [lia|]. cbn [take drop].
    split_and!.
    + cbn [length]. rewrite length_take. lia.
    + rewrite <- app_comm_cons. f_equal. destruct (drop n chunk) as [|c rest] eqn:Ed.
      * pose proof (length_drop chunk n) as Hl. rewrite Ed in Hl. cbn [length] in Hl.
        by rewrite take_ge by lia.
      * cbn [payload]. rewrite <- (take_drop n chunk) at 1. by rewrite Ed, <- app_assoc.
    + destruct (drop n chunk) as [|c rest] eqn:Ed; done.
    + destruct (drop n chunk) as [|c rest] eqn:Ed; unfold stream_size; cbn [foldr length].
      * lia.
      * apply (f_equal length) in Ed. rewrite length_drop in Ed. cbn [length] in Ed.
        lia.
  - destruct (is_interrupted e) eqn:Ei; [|done]. split_and!; [done|done|]. unfold stream_size. cbn [foldr]. lia.
Qed.

(** Splits on the outcome of the next read. *)
Ltac next_read want s :=
  let H := fresh "Hread" in
  pose proof (read_spec want s ltac:(lia)) as H;
  destruct (read want s) as [[[|? ?]|?e| |] ?s']; try done.

Lemma read_exact_loop_spec fuel n filled s :
  (stream_size s < fuel)%nat -> len filled <= n ->
  let '(r, s') := read_exact_loop fuel n filled s in
  if n - len filled <=? len (payload s) then
    r = Ok (filled ++ take (Z.to_nat (n - len filled)) (payload s))
    /\ payload s' = drop (Z.to_nat (n - len filled)) (payload s) /\ ending s' = ending s
  else r = Err (default (unexpected_eof "failed to fill whole buffer") (ending s)).
Proof.
  revert filled s. induction fuel as [|fuel IH]; intros filled s Hf Hn; [lia|].
  cbn [read_exact_loop]. destruct (Z.leb_spec n (len filled)) as [Hle|Hlt].
  - replace (n - len filled) with 0 by lia. replace (0 <=? _) with true by lia.
    by rewrite take_0, app_nil_r, drop_0.
  - next_read (n - len filled) s.
    + destruct Hread as (-> & -> & _). by replace (n - len filled <=? len []) with false by (cbn; lia).
    + destruct Hread as (Hlen & Hp & He & Hs). set (bytes := z :: l) in *.
      specialize (IH (filled ++ bytes) s' ltac:(lia)). rewrite length_app in IH.
      specialize (IH ltac:(lia)). destruct (read_exact_loop fuel n (filled ++ bytes) s') as [r s''].
      replace (n - Z.of_nat (length filled + length bytes)) with (n - len filled - len bytes) in IH by lia.
      rewrite Hp, length_app.
      replace (n - len filled <=? Z.of_nat (length bytes + length (payload s')))
        with (n - len filled - len bytes <=? len (payload s')) by lia.
      destruct (_ <=? _); [|by rewrite IH, He].
      destruct IH as (-> & -> & ->).
      rewrite take_app_ge, drop_app_ge by lia. split_and!; [|f_equal; lia|done].
      rewrite <- app_assoc. do 4 f_equal. lia.
    + destruct (is_interrupted e).
      * destruct Hread as (Hp & He & Hs). specialize (IH filled s' ltac:(lia) Hn).
        by rewrite Hp, He in IH.
      * destruct Hread as [-> ->]. by replace (n - len filled <=? len []) with false by (cbn; lia).
Qed.

(** [read_exact] gets the next bytes or fails with what ends the stream. *)
Lemma read_exact_spec n s :
  0 <= n ->
  let '(r, s') := read_exact n s in
  if n <=? len (payload s) then
    r = Ok (take (Z.to_nat n) (payload s)) /\ payload s' = drop (Z.to_nat n) (payload s)
    /\ ending s' = ending s
  else r = Err (default (unexpected_eof "failed to fill whole buffer") (ending s)).
Proof.
  intros Hn. pose proof (read_exact_loop_spec (S (stream_size s)) n [] s ltac:(lia) Hn) as H.
  unfold read_exact. destruct (read_exact_loop _ n [] s) as [r s']. cbn [length] in H.
  change (Z.of_nat 0) with 0 in H. by rewrite Z.sub_0_r in H.
Qed.

Lemma read_to_end_loop_spec fuel limit appended s :
  (stream_size s < fuel)%nat -> len appended <= limit ->
  let '(r, out, s') := read_to_end_loop fuel limit appended s in
  out = appended ++ take (Z.to_nat (limit - len appended)) (payload s)
  /\ if limit - len appended <=? len (payload s) then
       r = Ok tt /\ payload s' = drop (Z.to_nat (limit - len appended)) (payload s)
       /\ ending s' = ending s
     else
       match ending s with
       | None => r = Ok tt /\ payload s' = [] /\ ending s' = None
       | Some e => r = Err e
       end.
Proof.
  revert appended s. induction fuel as [|fuel IH]; intros appended s Hf Hn; [lia|].
  cbn [read_to_end_loop]. destruct (Z.leb_spec limit (len appended)) as [Hle|Hlt].
  - replace (limit - len appended) with 0 by lia. replace (0 <=? _) with true by lia.
    by rewrite take_0, app_nil_r, drop_0.
  - next_read (limit - len appended) s.
    + destruct Hread as (Hp & He & ->). rewrite Hp, He, take_nil, app_nil_r.
      by replace (limit - len appended <=? len []) with false by (cbn; lia).
    + destruct Hread as (Hlen & Hp & He & Hs). set (bytes := z :: l) in *.
      specialize (IH (appended ++ bytes) s' ltac:(lia)). rewrite length_app in IH.
      specialize (IH ltac:(lia)).
      destruct (read_to_end_loop fuel limit (appended ++ bytes) s') as [[r out] s''].
      replace (limit - Z.of_nat (length appended + length bytes)) with (limit - len appended - len bytes) in IH by lia.
      rewrite Hp, length_app.
      replace (limit - len appended <=? Z.of_nat (length bytes + length (payload s')))
        with (limit - len appended - len bytes <=? len (payload s')) by lia.
      destruct IH as (-> & IH).
      rewrite take_app_ge, drop_app_ge, He in * by lia. split.
      * rewrite <- app_assoc. do 4 f_equal. lia.
      * destruct (_ <=? _); [|done]. destruct IH as (-> & -> & ->). split_and!; [done| |done]. f_equal. lia.
    + destruct (is_interrupted e).
      * destruct Hread as (Hp & He & Hs). specialize (IH appended s' ltac:(lia) Hn).
        by rewrite Hp, He in IH.
      * destruct Hread as [-> ->]. rewrite take_nil, app_nil_r.
        by replace (limit - len appended <=? len []) with false by (cbn; lia).
Qed.

(** The bounded [read_to_end] appends what there is, up to the limit. *)
Lemma read_to_end_spec limit s :
  0 <= limit ->
  let '(r, out, s') := read_to_end limit s in
  out = take (Z.to_nat limit) (payload s)
  /\ if limit <=? len (payload s) then
       r = Ok tt /\ payload s' = drop (Z.to_nat limit) (payload s) /\ ending s' = ending s
     else
       match ending s with
       | None => r = Ok tt /\ payload s' = [] /\ ending s' = None
       | Some e => r = Err e
       end.
Proof.
  intros Hn. pose proof (read_to_end_loop_spec (S (stream_size s)) limit [] s ltac:(lia) Hn) as H.
  unfold read_to_end. destruct (read_to_end_loop _ limit [] s) as [[r out] s']. cbn [length app] in H.
  change (Z.of_nat 0) with 0 in H. by rewrite Z.sub_0_r in H.
Qed.
