(* ===== verification/Receive.v ===== *)
(** * Receive: reading one frame off the stream
    ([read_ipc_body] and its helpers in [crates/xqdb/src/connector.rs])

    The body is read into the connector's retained buffer, which grows with what has
    arrived; a large table is handed to the pipeline instead. *)

From stdpp Require Import prelude strings.
From Stdlib Require Import ZArith.
From S2P Require Import Prelude Errors Types QValue Compress Text Value AnyValue Deserialize Framing Stream Pipeline.

(** The open stream and the retained buffer. *)
Record Wire : Type := MkWire { wire_stream : stream; wire_buffer : Buffer }.

Definition set_stream (s : stream) (w : Wire) : Wire := MkWire s (wire_buffer w).
Definition set_buffer (b : Buffer) (w : Wire) : Wire := MkWire (wire_stream w) b.

Definition body_ended : XqdbError :=
  IOError (unexpected_eof "IPC message body ended before its declared length").

(** [?] on an I/O result. *)
Definition from_io {A} (m : stream -> io A * stream) : proc Wire A :=
  zoom wire_stream set_stream (fun s => let '(r, s) := m s in (map_err IOError r, s)).

Definition on_buffer (f : Buffer -> res Buffer) : proc Wire unit := fun w =>
  match f (wire_buffer w) with
  | Ok b => (Ok tt, set_buffer b w)
  | Err e => (Err e, w)
  | Panicked => (Panicked, w)
  | OutOfFuel => (OutOfFuel, w)
  end.

#[local] Open Scope proc_scope.

Section Receive.
  Context `{Allocator}.

(** ** The body *)

(** Makes room for more once the reservation is full. *)
Definition grow_body (body_length : Z) (b : Buffer) : res Buffer :=
  if len (buffer_data b) =? buffer_capacity b then
    let target := Z.min body_length (saturating_mul (buffer_capacity b) BODY_RESERVATION_FACTOR) in
    additional ← usub target (len (buffer_data b));
    try_reserve_exact b additional (fun error =>
      GeneralErr ("Unable to grow the IPC message body to " +:+ show target +:+ " bytes: " +:+ error))
  else Ok b.

(** [stream.take(spare).read_to_end(body)] within the spare capacity. *)
Definition fill_body (body_length : Z) : proc Wire Z := fun w =>
  let b := wire_buffer w in
  let spare := Z.min (buffer_capacity b - len (buffer_data b)) (body_length - len (buffer_data b)) in
  let '(r, out, s) := read_to_end spare (wire_stream w) in
  let w := MkWire s (extend_buffer b out) in
  (match map_err IOError r with
   | Ok _ => Ok (len out)
   | Err e => Err e
   | Panicked => Panicked
   | OutOfFuel => OutOfFuel
   end, w).

Fixpoint body_loop (fuel : nat) (body_length : Z) : proc Wire unit := fun w =>
  match fuel with
  | O => (OutOfFuel, w)
  | S fuel =>
    if len (buffer_data (wire_buffer w)) <? body_length then
      (_ <- on_buffer (grow_body body_length);;
       count <- fill_body body_length;;
       if count =? 0 then pfail body_ended else body_loop fuel body_length) w
    else (Ok tt, w)
  end.

(** Every round but the last finds something in the stream. *)
Definition read_message_body (body_length : Z) : proc Wire unit := fun w =>
  body_loop (S (S (stream_size (wire_stream w)))) body_length w.

Fixpoint some_loop (fuel : nat) (want : Z) : proc Wire unit := fun w =>
  match fuel with
  | O => (OutOfFuel, w)
  | S fuel =>
    match read want (wire_stream w) with
    | (Ok [], s) => (Err body_ended, set_stream s w)
    | (Ok bytes, s) =>
      (Ok tt, MkWire s (MkBuffer (buffer_data (wire_buffer w) ++ bytes) (buffer_capacity (wire_buffer w))))
    | (Err e, s) =>
      if is_interrupted e then some_loop fuel want (set_stream s w)
      else (Err (IOError e), set_stream s w)
    | (Panicked, s) => (Panicked, set_stream s w)
    | (OutOfFuel, s) => (OutOfFuel, set_stream s w)
    end
  end.

Definition read_some (body_length : Z) : proc Wire unit := fun w =>
  let filled := len (buffer_data (wire_buffer w)) in
  let want := Z.min (buffer_capacity (wire_buffer w) - filled) (body_length - filled) in
  some_loop (S (stream_size (wire_stream w))) want w.

(** ** Frames *)

Context `{Chrono} {Series DataFrame : Type} `{!SeriesDecoder Series DataFrame}.
Abbreviation kval := (K Series DataFrame).

(** Where a received body lives after framing. *)
Inductive IpcBody : Type :=
| Retained
| Decompressed (body : list Z)
| Decoded (value : res kval).

Definition read_header : proc Wire ParsedIpcHeader :=
  header_bytes <- from_io (read_exact IPC_HEADER_LENGTH);;
  lift (parse_ipc_header header_bytes).

(** The decompressed-length prefix, checked before anything is reserved. *)
Definition read_prefix (header : ParsedIpcHeader) (body_length : Z) (max_message_bytes : option Z)
    : proc Wire (list Z) :=
  prefix_length <- lift
    (if compression_mode header =? 0 then
       _ ← enforce_message_bound (total_length header) max_message_bytes; Ok 0
     else if compression_mode header =? 1 then Ok 4
     else if compression_mode header =? 2 then Ok 8
     else Panicked);;
  if body_length <? prefix_length then
    lift (corrupt ("Compressed IPC body is " +:+ show body_length +:+ " bytes; compression mode "
                   +:+ show (compression_mode header) +:+ " requires a " +:+ show prefix_length
                   +:+ "-byte decompressed-length prefix"))
  else if 0 <? prefix_length then
    prefix <- from_io (read_exact prefix_length);;
    let* (decompressed_length, _) := lift (compressed_message_length prefix (compression_mode header)) in
    _ <- lift (enforce_message_bound decompressed_length max_message_bytes);;
    _ <- lift (enforce_compressed_physical_bound (total_length header) decompressed_length prefix_length);;
    pret prefix
  else pret [].

Definition buffer_of : proc Wire Buffer := fun w => (Ok (wire_buffer w), w).

(** Whether a large uncompressed table is decoded as it arrives. *)
Definition pipelined (pipeline : option SymbolEncoding) (prefix : list Z) (body_length : Z) (b : Buffer)
    : option SymbolEncoding :=
  if (len prefix =? 0) && (PIPELINE_MIN_BODY_BYTES <=? body_length) && (body_length <=? buffer_capacity b)
  then pipeline else None.

Definition read_body (header : ParsedIpcHeader) (body_length : Z) (max_message_bytes : option Z)
    : proc Wire (MsgType * IpcBody) :=
  _ <- read_message_body body_length;;
  b <- buffer_of;;
  let* (message, body) := lift (prepare_ipc_body header (Borrowed (buffer_data b)) max_message_bytes) in
  pret (message, match body with Borrowed _ => Retained | Owned d => Decompressed d end).

Definition read_ipc_body (schedule : Schedule) (max_message_bytes : option Z)
    (pipeline : option SymbolEncoding) : proc Wire (MsgType * IpcBody) :=
  header <- read_header;;
  body_length <- lift (checked_body_length (total_length header) "IPC message");;
  prefix <- read_prefix header body_length max_message_bytes;;
  _ <- on_buffer (fun b => Ok (clear_buffer b));;
  _ <- on_buffer (fun b =>
         reserve_buffer b (Z.max (Z.min body_length INITIAL_BODY_RESERVATION) (len prefix))
           "IPC message body");;
  _ <- on_buffer (fun b => Ok (extend_buffer b prefix));;
  b <- buffer_of;;
  match pipelined pipeline prefix body_length b with
  | Some encoding =>
    _ <- read_some body_length;;
    b <- buffer_of;;
    first <- lift (or_panic (get_at (buffer_data b) 0));;
    if (first =? TABLE_TYPE) && (len (buffer_data b) <? body_length) then
      message <- lift (message_type (message_kind header));;
      decoded <- zoom wire_stream set_stream (receive_table schedule body_length encoding b);;
      pret (message, Decoded decoded)
    else read_body header body_length max_message_bytes
  | None => read_body header body_length max_message_bytes
  end.
End Receive.
Arguments IpcBody {_} Series DataFrame.
Arguments Retained {_ _ _}.
Arguments Decompressed {_ _ _}.
Arguments Decoded {_ _ _}.
