(* ===== verification/ReceiveFacts.v ===== *)
(** * ReceiveFacts: a frame is read exactly, however it is cut into reads *)

From stdpp Require Import prelude strings.
From Stdlib Require Import ZArith Lia ZifyBool.
From S2P Require Import Prelude Errors Types QValue Compress ListScan Text Value AnyValue Deserialize DeserializeFacts SerdeSpec Framing FramingFacts FramingSpec Stream Pipeline PipelineFacts StreamFacts Receive.

#[local] Existing Instance unlimited.

(** The vector fits in its capacity. *)
Definition buffer_ok (b : Buffer) : Prop := len (buffer_data b) <= buffer_capacity b.

(** ** The body *)

Lemma grow_body_spec n b :
  buffer_ok b -> 0 < buffer_capacity b <= isize_max -> len (buffer_data b) < n -> n <= isize_max ->
  exists cap, @grow_body unlimited n b = Ok (MkBuffer (buffer_data b) cap)
    /\ len (buffer_data b) < cap <= isize_max
    /\ cap <= Z.max (buffer_capacity b) (BODY_RESERVATION_FACTOR * len (buffer_data b)).
Proof.
  intros Hb Hc Hn Hmax. unfold grow_body, buffer_ok in *.
  destruct (Z.eqb_spec (len (buffer_data b)) (buffer_capacity b)) as [He|Hne].
  - unfold saturating_mul, BODY_RESERVATION_FACTOR.
    set (target := Z.min n (Z.min (buffer_capacity b * 8) usize_max)).
    assert (len (buffer_data b) < target <= n /\ target <= 8 * len (buffer_data b)) as Ht
      by (unfold target; bool_lia).
    unfold usub, checked_sub. replace (_ <=? target) with true by lia. cbn [or_panic mbind outcome_bind].
    unfold try_reserve_exact. replace (_ <=? _) with false by lia. rewrite reserve_unlimited.
    cbn [mbind outcome_bind]. replace (len (buffer_data b) + (target - len (buffer_data b))) with target by lia.
    exists target. split_and!; [done|lia|lia|lia].
  - exists (buffer_capacity b). destruct b as [d c]. cbn in *. split_and!; [done|lia|lia|lia].
Qed.

(** What [body_loop] does when everything it asks for arrives, and when it does not. *)
Lemma body_loop_spec fuel n s b :
  buffer_ok b -> 0 < buffer_capacity b <= isize_max -> len (buffer_data b) <= n -> n <= isize_max ->
  (S (length (payload s)) < fuel)%nat ->
  let '(r, w) := @body_loop unlimited fuel n (MkWire s b) in
  let owed := n - len (buffer_data b) in
  if owed <=? len (payload s) then
    r = Ok tt /\ buffer_data (wire_buffer w) = buffer_data b ++ take (Z.to_nat owed) (payload s)
    /\ payload (wire_stream w) = drop (Z.to_nat owed) (payload s)
    /\ ending (wire_stream w) = ending s
  else exists e, r = Err (IOError e).
Proof.
  revert s b. induction fuel as [|fuel IH]; intros s b Hb Hc Hn Hmax Hf; [lia|].
  cbn [body_loop wire_buffer]. destruct (Z.ltb_spec (len (buffer_data b)) n) as [Hlt|Hge]; cbv zeta.
  2: { replace (n - len (buffer_data b)) with 0 by lia. replace (0 <=? _) with true by lia.
       cbn [wire_buffer wire_stream]. by rewrite take_0, app_nil_r, drop_0. }
  destruct (grow_body_spec n b Hb Hc Hlt Hmax) as (cap & Hgrow & Hcap & _).
  unfold on_buffer, pbind at 1. cbn [wire_buffer]. rewrite Hgrow.
  unfold set_buffer. cbn [wire_stream]. unfold fill_body, pbind at 1. cbn [wire_buffer wire_stream buffer_data buffer_capacity].
  set (d := buffer_data b) in *. set (spare := Z.min (cap - len d) (n - len d)).
  assert (0 < spare /\ spare <= n - len d) as Hsp by (unfold spare; lia).
  pose proof (read_to_end_spec spare s ltac:(lia)) as Hread.
  destruct (read_to_end spare s) as [[r out] s']. destruct Hread as [Hout Hread].
  assert (len out = Z.min spare (len (payload s))) as Hlo by (rewrite Hout, length_take; lia).
  unfold extend_buffer. cbn [buffer_data buffer_capacity].
  destruct (spare <=? len (payload s)) eqn:Efull.
  - destruct Hread as (-> & Hp & He). cbn [map_err].
    replace (len out =? 0) with false by lia.
    specialize (IH s' (MkBuffer (d ++ out) (Z.max cap (len d + len out)))).
    unfold buffer_ok in IH. cbn [buffer_data buffer_capacity] in IH. rewrite length_app in IH.
    specialize (IH ltac:(lia) ltac:(lia) ltac:(lia) Hmax).
    specialize (IH ltac:(rewrite Hp, length_drop; lia)).
    destruct (body_loop fuel n _) as [r' w']. rewrite Hp, length_drop in IH.
    replace (n - Z.of_nat (length d + length out) <=? Z.of_nat (length (payload s) - Z.to_nat spare))
      with (n - len d <=? len (payload s)) in IH by lia.
    destruct (n - len d <=? len (payload s)) eqn:Eall; [|done].
    destruct IH as (-> & Hd & Hp' & He'). split_and!; [done| | |congruence].
    + rewrite Hd, Hout, <- app_assoc. f_equal. rewrite <- Hout.
      rewrite <- (take_drop (Z.to_nat spare) (payload s)) at 2. rewrite take_app_ge.
      * rewrite <- Hout. do 2 f_equal. lia.
      * rewrite <- Hout. lia.
    + rewrite Hp', drop_drop. f_equal. lia.
  - replace (n - len d <=? len (payload s)) with false by lia.
    destruct (ending s) as [e|].
    + rewrite Hread. cbn [map_err]. by eexists.
    + destruct Hread as (-> & Hp & He). cbn [map_err]. destruct (Z.eqb_spec (len out) 0) as [H0|H0].
      * unfold pfail, body_ended. by eexists.
      * specialize (IH s' (MkBuffer (d ++ out) (Z.max cap (len d + len out)))).
        unfold buffer_ok in IH. cbn [buffer_data buffer_capacity] in IH. rewrite length_app in IH.
        specialize (IH ltac:(lia) ltac:(lia) ltac:(lia) Hmax).
        specialize (IH ltac:(rewrite Hp; cbn [length]; lia)).
        destruct (body_loop fuel n _) as [r' w']. rewrite Hp in IH. cbn [length] in IH.
        by replace (_ <=? Z.of_nat 0) with false in IH by lia.
Qed.

(** One read appends some of what arrives next. *)
Lemma some_loop_spec fuel want s b :
  0 < want -> (stream_size s < fuel)%nat ->
  let '(r, w) := some_loop fuel want (MkWire s b) in
  match payload s with
  | [] => exists e, r = Err (IOError e)
  | _ =>
    r = Ok tt /\ exists got, got <> [] /\ len got <= want /\ payload s = got ++ payload (wire_stream w)
      /\ ending (wire_stream w) = ending s
      /\ wire_buffer w = MkBuffer (buffer_data b ++ got) (buffer_capacity b)
  end.
Proof.
  intros Hw. revert s. induction fuel as [|fuel IH]; intros s Hf; [lia|].
  cbn [some_loop wire_stream]. next_read want s.
  - destruct Hread as (-> & _ & _). by eexists.
  - destruct Hread as (Hl & Hp & He & _). rewrite Hp. cbn [app wire_stream wire_buffer].
    split; [done|]. exists (z :: l). by split_and!.
  - unfold set_stream. cbn [wire_buffer]. destruct (is_interrupted e).
    + destruct Hread as (Hp & He & Hs). specialize (IH s' ltac:(lia)).
      destruct (some_loop fuel want (MkWire s' b)) as [r w]. by rewrite Hp, He in IH.
    + destruct Hread as [-> _]. by eexists.
Qed.

(** The reader of the pipeline: it publishes counts up to the whole body. *)
Lemma read_remaining_spec fuel n data history s :
  (stream_size s < fuel)%nat -> len data <= n ->
  Forall (in_flight n) history -> last history = Some (MkProgress (len data) false) ->
  let '(r, (body, history', s')) := read_remaining fuel n data history s in
  if n - len data <=? len (payload s) then
    r = Ok tt /\ body = data ++ take (Z.to_nat (n - len data)) (payload s)
    /\ payload s' = drop (Z.to_nat (n - len data)) (payload s) /\ ending s' = ending s
    /\ Forall (in_flight n) history' /\ last history' = Some (MkProgress n false)
  else exists e, r = Err (IOError e).
Proof.
  revert data history s. induction fuel as [|fuel IH]; intros data history s Hf Hn Hh Hl; [lia|].
  cbn [read_remaining]. destruct (Z.ltb_spec (len data) n) as [Hlt|Hge].
  2: { assert (n = len data) as -> by lia. rewrite Z.sub_diag. replace (0 <=? _) with true by lia.
       rewrite take_0, app_nil_r, drop_0. by split_and!. }
  cbv zeta. next_read (n - len data) s.
  - destruct Hread as (-> & _ & _). replace (_ <=? len []) with false by (cbn; lia). unfold receipt_failed. by eexists.
  - destruct Hread as (Hlen & Hp & He & Hs). set (got := z :: l) in *. unfold publish. cbn [failed].
    specialize (IH (data ++ got) (history ++ [MkProgress (len (data ++ got)) false]) s' ltac:(lia)).
    rewrite length_app in IH |- *. specialize (IH ltac:(lia)).
    assert (Forall (in_flight n) (history ++ [MkProgress (Z.of_nat (length data + length got)) false])) as Hh'.
    { apply Forall_app. split; [done|]. constructor; [split; [done|cbn [received]; lia]|constructor]. }
    specialize (IH Hh' ltac:(by rewrite last_snoc)).
    destruct (read_remaining fuel n (data ++ got) _ s') as [r [[body history'] s'']].
    rewrite Hp, length_app.
    replace (n - Z.of_nat (length data + length got) <=? len (payload s'))
      with (n - len data <=? Z.of_nat (length got + length (payload s'))) in IH by lia.
    destruct (_ <=? _) eqn:Eall; [|done].
    destruct IH as (-> & -> & -> & -> & Hfin). split_and!; try done; try apply Hfin.
    + rewrite <- app_assoc. f_equal. rewrite take_app_ge by lia. do 2 f_equal. lia.
    + rewrite drop_app_ge by lia. f_equal. lia.
  - destruct (is_interrupted e).
    + destruct Hread as (Hp & He & Hs). specialize (IH data history s' ltac:(lia) Hn Hh Hl).
      by rewrite Hp, He in IH.
    + destruct Hread as [-> _]. replace (_ <=? len []) with false by (cbn; lia). by eexists.
Qed.

(** What an interleaving can do: the scanner sees progress that was published, and
    every task reports once. *)
Definition fair (schedule : Schedule) : Prop :=
  (forall history, observations schedule history ⊆ history)
  /\ forall n, Permutation (arrivals schedule n) (seq 0 n).

Section Table.
  Context `{Chrono} {Series DataFrame : Type}.
  Context `{!SeriesDecoder Series DataFrame} `{!SeriesDecoderEnds}.

Lemma receive_table_spec schedule n encoding b s :
  fair schedule -> head (buffer_data b) = Some TABLE_TYPE -> len (buffer_data b) <= n ->
  n <= buffer_capacity b ->
  let owed := n - len (buffer_data b) in
  let body := buffer_data b ++ take (Z.to_nat owed) (payload s) in
  owed <= len (payload s) -> slice_ok body ->
  exists decoded s', @receive_table _ Series DataFrame _ schedule n encoding b s = (Ok decoded, s')
    /\ returns decoded /\ agrees decoded (Deserialize.deserialize body encoding)
    /\ payload s' = drop (Z.to_nat owed) (payload s) /\ ending s' = ending s.
Proof.
  intros [Hobs Harr] Hhead Hn Hcap owed body Howed Hok. unfold receive_table.
  replace (buffer_capacity b <? n) with false by lia. rewrite bool_decide_eq_true_2 by done. cbn [orb negb].
  set (start := MkProgress (len (buffer_data b)) false).
  pose proof (read_remaining_spec (S (stream_size s)) n (buffer_data b) [start] s ltac:(lia) Hn) as Hr.
  specialize (Hr ltac:(constructor; [split; [done|cbn; lia]|constructor]) eq_refl).
  destruct (read_remaining _ n (buffer_data b) [start] s) as [r [[body' history] s']].
  fold owed in Hr. replace (owed <=? len (payload s)) with true in Hr by lia.
  destruct Hr as (-> & -> & Hp & He & Hh & Hlast). fold body. rewrite Hlast.
  change (default start (Some (MkProgress n false))) with (MkProgress n false).
  assert (len body = n) as Hlen by (unfold body; rewrite length_app, length_take; lia).
  set (scanner := MkScanner (observations schedule history) (MkProgress n false) []).
  assert (get_at body 0 = Some TABLE_TYPE) as Hb0.
  { unfold body. destruct (buffer_data b) as [|t d]; [done|]. cbn in Hhead. injection Hhead as ->.
    apply get_at_cons0. }
  pose proof (pipeline_agrees body Hok encoding scanner (arrivals schedule) Hb0) as Hag.
  assert (Forall (in_flight n) (observations schedule history)) as Hobs'.
  { rewrite Forall_forall in Hh |- *. intros p Hin. apply Hh. by apply Hobs. }
  rewrite Hlen in Hag. specialize (Hag (conj eq_refl Hobs') eq_refl Harr).
  fold scanner. destruct (scan_columns body n encoding scanner) as [scanned scanner']. destruct Hag as [Hne [Hret Hag]].
  destruct (join_columns _ _ _) as [v|e| |]; try done; destruct scanned; try done;
    eexists _, s'; (split_and!; [reflexivity|done|exact Hag|exact Hp|exact He]).
Qed.
End Table.

(** ** Frames *)

Lemma take_exact {A} (x y : list A) n : n = len x -> take (Z.to_nat n) (x ++ y) = x /\ drop (Z.to_nat n) (x ++ y) = y.
Proof. intros ->. by rewrite Nat2Z.id, take_app_length, drop_app_length. Qed.

Lemma read_exact_bytes s b n x rest :
  payload s = x ++ rest -> len x = n ->
  exists s1, from_io (read_exact n) (MkWire s b) = (Ok x, MkWire s1 b)
    /\ payload s1 = rest /\ ending s1 = ending s.
Proof.
  intros Hp Hn. unfold from_io, zoom. cbn [wire_stream]. pose proof (read_exact_spec n s ltac:(lia)) as Hr.
  destruct (read_exact n s) as [r s1]. rewrite Hp, length_app in Hr.
  replace (n <=? _) with true in Hr by lia. destruct Hr as (-> & Hp1 & He1).
  destruct (take_exact x rest n ltac:(done)) as [Ht Hd]. rewrite Ht. rewrite Hd in Hp1.
  exists s1. by split_and!.
Qed.

Lemma read_header_spec h s b tail :
  header_wf h -> payload s = encode_header h ++ tail ->
  exists s1, read_header (MkWire s b) = (Ok h, MkWire s1 b) /\ payload s1 = tail /\ ending s1 = ending s.
Proof.
  intros Hw Hp. destruct (read_exact_bytes s b IPC_HEADER_LENGTH _ _ Hp) as (s1 & Hr & Hp1 & He1).
  { apply len_encode_header. }
  exists s1. unfold read_header. erewrite pbind_Ok by exact Hr. unfold lift.
  by rewrite parse_encode_header.
Qed.

Lemma message_length_prefix body mode :
  1 <= mode <= 2 -> mode_prefix mode <= len body ->
  compressed_message_length (take (Z.to_nat (mode_prefix mode)) body) mode = compressed_message_length body mode
  /\ exists d, compressed_message_length body mode = Ok (d, mode_prefix mode).
Proof.
  intros Hm Hl. unfold compressed_message_length, mode_prefix in *.
  assert (forall k, 0 <= k <= len body ->
    get_range (take (Z.to_nat k) body) 0 k = Some (take (Z.to_nat k) body)
    /\ get_range body 0 k = Some (take (Z.to_nat k) body)) as Hk.
  { intros k Hk. split; apply get_range_Some.
    - exists [], []. rewrite app_nil_r, length_take. split_and!; try done; cbn; lia.
    - exists [], (drop (Z.to_nat k) body). cbn. rewrite take_drop, length_take. split_and!; try done; cbn; lia. }
  assert (mode = 1 \/ mode = 2) as [-> | ->] by lia; cbn [Z.eqb Pos.eqb] in *;
    (edestruct Hk as [E1 E2]; [|rewrite E1, E2; split; [done|by eexists]]); lia.
Qed.

(** The prefix of a compressed body is read, or the frame is refused as
    [prepare_ipc_body] refuses it. *)
Lemma read_prefix_spec h max s b body rest :
  header_wf h -> len body = total_length h - 8 -> payload s = body ++ rest ->
  (exists prefix tail s1, read_prefix h (len body) max (MkWire s b) = (Ok prefix, MkWire s1 b)
     /\ body = prefix ++ tail /\ payload s1 = tail ++ rest /\ ending s1 = ending s
     /\ len prefix <= 8
     /\ (prefix = [] -> compression_mode h = 0 /\ enforce_message_bound (total_length h) max = Ok tt))
  \/ ((exists e w, read_prefix h (len body) max (MkWire s b) = (Err e, w))
      /\ exists e, @prepare_ipc_body unlimited h (Borrowed body) max = Err e).
Proof.
  intros (Hk & Hm & Ht) Hlen Hp. unfold IPC_HEADER_LENGTH, MIN_SERIALIZED_VALUE_LENGTH, MAX_IPC_LENGTH_FIELD in Ht.
  destruct (read_prefix h (len body) max (MkWire s b)) as [r w] eqn:Eread. symmetry in Eread.
  unfold read_prefix in Eread. unfold prepare_ipc_body. cbn [cow_bytes]. rewrite checked_body_length_Ok by bool_lia.
  cbn [mbind outcome_bind]. rewrite Hlen, Z.eqb_refl in *. cbn [negb].
  destruct (Z.eqb_spec (compression_mode h) 0) as [H0|H0].
  - destruct (enforce_message_bound_cases (total_length h) max) as [E|[e E]]; rewrite E in *;
      unfold pbind, lift in Eread; cbn [mbind outcome_bind] in Eread |- *.
    + replace (total_length h - 8 <? 0) with false in Eread by lia.
      left. exists [], body, s. by split_and!.
    + injection Eread as -> ->. right. split; by repeat eexists.
  - set (mode := compression_mode h) in *. set (pl := mode_prefix mode).
    assert (4 <= pl <= 8) as Hpl by (unfold pl, mode_prefix; destruct (mode =? 1); lia).
    assert ((if mode =? 1 then Ok 4 else if mode =? 2 then Ok 8 else Panicked : res Z) = Ok pl) as E.
    { unfold pl, mode_prefix. destruct (Z.eqb_spec mode 1); [done|]. by replace (mode =? 2) with true by lia. }
    rewrite E in Eread. clear E. erewrite pbind_lift in Eread by reflexivity. cbv beta in Eread.
    destruct (Z.ltb_spec (total_length h - 8) pl) as [Hs|Hge].
    { injection Eread as -> ->. right. split; [by repeat eexists|]. rewrite <- Hlen in Hs.
      assert (exists e, compressed_message_length body mode = Err e) as [e ->]; [|by eexists].
      unfold compressed_message_length, pl, mode_prefix in *.
      destruct (Z.eqb_spec mode 1) as [E1|E1].
      - destruct (get_range body 0 4) eqn:E; [|by eexists]. apply get_range_bounds in E. lia.
      - destruct (Z.eqb_spec mode 2) as [E2|E2]; [|by eexists].
        destruct (get_range body 0 8) eqn:E; [|by eexists]. apply get_range_bounds in E. lia. }
    replace (0 <? pl) with true in Eread by lia.
    destruct (message_length_prefix body mode) as [Hcml [d Hd]]; [lia|fold pl; lia|].
    fold pl in Hcml, Hd.
    destruct (read_exact_bytes s b pl (take (Z.to_nat pl) body) (drop (Z.to_nat pl) body ++ rest))
      as (s1 & Hr & Hp1 & He1).
    { by rewrite app_assoc, take_drop. }
    { rewrite length_take. lia. }
    erewrite pbind_Ok in Eread by exact Hr. rewrite Hcml in Eread. rewrite Hd in Eread |- *.
    unfold pbind, lift in Eread. cbn [mbind outcome_bind].
    destruct (enforce_message_bound_cases d max) as [E|[e E]]; rewrite E in Eread |- *; cbn [mbind outcome_bind].
    2: { injection Eread as -> ->. right. split; by repeat eexists. }
    pose proof (physical_bound_returns (total_length h) d pl) as Hret.
    destruct (enforce_compressed_physical_bound (total_length h) d pl) as [[]|e| |] eqn:Ephys; try done;
      injection Eread as -> ->; cbn [mbind outcome_bind].
    + left. exists (take (Z.to_nat pl) body), (drop (Z.to_nat pl) body), s1. split_and!; try done.
      * by rewrite take_drop.
      * rewrite length_take. lia.
      * intros Hnil. apply (f_equal length) in Hnil. rewrite length_take in Hnil. cbn in Hnil. lia.
    + right. split; by repeat eexists.
Qed.

Section Frame.
  Context `{Chrono} {Series DataFrame : Type}.
  Context `{!SeriesDecoder Series DataFrame} `{!SeriesDecoderEnds}.

Abbreviation received := (IpcBody Series DataFrame).

(** The rest of a body, then its preparation. *)
Lemma read_body_spec h max s data cap body rest :
  data ++ payload s = body ++ rest -> len data <= len body -> len data <= cap -> 0 < cap <= isize_max ->
  len body <= isize_max ->
  exists w, @read_body unlimited _ Series DataFrame h (len body) max (MkWire s (MkBuffer data cap))
    = (match @prepare_ipc_body unlimited h (Borrowed body) max with
       | Ok (m, prepared) =>
         Ok (m, match prepared with Borrowed _ => Retained | Owned d => Decompressed d end)
       | Err e => Err e
       | Panicked => Panicked
       | OutOfFuel => OutOfFuel
       end, w)
    /\ buffer_data (wire_buffer w) = body /\ payload (wire_stream w) = rest
    /\ ending (wire_stream w) = ending s.
Proof.
  intros Hp Hd Hc Hcap Hl.
  assert (exists tail, body = data ++ tail /\ payload s = tail ++ rest) as (tail & Hbody & Hps).
  { exists (drop (length data) body).
    pose proof (f_equal (take (length data)) Hp) as Ht. rewrite take_app_length, take_app_le in Ht by lia.
    pose proof (f_equal (drop (length data)) Hp) as Hdr. rewrite drop_app_length, drop_app_le in Hdr by lia.
    split; [|done]. rewrite Ht at 1. by rewrite take_drop. }
  pose proof (body_loop_spec (S (S (stream_size s))) (len body) s (MkBuffer data cap)) as Hloop.
  cbn [buffer_data buffer_capacity] in Hloop.
  pose proof (payload_size s) as Hsize.
  specialize (Hloop Hc Hcap Hd Hl ltac:(lia)).
  unfold read_body, read_message_body. cbn [wire_stream] in Hloop |- *. unfold pbind at 1.
  destruct (body_loop _ (len body) (MkWire s (MkBuffer data cap))) as [r w].
  rewrite Hps in Hloop. rewrite Hbody, !length_app in Hloop.
  replace (_ <=? _) with true in Hloop by lia. destruct Hloop as (-> & Hdata & Hpay & Hend).
  destruct (take_exact tail rest (Z.of_nat (length data + length tail) - len data)) as [Ht1 Ht2]; [lia|].
  rewrite Ht1, <- Hbody in Hdata. rewrite Ht2 in Hpay.
  exists w. split; [|by split_and!].
  unfold pbind, buffer_of, lift, pret. rewrite Hdata.
  destruct (prepare_ipc_body h (Borrowed body) max) as [[m [d|d]]|e| |]; done.
Qed.

Lemma reserve_spec b n c :
  0 <= buffer_capacity b <= isize_max -> 0 < n <= isize_max ->
  exists cap, @reserve_buffer unlimited (clear_buffer b) n c = Ok (MkBuffer [] cap)
    /\ n <= cap <= isize_max /\ cap <= Z.max (buffer_capacity b) n.
Proof.
  intros Hb Hn. unfold reserve_buffer, clear_buffer. cbn [buffer_data buffer_capacity length].
  change (negb (Z.of_nat 0 =? 0)) with false. cbv iota.
  destruct (Z.leb_spec n (buffer_capacity b)).
  - exists (buffer_capacity b). split_and!; [done|lia..].
  - unfold try_reserve_exact. cbn [buffer_data buffer_capacity length].
    replace (n <=? _) with false by lia. rewrite reserve_unlimited. cbn [mbind outcome_bind buffer_data buffer_capacity].
    exists n. split_and!; [by rewrite Z.add_0_l|lia..].
Qed.

(** What was received for a body that [prepare_ipc_body] makes into [prepared]. *)
Definition stands_for (pipeline : option SymbolEncoding) (b : Buffer) (r : received) (body : list Z)
    (prepared : Cow) : Prop :=
  match r with
  | Retained => prepared = Borrowed (buffer_data b)
  | Decompressed d => prepared = Owned d
  | Decoded v =>
    prepared = Borrowed body
    /\ exists encoding, pipeline = Some encoding /\ agrees v (Deserialize.deserialize body encoding)
  end.

(** The frame as the caller sees it. *)
Definition frame_result (pipeline : option SymbolEncoding) (s : stream) (body rest : list Z)
    (prepared : res (MsgType * Cow)) (result : res (MsgType * received) * Wire) : Prop :=
  match prepared with
  | Ok (m, prepared) =>
    exists r w, result = (Ok (m, r), w)
      /\ payload (wire_stream w) = rest /\ ending (wire_stream w) = ending s
      /\ stands_for pipeline (wire_buffer w) r body prepared
  | Err _ => exists e w, result = (Err e, w)
  | _ => False
  end.

Lemma retained_case pipeline max h s s3 data cap body rest :
  header_wf h -> slice_ok body -> data ++ payload s3 = body ++ rest -> ending s3 = ending s ->
  len data <= len body -> len data <= cap -> 0 < cap <= isize_max ->
  frame_result pipeline s body rest (@prepare_ipc_body unlimited h (Borrowed body) max)
    (@read_body unlimited _ Series DataFrame h (len body) max (MkWire s3 (MkBuffer data cap))).
Proof.
  intros Hw Hok Hp He Hd Hc Hcap. pose proof (proj2 Hok) as Hmax.
  destruct (read_body_spec h max s3 data cap body rest Hp Hd Hc Hcap Hmax) as (w & -> & Hdata & Hpay & Hend).
  destruct (@prepare_bounded unlimited h body max Hok Hw) as [Hret Hprep].
  destruct (prepare_ipc_body h (Borrowed body) max) as [[m prepared]|e| |]; try done; cbn [frame_result].
  - destruct (Hprep m prepared eq_refl) as (_ & _ & _ & Hcow).
    eexists _, w. split_and!; [reflexivity|done|congruence|].
    destruct prepared as [d|d]; cbn; [|done]. destruct Hcow as [_ ->]. by rewrite Hdata.
  - by eexists _, _.
Qed.

Lemma read_frame_spec schedule max pipeline h body rest s b :
  fair schedule -> header_wf h -> len body = total_length h - 8 -> slice_ok body ->
  0 <= buffer_capacity b <= isize_max -> payload s = encode_header h ++ body ++ rest ->
  frame_result pipeline s body rest (@prepare_ipc_body unlimited h (Borrowed body) max)
    (@read_ipc_body unlimited _ Series DataFrame _ schedule max pipeline (MkWire s b)).
Proof.
  intros Hfair Hw Hlen Hok Hb Hp. pose proof Hw as (Hk & _ & Ht).
  unfold IPC_HEADER_LENGTH, MIN_SERIALIZED_VALUE_LENGTH, MAX_IPC_LENGTH_FIELD in Ht.
  destruct (message_type_is_Ok _ Hk) as [mt Hmt].
  destruct (read_ipc_body schedule max pipeline (MkWire s b)) as [res w] eqn:E. symmetry in E.
  unfold read_ipc_body in E. destruct (read_header_spec h s b _ Hw Hp) as (s1 & Hr1 & Hp1 & He1).
  erewrite pbind_Ok in E by exact Hr1. rewrite checked_body_length_Ok in E by bool_lia.
  erewrite pbind_lift in E by reflexivity. cbv beta in E. rewrite <- Hlen in E.
  destruct (read_prefix_spec h max s1 b body rest Hw Hlen Hp1)
    as [(prefix & tail & s2 & Hr2 & Hbody & Hp2 & He2 & Hpl & Hmode)|[(e & w' & Hr2) [e' He']]].
  2: { erewrite pbind_Err in E by exact Hr2. rewrite E, He'. by eexists _, _. }
  erewrite pbind_Ok in E by exact Hr2. cbv beta in E.
  destruct (reserve_spec b (Z.max (Z.min (len body) INITIAL_BODY_RESERVATION) (len prefix)) "IPC message body")
    as (cap & Hres & Hcap & _); [done|unfold INITIAL_BODY_RESERVATION; destruct Hok; bool_lia|].
  unfold INITIAL_BODY_RESERVATION in Hcap.
  unfold pbind at 1, on_buffer at 1 in E. unfold set_buffer at 1 in E. cbn [wire_buffer wire_stream] in E.
  unfold pbind at 1, on_buffer at 1 in E. cbn [wire_buffer wire_stream] in E. rewrite Hres in E.
  unfold pbind at 1, on_buffer at 1, set_buffer in E. cbn [wire_buffer wire_stream] in E.
  assert (extend_buffer (MkBuffer [] cap) prefix = MkBuffer prefix cap) as Hext.
  { unfold extend_buffer. cbn [buffer_data buffer_capacity app length]. f_equal. lia. }
  rewrite Hext in E. clear Hext. pose proof (proj2 Hok) as Hmax.
  assert (len prefix + len tail = len body) as Hsum by (rewrite Hbody, length_app; lia).
  unfold pbind at 1, buffer_of at 1 in E. cbn [wire_buffer] in E.
  destruct (pipelined pipeline prefix (len body) (MkBuffer prefix cap)) as [encoding|] eqn:Epipe.
  2: { rewrite E. apply retained_case; try done; try lia; [|congruence].
       by rewrite Hp2, Hbody, app_assoc. }
  unfold pipelined in Epipe. cbn [buffer_capacity] in Epipe.
  destruct (_ && _) eqn:Econd in Epipe; [|done]. split_andb.
  assert (prefix = []) as -> by (destruct prefix; [done|cbn in *; lia]).
  destruct (Hmode eq_refl) as [Hm0 Hbound]. cbn [app] in Hbody. subst tail.
  unfold pbind at 1, read_some in E. cbn [wire_buffer wire_stream buffer_data buffer_capacity length] in E.
  pose proof (some_loop_spec (S (stream_size s2)) (Z.min (cap - Z.of_nat 0) (len body - Z.of_nat 0)) s2
    (MkBuffer [] cap) ltac:(lia) ltac:(lia)) as Hsome.
  destruct (some_loop _ _ (MkWire s2 (MkBuffer [] cap))) as [r3 w3].
  rewrite Hp2 in Hsome.
  assert (exists t, body ++ rest = t) as [[|t0 t] Et] by (by eexists).
  { apply (f_equal length) in Et. rewrite length_app in Et. cbn in Et. lia. }
  rewrite Et in Hsome. destruct Hsome as (-> & got & Hne & Hgot & Hp3 & He3 & Hb3).
  rewrite <- Et in Hp3. cbn [buffer_data buffer_capacity app] in Hb3.
  unfold pbind at 1, buffer_of at 1 in E. rewrite Hb3 in E. cbn [buffer_data] in E.
  destruct (get_at_is_Some got 0) as [first Hfirst]; [destruct got; [done|cbn [length]; lia]|].
  rewrite Hfirst in E. erewrite pbind_lift in E by reflexivity. cbv beta in E.
  destruct w3 as [s3 b3]. cbn [wire_stream wire_buffer] in *. subst b3.
  destruct ((first =? TABLE_TYPE) && (len got <? len body)) eqn:Etab.
  2: { rewrite E. apply retained_case; try done; try lia; congruence. }
  split_andb. rewrite Hmt in E. erewrite pbind_lift in E by reflexivity. cbv beta in E.
  unfold pbind, zoom in E. cbn [wire_stream] in E.
  assert (prepare_ipc_body h (Borrowed body) max = Ok (mt, Borrowed body)) as Hprep.
  { unfold prepare_ipc_body. rewrite checked_body_length_Ok by bool_lia. cbn [cow_bytes mbind outcome_bind].
    rewrite Hlen, Z.eqb_refl, Hm0. cbn [negb Z.eqb]. rewrite Hbound. cbn [mbind outcome_bind].
    by rewrite Hmt. }
  assert (got ++ take (Z.to_nat (len body - len got)) (payload s3) = body
    /\ drop (Z.to_nat (len body - len got)) (payload s3) = rest /\ len body - len got <= len (payload s3)) as (Hb4 & Hr4 & Hl4).
  { pose proof (f_equal (drop (length got)) Hp3) as Hd. rewrite drop_app_length, drop_app_le in Hd by lia.
    pose proof (f_equal (take (length got)) Hp3) as Hg. rewrite take_app_length, take_app_le in Hg by lia.
    destruct (take_exact (drop (length got) body) rest (len body - len got)) as [T1 T2]; [rewrite length_drop; lia|].
    rewrite <- Hd, T1, T2. split_and!; [rewrite <- Hg at 1; apply take_drop|done|rewrite length_app, length_drop; lia]. }
  destruct (receive_table_spec schedule (len body) encoding (MkBuffer got cap) s3) as (decoded & s4 & Hrt & _ & Hag & Hp4 & He4);
    cbn [buffer_data buffer_capacity] in *; try done; try lia.
  { destruct got; [done|]. rewrite get_at_cons0 in Hfirst. injection Hfirst as ->. cbn. f_equal. lia. }
  { by rewrite Hb4. }
  rewrite Hrt in E. rewrite E, Hprep. cbn [frame_result]. eexists _, _. split_and!; [reflexivity| | |].
  - cbn [set_stream wire_stream]. by rewrite Hp4, Hr4.
  - cbn [set_stream wire_stream]. congruence.
  - cbn [stands_for]. split; [done|]. exists encoding. split; [by rewrite Epipe|]. by rewrite Hb4 in Hag.
Qed.
End Frame.
