(* ===== verification/ReceiveSpec.v ===== *)
(** * ReceiveSpec: receiving is exact, comes to an end and stays within its memory

    Whatever the stream does (truncation, failures, interruptions), whatever memory
    the allocator refuses and however the threads of the pipeline interleave. *)

From stdpp Require Import prelude strings.
From Stdlib Require Import ZArith Lia ZifyBool.
From S2P Require Import Prelude Errors Types QValue Compress CompressFacts Framing FramingFacts FramingSpec ListScan ListScanFacts ListScanSpec Text Value AnyValue Deserialize DeserializeFacts Sample SerdeSpec Stream Pipeline PipelineFacts StreamFacts Receive ReceiveFacts.

(** ** Bytes that arrive *)

Definition stream_bytes (s : stream) : Z :=
  foldr (fun e n => match e with Data chunk => len chunk + n | Failure _ => n end) 0 s.

Definition stream_ok (s : stream) : Prop :=
  Forall (fun e => match e with Data chunk => bytes_ok chunk | Failure _ => True end) s.

Lemma stream_bytes_nonneg s : 0 <= stream_bytes s.
Proof. induction s as [|[chunk|e] s IH]; unfold stream_bytes in *; cbn [foldr]; lia. Qed.

(** A read takes what it returns, and nothing else. *)
Lemma read_takes want s :
  stream_ok s ->
  let '(r, s') := read want s in
  stream_ok s' /\ match r with
                  | Ok bytes => bytes_ok bytes /\ len bytes + stream_bytes s' = stream_bytes s
                  | _ => stream_bytes s' = stream_bytes s
                  end.
Proof.
  intros Hs. destruct s as [|[chunk|e] s]; cbn [read]; [done| |by inversion Hs].
  apply Forall_cons in Hs as [Hc Hs]. destruct chunk as [|b chunk].
  { split; [by constructor|]. split; [constructor|cbn; lia]. }
  set (n := Z.to_nat want). pose proof (take_drop n (b :: chunk)) as Htd.
  assert (bytes_ok (take n (b :: chunk)) /\ bytes_ok (drop n (b :: chunk))) as [Ht Hd]
    by (split; [by apply Forall_take|by apply Forall_drop]).
  apply (f_equal length) in Htd. rewrite length_app in Htd.
  destruct (drop n (b :: chunk)) as [|c rest] eqn:E; cbn [length] in Htd.
  - split; [done|]. split; [done|]. unfold stream_bytes. cbn [foldr length]. lia.
  - split; [by constructor|]. split; [done|]. unfold stream_bytes. cbn [foldr length]. lia.
Qed.

Lemma read_exact_loop_takes fuel n filled s :
  stream_ok s -> bytes_ok filled ->
  let '(r, s') := read_exact_loop fuel n filled s in
  stream_ok s' /\ stream_bytes s' <= len filled + stream_bytes s
  /\ match r with Ok x => bytes_ok x /\ len x + stream_bytes s' = len filled + stream_bytes s | _ => True end.
Proof.
  revert filled s. induction fuel as [|fuel IH]; intros filled s Hs Hf; cbn [read_exact_loop].
  { split_and!; [done|lia|done]. }
  destruct (n <=? len filled); [split_and!; [done|lia|done|done]|].
  pose proof (read_takes (n - len filled) s Hs) as Hr.
  destruct (read (n - len filled) s) as [[[|b bs]|e| |] s']; cbn [length] in Hr; destruct Hr as [Hs' Hr].
  - split_and!; [done|lia|done].
  - destruct Hr as [Hb Hr]. specialize (IH (filled ++ b :: bs) s' Hs' ltac:(by apply Forall_app)).
    destruct (read_exact_loop _ _ _ _) as [r s'']. rewrite length_app in IH. cbn [length] in IH.
    destruct IH as (Hs'' & Hle & Hx). split_and!; [done|lia|]. destruct r; try done. destruct Hx. split; [done|lia].
  - destruct (is_interrupted e); [|split_and!; [done|lia|done]].
    specialize (IH filled s' Hs' Hf). by rewrite Hr in IH.
  - split_and!; [done|lia|done].
  - split_and!; [done|lia|done].
Qed.

Lemma read_to_end_loop_takes fuel limit out s :
  stream_ok s -> bytes_ok out ->
  let '(_, out', s') := read_to_end_loop fuel limit out s in
  stream_ok s' /\ bytes_ok out' /\ len out' + stream_bytes s' = len out + stream_bytes s.
Proof.
  revert out s. induction fuel as [|fuel IH]; intros out s Hs Hf; cbn [read_to_end_loop]; [done|].
  destruct (limit <=? len out); [done|].
  pose proof (read_takes (limit - len out) s Hs) as Hr.
  destruct (read (limit - len out) s) as [[[|b bs]|e| |] s']; cbn [length] in Hr; destruct Hr as [Hs' Hr].
  - split_and!; [done|done|lia].
  - destruct Hr as [Hb Hr]. specialize (IH (out ++ b :: bs) s' Hs' ltac:(by apply Forall_app)).
    destruct (read_to_end_loop _ _ _ _) as [[r out'] s'']. rewrite length_app in IH. cbn [length] in IH.
    destruct IH as (? & ? & ?). split_and!; [done|done|lia].
  - destruct (is_interrupted e); [|split_and!; [done|done|lia]].
    specialize (IH out s' Hs' Hf). by rewrite Hr in IH.
  - split_and!; [done|done|lia].
  - split_and!; [done|done|lia].
Qed.

(** ** The body *)

(** The buffer of a receipt: [C] is what was reserved to begin with, [D] what had
    arrived then. *)
Definition grown (C D : Z) (w : Wire) : Prop :=
  let b := wire_buffer w in
  buffer_ok b /\ 0 < buffer_capacity b <= isize_max
  /\ buffer_capacity b <= Z.max C (BODY_RESERVATION_FACTOR * len (buffer_data b))
  /\ len (buffer_data b) + stream_bytes (wire_stream w) <= D
  /\ bytes_ok (buffer_data b) /\ stream_ok (wire_stream w).

(** What holds after any outcome. *)
Definition within (C D : Z) (w : Wire) : Prop :=
  stream_ok (wire_stream w) /\ stream_bytes (wire_stream w) <= D
  /\ 0 <= buffer_capacity (wire_buffer w)
     <= Z.max C (BODY_RESERVATION_FACTOR * (D - stream_bytes (wire_stream w))).

Lemma grown_within C D w : grown C D w -> within C D w.
Proof. unfold grown, within, BODY_RESERVATION_FACTOR. intros (_ & H0 & Hc & Hd & _ & Hs). split; [done|lia]. Qed.

Section Total.
  Context `{Allocator}.

Lemma grow_body_cases n b :
  buffer_ok b -> 0 < buffer_capacity b <= isize_max -> len (buffer_data b) < n -> n <= isize_max ->
  (exists e, grow_body n b = Err e)
  \/ exists cap, grow_body n b = Ok (MkBuffer (buffer_data b) cap)
    /\ len (buffer_data b) < cap <= isize_max
    /\ cap <= Z.max (buffer_capacity b) (BODY_RESERVATION_FACTOR * len (buffer_data b)).
Proof.
  intros Hb Hc Hn Hmax. destruct (grow_body_spec n b Hb Hc Hn Hmax) as (cap & Hgrow & Hcap).
  unfold grow_body in *. destruct (len (buffer_data b) =? buffer_capacity b); [|right; by exists cap].
  destruct (usub _ (len (buffer_data b))) as [additional| | |]; try done. cbn [mbind outcome_bind] in *.
  unfold try_reserve_exact in *. destruct (additional <=? _); [right; by exists cap|].
  unfold reserve. destruct (try_reserve additional); [right; by exists cap|left; by eexists].
Qed.

Lemma body_loop_total fuel n C D w :
  grown C D w -> len (buffer_data (wire_buffer w)) <= n <= isize_max ->
  (S (length (payload (wire_stream w))) < fuel)%nat ->
  let '(r, w') := body_loop fuel n w in
  returns r /\ (grown C D w' /\ len (buffer_data (wire_buffer w')) <= n).
Proof.
  revert w. induction fuel as [|fuel IH]; intros [s [d cap0]] Hg Hn Hf; [lia|].
  cbn [body_loop wire_buffer buffer_data]. cbn [wire_buffer wire_stream buffer_data] in Hn, Hf.
  destruct (Z.ltb_spec (len d) n) as [Hlt|Hge]; [|cbv iota beta; split; [done|]; split; [exact Hg|cbn; lia]].
  pose proof Hg as (Hb & Hc & HC & HD & Hbd & Hs). cbn [wire_buffer wire_stream buffer_data buffer_capacity] in *.
  unfold on_buffer at 1, pbind at 1. cbn [wire_buffer].
  destruct (grow_body_cases n (MkBuffer d cap0) Hb Hc Hlt ltac:(lia)) as [[e ->]|(cap & -> & Hcap & HC')].
  { cbv iota beta. split; [done|]. split; [exact Hg|cbn; lia]. }
  cbn [buffer_data buffer_capacity] in Hcap, HC'. unfold set_buffer. cbn [wire_stream].
  unfold fill_body, pbind at 1. cbn [wire_buffer wire_stream buffer_data buffer_capacity].
  set (spare := Z.min (cap - len d) (n - len d)).
  assert (0 < spare /\ len d + spare <= n /\ len d + spare <= cap) as Hsp by (unfold spare; lia).
  pose proof (read_to_end_spec spare s ltac:(lia)) as Hread.
  pose proof (read_to_end_loop_takes (S (stream_size s)) spare [] s Hs ltac:(constructor)) as Htakes.
  unfold read_to_end in *. destruct (read_to_end_loop _ spare [] s) as [[r out] s'].
  destruct Hread as [Hout Hread]. destruct Htakes as (Hs' & Hbo & Hlen). cbn [length] in Hlen.
  assert (len out = Z.min spare (len (payload s))) as Hlo by (rewrite Hout, length_take; lia).
  unfold extend_buffer. cbn [buffer_data buffer_capacity]. rewrite Z.max_l by lia.
  assert (grown C D (MkWire s' (MkBuffer (d ++ out) cap)) /\ len (d ++ out) <= n) as [Hg' Hn'].
  { unfold grown, buffer_ok, BODY_RESERVATION_FACTOR in *. cbn [wire_buffer wire_stream buffer_data buffer_capacity].
    rewrite length_app. split; [|lia]. split_and!; try lia; [by apply Forall_app|done]. }
  assert ((r = Ok tt -> len out = 0 \/ (length (payload s') < length (payload s))%nat)
    /\ r <> OutOfFuel /\ r <> Panicked) as (Hprog & Hr1 & Hr2).
  { destruct (spare <=? len (payload s)) eqn:Efull.
    - destruct Hread as (-> & Hp & _). split_and!; [|done|done]. intros _. right. rewrite Hp, length_drop. lia.
    - destruct (ending s); [by rewrite Hread|]. destruct Hread as (-> & Hp & _). split_and!; [|done|done].
      intros _. rewrite Hp. cbn [length]. lia. }
  destruct r as [[]|e| |]; [cbn [map_err]|by split|done|done].
  destruct (Z.eqb_spec (len out) 0) as [H0|H0]; [unfold pfail; cbv iota beta; by split|].
  apply IH; cbn [wire_buffer wire_stream buffer_data]; [done|lia|].
  destruct (Hprog eq_refl); lia.
Qed.

Lemma some_loop_total fuel want C D s d cap :
  0 < want -> len d + want <= cap -> (stream_size s < fuel)%nat -> grown C D (MkWire s (MkBuffer d cap)) ->
  let '(r, w) := some_loop fuel want (MkWire s (MkBuffer d cap)) in
  match r with
  | Ok _ => grown C D w /\ len d < len (buffer_data (wire_buffer w)) <= len d + want
      /\ buffer_capacity (wire_buffer w) = cap
  | Err _ => within C D w
  | _ => False
  end.
Proof.
  intros Hw Hcap. revert s. induction fuel as [|fuel IH]; intros s Hf Hg; [lia|].
  cbn [some_loop wire_stream]. pose proof Hg as (Hb & Hc & HC & HD & Hbd & Hs).
  cbn [wire_buffer wire_stream buffer_data buffer_capacity] in *.
  pose proof (read_takes want s Hs) as Htakes. next_read want s; cbn [length] in Htakes; destruct Htakes as [Hs' Ht].
  - unfold within, set_stream, BODY_RESERVATION_FACTOR in *. cbn [wire_stream wire_buffer buffer_capacity]. split; [done|lia].
  - destruct Ht as [Hbs Ht]. destruct Hread as (Hl & _ & _ & _). set (got := z :: l) in *.
    assert (0 < len got) by (unfold got; cbn [length]; lia).
    unfold grown, buffer_ok, BODY_RESERVATION_FACTOR in *. cbn [wire_buffer wire_stream buffer_data buffer_capacity].
    rewrite length_app. change (S (length l)) with (length got) in Ht. split_and!; try lia; [by apply Forall_app|done].
  - unfold set_stream. cbn [wire_buffer]. destruct (is_interrupted e).
    + apply IH; [lia|]. unfold grown. cbn [wire_buffer wire_stream buffer_data buffer_capacity]. rewrite Ht.
      exact (conj Hb (conj Hc (conj HC (conj HD (conj Hbd Hs'))))).
    + unfold within, BODY_RESERVATION_FACTOR in *. cbn [wire_stream wire_buffer buffer_capacity]. split; [done|lia].
Qed.
End Total.

(** ** The scanner of a receipt that may fail *)

Section Live.
  Context (data : list Z) (total : Z) (Hdata : bytes_ok data) (Hm : len data <= total) (Hmax : total <= isize_max).

(** The body had everything arrived, the rest being zeros. *)
Definition padded : list Z := data ++ replicate (Z.to_nat (total - len data)) 0.

Lemma padded_len : len padded = total.
Proof. unfold padded. rewrite length_app, length_replicate. lia. Qed.
Lemma padded_ok : slice_ok padded.
Proof.
  split; [|by rewrite padded_len]. apply Forall_app. split; [done|]. apply Forall_replicate. unfold is_byte. lia.
Qed.
Lemma received_padded c : c <= len data -> received_bytes data c = received_bytes padded c.
Proof. intros Hc. unfold received_bytes, padded. by rewrite take_app_le by lia. Qed.

(** What the reader published is what it had, and the last it published is the whole
    body or a failure. *)
Definition published (p : Progress) : Prop := 0 <= received p <= len data.
Definition final (p : Progress) : Prop := failed p = true \/ received p = total.
Definition live (s : Scanner) : Prop :=
  final (settled s) /\ published (settled s) /\ Forall published (sees s).

Lemma wait_loop_live needed later p :
  final p -> published p -> Forall published later -> needed <= total ->
  let '(r, later') := wait_loop needed later p in
  Forall published later' /\ ((exists e, r = Err e) \/ exists c, r = Ok c /\ needed <= c <= len data /\ 0 <= c).
Proof.
  intros Hf Hp Hl Hn. induction Hl as [|q later Hq Hl IH]; cbn [wait_loop].
  - destruct Hf as [Hf|Hf].
    + rewrite Hf, andb_false_r. unfold outcome_of. rewrite Hf. split; [constructor|left; by eexists].
    + replace (received p <? needed) with false by lia. cbn [andb]. split; [constructor|].
      unfold outcome_of. destruct (failed p); [left; by eexists|]. right. exists (received p).
      unfold published in Hp. split_and!; [done|lia..].
  - destruct (failed q) eqn:Eq; cbn [negb]; rewrite ?andb_false_r, ?andb_true_r.
    + unfold outcome_of. rewrite Eq. split; [done|left; by eexists].
    + destruct (Z.ltb_spec (received q) needed); [done|]. unfold outcome_of. rewrite Eq. split; [done|].
      right. exists (received q). unfold published in Hq. split_and!; [done|lia..].
Qed.

Lemma wait_for_live needed :
  triple True live (wait_for total needed) (fun _ => True) (fun c s => live s /\ needed <= c <= len data /\ 0 <= c).
Proof.
  intros s (Hf & Hp & Hl). unfold wait_for. destruct (Z.ltb_spec total needed) as [|Hn]; [exact I|].
  pose proof (wait_loop_live needed (sees s) (settled s) Hf Hp Hl Hn) as Hw.
  destruct (wait_loop needed (sees s) (settled s)) as [r later]. destruct Hw as [Hl' [[e ->]|(c & -> & Hc & H0)]]; [exact I|].
  exact (conj (conj Hf (conj Hp Hl')) (conj Hc H0)).
Qed.

Lemma snapshot_live : triple True live snapshot (fun _ => True) (fun c s => live s /\ 0 <= c <= len data).
Proof.
  intros s (Hf & Hp & Hl). unfold snapshot, observe. destruct (sees s) as [|q later] eqn:E.
  - unfold outcome_of. destruct (failed (settled s)); [exact I|]. split; [|exact Hp].
    split; [done|]. split; [done|]. rewrite E. constructor.
  - apply Forall_cons in Hl as [Hq Hl]. unfold outcome_of. destruct (failed q); [exact I|].
    exact (conj (conj Hf (conj Hp Hl)) Hq).
Qed.

Lemma scan_loop_live fuel scan count :
  scan_valid total (received_bytes padded count) scan -> 0 <= count <= len data -> len data - count < Z.of_nat fuel ->
  triple True live (scan_loop fuel data total scan count) (fun _ => True)
    (fun stop s => live s /\ scan_result padded scan = Ok stop).
Proof.
  revert scan count. induction fuel as [|fuel IH]; intros scan count Hv Hc Hf; [lia|].
  cbn [scan_loop]. rewrite received_padded by lia. unfold scan_result. rewrite padded_len.
  destruct (advance_resumes total Hmax padded padded_len padded_ok (received_bytes padded count) scan
    (received_prefix padded count) Hv) as [Hres Hval].
  destruct (advance (received_bytes padded count) total scan) as [[[e|] scan']|e| |] eqn:Eadv; try done;
    cbn [resumes is_complete fst snd] in Hres; rewrite Hres.
  - apply triple_Ok, triple_ret. by split.
  - apply triple_Ok. cbv beta iota. unfold saturating_add.
    replace (Z.min (count + 1) usize_max) with (count + 1) by bool_lia.
    eapply triple_bind; [apply wait_for_live|]. intros c s1 (Hs1 & Hc1 & H0). cbn [mbind outcome_bind].
    assert (scan_valid total (received_bytes padded c) scan') as Hv'.
    { eapply scan_valid_grow; [|by apply Hval]. apply received_grows. lia. }
    pose proof (IH scan' c Hv' ltac:(lia) ltac:(lia) s1 Hs1) as Hl. unfold scan_result in Hl.
    by rewrite padded_len in Hl.
Qed.

Lemma scan_to_end_live k pos scan :
  0 <= pos -> ListScan_new k pos = Ok scan ->
  triple True live (scan_to_end data total scan) (fun _ => True)
    (fun stop s => live s /\ calculate_array_end_index padded pos k = Ok stop).
Proof.
  intros Hp Hnew. pose proof Hnew as Hnew'. apply scan_type_of_new in Hnew' as [Ht ->].
  eapply triple_bind; [apply snapshot_live|]. intros c s [Hs Hc].
  pose proof (scan_loop_live (scan_fuel data) (MkListScan k pos None None 0) c) as Hl.
  specialize (Hl ltac:(by split; [|split_and!]) Hc ltac:(unfold scan_fuel; lia) s Hs).
  destruct (scan_loop _ _ _ _ _ s) as [[stop|e| |] s']; try done. destruct Hl as [Hs' Hl].
  split; [done|]. unfold calculate_array_end_index. rewrite Hnew. exact Hl.
Qed.

(** The end of one list, and what it encloses. *)
Lemma list_live {A} k pos (f : Z -> proc Scanner A) Q :
  0 <= pos ->
  (forall stop, pos + 5 <= stop <= total -> triple True live (f stop) (fun _ => True) Q) ->
  triple True live (pbind (lift (ListScan_new k pos)) (fun scan => pbind (scan_to_end data total scan) f))
    (fun _ => True) Q.
Proof.
  intros Hp Hf. pose proof (ListScan_new_returns k pos) as Hret.
  destruct (ListScan_new k pos) as [scan|e| |] eqn:Hnew; [|by apply triple_Err|done|done].
  apply triple_Ok. eapply triple_bind; [by eapply scan_to_end_live|]. intros stop s [Hs Hend].
  destruct (array_end_returns padded pos k padded_ok Hp) as [_ Hstop]. specialize (Hstop stop Hend).
  rewrite padded_len in Hstop. exact (Hf stop Hstop s Hs).
Qed.

Lemma wait_then {A} needed (f : Z -> proc Scanner A) Q :
  (forall c, triple True live (f c) (fun _ => True) Q) ->
  triple True live (pbind (wait_for total needed) f) (fun _ => True) Q.
Proof.
  intros Hf. eapply triple_bind; [apply wait_for_live|]. intros c s (Hs & _). exact (Hf c s Hs).
Qed.

(** A step of the sequential kind. *)
Lemma step_then {A B} (r : res A) (f : A -> proc Scanner B) Q :
  ends_with r (fun _ => True) -> (forall a, triple True live (f a) (fun _ => True) Q) ->
  triple True live (pbind (lift r) f) (fun _ => True) Q.
Proof. intros Hr Hf s Hs. unfold pbind, lift. destruct r as [a|e| |]; try done. exact (Hf a s Hs). Qed.

Lemma scan_column_live pos :
  0 <= pos -> triple True live (scan_column data total pos) (fun _ => True) (fun stop s => 0 <= stop <= total /\ live s).
Proof.
  intros Hp. unfold scan_column. apply wait_then. intros c. apply step_then; [apply ends_or_panic|].
  intros k. cbv zeta. apply list_live; [lia|]. intros stop Hstop. apply wait_then. intros c'.
  apply step_then; [apply ends_or_panic|]. intros x s Hs. unfold pbind, spawn, update, pret.
  split; [lia|exact Hs].
Qed.

Lemma scan_all_columns_live n pos :
  0 <= pos -> triple True live (scan_all_columns data total n pos) (fun _ => True) (fun stop s => 0 <= stop /\ live s).
Proof.
  revert pos. induction n as [|n IH]; intros pos Hp; cbn [scan_all_columns].
  - apply triple_ret. by intros.
  - eapply triple_bind; [by apply scan_column_live|]. intros stop. apply triple_pure. intros [? _]. by apply IH.
Qed.

Lemma scan_columns_live `{Chrono} `{!SeriesDecoder Series DataFrame} `{!SeriesDecoderEnds} encoding :
  triple True live (@scan_columns _ Series DataFrame _ data total encoding) (fun _ => True) (fun _ _ => True).
Proof.
  unfold scan_columns. cbv zeta. apply list_live; [done|]. intros stop Hstop. apply wait_then. intros c.
  apply step_then; [apply ends_or_panic|]. intros x. apply step_then; [apply deserialize_series_ends|]. intros v.
  apply step_then; [by destruct v|]. intros s. apply step_then.
  { pose proof (string_names_ends s). by destruct (string_names s). }
  intros names.
  unfold COLUMN_LIST_HEADER. destruct (checked_add stop 6) as [pos|] eqn:Epos; [|by apply triple_Err].
  apply triple_Ok. apply checked_add_forward in Epos; [|unfold TABLE_PREAMBLE in *; lia|done].
  eapply triple_bind; [by apply scan_all_columns_live|]. intros pos'. apply triple_pure. intros Hpos'.
  apply wait_then. intros c'. apply triple_if; intros _; [|by apply triple_ret].
  apply step_then; [apply ends_or_panic|]. intros trailing s' Hs'. exact I.
Qed.
End Live.

(** ** The reader of a receipt that may fail *)

Lemma published_grows data data' p :
  len data <= len data' -> published data p -> published data' p.
Proof. unfold published. lia. Qed.

Lemma read_remaining_total fuel n data history s :
  (stream_size s < fuel)%nat -> len data <= n -> bytes_ok data -> stream_ok s ->
  Forall (published data) history -> last history = Some (MkProgress (len data) false) ->
  let '(r, (data', history', s')) := read_remaining fuel n data history s in
  (r = Ok tt \/ exists e, r = Err e) /\ bytes_ok data' /\ len data' <= n /\ stream_ok s'
  /\ stream_bytes s' <= stream_bytes s
  /\ Forall (published data') history'
  /\ exists p, last history' = Some p /\ final n p /\ published data' p.
Proof.
  revert data history s. induction fuel as [|fuel IH]; intros data history s Hf Hn Hd Hs Hh Hl; [lia|].
  cbn [read_remaining]. destruct (Z.ltb_spec (len data) n) as [Hlt|Hge].
  2: { split_and!; try done; [by left|]. eexists. split_and!; [exact Hl|right; cbn; lia|].
       unfold published. cbn. lia. }
  assert (forall h, Forall (published data) (h ++ [fail (MkProgress (len data) false)]) -> exists p,
    last (h ++ [fail (MkProgress (len data) false)]) = Some p /\ final n p /\ published data p) as Hfail.
  { intros h Hh'. exists (fail (MkProgress (len data) false)). rewrite last_snoc.
    apply Forall_app in Hh' as [_ Hh']. inversion Hh'. split_and!; [done|by left|done]. }
  assert (Forall (published data) (history ++ [fail (MkProgress (len data) false)])) as Hh'.
  { apply Forall_app. split; [done|]. constructor; [|constructor]. unfold published. cbn. lia. }
  pose proof (read_takes (n - len data) s Hs) as Ht. cbv zeta.
  next_read (n - len data) s; cbn [length] in Ht; destruct Ht as [Hs' Ht].
  - split_and!; try done; [right; by eexists|lia|by apply Hfail].
  - destruct Ht as [Hb Ht]. destruct Hread as (Hlen & _ & _ & Hsize). set (got := z :: l) in *.
    unfold publish. cbn [failed].
    assert (len (data ++ got) = len data + len got) as Hlg by (rewrite length_app; lia).
    assert (Forall (published (data ++ got)) (history ++ [MkProgress (len (data ++ got)) false])) as Hp.
    { apply Forall_app. split; [|constructor; [|constructor]].
      - eapply Forall_impl; [exact Hh|]. intros p. apply published_grows. lia.
      - unfold published. cbn. lia. }
    specialize (IH (data ++ got) (history ++ [MkProgress (len (data ++ got)) false]) s' ltac:(lia) ltac:(lia)
      ltac:(by apply Forall_app) Hs' Hp ltac:(by rewrite last_snoc)).
    destruct (read_remaining fuel n (data ++ got) _ s') as [r [[data' history'] s'']].
    destruct IH as (? & ? & ? & ? & Hsum & ? & ?). split_and!; try done. lia.
  - destruct (is_interrupted e).
    + destruct Hread as (_ & _ & Hsize). specialize (IH data history s' ltac:(lia) Hn Hd Hs' Hh Hl). by rewrite Ht in IH.
    + split_and!; try done; [right; by eexists|lia|by apply Hfail].
Qed.

Lemma payload_ok s : stream_ok s -> bytes_ok (payload s).
Proof.
  induction 1 as [|[chunk|e] s Hc Hs IH]; cbn [payload]; [constructor| |].
  - destruct chunk; [constructor|]. by apply Forall_app.
  - destruct (is_interrupted e); [done|constructor].
Qed.

Section Frame.
  Context `{Chrono} {Series DataFrame : Type}.
  Context `{!SeriesDecoder Series DataFrame} `{!SeriesDecoderEnds}.

Lemma receive_table_total schedule n encoding b s :
  fair schedule -> head (buffer_data b) = Some TABLE_TYPE -> n <= buffer_capacity b ->
  bytes_ok (buffer_data b) -> stream_ok s -> len (buffer_data b) <= n -> n <= isize_max ->
  let '(r, s') := @receive_table _ Series DataFrame _ schedule n encoding b s in
  stream_ok s' /\ stream_bytes s' <= stream_bytes s
  /\ match r with Ok decoded => returns decoded | Err _ => True | _ => False end.
Proof.
  intros Hfair Hhead Hcap Hb Hs Hn Hmax.
  set (start := MkProgress (len (buffer_data b)) false).
  pose proof (read_remaining_total (S (stream_size s)) n (buffer_data b) [start] s ltac:(lia) Hn Hb Hs) as Hr.
  specialize (Hr ltac:(constructor; [unfold published; cbn; lia|constructor]) eq_refl).
  assert (let '(r, s') := @receive_table _ Series DataFrame _ schedule n encoding b s in
    stream_ok s' /\ stream_bytes s' <= stream_bytes s) as Hstream.
  { unfold receive_table. destruct (_ || _); [done|]. fold start.
    destruct (read_remaining _ n (buffer_data b) [start] s) as [r [[data history] s']].
    destruct Hr as (_ & _ & _ & Hs' & Hle & _). destruct (scan_columns _ _ _ _) as [scanned scanner].
    destruct scanned, r as [[]| | |]; done. }
  destruct (Z.leb_spec (n - len (buffer_data b)) (len (payload s))) as [Hle|Hgt].
  - destruct (receive_table_spec schedule n encoding b s) as (decoded & s' & Heq & Hret & _); try done.
    { split; [apply Forall_app; split; [done|]; apply Forall_take; by apply payload_ok|].
      rewrite length_app, length_take. lia. }
    rewrite Heq in Hstream |- *. destruct Hstream. by split_and!.
  - destruct (receive_table schedule n encoding b s) as [r s'] eqn:E. split; [apply Hstream|]. split; [apply Hstream|].
    unfold receive_table in E. replace (buffer_capacity b <? n) with false in E by lia.
    rewrite bool_decide_eq_true_2 in E by done. cbn [orb negb] in E. fold start in E.
    pose proof (read_remaining_spec (S (stream_size s)) n (buffer_data b) [start] s ltac:(lia) Hn) as Hfail.
    specialize (Hfail ltac:(constructor; [split; [done|cbn; lia]|constructor]) eq_refl).
    replace (_ <=? len (payload s)) with false in Hfail by lia.
    destruct (read_remaining _ n (buffer_data b) [start] s) as [io [[data history] s1]].
    destruct Hfail as [e0 ->]. destruct Hr as (_ & Hbd & Hdn & _ & _ & Hh & p & Hp & Hfin & Hpub). rewrite Hp in E.
    change (default start (Some p)) with p in E.
    assert (live data n (MkScanner (observations schedule history) p [])) as Hlive.
    { split; [done|]. split; [done|]. destruct Hfair as [Hobs _]. rewrite Forall_forall in Hh |- *.
      intros q Hq. apply Hh. by apply Hobs. }
    pose proof (scan_columns_live data n Hbd Hdn Hmax encoding _ Hlive) as Hscan.
    destruct (scan_columns data n encoding _) as [scanned scanner].
    destruct scanned; try done; by injection E as <- <-.
Qed.

(** ** The frame *)

Context `{Allocator}.

(** What the decoding of a received body relies on. *)
Definition body_ready (w : Wire) (body : IpcBody Series DataFrame) : Prop :=
  match body with
  | Retained => slice_ok (buffer_data (wire_buffer w))
  | Decompressed d => slice_ok d
  | Decoded v => returns v
  end.

Definition arrived (b : Buffer) (D taken : Z) (w : Wire) : Prop :=
  wire_buffer w = b /\ stream_ok (wire_stream w) /\ taken + stream_bytes (wire_stream w) <= D.

Lemma arrived_within b C D taken w :
  0 <= buffer_capacity b <= C -> 0 <= taken -> arrived b D taken w -> within C D w.
Proof.
  intros Hc Ht (Hb & Hs & HD). unfold within, BODY_RESERVATION_FACTOR. rewrite Hb. split; [done|lia].
Qed.

Lemma read_exact_total b D taken n :
  0 <= n ->
  triple False (arrived b D taken) (from_io (read_exact n)) (arrived b D taken)
    (fun x w => bytes_ok x /\ len x = n /\ arrived b D (taken + n) w).
Proof.
  intros Hn [s b'] (Hb & Hs & HD). cbn [wire_buffer wire_stream] in *. subst b'.
  unfold from_io, zoom. cbn [wire_stream].
  pose proof (read_exact_spec n s Hn) as Hspec.
  pose proof (read_exact_loop_takes (S (stream_size s)) n [] s Hs ltac:(constructor)) as Ht.
  unfold read_exact in *. destruct (read_exact_loop _ n [] s) as [r s']. cbn [length] in Ht.
  destruct Ht as (Hs' & Hle & Hx). unfold arrived, set_stream. cbn [wire_buffer wire_stream].
  destruct (Z.leb_spec n (len (payload s))).
  - destruct Hspec as (-> & _). cbn [map_err]. destruct Hx as [Hx1 Hx2].
    rewrite length_take in Hx2 |- *. split_and!; [done|lia|done|done|lia].
  - rewrite Hspec. cbn [map_err]. split_and!; [done|done|lia].
Qed.

Lemma triple_from {A} (P : Wire -> Prop) (r : res A) (I : Wire -> Prop) (Q : A -> Wire -> Prop) :
  returns r -> (forall w, P w -> I w) -> (forall a w, P w -> r = Ok a -> Q a w) -> triple False P (lift r) I Q.
Proof. intros Hr HI HQ. apply triple_lift; [by destruct r|by destruct r|done|done]. Qed.

Lemma read_header_total b D :
  triple False (arrived b D 0) read_header (arrived b D 0) (fun h w => header_wf h /\ arrived b D 8 w).
Proof.
  unfold read_header. eapply triple_bind; [by apply read_exact_total|]. intros x.
  apply triple_pure. intros Hx. apply triple_pure. intros _. apply triple_from.
  - by apply parse_header_returns.
  - intros w (? & ? & ?). split_and!; [done|done|unfold IPC_HEADER_LENGTH in *; lia].
  - intros h w Hw Hp. split; [by eapply parsed_header_wf|exact Hw].
Qed.

Lemma enforce_message_bound_returns n max : returns (enforce_message_bound n max).
Proof. destruct (enforce_message_bound_cases n max) as [->|[e ->]]; done. Qed.

Lemma read_prefix_total h n max b D :
  header_wf h ->
  triple False (arrived b D 0) (read_prefix h n max) (arrived b D 0)
    (fun prefix w => bytes_ok prefix /\ len prefix <= 8 /\ len prefix <= n /\ arrived b D (len prefix) w).
Proof.
  intros (_ & Hm & _).
  unfold read_prefix. eapply (triple_bind _ _ _ _ _ (fun pl w => (0 <= pl <= 8) /\ arrived b D 0 w)).
  { apply triple_from; [|done|].
    - destruct (Z.eqb_spec (compression_mode h) 0).
      { pose proof (enforce_message_bound_returns (total_length h) max). by destruct (enforce_message_bound _ _). }
      destruct (_ =? 1) eqn:?; [done|]. by replace (compression_mode h =? 2) with true by lia.
    - intros pl w Hw Hpl. split; [|done].
      repeat (case_match; try done; try (injection Hpl as <-; lia)).
      destruct (enforce_message_bound _ _); [|done..]. cbn in Hpl. injection Hpl as <-. lia. }
  intros pl. apply triple_pure. intros Hpl.
  apply triple_if; intros Hlt; [intros w Hw; exact Hw|].
  apply triple_if; intros Hpos.
  2: { apply triple_ret. intros w Hw. split_and!; [constructor|cbn; lia|cbn; lia|exact Hw]. }
  eapply triple_bind; [apply (read_exact_total b D 0); lia|].
  intros prefix. apply triple_pure. intros Hx. apply triple_pure. intros Hlen.
  assert (forall w, arrived b D (0 + pl) w -> arrived b D 0 w) as Hless'
    by (intros w (? & ? & ?); split_and!; [done|done|lia]).
  eapply triple_bind; [apply triple_from; [apply compressed_message_length_returns|exact Hless'|intros a w Hw _; exact Hw]|].
  intros [d pl']. eapply triple_bind; [apply triple_from; [apply enforce_message_bound_returns|exact Hless'|intros a w Hw _; exact Hw]|].
  intros []. eapply triple_bind; [apply triple_from; [apply physical_bound_returns|exact Hless'|intros a w Hw _; exact Hw]|].
  intros []. apply triple_ret. intros w Hw. split_and!; [done|lia|lia|]. by rewrite Hlen.
Qed.

Lemma prepare_ready h body max C D w :
  header_wf h -> slice_ok body -> within C D w -> buffer_data (wire_buffer w) = body ->
  returns (prepare_ipc_body h (Borrowed body) max)
  /\ forall m prepared, prepare_ipc_body h (Borrowed body) max = Ok (m, prepared) ->
       body_ready w (match prepared with Borrowed _ => Retained | Owned d => Decompressed d end).
Proof.
  intros Hw Hok Hin Hd. destruct (prepare_bounded h body max Hok Hw) as [Hret Hp]. split; [done|].
  intros m prepared Hprep. destruct (Hp m prepared Hprep) as (_ & Hlen & _ & Hcow).
  destruct prepared as [x|x]; cbn [body_ready]; [by rewrite Hd|]. destruct Hcow as (_ & Hdec & Hlx).
  destruct Hw as (_ & _ & Ht). unfold MAX_IPC_LENGTH_FIELD in Ht.
  assert (slice_ok (replicate (length x) 0)) as Hz.
  { split; [|rewrite length_replicate; bool_lia]. apply Forall_replicate. unfold is_byte. lia. }
  destruct (decompress_ok body _ (mode_prefix (compression_mode h)) Hok Hz) as [_ Hx].
  destruct (Hx x Hdec) as (_ & Hb & _). split; [done|]. bool_lia.
Qed.

Lemma read_body_total h n max C D :
  header_wf h -> n = total_length h - 8 ->
  triple False (fun w => grown C D w /\ len (buffer_data (wire_buffer w)) <= n) (read_body h n max) (within C D)
    (fun r w => within C D w /\ body_ready w (snd r)).
Proof.
  intros Hw Hn w [Hg Hl]. pose proof Hw as (_ & _ & Ht). unfold MAX_IPC_LENGTH_FIELD in Ht.
  unfold read_body, pbind at 1, read_message_body.
  pose proof (payload_size (wire_stream w)) as Hsize.
  pose proof (body_loop_total (S (S (stream_size (wire_stream w)))) n C D w Hg ltac:(bool_lia) ltac:(lia)) as Hloop.
  destruct (body_loop _ n w) as [r w1]. destruct Hloop as (Hr & Hg1 & Hl1).
  destruct r as [[]|e| |]; try done; [|by apply grown_within].
  unfold pbind, buffer_of, lift, pret.
  assert (slice_ok (buffer_data (wire_buffer w1))) as Hok
    by (destruct Hg1 as (_ & _ & _ & _ & Hb & _); split; [done|bool_lia]).
  destruct (prepare_ready h _ max C D w1 Hw Hok (grown_within _ _ _ Hg1) eq_refl) as [Hret Hready].
  destruct (prepare_ipc_body h (Borrowed (buffer_data (wire_buffer w1))) max) as [[m prepared]|e| |]; try done;
    [|by apply grown_within].
  split; [by apply grown_within|]. exact (Hready m prepared eq_refl).
Qed.

Lemma reserve_total n c b :
  0 <= buffer_capacity b <= isize_max -> 0 < n <= isize_max ->
  match reserve_buffer (clear_buffer b) n c with
  | Ok b' => buffer_data b' = [] /\ n <= buffer_capacity b' <= isize_max
      /\ buffer_capacity b' <= Z.max (buffer_capacity b) n
  | Err _ => True
  | _ => False
  end.
Proof.
  intros Hb Hn. unfold reserve_buffer, clear_buffer. cbn [buffer_data buffer_capacity length].
  change (negb (Z.of_nat 0 =? 0)) with false. cbv iota.
  destruct (Z.leb_spec n (buffer_capacity b)); [cbn [buffer_data buffer_capacity]; split_and!; [done|lia..]|].
  unfold try_reserve_exact. cbn [buffer_data buffer_capacity length].
  replace (n <=? _) with false by lia.
  unfold reserve. destruct (try_reserve n); cbn [mbind outcome_bind buffer_data buffer_capacity]; [|done].
  split_and!; [done|lia..].
Qed.

(** A frame is received or refused, within the memory that what arrived calls for. *)
Lemma read_ipc_body_total schedule max pipeline s b :
  fair schedule -> stream_ok s -> 0 <= buffer_capacity b <= isize_max ->
  let C := Z.max (buffer_capacity b) INITIAL_BODY_RESERVATION in
  triple False (fun w => w = MkWire s b)
    (@read_ipc_body _ _ Series DataFrame _ schedule max pipeline) (within C (stream_bytes s))
    (fun r w => within C (stream_bytes s) w /\ stream_bytes (wire_stream w) + 8 <= stream_bytes s
      /\ body_ready w (snd r)).
Proof.
  intros Hfair Hs Hb C. set (D := stream_bytes s - 8).
  assert (forall taken w, 0 <= taken -> arrived b D taken w -> within C D w) as Harr
    by (intros taken w Ht Hw; apply (arrived_within b C D taken); [unfold C; lia|done..]).
  assert (forall w, within C D w -> within C (stream_bytes s) w) as Hmono
    by (intros w (? & ? & ?); split; [done|]; unfold D, BODY_RESERVATION_FACTOR in *; lia).
  unfold read_ipc_body. eapply triple_bind.
  { eapply triple_weaken; [apply (read_header_total b (stream_bytes s))| | |intros a w Hw; exact Hw].
    - intros w ->. split_and!; [done|done|cbn [wire_stream]; lia].
    - intros w Hw. apply (arrived_within b C (stream_bytes s) 0); [unfold C; lia|done..]. }
  intros h. eapply (triple_weaken _ (fun w => header_wf h /\ arrived b D 0 w) _ _ (within C D) _
    (fun r w => within C D w /\ body_ready w (snd r))).
  2: { intros w (? & ? & ? & ?). split; [done|]. split_and!; [done|done|unfold D; lia]. }
  2: exact Hmono.
  2: { intros r w [Hin Hready]. split; [by apply Hmono|]. split; [|done]. destruct Hin as (_ & ? & _). unfold D in *. lia. }
  apply triple_pure. intros Hw. pose proof Hw as (Hk & _ & Ht).
  unfold IPC_HEADER_LENGTH, MIN_SERIALIZED_VALUE_LENGTH, MAX_IPC_LENGTH_FIELD in Ht.
  rewrite checked_body_length_Ok by bool_lia. apply triple_Ok. set (n := total_length h - 8).
  eapply triple_bind.
  { eapply triple_weaken; [apply (read_prefix_total h n max b D Hw)|done|intros w; by apply Harr|intros a w Hx; exact Hx]. }
  intros prefix. do 3 (apply triple_pure; intros ?). intros w (Hwb & Hws & HwD).
  unfold pbind at 1, on_buffer at 1, set_buffer. rewrite Hwb. unfold pbind at 1, on_buffer at 1. cbn [wire_buffer wire_stream].
  pose proof (reserve_total (Z.max (Z.min n INITIAL_BODY_RESERVATION) (len prefix)) "IPC message body" b Hb) as Hres.
  unfold INITIAL_BODY_RESERVATION in *. specialize (Hres ltac:(unfold n; bool_lia)).
  destruct (reserve_buffer (clear_buffer b) _ _) as [b1|e| |]; try done.
  2: { unfold within, BODY_RESERVATION_FACTOR, C. cbn [wire_stream wire_buffer clear_buffer buffer_capacity].
       split; [done|lia]. }
  destruct b1 as [d1 cap]. cbn [buffer_data buffer_capacity] in Hres. destruct Hres as (-> & Hcap & HC).
  unfold pbind at 1, on_buffer at 1, set_buffer. cbn [wire_buffer wire_stream].
  unfold extend_buffer. cbn [buffer_data buffer_capacity app length]. rewrite Z.max_l by lia.
  unfold pbind at 1, buffer_of. cbn [wire_buffer].
  assert (grown C D (MkWire (wire_stream w) (MkBuffer prefix cap)) /\ len prefix <= n) as [Hg Hln].
  { split; [|done]. unfold grown, buffer_ok, BODY_RESERVATION_FACTOR, C. cbn [wire_buffer wire_stream buffer_data buffer_capacity].
    split_and!; try done; unfold n in *; bool_lia. }
  destruct (pipelined pipeline prefix n (MkBuffer prefix cap)) as [encoding|] eqn:Epipe.
  2: { apply read_body_total; [done|done|by split]. }
  unfold pipelined in Epipe. cbn [buffer_capacity] in Epipe.
  destruct (_ && _) eqn:Econd in Epipe; [|done]. split_andb.
  assert (prefix = []) as -> by (destruct prefix; [done|cbn in *; lia]).
  unfold pbind at 1, read_some. cbn [wire_buffer wire_stream buffer_data buffer_capacity].
  pose proof (some_loop_total (S (stream_size (wire_stream w))) (Z.min (cap - Z.of_nat 0) (n - Z.of_nat 0)) C D
    (wire_stream w) [] cap ltac:(cbn; lia) ltac:(cbn; lia) ltac:(lia) Hg) as Hsome.
  destruct (some_loop _ _ _) as [[[]|e| |] w1]; try done. destruct Hsome as (Hg1 & Hl1 & Hc1).
  unfold pbind at 1, buffer_of. cbn [length] in Hl1.
  destruct (get_at_is_Some (buffer_data (wire_buffer w1)) 0 ltac:(lia)) as [first Hfirst]. rewrite Hfirst.
  unfold pbind at 1, lift at 1. cbn [or_panic].
  destruct (_ && _) eqn:Etab.
  2: { apply read_body_total; [done|done|]. split; [exact Hg1|lia]. }
  split_andb. destruct (message_type_is_Ok _ Hk) as [mt Hmt]. rewrite Hmt. unfold pbind at 1, lift at 1.
  unfold pbind, zoom. pose proof Hg1 as (Hb1 & Hcap1 & HC1 & HD1 & Hbd1 & Hs1).
  pose proof (receive_table_total schedule n encoding (wire_buffer w1) (wire_stream w1) Hfair) as Ht1.
  specialize (Ht1 ltac:(destruct (buffer_data (wire_buffer w1)) as [|z l]; [done|]; rewrite get_at_cons0 in Hfirst;
    injection Hfirst as ->; cbn; f_equal; lia) ltac:(lia) Hbd1 Hs1 ltac:(lia) ltac:(unfold n; bool_lia)).
  destruct (receive_table _ _ _ _ _) as [r s2]. destruct Ht1 as (Hs2 & Hle2 & Hr).
  assert (within C D (set_stream s2 w1)) as Hin.
  { unfold within, set_stream, BODY_RESERVATION_FACTOR in *. cbn [wire_stream wire_buffer]. split; [done|lia]. }
  destruct r as [decoded|e| |]; try done.
Qed.
End Frame.

(** ** ReceiveSpec: what receiving a frame guarantees *)

#[local] Existing Instance unlimited.

(** C2: a frame is received exactly, however its bytes are cut into reads and
    whatever interrupts them, and whatever the interleaving of reader, scanner and
    column tasks.  The outcome is that of [prepare_ipc_body] on the whole body; on
    success the stream stands at the first byte after the frame, and a table that was
    decoded while it arrived is the table the sequential decoder reads, or an error
    where that is an error. *)
Theorem read_frame_exact `{Chrono} `{!SeriesDecoder Series DataFrame} `{!SeriesDecoderEnds}
    (schedule : Schedule) (max : option Z) (pipeline : option SymbolEncoding) (h : ParsedIpcHeader)
    (body rest : list Z) (s : stream) (b : Buffer) :
  fair schedule -> header_wf h -> len body = total_length h - 8 -> slice_ok body ->
  0 <= buffer_capacity b <= isize_max -> payload s = encode_header h ++ body ++ rest ->
  let result := @read_ipc_body unlimited _ Series DataFrame _ schedule max pipeline (MkWire s b) in
  match @prepare_ipc_body unlimited h (Borrowed body) max with
  | Ok (m, prepared) =>
    exists r w, result = (Ok (m, r), w)
      /\ payload (wire_stream w) = rest /\ ending (wire_stream w) = ending s
      /\ match r with
         | Retained => prepared = Borrowed (buffer_data (wire_buffer w))
         | Decompressed d => prepared = Owned d
         | Decoded v => prepared = Borrowed body /\ exists encoding, pipeline = Some encoding
             /\ agrees v (Deserialize.deserialize body encoding)
         end
  | Err _ => exists e w, result = (Err e, w)
  | _ => False
  end.
Proof.
  intros Hfair Hw Hl Hok Hb Hp result.
  exact (read_frame_spec schedule max pipeline h body rest s b Hfair Hw Hl Hok Hb Hp).
Qed.

(** C22: receiving always comes to an end.  Whatever the stream holds (a truncated
    frame, a failure in the middle, bytes that are no q frame), whatever the allocator
    refuses and however reader, scanner and tasks interleave, the receipt is a frame or
    an error: no wait of the scanner is left without the reader publishing more or
    giving up, no loop starves, and nothing panics. *)
Theorem receipt_ends `{Allocator} `{Chrono} `{!SeriesDecoder Series DataFrame} `{!SeriesDecoderEnds}
    (schedule : Schedule) (max : option Z) (pipeline : option SymbolEncoding) (s : stream) (b : Buffer) :
  fair schedule -> stream_ok s -> 0 <= buffer_capacity b <= isize_max ->
  let '(r, w) := @read_ipc_body _ _ Series DataFrame _ schedule max pipeline (MkWire s b) in
  returns r /\ forall m v, r = Ok (m, Decoded v) -> returns v.
Proof.
  intros Hfair Hs Hb.
  pose proof (read_ipc_body_total schedule max pipeline s b Hfair Hs Hb (MkWire s b) eq_refl) as Ht.
  destruct (read_ipc_body schedule max pipeline (MkWire s b)) as [[[m body]|e| |] w]; try done.
  split; [done|]. intros m' v [= -> ->]. exact (proj2 (proj2 Ht)).
Qed.

(** C24: a length a peer only declares reserves no memory.  After any receipt,
    successful or not, the receive buffer holds no more than it did, or the initial
    reservation, or eight times the bytes that were taken from the stream. *)
Theorem reservation_bounded `{Allocator} `{Chrono} `{!SeriesDecoder Series DataFrame} `{!SeriesDecoderEnds}
    (schedule : Schedule) (max : option Z) (pipeline : option SymbolEncoding) (s : stream) (b : Buffer) :
  fair schedule -> stream_ok s -> 0 <= buffer_capacity b <= isize_max ->
  let '(_, w) := @read_ipc_body _ _ Series DataFrame _ schedule max pipeline (MkWire s b) in
  let taken := stream_bytes s - stream_bytes (wire_stream w) in
  0 <= taken
  /\ buffer_capacity (wire_buffer w)
     <= Z.max (Z.max (buffer_capacity b) INITIAL_BODY_RESERVATION) (BODY_RESERVATION_FACTOR * taken).
Proof.
  intros Hfair Hs Hb.
  pose proof (read_ipc_body_total schedule max pipeline s b Hfair Hs Hb (MkWire s b) eq_refl) as Ht.
  destruct (read_ipc_body schedule max pipeline (MkWire s b)) as [[a|e| |] w]; try done;
    [destruct Ht as [Ht _]|]; destruct Ht as (_ & Hle & Hcap); (split; [lia|exact (proj2 Hcap)]).
Qed.

(** Everything that was published is seen, and the tasks report in order. *)
Definition in_order : Schedule := MkSchedule id (fun n => seq 0 n).

Lemma in_order_fair : fair in_order.
Proof. split; [by intros ? ?|done]. Qed.

(** A two-byte body, cut into single bytes with an interruption, and a byte after it. *)
Definition cut_frame : stream :=
  [Data [1; 2]; Failure (IoError Interrupted ""); Data [0; 0; 10]; Data [0; 0; 0; 101]; Data [0; 7]].

Lemma read_frame_exact_witness :
  payload cut_frame = encode_header (MkHeaderFields 2 0 10) ++ [101; 0] ++ [7]
  /\ exists r w, @read_ipc_body unlimited _ SampleSeries (list SampleSeries) _ in_order None (Some Strict)
       (MkWire cut_frame new_buffer) = (Ok (Response, r), w) /\ payload (wire_stream w) = [7].
Proof.
  assert (payload cut_frame = encode_header (MkHeaderFields 2 0 10) ++ [101; 0] ++ [7]) as Hp by reflexivity.
  assert (header_wf (MkHeaderFields 2 0 10)) as Hw
    by (unfold header_wf, IPC_HEADER_LENGTH, MIN_SERIALIZED_VALUE_LENGTH, MAX_IPC_LENGTH_FIELD; cbn; lia).
  assert (slice_ok [101; 0]) as Hok by (split; [by repeat constructor|by vm_compute]).
  assert (0 <= buffer_capacity new_buffer <= isize_max) as Hb by (split; discriminate).
  split; [exact Hp|].
  destruct (read_frame_exact (Series := SampleSeries) (DataFrame := list SampleSeries)
    in_order None (Some Strict) (MkHeaderFields 2 0 10) [101; 0] [7] cut_frame new_buffer in_order_fair Hw
    eq_refl Hok Hb Hp) as (r & w & Hr & Hrest & _).
  by exists r, w.
Defined.

(** The header of a table of 32 GiB, its first byte, and a reset connection. *)
Definition broken_table : stream :=
  [Data ([1; 2; 0; 8] ++ [0; 0; 0; 0]); Data [98]; Failure (IoError OtherKind "connection reset")].

Lemma broken_table_ok : stream_ok broken_table.
Proof. by repeat constructor. Qed.

Lemma receipt_ends_witness :
  returns (fst (@read_ipc_body exhausted _ SampleSeries (list SampleSeries) _ in_order None (Some Strict)
    (MkWire broken_table new_buffer))).
Proof.
  assert (0 <= buffer_capacity new_buffer <= isize_max) as Hb by (split; discriminate).
  pose proof (@receipt_ends exhausted _ SampleSeries (list SampleSeries) _ _ in_order None (Some Strict)
    broken_table new_buffer in_order_fair broken_table_ok Hb) as H.
  destruct (read_ipc_body _ _ _ _) as [r w]. exact (proj1 H).
Defined.

Lemma reservation_bounded_witness :
  buffer_capacity (wire_buffer (snd (@read_ipc_body unlimited _ SampleSeries (list SampleSeries) _ in_order None
    (Some Strict) (MkWire broken_table new_buffer)))) <= INITIAL_BODY_RESERVATION.
Proof.
  assert (0 <= buffer_capacity new_buffer <= isize_max) as Hb by (split; discriminate).
  pose proof (@reservation_bounded unlimited _ SampleSeries (list SampleSeries) _ _ in_order None (Some Strict)
    broken_table new_buffer in_order_fair broken_table_ok Hb) as H.
  destruct (read_ipc_body _ _ _ _) as [r w]. destruct H as [H0 H]. cbn [snd].
  pose proof (stream_bytes_nonneg (wire_stream w)) as Hn.
  change (stream_bytes broken_table) with 9 in *. unfold new_buffer, INITIAL_BODY_RESERVATION, BODY_RESERVATION_FACTOR in *.
  cbn [buffer_capacity] in H. lia.
Defined.
