(* ===== verification/Aborting.v ===== *)
(** * Aborting: interrupting a connector from another thread
    ([ConnectorAbortHandle] and [ActiveIoGuard] of [crates/xqdb/src/connector.rs])

    One mutex guards the state, so every operation below is one atomic step; the
    socket is a handle whose shutdown is reported as an effect. *)

From stdpp Require Import prelude.
From Stdlib Require Import ZArith Lia ZifyBool.
From S2P Require Import Prelude Errors.

(** The handle of a socket. *)
Abbreviation socket := nat.

Record AbortOperation : Type := MkAbortOperation {
  op_id : Z;
  op_stream : option socket
}.

Record AbortState : Type := MkAbortState {
  active_operation : option AbortOperation;
  next_operation_id : Z
}.

Definition AbortState_default : AbortState := MkAbortState None 0.

(** [u64::wrapping_add(1)]. *)
Definition wrapping_succ (id : Z) : Z := unsigned 64 (id + 1).

(** A new operation replaces whatever was active; the guard is its identifier. *)
Definition begin_operation (s : AbortState) : AbortState * Z :=
  let id := next_operation_id s in
  (MkAbortState (Some (MkAbortOperation id None)) (wrapping_succ id), id).

(** Whether the operation of the guard is still the active one. *)
Definition is_active (s : AbortState) (id : Z) : bool :=
  match active_operation s with Some operation => op_id operation =? id | None => false end.

(** [attach_stream]: whether the stream was attached, and the socket shut down when it
    was not. *)
Definition attach_stream (s : AbortState) (id : Z) (stream : socket)
    : AbortState * bool * option socket :=
  if is_active s id then
    (MkAbortState (Some (MkAbortOperation id (Some stream))) (next_operation_id s), true, None)
  else (s, false, Some stream).

(** [finish]: whether the operation was aborted. *)
Definition finish (s : AbortState) (id : Z) : AbortState * bool :=
  if is_active s id then (MkAbortState None (next_operation_id s), false) else (s, true).

(** Dropping the guard. *)
Definition drop_guard (s : AbortState) (id : Z) : AbortState :=
  if is_active s id then MkAbortState None (next_operation_id s) else s.

(** What [stream.shutdown(Shutdown::Both)] answers for a socket. *)
Definition shutdown_result : Type := socket -> outcome io_error unit.

(** [active_operation.take()]: all that [abort] does to the state. *)
Definition take_active (s : AbortState) : AbortState := MkAbortState None (next_operation_id s).

(** [abort]: takes the active operation and shuts its stream down, on a platform where
    the shutdown wakes a blocked read. *)
Definition abort (shutdown : shutdown_result) (s : AbortState) : AbortState * option socket * res unit :=
  let s' := take_active s in
  match active_operation s with
  | Some (MkAbortOperation _ (Some stream)) =>
    (s', Some stream,
     match shutdown stream with
     | Ok _ => Ok tt
     | Err error =>
       match kind error with NotConnected => Ok tt | _ => Err (IOError error) end
     | Panicked => Panicked
     | OutOfFuel => OutOfFuel
     end)
  | _ => (s', None, Ok tt)
  end.

(** ** What interrupting a connector guarantees

    The calls of the connector and of the threads that hold its abort handle, in any
    interleaving: each is one atomic step. *)

Inductive abort_event : Type :=
| Begins
| Attaches (id : Z) (stream : socket)
| Finishes (id : Z)
| Drops (id : Z)
| Aborts.

Definition step (shutdown : shutdown_result) (s : AbortState) (e : abort_event) : AbortState :=
  match e with
  | Begins => fst (begin_operation s)
  | Attaches id stream => fst (fst (attach_stream s id stream))
  | Finishes id => fst (finish s id)
  | Drops id => drop_guard s id
  | Aborts => fst (fst (abort shutdown s))
  end.

Definition run (shutdown : shutdown_result) : AbortState -> list abort_event -> AbortState :=
  foldl (step shutdown).

(** An event after which the operation [id] is no longer the active one. *)
Definition ends_operation (id : Z) (e : abort_event) : bool :=
  match e with
  | Begins | Aborts => true
  | Finishes id' | Drops id' => id' =? id
  | Attaches _ _ => false
  end.

(** How many operations begin. *)
Definition begun (e : abort_event) : nat := match e with Begins => 1 | _ => 0 end.
Definition begins (t : list abort_event) : nat := foldr (fun e n => begun e + n)%nat 0%nat t.

(** The socket that an operation attached last. *)
Definition attached (id : Z) (o : option socket) (e : abort_event) : option socket :=
  match e with Attaches id' stream => if id' =? id then Some stream else o | _ => o end.
Definition last_attached (id : Z) (t : list abort_event) : option socket := foldl (attached id) None t.

(** ** Identifiers are fresh for 2^64 operations *)

(** [k] operations after [id] got its identifier. *)
Definition issued (id : Z) (k : nat) (s : AbortState) : Prop :=
  next_operation_id s = (id + 1 + Z.of_nat k) mod 2 ^ 64.

Lemma wrapping_succ_mod z k : wrapping_succ ((z + k) mod 2 ^ 64) = (z + (k + 1)) mod 2 ^ 64.
Proof. unfold wrapping_succ, unsigned. rewrite Zplus_mod_idemp_l. f_equal. lia. Qed.

Lemma is_active_None s id : active_operation s = None -> is_active s id = false.
Proof. intros H. unfold is_active. by rewrite H. Qed.

Ltac by_activity :=
  repeat match goal with
  | |- context [is_active ?s ?id] => destruct (is_active s id) eqn:?
  end.

Lemma step_issued shutdown id k s e :
  issued id k s -> issued id (k + begun e)%nat (step shutdown s e).
Proof.
  unfold issued. intros H. destruct e; cbn [begun step]; unfold drop_guard, finish, attach_stream, abort;
    try (rewrite Nat.add_0_r; by_activity; done).
  - cbn. rewrite H, wrapping_succ_mod. f_equal. lia.
  - rewrite Nat.add_0_r. by destruct (active_operation s) as [[? []]|].
Qed.

(** Whether [id] is active afterwards, for the events of fewer than 2^64 operations. *)
Lemma step_inactive shutdown id k s e :
  0 <= id < 2 ^ 64 -> issued id k s -> Z.of_nat k + 1 < 2 ^ 64 -> is_active s id = false ->
  is_active (step shutdown s e) id = false.
Proof.
  intros Hid Hk Hlt Hs. destruct e as [|id' str|id'|id'|]; cbn; unfold drop_guard, finish, attach_stream, abort.
  - unfold begin_operation, is_active. cbn. rewrite Hk. apply Z.eqb_neq. intros Heq.
    replace (id + 1 + Z.of_nat k) with (id + (Z.of_nat k + 1)) in Heq by lia.
    destruct (Z.lt_ge_cases (id + (Z.of_nat k + 1)) (2 ^ 64)).
    + rewrite Z.mod_small in Heq by lia. lia.
    + rewrite <- (Z.mod_add _ (-1)) in Heq by lia. rewrite Z.mod_small in Heq by lia. lia.
  - destruct (is_active s id') eqn:E; [|done]. unfold is_active in *. cbn.
    destruct (active_operation s) as [[i o]|]; [|done]. cbn in *. lia.
  - by destruct (is_active s id').
  - by destruct (is_active s id').
  - by destruct (active_operation s) as [[? []]|].
Qed.

(** The state while [id] is active: its operation, and the socket it attached. *)
Definition active_with (id : Z) (o : option socket) (s : AbortState) : Prop :=
  active_operation s = Some (MkAbortOperation id o).

Lemma step_active shutdown id o s e :
  active_with id o s -> ends_operation id e = false ->
  active_with id (attached id o e) (step shutdown s e).
Proof.
  unfold active_with. intros Hs He.
  assert (forall id', is_active s id' = (id =? id')) as Hact by (intros; unfold is_active; by rewrite Hs).
  destruct e as [|id' str|id'|id'|]; try done; cbn in He |- *;
    unfold drop_guard, finish, attach_stream; rewrite Hact.
  - destruct (Z.eqb_spec id id') as [->|Hne]; [by rewrite Z.eqb_refl|].
    by replace (id' =? id) with false by lia.
  - by replace (id =? id') with false by lia.
  - by replace (id =? id') with false by lia.
Qed.

Lemma step_ended shutdown id o k s e :
  0 <= id < 2 ^ 64 -> issued id k s -> Z.of_nat k + 1 < 2 ^ 64 ->
  active_with id o s -> ends_operation id e = true -> is_active (step shutdown s e) id = false.
Proof.
  intros Hid Hk Hlt Hs He.
  assert (forall id', is_active s id' = (id =? id')) as Hact by (intros; unfold is_active; by rewrite Hs).
  destruct e as [|id' str|id'|id'|]; try done; cbn in He |- *; unfold drop_guard, finish, abort; try rewrite Hact.
  - unfold begin_operation, is_active. cbn. rewrite Hk. apply Z.eqb_neq. intros Heq.
    replace (id + 1 + Z.of_nat k) with (id + (Z.of_nat k + 1)) in Heq by lia.
    destruct (Z.lt_ge_cases (id + (Z.of_nat k + 1)) (2 ^ 64)).
    + rewrite Z.mod_small in Heq by lia. lia.
    + rewrite <- (Z.mod_add _ (-1)) in Heq by lia. rewrite Z.mod_small in Heq by lia. lia.
  - by replace (id =? id') with true by lia.
  - by replace (id =? id') with true by lia.
  - by rewrite Hs; destruct o.
Qed.

(** ** Traces *)

Section Trace.
  Context (shutdown : shutdown_result) (id : Z) (Hid : 0 <= id < 2 ^ 64).

Lemma run_inactive k s t :
  issued id k s -> Z.of_nat (k + begins t) + 1 < 2 ^ 64 -> is_active s id = false ->
  is_active (run shutdown s t) id = false.
Proof.
  revert k s. induction t as [|e t IH]; intros k s Hk Hlt Hs; [done|].
  change (begins (e :: t)) with (begun e + begins t)%nat in Hlt.
  change (run shutdown s (e :: t)) with (run shutdown (step shutdown s e) t).
  apply (IH (k + begun e)%nat); [by apply step_issued|lia|].
  eapply step_inactive; [done|exact Hk|lia|done].
Qed.

(** Either the operation is still active, with the socket it attached last, or an event
    ended it. *)
Lemma run_active k s t o :
  issued id k s -> Z.of_nat (k + begins t) + 1 < 2 ^ 64 -> active_with id o s ->
  if existsb (ends_operation id) t then is_active (run shutdown s t) id = false
  else active_with id (foldl (attached id) o t) (run shutdown s t).
Proof.
  revert k s o. induction t as [|e t IH]; intros k s o Hk Hlt Hs; [done|].
  change (begins (e :: t)) with (begun e + begins t)%nat in Hlt.
  cbn [existsb]. change (run shutdown s (e :: t)) with (run shutdown (step shutdown s e) t).
  change (foldl (attached id) o (e :: t)) with (foldl (attached id) (attached id o e) t).
  destruct (ends_operation id e) eqn:He; cbn [orb].
  - apply (run_inactive (k + begun e)%nat); [by apply step_issued|lia|].
    eapply step_ended; [done|exact Hk|lia|done..].
  - apply (IH (k + begun e)%nat); [by apply step_issued|lia|].
    by apply step_active.
Qed.
End Trace.

(** C38: whatever other operations and threads do between the beginning and the end of
    an operation, and even if identifiers wrap around, [finish] reports the operation
    as aborted exactly when its handle was aborted, it ended before, or a newer
    operation began, as long as fewer than 2^64 operations began in between. *)
Theorem finish_reports_abort (shutdown : shutdown_result) (s : AbortState) (t : list abort_event) :
  0 <= next_operation_id s < 2 ^ 64 -> Z.of_nat (begins t) + 1 < 2 ^ 64 ->
  let '(begun, id) := begin_operation s in
  snd (finish (run shutdown begun t) id) = existsb (ends_operation id) t.
Proof.
  intros Hs Hlt. destruct (begin_operation s) as [s1 id] eqn:E. injection E as <- <-.
  set (id := next_operation_id s) in *.
  pose proof (run_active shutdown id Hs 0 (MkAbortState (Some (MkAbortOperation id None)) (wrapping_succ id))
    t None) as Hrun.
  specialize (Hrun ltac:(unfold issued, wrapping_succ, unsigned; cbn; f_equal; lia) Hlt eq_refl).
  unfold finish. destruct (existsb _ _); [by rewrite Hrun|].
  unfold is_active. by rewrite Hrun, Z.eqb_refl.
Qed.

(** Aborting an operation that is still running shuts down the socket it attached
    last, if any, and no other; what is shut down is reported as closed unless the
    operating system says otherwise; the operation then finishes as aborted. *)
Theorem abort_reaches_socket (shutdown : shutdown_result) (s : AbortState) (t : list abort_event) :
  0 <= next_operation_id s < 2 ^ 64 -> Z.of_nat (begins t) + 1 < 2 ^ 64 ->
  let '(begun, id) := begin_operation s in
  existsb (ends_operation id) t = false ->
  let '(aborted, socket, result) := abort shutdown (run shutdown begun t) in
  socket = last_attached id t
  /\ (forall stream, socket = Some stream -> shutdown stream = Ok tt -> result = Ok tt)
  /\ (socket = None -> result = Ok tt)
  /\ snd (finish aborted id) = true.
Proof.
  intros Hs Hlt. destruct (begin_operation s) as [s1 id] eqn:E. injection E as <- <-.
  set (id := next_operation_id s) in *. intros Hends.
  pose proof (run_active shutdown id Hs 0 (MkAbortState (Some (MkAbortOperation id None)) (wrapping_succ id))
    t None) as Hrun.
  specialize (Hrun ltac:(unfold issued, wrapping_succ, unsigned; cbn; f_equal; lia) Hlt eq_refl).
  rewrite Hends in Hrun. unfold abort. rewrite Hrun. fold (last_attached id t).
  destruct (last_attached id t) as [stream|]; split_and!; try done.
  intros ? [= <-] ->. done.
Qed.

(** ** Witnesses *)

Definition answers : shutdown_result := fun _ => Ok tt.

Lemma finish_reports_abort_witness :
  snd (finish (run answers (fst (begin_operation (MkAbortState None 18446744073709551615)))
    [Attaches 18446744073709551615 7%nat; Aborts; Begins; Drops 18446744073709551615]) 18446744073709551615) = true
  /\ snd (finish (run answers (fst (begin_operation AbortState_default)) [Attaches 0 7%nat; Drops 5]) 0) = false.
Proof.
  assert (0 <= 18446744073709551615 < 2 ^ 64 /\ 0 <= 0 < 2 ^ 64 /\ 0 + 1 < 2 ^ 64 /\ 1 + 1 < 2 ^ 64)
    as (H1 & H2 & H3 & H4) by lia.
  split.
  - exact (finish_reports_abort answers (MkAbortState None 18446744073709551615)
      [Attaches 18446744073709551615 7%nat; Aborts; Begins; Drops 18446744073709551615] H1 H4).
  - exact (finish_reports_abort answers AbortState_default [Attaches 0 7%nat; Drops 5] H2 H3).
Defined.

Lemma abort_reaches_socket_witness :
  snd (fst (abort answers (run answers (fst (begin_operation AbortState_default))
    [Attaches 0 7%nat; Finishes 3; Attaches 0 8%nat]))) = Some 8%nat.
Proof.
  assert (0 <= 0 < 2 ^ 64 /\ 0 + 1 < 2 ^ 64) as [H1 H2] by lia.
  exact (proj1 (abort_reaches_socket answers AbortState_default [Attaches 0 7%nat; Finishes 3; Attaches 0 8%nat]
    H1 H2 eq_refl)).
Defined.
