(* ===== verification/Connector.v ===== *)
(** * Connector: the client of one q process ([Connector] of [crates/xqdb/src/connector.rs])

    The connection state, and requests, replies and notifications over it.  The
    transport is what later reads will find and what later writes will answer; name
    resolution, sockets and TLS are the environment's. *)

From stdpp Require Import prelude strings.
From Stdlib Require Import ZArith.
From S2P Require Import Prelude Errors Types QValue Compress Text Value AnyValue Serialize Deserialize Framing Stream Pipeline Receive Aborting.

Inductive CompressionMode : Type := Auto | On | Off.

Record ConnectorSettings : Type := MkSettings {
  value_mode : ValueMode;
  compression : CompressionMode;
  compression_threshold : Z;
  connect_timeout : option Z;
  read_timeout : option Z;
  write_timeout : option Z;
  max_message_bytes : option Z;
  max_pending_notifications : Z;
  tls_ca : option (list Z);
  tls_cert : option (list Z);
  tls_key : option (list Z);
  tls_server_name : option (list Z)
}.

Definition default_settings : ConnectorSettings :=
  MkSettings Native Auto 10000000 None None None None 1024 None None None None.

(** An open stream: what reads will find, what was written, and how later writes end
    ([None] for success, or the bytes written before the failure). *)
Record Connection : Type := MkConnection {
  incoming : stream;
  written_bytes : list Z;
  writes : list (option (Z * io_error))
}.

(** [stream.write_all(payload)]. *)
Definition write_all (payload : list Z) (c : Connection) : outcome io_error unit * Connection :=
  match writes c with
  | Some (n, e) :: later =>
    (Err e, MkConnection (incoming c) (written_bytes c ++ take (Z.to_nat n) payload) later)
  | None :: later => (Ok tt, MkConnection (incoming c) (written_bytes c ++ payload) later)
  | [] => (Ok tt, MkConnection (incoming c) (written_bytes c ++ payload) [])
  end.

Section Connector.
  Context `{Allocator} `{Chrono} {Series DataFrame : Type}.
  Context `{!SeriesEncoder Series DataFrame} `{!SeriesDecoder Series DataFrame}.

Abbreviation kval := (K Series DataFrame).

Record Connector : Type := MkConnector {
  enable_tls : bool;
  is_local : bool;
  port : Z;
  version : Z;
  host : list Z;
  user : list Z;
  password : list Z;
  timeout : Z;
  symbol_encoding : SymbolEncoding;
  conn : option Connection;
  tcp_stream : option socket;
  abort_handle : AbortState;
  settings : ConnectorSettings;
  pending_notifications : list (res kval);
  receive_buffer : Buffer;
  send_buffer : Buffer
}.

Definition set_conn (o : option Connection) (c : Connector) : Connector :=
  MkConnector (enable_tls c) (is_local c) (port c) (version c) (host c) (user c) (password c) (timeout c)
    (symbol_encoding c) o (tcp_stream c) (abort_handle c) (settings c) (pending_notifications c)
    (receive_buffer c) (send_buffer c).
Definition set_tcp (t : option socket) (c : Connector) : Connector :=
  MkConnector (enable_tls c) (is_local c) (port c) (version c) (host c) (user c) (password c) (timeout c)
    (symbol_encoding c) (conn c) t (abort_handle c) (settings c) (pending_notifications c)
    (receive_buffer c) (send_buffer c).
Definition set_abort (a : AbortState) (c : Connector) : Connector :=
  MkConnector (enable_tls c) (is_local c) (port c) (version c) (host c) (user c) (password c) (timeout c)
    (symbol_encoding c) (conn c) (tcp_stream c) a (settings c) (pending_notifications c)
    (receive_buffer c) (send_buffer c).
Definition set_settings (s : ConnectorSettings) (c : Connector) : Connector :=
  MkConnector (enable_tls c) (is_local c) (port c) (version c) (host c) (user c) (password c) (timeout c)
    (symbol_encoding c) (conn c) (tcp_stream c) (abort_handle c) s (pending_notifications c)
    (receive_buffer c) (send_buffer c).
Definition set_pending (p : list (res kval)) (c : Connector) : Connector :=
  MkConnector (enable_tls c) (is_local c) (port c) (version c) (host c) (user c) (password c) (timeout c)
    (symbol_encoding c) (conn c) (tcp_stream c) (abort_handle c) (settings c) p
    (receive_buffer c) (send_buffer c).
Definition set_receive (b : Buffer) (c : Connector) : Connector :=
  MkConnector (enable_tls c) (is_local c) (port c) (version c) (host c) (user c) (password c) (timeout c)
    (symbol_encoding c) (conn c) (tcp_stream c) (abort_handle c) (settings c) (pending_notifications c)
    b (send_buffer c).
Definition set_send (b : Buffer) (c : Connector) : Connector :=
  MkConnector (enable_tls c) (is_local c) (port c) (version c) (host c) (user c) (password c) (timeout c)
    (symbol_encoding c) (conn c) (tcp_stream c) (abort_handle c) (settings c) (pending_notifications c)
    (receive_buffer c) b.

(** "127.0.0.1" and "localhost". *)
Definition LOOPBACK : list Z := [49; 50; 55; 46; 48; 46; 48; 46; 49].
Definition LOCALHOST : list Z := [108; 111; 99; 97; 108; 104; 111; 115; 116].

Definition Connector_new (host : list Z) (port : Z) (user password : list Z) (enable_tls : bool)
    (timeout version : Z) : Connector :=
  let host := match host with [] => LOOPBACK | _ => host end in
  let is_local := bool_decide (host = LOOPBACK) || bool_decide (host = LOCALHOST) in
  MkConnector enable_tls is_local port version host user password timeout Strict None None
    AbortState_default default_settings [] new_buffer new_buffer.

(** ** Configuration *)

(** What rustls makes of the settings: a valid server name and a client
    configuration. *)
Class Tls := {
  valid_server_name : list Z -> res unit;
  tls_client_config : ConnectorSettings -> res unit
}.

Definition is_some {A} (o : option A) : bool := match o with Some _ => true | None => false end.

Definition configure `{Tls} (new : ConnectorSettings) : proc Connector unit := fun c =>
  let result : res unit :=
    if is_some (conn c) then general "Connector settings cannot be changed while connected"
    else if max_pending_notifications new =? 0 then general "max_pending_notifications must be positive"
    else
      let has_tls_settings :=
        is_some (tls_ca new) || is_some (tls_cert new) || is_some (tls_key new)
        || is_some (tls_server_name new) in
      if has_tls_settings && negb (enable_tls c) then general "TLS settings require enable_tls=true"
      else if negb (Bool.eqb (is_some (tls_cert new)) (is_some (tls_key new))) then
        general "TLS client certificate and key must be supplied together"
      else if enable_tls c then
        _ ← valid_server_name (default (host c) (tls_server_name new));
        tls_client_config new
      else Ok tt in
  match result with
  | Ok _ => (Ok tt, set_settings new c)
  | r => (r, c)
  end.

#[local] Open Scope proc_scope.

(** ** Ending a connection *)

Definition disconnect_after_protocol_error : proc Connector unit := fun c =>
  (Ok tt, set_conn None (set_tcp None (set_receive new_buffer c))).

(** The socket is shut down on the way; its answer decides the result. *)
Definition shutdown (answer : shutdown_result) : proc Connector unit := fun c =>
  match conn c with
  | None => (Err NotConnectedErr, c)
  | Some _ =>
    let result :=
      match tcp_stream c with
      | Some stream =>
        match answer stream with
        | Ok _ => Ok tt
        | Err error => match kind error with NotConnected => Ok tt | _ => Err (IOError error) end
        | Panicked => Panicked
        | OutOfFuel => OutOfFuel
        end
      | None => Ok tt
      end in
    (result, set_conn None (set_tcp None c))
  end.

Definition operation_aborted_error : XqdbError :=
  IOError (IoError Interrupted "Connector operation was aborted").

(** Whether another thread aborts the operation before it attaches a new socket, and
    before it finishes. *)
Record Interference : Type := MkInterference {
  before_attach : bool;
  before_finish : bool
}.

Definition interrupted (aborting : bool) (a : AbortState) : AbortState :=
  if aborting then take_active a else a.

Definition attach_open_stream (id : Z) (c : Connector) : Connector :=
  match tcp_stream c with
  | Some stream => set_abort (fst (fst (attach_stream (abort_handle c) id stream))) c
  | None => c
  end.

Definition finish_operation {A} (env : Interference) (id : Z) (result : res A) : proc Connector A := fun c =>
  let '(a, aborted) := finish (interrupted (before_finish env) (abort_handle c)) id in
  let c := set_abort a c in
  if aborted then (_ <- disconnect_after_protocol_error;; pfail operation_aborted_error) c
  else (result, c).

(** An operation under a guard: begun, run, finished; a panic drops the guard. *)
Definition guarded {A} (env : Interference) (operation : Z -> proc Connector A) : proc Connector A := fun c =>
  let '(a, id) := begin_operation (abort_handle c) in
  match operation id (set_abort a c) with
  | (Panicked, c) => (Panicked, set_abort (drop_guard (abort_handle c) id) c)
  | (OutOfFuel, c) => (OutOfFuel, c)
  | (result, c) => finish_operation env id result c
  end.

Definition guarded_io {A} (env : Interference) (operation : Z -> proc Connector A) : proc Connector A :=
  guarded env (fun id c => operation id (attach_open_stream id c)).

(** ** Requests *)

Definition overflow : XqdbError := GeneralErr "IPC request length overflowed".

Definition is_lambda (expr : list Z) : bool := starts_with 123 expr && ends_with 125 expr.

(** The length of the body, and whether the expression is called as a lambda. *)
Definition request_length (expr : list Z) (args : list kval) : res (Z * bool) :=
  match args with
  | [] => length ← ok_or (checked_add 6 (len expr)) overflow; Ok (length, false)
  | _ =>
    let lambda := is_lambda expr in
    length ← ok_or (length ← checked_add 12 (if lambda then 2 else 0); checked_add length (len expr)) overflow;
    length ← try_fold (fun length value =>
      size ← j6_len value; ok_or (checked_add length size) overflow) length args;
    Ok (length, lambda)
  end.

Definition request_body (expr : list Z) (args : list kval) (lambda : bool) (expression_length : Z)
    : res (list Z) :=
  match args with
  | [] => Ok ([10; 0] ++ i32_to_le expression_length ++ expr)
  | _ =>
    argument_count ← ok_or (try_i32 (len args + 1)) OverLengthErr;
    try_fold (fun frame value => serialize_into value frame)
      ([0; 0] ++ i32_to_le argument_count ++ (if lambda then [100; 0] else [])
       ++ [10; 0] ++ i32_to_le expression_length ++ expr) args
  end.

Definition request_header (msg_type : MsgType) (high_byte low_length : Z) : list Z :=
  [1; msg_type_code msg_type; 0; high_byte] ++ u32_to_le low_length.

Definition should_compress (c : Connector) (total_length : Z) : bool :=
  match compression (settings c) with
  | On => true
  | Off => false
  | Auto => negb (is_local c) && (compression_threshold (settings c) <=? total_length)
  end.

(** The frame to write: compressed into a vector of half the size when that helps. *)
Definition outgoing_payload (compressing : bool) (frame : Buffer) : res Buffer :=
  if compressing then
    out ← compress (buffer_data frame);
    Ok (if bool_decide (out = buffer_data frame) then frame
        else MkBuffer out (len (buffer_data frame) / 2))
  else Ok frame.

Definition the_connector : proc Connector Connector := get.

Definition write_payload (payload : Buffer) : proc Connector unit := fun c =>
  match conn c with
  | None => (Err NotConnectedErr, c)
  | Some stream =>
    let '(result, stream) := write_all (buffer_data payload) stream in
    let c := set_send (release_oversized_buffer payload) (set_conn (Some stream) c) in
    match result with
    | Err error => (_ <- disconnect_after_protocol_error;; pfail (IOError error)) c
    | Ok _ => (Ok tt, c)
    | Panicked => (Panicked, c)
    | OutOfFuel => (OutOfFuel, c)
    end
  end.

Definition send_inner (msg_type : MsgType) (expr : list Z) (args : list kval) : proc Connector unit :=
  c <- the_connector;;
  if (6 <? version c) || negb (is_some (conn c)) then pfail NotConnectedErr
  else if 8 <? len args then pfail TooManyArgumentErr
  else
    let expr := trim expr in
    expression_length <- lift (ok_or (try_i32 (len expr)) OverLengthErr);;
    let* (body_length, lambda) := lift (request_length expr args) in
    let* (total_length, high_byte, low_length) :=
      lift (checked_outgoing_message_length body_length "IPC request") in
    let frame := clear_buffer (send_buffer c) in
    _ <- update (set_send new_buffer);;
    frame <- lift (reserve_buffer frame total_length "IPC request");;
    let frame := extend_buffer frame (request_header msg_type high_byte low_length) in
    body <- lift (request_body expr args lambda expression_length);;
    let frame := extend_buffer frame body in
    if negb (len (buffer_data frame) =? total_length) then
      lift (general "Serialized request length differs from its declared q length")
    else
      payload <- lift (outgoing_payload (should_compress c total_length) frame);;
      write_payload payload.

Definition send (env : Interference) (msg_type : MsgType) (expr : list Z) (args : list kval)
    : proc Connector unit :=
  guarded_io env (fun _ => send_inner msg_type expr args).

(** ** Replies *)

(** The read on the open stream and the retained buffer; a failure disconnects. *)
Definition read_next_frame (schedule : Schedule) : proc Connector (MsgType * IpcBody Series DataFrame) := fun c =>
  if 6 <? version c then (Err NotConnectedErr, c)
  else
    match conn c with
    | None => (Err NotConnectedErr, c)
    | Some stream =>
      let '(framing_result, wire) :=
        read_ipc_body schedule (max_message_bytes (settings c))
          (match value_mode (settings c) with Native => Some (symbol_encoding c) | Lossless => None end)
          (MkWire (incoming stream) (receive_buffer c)) in
      let c := set_receive (wire_buffer wire)
        (set_conn (Some (MkConnection (wire_stream wire) (written_bytes stream) (writes stream))) c) in
      match framing_result with
      | Ok (Sync, _) =>
        (_ <- disconnect_after_protocol_error;;
         pfail (GeneralErr "Received unsupported synchronous request from q")) c
      | Ok message => (Ok message, c)
      | Err error => (_ <- disconnect_after_protocol_error;; pfail error) c
      | Panicked => (Panicked, c)
      | OutOfFuel => (OutOfFuel, c)
      end
    end.

#[local] Instance native_codec : Codec kval := {|
  Framing.deserialize encoding bytes := Deserialize.deserialize bytes encoding;
  of_qvalue := KQValue
|}.

(** The value of a frame; a lossless value takes the retained buffer over. *)
Definition decode_frame_body (body : IpcBody Series DataFrame) : proc Connector (res kval) := fun c =>
  let encoding := symbol_encoding c in
  let mode := value_mode (settings c) in
  let '(value, c) :=
    match body, mode with
    | Retained, Lossless =>
      (decode_value_body (Owned (buffer_data (receive_buffer c))) encoding mode, set_receive new_buffer c)
    | Retained, Native => (decode_value_body (Borrowed (buffer_data (receive_buffer c))) encoding mode, c)
    | Decompressed body, _ => (decode_value_body (Owned body) encoding mode, c)
    | Decoded value, _ => (value, c)
    end in
  let c := set_receive (release_oversized_buffer (receive_buffer c)) c in
  match value with
  | Panicked => (Panicked, c)
  | OutOfFuel => (OutOfFuel, c)
  | value => (Ok value, c)
  end.

Definition receive_inner (schedule : Schedule) : proc Connector kval :=
  let* (_, body) := read_next_frame schedule in
  value <- decode_frame_body body;;
  lift value.

Definition receive (env : Interference) (schedule : Schedule) : proc Connector kval := fun c =>
  match pending_notifications c with
  | notification :: later => (notification, set_pending later c)
  | [] => guarded_io env (fun _ => receive_inner schedule) c
  end.

(** ** Connecting *)

(** The environment: name resolution, the time spent, connection attempts with the
    socket they give, socket options and the TLS layer over a connection. *)
Class Network := {
  address : Type;
  to_socket_addrs : list Z -> Z -> outcome io_error (list address);
  elapsed : nat -> Z;
  tcp_connect : address -> option Z -> outcome io_error (socket * Connection);
  set_options : socket -> option Z -> option Z -> outcome io_error unit;
  client_connection : list Z -> ConnectorSettings -> Connection -> res Connection
}.

(** [connect_to_addresses]: the addresses in turn, within one deadline. *)
Fixpoint connect_to_addresses `{Network} (attempt : nat) (timeout : Z) (last_error : option io_error)
    (addresses : list address) : outcome io_error (socket * Connection) :=
  let timed_out := Err (IoError TimedOut "TCP connection attempts timed out") in
  match addresses with
  | [] =>
    Err (default (IoError AddrNotAvailable "host resolved to no socket addresses") last_error)
  | a :: addresses =>
    let connecting :=
      if timeout =? 0 then Some None
      else if timeout <=? elapsed attempt then None
      else Some (Some (timeout - elapsed attempt)) in
    match connecting with
    | None => timed_out
    | Some limit =>
      match tcp_connect a limit with
      | Err error => connect_to_addresses (S attempt) timeout (Some error) addresses
      | r => r
      end
    end
  end.

(** A zero timeout is no timeout. *)
Definition effective_socket_timeout (configured : option Z) (fallback : Z) : option Z :=
  let timeout := default fallback configured in
  if timeout =? 0 then None else Some timeout.

Definition credential_of (c : Connector) : res (list Z) :=
  credential_length ← ok_or (length ← checked_add (len (user c)) (len (password c)); checked_add length 3)
    (GeneralErr "Authentication credential length overflowed");
  _ ← allocate_buffer credential_length "authentication credential";
  Ok (user c ++ [58] ++ password c ++ [version c; 0]).

(** [auth]: the credential, and one byte back. *)
Definition auth (c : Connector) (stream : Connection) : res Connection :=
  credential ← credential_of c;
  let '(result, stream) := write_all credential stream in
  _ ← map_err IOError result;
  let '(result, rest) := read 1 (incoming stream) in
  support_version ← map_err IOError result;
  let stream := MkConnection rest (written_bytes stream) (writes stream) in
  match support_version with
  | [v] => if 1 <=? v then Ok stream else Err VersionErr
  | _ => Err AuthErr
  end.

Definition connect_inner `{Tls} `{Network} (env : Interference) (id : Z) : proc Connector unit := fun c =>
  match conn c with
  | Some _ => (Ok tt, attach_open_stream id c)
  | None =>
    let server_name := default (host c) (tls_server_name (settings c)) in
    let opened : res (socket * Connection) :=
      _ ← (if enable_tls c then
             _ ← valid_server_name server_name; tls_client_config (settings c)
           else Ok tt);
      addresses ← map_err IOError (to_socket_addrs (host c) (port c));
      match addresses with
      | [] => Err (FailedToConnectErr "host resolved to no socket addresses")
      | _ =>
        '(tcp, stream) ← map_err IOError
          (connect_to_addresses 0 (default (timeout c) (connect_timeout (settings c))) None addresses);
        _ ← map_err IOError
          (set_options tcp
             (effective_socket_timeout (read_timeout (settings c)) (timeout c))
             (effective_socket_timeout (write_timeout (settings c)) (timeout c)));
        Ok (tcp, stream)
      end in
    match opened with
    | Ok (tcp, stream) =>
      let '(a, attached, _) := attach_stream (interrupted (before_attach env) (abort_handle c)) id tcp in
      let c := set_abort a c in
      if negb attached then (Err operation_aborted_error, c)
      else
        let result :=
          stream ← (if enable_tls c then client_connection server_name (settings c) stream else Ok stream);
          auth c stream in
        match result with
        | Ok stream => (Ok tt, set_tcp (Some tcp) (set_conn (Some stream) c))
        | Err error => (Err error, set_conn None c)
        | Panicked => (Panicked, c)
        | OutOfFuel => (OutOfFuel, c)
        end
    | Err error => (Err error, c)
    | Panicked => (Panicked, c)
    | OutOfFuel => (OutOfFuel, c)
    end
  end.

Definition connect `{Tls} `{Network} (env : Interference) : proc Connector unit :=
  guarded env (connect_inner env).

(** ** Calls *)

(** [pending_notifications.push_back], with its bound. *)
Definition queue_notification (body : IpcBody Series DataFrame) : proc Connector unit :=
  c <- the_connector;;
  if max_pending_notifications (settings c) <=? len (pending_notifications c) then
    _ <- disconnect_after_protocol_error;;
    pfail (GeneralErr ("Pending notification limit " +:+ show (max_pending_notifications (settings c))
                       +:+ " exceeded"))
  else
    match @reserve _ XqdbError 1 (fun error =>
            GeneralErr ("Unable to allocate pending notification slot: " +:+ error)) with
    | Err error => _ <- disconnect_after_protocol_error;; pfail error
    | _ =>
      notification <- decode_frame_body body;;
      update (fun c => set_pending (pending_notifications c ++ [notification]) c)
    end.

(** The loop of [execute_inner]: every round reads a frame. *)
Fixpoint await_response (fuel : nat) (schedule : Schedule) : proc Connector kval :=
  match fuel with
  | O => lift OutOfFuel
  | S fuel =>
    let* (message, body) := read_next_frame schedule in
    match message with
    | Response => value <- decode_frame_body body;; lift value
    | Async => _ <- queue_notification body;; await_response fuel schedule
    | Sync => lift Panicked
    end
  end.

Definition unread (c : Connector) : nat :=
  match conn c with Some stream => stream_size (incoming stream) | None => O end.

Definition execute_inner `{Tls} `{Network} (env : Interference) (schedule : Schedule)
    (expr : list Z) (args : list kval) (id : Z) : proc Connector kval :=
  c <- the_connector;;
  _ <- (if is_some (conn c) then pret tt else connect_inner env id);;
  _ <- send_inner Sync expr args;;
  c <- the_connector;;
  await_response (S (unread c)) schedule.

Definition execute `{Tls} `{Network} (env : Interference) (schedule : Schedule)
    (expr : list Z) (args : list kval) : proc Connector kval :=
  guarded_io env (execute_inner env schedule expr args).

Definition execute_async `{Tls} `{Network} (env : Interference) (expr : list Z) (args : list kval)
    : proc Connector unit :=
  guarded_io env (fun id =>
    c <- the_connector;;
    _ <- (if is_some (conn c) then pret tt else connect_inner env id);;
    send_inner Async expr args).
End Connector.
Arguments Connector {_} Series DataFrame.
