(* ===== verification/ConnectorFacts.v ===== *)
(** * ConnectorFacts: requests on the wire, and connectors in use *)

From stdpp Require Import prelude strings.
From Stdlib Require Import ZArith Lia ZifyBool.
From S2P Require Import Prelude Errors Types QValue QValueSpec Compress CompressFacts CompressSpec Framing FramingFacts FramingSpec ListScan Text Value AnyValue WireText Serialize Deserialize SerializeFacts DeserializeFacts SerdeSpec Stream Pipeline PipelineFacts StreamFacts Receive ReceiveFacts ReceiveSpec Aborting Connector.

#[local] Existing Instance unlimited.

Section Requests.
  Context `{Chrono} {Series DataFrame : Type}.
  Context `{!SeriesEncoder Series DataFrame} `{!SeriesDecoder Series DataFrame}.

Abbreviation kval := (K Series DataFrame).
Abbreviation connector := (Connector Series DataFrame).

#[local] Existing Instance native_codec.

(** The q value a request is: the expression, or the list of a function and its
    arguments. *)
Definition request_value (expr : list Z) (args : list kval) : kval :=
  match args with
  | [] => KString expr
  | _ => KMixedList ((if is_lambda expr then KLambda (MkQLambda expr []) else KString expr) :: args)
  end.

Lemma try_i32_Some z n : try_i32 z = Some n -> n = z /\ i32_min <= z <= i32_max.
Proof. unfold try_i32. destruct (_ && _) eqn:E; [|done]. intros [= <-]. split; [done|bool_lia]. Qed.

Lemma try_fold_sizes (args : list kval) acc n :
  try_fold (fun length value =>
    size ← j6_len value; ok_or (checked_add length size) overflow) acc args = Ok n ->
  exists sizes, Forall2 (fun v s => j6_len v = Ok s) args sizes /\ n = acc + foldr Z.add 0 sizes.
Proof.
  revert acc. induction args as [|v args IH]; intros acc; cbn [try_fold].
  - intros [= <-]. exists []. split; [constructor|simpl; lia].
  - intros (acc' & (s & Hs & Ha%ok_or_Ok)%bind_Ok & Hrest)%bind_Ok. unfold checked_add in Ha.
    destruct (_ <=? _); [|done]. injection Ha as <-. apply IH in Hrest as (sizes & Hsizes & ->).
    exists (s :: sizes). split; [by constructor|simpl; lia].
Qed.

(** The sizes add up, and the bytes are those of the value. *)
Lemma request_exact `{!ChronoLaws} `{!SeriesEncoderLaws} expr (args : list kval) n lambda :
  Forall typed args -> (length args <= 8)%nat -> try_i32 (len expr) = Some (len expr) ->
  request_length expr args = Ok (n, lambda) ->
  exists body, request_body expr args lambda (len expr) = Ok body /\ len body = n /\ 2 <= n
    /\ serialize_into (request_value expr args) [] = Ok body.
Proof.
  intros Ht H8 He. apply try_i32_Some in He as He'. destruct He' as [_ He'].
  unfold request_length, request_body, request_value. destruct args as [|a args].
  - intros (m & Hm%ok_or_Ok & [= <- <-])%bind_Ok. unfold checked_add in Hm. destruct (_ <=? _); [|done].
    injection Hm as <-. exists ([10; 0] ++ i32_to_le (len expr) ++ expr). split_and!; [done| |lia|].
    + rewrite !length_app, len_i32_to_le. simpl length. lia.
    + cbn [serialize_into]. by rewrite q_list_length_eq by done.
  - set (all := a :: args) in *. intros (m & Hm%ok_or_Ok & Hrest)%bind_Ok.
    apply bind_Ok in Hrest as (size & Hsize & [= <- <-]). apply try_fold_sizes in Hsize as (sizes & Hs & ->).
    destruct (written_list all sizes) as (payload & Hl & Hw).
    { eapply sizes_impl; [|exact Hs]. rewrite Forall_forall in *. intros v Hv k Hk. exact (value_written v 0 k (Ht v Hv) Hk). }
    assert (m = 12 + (if is_lambda expr then 2 else 0) + len expr) as ->.
    { apply bind_Some in Hm as (x & Hx & Hm). unfold checked_add in *. destruct (_ <=? usize_max) in Hx; [|done].
      injection Hx as <-. destruct (_ <=? usize_max) in Hm; [|done]. by injection Hm as <-. }
    assert (try_i32 (len all + 1) = Some (len all + 1)) as Hcount
      by (unfold try_i32; by replace (_ && _) with true by bool_lia).
    rewrite Hcount. cbn [ok_or mbind outcome_bind].
    set (head := [0; 0] ++ i32_to_le (len all + 1) ++ (if is_lambda expr then [100; 0] else [])
       ++ [10; 0] ++ i32_to_le (len expr) ++ expr).
    assert (0 <= foldr Z.add 0 sizes) by (rewrite <- Hl; lia).
    exists (head ++ payload). split_and!.
    + exact (Hw head).
    + unfold head. rewrite !length_app, !len_i32_to_le. destruct (is_lambda expr); simpl length; lia.
    + destruct (is_lambda expr); lia.
    + assert (forall f : kval, serialize_into (KMixedList (f :: all)) []
        = (length ← q_list_length (len (f :: all));
           vec ← serialize_into f ([0; 0] ++ length);
           try_fold (fun vec v => serialize_into v vec) vec all)) as E by done.
      rewrite E. replace (len (_ :: all)) with (len all + 1) by (cbn [length]; lia).
      rewrite q_list_length_eq by bool_lia. cbn [mbind outcome_bind].
      destruct (is_lambda expr) eqn:El; cbn [serialize_into lambda_source lambda_context].
      * rewrite q_list_length_eq by done. cbn [mbind outcome_bind]. rewrite Hw. unfold head. by rewrite <- !app_assoc.
      * rewrite q_list_length_eq by done. cbn [mbind outcome_bind]. rewrite Hw. unfold head. by rewrite <- !app_assoc.
Qed.

(** ** What is sent *)

Lemma request_header_eq m body_length total high low c :
  checked_outgoing_message_length body_length c = Ok (total, high, low) ->
  total = body_length + 8 /\ total <= MAX_IPC_LENGTH_FIELD
  /\ request_header m high low = encode_header (MkHeaderFields (msg_type_code m) 0 total).
Proof.
  unfold checked_outgoing_message_length. intros (t & Ht%ok_or_Ok & Hrest)%bind_Ok.
  unfold checked_add in Ht. destruct (_ <=? usize_max); [|done]. injection Ht as <-.
  apply bind_Ok in Hrest as ([hi lo] & Hl & [= <- <- <-]). unfold ipc_length_header in Hl.
  destruct (Z.ltb_spec MAX_IPC_LENGTH_FIELD (body_length + IPC_HEADER_LENGTH)); [done|]. injection Hl as <- <-.
  done.
Qed.

(** A successful send writes one frame: the request under its header, compressed or
    not. *)
Lemma send_inner_writes `{!ChronoLaws} `{!SeriesEncoderLaws} m expr (args : list kval) (c c' : connector) stream :
  conn c = Some stream -> Forall typed args -> send_inner m expr args c = (Ok tt, c') ->
  exists body payload stream' b, c' = set_send b (set_conn (Some stream') c)
    /\ incoming stream' = incoming stream
    /\ written_bytes stream' = written_bytes stream ++ payload
    /\ serialize_into (request_value (trim expr) args) [] = Ok body
    /\ let h := MkHeaderFields (msg_type_code m) 0 (len body + 8) in
       2 <= len body /\ total_length h <= MAX_IPC_LENGTH_FIELD
       /\ (payload = encode_header h ++ body \/ compress (encode_header h ++ body) = Ok payload).
Proof.
  intros Hconn Ht. unfold send_inner, the_connector, get. unfold pbind at 1.
  destruct (_ || _); [done|]. destruct (Z.ltb_spec 8 (len args)) as [|H8]; [done|]. cbv zeta. set (e := trim expr).
  destruct (try_i32 (len e)) as [el|] eqn:Eel; [|done]. apply try_i32_Some in Eel as He'. destruct He' as [-> _].
  cbn [ok_or]. unfold pbind at 1, lift at 1.
  destruct (request_length e args) as [[n lambda]| | |] eqn:Elen; try done. unfold pbind at 1, lift at 1.
  destruct (checked_outgoing_message_length n "IPC request") as [[[total high] low]| | |] eqn:Eout; try done.
  unfold pbind at 1, lift at 1. unfold pbind at 1, update.
  destruct (reserve_buffer (clear_buffer (send_buffer c)) total "IPC request") as [b| | |] eqn:Eres; try done.
  unfold pbind at 1, lift at 1.
  destruct (request_exact e args n lambda Ht ltac:(lia) Eel Elen) as (body & Hbody & Hlen & Hlen2 & Hser).
  rewrite Hbody. unfold pbind at 1, lift at 1.
  destruct (request_header_eq m n total high low _ Eout) as (Htotal & Hmax & Hhead). rewrite Hhead.
  assert (buffer_data b = []) as Hb.
  { unfold reserve_buffer, clear_buffer in Eres. cbn [buffer_data buffer_capacity length] in Eres.
    destruct (negb _); [done|]. destruct (total <=? _); [by injection Eres as <-|].
    apply bind_Ok in Eres as (b' & _ & [= <-]). done. }
  unfold extend_buffer. cbn [buffer_data buffer_capacity]. rewrite Hb. cbn [app].
  destruct (negb _); [done|].
  destruct (outgoing_payload _ _) as [p| | |] eqn:Ep; try done. unfold pbind at 1, lift at 1.
  unfold write_payload. cbn [conn set_send]. rewrite Hconn.
  destruct (write_all (buffer_data p) stream) as [r stream'] eqn:Ew. intros Hok.
  exists body, (buffer_data p), stream', (release_oversized_buffer p).
  unfold write_all in Ew.
  assert (r = Ok tt /\ incoming stream' = incoming stream
    /\ written_bytes stream' = written_bytes stream ++ buffer_data p) as (-> & Hin & Hwr).
  { destruct (writes stream) as [|[[k err]|] later]; injection Ew as <- <-; [done|done|done]. }
  injection Hok as <-. rewrite Hlen. rewrite Htotal in *. split_and!; try done.
  unfold outgoing_payload in Ep. destruct (should_compress _ _); [|left; by injection Ep as <-].
  cbn [buffer_data] in Ep. apply bind_Ok in Ep as (out & Hout & Ep).
  case_bool_decide as Heq; injection Ep as <-; cbn [buffer_data]; [by left|by right].
Qed.

(** Sending does not look at the abort state. *)
Definition blind {A} (m : proc connector A) : Prop :=
  forall a c, m (set_abort a c) = (let '(r, c') := m c in (r, set_abort a c')).

Lemma blind_bind {A B} (m : proc connector A) (f : A -> proc connector B) :
  blind m -> (forall x, blind (f x)) -> blind (pbind m f).
Proof. intros Hm Hf a c. unfold pbind. rewrite Hm. destruct (m c) as [[x|e| |] c1]; [apply Hf|done..]. Qed.

Lemma blind_lift {A} (r : res A) : blind (lift r).
Proof. done. Qed.

Lemma blind_step {A B} (r : res A) (f : A -> proc connector B) :
  (forall x, blind (f x)) -> blind (pbind (lift r) f).
Proof. intros Hf. by apply blind_bind. Qed.

Lemma blind_if {A} (b : bool) (m1 m2 : proc connector A) : blind m1 -> blind m2 -> blind (if b then m1 else m2).
Proof. by destruct b. Qed.

Lemma write_payload_blind payload : blind (write_payload payload).
Proof.
  intros a c. unfold write_payload. cbn [conn set_abort]. destruct (conn c) as [stream|]; [|done].
  destruct (write_all (buffer_data payload) stream) as [[[]|e| |] stream']; done.
Qed.

Lemma send_inner_blind m expr args : blind (send_inner m expr args).
Proof.
  intros a c. unfold send_inner, the_connector, get. unfold pbind at 1. unfold pbind at 8.
  cbn [version conn send_buffer settings set_abort].
  change (should_compress (set_abort a c)) with (should_compress c).
  match goal with |- ?M (set_abort a c) = _ => enough (blind M) as HM by apply HM end.
  apply blind_if; [done|]. apply blind_if; [done|]. cbv zeta. apply blind_step. intros n.
  apply blind_step. intros [body_length lambda]. apply blind_step. intros [[total high] low].
  apply blind_bind; [done|]. intros _. apply blind_step. intros b. apply blind_step. intros body.
  apply blind_if; [apply blind_lift|]. apply blind_step. intros payload. apply write_payload_blind.
Qed.

(** A frame that was sent decodes to what its body decodes to. *)
Lemma sent_frame_decodes (A : Allocator) m body payload encoding mode :
  let h := MkHeaderFields (msg_type_code m) 0 (len body + 8) in
  bytes_ok body -> 2 <= len body -> total_length h <= MAX_IPC_LENGTH_FIELD ->
  payload = encode_header h ++ body \/ @compress A (encode_header h ++ body) = Ok payload ->
  @deserialize_ipc_frame unlimited kval (@native_codec unlimited _ _ _ _) payload encoding mode
  = (value ← @decode_value_body unlimited kval (@native_codec unlimited _ _ _ _) (Borrowed body) encoding mode; Ok (m, value)).
Proof.
  intros h Hb H2 Hmax Hp. change (len body + 8 <= MAX_IPC_LENGTH_FIELD) in Hmax. unfold MAX_IPC_LENGTH_FIELD in Hmax.
  assert (header_wf h) as Hw.
  { unfold header_wf, IPC_HEADER_LENGTH, MIN_SERIALIZED_VALUE_LENGTH, MAX_IPC_LENGTH_FIELD, h.
    cbn [message_kind compression_mode total_length]. destruct m; cbn [msg_type_code]; lia. }
  assert (@deserialize_ipc_frame unlimited kval (@native_codec unlimited _ _ _ _) (encode_header h ++ body) encoding mode
    = (value ← @decode_value_body unlimited kval (@native_codec unlimited _ _ _ _) (Borrowed body) encoding mode; Ok (m, value))) as Hplain.
  { rewrite deserialize_frame_eq by done. unfold prepare_ipc_body, h.
    cbn [total_length compression_mode message_kind cow_bytes].
    rewrite checked_body_length_Ok by bool_lia. run_bind.
    replace (len body =? _) with true by lia. cbn [negb Z.eqb enforce_message_bound]. run_bind.
    assert (message_type (msg_type_code m) = Ok m) as -> by (by destruct m). by run_bind. }
  destruct Hp as [->|Hc]; [done|]. rewrite <- Hplain. eapply compressed_frame_decodes; [done| |exact Hc].
  split; [apply Forall_app; split; [by apply encode_header_bytes|done]|].
  fold h. rewrite length_app. pose proof (len_encode_header h). bool_lia.
Qed.
End Requests.

(** ** ConnectorFacts: what every call leaves behind

    The parts of a connector that belong together, and that no call leaves
    inconsistent, whatever the peer, the network and the allocator do. *)

(** A buffer the connector may keep between calls. *)
Definition kept (b : Buffer) : Prop := 0 <= buffer_capacity b <= MAX_RETAINED_BUFFER_BYTES.

Lemma kept_new : kept new_buffer.
Proof. done. Qed.
Lemma kept_release b : 0 <= buffer_capacity b -> kept (release_oversized_buffer b).
Proof. unfold kept, release_oversized_buffer. intros. destruct (Z.ltb_spec MAX_RETAINED_BUFFER_BYTES (buffer_capacity b)); [done|lia]. Qed.
Lemma kept_isize b : kept b -> 0 <= buffer_capacity b <= isize_max.
Proof. unfold kept, MAX_RETAINED_BUFFER_BYTES. bool_lia. Qed.
#[export] Hint Resolve kept_new kept_release kept_isize : connector.

Section Keeps.
  Context {S : Type} (I : S -> Prop).

(** The call leaves [I], when it returns. *)
Definition keeps {A} (m : proc S A) : Prop :=
  forall s, I s -> let '(r, s') := m s in returns r -> I s'.

Lemma keeps_bind {A B} (m : proc S A) (f : A -> proc S B) :
  keeps m -> (forall a, keeps (f a)) -> keeps (pbind m f).
Proof.
  intros Hm Hf s Hs. specialize (Hm s Hs). unfold pbind. destruct (m s) as [[a|e| |] s'];
    [exact (Hf a s' (Hm Logic.I))|done..].
Qed.

Lemma keeps_lift {A} (r : res A) : keeps (lift r).
Proof. by intros s Hs _. Qed.
Lemma keeps_fail {A} e : keeps (@pfail S A e).
Proof. by intros s Hs _. Qed.
Lemma keeps_ret {A} (a : A) : keeps (pret a).
Proof. by intros s Hs _. Qed.
Lemma keeps_get : keeps get.
Proof. by intros s Hs _. Qed.
Lemma keeps_update f : (forall s, I s -> I (f s)) -> keeps (update f).
Proof. intros Hf s Hs _. by apply Hf. Qed.
Lemma keeps_if {A} (b : bool) (m1 m2 : proc S A) : keeps m1 -> keeps m2 -> keeps (if b then m1 else m2).
Proof. by destruct b. Qed.
End Keeps.
#[export] Hint Resolve keeps_lift keeps_fail keeps_ret keeps_get keeps_if : connector.

Section State.
  Context `{Allocator} `{Chrono} {Series DataFrame : Type}.
  Context `{!SeriesEncoder Series DataFrame} `{!SeriesDecoder Series DataFrame} `{!SeriesDecoderEnds}.

Abbreviation kval := (K Series DataFrame).
Abbreviation connector := (Connector Series DataFrame).

#[local] Existing Instance native_codec.

Definition has_tls (s : ConnectorSettings) : bool :=
  is_some (tls_ca s) || is_some (tls_cert s) || is_some (tls_key s) || is_some (tls_server_name s).

(** The stream and the socket come and go together; what is read are bytes; the kept
    buffers are small; the settings are those [configure] admits; the abort state
    satisfies [J]. *)
Record consistent (J : AbortState -> Prop) (c : connector) : Prop := {
  ok_paired : is_some (conn c) = is_some (tcp_stream c);
  ok_readable : forall stream, conn c = Some stream -> stream_ok (incoming stream);
  ok_receive : kept (receive_buffer c);
  ok_send : kept (send_buffer c);
  ok_pending : max_pending_notifications (settings c) <> 0;
  ok_tls : has_tls (settings c) = true -> enable_tls c = true;
  ok_key : is_some (tls_cert (settings c)) = is_some (tls_key (settings c));
  ok_abort : J (abort_handle c)
}.

Section Consistent.
  Context (J : AbortState -> Prop).
Abbreviation connection_ok := (consistent J).

(** A connector without a connection. *)
Definition disconnected (c : connector) : connector :=
  set_conn None (set_tcp None (set_receive new_buffer c)).

Lemma disconnected_ok c : connection_ok c -> connection_ok (disconnected c).
Proof. intros []. by split. Qed.

Lemma set_pending_ok p c : connection_ok c -> connection_ok (set_pending p c).
Proof. intros []. by split. Qed.
Lemma set_send_ok b c : kept b -> connection_ok c -> connection_ok (set_send b c).
Proof. intros Hb []. by split. Qed.
Lemma set_receive_ok b c : kept b -> connection_ok c -> connection_ok (set_receive b c).
Proof. intros Hb []. by split. Qed.

Lemma disconnect_keeps : keeps connection_ok (@disconnect_after_protocol_error _ Series DataFrame).
Proof. intros c Hc _. by apply disconnected_ok. Qed.

(** ** Receiving *)

(** What receiving changes: the stream that is left, the buffer and the notifications
    that wait. *)
Definition received_into (c : connector) (s : stream) (b : Buffer) (waiting : list (res kval)) : connector :=
  set_pending waiting (set_receive b
    (set_conn (match conn c with
               | Some stream => Some (MkConnection s (written_bytes stream) (writes stream))
               | None => None
               end) c)).

Lemma received_ok c s b w : connection_ok c -> stream_ok s -> kept b -> connection_ok (received_into c s b w).
Proof.
  intros [Hp Hr Hk ? ? ? ? ?] Hs Hb. unfold received_into. split; cbn; try done.
  - by destruct (conn c).
  - destruct (conn c); [|done]. by intros ? [= <-].
Qed.

(** A frame is read or refused; a refusal takes the connection down, unless there was
    none. *)
Lemma read_next_frame_total schedule c :
  fair schedule -> connection_ok c ->
  let '(r, c') := read_next_frame schedule c in
  match r with
  | Ok (m, body) => m <> Sync /\ exists stream s b, conn c = Some stream
      /\ c' = received_into c s b (pending_notifications c)
      /\ stream_ok s /\ 0 <= buffer_capacity b /\ body_ready (MkWire s b) body
      /\ stream_bytes s + 8 <= stream_bytes (incoming stream)
  | Err e => c' = disconnected c
      \/ (c' = c /\ e = NotConnectedErr /\ (conn c = None \/ 6 < version c))
  | _ => False
  end.
Proof.
  intros Hfair Hc. unfold read_next_frame. destruct (Z.ltb_spec 6 (version c)); [right; split_and!; by try right|].
  destruct (conn c) as [stream|] eqn:Hconn; [|right; split_and!; by try left].
  set (pipeline := match value_mode (settings c) with Native => Some (symbol_encoding c) | Lossless => None end).
  pose proof (read_ipc_body_total schedule (max_message_bytes (settings c)) pipeline (incoming stream) (receive_buffer c)
    Hfair (ok_readable _ _ Hc _ Hconn) (kept_isize _ (ok_receive _ _ Hc)) (MkWire (incoming stream) (receive_buffer c)) eq_refl) as Htot.
  destruct (read_ipc_body _ _ pipeline _) as [[[m body]|e| |] w]; try done; [|by left].
  destruct Htot as ((Hs & _ & Hcap) & Hless & Hready).
  destruct m; [|by left|]; (split; [done|]; exists stream, (wire_stream w), (wire_buffer w));
    (split; [done|]; split; [unfold received_into; by rewrite Hconn|]; split; [done|]; split; [lia|];
     split; [by destruct w|exact Hless]).
Qed.

(** The value of a received body. *)
Definition decoded (c : connector) (body : IpcBody Series DataFrame) : res kval :=
  match body with
  | Retained =>
    match value_mode (settings c) with
    | Lossless => decode_value_body (Owned (buffer_data (receive_buffer c))) (symbol_encoding c) Lossless
    | Native => decode_value_body (Borrowed (buffer_data (receive_buffer c))) (symbol_encoding c) Native
    end
  | Decompressed d => decode_value_body (Owned d) (symbol_encoding c) (value_mode (settings c))
  | Decoded v => v
  end.

Lemma decode_returns body encoding mode :
  slice_ok (cow_bytes body) -> returns (@decode_value_body _ kval _ body encoding mode).
Proof.
  intros Hok. unfold decode_value_body. destruct mode; [by apply deserialize_at_returns|].
  pose proof (validate_returns (cow_bytes body) Hok) as Hv.
  destruct body as [x|x]; cbn [cow_bytes] in *; unfold from_bytes, from_owned_bytes;
    destruct (validate x) as [metadata| | |]; try done; cbn [mbind outcome_bind].
  unfold reserve. by destruct (try_reserve (len x)).
Qed.

Lemma decoded_returns s c body : body_ready (MkWire s (receive_buffer c)) body -> returns (decoded c body).
Proof.
  unfold decoded. destruct body as [|d|v]; cbn [body_ready wire_buffer]; [|intros Hok; by apply decode_returns|done].
  intros Hok. destruct (value_mode (settings c)); by apply decode_returns.
Qed.

Lemma decode_total s c body :
  0 <= buffer_capacity (receive_buffer c) -> body_ready (MkWire s (receive_buffer c)) body ->
  exists b, decode_frame_body body c = (Ok (decoded c body), set_receive b c) /\ kept b.
Proof.
  intros Hcap Hready. pose proof (decoded_returns s c body Hready) as Hret. unfold decode_frame_body, decoded in *.
  destruct body as [|d|v].
  - destruct (value_mode (settings c)); destruct (decode_value_body _ _ _) as [v|e| |]; try done;
      (eexists; split; [reflexivity|by apply kept_release]).
  - destruct (decode_value_body _ _ _) as [v|e| |]; try done; (eexists; split; [reflexivity|by apply kept_release]).
  - destruct v as [v|e| |]; try done; (eexists; split; [reflexivity|by apply kept_release]).
Qed.

(** The loop over replies ends: every round takes a header off the stream. *)
Lemma queue_total s c body :
  0 <= buffer_capacity (receive_buffer c) -> body_ready (MkWire s (receive_buffer c)) body ->
  let '(r, c') := queue_notification body c in
  match r with
  | Ok _ => exists b, kept b
      /\ c' = set_pending (pending_notifications c ++ [decoded c body]) (set_receive b c)
  | Err _ => c' = disconnected c
  | _ => False
  end.
Proof.
  intros Hcap Hready. unfold queue_notification, the_connector, get, pbind at 1.
  destruct (_ <=? _); [done|]. unfold reserve. destruct (try_reserve 1); [|done].
  destruct (decode_total s c body Hcap Hready) as (b & Hdec & Hk). erewrite pbind_Ok by exact Hdec.
  exists b. split; [done|]. reflexivity.
Qed.

Lemma await_total schedule fuel c :
  fair schedule -> connection_ok c ->
  (forall stream, conn c = Some stream -> stream_bytes (incoming stream) < Z.of_nat fuel) -> fuel <> O ->
  let '(r, c') := await_response fuel schedule c in returns r /\ connection_ok c'.
Proof.
  intros Hfair. revert c. induction fuel as [|fuel IH]; intros c Hc Hf Hne; [done|]. clear Hne.
  cbn [await_response]. unfold pbind at 1. pose proof (read_next_frame_total schedule c Hfair Hc) as Hread.
  destruct (read_next_frame schedule c) as [[[m body]|e| |] c1]; try done.
  2: { destruct Hread as [->|(-> & _)]; by split; [|first [by apply disconnected_ok|done]]. }
  destruct Hread as (Hm & stream & s & b & Hconn & -> & Hs & Hcap & Hready & Hless).
  set (c1 := received_into c s b (pending_notifications c)) in *.
  destruct m; [|done|].
  - pose proof (queue_total s c1 body Hcap Hready) as Hq. unfold pbind at 1.
    destruct (queue_notification body c1) as [[[]|e| |] c2] eqn:Eq; try done.
    2: { subst c2. split; [done|]. exact (disconnected_ok c Hc). }
    destruct Hq as (b2 & Hk & ->).
    assert (connection_ok (received_into c s b2 (pending_notifications c ++ [decoded c1 body]))) as Hc2
      by (by apply received_ok).
    assert (forall x, conn (received_into c s b2 (pending_notifications c ++ [decoded c1 body])) = Some x ->
      stream_bytes (incoming x) < Z.of_nat fuel) as Hf2.
    { unfold received_into. cbn [conn set_pending set_receive set_conn]. rewrite Hconn. intros ? [= <-].
      cbn [incoming]. specialize (Hf _ Hconn). lia. }
    apply IH; [exact Hc2|exact Hf2|]. specialize (Hf _ Hconn). pose proof (stream_bytes_nonneg s). lia.
  - destruct (decode_total s c1 body Hcap Hready) as (b2 & Hdec & Hk). erewrite pbind_Ok by exact Hdec.
    unfold lift. split; [exact (decoded_returns s c1 body Hready)|]. by apply (received_ok c s b2 (pending_notifications c)).
Qed.

Lemma stream_bytes_size s : stream_bytes s <= Z.of_nat (stream_size s).
Proof. induction s as [|[chunk|e] s IH]; unfold stream_bytes, stream_size in *; cbn [foldr]; lia. Qed.

(** ** Calls *)

Ltac keeps_with := repeat first [apply keeps_bind; [|intros ?]|solve [eauto with connector]].

Lemma configure_keeps `{Tls} new : keeps connection_ok (@configure _ Series DataFrame _ new).
Proof.
  intros c Hc. unfold configure. fold (has_tls new).
  destruct (is_some (conn c)); [by intros _|]. destruct (Z.eqb_spec (max_pending_notifications new) 0); [by intros _|].
  destruct (has_tls new && negb (enable_tls c)) eqn:Et; [by intros _|].
  destruct (negb (Bool.eqb _ _)) eqn:Ek; [by intros _|].
  assert (connection_ok (set_settings new c)) as Hnew.
  { destruct Hc. split; try done.
    - intros Hh. cbn. destruct (enable_tls c); [done|]. cbn in Hh. by rewrite Hh in Et.
    - cbn. apply negb_false_iff in Ek. by apply eqb_prop in Ek. }
  destruct (if enable_tls c then _ else _) as [[]|e| |]; by intros _.
Qed.

Lemma shutdown_keeps answer : keeps connection_ok (@shutdown _ Series DataFrame answer).
Proof.
  intros c Hc. unfold shutdown. destruct (conn c); [|by intros _]. intros _. destruct Hc. by split.
Qed.

(** ** Requests *)

Lemma disconnect_fail_keeps {A} e :
  keeps connection_ok (pbind disconnect_after_protocol_error (fun _ => @pfail _ A e)).
Proof. apply keeps_bind; [apply disconnect_keeps|intros; apply keeps_fail]. Qed.

Lemma write_payload_keeps payload : 0 <= buffer_capacity payload -> keeps connection_ok (write_payload payload).
Proof.
  intros Hb c Hc. unfold write_payload. destruct (conn c) as [stream|] eqn:Hconn; [|by intros _].
  destruct (write_all (buffer_data payload) stream) as [r stream'] eqn:Ew.
  assert (incoming stream' = incoming stream) as Hin.
  { unfold write_all in Ew. destruct (writes stream) as [|[[n e]|] later]; by injection Ew as _ <-. }
  set (c1 := set_send _ _). assert (connection_ok c1) as Hc1.
  { destruct Hc as [Hp Hr ? ? ? ? ? ?]. unfold c1. split; try done.
    - rewrite Hconn in Hp. exact Hp.
    - intros x [= <-]. rewrite Hin. by apply Hr.
    - by apply kept_release. }
  destruct r as [[]|e| |]; try (by intros _). exact (disconnect_fail_keeps (IOError e) c1 Hc1).
Qed.

(** Steps that read a value. *)
Lemma keeps_step {A B} (r : res A) (f : A -> proc connector B) :
  (forall a, r = Ok a -> keeps connection_ok (f a)) -> keeps connection_ok (pbind (lift r) f).
Proof. intros Hf s Hs. unfold pbind, lift. destruct r as [a|e| |]; try by intros _. by apply Hf. Qed.

Lemma outgoing_capacity compressing b b' :
  0 <= buffer_capacity b -> outgoing_payload compressing b = Ok b' -> 0 <= buffer_capacity b'.
Proof.
  intros Hb. unfold outgoing_payload. destruct compressing; [|by intros [= <-]].
  intros (out & _ & Hout)%bind_Ok. case_bool_decide; injection Hout as <-; [done|]. cbn. apply Z.div_pos; lia.
Qed.

Lemma send_inner_keeps m expr args : keeps connection_ok (send_inner m expr args).
Proof.
  unfold send_inner. apply keeps_bind; [apply keeps_get|]. intros c0.
  apply keeps_if; [apply keeps_fail|]. apply keeps_if; [apply keeps_fail|]. cbv zeta.
  apply keeps_step. intros n _. apply keeps_step. intros [body_length lambda] _.
  apply keeps_step. intros [[total high] low] _.
  apply keeps_bind; [apply keeps_update; intros c; apply set_send_ok; apply kept_new|]. intros _.
  apply keeps_step. intros b Hb. apply keeps_step. intros body _. apply keeps_if; [apply keeps_lift|].
  apply keeps_step. intros payload Hp. apply write_payload_keeps.
  eapply outgoing_capacity; [|exact Hp]. cbn. lia.
Qed.

Lemma receive_inner_keeps schedule : fair schedule -> keeps connection_ok (receive_inner schedule).
Proof.
  intros Hfair c Hc. unfold receive_inner, pbind at 1.
  pose proof (read_next_frame_total schedule c Hfair Hc) as Hread.
  destruct (read_next_frame schedule c) as [[[m body]|e| |] c1]; try done.
  - destruct Hread as (Hm & stream & s & b & Hconn & -> & Hs & Hcap & Hready & _).
    destruct (decode_total s (received_into c s b (pending_notifications c)) body Hcap Hready) as (b2 & Hdec & Hk).
    erewrite pbind_Ok by exact Hdec. intros _. by apply (received_ok c s b2 (pending_notifications c)).
  - intros _. destruct Hread as [->|(-> & _)]; [by apply disconnected_ok|done].
Qed.

End Consistent.

(** ** Connecting *)

(** What a network delivers are bytes. *)
Class NetworkBytes `{Network} : Prop := {
  tcp_bytes a limit tcp stream : tcp_connect a limit = Ok (tcp, stream) -> stream_ok (incoming stream);
  tls_bytes name s stream stream' :
    client_connection name s stream = Ok stream' -> stream_ok (incoming stream) -> stream_ok (incoming stream')
}.

(** The operation [id] is active, or no operation is. *)
Definition held (id : Z) (a : AbortState) : Prop :=
  active_operation a = None \/ exists o, active_operation a = Some (MkAbortOperation id o).

Definition at_rest (a : AbortState) : Prop := active_operation a = None.

Lemma set_abort_ok J J' a c : consistent J c -> J' a -> consistent J' (set_abort a c).
Proof. intros [] Ha. by split. Qed.

Lemma held_attach id a stream : held id a -> held id (fst (fst (attach_stream a id stream))).
Proof.
  unfold attach_stream, is_active. intros [Ha|[o Ha]]; rewrite Ha; [by left|]. cbn. rewrite Z.eqb_refl. right. by exists (Some stream).
Qed.
Lemma held_interrupted id b a : held id a -> held id (interrupted b a).
Proof. destruct b; [by left|done]. Qed.

Lemma rest_finish id a : held id a -> at_rest (fst (finish a id)).
Proof. unfold finish, is_active, at_rest. intros [Ha|[o Ha]]; rewrite Ha; [done|]. cbn. by rewrite Z.eqb_refl. Qed.

Lemma attach_open_ok id c : consistent (held id) c -> consistent (held id) (attach_open_stream id c).
Proof.
  intros Hc. unfold attach_open_stream. destruct (tcp_stream c) as [stream|]; [|done].
  apply (set_abort_ok (held id)); [done|]. apply held_attach. apply (ok_abort _ _ Hc).
Qed.

Lemma connect_bytes `{NetworkBytes} attempt limit last addresses tcp stream :
  connect_to_addresses attempt limit last addresses = Ok (tcp, stream) -> stream_ok (incoming stream).
Proof.
  revert attempt last. induction addresses as [|a addresses IH]; intros attempt last; cbn [connect_to_addresses]; [done|].
  destruct (if limit =? 0 then _ else _) as [l|]; [|done].
  destruct (tcp_connect a l) as [[t s]|e| |] eqn:E; [|apply IH|done..]. intros [= <- <-]. by eapply tcp_bytes.
Qed.

Lemma write_all_incoming payload (stream : Connection) r stream' :
  write_all payload stream = (r, stream') -> incoming stream' = incoming stream.
Proof. unfold write_all. destruct (writes stream) as [|[[n e]|] later]; by intros [= _ <-]. Qed.

Lemma auth_bytes (c : connector) stream stream' :
  auth c stream = Ok stream' -> stream_ok (incoming stream) -> stream_ok (incoming stream').
Proof.
  unfold auth. intros (credential & _ & Ha)%bind_Ok Hs.
  destruct (write_all credential stream) as [r s1] eqn:Ew. apply write_all_incoming in Ew.
  apply bind_Ok in Ha as (u & _ & Ha). pose proof (read_takes 1 (incoming s1)) as Ht. rewrite Ew in Ha, Ht.
  specialize (Ht Hs). destruct (read 1 (incoming stream)) as [r1 rest]. destruct Ht as [Hrest _].
  apply bind_Ok in Ha as (v & _ & Ha). destruct v as [|v [|]]; try done. destruct (1 <=? v); [|done].
  by injection Ha as <-.
Qed.

Lemma connect_inner_keeps `{Tls} `{NetworkBytes} env id :
  keeps (consistent (held id)) (@connect_inner _ _ Series DataFrame _ _ env id).
Proof.
  intros c Hc. unfold connect_inner. destruct (conn c) as [stream|] eqn:Hconn; [intros _; by apply attach_open_ok|].
  destruct (_ ← _; _) as [[tcp stream]|e| |] eqn:Hopen; try by intros _.
  assert (stream_ok (incoming stream)) as Hs.
  { apply bind_Ok in Hopen as (u & _ & Hopen). apply bind_Ok in Hopen as (addresses & _ & Hopen).
    destruct addresses as [|a addresses]; [done|]. apply bind_Ok in Hopen as ([t s] & Hconnect & Hopen).
    apply bind_Ok in Hopen as (u' & _ & Hopen). injection Hopen as -> ->.
    destruct (connect_to_addresses _ _ _ _) as [[t s]|e| |] eqn:E; try done. injection Hconnect as -> ->.
    by eapply connect_bytes. }
  destruct (attach_stream _ id tcp) as [[a attached] down] eqn:Ea.
  assert (held id a) as Ha.
  { change a with (fst (fst (a, attached, down))). rewrite <- Ea. apply held_attach, held_interrupted. apply (ok_abort _ _ Hc). }
  assert (consistent (held id) (set_abort a c)) as Hc1 by (by apply (set_abort_ok (held id))).
  destruct attached; cbn [negb]; [|by intros _].
  clear Hopen. destruct (_ ← _; _) as [stream'|e| |] eqn:Hauth; [| |by intros _|by intros _].
  - intros _. apply bind_Ok in Hauth as (s1 & Htls & Hauth).
    assert (stream_ok (incoming s1)) as Hs1.
    { destruct (enable_tls _); [eapply tls_bytes; [exact Htls|exact Hs]|]. by injection Htls as <-. }
    destruct Hc1. split; try done. intros x [= <-]. by eapply auth_bytes.
  - intros _. destruct Hc1 as [Hp ? ? ? ? ? ? ?]. split; try done. cbn in *. by rewrite Hconn in Hp.
Qed.

(** ** Whole calls *)

Lemma guarded_idle {A} env (operation : Z -> proc connector A) :
  (forall id, keeps (consistent (held id)) (operation id)) -> keeps (consistent at_rest) (guarded env operation).
Proof.
  intros Hop c Hc. unfold guarded, begin_operation. set (id := next_operation_id (abort_handle c)).
  set (c0 := set_abort _ c).
  assert (consistent (held id) c0) as Hc0.
  { apply (set_abort_ok at_rest); [done|]. right. by eexists. }
  specialize (Hop id c0 Hc0). destruct (operation id c0) as [r c1].
  assert (returns r -> forall r' : res A, consistent at_rest (snd (finish_operation env id r' c1))) as Hfin.
  { intros Hr r'. specialize (Hop Hr).
    assert (held id (interrupted (before_finish env) (abort_handle c1))) as Ha
      by (apply held_interrupted; apply (ok_abort _ _ Hop)).
    pose proof (rest_finish id _ Ha) as Hrest. unfold finish_operation.
    destruct (finish _ id) as [a aborted]. cbn [fst] in Hrest.
    assert (consistent at_rest (set_abort a c1)) as Hc1 by (by apply (set_abort_ok (held id))).
    destruct aborted; [|exact Hc1]. by apply (disconnected_ok at_rest (set_abort a c1)). }
  destruct r as [x|e| |]; [| |by intros []|by intros []].
  - specialize (Hfin Logic.I (Ok x)). by destruct (finish_operation env id (Ok x) c1).
  - specialize (Hfin Logic.I (Err e)). by destruct (finish_operation env id (Err e) c1).
Qed.

Lemma guarded_io_idle {A} env (operation : Z -> proc connector A) :
  (forall id, keeps (consistent (held id)) (operation id)) -> keeps (consistent at_rest) (guarded_io env operation).
Proof.
  intros Hop. apply guarded_idle. intros id c Hc. exact (Hop id _ (attach_open_ok id c Hc)).
Qed.

Lemma execute_inner_keeps `{Tls} `{NetworkBytes} env schedule expr args id :
  fair schedule -> keeps (consistent (held id)) (@execute_inner _ _ Series DataFrame _ _ _ _ env schedule expr args id).
Proof.
  intros Hfair. unfold execute_inner. apply keeps_bind; [apply keeps_get|]. intros c0.
  apply keeps_bind; [apply keeps_if; [apply keeps_ret|apply connect_inner_keeps]|]. intros _.
  apply keeps_bind; [apply send_inner_keeps|]. intros _.
  intros c Hc. unfold the_connector, get, pbind.
  pose proof (await_total (held id) schedule (S (unread c)) c Hfair Hc) as Ht.
  destruct (await_response _ schedule c) as [r c1]. intros _. apply Ht; [|done].
  intros stream Hconn. unfold unread. rewrite Hconn. pose proof (stream_bytes_size (incoming stream)). lia.
Qed.
End State.

(** ** Lemmas on the connection state and the messages it receives *)

#[local] Existing Instance unlimited.

Section Messages.
  Context `{Chrono} {Series DataFrame : Type}.
  Context `{!SeriesEncoder Series DataFrame} `{!SeriesDecoder Series DataFrame} `{!SeriesDecoderEnds}.

Abbreviation kval := (K Series DataFrame).
Abbreviation connector := (Connector Series DataFrame).

#[local] Existing Instance native_codec.

(** ** Messages: what the bytes of a stream mean to a connector *)

Record frame : Type := MkFrame { fr_header : ParsedIpcHeader; fr_body : list Z }.

Definition frame_bytes (f : frame) : list Z := encode_header (fr_header f) ++ fr_body f.

Definition well_framed (f : frame) : Prop :=
  header_wf (fr_header f) /\ len (fr_body f) = total_length (fr_header f) - 8 /\ slice_ok (fr_body f).

Definition prepared_frame (c : connector) (f : frame) : res (MsgType * Cow) :=
  prepare_ipc_body (fr_header f) (Borrowed (fr_body f)) (max_message_bytes (settings c)).

(** A message of kind [m] that the framing tests admit. *)
Definition message_of (c : connector) (m : MsgType) (f : frame) : Prop :=
  well_framed f /\ exists body, prepared_frame c f = Ok (m, body).

(** The value the connector's decoder reads off a whole frame. *)
Definition frame_value (c : connector) (f : frame) : res kval :=
  '(_, body) ← prepared_frame c f;
  decode_value_body body (symbol_encoding c) (value_mode (settings c)).

Definition streaming (c : connector) (s : stream) : Prop :=
  version c <= 6 /\ kept (receive_buffer c)
  /\ exists stream, conn c = Some stream /\ incoming stream = s.

Lemma message_exact schedule (c : connector) s f m rest :
  fair schedule -> streaming c s -> stream_ok s -> message_of c m f -> m <> Sync ->
  payload s = frame_bytes f ++ rest ->
  exists body s1 b1,
    read_next_frame schedule c = (Ok (m, body), received_into c s1 b1 (pending_notifications c))
    /\ payload s1 = rest /\ stream_ok s1 /\ 0 <= buffer_capacity b1
    /\ body_ready (MkWire s1 b1) body
    /\ exists prepared, prepared_frame c f = Ok (m, prepared)
       /\ stands_for (match value_mode (settings c) with Native => Some (symbol_encoding c) | Lossless => None end)
            b1 body (fr_body f) prepared.
Proof.
  intros Hfair (Hv & Hk & stream & Hconn & Hin) Hs ((Hw & Hl & Hok) & prepared & Hprep) Hm Hp.
  unfold read_next_frame. replace (6 <? version c) with false by lia. rewrite Hconn, Hin.
  set (pipeline := match value_mode (settings c) with Native => Some (symbol_encoding c) | Lossless => None end).
  assert (payload s = encode_header (fr_header f) ++ fr_body f ++ rest) as Hp'
    by (rewrite Hp; unfold frame_bytes; by rewrite <- app_assoc).
  pose proof (read_frame_spec schedule (max_message_bytes (settings c)) pipeline (fr_header f) (fr_body f) rest s
    (receive_buffer c) Hfair Hw Hl Hok (kept_isize _ Hk) Hp') as Hres.
  pose proof (read_ipc_body_total schedule (max_message_bytes (settings c)) pipeline s (receive_buffer c)
    Hfair Hs (kept_isize _ Hk) (MkWire s (receive_buffer c)) eq_refl) as Htot.
  unfold prepared_frame in Hprep. rewrite Hprep in Hres. destruct Hres as (body & w & Hr & Hrest & _ & Hstands).
  rewrite Hr in *. destruct Htot as ((Hws & _ & Hcap) & _ & Hready).
  exists body, (wire_stream w), (wire_buffer w).
  split. { unfold received_into. rewrite Hconn. by destruct m. }
  split; [done|]. split; [done|]. split; [lia|]. split; [by destruct w|by exists prepared].
Qed.

Lemma decode_exact (c : connector) s body fb prepared :
  0 <= buffer_capacity (receive_buffer c) -> body_ready (MkWire s (receive_buffer c)) body ->
  stands_for (match value_mode (settings c) with Native => Some (symbol_encoding c) | Lossless => None end)
    (receive_buffer c) body fb prepared ->
  exists v b, decode_frame_body body c = (Ok v, set_receive b c) /\ kept b /\ returns v
    /\ agrees v (decode_value_body prepared (symbol_encoding c) (value_mode (settings c))).
Proof.
  intros Hcap Hready Hst. destruct (decode_total s c body Hcap Hready) as (b & Hdec & Hk).
  pose proof (decoded_returns s c body Hready) as Hret. exists (decoded c body), b. split_and!; try done.
  unfold decoded in *. destruct body as [|d|v]; cbn [stands_for] in *.
  - subst prepared. destruct (value_mode (settings c)); [|rewrite <- decode_owned]; apply agrees_refl;
      by destruct (decode_value_body _ _ _).
  - subst prepared. apply agrees_refl. by destruct (decode_value_body _ _ _).
  - destruct Hst as (-> & encoding & Hpipe & Hag). destruct (value_mode (settings c)); [|done].
    by injection Hpipe as ->.
Qed.

(** One message: read off the stream, and decoded. *)
Lemma message_decoded schedule (c : connector) s f m rest :
  fair schedule -> streaming c s -> stream_ok s -> message_of c m f -> m <> Sync ->
  payload s = frame_bytes f ++ rest ->
  exists body s1 b1 v b2,
    read_next_frame schedule c = (Ok (m, body), received_into c s1 b1 (pending_notifications c))
    /\ decode_frame_body body (received_into c s1 b1 (pending_notifications c))
       = (Ok v, received_into c s1 b2 (pending_notifications c))
    /\ payload s1 = rest /\ stream_ok s1 /\ kept b2 /\ returns v /\ agrees v (frame_value c f).
Proof.
  intros Hfair Hc Hs Hf Hm Hp.
  destruct (message_exact schedule c s f m rest Hfair Hc Hs Hf Hm Hp)
    as (body & s1 & b1 & Hread & Hrest & Hs1 & Hcap & Hready & prepared & Hprep & Hst).
  destruct (decode_exact (received_into c s1 b1 (pending_notifications c)) s1 body (fr_body f) prepared Hcap Hready Hst)
    as (v & b2 & Hdec & Hk & Hret & Hag).
  exists body, s1, b1, v, b2. split_and!; try done. unfold frame_value. by rewrite Hprep.
Qed.

Lemma streaming_into (c : connector) s s1 b1 waiting :
  streaming c s -> kept b1 -> streaming (received_into c s1 b1 waiting) s1.
Proof.
  intros (Hv & _ & stream & Hconn & _) Hk. split; [done|]. split; [done|].
  exists (MkConnection s1 (written_bytes stream) (writes stream)). unfold received_into. by rewrite Hconn.
Qed.

Lemma received_twice (c : connector) s1 b1 w1 s2 b2 w2 :
  received_into (received_into c s1 b1 w1) s2 b2 w2 = received_into c s2 b2 w2.
Proof. unfold received_into. cbn [conn set_conn set_receive set_pending]. by destruct (conn c). Qed.

Lemma message_kept (c : connector) s b w m f : message_of c m f -> message_of (received_into c s b w) m f.
Proof. done. Qed.

(** ** The replies to a request *)

(** The bytes of messages one after the other. *)
Definition messages_bytes (fs : list frame) : list Z := concat (map frame_bytes fs).

Lemma frame_bytes_length f : (10 <= length (frame_bytes f) + 2)%nat.
Proof. unfold frame_bytes. rewrite length_app. pose proof (len_encode_header (fr_header f)). lia. Qed.

(** Notifications in front of whatever follows are queued in order, while there is
    room. *)
Lemma notifications_queued schedule notes : forall (c : connector) s fuel rest,
  fair schedule -> streaming c s -> stream_ok s -> Forall (message_of c Async) notes ->
  payload s = messages_bytes notes ++ rest ->
  len (pending_notifications c) + len notes <= max_pending_notifications (settings c) ->
  exists s1 b1 queued,
    await_response (length notes + fuel) schedule c
      = await_response fuel schedule (received_into c s1 b1 (pending_notifications c ++ queued))
    /\ payload s1 = rest /\ stream_ok s1 /\ kept b1
    /\ Forall2 (fun v f => returns v /\ agrees v (frame_value c f)) queued notes.
Proof.
  induction notes as [|f notes IH]; intros c s fuel rest Hfair Hc Hs Hf Hp Hroom.
  - exists s, (receive_buffer c), []. destruct Hc as (Hv & Hk & stream & Hconn & Hin).
    split_and!; [|done|done|done|constructor]. cbn [length Nat.add]. f_equal.
    unfold received_into. rewrite Hconn, app_nil_r. destruct c, stream. cbn in *. by subst.
  - apply Forall_cons in Hf as [Hf Hfs].
    destruct (message_decoded schedule c s f Async (messages_bytes notes ++ rest) Hfair Hc Hs Hf)
      as (body & s1 & b1 & v & b2 & Hread & Hdec & Hrest & Hs1 & Hk & Hret & Hag); [done| |].
    { rewrite Hp. unfold messages_bytes. cbn [map concat]. by rewrite <- app_assoc. }
    set (c1 := received_into c s1 b2 (pending_notifications c ++ [v])).
    destruct (IH c1 s1 fuel rest Hfair) as (s2 & b3 & queued & Hrun & Hrest2 & Hs2 & Hk2 & Hvs); try done.
    { eapply streaming_into; [exact Hc|done]. }
    { cbn [length] in Hroom. cbn. rewrite length_app. cbn [length]. lia. }
    exists s2, b3, (v :: queued). split_and!; try done; [|by constructor].
    cbn [length Nat.add await_response]. erewrite pbind_Ok by exact Hread. cbv beta iota.
    assert (queue_notification body (received_into c s1 b1 (pending_notifications c)) = (Ok tt, c1)) as Hq.
    { unfold queue_notification, the_connector. erewrite pbind_Ok by reflexivity. cbv beta.
      cbn [length] in Hroom.
      replace (_ <=? len (pending_notifications (received_into c s1 b1 (pending_notifications c)))) with false
        by (cbn [received_into set_pending set_receive set_conn settings pending_notifications]; lia).
      rewrite reserve_unlimited. by erewrite pbind_Ok by exact Hdec. }
    erewrite pbind_Ok by exact Hq. rewrite Hrun. unfold c1. rewrite received_twice. cbn [pending_notifications].
    unfold received_into at 2. cbn [pending_notifications set_pending]. by rewrite <- app_assoc.
Qed.
End Messages.
