(* ===== verification/ConnectorSpec.v ===== *)
(** * ConnectorSpec: what a connector guarantees

    Its state between calls, the requests it writes, the replies and notifications it
    delivers, and what an abort or a protocol error leaves behind. *)

From stdpp Require Import prelude strings.
From Stdlib Require Import ZArith Lia ZifyBool.
From S2P Require Import Prelude Errors Types QValue Compress ListScan Text Value AnyValue Serialize SerializeFacts Deserialize DeserializeFacts SerdeSpec Sample Framing FramingFacts FramingSpec Stream Pipeline PipelineFacts StreamFacts Receive ReceiveFacts ReceiveSpec Aborting Connector ConnectorFacts.

(** ** Calls, in any order *)

Section Calls.
  Context `{Allocator} `{Chrono} {Series DataFrame : Type}.
  Context `{!SeriesEncoder Series DataFrame} `{!SeriesDecoder Series DataFrame}.
  Context `{Tls} `{Network}.

Abbreviation kval := (K Series DataFrame).
Abbreviation connector := (Connector Series DataFrame).

Inductive call : Type :=
| Configure (new : ConnectorSettings)
| Connect (env : Interference)
| Send (env : Interference) (m : MsgType) (expr : list Z) (args : list kval)
| Receive (env : Interference) (schedule : Schedule)
| Execute (env : Interference) (schedule : Schedule) (expr : list Z) (args : list kval)
| ExecuteAsync (env : Interference) (expr : list Z) (args : list kval)
| Shutdown (answer : shutdown_result)
| AbortIdle.

(** The schedules of the calls that receive are fair. *)
Definition fair_call (o : call) : Prop :=
  match o with Receive _ schedule | Execute _ schedule _ _ => fair schedule | _ => True end.

Definition without_result {A} (m : proc connector A) : proc connector unit :=
  pbind m (fun _ => pret tt).

Definition perform (o : call) : proc connector unit :=
  match o with
  | Configure new => configure new
  | Connect env => connect env
  | Send env m expr args => send env m expr args
  | Receive env schedule => without_result (receive env schedule)
  | Execute env schedule expr args => without_result (execute env schedule expr args)
  | ExecuteAsync env expr args => execute_async env expr args
  | Shutdown answer => shutdown answer
  | AbortIdle => update (fun c => set_abort (take_active (abort_handle c)) c)
  end.

(** The states a connector can be in between calls that return. *)
Inductive reachable : connector -> Prop :=
| reach_new host port user password enable_tls timeout version :
    reachable (Connector_new host port user password enable_tls timeout version)
| reach_call c o r c' :
    reachable c -> fair_call o -> perform o c = (r, c') -> returns r -> reachable c'.

Lemma perform_keeps `{!SeriesDecoderEnds} `{!NetworkBytes} o :
  fair_call o -> keeps (consistent at_rest) (perform o).
Proof.
  intros Hfair. destruct o; cbn [perform fair_call] in *.
  - apply configure_keeps.
  - apply guarded_idle. intros id. apply connect_inner_keeps.
  - apply guarded_io_idle. intros id. apply send_inner_keeps.
  - apply keeps_bind; [|intros ?; apply keeps_ret]. intros c Hc. unfold receive.
    destruct (pending_notifications c) as [|notification later]; [|intros _; by apply set_pending_ok].
    refine (guarded_io_idle env _ _ c Hc). intros id. by apply receive_inner_keeps.
  - apply keeps_bind; [|intros ?; apply keeps_ret]. apply guarded_io_idle. intros id. by apply execute_inner_keeps.
  - apply guarded_io_idle. intros id. apply keeps_bind; [apply keeps_get|]. intros c.
    apply keeps_bind; [apply keeps_if; [apply keeps_ret|apply connect_inner_keeps]|]. intros _. apply send_inner_keeps.
  - apply shutdown_keeps.
  - apply keeps_update. intros c Hc. by apply (set_abort_ok at_rest).
Qed.

Lemma new_consistent host port user password enable_tls timeout version :
  consistent at_rest (@Connector_new _ Series DataFrame host port user password enable_tls timeout version).
Proof. by split. Qed.

(** C8: the state of a connector is consistent between any calls, in any order, with
    any results, whatever the peer sends, the network and the allocator do, and
    wherever other threads abort: the stream and the socket handle come and go
    together, no operation is left registered for abort, neither kept buffer is larger
    than 256 MiB, at least one notification can wait, TLS settings only exist on a TLS
    connector, and a client certificate has its key. *)
Theorem connector_invariant `{!SeriesDecoderEnds} `{!NetworkBytes} (c : connector) :
  reachable c ->
  is_some (conn c) = is_some (tcp_stream c)
  /\ active_operation (abort_handle c) = None
  /\ buffer_capacity (receive_buffer c) <= MAX_RETAINED_BUFFER_BYTES
  /\ buffer_capacity (send_buffer c) <= MAX_RETAINED_BUFFER_BYTES
  /\ max_pending_notifications (settings c) <> 0
  /\ (has_tls (settings c) = true -> enable_tls c = true)
  /\ is_some (tls_cert (settings c)) = is_some (tls_key (settings c)).
Proof.
  intros Hr. assert (consistent at_rest c) as Hc.
  { induction Hr as [|c o r c' _ IH Hfair Hp Hret]; [apply new_consistent|].
    pose proof (perform_keeps o Hfair c IH) as Hk. rewrite Hp in Hk. by apply Hk. }
  destruct Hc as [Hp _ [_ Hrb] [_ Hsb] Hm Ht Hk Ha]. by split_and!.
Qed.

(** An abort takes the connection down.  Whatever an operation was doing when its
    handle was aborted, and whatever it returned, the call reports that it was aborted
    and leaves the connector disconnected, with an empty receive buffer and no active
    operation. *)
Theorem aborted_call_disconnects {A} (env : Interference) (operation : Z -> proc connector A) (c : connector) :
  before_finish env = true ->
  let '(r, c') := guarded env operation c in
  returns r ->
  r = Err operation_aborted_error
  /\ conn c' = None /\ tcp_stream c' = None /\ receive_buffer c' = new_buffer
  /\ active_operation (abort_handle c') = None.
Proof.
  intros Henv. unfold guarded, begin_operation. destruct (operation _ _) as [[a|e| |] c1]; try by intros [].
  all: unfold finish_operation; rewrite Henv; cbn [interrupted]; unfold finish, is_active, take_active; cbn.
  all: intros _; by split_and!.
Qed.

(** A message that cannot be received takes the connection down.  Reading a frame
    fails without a connection, or it disconnects: a truncated or malformed frame, a
    failing stream and a synchronous request from the peer all leave no stream, no
    socket and no partial data in the receive buffer, and the notifications that wait
    are kept. *)
Theorem failed_read_disconnects `{!SeriesDecoderEnds} (schedule : Schedule) (c : connector) :
  fair schedule -> consistent at_rest c ->
  let '(r, c') := read_next_frame schedule c in
  match r with
  | Ok (m, _) => m <> Sync /\ is_some (conn c') = true
  | Err e =>
    pending_notifications c' = pending_notifications c
    /\ ((conn c' = None /\ tcp_stream c' = None /\ receive_buffer c' = new_buffer)
        \/ (c' = c /\ e = NotConnectedErr /\ (conn c = None \/ 6 < version c)))
  | _ => False
  end.
Proof.
  intros Hfair Hc. pose proof (read_next_frame_total at_rest schedule c Hfair Hc) as Hr.
  destruct (read_next_frame schedule c) as [[[m body]|e| |] c']; try done.
  - destruct Hr as (Hm & stream & s & b & Hconn & -> & _). split; [done|]. cbn. by rewrite Hconn.
  - destruct Hr as [->|(-> & He & Hn)]; split; [done|by left|done|right; by split_and!].
Qed.

(** Waiting for a reply ends.  Whatever the peer sends after a request (endless
    notifications, garbage, or nothing), the loop over incoming messages comes to a
    value or an error within the bytes that arrive, without a panic. *)
Theorem reply_loop_ends `{!SeriesDecoderEnds} (schedule : Schedule) (c : connector) :
  fair schedule -> consistent at_rest c ->
  let '(r, c') := await_response (S (unread c)) schedule c in
  returns r /\ consistent at_rest c'.
Proof.
  intros Hfair Hc. apply (await_total at_rest); [done|done| |done].
  intros stream Hconn. unfold unread. rewrite Hconn. pose proof (stream_bytes_size (incoming stream)). lia.
Qed.
End Calls.

(** ** Messages *)

#[local] Existing Instance unlimited.
#[local] Existing Instance native_codec.

Section Exchange.
  Context `{Chrono} {Series DataFrame : Type}.
  Context `{!SeriesEncoder Series DataFrame} `{!SeriesDecoder Series DataFrame}.

Abbreviation kval := (K Series DataFrame).
Abbreviation connector := (Connector Series DataFrame).

(** The frames of messages are told apart by their bytes alone. *)
Lemma enough_rounds (notes : list frame) reply rest :
  (length notes < length (messages_bytes notes ++ frame_bytes reply ++ rest))%nat.
Proof.
  rewrite !length_app. pose proof (frame_bytes_length reply).
  assert (length notes <= length (messages_bytes notes))%nat as Hn; [|lia].
  induction notes as [|f notes IH]; [cbn; lia|]. unfold messages_bytes in *. cbn [map concat].
  rewrite length_app. pose proof (frame_bytes_length f). cbn [length]. lia.
Qed.

Lemma replies_delivered `{!SeriesDecoderEnds} schedule (c : connector) s notes reply rest :
  fair schedule -> streaming c s -> stream_ok s ->
  Forall (message_of c Async) notes -> message_of c Response reply ->
  payload s = messages_bytes notes ++ frame_bytes reply ++ rest ->
  len (pending_notifications c) + len notes <= max_pending_notifications (settings c) ->
  exists v queued s1 b1,
    await_response (S (unread c)) schedule c
      = (v, received_into c s1 b1 (pending_notifications c ++ queued))
    /\ payload s1 = rest /\ stream_ok s1 /\ kept b1 /\ returns v
    /\ agrees v (frame_value c reply)
    /\ Forall2 (fun v f => returns v /\ agrees v (frame_value c f)) queued notes.
Proof.
  intros Hfair Hc Hs Hnotes Hreply Hp Hroom. pose proof Hc as (_ & _ & stream & Hconn & Hin).
  pose proof (enough_rounds notes reply rest) as Hrounds. rewrite <- Hp in Hrounds.
  pose proof (payload_size s) as Hsize.
  assert (exists fuel, S (unread c) = (length notes + S fuel)%nat) as [fuel ->].
  { unfold unread. rewrite Hconn, Hin. exists (stream_size s - length notes)%nat. lia. }
  destruct (notifications_queued schedule notes c s (S fuel) (frame_bytes reply ++ rest)) as
    (s1 & b1 & queued & Hrun & Hrest & Hs1 & Hk & Hvs); try done.
  rewrite Hrun. set (c1 := received_into c s1 b1 (pending_notifications c ++ queued)).
  destruct (message_decoded schedule c1 s1 reply Response rest) as
    (body & s2 & b2 & v & b3 & Hread & Hdec & Hrest2 & Hs2 & Hk2 & Hret & Hag); try done.
  { by eapply streaming_into. }
  exists v, queued, s2, b3. split_and!; try done.
  cbn [await_response]. erewrite pbind_Ok by exact Hread. cbv beta iota.
  erewrite pbind_Ok by exact Hdec. unfold lift, c1. by rewrite received_twice.
Qed.

(** C9: replies and notifications are told apart and kept in order.  When the bytes a
    peer sends are notifications, then a response, then anything, waiting for the
    response returns exactly its value, queues the notifications in the order they
    came behind those that already wait, and leaves the stream at the first byte after
    the response; of the rest of the connector only the receive buffer changes.  Every
    value is what the decoder makes of the whole frame, however it was cut into
    reads and whether or not it was decoded while it arrived. *)
Theorem replies_in_order `{!SeriesDecoderEnds} (schedule : Schedule) (c : connector) (s : stream)
    (notes : list frame) (reply : frame) (rest : list Z) :
  fair schedule -> streaming c s -> stream_ok s ->
  Forall (message_of c Async) notes -> message_of c Response reply ->
  payload s = messages_bytes notes ++ frame_bytes reply ++ rest ->
  len (pending_notifications c) + len notes <= max_pending_notifications (settings c) ->
  exists v queued s1 b1,
    await_response (S (unread c)) schedule c
      = (v, received_into c s1 b1 (pending_notifications c ++ queued))
    /\ payload s1 = rest
    /\ returns v /\ agrees v (frame_value c reply)
    /\ Forall2 (fun v f => returns v /\ agrees v (frame_value c f)) queued notes.
Proof.
  intros Hfair Hc Hs Hn Hr Hp Hroom.
  destruct (replies_delivered schedule c s notes reply rest Hfair Hc Hs Hn Hr Hp Hroom)
    as (v & queued & s1 & b1 & Ha & Hp1 & _ & _ & Hret & Hag & Hvs).
  by exists v, queued, s1, b1.
Qed.

Lemma queue_full body (c : connector) :
  max_pending_notifications (settings c) <= len (pending_notifications c) ->
  queue_notification body c
  = (Err (GeneralErr ("Pending notification limit " +:+ show (max_pending_notifications (settings c))
                      +:+ " exceeded")), disconnected c).
Proof.
  intros Hfull. unfold queue_notification, the_connector, get, pbind at 1.
  by replace (_ <=? _) with true by lia.
Qed.

(** C39: the queue of notifications is bounded.  The notification that finds the queue
    full is dropped with the connection: the call fails with the configured limit,
    nothing stays connected, and the notifications that fitted, in order, can still be
    received. *)
Theorem notification_limit `{!SeriesDecoderEnds} (schedule : Schedule) (c : connector) (s : stream)
    (notes : list frame) (extra : frame) (rest : list Z) :
  fair schedule -> streaming c s -> stream_ok s ->
  Forall (message_of c Async) notes -> message_of c Async extra ->
  payload s = messages_bytes notes ++ frame_bytes extra ++ rest ->
  len (pending_notifications c) + len notes = max_pending_notifications (settings c) ->
  exists queued c',
    await_response (S (unread c)) schedule c
      = (Err (GeneralErr ("Pending notification limit " +:+ show (max_pending_notifications (settings c))
                          +:+ " exceeded")), c')
    /\ conn c' = None /\ tcp_stream c' = None /\ receive_buffer c' = new_buffer
    /\ pending_notifications c' = pending_notifications c ++ queued
    /\ len (pending_notifications c') = max_pending_notifications (settings c)
    /\ Forall2 (fun v f => returns v /\ agrees v (frame_value c f)) queued notes.
Proof.
  intros Hfair Hc Hs Hnotes Hextra Hp Hroom. pose proof Hc as (_ & _ & stream & Hconn & Hin).
  pose proof (enough_rounds notes extra rest) as Hrounds. rewrite <- Hp in Hrounds.
  pose proof (payload_size s) as Hsize.
  assert (exists fuel, S (unread c) = (length notes + S fuel)%nat) as [fuel ->].
  { unfold unread. rewrite Hconn, Hin. exists (stream_size s - length notes)%nat. lia. }
  destruct (notifications_queued schedule notes c s (S fuel) (frame_bytes extra ++ rest)) as
    (s1 & b1 & queued & Hrun & Hrest & Hs1 & Hk & Hvs); try done; [lia|].
  rewrite Hrun. set (c1 := received_into c s1 b1 (pending_notifications c ++ queued)).
  destruct (message_decoded schedule c1 s1 extra Async rest) as
    (body & s2 & b2 & v & b3 & Hread & _ & _); try done.
  { by eapply streaming_into. }
  pose proof (Forall2_length _ _ _ Hvs) as Hlen.
  exists queued, (disconnected (received_into c1 s2 b2 (pending_notifications c1))).
  split_and!; try done.
  - cbn [await_response]. erewrite pbind_Ok by exact Hread. cbv beta iota.
    assert (max_pending_notifications (settings c) <= len (pending_notifications c ++ queued)) as Hfull
      by (rewrite length_app; lia).
    by rewrite (pbind_Err _ _ _ _ _ (queue_full body (received_into c1 s2 b2 (pending_notifications c1)) Hfull)).
  - change (len (pending_notifications c ++ queued) = max_pending_notifications (settings c)).
    rewrite length_app. lia.
Qed.

(** C14: a request arrives as it was meant.  When sending succeeds, exactly one frame
    was written behind what was written before, and nothing else but the send buffer
    changed; the frame's body is the serialization of the expression, or of the list of
    the function and its arguments; and whoever reads the frame, compressed or not,
    gets the message kind and what that body decodes to, in either mode.  For a request
    of the values of C3 (an expression, or a call whose function and arguments are
    [typed], [plain] and not all of them strings or char vectors, within 64 levels)
    that is the request itself, strings read as char vectors; of other requests (with
    columns, tables, opaque values or only strings) the body is what is guaranteed. *)
Theorem request_roundtrip `{!ChronoLaws} `{!SeriesEncoderLaws} `{!SeriesDecoderLaws}
    (m : MsgType) (expr : list Z) (args : list kval) (c c' : connector) (stream : Connection) :
  conn c = Some stream -> Forall typed args -> send_inner m expr args c = (Ok tt, c') ->
  exists body payload stream' b,
    c' = set_send b (set_conn (Some stream') c)
    /\ incoming stream' = incoming stream
    /\ written_bytes stream' = written_bytes stream ++ payload
    /\ let request := request_value (trim expr) args in
       serialize_into request [] = Ok body
       /\ (bytes_ok body -> forall encoding mode,
            @deserialize_ipc_frame unlimited kval _ payload encoding mode
            = (value ← decode_value_body (Borrowed body) encoding mode; Ok (m, value)))
       /\ (bytes_ok body -> typed request -> plain request -> wire_depth request <= MAX_VALUE_DEPTH ->
           is_ok (j6_len request) = true -> forall encoding,
            @deserialize_ipc_frame unlimited kval _ payload encoding Native = Ok (m, read_back request)).
Proof.
  intros Hconn Ht Hsend.
  destruct (send_inner_writes m expr args c c' stream Hconn Ht Hsend)
    as (body & payload & stream' & b & Hc' & Hin & Hwr & Hser & Hlen2 & Hmax & Hp).
  exists body, payload, stream', b. cbv zeta. split_and!; try done.
  - intros Hb encoding mode. by eapply sent_frame_decodes.
  - intros Hb Htyped Hplain Hdepth Hlen encoding.
    rewrite (sent_frame_decodes _ m body payload encoding Native Hb Hlen2 Hmax Hp).
    assert (serialize (request_value (trim expr) args) = Ok body) as Hs.
    { unfold serialize. destruct (j6_len _); done. }
    assert (slice_ok body) as Hok.
    { split; [done|]. change (len body + 8 <= MAX_IPC_LENGTH_FIELD) in Hmax. unfold MAX_IPC_LENGTH_FIELD in Hmax. bool_lia. }
    cbn [decode_value_body Framing.deserialize native_codec cow_bytes].
    by rewrite (serialized_reads_back _ body encoding Htyped Hplain Hdepth Hs Hok).
Qed.

(** C5: a synchronous call answers with the reply to it.  On an open connection that
    nobody aborts, when the request can be sent and the peer's bytes are notifications,
    a response and whatever follows, [execute] returns the value of that response; the
    request was written, the notifications wait in order, the connection is open at
    the byte after the response, and no operation is left registered for abort. *)
Theorem execute_answers `{!SeriesDecoderEnds} `{!ChronoLaws} `{!SeriesEncoderLaws} `{Tls} `{Network}
    (env : Interference) (schedule : Schedule) (expr : list Z) (args : list kval) (c sent : connector)
    (stream : Connection) (notes : list frame) (reply : frame) (rest : list Z) :
  before_finish env = false -> fair schedule -> consistent at_rest c -> version c <= 6 ->
  conn c = Some stream -> Forall typed args -> send_inner Sync expr args c = (Ok tt, sent) ->
  Forall (message_of c Async) notes -> message_of c Response reply ->
  payload (incoming stream) = messages_bytes notes ++ frame_bytes reply ++ rest ->
  len (pending_notifications c) + len notes <= max_pending_notifications (settings c) ->
  exists v queued c' stream',
    execute env schedule expr args c = (v, c')
    /\ returns v /\ agrees v (frame_value c reply)
    /\ pending_notifications c' = pending_notifications c ++ queued
    /\ Forall2 (fun v f => returns v /\ agrees v (frame_value c f)) queued notes
    /\ conn c' = Some stream' /\ payload (incoming stream') = rest
    /\ Some (written_bytes stream') = written_bytes <$> conn sent
    /\ tcp_stream c' = tcp_stream c /\ active_operation (abort_handle c') = None.
Proof.
  intros Henv Hfair Hc Hv Hconn Ht Hsend Hnotes Hreply Hp Hroom.
  destruct (send_inner_writes Sync expr args c sent stream Hconn Ht Hsend)
    as (body & bytes & stream1 & b & -> & Hin & Hwr & _).
  unfold execute, guarded_io, guarded, begin_operation. set (id := next_operation_id (abort_handle c)).
  set (a0 := MkAbortState (Some (MkAbortOperation id None)) (wrapping_succ id)).
  pose proof (ok_paired _ _ Hc) as Hpair. rewrite Hconn in Hpair. cbn [is_some] in Hpair.
  destruct (tcp_stream c) as [tcp|] eqn:Htcp; [|done].
  set (a1 := MkAbortState (Some (MkAbortOperation id (Some tcp))) (wrapping_succ id)).
  assert (attach_open_stream id (set_abort a0 c) = set_abort a1 c) as Ha.
  { unfold attach_open_stream. cbn [tcp_stream set_abort]. rewrite Htcp. unfold attach_stream, is_active, a0.
    cbn [abort_handle set_abort active_operation op_id]. by rewrite Z.eqb_refl. }
  rewrite Ha. unfold execute_inner, the_connector, get. unfold pbind at 1. cbn [conn set_abort].
  rewrite Hconn. cbn [is_some]. rewrite pbind_ret.
  assert (send_inner Sync expr args (set_abort a1 c)
    = (Ok tt, set_abort a1 (set_send b (set_conn (Some stream1) c)))) as Hs by (by rewrite send_inner_blind, Hsend).
  erewrite pbind_Ok by exact Hs. unfold pbind at 1.
  set (c1 := set_abort a1 (set_send b (set_conn (Some stream1) c))).
  assert (streaming c1 (incoming stream1)) as Hstr.
  { split; [done|]. split; [exact (ok_receive _ _ Hc)|]. by exists stream1. }
  assert (stream_ok (incoming stream1)) as Hok by (rewrite Hin; exact (ok_readable _ _ Hc _ Hconn)).
  destruct (replies_delivered schedule c1 (incoming stream1) notes reply rest)
    as (v & queued & s2 & b2 & Hrun & Hrest & _ & _ & Hret & Hag & Hvs); try done.
  { by rewrite Hin. }
  rewrite Hrun. set (c2 := received_into c1 s2 b2 (pending_notifications c1 ++ queued)).
  exists v, queued, (set_abort (MkAbortState None (wrapping_succ id)) c2),
    (MkConnection s2 (written_bytes stream1) (writes stream1)).
  assert (finish_operation env id v c2 = (v, set_abort (MkAbortState None (wrapping_succ id)) c2)) as Hfin.
  { unfold finish_operation. rewrite Henv. cbn [interrupted]. unfold finish, is_active.
    change (abort_handle c2) with a1. unfold a1. cbn [active_operation op_id]. by rewrite Z.eqb_refl. }
  split_and!; try done. by destruct v.
Qed.
End Exchange.

(** ** Witnesses *)

(** A peer that authenticates any client, then sends a notification and a reply, and a
    first byte of something else. *)
Definition null_frame (kind : Z) : frame := MkFrame (MkHeaderFields kind 0 10) [101; 0].
Definition peer_messages : stream :=
  [Data (frame_bytes (null_frame 0)); Data [1; 2; 0]; Failure (IoError Interrupted "");
   Data [0; 10; 0; 0; 0; 101]; Data [0; 9]].
Definition peer : stream := Data [3] :: peer_messages.

#[local] Instance sample_tls : Tls :=
  {| valid_server_name := fun _ => Ok tt; tls_client_config := fun _ => Ok tt |}.
#[local] Instance sample_network : Network := {|
  address := unit;
  to_socket_addrs := fun _ _ => Ok [tt; tt];
  elapsed := fun _ => 0;
  tcp_connect := fun _ _ => Ok (7%nat, MkConnection peer [] []);
  set_options := fun _ _ _ => Ok tt;
  client_connection := fun _ _ stream => Ok stream
|}.

Lemma peer_ok : stream_ok peer.
Proof. by repeat constructor. Qed.
#[local] Instance sample_network_bytes : NetworkBytes.
Proof. split; [by intros a limit tcp stream [= <- <-]; apply peer_ok|by intros name s stream stream' [= <-]]. Qed.

Definition sample_connector : Connector SampleSeries (list SampleSeries) :=
  Connector_new [] 5000 [] [] false 30 6.
Definition undisturbed : Interference := MkInterference false false.

Lemma connector_invariant_witness :
  let c := snd (perform (Connect undisturbed) sample_connector) in
  is_some (conn c) = true /\ is_some (tcp_stream c) = true.
Proof.
  set (c := snd (perform (Connect undisturbed) sample_connector)). cbv zeta.
  assert (is_some (conn c) = true) as Hopen by (by vm_compute).
  assert (reachable c) as Hr.
  { apply (reach_call sample_connector (Connect undisturbed) (fst (perform (Connect undisturbed) sample_connector)) c).
    - apply reach_new.
    - exact Logic.I.
    - apply surjective_pairing.
    - by vm_compute. }
  split; [exact Hopen|]. destruct (connector_invariant c Hr) as [Hp _]. by rewrite <- Hp.
Defined.

Lemma aborted_call_disconnects_witness :
  conn (snd (guarded (MkInterference false true) (connect_inner undisturbed) sample_connector)) = None.
Proof.
  pose proof (aborted_call_disconnects (MkInterference false true) (connect_inner undisturbed) sample_connector eq_refl) as H.
  destruct (guarded _ _ sample_connector) as [r c'] eqn:E. assert (returns r) as Hr.
  { replace r with (fst (guarded (MkInterference false true) (connect_inner undisturbed) sample_connector))
      by (by rewrite E). by vm_compute. }
  exact (proj1 (proj2 (H Hr))).
Defined.

(** An open connector whose peer will send [s]. *)
Definition open_connector (s : stream) : Connector SampleSeries (list SampleSeries) :=
  set_conn (Some (MkConnection s [] [])) (set_tcp (Some 7%nat) sample_connector).

Lemma open_consistent s : stream_ok s -> consistent at_rest (open_connector s).
Proof. intros Hs. split; try done. by intros stream [= <-]. Qed.

Lemma open_streaming s : streaming (open_connector s) s.
Proof. split; [done|]. split; [done|]. by exists (MkConnection s [] []). Qed.

Lemma failed_read_disconnects_witness :
  conn (snd (read_next_frame in_order (open_connector broken_table))) = None.
Proof.
  pose proof (failed_read_disconnects in_order (open_connector broken_table) in_order_fair
    (open_consistent _ broken_table_ok)) as H.
  assert (is_ok (fst (read_next_frame in_order (open_connector broken_table))) = false) as Hf by (by vm_compute).
  destruct (read_next_frame in_order (open_connector broken_table)) as [[[m body]|e| |] c']; try done.
  destruct H as [_ [(H1 & _)|(_ & _ & [H2|H2])]]; [exact H1|discriminate H2|discriminate H2].
Defined.

Lemma reply_loop_ends_witness :
  returns (fst (await_response (S (unread (open_connector broken_table))) in_order (open_connector broken_table))).
Proof.
  pose proof (reply_loop_ends in_order (open_connector broken_table) in_order_fair
    (open_consistent _ broken_table_ok)) as H.
  destruct (await_response _ _ _) as [r c']. exact (proj1 H).
Defined.

Lemma null_message s kind m :
  message_type kind = Ok m -> 0 <= kind <= 2 -> message_of (open_connector s) m (null_frame kind).
Proof.
  intros Hm Hk. split.
  - split; [|split; [done|split; [by repeat constructor|by vm_compute]]].
    unfold header_wf, IPC_HEADER_LENGTH, MIN_SERIALIZED_VALUE_LENGTH, MAX_IPC_LENGTH_FIELD, null_frame.
    cbn [fr_header message_kind compression_mode total_length]. lia.
  - exists (Borrowed [101; 0]). unfold prepared_frame, prepare_ipc_body.
    cbn [fr_header fr_body null_frame total_length cow_bytes].
    change (checked_body_length 10 "IPC message") with (Ok 2 : res Z). cbn [mbind outcome_bind].
    change (negb (len [101; 0] =? 2)) with false. cbv iota. cbn [compression_mode message_kind].
    change (0 =? 0) with true. cbv iota. cbn. by rewrite Hm.
Qed.

Lemma peer_messages_ok : stream_ok peer_messages.
Proof. by repeat constructor. Qed.

Lemma replies_in_order_witness :
  exists v queued s b,
    await_response (S (unread (open_connector peer_messages))) in_order (open_connector peer_messages)
      = (v, received_into (open_connector peer_messages) s b queued)
    /\ payload s = [9] /\ length queued = 1%nat.
Proof.
  destruct (replies_in_order in_order (open_connector peer_messages) peer_messages
    [null_frame 0] (null_frame 2) [9] in_order_fair (open_streaming _) peer_messages_ok
    (List.Forall_cons _ _ _ (null_message _ 0 Async eq_refl ltac:(lia)) (List.Forall_nil _))
    (null_message _ 2 Response eq_refl ltac:(lia)) eq_refl ltac:(cbn; lia))
    as (v & queued & s & b & Hrun & Hrest & _ & _ & Hq).
  exists v, queued, s, b. split; [exact Hrun|]. split; [exact Hrest|]. by apply Forall2_length in Hq.
Defined.

(** A connector with room for one notification. *)
Definition small_connector (s : stream) : Connector SampleSeries (list SampleSeries) :=
  set_settings (MkSettings Native Auto 10000000 None None None None 1 None None None None) (open_connector s).

Definition flooding_peer : stream :=
  [Data (frame_bytes (null_frame 0) ++ frame_bytes (null_frame 0)); Data (frame_bytes (null_frame 2))].

Lemma notification_limit_witness :
  exists c', snd (await_response (S (unread (small_connector flooding_peer))) in_order (small_connector flooding_peer)) = c'
    /\ conn c' = None /\ len (pending_notifications c') = 1.
Proof.
  assert (stream_ok flooding_peer) as Hs by (by repeat constructor).
  assert (streaming (small_connector flooding_peer) flooding_peer) as Hst by apply open_streaming.
  assert (message_of (small_connector flooding_peer) Async (null_frame 0)) as Hm
    by exact (null_message flooding_peer 0 Async eq_refl ltac:(lia)).
  destruct (notification_limit in_order (small_connector flooding_peer) flooding_peer
    [null_frame 0] (null_frame 0) (frame_bytes (null_frame 2)) in_order_fair Hst Hs
    (List.Forall_cons _ _ _ Hm (List.Forall_nil _)) Hm eq_refl eq_refl)
    as (queued & c' & Hrun & Hc & _ & _ & _ & Hlen & _).
  exists c'. rewrite Hrun. split; [reflexivity|]. split; [exact Hc|exact Hlen].
Defined.

(** The request [{x+1}[42]]. *)
Definition sample_expr : list Z := [123; 120; 43; 49; 125].
Definition sample_args : list (K SampleSeries (list SampleSeries)) := [KI64 42].

Lemma sample_args_typed : Forall typed sample_args.
Proof. constructor; [|constructor]. cbn. unfold i64_min, i64_max. lia. Qed.

Definition sent_connector : Connector SampleSeries (list SampleSeries) :=
  snd (send_inner Sync sample_expr sample_args (open_connector peer_messages)).

Lemma sample_sent :
  send_inner Sync sample_expr sample_args (open_connector peer_messages) = (Ok tt, sent_connector).
Proof.
  rewrite (surjective_pairing (send_inner Sync sample_expr sample_args (open_connector peer_messages))).
  unfold sent_connector. f_equal.
Qed.

(** A call of the function named [f]. *)
Definition named_expr : list Z := [102].

Definition named_connector : Connector SampleSeries (list SampleSeries) :=
  snd (send_inner Sync named_expr sample_args (open_connector peer_messages)).

Lemma named_sent :
  send_inner Sync named_expr sample_args (open_connector peer_messages) = (Ok tt, named_connector).
Proof.
  rewrite (surjective_pairing (send_inner Sync named_expr sample_args (open_connector peer_messages))).
  unfold named_connector. f_equal.
Qed.

Lemma named_typed : typed (request_value (trim named_expr) sample_args).
Proof.
  change (typed (KMixedList (KString named_expr :: sample_args))). cbn. split_and!; try exact I; [ascii|..];
    unfold i64_min, i64_max; lia.
Qed.

Definition named_body : list Z := Eval vm_compute in
  match serialize_into (request_value (trim named_expr) sample_args) [] with Ok body => body | _ => [] end.

Lemma request_roundtrip_witness :
  exists payload, written_bytes <$> conn named_connector = Some payload
    /\ @deserialize_ipc_frame unlimited (K SampleSeries (list SampleSeries)) _ payload Strict Native
       = Ok (Sync, KMixedList [KCharVector named_expr; KI64 42]).
Proof.
  destruct (request_roundtrip Sync named_expr sample_args (open_connector peer_messages) named_connector
    (MkConnection peer_messages [] []) eq_refl sample_args_typed named_sent)
    as (body & payload & stream' & b & Hc & Hin & Hwr & Hbody & _ & Hread).
  exists payload. split; [rewrite Hc; cbn [conn set_send set_conn fmap option_fmap option_map]; by rewrite Hwr|].
  assert (serialize_into (request_value (trim named_expr) sample_args) [] = Ok named_body) as Hout by (by vm_compute).
  rewrite Hout in Hbody. injection Hbody as <-.
  refine (Hread (bytes_ok_dec named_body eq_refl) named_typed _ _ _ Strict); [|by vm_compute..].
  split; [by right; left|]. by split_and!.
Defined.

Lemma execute_answers_witness :
  exists v queued c' stream',
    execute undisturbed in_order sample_expr sample_args (open_connector peer_messages) = (v, c')
    /\ returns v /\ pending_notifications c' = queued /\ length queued = 1%nat
    /\ conn c' = Some stream' /\ payload (incoming stream') = [9].
Proof.
  destruct (execute_answers undisturbed in_order sample_expr sample_args (open_connector peer_messages)
    sent_connector (MkConnection peer_messages [] []) [null_frame 0] (null_frame 2) [9]
    eq_refl in_order_fair (open_consistent _ peer_messages_ok) ltac:(by vm_compute) eq_refl sample_args_typed sample_sent
    (List.Forall_cons _ _ _ (null_message _ 0 Async eq_refl ltac:(lia)) (List.Forall_nil _))
    (null_message _ 2 Response eq_refl ltac:(lia)) eq_refl ltac:(cbn; lia))
    as (v & queued & c' & stream' & Hrun & Hret & _ & Hpend & Hq & Hc & Hrest & _).
  exists v, queued, c', stream'. split; [exact Hrun|]. split; [exact Hret|]. split; [exact Hpend|].
  split; [by apply Forall2_length in Hq|]. split; [exact Hc|exact Hrest].
Defined.
