(* ===== verification/Io.v ===== *)
(** * Io: table files and whole messages ([crates/xqdb/src/io.rs])

    Reading a q table file, plain or in the kxzip container, and making or reading one
    IPC message in memory.  The file system is the environment's; the LZ4 frame decoder
    and the xxHash checksum are third-party code and parameters of the model. *)

From stdpp Require Import prelude strings.
From Stdlib Require Import ZArith.
From S2P Require Import Prelude Errors Types QValue Compress Text Value AnyValue Serialize Deserialize Framing Stream Connector.

(** "kxzipped". *)
Definition KXZIP_MAGIC : list Z := [107; 120; 122; 105; 112; 112; 101; 100].
Definition KXZIP_HEADER_LENGTH : Z := 8.
Definition KXZIP_FOOTER_WORD_LENGTH : Z := 8.
Definition KXZIP_FIXED_FOOTER_WORDS : Z := 5.
Definition MAX_LZ4_EXPANSION_RATIO : Z := 255.
Definition INITIAL_FILE_RESERVATION : Z := 64 * 1024.

(** [lz4_flex]'s frame decoder over a frame in memory, and [xxh32] with seed 0: what
    reads of the decoder find, and where in the frame it stands once it has reported
    the end. *)
Class Lz4 := {
  xxh32 : list Z -> Z;
  frame_decoder : list Z -> stream;
  frame_position : list Z -> Z
}.

(** [std::fs]: whether a path is a regular file and the length it reports, and what
    reads of the opened file find. *)
Class FileSystem := {
  metadata : string -> outcome io_error (bool * Z);
  open_file : string -> outcome io_error stream
}.

(** [slice.starts_with(prefix)]. *)
Definition has_prefix (prefix bytes : list Z) : bool := bool_decide (take (length prefix) bytes = prefix).

(** ** Lengths and footer fields *)

Definition checked_j6_ipc_total_length (body_length : Z) : res (Z * Z * Z) :=
  total_length ← ok_or (checked_add body_length 8) (GeneralErr "J6 IPC message length overflowed");
  '(high_byte, low_length) ← ipc_length_header total_length;
  Ok (total_length, high_byte, low_length).

Definition kxzip_usize (bytes : list Z) (description : string) : res Z :=
  if negb (len bytes =? 8) then
    general ("Kxzip " +:+ description +:+ " is shorter than the required 8 bytes")
  else
    ok_or (try_usize (from_le bytes))
      (GeneralErr ("Kxzip " +:+ description +:+ " cannot be represented on this platform")).

Definition kxzip_footer_length (block_num : Z) : res Z :=
  ok_or (words ← checked_add block_num KXZIP_FIXED_FOOTER_WORDS;
         checked_mul words KXZIP_FOOTER_WORD_LENGTH)
    (GeneralErr "Kxzip footer length overflowed").

Definition lz4_block_size (footer : list Z) (block_index : Z) : res Z :=
  offset ← ok_or (offset ← checked_mul block_index KXZIP_FOOTER_WORD_LENGTH; checked_add 32 offset)
    (GeneralErr "Kxzip LZ4 block metadata offset overflowed");
  stop ← ok_or (checked_add offset 4) (GeneralErr "Kxzip LZ4 block metadata range overflowed");
  bytes ← ok_or (get_range footer offset stop)
    (GeneralErr ("Kxzip footer is truncated at LZ4 block " +:+ show block_index));
  Ok (from_le bytes).

Definition decompression_error (error : io_error) : XqdbError :=
  IOError (IoError (kind error) ("Failed to decompress Kxzip LZ4 data: " +:+ io_message error)).

(** ** Reading a file *)

Section Files.
  Context `{Allocator}.

Definition grow_file (description : string) (b : Buffer) : res Buffer :=
  let target := Z.max (saturating_mul (buffer_capacity b) 2) INITIAL_FILE_RESERVATION in
  additional ← usub target (len (buffer_data b));
  try_reserve_exact b additional (fun error =>
    GeneralErr ("Unable to allocate " +:+ show target +:+ "-byte " +:+ description +:+ " buffer: "
                +:+ error)).

(** The one-byte probe: a read that is repeated while it is interrupted. *)
Fixpoint probe_loop (fuel : nat) (s : stream) : io (list Z) * stream :=
  match fuel with
  | O => (OutOfFuel, s)
  | S fuel =>
    match read 1 s with
    | (Err e, s) => if is_interrupted e then probe_loop fuel s else (Err e, s)
    | r => r
    end
  end.

Fixpoint file_loop (fuel : nat) (description : string) (b : Buffer) (s : stream) : res (list Z) :=
  match fuel with
  | O => OutOfFuel
  | S fuel =>
    spare ← usub (buffer_capacity b) (len (buffer_data b));
    let '(r, appended, s) := if 0 <? spare then read_to_end spare s else (Ok tt, [], s) in
    _ ← map_err IOError r;
    let b := MkBuffer (buffer_data b ++ appended) (buffer_capacity b) in
    if len appended <? spare then Ok (buffer_data b)
    else
      let '(r, s) := probe_loop (S (stream_size s)) s in
      probe ← map_err IOError r;
      match probe with
      | [] => Ok (buffer_data b)
      | _ =>
        b ← grow_file description b;
        file_loop fuel description (extend_buffer b probe) s
      end
  end.

(** Every round but the last finds a byte. *)
Definition read_file_fallibly (file : stream) (hint : Z) (description : string) : res (list Z) :=
  b ← (if 0 <? hint then
         try_reserve_exact new_buffer hint (fun error =>
           GeneralErr ("Unable to allocate " +:+ show hint +:+ "-byte " +:+ description +:+ " buffer: "
                       +:+ error))
       else grow_file description new_buffer);
  file_loop (S (stream_size file)) description b file.

End Files.

(** ** The kxzip container *)

Definition is_power_of_two (z : Z) : bool := (0 <? z) && (z =? 2 ^ Z.log2 z).

Definition block_descriptor (block_size : Z) : Z :=
  if block_size <=? 65536 then 64
  else if block_size <=? 262144 then 80
  else if block_size <=? 1048576 then 96
  else 112.

(** What the loop over the block sizes accumulates. *)
Record BlockTotals : Type := MkTotals {
  frame_capacity : Z;
  reachable_size : Z;
  has_empty_block : bool;
  block_start : Z
}.

Fixpoint measure_blocks (count : nat) (block_index footer_index block_size : Z) (footer : list Z)
    (t : BlockTotals) : res BlockTotals :=
  match count with
  | O => Ok t
  | S count =>
    encoded_size ← lz4_block_size footer block_index;
    size ← ok_or (try_usize encoded_size)
      (GeneralErr ("Kxzip LZ4 block " +:+ show block_index
                   +:+ " size cannot be represented on this platform"));
    block_end ← ok_or (checked_add (block_start t) size)
      (GeneralErr ("Kxzip LZ4 block " +:+ show block_index +:+ " range overflowed"));
    if footer_index <? block_end then
      general ("Kxzip LZ4 block " +:+ show block_index +:+ " ends at " +:+ show block_end
               +:+ ", beyond compressed data ending at " +:+ show footer_index)
    else
      capacity ← ok_or (capacity ← checked_add (frame_capacity t) 4; checked_add capacity size)
        (GeneralErr "Kxzip LZ4 frame size overflowed");
      reachable ← ok_or (expanded ← checked_mul size MAX_LZ4_EXPANSION_RATIO;
                         checked_add (reachable_size t) (Z.min expanded block_size))
        (GeneralErr "Kxzip output size bound overflowed");
      measure_blocks count (block_index + 1) footer_index block_size footer
        (MkTotals capacity reachable (has_empty_block t || (size =? 0)) block_end)
  end.

(** The second loop: every block behind its size. *)
Fixpoint frame_blocks (count : nat) (block_index start : Z) (buf footer : list Z) : res (list Z) :=
  match count with
  | O => Ok []
  | S count =>
    encoded_size ← lz4_block_size footer block_index;
    size ← ok_or (try_usize encoded_size)
      (GeneralErr ("Kxzip LZ4 block " +:+ show block_index
                   +:+ " size cannot be represented on this platform"));
    block_end ← ok_or (checked_add start size)
      (GeneralErr ("Kxzip LZ4 block " +:+ show block_index +:+ " range overflowed"));
    block ← ok_or (get_range buf start block_end)
      (GeneralErr ("Kxzip LZ4 block " +:+ show block_index +:+ " is truncated"));
    rest ← frame_blocks count (block_index + 1) block_end buf footer;
    Ok (u32_to_le encoded_size ++ block ++ rest)
  end.

(** The checks of [unzip_lz4]: the footer, the block size, the declared size and what the
    blocks add up to. *)
Definition check_lz4 (buf : list Z) (footer_index block_num : Z) : res (list Z * Z * Z * BlockTotals) :=
  if negb (has_prefix KXZIP_MAGIC buf) then general "Invalid or truncated Kxzip header"
  else if footer_index <? KXZIP_HEADER_LENGTH then
    general "Kxzip compressed data starts inside its 8-byte header"
  else
    expected_footer_length ← kxzip_footer_length block_num;
    footer ← ok_or (get_from buf footer_index) (GeneralErr "Kxzip footer offset exceeds file length");
    if negb (len footer =? expected_footer_length) then
      general ("Kxzip footer length mismatch: expected " +:+ show expected_footer_length
               +:+ " bytes, got " +:+ show (len footer))
    else if negb (bool_decide (get_at footer 4 = Some 4)) then
      general "Kxzip footer does not describe LZ4 compression"
    else
      bytes ← ok_or (get_range footer 24 32) (GeneralErr "Kxzip footer is missing LZ4 block size");
      block_size ← kxzip_usize bytes "LZ4 block size";
      if negb (between (2 ^ 12) block_size (2 ^ 22)) || negb (is_power_of_two block_size) then
        general ("Unsupported Kxzip LZ4 logical block size " +:+ show block_size
                 +:+ "; expected a power of two from 4096 through 4194304")
      else
        bytes ← ok_or (get_range footer 8 16) (GeneralErr "Kxzip footer is missing output size");
        unzipped_size ← kxzip_usize bytes "decompressed size";
        totals ← measure_blocks (Z.to_nat block_num) 0 footer_index block_size footer
                   (MkTotals 19 0 false KXZIP_HEADER_LENGTH);
        if negb (block_start totals =? footer_index) then
          trailing ← usub footer_index (block_start totals);
          general ("Kxzip data contains " +:+ show trailing +:+ " trailing compressed bytes")
        else if reachable_size totals <? unzipped_size then
          compressed ← usub footer_index KXZIP_HEADER_LENGTH;
          general ("Kxzip declares " +:+ show unzipped_size +:+ " decompressed bytes, unreachable from its "
                   +:+ show compressed +:+ " compressed bytes, which expand to at most "
                   +:+ show (reachable_size totals))
        else if has_empty_block totals then general "Kxzip LZ4 metadata contains an empty block"
        else Ok (footer, block_size, unzipped_size, totals).

(** The checks of [unzip]: where the footer starts and how many blocks it announces. *)
Definition locate_footer (buf : list Z) : res (Z * Z) :=
  if negb (has_prefix KXZIP_MAGIC buf) then general "Invalid or truncated Kxzip header"
  else
    block_count_start ← ok_or (checked_sub (len buf) KXZIP_FOOTER_WORD_LENGTH)
      (GeneralErr "Kxzip file is missing its block count");
    bytes ← or_panic (get_from buf block_count_start);
    block_num ← kxzip_usize bytes "block count";
    footer_length ← kxzip_footer_length block_num;
    footer_index ← ok_or (checked_sub (len buf) footer_length)
      (GeneralErr ("Kxzip footer length " +:+ show footer_length +:+ " exceeds file length "
                   +:+ show (len buf)));
    if footer_index <? KXZIP_HEADER_LENGTH then
      general "Kxzip file is shorter than its 8-byte header and footer"
    else
      algorithm_index ← ok_or (checked_add footer_index 4)
        (GeneralErr "Kxzip compression metadata offset overflowed");
      algorithm ← ok_or (get_at buf algorithm_index)
        (GeneralErr "Kxzip footer is missing its compression algorithm");
      if algorithm =? 4 then Ok (footer_index, block_num)
      else general ("Not supported compression algo - " +:+ show algorithm).

Section Unzip.
  Context `{Allocator} `{Lz4}.

(** Decoding the frame: exactly the declared bytes, and nothing after the frame. *)
Definition decode_frame (frame : list Z) (unzipped_size : Z) : res (list Z) :=
  _ ← reserve unzipped_size (fun error =>
        GeneralErr ("Unable to allocate " +:+ show unzipped_size +:+ "-byte Kxzip output: " +:+ error));
  let '(r, s) := read_exact unzipped_size (frame_decoder frame) in
  unzipped ← map_err decompression_error r;
  trailing ← map_err decompression_error (fst (read 1 s));
  match trailing with
  | [] =>
    if negb (frame_position frame =? len frame) then
      general "Kxzip LZ4 stream contains trailing encoded bytes"
    else Ok unzipped
  | _ => general ("Kxzip LZ4 output exceeds declared size " +:+ show unzipped_size)
  end.

Definition frame_header (descriptor : Z) (size_field : list Z) : res (list Z) :=
  let header := [4; 34; 77; 24; 104; descriptor] ++ size_field in
  checksummed ← or_panic (get_from header 4);
  check ← or_panic (get_at (u32_to_le (xxh32 checksummed)) 1);
  Ok (header ++ [check]).

Definition unzip_lz4 (buf : list Z) (footer_index block_num : Z) : res (list Z) :=
  '(footer, block_size, unzipped_size, totals) ← check_lz4 buf footer_index block_num;
  _ ← reserve (frame_capacity totals) (fun error =>
        GeneralErr ("Unable to allocate " +:+ show (frame_capacity totals)
                    +:+ "-byte Kxzip LZ4 frame: " +:+ error));
  size_field ← or_panic (get_range footer 8 16);
  header ← frame_header (block_descriptor block_size) size_field;
  blocks ← frame_blocks (Z.to_nat block_num) 0 KXZIP_HEADER_LENGTH buf footer;
  decode_frame (header ++ blocks ++ [0; 0; 0; 0]) unzipped_size.

Definition unzip (buf : list Z) : res (list Z) :=
  '(footer_index, block_num) ← locate_footer buf;
  unzip_lz4 buf footer_index block_num.
End Unzip.

(** ** Tables and messages *)

Section Tables.
  Context `{Allocator} `{Lz4} `{Chrono} {Series DataFrame : Type}.

Abbreviation kval := (K Series DataFrame).

Definition not_a_table : XqdbError := GeneralErr "Not a table".

(** The table in the content of a file. *)
Definition table_of_bytes `{!SeriesDecoder Series DataFrame} (buffer : list Z) (encoding : SymbolEncoding)
    : res DataFrame :=
  buffer ← (if has_prefix KXZIP_MAGIC buffer then unzip buffer else Ok buffer);
  k_type ← ok_or (get_at buffer 2)
    (DeserializationErr "Q binary table file is shorter than its 2-byte header and value type");
  minimum_length ←
    (if k_type =? 98 then Ok 17 else if k_type =? 99 then Ok 33 else Err not_a_table);
  if len buffer <? minimum_length then
    corrupt ("Q binary table file is structurally too short: expected at least "
             +:+ show minimum_length +:+ " bytes, got " +:+ show (len buffer))
  else
    value ← deserialize_at buffer 2 encoding;
    match value with KDataFrame k => Ok k | _ => Err not_a_table end.

Definition read_j6_binary_table `{!SeriesDecoder Series DataFrame} `{FileSystem} (path : string)
    (encoding : SymbolEncoding) : res DataFrame :=
  '(is_file, length) ← map_err IOError (metadata path);
  if negb is_file then general ("Q binary table path is not a regular file: " +:+ path)
  else
    f ← map_err IOError (open_file path);
    file_length ← ok_or (try_usize length)
      (GeneralErr "Q binary table file size cannot be represented on this platform");
    buffer ← read_file_fallibly f file_length "Q binary table";
    table_of_bytes buffer encoding.

Definition generate_j6_ipc_msg `{!SeriesEncoder Series DataFrame} (msg_type : MsgType)
    (enable_compression : bool) (k : kval) : res (list Z) :=
  body_length ← j6_len k;
  '(total_length, high_byte, low_length) ← checked_j6_ipc_total_length body_length;
  _ ← reserve total_length (fun error =>
        GeneralErr ("Unable to allocate " +:+ show total_length +:+ "-byte J6 IPC message: " +:+ error));
  vec ← serialize_into k (request_header msg_type high_byte low_length);
  if negb (len vec =? total_length) then
    general "Serialized q value length differs from its declared J6 length"
  else if enable_compression then compress vec
  else Ok vec.

Definition deserialize_j6 `{!SeriesDecoder Series DataFrame} (buf : list Z) (encoding : SymbolEncoding)
    (mode : ValueMode) : res kval :=
  match mode with
  | Native => Deserialize.deserialize buf encoding
  | Lossless => v ← from_bytes buf; Ok (KQValue v)
  end.

#[local] Existing Instance native_codec.

Definition deserialize_j6_ipc_msg `{!SeriesDecoder Series DataFrame} (buf : list Z)
    (encoding : SymbolEncoding) (mode : ValueMode) : res (MsgType * kval) :=
  deserialize_ipc_frame buf encoding mode.
End Tables.
