(* ===== verification/IoFacts.v ===== *)
(** * IoFacts: lemmas on files and on the kxzip container *)

From stdpp Require Import prelude strings.
From Stdlib Require Import ZArith Lia ZifyBool.
From S2P Require Import Prelude Errors Types QValue Compress Framing FramingFacts Text Value AnyValue Serialize Deserialize Stream StreamFacts Connector Io.

(** ** Reading a file *)

Lemma probe_spec fuel s :
  (stream_size s < fuel)%nat ->
  let '(r, s') := probe_loop fuel s in
  match r with
  | Ok [] => payload s = [] /\ ending s = None
  | Ok bytes => len bytes = 1 /\ payload s = bytes ++ payload s' /\ ending s' = ending s
  | Err e => payload s = [] /\ ending s = Some e
  | _ => False
  end.
Proof.
  revert s. induction fuel as [|fuel IH]; intros s Hf; [lia|]. cbn [probe_loop]. next_read 1 s.
  - tauto.
  - destruct Hread as (Hl & Hp & He & _). split_and!; [cbn [length] in *; lia|done..].
  - destruct (is_interrupted e); [|done]. destruct Hread as (Hp & He & Hs).
    specialize (IH s' ltac:(lia)). destruct (probe_loop fuel s') as [[[|? ?]|? | |] s'']; try done;
      by rewrite Hp, He in IH.
Qed.

(** What a read to the end of the stream gives. *)
Definition all_of (data : list Z) (o : option io_error) : res (list Z) :=
  match o with None => Ok data | Some e => Err (IOError e) end.

(** The computation gives [r], unless a request of at most [bound] is refused. *)
Definition granted `{Allocator} {A} (bound : Z) (m r : res A) : Prop :=
  m = r \/ exists n message, n <= bound /\ try_reserve n = false /\ m = Err (GeneralErr message).

Lemma granted_refl `{Allocator} {A} bound (r : res A) : granted bound r r.
Proof. by left. Qed.

Lemma granted_reserve `{Allocator} {A} bound n (f : string -> XqdbError) (m r : res A) :
  n <= bound -> (forall error, exists message, f error = GeneralErr message) ->
  granted bound m r -> granted bound (_ ← reserve n f; m) r.
Proof.
  intros Hn Hf Hm. unfold reserve. destruct (try_reserve n) eqn:E; [exact Hm|].
  right. destruct (Hf (reserve_error n)) as [message Hmessage]. exists n, message. split_and!; [done..|].
  cbn [mbind outcome_bind]. by rewrite Hmessage.
Qed.

Lemma granted_all `{Allocator} {A} bound (m r : res A) :
  granted bound m r -> (forall n, n <= bound -> try_reserve n = true) -> m = r.
Proof. intros [->|(n & message & Hn & Hf & _)] Hall; [done|]. by rewrite Hall in Hf. Qed.

(** Growing a full buffer makes room, by no more than what it holds. *)
Lemma grow_file_spec `{Allocator} {A} description b bound (k : Buffer -> res A) r :
  buffer_capacity b = len (buffer_data b) -> len (buffer_data b) <= isize_max ->
  Z.max INITIAL_FILE_RESERVATION (len (buffer_data b)) <= bound ->
  (forall b', buffer_data b' = buffer_data b -> len (buffer_data b) < buffer_capacity b' ->
     granted bound (k b') r) ->
  granted bound (b ← grow_file description b; k b) r.
Proof.
  intros Hcap Hlen Hb Hk. unfold grow_file. rewrite Hcap. unfold INITIAL_FILE_RESERVATION in *. cbv zeta.
  set (target := Z.max (saturating_mul _ 2) _).
  assert (len (buffer_data b) < target /\ target - len (buffer_data b) <= bound) as [Ht Htb].
  { unfold target, saturating_mul. bool_lia. }
  unfold usub, checked_sub. replace (_ <=? target) with true by lia. cbn [or_panic mbind outcome_bind].
  unfold try_reserve_exact. rewrite Hcap. replace (_ <=? _) with false by lia.
  unfold reserve. destruct (try_reserve _) eqn:E; [|right; do 2 eexists; split_and!; [exact Htb|done|done]].
  cbn [mbind outcome_bind]. apply Hk; [done|]. cbn [buffer_capacity]. lia.
Qed.

Lemma file_loop_spec `{Allocator} fuel description b s bound :
  (length (payload s) < fuel)%nat -> len (buffer_data b) <= buffer_capacity b ->
  len (buffer_data b ++ payload s) <= isize_max ->
  Z.max INITIAL_FILE_RESERVATION (len (buffer_data b ++ payload s)) <= bound ->
  granted bound (file_loop fuel description b s) (all_of (buffer_data b ++ payload s) (ending s)).
Proof.
  revert b s. induction fuel as [|fuel IH]; intros b s Hf Hcap Hlen Hb; [lia|].
  cbn [file_loop]. unfold usub, checked_sub. replace (_ <=? buffer_capacity b) with true by lia.
  cbn [or_panic mbind outcome_bind]. set (spare := buffer_capacity b - len (buffer_data b)).
  assert (let '(r, out, s') := if 0 <? spare then read_to_end spare s else (Ok tt, [], s) in
    out = take (Z.to_nat spare) (payload s) /\
    if spare <=? len (payload s) then
      r = Ok tt /\ payload s' = drop (Z.to_nat spare) (payload s) /\ ending s' = ending s
    else match ending s with
         | None => r = Ok tt /\ payload s' = [] /\ ending s' = None | Some e => r = Err e end) as Hr.
  { destruct (Z.ltb_spec 0 spare); [apply read_to_end_spec; lia|].
    assert (spare = 0) as -> by lia. rewrite take_0, drop_0. by replace (0 <=? _) with true by lia. }
  destruct (if 0 <? spare then _ else _) as [[r out] s'] eqn:E. clear E. destruct Hr as [-> Hr].
  rewrite length_app in Hlen, Hb. destruct (Z.leb_spec spare (len (payload s))) as [Hle|Hgt].
  - destruct Hr as (-> & Hp & He). cbn [map_err mbind outcome_bind]. rewrite length_take.
    replace (_ <? spare) with false by lia.
    pose proof (probe_spec (S (stream_size s')) s' ltac:(lia)) as Hprobe.
    destruct (probe_loop _ s') as [[probe|e| |] s'']; try done; cbn [map_err mbind outcome_bind buffer_data].
    + set (out := take _ _) in *. assert (payload s = out ++ payload s') as Eo by (rewrite Hp; symmetry; apply take_drop).
      destruct probe as [|z probe].
      * destruct Hprobe as [Hn He']. rewrite Eo, Hn, app_nil_r, <- He, He'. apply granted_refl.
      * destruct Hprobe as (H1 & Hp' & He'). set (bytes := z :: probe) in *.
        assert (len (payload s) = len out + (len bytes + len (payload s''))) as El
          by (rewrite Eo, Hp', !length_app; lia).
        assert (length out = Z.to_nat spare) as Eout by (unfold out; rewrite length_take; lia).
        apply grow_file_spec; cbn [buffer_data buffer_capacity]; rewrite ?length_app; try lia.
        intros b' Hd Hc.
        replace (all_of (buffer_data b ++ payload s) (ending s))
          with (all_of (buffer_data (extend_buffer b' bytes) ++ payload s'') (ending s'')).
        2: { unfold extend_buffer. cbn [buffer_data]. by rewrite Hd, Eo, Hp', He', He, <- !app_assoc. }
        apply IH; unfold extend_buffer; cbn [buffer_data buffer_capacity]; rewrite ?Hd, ?length_app; try lia.
    + destruct Hprobe as [Hn He']. rewrite <- He, He'. apply granted_refl.
  - rewrite take_ge by lia. destruct (ending s) as [e|].
    + rewrite Hr. apply granted_refl.
    + destruct Hr as (-> & _). cbn [map_err mbind outcome_bind buffer_data].
      replace (_ <? spare) with true by lia. apply granted_refl.
Qed.

(** The memory a file of this content needs. *)
Definition file_bound (hint : Z) (content : list Z) : Z :=
  Z.max hint (Z.max INITIAL_FILE_RESERVATION (len content)).

Lemma read_file_granted `{Allocator} file hint description :
  0 <= hint -> len (payload file) <= isize_max ->
  granted (file_bound hint (payload file)) (read_file_fallibly file hint description)
    (all_of (payload file) (ending file)).
Proof.
  intros Hh Hl. unfold read_file_fallibly, file_bound. pose proof (payload_size file).
  assert (forall b, buffer_data b = [] -> granted (Z.max hint (Z.max INITIAL_FILE_RESERVATION (len (payload file))))
    (file_loop (S (stream_size file)) description b file) (all_of (payload file) (ending file)) \/ buffer_capacity b < 0) as Hloop.
  { intros b Hb. destruct (Z.lt_ge_cases (buffer_capacity b) 0); [by right|left].
    pose proof (file_loop_spec (S (stream_size file)) description b file
      (Z.max hint (Z.max INITIAL_FILE_RESERVATION (len (payload file))))) as H'.
    rewrite Hb in H'. cbn [app length] in H'. apply H'; lia. }
  destruct (Z.ltb_spec 0 hint) as [Hpos|Hz].
  - unfold try_reserve_exact. cbn [buffer_data buffer_capacity new_buffer length].
    replace (hint <=? _) with false by lia. unfold reserve.
    destruct (try_reserve hint) eqn:E; cbn [mbind outcome_bind]; [|right; do 2 eexists; split_and!; [|exact E|done]; lia].
    destruct (Hloop (MkBuffer [] (Z.of_nat 0 + hint)) eq_refl) as [?|Hn]; [done|]. cbn in Hn. lia.
  - apply grow_file_spec; cbn [buffer_data buffer_capacity new_buffer length]; try (unfold isize_max; lia).
    intros b' Hd Hc. destruct (Hloop b' Hd) as [?|Hn]; [done|]. lia.
Qed.

(** ** The kxzip container, taken apart

    The layout of a container as an abstract value ([kxzip]), and what [unzip] makes of
    any bytes: a container it decodes, or an error. *)

(** ** The layout *)

(** The size of a block in its footer word, behind which four bytes are unused. *)
Abbreviation word := (Z * list Z)%type.
Definition word_ok (w : word) : Prop := 0 <= w.1 <= u32_max /\ length w.2 = 4%nat.
Definition encode_word (w : word) : list Z := u32_to_le w.1 ++ w.2.
Definition encode_words (ws : list word) : list Z := concat (map encode_word ws).

Definition total_size (ws : list word) : Z := foldr (fun w n => w.1 + n) 0 ws.
Definition framed_size (ws : list word) : Z := foldr (fun w n => 4 + w.1 + n) 0 ws.
(** The most the blocks can decode to: the block size, and 255 times their bytes. *)
Definition reachable (block_size : Z) (ws : list word) : Z :=
  foldr (fun w n => Z.min (w.1 * 255) block_size + n) 0 ws.

(** The footer, with the fields in the order of the file. *)
Definition encode_footer (head size reserved block_size : list Z) (ws : list word) : list Z :=
  head ++ size ++ reserved ++ block_size ++ encode_words ws ++ u64_to_le (len ws).

Lemma encode_word_length w : word_ok w -> length (encode_word w) = 8%nat.
Proof. intros [_ Hl]. unfold encode_word, u32_to_le. rewrite length_app, length_to_le. lia. Qed.

Lemma encode_words_length ws : Forall word_ok ws -> len (encode_words ws) = 8 * len ws.
Proof.
  unfold encode_words. induction 1 as [|w ws Hw _ IH]; [done|]. cbn [map concat length].
  rewrite length_app, encode_word_length by done. lia.
Qed.

Lemma encode_words_app ws1 ws2 : encode_words (ws1 ++ ws2) = encode_words ws1 ++ encode_words ws2.
Proof. unfold encode_words. by rewrite map_app, concat_app. Qed.

Lemma encode_words_cons w ws : encode_words (w :: ws) = encode_word w ++ encode_words ws.
Proof. done. Qed.

Lemma total_size_nonneg ws : Forall word_ok ws -> 0 <= total_size ws.
Proof. unfold total_size. induction 1 as [|w ws [? ?] _ IH]; cbn [foldr]; lia. Qed.

Lemma reachable_bound block_size ws :
  Forall word_ok ws -> 0 <= block_size -> 0 <= reachable block_size ws <= 255 * total_size ws.
Proof.
  intros Hws Hb. unfold reachable, total_size. induction Hws as [|w ws [? ?] _ IH]; cbn [foldr]; lia.
Qed.

Lemma framed_size_eq ws : framed_size ws = 4 * len ws + total_size ws.
Proof. unfold framed_size, total_size. induction ws; cbn [foldr length]; lia. Qed.

(** ** Any bytes of the right length are a footer *)

Lemma words_of (l : list Z) n :
  bytes_ok l -> length l = (8 * n)%nat -> exists ws, l = encode_words ws /\ length ws = n /\ Forall word_ok ws.
Proof.
  revert l. induction n as [|n IH]; intros l Hb Hl.
  { exists []. by destruct l. }
  destruct (IH (drop 8 l)) as (ws & Hd & Hn & Hws); [by apply Forall_drop|rewrite length_drop; lia|].
  assert (bytes_ok (take 4 l)) as Hb4 by by apply Forall_take.
  assert (length (take 4 l) = 4%nat) as Hl4 by (rewrite length_take; lia).
  exists ((from_le (take 4 l), take 4 (drop 4 l)) :: ws). split_and!.
  - rewrite encode_words_cons, <- Hd. unfold encode_word. cbn [fst snd]. rewrite u32_of_four by done.
    rewrite <- app_assoc.
    replace 8%nat with (4 + 4)%nat by done. by rewrite <- drop_drop, !take_drop.
  - cbn [length]. lia.
  - constructor; [|done]. split; cbn [fst snd].
    + pose proof (from_le_bound (take 4 l) Hb4). rewrite Hl4 in *. unfold u32_max. lia.
    + rewrite length_take, length_drop. lia.
Qed.

(** Splitting off the next [n] bytes. *)
Lemma split_at (l : list Z) n : (n <= length l)%nat -> exists x y, l = x ++ y /\ length x = n.
Proof. intros Hn. exists (take n l), (drop n l). rewrite take_drop, length_take. split; [done|lia]. Qed.

Lemma footer_of (l : list Z) n :
  bytes_ok l -> 0 <= n <= usize_max -> len l = 8 * (n + 5) -> from_le (drop (length l - 8) l) = n ->
  exists head size reserved block_size ws, l = encode_footer head size reserved block_size ws
    /\ length head = 8%nat /\ length size = 8%nat /\ length reserved = 8%nat /\ length block_size = 8%nat
    /\ n = len ws /\ Forall word_ok ws.
Proof.
  intros Hb Hn Hl Hcount.
  destruct (split_at l 8 ltac:(lia)) as (head & l1 & -> & H1). rewrite length_app in *.
  destruct (split_at l1 8 ltac:(lia)) as (size & l2 & -> & H2). rewrite length_app in *.
  destruct (split_at l2 8 ltac:(lia)) as (reserved & l3 & -> & H3). rewrite length_app in *.
  destruct (split_at l3 8 ltac:(lia)) as (block_size & l4 & -> & H4). rewrite length_app in *.
  destruct (split_at l4 (8 * Z.to_nat n) ltac:(lia)) as (words & count & -> & H5). rewrite length_app in *.
  rewrite !Forall_app in Hb. destruct Hb as (_ & _ & _ & _ & Hbw & Hbc).
  destruct (words_of words (Z.to_nat n) Hbw ltac:(lia)) as (ws & -> & Hws & Hok).
  assert (length count = 8%nat) as H6 by lia.
  exists head, size, reserved, block_size, ws. split_and!; try done; [|lia].
  unfold encode_footer. do 5 f_equal. rewrite <- (to_from_le count Hbc), H6. unfold u64_to_le.
  replace (head ++ size ++ reserved ++ block_size ++ encode_words ws ++ count)
    with ((head ++ size ++ reserved ++ block_size ++ encode_words ws) ++ count) in Hcount
    by (by rewrite <- !app_assoc).
  replace (_ - 8)%nat with (length (head ++ size ++ reserved ++ block_size ++ encode_words ws)) in Hcount
    by (rewrite !length_app; lia).
  rewrite drop_app_length in Hcount. rewrite Hcount. replace n with (len ws) by lia.
  unfold unsigned. rewrite Z.mod_small by (unfold usize_max in Hn; lia). done.
Qed.

(** ** The fields of a footer *)

Section Footer.
  Context (head size reserved block_size : list Z).
  Context (Hhead : length head = 8%nat) (Hsize : length size = 8%nat)
    (Hreserved : length reserved = 8%nat) (Hblock : length block_size = 8%nat).

Abbreviation footer ws := (encode_footer head size reserved block_size ws).

Lemma footer_length ws : Forall word_ok ws -> len (footer ws) = 8 * (len ws + 5).
Proof.
  intros Hws. pose proof (encode_words_length ws Hws). unfold encode_footer, u64_to_le.
  rewrite !length_app, length_to_le. lia.
Qed.

Lemma footer_size ws : get_range (footer ws) 8 16 = Some size.
Proof.
  apply get_range_Some. exists head, (reserved ++ block_size ++ encode_words ws ++ u64_to_le (len ws)).
  rewrite Hhead, Hsize. done.
Qed.

Lemma footer_block_size ws : get_range (footer ws) 24 32 = Some block_size.
Proof.
  apply get_range_Some. exists (head ++ size ++ reserved), (encode_words ws ++ u64_to_le (len ws)).
  rewrite !length_app, Hhead, Hsize, Hreserved, Hblock. unfold encode_footer. by rewrite <- !app_assoc.
Qed.

Lemma footer_algorithm ws : get_at (footer ws) 4 = get_at head 4.
Proof. unfold encode_footer. apply get_at_app_l. lia. Qed.

Lemma block_size_at ws1 w ws2 :
  Forall word_ok (ws1 ++ w :: ws2) -> len (footer (ws1 ++ w :: ws2)) <= isize_max ->
  lz4_block_size (footer (ws1 ++ w :: ws2)) (len ws1) = Ok w.1.
Proof.
  intros Hws Hl. rewrite footer_length in Hl by done. rewrite length_app in Hl. cbn [length] in Hl.
  pose proof Hws as [H1 H2]%Forall_app. inversion H2 as [|? ? Hw _]; subst.
  pose proof (encode_words_length ws1 H1) as Hn.
  unfold lz4_block_size, checked_mul, KXZIP_FOOTER_WORD_LENGTH.
  replace (_ <=? usize_max) with true by bool_lia. cbn [mbind option_bind].
  rewrite checked_add_eq by bool_lia. cbn [ok_or mbind outcome_bind].
  rewrite checked_add_eq by bool_lia. cbn [ok_or mbind outcome_bind].
  replace (get_range _ _ _) with (Some (u32_to_le w.1)).
  { cbn [ok_or mbind outcome_bind]. rewrite from_u32_to_le; [done|apply Hw]. }
  symmetry. apply get_range_Some.
  exists (head ++ size ++ reserved ++ block_size ++ encode_words ws1),
    (w.2 ++ encode_words ws2 ++ u64_to_le (len (ws1 ++ w :: ws2))).
  rewrite !length_app, Hhead, Hsize, Hreserved, Hblock. split_and!.
  - unfold encode_footer. rewrite encode_words_app, encode_words_cons, length_app. unfold encode_word.
    by rewrite <- !app_assoc.
  - lia.
  - unfold u32_to_le. rewrite length_to_le. lia.
Qed.

(** ** The loops over the blocks *)

Definition measured (bs : Z) (ws : list word) (t : BlockTotals) : BlockTotals :=
  MkTotals (frame_capacity t + framed_size ws) (reachable_size t + reachable bs ws)
    (has_empty_block t || existsb (fun w => w.1 =? 0) ws) (block_start t + total_size ws).

(** The totals stay small: nothing the loop adds overflows. *)
Lemma measure_blocks_spec ws1 ws2 fi bs t :
  Forall word_ok (ws1 ++ ws2) -> len (footer (ws1 ++ ws2)) <= isize_max ->
  0 <= block_start t <= fi -> 255 * fi <= usize_max -> 0 <= bs <= 2 ^ 22 ->
  0 <= frame_capacity t <= 19 + 4 * len ws1 + block_start t ->
  0 <= reachable_size t <= 255 * block_start t ->
  let m := measure_blocks (length ws2) (len ws1) fi bs (footer (ws1 ++ ws2)) t in
  if block_start t + total_size ws2 <=? fi then m = Ok (measured bs ws2 t)
  else exists e, m = Err e.
Proof.
  revert ws1 t. induction ws2 as [|w ws2 IH]; intros ws1 t Hws Hl Hst Hfi Hbs Hcap Hre m.
  { unfold m. cbn [measure_blocks length total_size foldr]. unfold measured. cbn.
    rewrite !Z.add_0_r, orb_false_r. destruct t; cbn in *. by replace (_ <=? fi) with true by lia. }
  assert (len (footer (ws1 ++ w :: ws2)) = 8 * (len ws1 + 1 + len ws2 + 5)) as Hlen
    by (rewrite footer_length, length_app by done; cbn [length]; lia).
  pose proof Hws as [_ H2]%Forall_app. inversion H2 as [|? ? [Hw _] Hws2]; subst.
  pose proof (total_size_nonneg ws2 Hws2). unfold u32_max in Hw.
  unfold m. cbn [measure_blocks length]. rewrite block_size_at by done. cbn [mbind outcome_bind].
  unfold try_usize. replace (_ && _) with true by bool_lia. cbn [ok_or mbind outcome_bind].
  rewrite (checked_add_eq (block_start t)) by bool_lia. cbn [ok_or mbind outcome_bind].
  unfold total_size. cbn [foldr]. fold (total_size ws2).
  destruct (Z.ltb_spec fi (block_start t + w.1)).
  { replace (_ <=? fi) with false by lia. by eexists. }
  rewrite (checked_add_eq (frame_capacity t)) by bool_lia. cbn [mbind option_bind].
  rewrite checked_add_eq by bool_lia. cbn [ok_or mbind outcome_bind].
  unfold checked_mul, MAX_LZ4_EXPANSION_RATIO. replace (_ <=? usize_max) with true by bool_lia.
  cbn [mbind option_bind]. rewrite checked_add_eq by bool_lia. cbn [ok_or mbind outcome_bind].
  set (t' := MkTotals _ _ _ _).
  specialize (IH (ws1 ++ [w]) t'). rewrite <- app_assoc in IH. cbn [app] in IH.
  rewrite length_app in IH. replace (len ws1 + 1) with (Z.of_nat (length ws1 + length [w])) by (cbn [length]; lia).
  replace (block_start t + (w.1 + total_size ws2)) with (block_start t' + total_size ws2)
    by (unfold t'; cbn [block_start]; lia).
  replace (measured bs (w :: ws2) t) with (measured bs ws2 t').
  2: { unfold measured, t', framed_size, reachable, total_size.
       cbn [frame_capacity reachable_size has_empty_block block_start foldr existsb].
       rewrite <- orb_assoc. f_equal; lia. }
  apply IH; unfold t'; cbn [frame_capacity reachable_size block_start length]; (done || lia).
Qed.

Definition framed (blocks : list (list Z)) : list Z := concat (map (fun b => u32_to_le (len b) ++ b) blocks).
Definition sizes_of (ws : list word) (blocks : list (list Z)) : Prop := Forall2 (fun w b => w.1 = len b) ws blocks.

Lemma frame_blocks_spec ws1 ws2 blocks pre post :
  Forall word_ok (ws1 ++ ws2) -> len (footer (ws1 ++ ws2)) <= isize_max -> sizes_of ws2 blocks ->
  len (pre ++ concat blocks ++ post) <= isize_max ->
  frame_blocks (length ws2) (len ws1) (len pre) (pre ++ concat blocks ++ post) (footer (ws1 ++ ws2))
  = Ok (framed blocks).
Proof.
  revert ws1 blocks pre. induction ws2 as [|w ws2 IH]; intros ws1 blocks pre Hws Hl Hsizes Hlen.
  { by inversion Hsizes; subst. }
  inversion Hsizes as [|? b ? blocks' Hw Hrest]; subst. cbn [concat] in *. rewrite !length_app in Hlen.
  cbn [frame_blocks length]. rewrite block_size_at by done. cbn [mbind outcome_bind]. rewrite Hw.
  unfold try_usize. replace (_ && _) with true by bool_lia. cbn [ok_or mbind outcome_bind].
  rewrite checked_add_eq by bool_lia. cbn [ok_or mbind outcome_bind].
  replace (get_range _ _ _) with (Some b).
  2: { symmetry. apply get_range_Some. exists pre, (concat blocks' ++ post). by rewrite <- !app_assoc. }
  cbn [ok_or mbind outcome_bind].
  specialize (IH (ws1 ++ [w]) blocks' (pre ++ b)). rewrite <- !app_assoc in IH. cbn [app] in IH.
  rewrite !length_app, !Nat2Z.inj_add in IH. rewrite <- !app_assoc. cbn [length] in IH.
  change (Z.of_nat 1) with 1 in IH.
  rewrite IH; [done..|]. lia.
Qed.

End Footer.

Lemma split_blocks ws (data : list Z) :
  Forall word_ok ws -> total_size ws = len data -> exists blocks, data = concat blocks /\ sizes_of ws blocks.
Proof.
  revert data. induction ws as [|w ws IH]; intros data Hws Hl.
  { exists []. destruct data; [|done]. by split; [|constructor]. }
  inversion Hws as [|? ? [Hw _] Hws']; subst. pose proof (total_size_nonneg ws Hws').
  unfold total_size in Hl. cbn [foldr] in Hl. fold (total_size ws) in Hl.
  destruct (split_at data (Z.to_nat w.1) ltac:(lia)) as (b & rest & -> & Hb). rewrite length_app in Hl.
  destruct (IH rest Hws' ltac:(lia)) as (blocks & -> & Hs). exists (b :: blocks).
  split; [done|]. constructor; [lia|done].
Qed.
(** ** Decoding a container *)

(** The fields of a container: a block is its bytes and the unused bytes of its word. *)
Record kxzip : Type := MkKxzip {
  kx_head : list Z;
  kx_size : Z;
  kx_reserved : list Z;
  kx_block_size : Z;
  kx_blocks : list (list Z * list Z)
}.

Definition kx_words (f : kxzip) : list word := map (fun b => (len b.1, b.2)) (kx_blocks f).
Definition kx_data (f : kxzip) : list Z := concat (map fst (kx_blocks f)).

Definition encode_kxzip (f : kxzip) : list Z :=
  KXZIP_MAGIC ++ kx_data f
  ++ encode_footer (kx_head f) (u64_to_le (kx_size f)) (kx_reserved f) (u64_to_le (kx_block_size f)) (kx_words f).

(** LZ4, a block size the format allows, no empty block, and a declared size that the
    blocks can reach. *)
Definition kxzip_ok (f : kxzip) : Prop :=
  length (kx_head f) = 8%nat /\ get_at (kx_head f) 4 = Some 4
  /\ 0 <= kx_size f <= reachable (kx_block_size f) (kx_words f)
  /\ length (kx_reserved f) = 8%nat
  /\ 2 ^ 12 <= kx_block_size f <= 2 ^ 22 /\ is_power_of_two (kx_block_size f) = true
  /\ Forall word_ok (kx_words f) /\ Forall (fun w => w.1 <> 0) (kx_words f).

Lemma second_byte z : z mod 2 ^ 32 / 256 mod 256 = z / 256 mod 256.
Proof.
  change 256 with (2 ^ 8). apply Z.bits_inj'. intros n Hn. rewrite !Z.testbit_mod_pow2 by lia.
  rewrite !Z.div_pow2_bits, Z.testbit_mod_pow2 by lia.
  destruct (Z.ltb_spec n 8); [|done]. by replace (n + 8 <? 32) with true by lia.
Qed.

Section Unzip.
  Context `{Allocator} `{Lz4}.

(** The LZ4 frame of a container's blocks. *)
Definition lz4_header (block_size : Z) (size : list Z) : list Z :=
  let header := [4; 34; 77; 24; 104; block_descriptor block_size] ++ size in
  header ++ [xxh32 (drop 4 header) / 256 mod 256].

Definition lz4_frame (f : kxzip) : list Z :=
  lz4_header (kx_block_size f) (u64_to_le (kx_size f)) ++ framed (map fst (kx_blocks f)) ++ [0; 0; 0; 0].

Lemma frame_header_eq bs size : frame_header (block_descriptor bs) size = Ok (lz4_header bs size).
Proof.
  unfold frame_header. replace (get_from _ 4) with (Some (drop 4 ([4; 34; 77; 24; 104; block_descriptor bs] ++ size))).
  2: { symmetry. apply get_range_Some. exists [4; 34; 77; 24], [].
       rewrite app_nil_r. split_and!; [done..|]. cbn [drop app length]. lia. }
  cbn [or_panic mbind outcome_bind].
  replace (get_at _ 1) with (Some (xxh32 (drop 4 ([4; 34; 77; 24; 104; block_descriptor bs] ++ size)) / 256 mod 256)); [done|].
  rewrite <- second_byte. done.
Qed.

(** What [unzip] checks of the parts of a container. *)
Definition accepted (head : list Z) (size block_size : Z) (ws : list word) (data : list Z) : bool :=
  bool_decide (get_at head 4 = Some 4)
  && (between (2 ^ 12) block_size (2 ^ 22) && is_power_of_two block_size)
  && (total_size ws =? len data) && (size <=? reachable block_size ws)
  && negb (existsb (fun w => w.1 =? 0) ws).

Lemma kxzip_usize_eq bytes description :
  bytes_ok bytes -> length bytes = 8%nat -> kxzip_usize bytes description = Ok (from_le bytes).
Proof.
  intros Hb Hl. unfold kxzip_usize. rewrite Hl. pose proof (from_le_bound bytes Hb) as Hr. rewrite Hl in Hr.
  unfold try_usize. change (8 * Z.of_nat 8) with 64 in Hr.
  replace ((0 <=? from_le bytes) && (from_le bytes <=? usize_max)) with true by bool_lia. done.
Qed.

Lemma kxzip_footer_length_eq n : 0 <= n <= 2 ^ 60 -> kxzip_footer_length n = Ok (8 * (n + 5)).
Proof.
  intros Hn. unfold kxzip_footer_length, KXZIP_FIXED_FOOTER_WORDS, KXZIP_FOOTER_WORD_LENGTH, checked_mul.
  rewrite checked_add_eq by bool_lia. cbn [mbind option_bind]. replace (_ <=? usize_max) with true by bool_lia.
  cbn [ok_or]. f_equal. lia.
Qed.

Lemma kxzip_footer_length_cases n :
  kxzip_footer_length n = Ok (8 * (n + 5)) \/ exists e, kxzip_footer_length n = Err e.
Proof.
  unfold kxzip_footer_length, KXZIP_FIXED_FOOTER_WORDS, KXZIP_FOOTER_WORD_LENGTH, checked_mul, checked_add.
  destruct (n + 5 <=? usize_max); [|right; by eexists]. cbn [mbind option_bind].
  destruct (_ <=? usize_max); [left; cbn [ok_or]; f_equal; lia|right; by eexists].
Qed.

(** The largest container considered: 32 PiB. *)
Definition container_max : Z := 2 ^ 55.

Lemma unzip_lz4_parts head size reserved block_size ws data :
  let footer := encode_footer head size reserved block_size ws in
  let buf := KXZIP_MAGIC ++ data ++ footer in
  length head = 8%nat -> length size = 8%nat -> length reserved = 8%nat -> length block_size = 8%nat ->
  Forall word_ok ws -> bytes_ok size -> bytes_ok block_size -> len buf <= container_max ->
  if accepted head (from_le size) (from_le block_size) ws data then
    exists blocks, data = concat blocks /\ sizes_of ws blocks
    /\ unzip_lz4 buf (8 + len data) (len ws)
       = (_ ← reserve (19 + framed_size ws) (fun error =>
               GeneralErr ("Unable to allocate " +:+ show (19 + framed_size ws)
                           +:+ "-byte Kxzip LZ4 frame: " +:+ error));
          decode_frame (lz4_header (from_le block_size) size ++ framed blocks ++ [0; 0; 0; 0]) (from_le size))
  else exists e, check_lz4 buf (8 + len data) (len ws) = Err e.
Proof.
  intros footer buf H1 H2 H3 H4 Hws Hbs Hbb Hlen. unfold container_max in Hlen.
  pose proof (footer_length head size reserved block_size H1 H2 H3 H4 ws Hws) as Hfl. fold footer in Hfl.
  assert (len buf = 8 + len data + len footer) as Hbuf by (unfold buf; rewrite !length_app; change (length KXZIP_MAGIC) with 8%nat; lia).
  assert (get_at footer 4 = get_at head 4) as Halg' by (by apply footer_algorithm).
  assert (get_range footer 24 32 = Some block_size) as Hbs' by (by apply footer_block_size).
  assert (get_range footer 8 16 = Some size) as Hsz' by (by apply footer_size).
  unfold unzip_lz4, check_lz4. replace (has_prefix KXZIP_MAGIC buf) with true.
  2: { symmetry. apply bool_decide_eq_true. done. }
  unfold KXZIP_HEADER_LENGTH. cbn [negb]. replace (_ <? 8) with false by lia.
  rewrite kxzip_footer_length_eq by lia. cbn [mbind outcome_bind].
  replace (get_from buf (8 + len data)) with (Some footer).
  2: { symmetry. unfold get_from. apply get_range_Some. exists (KXZIP_MAGIC ++ data), [].
       rewrite app_nil_r, length_app. unfold buf. rewrite <- app_assoc.
       change (length KXZIP_MAGIC) with 8%nat. split_and!; [done|lia|]. unfold buf in Hbuf. lia. }
  cbn [ok_or mbind outcome_bind]. rewrite Hfl, Z.eqb_refl. cbn [negb].
  rewrite Halg'. unfold accepted.
  case_bool_decide as Halg; cbn [negb andb]; [|by eexists].
  rewrite Hbs'. cbn [ok_or mbind outcome_bind].
  rewrite kxzip_usize_eq by done. cbn [mbind outcome_bind]. set (bs := from_le block_size) in *.
  rewrite <- negb_andb. destruct (between _ _ _ && _) eqn:Hb; cbn [negb andb]; [|by eexists].
  apply andb_prop in Hb as [Hrange _].
  rewrite Hsz'. cbn [ok_or mbind outcome_bind].
  rewrite kxzip_usize_eq by done. cbn [mbind outcome_bind]. rewrite Nat2Z.id.
  pose proof (measure_blocks_spec head size reserved block_size H1 H2 H3 H4 [] ws (8 + len data) bs
    (MkTotals 19 0 false 8)) as Hm. cbn [app length block_start frame_capacity reachable_size] in Hm.
  specialize (Hm Hws). fold footer in Hm. change (Z.of_nat 0) with 0 in Hm.
  specialize (Hm ltac:(bool_lia) ltac:(lia) ltac:(bool_lia) ltac:(bool_lia) ltac:(lia) ltac:(lia)).
  pose proof (total_size_nonneg ws Hws).
  destruct (Z.leb_spec (8 + total_size ws) (8 + len data)) as [Hle|Hgt]; cbv zeta in Hm.
  2: { destruct Hm as [e ->]. replace (total_size ws =? len data) with false by lia. by eexists. }
  rewrite Hm. cbn [mbind outcome_bind measured block_start reachable_size frame_capacity has_empty_block orb].
  replace (8 + total_size ws =? 8 + len data) with (total_size ws =? len data) by lia.
  destruct (Z.eqb_spec (total_size ws) (len data)) as [Hd|]; cbn [negb andb].
  2: { unfold usub, checked_sub. replace (_ <=? _) with true by lia. by eexists. }
  rewrite Z.add_0_l, Z.ltb_antisym. destruct (from_le size <=? reachable bs ws); cbn [negb andb].
  2: { unfold usub, checked_sub. replace (_ <=? _) with true by lia. by eexists. }
  destruct (existsb _ ws); cbn [negb]; [by eexists|].
  destruct (split_blocks ws data Hws Hd) as (blocks & Hblocks & Hsizes).
  exists blocks. split; [done|]. split; [done|].
  cbn [mbind outcome_bind frame_capacity]. unfold reserve. destruct (try_reserve _); [|done].
  rewrite Hsz'. cbn [or_panic mbind outcome_bind].
  rewrite frame_header_eq. cbn [mbind outcome_bind]. unfold buf. rewrite Hblocks.
  pose proof (frame_blocks_spec head size reserved block_size H1 H2 H3 H4 [] ws blocks KXZIP_MAGIC footer Hws)
    as Hf. cbn [app] in Hf. change (len []) with 0 in Hf. change (len KXZIP_MAGIC) with 8 in Hf.
  rewrite <- Hblocks in *. fold footer buf in Hf |- *. rewrite Hf by (done || bool_lia). done.
Qed.

Lemma footer_located head size reserved block_size ws data :
  let footer := encode_footer head size reserved block_size ws in
  let buf := KXZIP_MAGIC ++ data ++ footer in
  length head = 8%nat -> length size = 8%nat -> length reserved = 8%nat -> length block_size = 8%nat ->
  Forall word_ok ws -> len buf <= container_max ->
  if bool_decide (get_at head 4 = Some 4) then locate_footer buf = Ok (8 + len data, len ws)
  else exists e, locate_footer buf = Err e.
Proof.
  intros footer buf H1 H2 H3 H4 Hws Hlen. unfold container_max in Hlen.
  pose proof (footer_length head size reserved block_size H1 H2 H3 H4 ws Hws) as Hfl. fold footer in Hfl.
  assert (len buf = 8 + len data + len footer) as Hbuf
    by (unfold buf; rewrite !length_app; change (length KXZIP_MAGIC) with 8%nat; lia).
  unfold locate_footer. replace (has_prefix KXZIP_MAGIC buf) with true by (symmetry; by apply bool_decide_eq_true).
  cbn [negb]. unfold checked_sub, KXZIP_FOOTER_WORD_LENGTH, KXZIP_HEADER_LENGTH.
  replace (8 <=? len buf) with true by lia. cbn [ok_or mbind outcome_bind].
  replace (get_from buf (len buf - 8)) with (Some (u64_to_le (len ws))).
  2: { symmetry. apply get_range_Some.
       exists (KXZIP_MAGIC ++ data ++ head ++ size ++ reserved ++ block_size ++ encode_words ws), [].
       rewrite app_nil_r. unfold u64_to_le. rewrite length_to_le. split_and!; [|rewrite Hbuf, Hfl|lia].
       - unfold buf, footer, encode_footer, u64_to_le. by rewrite <- !app_assoc.
       - pose proof (encode_words_length ws Hws).
         rewrite !length_app, H1, H2, H3, H4. change (length KXZIP_MAGIC) with 8%nat. lia. }
  cbn [or_panic mbind outcome_bind].
  rewrite kxzip_usize_eq by first [apply to_le_bytes|apply length_to_le]. cbn [mbind outcome_bind].
  rewrite from_u64_to_le by bool_lia. rewrite kxzip_footer_length_eq by lia. cbn [mbind outcome_bind].
  replace (_ <=? len buf) with true by lia. cbn [ok_or mbind outcome_bind].
  replace (len buf - _) with (8 + len data) by lia. replace (_ <? 8) with false by lia.
  rewrite checked_add_eq by bool_lia. cbn [ok_or mbind outcome_bind].
  replace (get_at buf (8 + len data + 4)) with (get_at head 4).
  2: { unfold buf. rewrite app_assoc.
       replace (8 + len data + 4) with (len (KXZIP_MAGIC ++ data) + 4)
         by (rewrite length_app; change (length KXZIP_MAGIC) with 8%nat; lia).
       rewrite get_at_app_r by lia. symmetry. by apply footer_algorithm. }
  destruct (get_at_is_Some head 4 ltac:(lia)) as [a ->]. cbn [ok_or mbind outcome_bind].
  destruct (Z.eqb_spec a 4) as [->|Hne]; [by rewrite bool_decide_true|].
  rewrite bool_decide_false by congruence. by eexists.
Qed.

(** The blocks of a container are determined by its bytes. *)
Lemma blocks_unique ws blocks1 blocks2 :
  sizes_of ws blocks1 -> sizes_of ws blocks2 -> concat blocks1 = concat blocks2 -> blocks1 = blocks2.
Proof.
  intros H1. revert blocks2. induction H1 as [|w b ws blocks1 Hw _ IH]; intros blocks2 H2 Hc.
  { by inversion H2. }
  inversion H2 as [|? b2 ? blocks2' Hw2 Hrest]; subst. cbn [concat] in Hc.
  apply app_inj_1 in Hc as [-> Hc]; [|lia]. f_equal. by apply IH.
Qed.

Lemma kx_sizes f : sizes_of (kx_words f) (map fst (kx_blocks f)).
Proof. unfold kx_words, sizes_of. induction (kx_blocks f); cbn [map]; by constructor. Qed.

(** What is left to do for a container: reserve the frame and decode it. *)
Definition decode_container (f : kxzip) : res (list Z) :=
  _ ← reserve (19 + framed_size (kx_words f)) (fun error =>
        GeneralErr ("Unable to allocate " +:+ show (19 + framed_size (kx_words f))
                    +:+ "-byte Kxzip LZ4 frame: " +:+ error));
  decode_frame (lz4_frame f) (kx_size f).

Lemma no_empty ws : existsb (fun w : word => w.1 =? 0) ws = false <-> Forall (fun w => w.1 <> 0) ws.
Proof.
  rewrite <- not_true_iff_false, existsb_exists, Forall_forall. split.
  - intros Hn w Hw Hz. apply Hn. exists w. rewrite <- list_elem_of_In. split; [done|lia].
  - intros Ha (w & Hw & Hz). rewrite <- list_elem_of_In in Hw. specialize (Ha w Hw). lia.
Qed.

Lemma kx_data_size f : total_size (kx_words f) = len (kx_data f).
Proof.
  unfold kx_words, kx_data, total_size. induction (kx_blocks f) as [|[b t] blocks IH]; [done|].
  cbn [map foldr concat fst]. rewrite length_app. cbn [fst] in IH. lia.
Qed.

Lemma container_size_bounds f : kxzip_ok f -> len (encode_kxzip f) <= container_max -> 0 <= kx_size f <= usize_max.
Proof.
  intros (_ & _ & Hsize & _ & Hbs & _ & Hws & _) Hl.
  pose proof (reachable_bound (kx_block_size f) (kx_words f) Hws ltac:(lia)) as Hr.
  rewrite kx_data_size in Hr. unfold encode_kxzip in Hl. rewrite !length_app in Hl.
  unfold container_max in Hl. bool_lia.
Qed.

Lemma unzip_encoded f :
  kxzip_ok f -> len (encode_kxzip f) <= container_max -> unzip (encode_kxzip f) = decode_container f.
Proof.
  intros Hf Hl. pose proof (container_size_bounds f Hf Hl) as Hsz.
  destruct Hf as (Hhead & Halg & Hsize & Hrsv & Hbs & Hpow & Hws & Hne).
  assert (length (u64_to_le (kx_size f)) = 8%nat /\ length (u64_to_le (kx_block_size f)) = 8%nat) as [Hl1 Hl2]
    by (split; apply length_to_le).
  pose proof (footer_located _ _ _ _ _ (kx_data f) Hhead Hl1 Hrsv Hl2 Hws Hl) as Hu. cbv zeta in Hu.
  rewrite bool_decide_true in Hu by done. unfold encode_kxzip at 1, unzip. rewrite Hu. cbn [mbind outcome_bind].
  pose proof (unzip_lz4_parts _ _ _ _ _ (kx_data f) Hhead Hl1 Hrsv Hl2 Hws
    (to_le_bytes _ _) (to_le_bytes _ _) Hl) as Hp. cbv zeta in Hp.
  rewrite !from_u64_to_le in Hp by bool_lia.
  replace (accepted _ _ _ _ _) with true in Hp.
  2: { symmetry. unfold accepted. rewrite bool_decide_true, Hpow, kx_data_size, Z.eqb_refl by done.
       rewrite (proj2 (no_empty _) Hne). replace (between _ _ _) with true by bool_lia.
       replace (kx_size f <=? _) with true by lia. done. }
  destruct Hp as (blocks & Hd & Hs & Hp). rewrite Hp. unfold decode_container, lz4_frame.
  by rewrite (blocks_unique _ _ _ Hs (kx_sizes f)) by done.
Qed.

(** A file that is shorter than the footer its last word announces. *)
Lemma unzip_short buf :
  bytes_ok buf -> 8 <= len buf -> len buf < 8 + 8 * (from_le (drop (length buf - 8) buf) + 5) ->
  exists e, locate_footer buf = Err e.
Proof.
  intros Hb H8. set (count := drop _ _). intros Hshort.
  assert (bytes_ok count) as Hcb by by apply Forall_drop.
  assert (length count = 8%nat) as Hcl by (unfold count; rewrite length_drop; lia).
  unfold locate_footer. destruct (has_prefix KXZIP_MAGIC buf); cbn [negb]; [|by eexists].
  unfold checked_sub, KXZIP_FOOTER_WORD_LENGTH, KXZIP_HEADER_LENGTH. replace (8 <=? len buf) with true by lia.
  cbn [ok_or mbind outcome_bind]. replace (get_from buf (len buf - 8)) with (Some count).
  2: { symmetry. apply get_range_Some. exists (take (length buf - 8) buf), []. unfold count.
       rewrite app_nil_r, take_drop, length_take, length_drop. split_and!; [done|lia..]. }
  cbn [or_panic mbind outcome_bind]. rewrite kxzip_usize_eq by done. cbn [mbind outcome_bind].
  destruct (kxzip_footer_length_cases (from_le count)) as [-> |[e ->]]; [|by eexists].
  cbn [mbind outcome_bind]. destruct (_ <=? len buf); [|by eexists]. cbn [ok_or mbind outcome_bind].
  replace (_ <? 8) with true by lia. by eexists.
Qed.

(** A longer one has all the parts. *)
Lemma parts_of buf :
  bytes_ok buf -> has_prefix KXZIP_MAGIC buf = true ->
  8 + 8 * (from_le (drop (length buf - 8) buf) + 5) <= len buf ->
  exists head size reserved block_size ws data,
    buf = KXZIP_MAGIC ++ data ++ encode_footer head size reserved block_size ws
    /\ length head = 8%nat /\ length size = 8%nat /\ length reserved = 8%nat /\ length block_size = 8%nat
    /\ Forall word_ok ws /\ bytes_ok size /\ bytes_ok block_size.
Proof.
  intros Hb Hm%bool_decide_eq_true. change (length KXZIP_MAGIC) with 8%nat in Hm.
  set (count := drop _ _). set (n := from_le count). intros Hlong.
  assert (bytes_ok count) as Hcb by by apply Forall_drop.
  assert (length count <= 8)%nat as Hcl by (unfold count; rewrite length_drop; lia).
  pose proof (from_le_bound count Hcb) as Hn. fold n in Hn.
  assert (2 ^ (8 * len count) <= 2 ^ 64) as Hpow by (apply Z.pow_le_mono_r; lia).
  assert (buf = KXZIP_MAGIC ++ drop 8 buf) as Ebuf by (by rewrite <- Hm, take_drop).
  destruct (split_at (drop 8 buf) (length buf - 8 - 8 * Z.to_nat (n + 5))) as (data & footer & Erest & Hdl).
  { rewrite length_drop. lia. }
  assert (length footer = (8 * Z.to_nat (n + 5))%nat) as Hfl.
  { apply (f_equal length) in Erest. rewrite length_drop, length_app in Erest. lia. }
  rewrite Erest in Ebuf.
  assert (bytes_ok footer) as Hfb by (rewrite Ebuf, !Forall_app in Hb; apply Hb).
  destruct (footer_of footer n Hfb ltac:(bool_lia) ltac:(lia)) as
    (head & size & reserved & block_size & ws & Ef & H1 & H2 & H3 & H4 & Hnw & Hws).
  { unfold n, count. rewrite Ebuf at 2. rewrite app_assoc. f_equal.
    rewrite drop_app_ge by (rewrite Ebuf, !length_app; change (length KXZIP_MAGIC) with 8%nat; lia).
    f_equal. rewrite Ebuf, !length_app. lia. }
  exists head, size, reserved, block_size, ws, data. rewrite Ef in Hfb, Ebuf.
  unfold encode_footer in Hfb. rewrite !Forall_app in Hfb. tauto.
Qed.

(** Accepted parts are those of a container. *)
Lemma container_of head size reserved block_size ws blocks :
  length head = 8%nat -> length size = 8%nat -> length reserved = 8%nat -> length block_size = 8%nat ->
  Forall word_ok ws -> bytes_ok size -> bytes_ok block_size -> sizes_of ws blocks ->
  accepted head (from_le size) (from_le block_size) ws (concat blocks) = true ->
  exists f, kxzip_ok f /\ kx_words f = ws /\ map fst (kx_blocks f) = blocks
    /\ kx_size f = from_le size /\ u64_to_le (kx_size f) = size /\ kx_block_size f = from_le block_size
    /\ encode_kxzip f = KXZIP_MAGIC ++ concat blocks ++ encode_footer head size reserved block_size ws.
Proof.
  intros H1 H2 H3 H4 Hws Hbs Hbb Hsizes Hacc. unfold accepted in Hacc. split_andb.
  set (f := MkKxzip head (from_le size) reserved (from_le block_size) (zip blocks (map snd ws))).
  assert (kx_words f = ws /\ map fst (kx_blocks f) = blocks) as [Ew Eb].
  { unfold kx_words, f. cbn [kx_blocks]. clear -Hsizes. induction Hsizes as [|[z t] b ws blocks Hw _ [IH1 IH2]]; [done|].
    cbn [zip zip_with map fst snd]. split; [|by rewrite IH2]. cbn [fst] in Hw. rewrite Hw. f_equal. exact IH1. }
  pose proof (from_le_bound size Hbs) as Hsz. rewrite H2 in Hsz. change (8 * Z.of_nat 8) with 64 in Hsz.
  pose proof (from_le_bound block_size Hbb) as Hbz. rewrite H4 in Hbz. change (8 * Z.of_nat 8) with 64 in Hbz.
  assert (u64_to_le (from_le size) = size /\ u64_to_le (from_le block_size) = block_size) as [Es Ebs].
  { unfold u64_to_le, unsigned. rewrite !Z.mod_small by lia. rewrite <- H2 at 1. rewrite <- H4.
    split; by apply to_from_le. }
  exists f. split_and!; try done.
  - unfold kxzip_ok. rewrite Ew. cbn [f kx_head kx_size kx_reserved kx_block_size].
    split_and!; try done; try bool_lia; [by eapply bool_decide_eq_true|by apply no_empty, negb_true_iff].
  - unfold encode_kxzip, kx_data. rewrite Ew, Eb. cbn [f kx_head kx_size kx_reserved kx_block_size].
    by rewrite Es, Ebs.
Qed.

(** Bytes are refused, whatever the allocator, or they are a container. *)
Lemma unzip_cases buf :
  bytes_ok buf -> len buf <= container_max ->
  (exists e, forall `{Allocator}, unzip buf = Err e) \/ (exists f, kxzip_ok f /\ buf = encode_kxzip f).
Proof.
  intros Hb Hl. unfold unzip. destruct (has_prefix KXZIP_MAGIC buf) eqn:Emagic.
  2: { left. unfold locate_footer. rewrite Emagic. by eexists. }
  assert (8 <= len buf) as H8.
  { apply bool_decide_eq_true, (f_equal length) in Emagic. rewrite length_take in Emagic.
    change (length KXZIP_MAGIC) with 8%nat in Emagic. lia. }
  destruct (Z.lt_ge_cases (len buf) (8 + 8 * (from_le (drop (length buf - 8) buf) + 5))) as [Hshort|Hlong].
  { left. destruct (unzip_short buf Hb H8 Hshort) as [e ->]. by exists e. }
  destruct (parts_of buf Hb Emagic ltac:(lia)) as
    (head & size & reserved & block_size & ws & data & -> & H1 & H2 & H3 & H4 & Hws & Hbs & Hbb).
  pose proof (footer_located _ _ _ _ _ data H1 H2 H3 H4 Hws Hl) as Hu. cbv zeta in Hu.
  pose proof (unzip_lz4_parts _ _ _ _ _ data H1 H2 H3 H4 Hws Hbs Hbb Hl) as Hp. cbv zeta in Hp.
  destruct (accepted _ _ _ _ _) eqn:Eacc in Hp.
  - right. destruct Hp as (blocks & -> & Hsizes & _).
    destruct (container_of head size reserved block_size ws blocks H1 H2 H3 H4 Hws Hbs Hbb Hsizes Eacc)
      as (f & Hok & _ & _ & _ & _ & _ & Ef).
    by exists f.
  - left. destruct (bool_decide _); [rewrite Hu|destruct Hu as [e ->]; by exists e].
    destruct Hp as [e He]. exists e. intros A. cbn [mbind outcome_bind]. unfold unzip_lz4. by rewrite He.
Qed.
End Unzip.
