(* ===== verification/IoSpec.v ===== *)
(** * IoSpec: what reading files and making messages guarantee *)

From stdpp Require Import prelude strings.
From Stdlib Require Import ZArith Lia ZifyBool.
From S2P Require Import Prelude Errors Types QValue Compress CompressSpec Framing FramingFacts FramingSpec Text Value AnyValue Serialize SerializeFacts Deserialize DeserializeFacts Sample SerdeSpec Stream StreamFacts Connector ConnectorFacts Io IoFacts.

(** ** Files *)

(** C30: a file is read completely.  Whatever length its metadata reports, however its
    reads are cut and interrupted, the result is the content, or the error that ends
    it.  No more memory is requested at once than that length, the initial reservation
    or the size of the content, so only an allocator that refuses such a request makes
    the read fail. *)
Theorem read_file_exact `{Allocator} (file : stream) (hint : Z) (description : string) :
  0 <= hint -> len (payload file) <= isize_max ->
  let result := read_file_fallibly file hint description in
  returns result
  /\ (forall content, result = Ok content -> content = payload file /\ ending file = None)
  /\ ((forall n, n <= Z.max hint (Z.max INITIAL_FILE_RESERVATION (len (payload file))) -> try_reserve n = true) ->
      result = match ending file with None => Ok (payload file) | Some e => Err (IOError e) end).
Proof.
  intros Hh Hl result. pose proof (read_file_granted file hint description Hh Hl) as Hg. split_and!.
  - unfold result. destruct Hg as [->|(n & message & _ & _ & ->)]; [|done]. by destruct (ending file).
  - unfold result. intros content Hc. destruct Hg as [Hg|(n & message & _ & _ & Hg)]; rewrite Hg in Hc; [|done].
    destruct (ending file); [done|]. by injection Hc.
  - exact (granted_all _ _ _ Hg).
Qed.

(** A file of five bytes that reports no length, with an interrupted read. *)
Definition odd_file : stream := [Data [1; 2]; Failure (IoError Interrupted ""); Data [3; 4; 5]].

Lemma read_file_exact_witness :
  @read_file_fallibly unlimited odd_file 0 "Q binary table" = Ok [1; 2; 3; 4; 5].
Proof.
  refine (proj2 (proj2 (@read_file_exact unlimited odd_file 0 "Q binary table" _ _)) _); [done..|].
  by intros n _.
Defined.

(** ** Containers *)

(** Reads of the decoder give bytes and, as its input is in memory, are never
    interrupted. *)
Definition calm (s : stream) : Prop :=
  Forall (fun e => match e with Failure e => is_interrupted e = false | Data _ => True end) s.

Class Lz4Laws `{Lz4} : Prop := {
  decoder_calm frame : calm (frame_decoder frame);
  decoder_bytes frame : bytes_ok (payload (frame_decoder frame))
}.

(** Decoding a frame gives [out] and ends with the frame. *)
Definition decodes `{Lz4} (frame out : list Z) : Prop :=
  payload (frame_decoder frame) = out /\ ending (frame_decoder frame) = None
  /\ frame_position frame = len frame.

Lemma read_calm want s : calm s -> calm (snd (read want s)).
Proof.
  intros Hs. destruct s as [|[[|b chunk]|e] s]; cbn [read snd]; try done; inversion Hs; subst; [|done].
  destruct (drop _ _); [done|]. by constructor.
Qed.

Lemma read_exact_calm n s : calm s -> calm (snd (read_exact n s)).
Proof.
  unfold read_exact. generalize (S (stream_size s)). intros fuel. generalize ([] : list Z).
  revert s. induction fuel as [|fuel IH]; intros s filled Hs; cbn [read_exact_loop]; [done|].
  destruct (n <=? _); [done|]. pose proof (read_calm (n - len filled) s Hs) as Hr.
  destruct (read _ s) as [[[|? ?]|e| |] s']; cbn [snd] in *; auto.
  destruct (is_interrupted e); auto.
Qed.

(** The next read of a calm stream finds nothing exactly at its end. *)
Lemma read_one_calm s :
  calm s ->
  match fst (read 1 s) with
  | Ok [] => payload s = [] /\ ending s = None
  | Ok _ => payload s <> []
  | Err _ => ending s <> None
  | _ => False
  end.
Proof.
  intros Hs. destruct s as [|[[|b chunk]|e] s]; cbn [read fst payload ending]; try done.
  inversion Hs as [|? ? He]; subst. by rewrite He.
Qed.

Section Containers.
  Context `{!Lz4} `{!Lz4Laws}.

Lemma decode_frame_exact (frame : list Z) (n : Z) (out : list Z) :
  0 <= n -> @decode_frame unlimited _ frame n = Ok out <-> decodes frame out /\ len out = n.
Proof.
  intros Hn. unfold decode_frame, decodes. cbn [reserve try_reserve unlimited mbind outcome_bind].
  pose proof (read_exact_spec n (frame_decoder frame) Hn) as Hr.
  pose proof (read_exact_calm n _ (decoder_calm frame)) as Hc.
  destruct (read_exact n (frame_decoder frame)) as [r s']. cbn [snd] in Hc.
  set (p := payload (frame_decoder frame)) in *. destruct (Z.leb_spec n (len p)) as [Hle|Hgt].
  2: { rewrite Hr. split; [done|]. intros [[Hpo _] Hlo]. rewrite Hpo in Hgt. lia. }
  destruct Hr as (-> & Hp & He). cbn [map_err mbind outcome_bind]. pose proof (read_one_calm s' Hc) as H1.
  assert (len (take (Z.to_nat n) p) = n) as Hlt by (rewrite length_take; lia).
  assert (payload s' = [] -> take (Z.to_nat n) p = p) as Hall.
  { rewrite Hp. intros Hd. apply (f_equal length) in Hd. rewrite length_drop in Hd. cbn [length] in Hd.
    apply take_ge. lia. }
  assert (p = out -> len out = n -> payload s' = []) as Hback.
  { rewrite Hp. intros -> <-. apply drop_ge. lia. }
  destruct (fst (read 1 s')) as [[|? ?]|e| |]; try done; cbn [map_err mbind outcome_bind].
  - destruct H1 as [H1 H1']. specialize (Hall H1). destruct (Z.eqb_spec (frame_position frame) (len frame)); cbn [negb].
    + split; [intros [= <-]; split_and!; congruence|]. intros [(<- & _ & _) _]. by rewrite Hall.
    + split; [done|]. intros [(_ & _ & ?) _]. done.
  - split; [done|]. intros [(Ho & _ & _) Hl]. by destruct H1; apply Hback.
  - split; [done|]. intros [(_ & Ho & _) _]. congruence.
Qed.

Lemma decode_frame_granted `{Allocator} (frame : list Z) (n bound : Z) :
  n <= bound -> granted bound (decode_frame frame n) (@decode_frame unlimited _ frame n).
Proof. intros Hn. unfold decode_frame at 1. apply granted_reserve; [done|by eexists|by left]. Qed.

Lemma decode_frame_returns (frame : list Z) (n : Z) : 0 <= n -> returns (@decode_frame unlimited _ frame n).
Proof.
  intros Hn. unfold decode_frame. cbn [reserve try_reserve unlimited mbind outcome_bind].
  pose proof (read_exact_spec n (frame_decoder frame) Hn) as Hr.
  pose proof (read_exact_calm n _ (decoder_calm frame)) as Hc.
  destruct (read_exact n (frame_decoder frame)) as [r s']. cbn [snd] in Hc.
  destruct (n <=? _); [destruct Hr as [-> _]|by rewrite Hr]. cbn [map_err mbind outcome_bind].
  pose proof (read_one_calm s' Hc). destruct (fst (read 1 s')) as [[|? ?]|e| |]; try done.
  cbn [map_err mbind outcome_bind]. by destruct (negb _).
Qed.

(** The requests of a container are bounded by its own size. *)
Lemma container_requests f :
  kxzip_ok f -> 19 + framed_size (kx_words f) <= len (encode_kxzip f) /\ 0 <= kx_size f <= 255 * len (encode_kxzip f).
Proof.
  intros (H1 & _ & Hsize & H3 & Hbs & _ & Hws & _).
  pose proof (reachable_bound (kx_block_size f) (kx_words f) Hws ltac:(lia)) as Hr.
  unfold encode_kxzip. rewrite !length_app. change (length KXZIP_MAGIC) with 8%nat.
  pose proof (footer_length (kx_head f) (u64_to_le (kx_size f)) (kx_reserved f) (u64_to_le (kx_block_size f))
    H1 (length_to_le _ _) H3 (length_to_le _ _) (kx_words f) Hws) as Hf.
  rewrite framed_size_eq, kx_data_size in *. lia.
Qed.

Lemma unzip_granted `{Allocator} buf :
  bytes_ok buf -> len buf <= container_max -> granted (255 * len buf) (unzip buf) (@unzip unlimited _ buf).
Proof.
  intros Hb Hl. destruct (unzip_cases buf Hb Hl) as [[e He]|(f & Hf & ->)].
  - rewrite !He. by left.
  - rewrite !unzip_encoded by done. destruct (container_requests f Hf) as [Hcap [Hs0 Hs]].
    unfold decode_container at 1. apply granted_reserve; [lia|by eexists|]. by apply decode_frame_granted.
Qed.

(** C15: decompression accepts exactly the kxzip containers.  A file decompresses to
    [out] if and only if it is a container (magic, blocks, footer, LZ4, an allowed
    block size, no empty block, a reachable size) whose blocks, put behind each other
    in one LZ4 frame, decode to [out], of the declared size, with nothing left over. *)
Theorem unzip_exact (buf out : list Z) :
  bytes_ok buf -> len buf <= container_max ->
  @unzip unlimited _ buf = Ok out
  <-> exists f, kxzip_ok f /\ buf = encode_kxzip f /\ decodes (lz4_frame f) out /\ len out = kx_size f.
Proof.
  intros Hb Hl. split.
  - intros Hu. destruct (@unzip_cases unlimited _ buf Hb Hl) as [[e He]|(f & Hf & ->)]; [by rewrite He in Hu|].
    exists f. rewrite unzip_encoded in Hu by done. unfold decode_container in Hu.
    cbn [reserve try_reserve unlimited mbind outcome_bind] in Hu.
    apply decode_frame_exact in Hu as [Hd Ho]; [done|apply Hf].
  - intros (f & Hf & -> & Hd & Ho). rewrite unzip_encoded by done. unfold decode_container.
    cbn [reserve try_reserve unlimited mbind outcome_bind]. apply decode_frame_exact; [apply Hf|done].
Qed.

Lemma unzip_returns `{Allocator} (buf : list Z) :
  bytes_ok buf -> len buf <= container_max -> returns (unzip buf).
Proof.
  intros Hb Hl. destruct (unzip_granted buf Hb Hl) as [->|(n & message & _ & _ & ->)]; [|done].
  destruct (@unzip_cases unlimited _ buf Hb Hl) as [[e ->]|(f & Hf & ->)]; [done|].
  rewrite unzip_encoded by done. unfold decode_container. cbn [reserve try_reserve unlimited mbind outcome_bind].
  apply decode_frame_returns. apply Hf.
Qed.

(** C31: decompressing a file always returns, and the sizes a file merely declares
    cannot make it request memory: an allocator that grants 255 times the size of the
    file grants all it asks for. *)
Theorem unzip_bounded `{Allocator} (buf : list Z) :
  bytes_ok buf -> len buf <= container_max ->
  returns (unzip buf)
  /\ ((forall n, n <= 255 * len buf -> try_reserve n = true) -> unzip buf = @unzip unlimited _ buf).
Proof.
  intros Hb Hl. split; [by apply unzip_returns|]. exact (granted_all _ _ _ (unzip_granted buf Hb Hl)).
Qed.

(** ** Table files *)

Context `{Chrono} `{!SeriesDecoder Series DataFrame}.

(** A regular file with this content, read without a failure. *)
Definition holds `{FileSystem} (path : string) (content : list Z) : Prop :=
  exists length s, metadata path = Ok (true, length) /\ 0 <= length <= usize_max
    /\ open_file path = Ok s /\ payload s = content /\ ending s = None.

Lemma read_table_holds `{FileSystem} (path : string) (content : list Z) (encoding : SymbolEncoding) :
  holds path content -> len content <= isize_max ->
  @read_j6_binary_table unlimited _ _ Series DataFrame _ _ path encoding
  = @table_of_bytes unlimited _ _ Series DataFrame _ content encoding.
Proof.
  intros (length & s & Hm & Hlen & Ho & <- & He) Hl. unfold read_j6_binary_table.
  rewrite Hm. cbn [map_err mbind outcome_bind negb]. rewrite Ho. cbn [map_err mbind outcome_bind].
  unfold try_usize. replace (_ && _) with true by bool_lia. cbn [ok_or mbind outcome_bind].
  rewrite (granted_all _ _ _ (read_file_granted s length "Q binary table" ltac:(lia) Hl)) by done.
  by rewrite He.
Qed.

(** Compressing a table file changes nothing.  A file that holds a container whose
    blocks decode to some content reads as the file that holds that content itself,
    unless the content is a container again. *)
Theorem compressed_table_reads `{FileSystem} (zipped plain : string) (f : kxzip) (content : list Z)
    (encoding : SymbolEncoding) :
  kxzip_ok f -> len (encode_kxzip f) <= container_max -> bytes_ok (encode_kxzip f) ->
  decodes (lz4_frame f) content -> len content = kx_size f ->
  holds zipped (encode_kxzip f) -> holds plain content -> has_prefix KXZIP_MAGIC content = false ->
  @read_j6_binary_table unlimited _ _ Series DataFrame _ _ zipped encoding
  = @read_j6_binary_table unlimited _ _ Series DataFrame _ _ plain encoding.
Proof.
  intros Hf Hl Hb Hd Hlen Hz Hp Hmagic.
  destruct (container_requests f Hf) as [_ [_ Hs]]. unfold container_max in Hl.
  rewrite (read_table_holds zipped _ encoding Hz) by bool_lia.
  rewrite (read_table_holds plain _ encoding Hp) by bool_lia.
  unfold table_of_bytes. rewrite Hmagic.
  replace (has_prefix KXZIP_MAGIC (encode_kxzip f)) with true by (symmetry; by apply bool_decide_eq_true).
  replace (@unzip unlimited _ (encode_kxzip f)) with (@Ok XqdbError _ content); [done|].
  symmetry. rewrite unzip_encoded by done. unfold decode_container.
  cbn [reserve try_reserve unlimited mbind outcome_bind]. apply decode_frame_exact; [apply Hf|done].
Qed.

Lemma table_of_bytes_returns `{Allocator} `{!SeriesDecoderEnds} (content : list Z) (encoding : SymbolEncoding) :
  bytes_ok content -> len content <= container_max ->
  returns (@table_of_bytes _ _ _ Series DataFrame _ content encoding).
Proof.
  intros Hb Hl. assert (len content <= 2 ^ 55) as Hl' by done. unfold table_of_bytes. apply returns_bind.
  { destruct (has_prefix _ _); [by apply unzip_returns|done]. }
  intros buffer Hbuffer. assert (slice_ok buffer) as Hok.
  { destruct (has_prefix KXZIP_MAGIC content) eqn:Em; [|injection Hbuffer as <-; split; [done|bool_lia]].
    destruct (unzip_granted content Hb Hl) as [Hu|(n & message & _ & _ & Hu)]; rewrite Hu in Hbuffer; [|done].
    apply unzip_exact in Hbuffer as (f & Hf & -> & (<- & _) & Hlen); [|done..].
    destruct (container_requests f Hf) as [_ [_ Hs]]. split; [apply decoder_bytes|bool_lia]. }
  apply returns_bind; [apply returns_ok_or|]. intros k_type _. apply returns_bind.
  { destruct (_ =? 98); [done|]. by destruct (_ =? 99). }
  intros minimum _. destruct (_ <? minimum); [done|]. apply returns_bind.
  { by apply deserialize_at_returns. }
  intros v _. by destruct v.
Qed.

(** Reading a table file always comes to an end, with the table or an error,
    whatever the file holds, plain or compressed, and whatever the allocator refuses. *)
Theorem read_table_total `{Allocator} `{FileSystem} `{!SeriesDecoderEnds} (path : string) (encoding : SymbolEncoding) :
  (forall p, returns (metadata p) /\ forall regular length, metadata p = Ok (regular, length) -> 0 <= length) ->
  (forall p, returns (open_file p) /\
     forall s, open_file p = Ok s -> bytes_ok (payload s) /\ len (payload s) <= container_max) ->
  returns (@read_j6_binary_table _ _ _ Series DataFrame _ _ path encoding).
Proof.
  intros Hmeta Hopen. unfold read_j6_binary_table. destruct (Hmeta path) as [Hm Hlen].
  destruct (metadata path) as [[regular length]|e| |]; try done. cbn [map_err mbind outcome_bind].
  destruct regular; cbn [negb]; [|done]. destruct (Hopen path) as [Ho Hs].
  destruct (open_file path) as [s|e| |]; try done. cbn [map_err mbind outcome_bind].
  destruct (Hs s eq_refl) as [Hb Hl]. specialize (Hlen _ _ eq_refl). assert (len (payload s) <= 2 ^ 55) as Hl' by done.
  apply returns_bind; [apply returns_ok_or|]. intros n Hn%ok_or_Ok.
  assert (n = length) as -> by (unfold try_usize in Hn; destruct (_ && _); by inversion Hn). clear Hn.
  destruct (read_file_granted s length "Q binary table" Hlen ltac:(bool_lia)) as
    [->|(k & message & _ & _ & ->)]; [|done].
  destruct (ending s); [done|]. cbn [all_of mbind outcome_bind]. by apply table_of_bytes_returns.
Qed.
End Containers.

(** ** Messages *)

#[local] Existing Instance native_codec.

(** C20: a message that is made is a message that is read.  Without compression a value
    that serializes into a frame's limits gives exactly its bytes behind their header;
    and whatever is made, compressed or not and whatever the allocator grants, reading
    it gives the message kind and what reading the bytes of the value alone gives, in
    both modes: for values without series, tables and opaque values, the value itself. *)
Theorem message_roundtrip `{Chrono} `{!ChronoLaws} `{!SeriesEncoder Series DataFrame} `{!SeriesEncoderLaws}
    `{!SeriesDecoder Series DataFrame} `{!SeriesDecoderLaws} (m : MsgType) (k : K Series DataFrame)
    (bytes : list Z) :
  typed k -> serialize k = Ok bytes -> bytes_ok bytes -> 2 <= len bytes -> len bytes + 8 <= MAX_IPC_LENGTH_FIELD ->
  @generate_j6_ipc_msg unlimited _ Series DataFrame _ m false k
  = Ok (encode_header (MkHeaderFields (msg_type_code m) 0 (len bytes + 8)) ++ bytes)
  /\ forall `{Allocator} enable frame encoding, @generate_j6_ipc_msg _ _ Series DataFrame _ m enable k = Ok frame ->
     (forall mode, @deserialize_j6_ipc_msg unlimited _ Series DataFrame _ frame encoding mode
        = (v ← @deserialize_j6 unlimited _ Series DataFrame _ bytes encoding mode; Ok (m, v)))
     /\ (plain k -> wire_depth k <= MAX_VALUE_DEPTH ->
         @deserialize_j6_ipc_msg unlimited _ Series DataFrame _ frame encoding Native = Ok (m, read_back k)).
Proof.
  intros Ht Hs Hb H2' Hmax. set (frame0 := encode_header _ ++ bytes).
  assert (forall `{Allocator} enable, @generate_j6_ipc_msg _ _ Series DataFrame _ m enable k
    = (_ ← reserve (len bytes + 8) (fun error =>
         GeneralErr ("Unable to allocate " +:+ show (len bytes + 8) +:+ "-byte J6 IPC message: " +:+ error));
       if enable then compress frame0 else Ok frame0)) as Hgen.
  { intros A enable. unfold generate_j6_ipc_msg.
    assert (exists n, j6_len k = Ok n) as [n Hn].
    { unfold serialize in Hs. destruct (j6_len k) as [n| | |]; try done. by exists n. }
    destruct (value_written k 0 n Ht Hn) as (bytes' & Hw & Hl).
    assert (serialize_into k [] = Ok bytes) as Hs' by (unfold serialize in Hs; by rewrite Hn in Hs).
    pose proof (DeserializeFacts.written_bytes k bytes' bytes Hw Hs') as E. subst bytes'. clear Hs'.
    rewrite Hn. cbn [mbind outcome_bind]. unfold checked_j6_ipc_total_length, MAX_IPC_LENGTH_FIELD in *.
    rewrite checked_add_eq by bool_lia. cbn [ok_or mbind outcome_bind]. unfold ipc_length_header, MAX_IPC_LENGTH_FIELD.
    replace (_ <? n + 8) with false by lia. cbn [mbind outcome_bind]. rewrite Hl.
    destruct (reserve _ _); [|done..]. cbn [mbind outcome_bind]. rewrite Hw. cbn [mbind outcome_bind].
    fold (encode_header (MkHeaderFields (msg_type_code m) 0 (n + 8))).
    change (request_header m _ _) with (encode_header (MkHeaderFields (msg_type_code m) 0 (n + 8))).
    rewrite <- Hl. fold frame0. replace (len frame0 =? len bytes + 8) with true; [done|].
    unfold frame0. rewrite length_app. pose proof (len_encode_header (MkHeaderFields (msg_type_code m) 0 (len bytes + 8))). lia. }
  split; [by rewrite Hgen|]. intros A enable frame encoding Hframe. rewrite Hgen in Hframe.
  assert (forall mode, @deserialize_j6_ipc_msg unlimited _ Series DataFrame _ frame encoding mode
    = (v ← @deserialize_j6 unlimited _ Series DataFrame _ bytes encoding mode; Ok (m, v))) as Hread.
  { intros mode. apply bind_Ok in Hframe as (_ & _ & Hframe). unfold deserialize_j6_ipc_msg.
    assert (frame = frame0 \/ compress frame0 = Ok frame) as Hf by (destruct enable; [by right|left; by injection Hframe]).
    pose proof (sent_frame_decodes A m bytes frame encoding mode) as Hd. cbv zeta in Hd. cbn [total_length] in Hd.
    specialize (Hd Hb H2' Hmax Hf). rewrite Hd. clear.
    destruct mode; unfold decode_value_body, deserialize_j6; reflexivity. }
  split; [exact Hread|]. intros Hp Hd. rewrite Hread. cbn [deserialize_j6].
  rewrite (serialized_reads_back k bytes encoding Ht Hp Hd Hs); [done|]. split; [done|].
  unfold MAX_IPC_LENGTH_FIELD in Hmax. bool_lia.
Qed.

(** ** Witnesses *)

(** A decoder of frames with one block of literals. *)
Definition literals (block : list Z) : list Z :=
  match block with
  | token :: rest => if token / 16 =? 15 then drop 1 rest else rest
  | [] => []
  end.

#[local] Instance sample_lz4 : Lz4 := {|
  xxh32 := fun _ => 0;
  frame_decoder := fun frame =>
    [Data (map (fun b => b mod 256) (literals (drop 19 (take (length frame - 4) frame))))];
  frame_position := fun frame => len frame
|}.

#[local] Instance sample_lz4_laws : Lz4Laws.
Proof.
  split; intros frame; cbn [frame_decoder sample_lz4].
  - by repeat constructor.
  - set (bytes := literals _). assert (bytes_ok (map (fun b => b mod 256) bytes)) as H.
    { apply Forall_map, Forall_forall. intros b _. unfold compose, is_byte. apply Z.mod_pos_bound. lia. }
    destruct (map _ bytes) eqn:E; cbn [payload]; [constructor|]. by rewrite app_nil_r.
Qed.

(** A file with an empty table, and the container with its 17 bytes as literals. *)
Definition table_file : list Z := [255; 1; 98; 0; 99; 11; 0; 0; 0; 0; 0; 0; 0; 0; 0; 0; 0].
Definition sample_kxzip : kxzip :=
  MkKxzip [0; 0; 0; 0; 4; 0; 0; 0] 17 [0; 0; 0; 0; 0; 0; 0; 0] 4096 [([240; 2] ++ table_file, [0; 0; 0; 0])].

Lemma sample_kxzip_ok : kxzip_ok sample_kxzip.
Proof.
  split; [reflexivity|]. split; [vm_compute; reflexivity|]. split; [split; vm_compute; discriminate|].
  split; [reflexivity|]. split; [split; vm_compute; discriminate|]. split; [vm_compute; reflexivity|]. split.
  - constructor; [|constructor]. split; [split; vm_compute; discriminate|reflexivity].
  - constructor; [|constructor]. vm_compute. discriminate.
Qed.

Lemma sample_kxzip_bytes : bytes_ok (encode_kxzip sample_kxzip).
Proof. apply bytes_ok_dec. vm_compute. reflexivity. Qed.

Lemma sample_decodes : decodes (lz4_frame sample_kxzip) table_file.
Proof. split; [|split]; vm_compute; reflexivity. Qed.

Lemma unzip_exact_witness : @unzip unlimited _ (encode_kxzip sample_kxzip) = Ok table_file.
Proof.
  apply (proj2 (unzip_exact (encode_kxzip sample_kxzip) table_file sample_kxzip_bytes ltac:(vm_compute; discriminate))).
  exists sample_kxzip. exact (conj sample_kxzip_ok (conj eq_refl (conj sample_decodes eq_refl))).
Defined.

(** No allocation is granted. *)
Lemma unzip_bounded_witness : returns (@unzip exhausted _ (encode_kxzip sample_kxzip)).
Proof.
  exact (proj1 (@unzip_bounded _ _ exhausted (encode_kxzip sample_kxzip) sample_kxzip_bytes ltac:(vm_compute; discriminate))).
Defined.

#[local] Instance sample_files : FileSystem := {|
  metadata := fun path => Ok (true, if String.eqb path "zipped" then 0 else 17);
  open_file := fun path =>
    Ok (if String.eqb path "zipped"
        then [Data (encode_kxzip sample_kxzip); Failure (IoError Interrupted "")] else [Data table_file])
|}.

Lemma sample_holds :
  holds "zipped" (encode_kxzip sample_kxzip) /\ holds "plain" table_file.
Proof.
  split; (do 2 eexists; split; [reflexivity|]; split; [unfold usize_max; cbn; lia|];
    split; [reflexivity|]; vm_compute; by split).
Qed.

Lemma compressed_table_reads_witness :
  @read_j6_binary_table unlimited _ _ SampleSeries (list SampleSeries) _ _ "zipped" Strict = Ok [].
Proof.
  rewrite (compressed_table_reads "zipped" "plain" sample_kxzip table_file Strict sample_kxzip_ok
    ltac:(vm_compute; discriminate) sample_kxzip_bytes sample_decodes eq_refl
    (proj1 sample_holds) (proj2 sample_holds) eq_refl).
  vm_compute. reflexivity.
Defined.

Lemma read_table_total_witness :
  returns (@read_j6_binary_table exhausted _ _ SampleSeries (list SampleSeries) _ _ "zipped" Strict).
Proof.
  apply (@read_table_total _ _ _ SampleSeries (list SampleSeries) _ exhausted _ _ "zipped" Strict).
  - intros p. split; [done|]. intros regular length [= _ <-]. by destruct (_ =? _)%string.
  - intros p. split; [done|]. intros s [= <-]. destruct (_ =? _)%string; vm_compute; (split; [|discriminate]);
      repeat constructor; discriminate.
Defined.

Lemma message_roundtrip_witness :
  @deserialize_j6_ipc_msg unlimited _ SampleSeries (list SampleSeries) _
    (encode_header (MkHeaderFields 2 0 (len sample_bytes_out + 8)) ++ sample_bytes_out) Strict Native
  = Ok (Response, read_back sample_value).
Proof.
  destruct (message_roundtrip Response sample_value sample_bytes_out sample_typed sample_serialized
    (bytes_ok_dec sample_bytes_out eq_refl) ltac:(vm_compute; discriminate) ltac:(vm_compute; discriminate)) as [Hg Hr].
  refine (proj2 (Hr unlimited false _ Strict Hg) _ _).
  - exact sample_plain.
  - vm_compute. discriminate.
Defined.
