(* ===== verification/Binding.v ===== *)
(** * Binding: the errors and the admission of the Node binding
    ([bindings/napi-xqdb/src/error.rs], [bindings/napi-xqdb/src/admission.rs]) *)

From stdpp Require Import prelude strings.
From Stdlib Require Import ZArith Lia ZifyBool.
From S2P Require Import Prelude Errors.

Definition CODE_IO : string := "XQDB_IO".
Definition CODE_AUTH : string := "XQDB_AUTH".
Definition CODE_SERVER : string := "XQDB_SERVER".
Definition CODE_CONVERSION : string := "XQDB_CONVERSION".
Definition CODE_UNSUPPORTED : string := "XQDB_UNSUPPORTED".
Definition CODE_ERROR : string := "XQDB_ERROR".
Definition CODE_INTERNAL : string := "XQDB_INTERNAL".
Definition CODE_BACKPRESSURE : string := "XQDB_BACKPRESSURE".

(** A message is a text of the binding, or what [to_string] makes of a core error. *)
Inductive Message : Type :=
| Text (text : string)
| Shown (error : XqdbError).

Record BindingError : Type := MkBindingError { code : string; message : Message }.

Definition conversion (message : string) : BindingError := MkBindingError CODE_CONVERSION (Text message).
Definition backpressure (message : string) : BindingError := MkBindingError CODE_BACKPRESSURE (Text message).
Definition internal (message : string) : BindingError := MkBindingError CODE_INTERNAL (Text message).

Definition error_code (error : XqdbError) : string :=
  match error with
  | IOError _ | FailedToConnectErr _ | NotConnectedErr => CODE_IO
  | AuthErr => CODE_AUTH
  | ServerErr _ => CODE_SERVER
  | DeserializationErr _ | NotAbleToSerializeErr _ | OverLengthErr | TooManyArgumentErr => CODE_CONVERSION
  | VersionErr | NotSupportedKTypeErr _ | NotSupportedMinusTimeErr _ | NotSupportedKOperatorErr _
  | NotSupportedKNestedListErr _ | NotSupportedKListErr _ | NotSupportedKMixedListErr _ _
  | NotSupportedArrowTypeErr _ | NotSupportedSeriesTypeErr _ | NotSupportedArrowNestedListTypeErr _
  | NotSupportedPolarsNestedListTypeErr _ | NotSupportedBigEndianErr => CODE_UNSUPPORTED
  | GeneralErr _ => CODE_ERROR
  end.

(** [BindingError::from]. *)
Definition binding_error (error : XqdbError) : BindingError :=
  MkBindingError (error_code error) (Shown error).

Abbreviation bres := (outcome BindingError).
Definition cannot_convert {A} (message : string) : bres A := Err (conversion message).

(** ** Admission

    How many commands may wait, and how many bytes they may hold
    ([bindings/napi-xqdb/src/admission.rs])

    The counts are behind a mutex, so an operation on them is one atomic step.  A
    reservation that is dropped gives its command and its bytes back. *)

Record AdmissionCounts : Type := MkCounts { queued_commands : Z; queued_bytes : Z }.

(** The identity of an admission state: its number, and the allocation it lives in. *)
Record Owner : Type := MkOwner { owner_id : Z; allocation : Z }.

#[export] Instance Owner_eq_dec : EqDecision Owner.
Proof. solve_decision. Defined.

Record AdmissionState : Type := MkAdmission {
  owner : Owner;
  command_capacity : Z;
  byte_capacity : Z;
  stopping : bool;
  counts : AdmissionCounts
}.

Definition set_counts (c : AdmissionCounts) (s : AdmissionState) : AdmissionState :=
  MkAdmission (owner s) (command_capacity s) (byte_capacity s) (stopping s) c.
Definition set_stopping (b : bool) (s : AdmissionState) : AdmissionState :=
  MkAdmission (owner s) (command_capacity s) (byte_capacity s) b (counts s).

(** With [NEXT_OWNER_ID.fetch_add(1)], which wraps. *)
Definition AdmissionState_new (next_owner_id allocation command_capacity byte_capacity : Z)
    : AdmissionState * Z :=
  (MkAdmission (MkOwner next_owner_id allocation) command_capacity byte_capacity false (MkCounts 0 0),
   unsigned 64 (next_owner_id + 1)).

Record QueueReservation : Type := MkReservation { reserved_bytes : Z }.
Record AdmissionPermit : Type := MkPermit {
  permit_owner : Owner;
  reservation : option QueueReservation
}.

(** The load of [stopping], and the section under the lock. *)
Definition check_stopping (s : AdmissionState) : bres unit :=
  if stopping s then Err (internal "native connector worker is not running") else Ok tt.

Definition reserve_command (s : AdmissionState) : bres AdmissionPermit * AdmissionState :=
  if command_capacity s <=? queued_commands (counts s) then
    (Err (backpressure ("native connector command queue is full (capacity "
                        +:+ show (command_capacity s) +:+ ")")), s)
  else
    match checked_add (queued_commands (counts s)) 1 with
    | Some commands =>
      (Ok (MkPermit (owner s) (Some (MkReservation 0))),
       set_counts (MkCounts commands (queued_bytes (counts s))) s)
    | None => (Panicked, s)
    end.

Definition admission_reserve (s : AdmissionState) : bres AdmissionPermit * AdmissionState :=
  match check_stopping s with
  | Ok _ => reserve_command s
  | Err e => (Err e, s)
  | Panicked => (Panicked, s)
  | OutOfFuel => (OutOfFuel, s)
  end.

(** [charge_bytes]: the counts and the reservation change together or not at all. *)
Definition charge_bytes (bytes : Z) (r : QueueReservation) (s : AdmissionState)
    : bres unit * QueueReservation * AdmissionState :=
  let overflowed := Err (backpressure "queued snapshot byte count overflowed") in
  match checked_add (reserved_bytes r) bytes with
  | None => (overflowed, r, s)
  | Some new_reservation =>
    match checked_add (queued_bytes (counts s)) bytes with
    | None => (overflowed, r, s)
    | Some new_total =>
      if byte_capacity s <? new_total then
        (Err (backpressure ("native queued snapshots would exceed maxQueuedBytes "
                            +:+ show (byte_capacity s))), r, s)
      else (Ok tt, MkReservation new_reservation,
            set_counts (MkCounts (queued_commands (counts s)) new_total) s)
    end
  end.

(** Dropping a reservation. *)
Definition drop_reservation (r : QueueReservation) (s : AdmissionState) : AdmissionState :=
  set_counts (MkCounts (saturating_sub (queued_commands (counts s)) 1)
                (saturating_sub (queued_bytes (counts s)) (reserved_bytes r))) s.

Definition drop_option (o : option QueueReservation) (s : AdmissionState) : AdmissionState :=
  match o with Some r => drop_reservation r s | None => s end.

Definition foreign_permit : BindingError :=
  conversion "native admission permit belongs to a different connector".

(** [take_uncommitted_for]: the reservation moves out of the permit. *)
Definition take_uncommitted_for (claimant : Owner) (p : AdmissionPermit)
    : bres QueueReservation * AdmissionPermit :=
  if negb (owner_id (permit_owner p) =? owner_id claimant) || negb (bool_decide (permit_owner p = claimant))
  then (Err foreign_permit, p)
  else
    match reservation p with
    | None => (Err (conversion "native admission permit was already consumed or released"), p)
    | Some r => (Ok r, MkPermit (permit_owner p) None)
    end.

Definition release_for (claimant : Owner) (p : AdmissionPermit) (s : AdmissionState)
    : bres unit * AdmissionPermit * AdmissionState :=
  if negb (owner_id (permit_owner p) =? owner_id claimant) || negb (bool_decide (permit_owner p = claimant))
  then (Err foreign_permit, p, s)
  else (Ok tt, MkPermit (permit_owner p) None, drop_option (reservation p) s).
