(* ===== verification/Native.v ===== *)
(** * Native: values as the Node binding exchanges them
    ([bindings/napi-xqdb/src/dto.rs], [bindings/napi-xqdb/src/arrow.rs])

    A value crosses as a tagged object with one group of payload fields per tag.
    [NativeValue] is what the binding hands to JavaScript, [OwnedNativeValue] the copy it
    takes of what JavaScript hands over. *)

From stdpp Require Import prelude strings.
From Stdlib Require Import ZArith Lia SpecFloat.
From S2P Require Import Prelude Errors Types QValue Text Value Float64 Binding.

(** ** Data *)

Record BigInt : Type := MkBigInt { sign_bit : bool; words : list Z }.

Inductive NativeValue : Type := MkNative {
  tag : string;
  bool_value : option bool;
  number_value : option Z;
  bigint_value : option BigInt;
  string_value : option (list Z);
  context : option (list Z);
  bytes_value : option (list Z);
  items : option (list NativeValue);
  entries : option (list (list Z * NativeValue));
  type_code : option Z;
  length_ : option Z;
  is_table : option bool
}.

Inductive OwnedNativeValue : Type := MkOwned {
  o_tag : string;
  o_bool : option bool;
  o_number : option Z;
  o_bigint : option Z;
  o_string : option (list Z);
  o_context : option (list Z);
  o_bytes : option (list Z);
  o_items : option (list OwnedNativeValue);
  o_entries : option (list (list Z * OwnedNativeValue));
  o_type_code : option Z;
  o_length : option Z;
  o_is_table : option bool
}.

Record NativeError : Type := MkNativeError { error_code_text : string; error_message : Message }.

Record NativeResult : Type := MkResult {
  ok : bool;
  value : option NativeValue;
  error : option NativeError;
  message_type : option string
}.

Definition success (value : option NativeValue) : NativeResult := MkResult true value None None.
Definition success_with_message (message_type : string) (value : NativeValue) : NativeResult :=
  MkResult true (Some value) None (Some message_type).
Definition failure (e : BindingError) : NativeResult :=
  MkResult false None (Some (MkNativeError (code e) (message e))) None.

(** [NativeResult::from_result]; a panic of the computation is not a result. *)
Definition from_result (result : bres (option NativeValue)) : outcome BindingError NativeResult :=
  match result with
  | Ok value => Ok (success value)
  | Err e => Ok (failure e)
  | Panicked => Panicked
  | OutOfFuel => OutOfFuel
  end.

Definition MAX_NATIVE_DEPTH : Z := 64.
Definition MAX_SNAPSHOT_BYTES : Z := 67108864.
Definition NANOS_PER_MILLISECOND : Z := 1000000.
Definition NANOS_PER_SECOND : Z := 1000000000.
Definition MIN_Q_TIMESTAMP_UNIX_NANOS : Z := i64_min + 946684800000000000 + 2.

(** What the conversions ask of the libraries: napi's big integers, the texts of UUIDs and
    dates, chrono's timestamps, Arrow's stream format, whether a lossless value is the only
    owner of its bytes, and the sizes the compiler gives to [OwnedNativeValue] and
    [OwnedNativeEntry]. *)
Class NativeLibraries `{Chrono} (Series DataFrame : Type) := {
  get_i64 : BigInt -> Z * bool;
  uuid_parse : list Z -> outcome string (list Z);
  uuid_text : list Z -> list Z;
  date_parse : list Z -> outcome string NaiveDate;
  date_text : NaiveDate -> list Z;
  from_timestamp : Z -> Z -> option DateTime;
  stream_write : DataFrame -> outcome string (list (list Z));
  stream_read : list Z -> outcome string DataFrame;
  single_column : Series -> outcome string DataFrame;
  into_columns : DataFrame -> list Series;
  unique : QValue -> bool;
  value_size : nat;
  entry_size : nat
}.

(** Names of operators, as UTF-8 bytes and back. *)
Fixpoint bytes_of_name (s : string) : list Z :=
  match s with
  | EmptyString => []
  | String c rest => Z.of_nat (Ascii.nat_of_ascii c) :: bytes_of_name rest
  end.
Definition name_of_bytes (l : list Z) : string :=
  foldr (fun b rest => String (Ascii.ascii_of_nat (Z.to_nat b)) rest) EmptyString l.

(** The [symbolEncoding] option. *)
Definition parse_symbol_encoding (value : option string) : outcome string SymbolEncoding :=
  match value with
  | None => Ok Strict
  | Some name =>
    ok_or (symbol_encoding_from_name name)
      ("symbolEncoding must be " +:+ debug_str "strict" +:+ " or " +:+ debug_str "lossy" +:+ ", got "
       +:+ debug_str name)
  end.

(** ** The shape of a value: which payload fields its tag has *)

Definition FIELD_BOOL : Z := Z.shiftl 1 0.
Definition FIELD_NUMBER : Z := Z.shiftl 1 1.
Definition FIELD_BIGINT : Z := Z.shiftl 1 2.
Definition FIELD_STRING : Z := Z.shiftl 1 3.
Definition FIELD_CONTEXT : Z := Z.shiftl 1 4.
Definition FIELD_BYTES : Z := Z.shiftl 1 5.
Definition FIELD_ITEMS : Z := Z.shiftl 1 6.
Definition FIELD_ENTRIES : Z := Z.shiftl 1 7.
Definition FIELD_TYPE_CODE : Z := Z.shiftl 1 8.
Definition FIELD_LENGTH : Z := Z.shiftl 1 9.
Definition FIELD_IS_TABLE : Z := Z.shiftl 1 10.
Definition PAYLOAD_FIELDS : list (string * Z) :=
  [("boolValue", FIELD_BOOL); ("numberValue", FIELD_NUMBER); ("bigintValue", FIELD_BIGINT);
   ("stringValue", FIELD_STRING); ("context", FIELD_CONTEXT); ("bytesValue", FIELD_BYTES);
   ("items", FIELD_ITEMS); ("entries", FIELD_ENTRIES); ("typeCode", FIELD_TYPE_CODE);
   ("length", FIELD_LENGTH); ("isTable", FIELD_IS_TABLE)].

(** [matches!(tag, ...)] over string literals. *)
Definition one_of (tag : string) (tags : list string) : bool := existsb (String.eqb tag) tags.

Definition unsupported_tag (tag : string) : BindingError :=
  conversion ("unsupported native value tag " +:+ debug_str tag).

Definition expected_payload_fields (tag : string) : bres Z :=
  if one_of tag ["null"] then Ok 0
  else if one_of tag ["boolean"] then Ok FIELD_BOOL
  else if one_of tag ["guid"; "symbol"; "string"; "operator"; "date"] then Ok FIELD_STRING
  else if one_of tag ["u8"; "i16"; "i32"; "f32"; "f64"; "char"] then Ok FIELD_NUMBER
  else if one_of tag ["i64"; "timestamp"; "time"; "timespan"] then Ok FIELD_BIGINT
  else if one_of tag ["lambda"] then Ok (Z.lor FIELD_STRING FIELD_CONTEXT)
  else if one_of tag ["bytes"; "series"; "table"] then Ok FIELD_BYTES
  else if one_of tag ["qvalue"] then
    Ok (Z.lor (Z.lor (Z.lor FIELD_BYTES FIELD_TYPE_CODE) FIELD_LENGTH) FIELD_IS_TABLE)
  else if one_of tag ["list"] then Ok FIELD_ITEMS
  else if one_of tag ["dictionary"] then Ok FIELD_ENTRIES
  else Err (unsupported_tag tag).

Definition validate_payload_fields (tag : string) (actual : Z) : bres Z :=
  expected ← expected_payload_fields tag;
  let has fields bit := negb (Z.land fields bit =? 0) in
  _ ← try_fold (fun _ '(field, bit) =>
    if has expected bit && negb (has actual bit) then cannot_convert (tag +:+ " requires " +:+ field)
    else Ok tt) tt PAYLOAD_FIELDS;
  _ ← try_fold (fun _ '(field, bit) =>
    if negb (has expected bit) && has actual bit then cannot_convert (tag +:+ " does not accept " +:+ field)
    else Ok tt) tt PAYLOAD_FIELDS;
  Ok expected.

(** [u16::from(field.is_some()) * FIELD]. *)
Definition field_bit {A} (field : option A) (bit : Z) : Z := match field with Some _ => bit | None => 0 end.

Definition native_payload_fields (v : NativeValue) : Z :=
  foldr Z.lor 0
    [field_bit (bool_value v) FIELD_BOOL; field_bit (number_value v) FIELD_NUMBER;
     field_bit (bigint_value v) FIELD_BIGINT; field_bit (string_value v) FIELD_STRING;
     field_bit (context v) FIELD_CONTEXT; field_bit (bytes_value v) FIELD_BYTES;
     field_bit (items v) FIELD_ITEMS; field_bit (entries v) FIELD_ENTRIES;
     field_bit (type_code v) FIELD_TYPE_CODE; field_bit (length_ v) FIELD_LENGTH;
     field_bit (is_table v) FIELD_IS_TABLE].

Definition validate_native_value_shape (v : NativeValue) : bres unit :=
  _ ← validate_payload_fields (tag v) (native_payload_fields v); Ok tt.

(** ** Snapshots: copying a value within a budget

    [SnapshotBudget] counts down from a limit; bytes charged for a queued command are
    also charged to its reservation, which keeps them when the copy fails later. *)

Record SnapshotBudget : Type := MkBudget {
  limit : Z;
  remaining : Z;
  funding : option (QueueReservation * AdmissionState)
}.

Definition with_reservation (limit : Z) (funding : option (QueueReservation * AdmissionState))
    : SnapshotBudget := MkBudget limit limit funding.

(** Computations that charge a budget. *)
Definition charged (A : Type) : Type := SnapshotBudget -> bres A * SnapshotBudget.

Definition free {A} (m : bres A) : charged A := fun b => (m, b).
Definition then_ {A B} (m : charged A) (f : A -> charged B) : charged B := fun b =>
  match m b with
  | (Ok a, b) => f a b
  | (Err e, b) => (Err e, b)
  | (Panicked, b) => (Panicked, b)
  | (OutOfFuel, b) => (OutOfFuel, b)
  end.

Declare Scope charged_scope.
Delimit Scope charged_scope with charged.
Notation "x <- m ;; k" := (then_ m (fun x => k))
  (at level 100, m at next level, right associativity) : charged_scope.
#[local] Open Scope charged_scope.

Definition ensure_budget (bytes : Z) : charged unit := fun b =>
  if remaining b <? bytes then
    (cannot_convert ("native value snapshot exceeds its " +:+ show (limit b) +:+ " byte limit"), b)
  else (Ok tt, b).

(** [charge]; the subtraction cannot underflow after [ensure]. *)
Definition charge (bytes : Z) : charged unit :=
  _ <- ensure_budget bytes;;
  fun b =>
    match funding b with
    | None =>
      match checked_sub (remaining b) bytes with
      | Some rest => (Ok tt, MkBudget (limit b) rest None)
      | None => (Panicked, b)
      end
    | Some (r, s) =>
      match charge_bytes bytes r s with
      | (Ok _, r, s) =>
        match checked_sub (remaining b) bytes with
        | Some rest => (Ok tt, MkBudget (limit b) rest (Some (r, s)))
        | None => (Panicked, b)
        end
      | (m, r, s) => (m, MkBudget (limit b) (remaining b) (Some (r, s)))
      end
    end.

Definition used (b : SnapshotBudget) : Z := limit b - remaining b.

(** [if let Some(a) = option { charge(size(a))? }]. *)
Definition charge_some {A} (size : A -> Z) (o : option A) : charged unit :=
  match o with Some a => charge (size a) | None => free (Ok tt) end.

(** [option.map(f).transpose()?]. *)
Definition traverse {A B} (f : A -> charged B) (o : option A) : charged (option B) :=
  match o with Some a => (b <- f a;; free (Ok (Some b))) | None => free (Ok None) end.

(** [for a in list { output.push(f(a)?) }]. *)
Fixpoint traverse_list {A B} (f : A -> charged B) (l : list A) : charged (list B) :=
  match l with
  | [] => free (Ok [])
  | a :: l => (b <- f a;; rest <- traverse_list f l;; free (Ok (b :: rest)))
  end.

Section Conversions.
  Context `{Allocator} `{Chrono} {Series DataFrame : Type} `{!NativeLibraries Series DataFrame}.

Abbreviation kval := (K Series DataFrame).

Definition bigint_to_i64 (v : BigInt) : bres Z :=
  let '(value, lossless) := get_i64 v in
  if lossless : bool then Ok value else cannot_convert "bigintValue is outside the signed 64-bit range".

Definition number_to_usize (bits : Z) (field : string) : bres Z :=
  ok_or (safe_usize bits)
    (conversion (field +:+ " must be a non-negative safe integer representable on this platform")).

(** [allocation_size::<T>(length)]. *)
Definition allocation_size (size : nat) (length : Z) : bres Z :=
  ok_or (checked_mul length (Z.of_nat size)) (conversion "native value snapshot allocation size overflowed").

Definition native_capacity (length : Z) (description : string) : bres unit :=
  reserve length (fun error =>
    conversion ("unable to allocate " +:+ description +:+ " with " +:+ show length +:+ " elements: " +:+ error)).

Definition copy_bytes (bytes : list Z) (description : string) : bres (list Z) :=
  _ ← native_capacity (len bytes) description; Ok bytes.

(** [OwnedNativeValue::snapshot], structural in the value. *)
Definition owned_type_code (code : Z) : bres Z :=
  if between (- 2 ^ 15) code (2 ^ 15 - 1) then Ok code
  else cannot_convert "typeCode is outside the signed 16-bit range".

Definition nesting_message : string := "native value nesting exceeds 64 levels".

Definition snapshot_leaf (v : NativeValue) (depth : Z) : charged unit :=
  _ <- free (if MAX_NATIVE_DEPTH <? depth then cannot_convert nesting_message else Ok tt);;
  _ <- free (validate_native_value_shape v);;
  _ <- charge (Z.of_nat (String.length (tag v)));;
  _ <- charge_some (fun text => len text) (string_value v);;
  _ <- charge_some (fun text => len text) (context v);;
  charge_some (fun bytes => len bytes) (bytes_value v).

Fixpoint snapshot (v : NativeValue) (depth : Z) {struct v} : charged OwnedNativeValue :=
  _ <- snapshot_leaf v depth;;
  bigint <- free (match bigint_value v with
                  | Some n => i ← bigint_to_i64 n; Ok (Some i)
                  | None => Ok None
                  end);;
  code <- free (match type_code v with Some c => c ← owned_type_code c; Ok (Some c) | None => Ok None end);;
  length <- free (match length_ v with Some n => n ← number_to_usize n "length"; Ok (Some n) | None => Ok None end);;
  owned_items <- traverse (fun l =>
    size <- free (allocation_size value_size (len l));;
    _ <- charge size;;
    _ <- free (native_capacity (len l) "native list snapshot");;
    traverse_list (fun item => snapshot item (depth + 1)) l) (items v);;
  owned_entries <- traverse (fun l =>
    size <- free (allocation_size entry_size (len l));;
    _ <- charge size;;
    _ <- free (native_capacity (len l) "native dictionary snapshot");;
    traverse_list (fun entry =>
      _ <- charge (len entry.1);;
      value <- snapshot entry.2 (depth + 1);;
      free (Ok (entry.1, value))) l) (entries v);;
  bytes <- free (match bytes_value v with
                 | Some b => b ← copy_bytes b "native bytes snapshot"; Ok (Some b)
                 | None => Ok None
                 end);;
  free (Ok (MkOwned (tag v) (bool_value v) (number_value v) bigint (string_value v) (context v) bytes
              owned_items owned_entries code length (is_table v))).

Definition snapshot_with_limit (v : NativeValue) (limit : Z) : bres OwnedNativeValue :=
  fst ((_ <- charge (Z.of_nat value_size);; snapshot v 0) (with_reservation limit None)).

(** [OwnedNativeValue::try_from]. *)
Definition owned_of_native (v : NativeValue) : bres OwnedNativeValue := snapshot_with_limit v MAX_SNAPSHOT_BYTES.

(** ** Arrow streams ([arrow.rs]) *)

(** [FallibleVecWriter::write]: the buffer grows or reports it cannot. *)
Definition fallible_write (bytes buffer : list Z) : outcome string (list Z) :=
  if try_reserve (len buffer) then Ok (bytes ++ buffer)
  else Err ("unable to grow Arrow IPC output by " +:+ show (len buffer) +:+ " bytes: "
            +:+ reserve_error (len buffer)).

(** The writer is given the buffers of the stream one after the other. *)
Definition dataframe_to_ipc (df : DataFrame) : bres (list Z) :=
  map_err (fun error => conversion ("failed to encode Arrow IPC stream: " +:+ error))
    (buffers ← stream_write df; try_fold fallible_write [] buffers).

Definition series_to_ipc (s : Series) : bres (list Z) :=
  df ← map_err (fun error => conversion ("failed to materialize series: " +:+ error)) (single_column s);
  dataframe_to_ipc df.

Definition dataframe_from_ipc (bytes : list Z) : bres DataFrame :=
  map_err (fun error => conversion ("invalid Arrow IPC table stream: " +:+ error)) (stream_read bytes).

Definition series_from_ipc (bytes : list Z) : bres Series :=
  df ← dataframe_from_ipc bytes;
  match into_columns df with
  | [s] => Ok s
  | columns => cannot_convert ("Arrow IPC series stream must contain exactly one column, found "
                               +:+ show (len columns))
  end.

(** ** From JavaScript: [into_k] *)

Definition required {A} (tag : string) (field : string) (o : option A) : bres A :=
  ok_or o (conversion (tag +:+ " requires " +:+ field)).

Definition required_integer (v : OwnedNativeValue) (minimum maximum : Z) : bres Z :=
  bits ← required (o_tag v) "numberValue" (o_number v);
  ok_or (integer_within minimum maximum bits)
    (conversion ("numberValue for " +:+ o_tag v +:+ " must be an integer in " +:+ show minimum
                 +:+ "..=" +:+ show maximum)).

Definition native_q_symbol (text : list Z) (field : string) : bres unit :=
  if Text.contains_nul text then cannot_convert (field +:+ " cannot contain NUL bytes") else Ok tt.

(** ["f32"]: out-of-range numbers are refused, the others rounded. *)
Definition f32_of_number (bits : Z) : bres Z :=
  let value := f64_of_bits bits in
  if is_finite value && (SFltb value F32_MIN || SFltb F32_MAX value) then
    cannot_convert "numberValue is outside the f32 range"
  else Ok (bits_of_f32 (f32_of_f64 value)).

Definition timestamp_of_nanos (nanos : Z) : bres DateTime :=
  if nanos <? MIN_Q_TIMESTAMP_UNIX_NANOS then
    cannot_convert "bigintValue is outside q's representable timestamp range"
  else
    ok_or (from_timestamp (nanos / NANOS_PER_SECOND) (nanos mod NANOS_PER_SECOND))
      (conversion "bigintValue is outside the timestamp range").

Definition time_of_nanos (nanos : Z) : bres NaiveTime :=
  if negb ((0 <=? nanos) && (nanos <? NANOS_PER_DAY)) then
    cannot_convert "bigintValue for time must be within one day"
  else if negb (nanos mod NANOS_PER_MILLISECOND =? 0) then
    cannot_convert "bigintValue for time must use millisecond precision"
  else
    ok_or (from_num_seconds_from_midnight_opt (nanos / NANOS_PER_SECOND) (nanos mod NANOS_PER_SECOND))
      (conversion "invalid time").

(** ["qvalue"]: the bytes are validated again, and the metadata has to be theirs. *)
Definition owned_qvalue (v : OwnedNativeValue) : bres QValue :=
  bytes ← required (o_tag v) "bytesValue" (o_bytes v);
  q ← map_err binding_error (from_owned_bytes bytes);
  code ← required (o_tag v) "typeCode" (o_type_code v);
  if negb (code =? q_type_code q) then cannot_convert "qvalue typeCode does not match its validated bytes"
  else
    length ← required (o_tag v) "length" (o_length v);
    if negb (length =? q_len q) then cannot_convert "qvalue length does not match its validated bytes"
    else
      table ← required (o_tag v) "isTable" (o_is_table v);
      if negb (Bool.eqb table (q_is_table q)) then
        cannot_convert "qvalue isTable does not match its validated bytes"
      else Ok q.

(** The tags of values without values inside. *)
Definition into_leaf (v : OwnedNativeValue) : bres kval :=
  let t := o_tag v in
  let text := required t "stringValue" (o_string v) in
  let bytes := required t "bytesValue" (o_bytes v) in
  let bigint := required t "bigintValue" (o_bigint v) in
  if String.eqb t "null" then Ok KNull
  else if String.eqb t "boolean" then b ← required t "boolValue" (o_bool v); Ok (KBoolean b)
  else if String.eqb t "guid" then
    s ← text;
    g ← map_err (fun error => conversion ("invalid guid: " +:+ error)) (uuid_parse s); Ok (KGuid g)
  else if String.eqb t "u8" then i ← required_integer v 0 255; Ok (KU8 i)
  else if String.eqb t "i16" then i ← required_integer v (- 2 ^ 15) (2 ^ 15 - 1); Ok (KI16 i)
  else if String.eqb t "i32" then i ← required_integer v i32_min i32_max; Ok (KI32 i)
  else if String.eqb t "i64" then i ← bigint; Ok (KI64 i)
  else if String.eqb t "f32" then
    bits ← required t "numberValue" (o_number v); x ← f32_of_number bits; Ok (KF32 x)
  else if String.eqb t "f64" then bits ← required t "numberValue" (o_number v); Ok (KF64 bits)
  else if String.eqb t "char" then i ← required_integer v 0 255; Ok (KChar i)
  else if String.eqb t "symbol" then
    s ← text; _ ← native_q_symbol s "symbol stringValue"; Ok (KSymbol s)
  else if String.eqb t "string" then s ← text; Ok (KString s)
  else if String.eqb t "operator" then
    s ← text; o ← map_err binding_error (QOperator_new (name_of_bytes s)); Ok (KOperator o)
  else if String.eqb t "lambda" then
    source ← text;
    ctx ← required t "context" (o_context v);
    l ← map_err binding_error (QLambda_with_context source ctx); Ok (KLambda l)
  else if String.eqb t "bytes" then b ← bytes; Ok (KCharVector b)
  else if String.eqb t "timestamp" then
    nanos ← bigint; d ← timestamp_of_nanos nanos; Ok (KDateTime d)
  else if String.eqb t "date" then
    s ← text;
    d ← map_err (fun error => conversion ("invalid date: " +:+ error)) (date_parse s); Ok (KDate d)
  else if String.eqb t "time" then nanos ← bigint; x ← time_of_nanos nanos; Ok (KTime x)
  else if String.eqb t "timespan" then nanos ← bigint; Ok (KDuration (duration_nanoseconds nanos))
  else if String.eqb t "series" then b ← bytes; s ← series_from_ipc b; Ok (KSeries s)
  else if String.eqb t "qvalue" then q ← owned_qvalue v; Ok (KQValue q)
  else if String.eqb t "table" then b ← bytes; df ← dataframe_from_ipc b; Ok (KDataFrame df)
  else Err (unsupported_tag t).

(** One more entry of a dictionary whose keys are [keys] so far. *)
Definition accept_key (keys : list (list Z)) (key : list Z) : bres unit :=
  _ ← native_q_symbol key "dictionary key";
  if bool_decide (key ∈ keys) then cannot_convert ("dictionary contains duplicate key " +:+ debug_str (name_of_bytes key))
  else Ok tt.

(** [for item in items { values.push(item.into_k()?) }]. *)
Fixpoint convert_list {A B} (f : A -> bres B) (l : list A) : bres (list B) :=
  match l with
  | [] => Ok []
  | a :: l => b ← f a; rest ← convert_list f l; Ok (b :: rest)
  end.

Fixpoint convert_entries {A B} (f : A -> bres B) (keys : list (list Z)) (l : list (list Z * A))
    : bres (list (list Z * B)) :=
  match l with
  | [] => Ok []
  | (key, a) :: l =>
    _ ← accept_key keys key;
    b ← f a;
    rest ← convert_entries f (keys ++ [key]) l;
    Ok ((key, b) :: rest)
  end.

Fixpoint into_k (v : OwnedNativeValue) : bres kval :=
  if String.eqb (o_tag v) "list" then
    match o_items v with
    | None => Err (conversion (o_tag v +:+ " requires items"))
    | Some l =>
      _ ← native_capacity (len l) "native input list";
      values ← convert_list into_k l;
      Ok (KMixedList values)
    end
  else if String.eqb (o_tag v) "dictionary" then
    match o_entries v with
    | None => Err (conversion (o_tag v +:+ " requires entries"))
    | Some l =>
      _ ← reserve (len l) (fun error => conversion ("unable to allocate native input dictionary: " +:+ error));
      dictionary ← convert_entries into_k [] l;
      Ok (KDict dictionary)
    end
  else into_leaf v.

Definition native_values_into_k (values : list OwnedNativeValue) : bres (list kval) :=
  _ ← native_capacity (len values) "native q argument list";
  convert_list into_k values.

(** ** To JavaScript: [k_into_native] *)

Definition empty_native_value : NativeValue :=
  MkNative EmptyString None None None None None None None None None None None.
Definition set_tag (t : string) (v : NativeValue) : NativeValue :=
  MkNative t (bool_value v) (number_value v) (bigint_value v) (string_value v) (context v) (bytes_value v)
    (items v) (entries v) (type_code v) (length_ v) (is_table v).
Definition set_number (t : string) (bits : Z) : NativeValue :=
  MkNative t None (Some bits) None None None None None None None None None.
Definition set_bigint (t : string) (v : Z) : NativeValue :=
  MkNative t None None (Some (MkBigInt (v <? 0) [Z.abs v])) None None None None None None None None.
Definition set_string (t : string) (text : list Z) : NativeValue :=
  MkNative t None None None (Some text) None None None None None None None.
Definition set_bytes (t : string) (bytes : list Z) : NativeValue :=
  MkNative t None None None None None (Some bytes) None None None None None.

(** The bytes of a lossless value: [into_bytes]. *)
Definition native_qvalue (q : QValue) : NativeValue :=
  MkNative "qvalue" None None None None None (Some (as_bytes q)) None None
    (Some (q_type_code q)) (Some (number_of_integer (q_len q))) (Some (q_is_table q)).

Definition native_time (t : NaiveTime) : bres NativeValue :=
  let nanos := num_seconds_from_midnight t * NANOS_PER_SECOND + nanosecond t in
  if negb (nanos mod NANOS_PER_MILLISECOND =? 0) then
    cannot_convert "q time only supports millisecond precision"
  else Ok (set_bigint "time" nanos).

Definition native_leaf (k : kval) : bres NativeValue :=
  match k with
  | KOperator o => Ok (set_string "operator" (bytes_of_name (op_name o)))
  | KLambda l =>
    Ok (MkNative "lambda" None None None (Some (lambda_source l)) (Some (lambda_context l))
          None None None None None None)
  | KNull => Ok (set_tag "null" empty_native_value)
  | KBoolean b => Ok (MkNative "boolean" (Some b) None None None None None None None None None None)
  | KGuid g => Ok (set_string "guid" (uuid_text g))
  | KU8 v => Ok (set_number "u8" (number_of_integer v))
  | KI16 v => Ok (set_number "i16" (number_of_integer v))
  | KI32 v => Ok (set_number "i32" (number_of_integer v))
  | KI64 v => Ok (set_bigint "i64" v)
  | KF32 bits => Ok (set_number "f32" (number_of_f32 bits))
  | KF64 bits => Ok (set_number "f64" bits)
  | KChar v => Ok (set_number "char" (number_of_integer v))
  | KSymbol text => _ ← native_q_symbol text "symbol"; Ok (set_string "symbol" text)
  | KString text => Ok (set_string "string" text)
  | KCharVector bytes => Ok (set_bytes "bytes" bytes)
  | KQValue q => _ ← map_err binding_error (into_bytes (unique q) q); Ok (native_qvalue q)
  | KDateTime d =>
    nanos ← ok_or (timestamp_nanos_opt d)
      (conversion "timestamp cannot be represented as signed nanoseconds");
    Ok (set_bigint "timestamp" nanos)
  | KDate d => Ok (set_string "date" (date_text d))
  | KTime t => native_time t
  | KDuration d =>
    nanos ← ok_or (num_nanoseconds d)
      (conversion "timespan cannot be represented as signed nanoseconds");
    Ok (set_bigint "timespan" nanos)
  | KSeries s => bytes ← series_to_ipc s; Ok (set_bytes "series" bytes)
  | KDataFrame df => bytes ← dataframe_to_ipc df; Ok (set_bytes "table" bytes)
  | KMixedList _ | KDict _ => Ok empty_native_value
  end.

Fixpoint k_into_native_with_depth (k : kval) (depth : Z) {struct k} : bres NativeValue :=
  if MAX_NATIVE_DEPTH <? depth then cannot_convert nesting_message
  else
    match k with
    | KMixedList values =>
      _ ← native_capacity (len values) "native output list";
      l ← convert_list (fun v => k_into_native_with_depth v (depth + 1)) values;
      Ok (MkNative "list" None None None None None None (Some l) None None None None)
    | KDict dictionary =>
      _ ← native_capacity (len dictionary) "native output dictionary";
      l ← convert_list (fun entry =>
        _ ← native_q_symbol entry.1 "dictionary key";
        v ← k_into_native_with_depth entry.2 (depth + 1);
        Ok (entry.1, v)) dictionary;
      Ok (MkNative "dictionary" None None None None None None None (Some l) None None None)
    | _ => native_leaf k
    end.

Definition k_into_native (k : kval) : bres NativeValue := k_into_native_with_depth k 0.
End Conversions.
