(* ===== verification/JsSnapshot.v ===== *)
(** * JsSnapshot: copying what JavaScript hands over
    ([snapshot_unknown_value] and its helpers in [bindings/napi-xqdb/src/dto.rs])

    Arguments arrive as JavaScript objects of any shape, and reading a property may run
    JavaScript.  A snapshot is therefore a script of two kinds of steps: calls of
    Node-API, whose answers the engine chooses, and charges to the budget.  [run_script]
    runs it against an engine and a budget; the worker interleaves its steps with those of
    other threads. *)

From stdpp Require Import prelude strings.
From Stdlib Require Import ZArith.
From S2P Require Import Prelude Errors QValue Text Value Float64 Binding Native.

Definition MAX_FIELD_NAME_BYTES : Z := 32.
Definition MAX_TAG_BYTES : Z := 32.
Definition MAX_ARGUMENTS : Z := 8.

(** The types of JavaScript values, as Node-API names them. *)
Inductive ValueType : Type :=
| JsUndefined | JsNull | JsBoolean | JsNumber | JsText | JsSymbol | JsObject | JsFunction
| JsExternal | JsBigInt | JsUnknown.

#[export] Instance ValueType_eq_dec : EqDecision ValueType.
Proof. solve_decision. Defined.

Section Script.
  Context {Handle : Type}.

(** An array is its handle and the length it had when it was converted. *)
Record JsArray : Type := MkJsArray { array_handle : Handle; array_len : nat }.

(** The conversions [Object::get] is asked for. *)
Inductive js_kind : Type -> Type :=
| AsBool : js_kind bool
| AsNumber : js_kind Z
| AsString : js_kind Handle
| AsUnknown : js_kind Handle
| AsArray : js_kind JsArray
| AsBytes : js_kind (list Z).

(** What a snapshot asks of Node-API; an error is its reason or status. *)
Inductive node_call : Type -> Type :=
| TypeOf (value : Handle) : node_call (outcome string ValueType)
| CastObject (value : Handle) : node_call (outcome string Handle)
| PropertyNames (object : Handle) : node_call (outcome string Handle)
| CastArray (value : Handle) : node_call (outcome string JsArray)
| GetProperty {T} (object : Handle) (field : string) (kind : js_kind T) : node_call (outcome string (option T))
| GetElement (array : Handle) (index : Z) : node_call (outcome string (option Handle))
| Utf8Len (text : Handle) : node_call (outcome string nat)
| Utf8Text (text : Handle) : node_call (outcome string (list Z))
| BigIntInt64 (value : Handle) : node_call (outcome string (Z * bool))
| StrictEquals (value ancestor : Handle) : node_call (outcome string bool).

Inductive script (A : Type) : Type :=
| Done (m : bres A)
| Charge (bytes : Z) (rest : script A)
| Call {B : Type} (call : node_call B) (rest : B -> script A).
Arguments Done {A} m.
Arguments Charge {A} bytes rest.
Arguments Call {A B} call rest.

Fixpoint script_bind {A B} (f : A -> script B) (m : script A) : script B :=
  match m with
  | Done (Ok a) => f a
  | Done (Err e) => Done (Err e)
  | Done Panicked => Done Panicked
  | Done OutOfFuel => Done OutOfFuel
  | Charge bytes rest => Charge bytes (script_bind f rest)
  | Call call rest => Call call (fun b => script_bind f (rest b))
  end.

#[global] Instance script_ret : MRet script := fun A a => Done (Ok a).
#[global] Instance script_mbind : MBind script := fun A B f m => script_bind f m.

Definition pay (bytes : Z) : script unit := Charge bytes (Done (Ok tt)).
Definition api {B} (call : node_call B) : script B := Call call (fun b => Done (Ok b)).

(** [call.map_err(|error| napi_conversion(field, error))?]. *)
Definition napi_conversion (field reason : string) : BindingError :=
  conversion ("invalid " +:+ field +:+ ": " +:+ reason).
Definition convert {A} (field : string) (call : node_call (outcome string A)) : script A :=
  answer ← api call; Done (map_err (napi_conversion field) answer).

(** [check_napi_status(call, operation)?]. *)
Definition check_napi_status {A} (call : node_call (outcome string A)) (operation : string) : script A :=
  answer ← api call;
  Done (map_err (fun status => conversion (operation +:+ " failed with Node-API status " +:+ status)) answer).

(** [for index in index..index + count { output.push(f(index)?) }]. *)
Fixpoint each_index {A} (f : Z -> script A) (index : Z) (count : nat) : script (list A) :=
  match count with
  | O => mret []
  | S count => a ← f index; rest ← each_index f (index + 1) count; mret (a :: rest)
  end.

(** [(condition).then(|| body).transpose()?]. *)
Definition when {A} (condition : bool) (body : script A) : script (option A) :=
  if condition then a ← body; mret (Some a) else mret None.

Context `{Allocator} `{Chrono} {Series DataFrame : Type} `{!NativeLibraries Series DataFrame}.

(** ** Fields *)

Definition object_key (names : JsArray) (description : string) (index : Z) : script (list Z) :=
  found ← convert description (GetElement (array_handle names) index);
  key ← Done (ok_or found (conversion (description +:+ " field is missing")));
  length ← convert description (Utf8Len key);
  if MAX_FIELD_NAME_BYTES <? Z.of_nat length then
    Done (cannot_convert (description +:+ " contains an unsupported field name"))
  else convert description (Utf8Text key).

Definition object_keys_limited (object : Handle) (maximum : Z) (description : string) : script (list (list Z)) :=
  raw_names ← check_napi_status (PropertyNames object) "reading native object property names";
  names ← convert description (CastArray raw_names);
  if maximum <? Z.of_nat (array_len names) then
    Done (cannot_convert (description +:+ " has more than " +:+ show maximum +:+ " fields"))
  else
    _ ← Done (native_capacity (Z.of_nat (array_len names)) "native object field list");
    each_index (object_key names description) 0 (array_len names).

Definition is_name (key : list Z) (name : string) : bool := bool_decide (key = bytes_of_name name).

(** The bit of each field but the tag; unknown fields are refused. *)
Definition add_field (description : string) (fields : Z) (key : list Z) : bres Z :=
  if is_name key "tag" then Ok fields
  else
    match find (fun '(field, _) => is_name key field) PAYLOAD_FIELDS with
    | Some (_, bit) => Ok (Z.lor fields bit)
    | None => cannot_convert (description +:+ " contains unsupported field " +:+ debug_str (name_of_bytes key))
    end.

Definition payload_fields_from_keys (keys : list (list Z)) (description : string) : bres Z :=
  if negb (existsb (fun key => is_name key "tag") keys) then cannot_convert (description +:+ " requires tag")
  else try_fold (add_field description) 0 keys.

Definition required_property {T} (object : Handle) (field : string) (kind : js_kind T) : script T :=
  found ← convert field (GetProperty object field kind);
  Done (ok_or found (conversion ("native value requires " +:+ field))).

Definition required_bigint_i64_property (object : Handle) (field : string) : script Z :=
  value ← required_property object field AsUnknown;
  type ← convert field (TypeOf value);
  if negb (bool_decide (type = JsBigInt)) then Done (cannot_convert (field +:+ " must be a BigInt"))
  else
    '(result, lossless) ← check_napi_status (BigIntInt64 value) "reading native bigintValue";
    if negb lossless then Done (cannot_convert "bigintValue is outside the signed 64-bit range")
    else mret result.

Definition required_exact_integer_property (object : Handle) (field : string) (minimum maximum : Z) : script Z :=
  bits ← required_property object field AsNumber;
  Done (ok_or (integer_within minimum maximum bits)
    (conversion (field +:+ " must be an integer from " +:+ show minimum +:+ " through " +:+ show maximum))).

Definition required_string_property (object : Handle) (field : string) (maximum : Z) : script (list Z) :=
  value ← required_property object field AsString;
  length ← convert field (Utf8Len value);
  if maximum <? Z.of_nat length then
    Done (cannot_convert (field +:+ " exceeds its " +:+ show maximum +:+ " byte limit"))
  else
    _ ← pay (Z.of_nat length);
    convert field (Utf8Text value).

(** ** Values *)

Fixpoint ensure_not_ancestor (value : Handle) (ancestors : list Handle) : script unit :=
  match ancestors with
  | [] => mret tt
  | ancestor :: ancestors =>
    equal ← check_napi_status (StrictEquals value ancestor) "checking native value object identity";
    if equal : bool then Done (cannot_convert "native value contains a reference cycle")
    else ensure_not_ancestor value ancestors
  end.

(** [items] or [entries]: an array is paid for, and its elements are copied. *)
Definition snapshot_elements {A} (object : Handle) (field : string) (size : nat) (capacity element missing : string)
    (copy : Handle -> script A) : script (list A) :=
  elements ← required_property object field AsArray;
  bytes ← Done (allocation_size size (Z.of_nat (array_len elements)));
  _ ← pay bytes;
  _ ← Done (native_capacity (Z.of_nat (array_len elements)) capacity);
  each_index (fun index =>
    found ← convert element (GetElement (array_handle elements) index);
    value ← Done (ok_or found (conversion missing));
    copy value) 0 (array_len elements).

(** The fields but [items] and [entries], in the order the code reads them. *)
Definition snapshot_scalars (object : Handle) (tag : list Z) (expected : Z) : script OwnedNativeValue :=
  let has bit := negb (Z.land expected bit =? 0) in
  bool_value ← when (expected =? FIELD_BOOL) (required_property object "boolValue" AsBool);
  number_value ← when (expected =? FIELD_NUMBER) (required_property object "numberValue" AsNumber);
  bigint_value ← when (expected =? FIELD_BIGINT) (required_bigint_i64_property object "bigintValue");
  string_value ← when (has FIELD_STRING) (required_string_property object "stringValue" MAX_SNAPSHOT_BYTES);
  context ← when (has FIELD_CONTEXT) (required_string_property object "context" MAX_SNAPSHOT_BYTES);
  bytes_value ← when (has FIELD_BYTES)
    (bytes ← required_property object "bytesValue" AsBytes;
     _ ← pay (len bytes);
     Done (copy_bytes bytes "native bytes snapshot"));
  type_code ← when (has FIELD_TYPE_CODE)
    (required_exact_integer_property object "typeCode" (- 2 ^ 15) (2 ^ 15 - 1));
  length ← when (has FIELD_LENGTH)
    (bits ← required_property object "length" AsNumber; Done (number_to_usize bits "length"));
  is_table ← when (has FIELD_IS_TABLE) (required_property object "isTable" AsBool);
  mret (MkOwned (name_of_bytes tag) bool_value number_value bigint_value string_value context bytes_value
          None None type_code length is_table).

Definition set_elements (items : option (list OwnedNativeValue)) (entries : option (list (list Z * OwnedNativeValue)))
    (v : OwnedNativeValue) : OwnedNativeValue :=
  MkOwned (o_tag v) (o_bool v) (o_number v) (o_bigint v) (o_string v) (o_context v) (o_bytes v) items entries
    (o_type_code v) (o_length v) (o_is_table v).

(** The object of a dictionary entry: exactly a key and a value. *)
Definition is_entry (keys : list (list Z)) : bool :=
  match keys with
  | [a; b] => (is_name a "key" && is_name b "value") || (is_name a "value" && is_name b "key")
  | _ => false
  end.

Definition snapshot_unknown_entry (copy : Handle -> script OwnedNativeValue) (value : Handle)
    : script (list Z * OwnedNativeValue) :=
  type ← convert "dictionary entry" (TypeOf value);
  if negb (bool_decide (type = JsObject)) then Done (cannot_convert "dictionary entry must be an object")
  else
    object ← convert "dictionary entry" (CastObject value);
    keys ← object_keys_limited object 2 "dictionary entry";
    if negb (is_entry keys) then Done (cannot_convert "dictionary entry must contain exactly key and value")
    else
      key ← required_string_property object "key" MAX_SNAPSHOT_BYTES;
      child ← required_property object "value" AsUnknown;
      copied ← copy child;
      mret (key, copied).

(** [snapshot_unknown_object], given how the values inside are copied. *)
Definition snapshot_unknown_object (copy : Handle -> script OwnedNativeValue) (value : Handle)
    : script OwnedNativeValue :=
  object ← convert "native value" (CastObject value);
  keys ← object_keys_limited object (len PAYLOAD_FIELDS + 1) "native value";
  actual ← Done (payload_fields_from_keys keys "native value");
  tag ← required_string_property object "tag" MAX_TAG_BYTES;
  expected ← Done (validate_payload_fields (name_of_bytes tag) actual);
  scalars ← snapshot_scalars object tag expected;
  items ← when (expected =? FIELD_ITEMS)
    (snapshot_elements object "items" value_size "native list snapshot" "list item"
       "native list item is missing" copy);
  entries ← when (expected =? FIELD_ENTRIES)
    (snapshot_elements object "entries" entry_size "native dictionary snapshot" "dictionary entry"
       "native dictionary entry is missing" (snapshot_unknown_entry copy));
  mret (set_elements items entries scalars).

(** Every level refuses to be deeper than the limit, so the fuel is [snapshot_levels]. *)
Fixpoint snapshot_unknown_value (fuel : nat) (depth : Z) (ancestors : list Handle) (value : Handle)
    : script OwnedNativeValue :=
  match fuel with
  | O => Done OutOfFuel
  | S fuel =>
    if MAX_NATIVE_DEPTH <? depth then Done (cannot_convert nesting_message)
    else
      type ← convert "native value" (TypeOf value);
      if negb (bool_decide (type = JsObject)) then Done (cannot_convert "native value must be an object")
      else
        _ ← ensure_not_ancestor value ancestors;
        snapshot_unknown_object (snapshot_unknown_value fuel (depth + 1) (ancestors ++ [value])) value
  end.

Definition snapshot_levels : nat := 66.
Definition snapshot_top (value : Handle) : script OwnedNativeValue :=
  snapshot_unknown_value snapshot_levels 0 [] value.

(** [snapshot_native_value_array], but for the budget it makes. *)
Definition snapshot_array (values : JsArray) (maximum : option Z) (description : string)
    : script (list OwnedNativeValue) :=
  if match maximum with Some maximum => maximum <? Z.of_nat (array_len values) | None => false end then
    Done (cannot_convert "Too many arguments (8 max)")
  else
    bytes ← Done (allocation_size value_size (Z.of_nat (array_len values)));
    _ ← pay bytes;
    _ ← Done (native_capacity (Z.of_nat (array_len values)) "native value array snapshot");
    each_index (fun index =>
      found ← convert description (GetElement (array_handle values) index);
      value ← Done (ok_or found (conversion (description +:+ " is missing")));
      snapshot_top value) 0 (array_len values).
End Script.
Arguments JsArray Handle : clear implicits.
Arguments node_call Handle : clear implicits.
Arguments script Handle A : clear implicits.
Arguments Done {Handle A} m.
Arguments Charge {Handle A} bytes rest.
Arguments Call {Handle A B} call rest.

(** ** Running a snapshot *)

(** A JavaScript engine: its state, and its answers to Node-API calls. *)
Class Engine (Handle J : Type) := {
  answer : forall {B}, node_call Handle B -> J -> B * J
}.

Section Run.
  Context {Handle J : Type} `{!Engine Handle J}.

Fixpoint run_script {A} (m : script Handle A) (b : SnapshotBudget) (j : J) : bres A * SnapshotBudget * J :=
  match m with
  | Done m => (m, b, j)
  | Charge bytes rest =>
    match charge bytes b with
    | (Ok _, b) => run_script rest b j
    | (Err e, b) => (Err e, b, j)
    | (Panicked, b) => (Panicked, b, j)
    | (OutOfFuel, b) => (OutOfFuel, b, j)
    end
  | Call call rest => let '(b', j) := answer call j in run_script (rest b') b j
  end.

Context `{Allocator} `{Chrono} {Series DataFrame : Type} `{!NativeLibraries Series DataFrame}.

Definition snapshot_native_value (value : Handle) (j : J) : bres OwnedNativeValue * J :=
  let '(m, _, j) := run_script (_ ← pay (Z.of_nat value_size); snapshot_top value)
                      (with_reservation MAX_SNAPSHOT_BYTES None) j in (m, j).

Definition snapshot_native_value_array (values : JsArray Handle) (limit : Z) (maximum : option Z)
    (description : string) (funding : option (QueueReservation * AdmissionState)) (j : J)
    : bres (list OwnedNativeValue * Z) * SnapshotBudget * J :=
  let '(m, b, j) := run_script (snapshot_array values maximum description)
                      (with_reservation limit funding) j in
  (copied ← m; Ok (copied, used b), b, j).

Definition snapshot_native_value_list (values : JsArray Handle) (limit : Z) (j : J)
    : bres (list OwnedNativeValue * Z) * J :=
  let '(m, _, j) := snapshot_native_value_array values limit None "qvalue list item" None j in (m, j).

Definition snapshot_native_values_admitted (values : JsArray Handle) (limit : Z)
    (funding : QueueReservation * AdmissionState) (j : J)
    : bres (list OwnedNativeValue * Z) * SnapshotBudget * J :=
  snapshot_native_value_array values limit (Some MAX_ARGUMENTS) "native argument" (Some funding) j.
End Run.
