(* ===== verification/WorkerOptions.v ===== *)
(** * WorkerOptions: the options of a native connector
    ([NativeOptions] of [bindings/napi-xqdb/src/dto.rs], [WorkerOptions] of [worker.rs])

    Options come from JavaScript as numbers and texts; an error is the message of an
    invalid argument. *)

From stdpp Require Import prelude strings.
From Stdlib Require Import ZArith SpecFloat.
From S2P Require Import Prelude Errors Types QValue Text Value AnyValue Serialize Deserialize Framing Stream Pipeline Receive Aborting Connector Float64 Binding Native.

Definition IPC_VERSION : Z := 6.
Definition COMMAND_QUEUE_CAPACITY : Z := 8.
Definition MAX_QUEUE_CAPACITY : Z := 1024.
Definition DEFAULT_MAX_ARGUMENT_BYTES : Z := 64 * 1024 * 1024.
Definition DEFAULT_MAX_QUEUED_BYTES : Z := 512 * 1024 * 1024.
Definition MAX_TIMEOUT_MILLISECONDS : Z := 86400000.
Definition NANOSECONDS : Z := 1000000000.

(** Numbers are their bits, texts that are looked at are strings. *)
Record NativeOptions : Type := MkNativeOptions {
  n_host : list Z;
  n_port : Z;
  n_user : option (list Z);
  n_password : option (list Z);
  n_tls : option bool;
  n_timeout_milliseconds : option Z;
  n_symbol_encoding : option string;
  n_lossless : option bool;
  n_compression : option string;
  n_compression_threshold : option Z;
  n_connect_timeout_milliseconds : option Z;
  n_read_timeout_milliseconds : option Z;
  n_write_timeout_milliseconds : option Z;
  n_max_message_bytes : option Z;
  n_max_pending_notifications : option Z;
  n_tls_ca : option (list Z);
  n_tls_cert : option (list Z);
  n_tls_key : option (list Z);
  n_tls_server_name : option (list Z);
  n_queue_capacity : option Z;
  n_max_argument_bytes : option Z;
  n_max_queued_bytes : option Z
}.

Record WorkerOptions : Type := MkWorkerOptions {
  w_host : list Z;
  w_port : Z;
  w_user : list Z;
  w_password : list Z;
  w_tls : bool;
  w_timeout : Z;
  w_symbol_encoding : SymbolEncoding;
  w_settings : ConnectorSettings;
  w_queue_capacity : Z;
  w_max_argument_bytes : Z;
  w_max_queued_bytes : Z
}.

(** Whether a text is an IP address: [host.parse::<IpAddr>().is_ok()]. *)
Class Addresses := { is_ip_address : list Z -> bool }.

(** ** Numbers *)

(** [Duration::from_secs_f64] of a non-negative finite number: whole nanoseconds, the
    nearest, ties to even. *)
Definition half_even (numerator denominator : Z) : Z :=
  let quotient := numerator / denominator in
  match Z.compare (2 * (numerator mod denominator)) denominator with
  | Lt => quotient
  | Gt => quotient + 1
  | Eq => if Z.even quotient then quotient else quotient + 1
  end.
Definition from_secs_f64 (seconds : spec_float) : Z :=
  match seconds with
  | S754_finite _ m e =>
    if 0 <=? e then Zpos m * NANOSECONDS * 2 ^ e else half_even (Zpos m * NANOSECONDS) (2 ^ (- e))
  | _ => 0
  end.

Definition timeout_duration (milliseconds : Z) (name : string) : outcome string Z :=
  let value := f64_of_bits milliseconds in
  if negb (is_finite value) || SFltb value (S754_zero false)
     || SFltb (f64_of_i64 MAX_TIMEOUT_MILLISECONDS) value then
    Err (name +:+ " must be a non-negative number of milliseconds no greater than 86400000")
  else
    let duration := from_secs_f64 (SFdiv 53 1024 value (f64_of_i64 1000)) in
    Ok (if SFltb (S754_zero false) value && (duration =? 0) then 1 else duration).

(** [value.map(f).transpose()]. *)
Definition transpose {A B} (f : A -> outcome string B) (value : option A) : outcome string (option B) :=
  match value with Some a => b ← f a; Ok (Some b) | None => Ok None end.

Definition optional_timeout (value : option Z) (name : string) : outcome string (option Z) :=
  transpose (fun milliseconds => timeout_duration milliseconds name) value.

Definition exact_port (value : Z) : outcome string Z :=
  ok_or (integer_within 0 65535 value) "port must be an integer from 0 through 65535".

Definition safe_nonnegative_integer (value : option Z) (default : Z) (name : string) : outcome string Z :=
  let value := match value with Some value => value | None => number_of_integer default end in
  ok_or (safe_usize value) (name +:+ " must be a non-negative safe integer representable on this platform").

Definition safe_positive_integer (value : option Z) (default : Z) (name : string) : outcome string Z :=
  value ← safe_nonnegative_integer value default name;
  if value =? 0 then Err (name +:+ " must be positive") else Ok value.

Definition optional_positive_integer (value : option Z) (name : string) : outcome string (option Z) :=
  transpose (fun value => safe_positive_integer (Some value) 1 name) value.

(** ** [WorkerOptions::try_from] *)

Definition compression_mode (compression : option string) : outcome string CompressionMode :=
  let compression := default "auto" compression in
  if String.eqb compression "auto" then Ok Auto
  else if String.eqb compression "on" then Ok On
  else if String.eqb compression "off" then Ok Off
  else Err ("compression must be " +:+ debug_str "auto" +:+ ", " +:+ debug_str "on" +:+ ", or "
            +:+ debug_str "off").

Definition worker_options `{Tls} `{Addresses} (options : NativeOptions) : outcome string WorkerOptions :=
  port ← exact_port (n_port options);
  let host := match n_host options with [] => LOOPBACK | host => host end in
  let tls := default false (n_tls options) in
  _ ← ensure (negb (tls && negb (is_ip_address host) && negb (is_ok (valid_server_name host))))
        "host must be a valid DNS name or IP address when tls is enabled";
  timeout ← timeout_duration (default (number_of_integer 30000) (n_timeout_milliseconds options))
              "timeoutMilliseconds";
  symbol_encoding ← parse_symbol_encoding (n_symbol_encoding options);
  let value_mode := if default false (n_lossless options) then Lossless else QValue.Native in
  compression ← compression_mode (n_compression options);
  compression_threshold ←
    safe_nonnegative_integer (n_compression_threshold options) 10000000 "compressionThreshold";
  connect_timeout ← optional_timeout (n_connect_timeout_milliseconds options) "connectTimeoutMilliseconds";
  read_timeout ← optional_timeout (n_read_timeout_milliseconds options) "readTimeoutMilliseconds";
  write_timeout ← optional_timeout (n_write_timeout_milliseconds options) "writeTimeoutMilliseconds";
  max_message_bytes ← optional_positive_integer (n_max_message_bytes options) "maxMessageBytes";
  max_pending_notifications ←
    safe_positive_integer (n_max_pending_notifications options) 1024 "maxPendingNotifications";
  queue_capacity ← safe_positive_integer (n_queue_capacity options) COMMAND_QUEUE_CAPACITY "queueCapacity";
  if MAX_QUEUE_CAPACITY <? queue_capacity then
    Err ("queueCapacity must be no greater than " +:+ show MAX_QUEUE_CAPACITY)
  else
    max_argument_bytes ←
      safe_positive_integer (n_max_argument_bytes options) DEFAULT_MAX_ARGUMENT_BYTES "maxArgumentBytes";
    max_queued_bytes ←
      safe_positive_integer (n_max_queued_bytes options) DEFAULT_MAX_QUEUED_BYTES "maxQueuedBytes";
    let settings :=
      MkSettings value_mode compression compression_threshold connect_timeout read_timeout write_timeout
        max_message_bytes max_pending_notifications (n_tls_ca options) (n_tls_cert options) (n_tls_key options)
        (n_tls_server_name options) in
    Ok (MkWorkerOptions host port (default [] (n_user options)) (default [] (n_password options)) tls timeout
          symbol_encoding settings queue_capacity max_argument_bytes max_queued_bytes).

(** ** [into_connector] *)

Section IntoConnector.
  Context `{Allocator} `{Chrono} {Series DataFrame : Type}.
  Context `{!SeriesEncoder Series DataFrame} `{!SeriesDecoder Series DataFrame} `{Tls}.

(** [connector.timeout = ..; connector.symbol_encoding = ..]. *)
Definition set_timeout_encoding (timeout : Z) (encoding : SymbolEncoding) (c : Connector Series DataFrame)
    : Connector Series DataFrame :=
  MkConnector (enable_tls c) (is_local c) (port c) (version c) (host c) (user c) (password c) timeout encoding
    (conn c) (tcp_stream c) (abort_handle c) (settings c) (pending_notifications c) (receive_buffer c)
    (send_buffer c).

(** An invalid setting is the error of [configure]. *)
Definition into_connector (o : WorkerOptions) : outcome XqdbError (Connector Series DataFrame) :=
  let connector :=
    set_timeout_encoding (w_timeout o) (w_symbol_encoding o)
      (Connector_new (w_host o) (w_port o) (w_user o) (w_password o) (w_tls o) 0 IPC_VERSION) in
  let '(result, connector) := configure (w_settings o) connector in
  _ ← result; Ok connector.
End IntoConnector.
