(* ===== verification/Worker.v ===== *)
(** * Worker: a connector on a thread of its own
    ([bindings/napi-xqdb/src/worker.rs])

    JavaScript reserves a permit, which sends a placeholder to the worker's queue, and
    later commits a command into the slot the placeholder names; the worker takes the
    placeholders in order, waits for their commands and performs them on the connector,
    resolving the promise of each.

    The calls of JavaScript and the worker run concurrently on shared state.  Each is a
    program whose steps are the atomic actions of the code: a load or store of an atomic,
    a section under a mutex, an operation of the channel.  What the environment decides
    (the answers of Node-API, the results of the network, the clock) is asked for. *)

From stdpp Require Import prelude strings gmap.
From Stdlib Require Import ZArith.
From S2P Require Import Prelude Errors Types QValue Text Value AnyValue Serialize Deserialize Framing Stream Pipeline Receive Aborting Connector Float64 Binding Native JsSnapshot WorkerOptions.

Definition MAX_EXPRESSION_BYTES : Z := 64 * 1024 * 1024.

Definition validate_expression_length (length : Z) : bres unit :=
  if MAX_EXPRESSION_BYTES <? length then
    cannot_convert ("q expression exceeds its " +:+ show MAX_EXPRESSION_BYTES +:+ " byte limit")
  else Ok tt.

(** ** Commands *)

(** What a command does; [Connect] with its number of retries. *)
Inductive Job : Type :=
| JobConnect (retries : Z)
| JobDisconnect
| JobSync (expression : list Z) (args : list OwnedNativeValue)
| JobAsyn (expression : list Z) (args : list OwnedNativeValue)
| JobReceive.

(** A command with its reservation and the promise its reply resolves.  Slots hold such
    commands only. *)
Record Operation : Type := MkOperation {
  op_reservation : QueueReservation;
  op_job : Job;
  op_reply : nat
}.

(** The queue holds placeholders, by their slot, and [Stop]. *)
Inductive Command : Type :=
| Pending (slot : nat)
| Run (operation : Operation)
| Stop.

(** [Mutex<Option<Option<Box<Command>>>>]: open, closed, or holding a command. *)
Abbreviation CommandSlot := (option (option Operation)).

Record QueuedPermit : Type := MkQueuedPermit { permit_admission : AdmissionPermit; permit_slot : nat }.

(** What happened so far, which the code does not keep: the slots whose placeholders were
    sent, those received, those whose command the worker took, and those it found closed
    when it came to wait for their command. *)
Record History : Type := MkHistory {
  sent : list nat;
  received : list nat;
  taken : list nat;
  refused : list nat
}.

Record Shared : Type := MkShared {
  admission : AdmissionState;
  slots : gmap nat CommandSlot;
  permits : gmap nat QueuedPermit;
  queue : list Command;
  receiver_alive : bool;
  sender_alive : bool;
  cancel_generation : Z;
  replies : gmap nat (list NativeResult);
  history : History
}.

Definition with_admission (a : AdmissionState) (s : Shared) : Shared :=
  MkShared a (slots s) (permits s) (queue s) (receiver_alive s) (sender_alive s) (cancel_generation s)
    (replies s) (history s).
Definition with_slots (m : gmap nat CommandSlot) (s : Shared) : Shared :=
  MkShared (admission s) m (permits s) (queue s) (receiver_alive s) (sender_alive s) (cancel_generation s)
    (replies s) (history s).
Definition with_permits (m : gmap nat QueuedPermit) (s : Shared) : Shared :=
  MkShared (admission s) (slots s) m (queue s) (receiver_alive s) (sender_alive s) (cancel_generation s)
    (replies s) (history s).
Definition with_queue (q : list Command) (h : History) (s : Shared) : Shared :=
  MkShared (admission s) (slots s) (permits s) q (receiver_alive s) (sender_alive s) (cancel_generation s)
    (replies s) h.
Definition with_generation (g : Z) (s : Shared) : Shared :=
  MkShared (admission s) (slots s) (permits s) (queue s) (receiver_alive s) (sender_alive s) g
    (replies s) (history s).
Definition with_replies (m : gmap nat (list NativeResult)) (s : Shared) : Shared :=
  MkShared (admission s) (slots s) (permits s) (queue s) (receiver_alive s) (sender_alive s) (cancel_generation s)
    m (history s).

(** [NativeConnector::new]: what the calls and the worker share. *)
Definition Shared_new (a : AdmissionState) : Shared :=
  MkShared a ∅ ∅ [] true true 0 ∅ (MkHistory [] [] [] []).

(** ** Programs *)

(** An action blocks where it is [None]. *)
Definition action (B : Type) : Type := Shared -> option (B * Shared).

Inductive prog (A : Type) : Type :=
| Ret (a : A)
| Act {B : Type} (f : action B) (rest : B -> prog A)
| Ask (B : Type) (rest : B -> prog A).
Arguments Ret {A} a.
Arguments Act {A B} f rest.
Arguments Ask {A} B rest.

Fixpoint prog_bind {A B} (f : A -> prog B) (m : prog A) : prog B :=
  match m with
  | Ret a => f a
  | Act g rest => Act g (fun b => prog_bind f (rest b))
  | Ask C rest => Ask C (fun c => prog_bind f (rest c))
  end.

#[export] Instance prog_ret : MRet prog := fun A a => Ret a.
#[export] Instance prog_mbind : MBind prog := fun A B f m => prog_bind f m.

Definition act {B} (f : action B) : prog B := Act f Ret.
Definition ask (B : Type) : prog B := Ask B Ret.

(** ** Actions *)

Definition load_stopping : action bool := fun s => Some (stopping (admission s), s).
Definition store_stopping : action unit := fun s => Some (tt, with_admission (set_stopping true (admission s)) s).
Definition load_generation : action Z := fun s => Some (cancel_generation s, s).
(** [fetch_add(1)] wraps. *)
Definition bump_generation : action unit := fun s =>
  Some (tt, with_generation (unsigned 64 (cancel_generation s + 1)) s).

(** The admission: one section under its mutex each. *)
Definition lock_reserve : action (bres AdmissionPermit) := fun s =>
  let '(r, a) := reserve_command (admission s) in Some (r, with_admission a s).
Definition lock_charge (bytes : Z) (r : QueueReservation) : action (bres unit * QueueReservation) := fun s =>
  let '(result, r, a) := charge_bytes bytes r (admission s) in Some ((result, r), with_admission a s).
Definition lock_drop (r : QueueReservation) : action unit := fun s =>
  Some (tt, with_admission (drop_reservation r (admission s)) s).

(** [CommandSlot::new]. *)
Definition new_slot : action nat := fun s =>
  let n := fresh (dom (slots s)) in Some (n, with_slots (<[n := None]> (slots s)) s).

(** [CommandSlot::commit]: whether the slot took the command. *)
Definition slot_commit (n : nat) (o : Operation) : action bool := fun s =>
  match slots s !! n with
  | Some None => Some (true, with_slots (<[n := Some (Some o)]> (slots s)) s)
  | _ => Some (false, s)
  end.

(** [CommandSlot::cancel]. *)
Definition slot_cancel (n : nat) : action unit := fun s =>
  match slots s !! n with
  | Some None => Some (tt, with_slots (<[n := Some None]> (slots s)) s)
  | _ => Some (tt, s)
  end.

(** [CommandSlot::fail] under the lock: the command to fail, or the slot is closed. *)
Definition slot_fail (n : nat) : action (option Operation) := fun s =>
  match slots s !! n with
  | Some (Some (Some o)) => Some (Some o, with_slots (<[n := None]> (slots s)) s)
  | _ => Some (None, with_slots (<[n := Some None]> (slots s)) s)
  end.

(** One round of [CommandSlot::wait]: [None] after a timeout, else what was taken. *)
Definition slot_wait (n : nat) : action (option (option Operation)) := fun s =>
  match slots s !! n with
  | Some (Some o) =>
    let h := history s in
    let h := match o with
             | Some _ => MkHistory (sent h) (received h) (taken h ++ [n]) (refused h)
             | None => MkHistory (sent h) (received h) (taken h) (refused h ++ [n])
             end in
    Some (Some o, with_queue (queue s) h (with_slots (<[n := None]> (slots s)) s))
  | _ => if stopping (admission s) then Some (Some None, s) else Some (None, s)
  end.

Inductive Sending : Type := Sent | Full | Disconnected.

(** [sender.try_send(command)] on a channel of [MAX_QUEUE_CAPACITY]. *)
Definition try_send (c : Command) : action Sending := fun s =>
  if negb (receiver_alive s) then Some (Disconnected, s)
  else if MAX_QUEUE_CAPACITY <=? len (queue s) then Some (Full, s)
  else
    let h := history s in
    let h := match c with
             | Pending n => MkHistory (sent h ++ [n]) (received h) (taken h) (refused h)
             | _ => h
             end in
    Some (Sent, with_queue (queue s ++ [c]) h s).

Definition note_received (c : Command) (h : History) : History :=
  match c with Pending n => MkHistory (sent h) (received h ++ [n]) (taken h) (refused h) | _ => h end.

(** [receiver.recv()]: blocks while the queue is empty and the sender lives. *)
Definition recv : action (option Command) := fun s =>
  match queue s with
  | c :: q => Some (Some c, with_queue q (note_received c (history s)) s)
  | [] => if sender_alive s then None else Some (None, s)
  end.

(** [receiver.try_recv().ok()]. *)
Definition try_recv : action (option Command) := fun s =>
  match queue s with
  | c :: q => Some (Some c, with_queue q (note_received c (history s)) s)
  | [] => Some (None, s)
  end.

(** Dropping the receiver: what was still queued is dropped after it. *)
Definition close_receiver : action (list Command) := fun s =>
  Some (queue s,
    MkShared (admission s) (slots s) (permits s) [] false (sender_alive s) (cancel_generation s) (replies s)
      (history s)).
Definition close_sender : action unit := fun s =>
  Some (tt, MkShared (admission s) (slots s) (permits s) (queue s) (receiver_alive s) false
              (cancel_generation s) (replies s) (history s)).

(** A promise, and its resolution. *)
Definition new_promise : action nat := fun s =>
  let p := fresh (dom (replies s)) in Some (p, with_replies (<[p := []]> (replies s)) s).
Definition resolve (p : nat) (result : NativeResult) : action unit := fun s =>
  Some (tt, with_replies (alter (fun l => l ++ [result]) p (replies s)) s).

(** Permits, as JavaScript holds them; a call that names none is refused. *)
Definition consumed : BindingError := conversion "native admission permit was already consumed or released".
Definition store_permit (n : nat) (p : AdmissionPermit) : action unit := fun s =>
  Some (tt, with_permits (<[n := MkQueuedPermit p n]> (permits s)) s).
Definition take_permit (n : nat) : action (bres QueueReservation) := fun s =>
  match permits s !! n with
  | Some (MkQueuedPermit p slot) =>
    let '(r, p) := take_uncommitted_for (owner (admission s)) p in
    Some (r, with_permits (<[n := MkQueuedPermit p slot]> (permits s)) s)
  | None => Some (Err consumed, s)
  end.
Definition release_permit (n : nat) : action (bres unit) := fun s =>
  match permits s !! n with
  | Some (MkQueuedPermit p slot) =>
    let '(r, p, a) := release_for (owner (admission s)) p (admission s) in
    Some (r, with_admission a (with_permits (<[n := MkQueuedPermit p slot]> (permits s)) s))
  | None => Some (Err consumed, s)
  end.
Definition forget_permit (n : nat) : action (option AdmissionPermit) := fun s =>
  match permits s !! n with
  | Some (MkQueuedPermit p slot) => Some (Some p, with_permits (delete n (permits s)) s)
  | None => Some (None, s)
  end.

(** ** Failing and dropping commands *)

Definition failed (e : BindingError) : NativeResult := failure e.

(** [Command::fail] of a command: the reply is resolved, then the rest is dropped. *)
Definition fail_operation (o : Operation) (e : BindingError) : prog unit :=
  _ ← act (resolve (op_reply o) (failed e));
  act (lock_drop (op_reservation o)).

Definition fail_slot (n : nat) (e : BindingError) : prog unit :=
  found ← act (slot_fail n);
  match found with Some o => fail_operation o e | None => mret tt end.

(** Dropping an armed [PendingSlot]. *)
Definition drop_placeholder (n : nat) : prog unit :=
  fail_slot n (internal "native connector worker stopped before consuming a reserved command").

Definition fail_command (c : Command) (e : BindingError) : prog unit :=
  match c with
  | Pending n => _ ← fail_slot n e; drop_placeholder n
  | Run o => fail_operation o e
  | Stop => mret tt
  end.

(** Dropping a command: a [DeferredReply] resolves when it is dropped. *)
Definition drop_command (c : Command) : prog unit :=
  match c with
  | Pending n => drop_placeholder n
  | Run o =>
    _ ← act (lock_drop (op_reservation o));
    act (resolve (op_reply o) (failed (internal "native connector worker stopped before replying")))
  | Stop => mret tt
  end.

Definition drop_reserved (o : option QueueReservation) : prog unit :=
  match o with Some r => act (lock_drop r) | None => mret tt end.

(** Dropping a [QueuedPermit]: its slot is cancelled, its reservation given back. *)
Definition drop_permit (n : nat) (p : AdmissionPermit) : prog unit :=
  _ ← act (slot_cancel n); drop_reserved (reservation p).

(** Dropping an armed [PreparedPermit]. *)
Definition drop_prepared (n : nat) (r : QueueReservation) : prog unit :=
  _ ← act (slot_cancel n); act (lock_drop r).

(** ** Calls from JavaScript *)

(** What a call gives: the object of [reserve], a result, or a promise; [Napi] stands for
    an exception. *)
Inductive CallResult : Type :=
| Reserved (permit : bres nat)
| Plain (result : NativeResult)
| Promise (promise : nat)
| Napi (reason : string)
| CallPanicked.

Definition not_running : BindingError := internal "native connector worker is not running".

(** [create_deferred], when Node-API succeeds. *)
Definition create_deferred : prog (outcome string nat) :=
  status ← ask (option string);
  match status with
  | Some reason => mret (Err reason)
  | None => p ← act new_promise; mret (Ok p)
  end.

Definition ready_result (result : NativeResult) : prog CallResult :=
  created ← create_deferred;
  match created with
  | Ok p => _ ← act (resolve p result); mret (Promise p)
  | Err reason => mret (Napi reason)
  | _ => mret CallPanicked
  end.

Definition reserve : prog CallResult :=
  stopping ← act load_stopping;
  if stopping : bool then mret (Reserved (Err not_running))
  else
    reserved ← act lock_reserve;
    match reserved with
    | Ok permit =>
      n ← act new_slot;
      sending ← act (try_send (Pending n));
      match sending with
      | Sent =>
        stopping ← act load_stopping;
        if stopping : bool then
          _ ← act (slot_cancel n);
          _ ← drop_permit n permit;
          mret (Reserved (Err not_running))
        else
          status ← ask (option string);
          match status with
          | None => _ ← act (store_permit n permit); mret (Reserved (Ok n))
          | Some reason => _ ← drop_permit n permit; mret (Napi reason)
          end
      | Full =>
        _ ← drop_placeholder n;
        _ ← drop_permit n permit;
        mret (Reserved (Err (backpressure "native connector placeholder queue is full")))
      | Disconnected =>
        _ ← drop_placeholder n;
        _ ← drop_permit n permit;
        mret (Reserved (Err not_running))
      end
    | Err e => mret (Reserved (Err e))
    | Panicked => mret CallPanicked
    | OutOfFuel => mret CallPanicked
    end.

Definition release (n : nat) : prog CallResult :=
  released ← act (release_permit n);
  match released with
  | Ok _ => _ ← act (slot_cancel n); mret (Plain (success None))
  | Err e => mret (Plain (failed e))
  | _ => mret CallPanicked
  end.

(** [cancel]: what [abort] answers is asked for; what it does to a running operation is
    the [Interference] of that operation. *)
Definition cancel : prog CallResult :=
  _ ← act bump_generation;
  aborted ← ask (outcome XqdbError unit);
  match aborted with
  | Ok _ => mret (Plain (success None))
  | Err e => mret (Plain (failed (binding_error e)))
  | _ => mret CallPanicked
  end.

Definition enqueue_reserved (n : nat) (r : QueueReservation) (job : Job) : prog CallResult :=
  created ← create_deferred;
  match created with
  | Ok p =>
    committed ← act (slot_commit n (MkOperation r job p));
    if committed : bool then mret (Promise p)
    else
      _ ← fail_operation (MkOperation r job p)
            (conversion "native admission permit was already committed or released");
      mret (Promise p)
  | Err reason =>
    _ ← act (slot_cancel n);
    _ ← drop_prepared n r;
    mret (Napi reason)
  | _ => mret CallPanicked
  end.

Definition enqueue_permitted (n : nat) (job : Job) : prog CallResult :=
  taken ← act (take_permit n);
  match taken with
  | Ok r => enqueue_reserved n r job
  | Err e => ready_result (failed e)
  | _ => mret CallPanicked
  end.

Definition connect_call (n : nat) (retries : Z) : prog CallResult :=
  match safe_nonnegative_integer (Some retries) 0 "retries" with
  | Ok retries => enqueue_permitted n (JobConnect retries)
  | Err reason => mret (Napi reason)
  | _ => mret CallPanicked
  end.
Definition disconnect_call (n : nat) : prog CallResult := enqueue_permitted n JobDisconnect.
Definition receive_call (n : nat) : prog CallResult := enqueue_permitted n JobReceive.

(** The steps of a snapshot, charging the reservation of a permit within the budget. *)
Fixpoint admitted {Handle A} (m : script Handle A) (limit remaining : Z) (r : QueueReservation)
    : prog (bres A * QueueReservation) :=
  match m with
  | Done m => mret (m, r)
  | Charge bytes rest =>
    if remaining <? bytes then
      mret (cannot_convert ("native value snapshot exceeds its " +:+ show limit +:+ " byte limit"), r)
    else
      '(charged, r) ← act (lock_charge bytes r);
      match charged with
      | Ok _ => admitted rest limit (remaining - bytes) r
      | Err e => mret (Err e, r)
      | Panicked => mret (Panicked, r)
      | OutOfFuel => mret (OutOfFuel, r)
      end
  | Call call rest => Ask _ (fun answer => admitted (rest answer) limit remaining r)
  end.

(** Exceeding the budget of the arguments is back-pressure. *)
Definition argument_error (max_argument_bytes : Z) (e : BindingError) : BindingError :=
  match message e with
  | Text text =>
    if String.prefix "native value snapshot exceeds its " text then
      backpressure ("native argument snapshot exceeds maxArgumentBytes " +:+ show max_argument_bytes)
    else e
  | Shown _ => e
  end.

Inductive ExecutionMode : Type := ExecuteSync | ExecuteAsyn.

Definition job_of (mode : ExecutionMode) (expression : list Z) (args : list OwnedNativeValue) : Job :=
  match mode with ExecuteSync => JobSync expression args | ExecuteAsyn => JobAsyn expression args end.

Section Execution.
  Context `{Allocator} `{Chrono} {Series DataFrame : Type} `{!NativeLibraries Series DataFrame}.
  Context {Handle : Type}.

(** A failed preparation resolves its own promise and gives the permit back. *)
Definition abandon (n : nat) (r : QueueReservation) (e : BindingError) : prog CallResult :=
  result ← ready_result (failed e);
  _ ← drop_prepared n r;
  mret result.

Definition enqueue_execution (max_argument_bytes : Z) (n : nat) (args : JsArray Handle) (mode : ExecutionMode)
    : prog CallResult :=
  taken ← act (take_permit n);
  match taken with
  | Ok r =>
    expression_length ← ask (outcome string nat);
    match expression_length with
    | Ok expression_length =>
      let expression_length := Z.of_nat expression_length in
      match validate_expression_length expression_length with
      | Ok _ =>
        '(charged, r) ← act (lock_charge expression_length r);
        match charged with
        | Ok _ =>
          expression ← ask (outcome string (list Z));
          match expression with
          | Ok expression =>
            '(copied, r) ← admitted (snapshot_array args (Some MAX_ARGUMENTS) "native argument")
                             max_argument_bytes max_argument_bytes r;
            match copied with
            | Ok copied => enqueue_reserved n r (job_of mode expression copied)
            | Err e => abandon n r (argument_error max_argument_bytes e)
            | _ => _ ← drop_prepared n r; mret CallPanicked
            end
          | Err reason => _ ← drop_prepared n r; mret (Napi reason)
          | _ => _ ← drop_prepared n r; mret CallPanicked
          end
        | Err e => abandon n r e
        | _ => _ ← drop_prepared n r; mret CallPanicked
        end
      | Err e => abandon n r e
      | _ => _ ← drop_prepared n r; mret CallPanicked
      end
    | Err reason => _ ← drop_prepared n r; mret (Napi reason)
    | _ => _ ← drop_prepared n r; mret CallPanicked
    end
  | Err e => ready_result (failed e)
  | _ => mret CallPanicked
  end.

Definition sync_call (max_argument_bytes : Z) (n : nat) (args : JsArray Handle) : prog CallResult :=
  enqueue_execution max_argument_bytes n args ExecuteSync.
Definition asyn_call (max_argument_bytes : Z) (n : nat) (args : JsArray Handle) : prog CallResult :=
  enqueue_execution max_argument_bytes n args ExecuteAsyn.
End Execution.

(** The garbage collector drops a permit. *)
Definition finalize_permit (n : nat) : prog CallResult :=
  found ← act (forget_permit n);
  match found with
  | Some p => _ ← drop_permit n p; mret (Plain (success None))
  | None => mret (Plain (success None))
  end.

(** Dropping the connector; the reaper joins the worker. *)
Definition drop_connector : prog CallResult :=
  _ ← act store_stopping;
  _ ← act bump_generation;
  _ ← ask (outcome XqdbError unit);
  _ ← act (try_send Stop);
  _ ← act close_sender;
  mret (Plain (success None)).

(** ** The worker *)

(** Connection errors worth another attempt. *)
Definition is_retryable_connect (error : XqdbError) : bool :=
  match error with
  | IOError error => match kind error with Interrupted => false | _ => true end
  | FailedToConnectErr _ | NotConnectedErr => true
  | _ => false
  end.

Definition cancelled : BindingError := MkBindingError CODE_IO (Text "Connector operation was aborted").

Definition MILLISECOND : Z := 1000000.

(** The nanoseconds before attempt [retry_index + 1]. *)
Definition retry_delay (retry_index : Z) : Z := Z.shiftl 1 (Z.min retry_index 5) * NANOSECONDS.

(** [thread::sleep] of the shorter of what is left and 25 ms: at least as long. *)
Definition slept (time_left : Z) : Type := { d : Z | Z.min time_left (25 * MILLISECOND) <= d }.

Section Performing.
  Context `{Allocator} `{Chrono} {Series DataFrame : Type} `{!NativeLibraries Series DataFrame}.
  Context `{!SeriesEncoder Series DataFrame} `{!SeriesDecoder Series DataFrame} `{Tls}.

Abbreviation connector := (Connector Series DataFrame).

(** What an operation of the connector finds. *)
Record Environment : Type := MkEnvironment {
  interference : Interference;
  schedule : Schedule;
  shutdown_answer : shutdown_result;
  network : Network
}.

(** The closures of [complete_operation], but for connecting. *)
Definition perform_disconnect (env : Environment) (c : connector) : bres (option NativeValue) * connector :=
  match shutdown (shutdown_answer env) c with
  | (Ok _, c) | (Err NotConnectedErr, c) => (Ok None, c)
  | (Err e, c) => (Err (binding_error e), c)
  | (Panicked, c) => (Panicked, c)
  | (OutOfFuel, c) => (OutOfFuel, c)
  end.

Definition some_value {A} (r : outcome XqdbError A * connector) (f : A -> bres (option NativeValue))
    : bres (option NativeValue) * connector :=
  (a ← map_err binding_error r.1; f a, r.2).

Definition native_reply (k : K Series DataFrame) : bres (option NativeValue) := n ← k_into_native k; Ok (Some n).

Definition with_args (args : list OwnedNativeValue) (c : connector)
    (f : list (K Series DataFrame) -> bres (option NativeValue) * connector)
    : bres (option NativeValue) * connector :=
  match native_values_into_k args with
  | Ok args => f args
  | Err e => (Err e, c)
  | Panicked => (Panicked, c)
  | OutOfFuel => (OutOfFuel, c)
  end.

Definition perform_job (env : Environment) (job : Job) (c : connector) : bres (option NativeValue) * connector :=
  match job with
  | JobConnect _ => some_value (connect (H2 := network env) (interference env) c) (fun _ => Ok None)
  | JobDisconnect => perform_disconnect env c
  | JobSync expression args =>
    with_args args c (fun args =>
      some_value (execute (H2 := network env) (interference env) (schedule env) expression args c) native_reply)
  | JobAsyn expression args =>
    with_args args c (fun args =>
      some_value (execute_async (H2 := network env) (interference env) expression args c) (fun _ => Ok None))
  | JobReceive => some_value (receive (interference env) (schedule env) c) native_reply
  end.

(** Where the worker is between its atomic steps: in the loop, waiting for the command of
    a slot, with a command in hand, connecting, waiting to connect again, past the loop,
    failing what is queued, and after the loop has returned or panicked. *)
Inductive label : Type :=
| AtLoop (c : connector)
| AtWait (c : connector) (slot : nat)
| AtCommand (c : connector) (command : Command)
| AtConnect (c : connector) (reply : nat) (retries attempt expected : Z)
| AtRetry (c : connector) (reply : nat) (retries attempt expected time_left : Z)
| AtStop (c : connector)
| AtDrain (c : connector)
| AtTail (panicked : bool)
| AtTailDrain (panicked : bool)
| AtClose
| AtDrop (rest : list Command)
| Finished.

(** An operation that does not come back. *)
Definition never : prog label := Act (fun _ : Shared => @None (unit * Shared)) (fun _ => Ret Finished).

(** [complete_operation]: a panic is caught, reported, and ends the loop. *)
Definition complete_operation (reply : nat) (result : bres (option NativeValue)) (c : connector) : prog label :=
  match result with
  | Ok value => _ ← act (resolve reply (success value)); mret (AtLoop c)
  | Err e => _ ← act (resolve reply (failed e)); mret (AtLoop c)
  | Panicked => _ ← act (resolve reply (failed (internal "native operation panicked"))); mret (AtStop c)
  | OutOfFuel => never
  end.

(** One round of the loop over connection attempts. *)
Definition connect_round (c : connector) (reply : nat) (retries attempt expected : Z) : prog label :=
  generation ← act load_generation;
  if negb (generation =? expected) then complete_operation reply (Err cancelled) c
  else
    env ← ask Environment;
    match connect (H2 := network env) (interference env) c with
    | (Panicked, c) => complete_operation reply Panicked c
    | (OutOfFuel, c) => never
    | (connection, c) =>
      generation ← act load_generation;
      if negb (generation =? expected) then
        match shutdown (shutdown_answer env) c with
        | (Panicked, c) => complete_operation reply Panicked c
        | (OutOfFuel, c) => never
        | (_, c) => complete_operation reply (Err cancelled) c
        end
      else
        match connection with
        | Err error =>
          if (attempt <? retries) && is_retryable_connect error then
            mret (AtRetry c reply retries attempt expected (retry_delay attempt))
          else complete_operation reply (Err (binding_error error)) c
        | _ => complete_operation reply (Ok None) c
        end
    end.

(** One round of [wait_for_connect_retry]; [time_left] is the time before the deadline. *)
Definition retry_round (c : connector) (reply : nat) (retries attempt expected time_left : Z) : prog label :=
  generation ← act load_generation;
  if negb (generation =? expected) then complete_operation reply (Err cancelled) c
  else if time_left <=? 0 then mret (AtConnect c reply retries (attempt + 1) expected)
  else
    d ← ask (slept time_left);
    mret (AtRetry c reply retries attempt expected (time_left - `d)).

Definition perform_command (c : connector) (command : Command) : prog label :=
  stopping ← act load_stopping;
  if stopping : bool then
    _ ← fail_command command (internal "native connector worker is stopping");
    mret (AtStop c)
  else
    match command with
    | Pending n => _ ← act (slot_cancel n); _ ← drop_placeholder n; mret (AtLoop c)
    | Stop => mret (AtStop c)
    | Run o =>
      _ ← act (lock_drop (op_reservation o));
      match op_job o with
      | JobConnect retries =>
        expected ← act load_generation;
        mret (AtConnect c (op_reply o) retries 0 expected)
      | job =>
        env ← ask Environment;
        let '(result, c) := perform_job env job c in
        complete_operation (op_reply o) result c
      end
    end.

(** [while let Ok(command) = receiver.try_recv() { command.fail(error) }], one round. *)
Definition fail_pending (message : string) (again : label) (done : prog label) : prog label :=
  received ← act try_recv;
  match received with
  | Some command => _ ← fail_command command (internal message); mret again
  | None => done
  end.

(** [let _ = connector.shutdown()]. *)
Definition last_shutdown (c : connector) : prog label :=
  answer ← ask shutdown_result;
  match shutdown answer c with
  | (Panicked, _) => mret (AtTail true)
  | (OutOfFuel, _) => never
  | _ => mret (AtTail false)
  end.

(** [run_worker] and [run_worker_loop], from each label to the next. *)
Definition body (l : label) : prog label :=
  match l with
  | AtLoop c =>
    stopping ← act load_stopping;
    if stopping : bool then mret (AtStop c)
    else
      received ← act recv;
      match received with
      | None => mret (AtStop c)
      | Some (Pending n) => mret (AtWait c n)
      | Some command => mret (AtCommand c command)
      end
  | AtWait c n =>
    waited ← act (slot_wait n);
    match waited with
    | None => mret (AtWait c n)
    | Some (Some o) => mret (AtCommand c (Run o))
    | Some None => _ ← drop_placeholder n; mret (AtLoop c)
    end
  | AtCommand c command => perform_command c command
  | AtConnect c reply retries attempt expected => connect_round c reply retries attempt expected
  | AtRetry c reply retries attempt expected time_left => retry_round c reply retries attempt expected time_left
  | AtStop c => _ ← act store_stopping; mret (AtDrain c)
  | AtDrain c => fail_pending "native connector worker is stopping" (AtDrain c) (last_shutdown c)
  | AtTail panicked => _ ← act store_stopping; mret (AtTailDrain panicked)
  | AtTailDrain panicked =>
    fail_pending (if panicked then "native connector worker panicked"
                  else "native connector worker stopped before replying") (AtTailDrain panicked) (mret AtClose)
  | AtClose => rest ← act close_receiver; mret (AtDrop rest)
  | AtDrop (command :: rest) => _ ← drop_command command; mret (AtDrop rest)
  | AtDrop [] | Finished => mret Finished
  end.
End Performing.
Arguments label {_} Series DataFrame.

(** ** All threads together *)

Section System.
  Context `{Allocator} `{Chrono} {Series DataFrame : Type} `{!NativeLibraries Series DataFrame}.
  Context `{!SeriesEncoder Series DataFrame} `{!SeriesDecoder Series DataFrame} `{Tls}.

(** Whether JavaScript still has the connector, the calls in progress, and the worker.
    More than one call is in progress when a snapshot runs JavaScript that calls the
    connector again. *)
Record System : Type := MkSystem {
  connected : bool;
  shared : Shared;
  calls : list (prog CallResult);
  worker : prog (label Series DataFrame)
}.

(** The calls JavaScript can make. *)
Inductive call_of (max_argument_bytes : Z) : prog CallResult -> Prop :=
| call_reserve : call_of max_argument_bytes reserve
| call_release n : call_of max_argument_bytes (release n)
| call_cancel : call_of max_argument_bytes cancel
| call_connect n retries : call_of max_argument_bytes (connect_call n retries)
| call_disconnect n : call_of max_argument_bytes (disconnect_call n)
| call_receive n : call_of max_argument_bytes (receive_call n)
| call_execute n Handle (args : JsArray Handle) mode :
    call_of max_argument_bytes (enqueue_execution max_argument_bytes n args mode).

(** One step of a program. *)
Inductive prog_step {A} : prog A * Shared -> prog A * Shared -> Prop :=
| step_act B (f : action B) rest s b s' : f s = Some (b, s') -> prog_step (Act f rest, s) (rest b, s')
| step_ask B rest (b : B) s : prog_step (Ask B rest, s) (rest b, s).

Inductive worker_step : System -> System -> Prop :=
| worker_steps b s calls p p' s' :
    prog_step (p, s) (p', s') -> worker_step (MkSystem b s calls p) (MkSystem b s' calls p')
| worker_next b s calls l :
    l <> Finished -> worker_step (MkSystem b s calls (Ret l)) (MkSystem b s calls (body l)).

(** The steps of JavaScript.  Permits are collected at any time; the connector when no
    call is in progress. *)
Inductive call_step (max_argument_bytes : Z) : System -> System -> Prop :=
| call_steps b s pre p p' post s' w :
    prog_step (p, s) (p', s') ->
    call_step max_argument_bytes (MkSystem b s (pre ++ p :: post) w) (MkSystem b s' (pre ++ p' :: post) w)
| call_return b s pre r post w :
    call_step max_argument_bytes (MkSystem b s (pre ++ Ret r :: post) w) (MkSystem b s (pre ++ post) w)
| call_begin s calls p w :
    call_of max_argument_bytes p ->
    call_step max_argument_bytes (MkSystem true s calls w) (MkSystem true s (p :: calls) w)
| call_finalize b s calls n w :
    call_step max_argument_bytes (MkSystem b s calls w) (MkSystem b s (finalize_permit n :: calls) w)
| call_drop s w :
    call_step max_argument_bytes (MkSystem true s [] w) (MkSystem false s [drop_connector] w).

Inductive step (max_argument_bytes : Z) (x y : System) : Prop :=
| step_worker : worker_step x y -> step max_argument_bytes x y
| step_calls : call_step max_argument_bytes x y -> step max_argument_bytes x y.

Inductive reachable (max_argument_bytes : Z) (a : AdmissionState) (c : Connector Series DataFrame)
    : System -> Prop :=
| reach_start : reachable max_argument_bytes a c (MkSystem true (Shared_new a) [] (Ret (AtLoop c)))
| reach_step x y :
    reachable max_argument_bytes a c x -> step max_argument_bytes x y -> reachable max_argument_bytes a c y.
End System.
Arguments System {_} Series DataFrame.
