(* ===== verification/WorkerTokens.v ===== *)
(** * WorkerTokens: who answers for what in the worker

    Every reservation, promise, placeholder and right to commit is held at one place: by
    a thread, by a permit, by a slot or by the queue.  The places are lists of tokens, and
    the state of the binding fits the tokens of all places together.  An action changes
    the state and the tokens of its thread, and leaves the tokens of the others alone. *)

From stdpp Require Import prelude strings gmap.
From Stdlib Require Import ZArith Lia ZifyBool.
From S2P Require Import Prelude Errors QValueFacts Binding Native JsSnapshot WorkerOptions Worker.

Inductive token : Type :=
| TReservation (bytes : Z)
| TRight (slot : nat)
| TPromise (promise : nat)
| TPlaceholder (slot : nat)
| TReceiver (waiting : option nat)
| TStopped.

Definition reservations (T : list token) : list Z :=
  omap (fun t => match t with TReservation b => Some b | _ => None end) T.
Definition rights (T : list token) : list nat :=
  omap (fun t => match t with TRight n => Some n | _ => None end) T.
Definition promises (T : list token) : list nat :=
  omap (fun t => match t with TPromise p => Some p | _ => None end) T.
Definition placeholders (T : list token) : list nat :=
  omap (fun t => match t with TPlaceholder n => Some n | _ => None end) T.
Definition receivers (T : list token) : list (option nat) :=
  omap (fun t => match t with TReceiver o => Some o | _ => None end) T.

Definition stops (T : list token) : list unit :=
  omap (fun t => match t with TStopped => Some tt | _ => None end) T.

Lemma elem_of_rights T n : n ∈ rights T <-> TRight n ∈ T.
Proof.
  unfold rights. rewrite list_elem_of_omap. split; [|by exists (TRight n)]. intros ([] & Ht & [= ->]). done.
Qed.

(** ** Where tokens are *)

Definition operation_tokens (o : Operation) : list token :=
  [TReservation (reserved_bytes (op_reservation o)); TPromise (op_reply o)].
Definition reservation_tokens (n : nat) (o : option QueueReservation) : list token :=
  match o with Some r => [TReservation (reserved_bytes r); TRight n] | None => [] end.
Definition permit_tokens (e : nat * QueuedPermit) : list token :=
  reservation_tokens e.1 (reservation (permit_admission e.2)).
Definition slot_tokens (e : nat * CommandSlot) : list token :=
  match e.2 with Some (Some o) => operation_tokens o | _ => [] end.
Definition command_tokens (c : Command) : list token :=
  match c with Pending n => [TPlaceholder n] | Run o => operation_tokens o | Stop => [] end.

Definition map_tokens {A} (f : nat * A -> list token) (m : gmap nat A) : list token := map_to_list m ≫= f.

Definition held_tokens (s : Shared) : list token :=
  map_tokens permit_tokens (permits s) ++ map_tokens slot_tokens (slots s) ++ (queue s ≫= command_tokens).

Lemma map_tokens_insert {A} (f : nat * A -> list token) m n v :
  m !! n = None -> map_tokens f (<[n := v]> m) ≡ₚ f (n, v) ++ map_tokens f m.
Proof. intros Hn. unfold map_tokens. by rewrite map_to_list_insert, bind_cons. Qed.

Lemma map_tokens_delete {A} (f : nat * A -> list token) m n v :
  m !! n = Some v -> map_tokens f m ≡ₚ f (n, v) ++ map_tokens f (delete n m).
Proof. intros Hn. unfold map_tokens. by rewrite <- (map_to_list_delete m n v Hn), bind_cons. Qed.

Lemma map_tokens_update {A} (f : nat * A -> list token) m n v w :
  m !! n = Some v -> f (n, v) ++ map_tokens f (<[n := w]> m) ≡ₚ f (n, w) ++ map_tokens f m.
Proof.
  intros Hn. rewrite <- insert_delete_eq, map_tokens_insert by apply lookup_delete_eq.
  rewrite (map_tokens_delete f m n v Hn). solve_Permutation.
Qed.

(** ** The state fits the tokens *)

(** The counts are those of the reservations. *)
Record admission_fits (a : AdmissionState) (bytes : list Z) : Prop := {
  fit_commands : queued_commands (counts a) = len bytes;
  fit_bytes : queued_bytes (counts a) = foldr Z.add 0 bytes;
  fit_sizes : Forall (fun b => 0 <= b) bytes;
  fit_capacity : queued_commands (counts a) <= command_capacity a;
  fit_room : queued_bytes (counts a) <= byte_capacity a
}.

(** Whoever may commit into a slot finds it closed, or open with a placeholder behind it;
    behind a command there is a placeholder. *)
Record slots_fit (m : gmap nat CommandSlot) (rights placeholders : list nat) : Prop := {
  fit_rights : NoDup rights;
  fit_open n : n ∈ rights -> m !! n = Some (Some None) \/ (m !! n = Some None /\ n ∈ placeholders);
  fit_filled n o : m !! n = Some (Some (Some o)) -> n ∈ placeholders;
  fit_placed n : n ∈ placeholders -> is_Some (m !! n)
}.

(** A promise that somebody holds is unresolved, all others are resolved once. *)
Record replies_fit (m : gmap nat (list NativeResult)) (promises : list nat) : Prop := {
  fit_promises : NoDup promises;
  fit_unresolved p : p ∈ promises <-> m !! p = Some [];
  fit_once p l : m !! p = Some l -> (length l <= 1)%nat
}.

Definition pending_slots (q : list Command) : list nat :=
  omap (fun c => match c with Pending n => Some n | _ => None end) q.

(** Placeholders are received in the order they were sent, and commands taken in that
    order; a closed queue is empty. *)
Record history_fits (h : History) (q : list Command) (alive : bool) (receivers : list (option nat)) : Prop := {
  fit_receivers : (length receivers <= 1)%nat;
  fit_taken : sublist (taken h) (received h);
  fit_waiting n : Some n ∈ receivers -> exists l, received h = l ++ [n] /\ sublist (taken h) l;
  fit_sent : if alive then sent h = received h ++ pending_slots q else received h `prefix_of` sent h /\ q = [];
  fit_alive : alive = true -> receivers <> []
}.

(** Who knows that the worker is stopping is right.  Until then the worker waits for the
    command of each placeholder it received until it took the command or found the slot
    closed. *)
Record waits_fit (h : History) (stopping : bool) (stops : list unit) (receivers : list (option nat)) : Prop := {
  fit_stopped : stops <> [] -> stopping = true;
  fit_settled :
    stopping = false -> forall n, n ∈ received h -> n ∈ taken h \/ n ∈ refused h \/ Some n ∈ receivers
}.

Record fits (s : Shared) (T : list token) : Prop := {
  fit_admission : admission_fits (admission s) (reservations T);
  fit_slots : slots_fit (slots s) (rights T) (placeholders T);
  fit_replies : replies_fit (replies s) (promises T);
  fit_history : history_fits (history s) (queue s) (receiver_alive s) (receivers T);
  fit_waits : waits_fit (history s) (stopping (admission s)) (stops T) (receivers T)
}.

Definition inv (s : Shared) (T : list token) : Prop := fits s (T ++ held_tokens s).

Lemma sum_perm (l l' : list Z) : l ≡ₚ l' -> foldr Z.add 0 l = foldr Z.add 0 l'.
Proof. induction 1; cbn; lia. Qed.

#[export] Instance admission_fits_perm a : Proper ((≡ₚ) ==> impl) (admission_fits a).
Proof. intros l l' Hl [H1 H2 H3 H4 H5]. split; [by rewrite H1, Hl|by rewrite H2, (sum_perm _ _ Hl)|by rewrite <- Hl|done..]. Qed.
#[export] Instance slots_fit_perm m : Proper ((≡ₚ) ==> (≡ₚ) ==> impl) (slots_fit m).
Proof.
  intros r r' Hr p p' Hp [H1 H2 H3 H4]. split; [by rewrite <- Hr|intros n; rewrite <- Hr, <- Hp; apply H2
    |intros n o; rewrite <- Hp; apply H3|intros n; rewrite <- Hp; apply H4].
Qed.
#[export] Instance replies_fit_perm m : Proper ((≡ₚ) ==> impl) (replies_fit m).
Proof. intros l l' Hl [H1 H2 H3]. split; [by rewrite <- Hl|intros p; rewrite <- Hl; apply H2|done]. Qed.
#[export] Instance history_fits_perm h q b : Proper ((≡ₚ) ==> impl) (history_fits h q b).
Proof.
  intros l l' Hl [H1 H2 H3 H4 H5]. split; [by rewrite <- Hl|done|intros n; rewrite <- Hl; apply H3|done|].
  intros Hb ->. by apply (H5 Hb), Permutation_nil_r.
Qed.

#[export] Instance waits_fit_perm h b : Proper ((≡ₚ) ==> (≡ₚ) ==> impl) (waits_fit h b).
Proof.
  intros l l' Hl r r' Hr [H1 H2]. split; [|by intros Hb n; rewrite <- Hr; apply H2].
  intros Hne. apply H1. intros ->. by apply Hne, Permutation_nil_r.
Qed.

#[export] Instance fits_perm s : Proper ((≡ₚ) ==> impl) (fits s).
Proof.
  intros T T' HT [H1 H2 H3 H4 H5]. split.
  - eapply admission_fits_perm; [by apply omap_Permutation|done].
  - eapply slots_fit_perm; [by apply omap_Permutation..|done].
  - eapply replies_fit_perm; [by apply omap_Permutation|done].
  - eapply history_fits_perm; [by apply omap_Permutation|done].
  - eapply waits_fit_perm; [by apply omap_Permutation..|done].
Qed.

Lemma inv_perm s T T' : T ≡ₚ T' -> inv s T -> inv s T'.
Proof. intros HT. apply fits_perm. by rewrite HT. Qed.

(** ** Steps of the parts *)

Lemma admission_reserve_fits a bytes r a' :
  admission_fits a bytes -> reserve_command a = (r, a') ->
  match r with
  | Ok p => exists o, p = MkPermit o (Some (MkReservation 0)) /\ admission_fits a' (0 :: bytes)
  | Err _ | Panicked => a' = a
  | OutOfFuel => False
  end.
Proof.
  intros [H1 H2 H3 H4 H5]. unfold reserve_command. destruct (Z.leb_spec (command_capacity a) (queued_commands (counts a))).
  { by intros [= <- <-]. }
  destruct (checked_add _ 1) as [n|] eqn:En; [|by intros [= <- <-]]. apply checked_add_inv in En as [-> _].
  intros [= <- <-]. eexists. split; [done|].
  split; cbn [set_counts counts queued_commands queued_bytes command_capacity byte_capacity length foldr];
    [lia|lia|by constructor|lia|lia].
Qed.

Lemma admission_charge_fits a b bytes n r a' r' :
  0 <= n -> admission_fits a (b :: bytes) -> charge_bytes n (MkReservation b) a = (r, r', a') ->
  (exists b', r' = MkReservation b' /\ admission_fits a' (b' :: bytes))
  /\ r <> Panicked /\ r <> OutOfFuel.
Proof.
  intros Hn [H1 H2 H3 H4 H5]. unfold charge_bytes. cbn [reserved_bytes].
  destruct (checked_add b n) as [b'|] eqn:Eb; [|intros [= <- <- <-]; split; [by exists b|done]].
  destruct (checked_add (queued_bytes _) n) as [total|] eqn:Et; [|intros [= <- <- <-]; split; [by exists b|done]].
  destruct (Z.ltb_spec (byte_capacity a) total); [intros [= <- <- <-]; split; [by exists b|done]|].
  apply checked_add_inv in Eb as [-> _]. apply checked_add_inv in Et as [-> _].
  intros [= <- <- <-]. split; [|done]. exists (b + n). split; [done|].
  apply Forall_cons in H3 as [Hb H3]. cbn [length foldr] in H1, H2.
  split; cbn [set_counts counts queued_commands queued_bytes command_capacity byte_capacity length foldr];
    [lia|lia|constructor; [lia|done]|lia|lia].
Qed.

Lemma sum_nonneg bytes : Forall (fun b => 0 <= b) bytes -> 0 <= foldr Z.add 0 bytes.
Proof. induction 1; cbn; lia. Qed.

Lemma admission_drop_fits a b bytes :
  admission_fits a (b :: bytes) -> admission_fits (drop_reservation (MkReservation b) a) bytes.
Proof.
  intros [H1 H2 H3 H4 H5]. apply Forall_cons in H3 as [Hb H3]. cbn [length foldr] in H1, H2.
  pose proof (sum_nonneg bytes H3).
  split; cbn [drop_reservation set_counts counts queued_commands queued_bytes command_capacity byte_capacity reserved_bytes];
    unfold saturating_sub; [lia|lia|done|lia|lia].
Qed.

Section Slots.
  Implicit Types (m : gmap nat CommandSlot) (R P : list nat) (n : nat).

Lemma slots_new_fits m R P :
  let n := fresh (dom m) in slots_fit m R P -> slots_fit (<[n := None]> m) (n :: R) (n :: P).
Proof.
  intros n [H1 H2 H3 H4].
  assert (Hn : m !! n = None) by (by apply not_elem_of_dom, is_fresh). clearbody n.
  assert (HR : n ∉ R) by (intros [|[]]%H2; congruence).
  assert (HP : n ∉ P) by (intros []%H4; congruence).
  split; [by constructor| | |].
  - intros k [->|Hk]%elem_of_cons; [right; rewrite lookup_insert_eq; split; [done|by left]|].
    assert (k <> n) by (by intros ->). rewrite lookup_insert_ne by done.
    destruct (H2 k Hk) as [|[]]; [by left|right; split; [done|by right]].
  - intros k o. destruct (decide (k = n)) as [->|]; [by rewrite lookup_insert_eq|].
    rewrite lookup_insert_ne by done. intros Hk%H3. by right.
  - intros k [->|Hk]%elem_of_cons; [by rewrite lookup_insert_eq|].
    rewrite lookup_insert_ne by (by intros ->). by apply H4.
Qed.

Lemma slots_forget_right m R P n : slots_fit m (n :: R) P -> slots_fit m R P.
Proof. intros [H1 H2 H3 H4]. apply NoDup_cons in H1 as [_ H1]. split; [done|intros k Hk; apply H2; by right|done..]. Qed.

(** Committing uses the right up. *)
Lemma slots_commit_fits m R P n o :
  slots_fit m (n :: R) P -> m !! n = Some None -> slots_fit (<[n := Some (Some o)]> m) R P.
Proof.
  intros [H1 H2 H3 H4] Hn. apply NoDup_cons in H1 as [HR H1].
  destruct (H2 n (list_elem_of_here _ _)) as [|[_ HP]]; [congruence|]. split; [done| | |].
  - intros k Hk. rewrite lookup_insert_ne by (by intros ->). apply H2. by right.
  - intros k o'. destruct (decide (k = n)) as [->|]; [done|]. rewrite lookup_insert_ne by done. apply H3.
  - intros k Hk. destruct (decide (k = n)) as [->|]; [by rewrite lookup_insert_eq|].
    rewrite lookup_insert_ne by done. by apply H4.
Qed.

Lemma slots_close_fits m R P n :
  slots_fit m R P -> (forall o, m !! n <> Some (Some (Some o))) -> slots_fit (<[n := Some None]> m) R P.
Proof.
  intros [H1 H2 H3 H4] Hn. split; [done| | |].
  - intros k Hk. destruct (decide (k = n)) as [->|]; [left; by rewrite lookup_insert_eq|].
    rewrite lookup_insert_ne by done. by apply H2.
  - intros k o. destruct (decide (k = n)) as [->|]; [by rewrite lookup_insert_eq|].
    rewrite lookup_insert_ne by done. apply H3.
  - intros k Hk. destruct (decide (k = n)) as [->|]; [by rewrite lookup_insert_eq|].
    rewrite lookup_insert_ne by done. by apply H4.
Qed.

(** Taking a command out of a slot leaves nobody who could commit another. *)
Lemma slots_take_fits m R P n o :
  slots_fit m R P -> m !! n = Some (Some (Some o)) -> slots_fit (<[n := None]> m) R P.
Proof.
  intros [H1 H2 H3 H4] Hn. assert (HR : n ∉ R) by (intros [|[]]%H2; congruence). split; [done| | |].
  - intros k Hk. rewrite lookup_insert_ne by (by intros ->). by apply H2.
  - intros k o'. destruct (decide (k = n)) as [->|]; [by rewrite lookup_insert_eq|].
    rewrite lookup_insert_ne by done. apply H3.
  - intros k Hk. destruct (decide (k = n)) as [->|]; [by rewrite lookup_insert_eq|].
    rewrite lookup_insert_ne by done. by apply H4.
Qed.

(** Reopening a closed slot needs its placeholder. *)
Lemma slots_reopen_fits m R P n :
  slots_fit m R P -> n ∈ P -> (forall o, m !! n <> Some (Some (Some o))) -> slots_fit (<[n := None]> m) R P.
Proof.
  intros [H1 H2 H3 H4] HP Hn. split; [done| | |].
  - intros k Hk. destruct (decide (k = n)) as [->|]; [right; by rewrite lookup_insert_eq|].
    rewrite lookup_insert_ne by done. by apply H2.
  - intros k o. destruct (decide (k = n)) as [->|]; [by rewrite lookup_insert_eq|].
    rewrite lookup_insert_ne by done. apply H3.
  - intros k Hk. destruct (decide (k = n)) as [->|]; [by rewrite lookup_insert_eq|].
    rewrite lookup_insert_ne by done. by apply H4.
Qed.

(** A placeholder may go when its slot is closed, or open to nobody. *)
Lemma slots_forget_placeholder m R P n :
  slots_fit m R (n :: P) -> m !! n = Some (Some None) \/ (m !! n = Some None /\ n ∉ R) -> slots_fit m R P.
Proof.
  intros [H1 H2 H3 H4] Hn. split; [done| | |].
  - intros k Hk. destruct (H2 k Hk) as [|[Hm HP]]; [by left|]. right. split; [done|].
    apply elem_of_cons in HP as [->|]; [|done]. destruct Hn as [|[_ []]]; [congruence|done].
  - intros k o Hk. specialize (H3 k o Hk). apply elem_of_cons in H3 as [->|]; [|done].
    destruct Hn as [|[]]; congruence.
  - intros k Hk. apply H4. by right.
Qed.

Lemma slots_no_right m R P n o : slots_fit m R P -> m !! n = Some (Some (Some o)) -> n ∉ R.
Proof. intros [_ H2 _ _] Hn [|[]]%H2; congruence. Qed.
End Slots.

Lemma replies_new_fits m l :
  let p := fresh (dom m) in replies_fit m l -> replies_fit (<[p := []]> m) (p :: l).
Proof.
  intros p [H1 H2 H3]. assert (Hp : m !! p = None) by (by apply not_elem_of_dom, is_fresh). split.
  - constructor; [|done]. rewrite H2. congruence.
  - intros k. rewrite elem_of_cons, H2. destruct (decide (k = p)) as [->|Hne].
    + rewrite lookup_insert_eq. naive_solver.
    + rewrite lookup_insert_ne by done. naive_solver.
  - intros k x. destruct (decide (k = p)) as [->|]; [rewrite lookup_insert_eq; intros [= <-]; cbn; lia|].
    rewrite lookup_insert_ne by done. apply H3.
Qed.

Lemma replies_resolve_fits m p l r :
  replies_fit m (p :: l) -> replies_fit (alter (fun x => x ++ [r]) p m) l.
Proof.
  intros [H1 H2 H3]. apply NoDup_cons in H1 as [Hp H1].
  assert (Hm : m !! p = Some []) by (apply H2; by left). split; [done| |].
  - intros k. destruct (decide (k = p)) as [->|Hne].
    + rewrite lookup_alter_eq, Hm. cbn. split; [done|intros [=]].
    + rewrite lookup_alter_ne, <- H2, elem_of_cons by done. naive_solver.
  - intros k x. destruct (decide (k = p)) as [->|]; [rewrite lookup_alter_eq, Hm; intros [= <-]; cbn; lia|].
    rewrite lookup_alter_ne by done. apply H3.
Qed.

Lemma pending_slots_app q q' : pending_slots (q ++ q') = pending_slots q ++ pending_slots q'.
Proof. apply omap_app. Qed.

Lemma history_send_fits h q c l :
  history_fits h q true l ->
  history_fits (match c with Pending n => MkHistory (sent h ++ [n]) (received h) (taken h) (refused h) | _ => h end)
    (q ++ [c]) true l.
Proof.
  intros [H1 H2 H3 H4 H5]. destruct c; (split; [done|done|done| |done]).
  all: cbn [sent received]; rewrite pending_slots_app, H4; cbn; by rewrite ?app_nil_r, ?app_assoc.
Qed.

(** Receiving keeps a receiver that waits for nothing. *)
Lemma history_receive_fits h c q b :
  history_fits h (c :: q) b [None] -> history_fits (note_received c h) q b [None].
Proof.
  intros [H1 H2 H3 H4 H5]. destruct b; [|by destruct H4].
  destruct c; cbn [note_received]; (split; [done| |intros n Hn%list_elem_of_singleton; done| |done]); try done.
  - cbn. by apply sublist_inserts_r.
  - cbn in *. by rewrite H4, <- app_assoc.
Qed.

Lemma history_pending_fits h n q b :
  history_fits h (Pending n :: q) b [None] -> history_fits (note_received (Pending n) h) q b [Some n].
Proof.
  intros H. pose proof (history_receive_fits _ _ _ _ H) as [H1 H2 _ H4 H5]. destruct H as [_ Ht _ _ _].
  split; [done|done| |done|done]. intros k Hk%list_elem_of_singleton. injection Hk as ->.
  exists (received h). split; [done|]. done.
Qed.

Lemma history_done_fits h q b n : history_fits h q b [Some n] -> history_fits h q b [None].
Proof. intros [H1 H2 H3 H4 H5]. split; [done|done| |done|done]. by intros k Hk%list_elem_of_singleton. Qed.

Lemma history_refuse_fits h q b n :
  history_fits h q b [Some n] -> history_fits (MkHistory (sent h) (received h) (taken h) (refused h ++ [n])) q b [None].
Proof. intros [H1 H2 H3 H4 H5]. split; [done|done| |done|done]. by intros k Hk%list_elem_of_singleton. Qed.

Lemma history_take_fits h q b n :
  history_fits h q b [Some n] -> history_fits (MkHistory (sent h) (received h) (taken h ++ [n]) (refused h)) q b [None].
Proof.
  intros [H1 H2 H3 H4 H5]. destruct (H3 n) as (l & Hl & Ht); [by left|].
  split; [done| |by intros k Hk%list_elem_of_singleton|done|done]. cbn. rewrite Hl. by apply sublist_app.
Qed.

Lemma history_close_fits h q b :
  history_fits h q b [None] -> history_fits h [] false [].
Proof.
  intros [H1 H2 H3 H4 H5]. split; [cbn; lia|done|by intros n Hn%elem_of_nil| |done].
  split; [|done]. destruct b; [by exists (pending_slots q)|by destruct H4].
Qed.

(** ** Waiting for commands *)

Lemma reserve_keeps_stopping a r a' : reserve_command a = (r, a') -> stopping a' = stopping a.
Proof.
  unfold reserve_command. destruct (_ <=? _); [by intros [= _ <-]|].
  by destruct (checked_add _ _); intros [= _ <-].
Qed.

Lemma charge_keeps_stopping n q a r q' a' : charge_bytes n q a = (r, q', a') -> stopping a' = stopping a.
Proof. unfold charge_bytes. repeat case_match; by intros [= _ _ <-]. Qed.

(** A step that neither receives nor takes, and does not stop the worker. *)
Lemma waits_same h h' b l r :
  received h' = received h -> taken h' = taken h -> refused h' = refused h -> waits_fit h b l r -> waits_fit h' b l r.
Proof. intros E1 E2 E3 [H1 H2]. split; [done|]. by rewrite E1, E2, E3. Qed.

(** The worker that waits for nothing receives a placeholder, to wait for it. *)
Lemma waits_receive h b l n :
  waits_fit h b l [None] -> waits_fit (note_received (Pending n) h) b l [Some n].
Proof.
  intros [H1 H2]. split; [done|]. cbn. intros Hb m [Hm|Hm%list_elem_of_singleton]%elem_of_app.
  - destruct (H2 Hb m Hm) as [|[|Hr%list_elem_of_singleton]]; [by left|by right; left|done].
  - subst m. right. right. by left.
Qed.

(** A worker that stops may receive without waiting. *)
Lemma waits_stopping h h' l r r' : l <> [] -> forall b, waits_fit h b l r -> waits_fit h' b l r'.
Proof. intros Hl b [H1 _]. split; [done|]. by rewrite (H1 Hl). Qed.

(** The worker no longer waits for a slot it took the command of or found closed. *)
Lemma waits_done h h' b l n :
  received h' = received h -> (forall m, m ∈ taken h -> m ∈ taken h') -> (forall m, m ∈ refused h -> m ∈ refused h') ->
  n ∈ taken h' \/ n ∈ refused h' -> waits_fit h b l [Some n] -> waits_fit h' b l [None].
Proof.
  intros E Ht Hr Hn [H1 H2]. split; [done|]. rewrite E. intros Hb m Hm.
  destruct (H2 Hb m Hm) as [|[|Hw%list_elem_of_singleton]]; [left; auto|right; left; auto|].
  injection Hw as ->. destruct Hn; auto.
Qed.
