(* ===== verification/WorkerSafe.v ===== *)
(** * WorkerSafe: what the actions and programs of the worker do to the tokens

    [atomic H f Q]: from a state that fits, where the thread holds the tokens [H], the
    action [f] leads to a state that fits, where it holds tokens in [Q].  [safe] says so
    of a whole program, whatever other threads do between its steps. *)

From stdpp Require Import prelude strings gmap.
From Stdlib Require Import ZArith Lia ZifyBool.
From S2P Require Import Prelude Errors QValue Value Binding Native JsSnapshot WorkerOptions Worker WorkerTokens.

Definition atomic {B} (H : list token) (f : action B) (Q : B -> list token -> Prop) : Prop :=
  forall s R b s', inv s (H ++ R) -> f s = Some (b, s') -> exists H', inv s' (H' ++ R) /\ Q b H'.

Fixpoint safe {A} (H : list token) (m : prog A) (Q : A -> list token -> Prop) : Prop :=
  match m with
  | Ret a => exists H', H ≡ₚ H' /\ Q a H'
  | Act f rest => atomic H f (fun b H' => safe H' (rest b) Q)
  | Ask B rest => forall b, safe H (rest b) Q
  end.

(** ** The rules *)

Lemma atomic_perm {B} H H' (f : action B) Q : H ≡ₚ H' -> atomic H f Q -> atomic H' f Q.
Proof. intros HH Hf s R b s' Hi. apply Hf. eapply inv_perm; [|exact Hi]. by rewrite HH. Qed.

Lemma atomic_weaken {B} H (f : action B) (Q Q' : B -> list token -> Prop) :
  atomic H f Q -> (forall b H', Q b H' -> Q' b H') -> atomic H f Q'.
Proof. intros Hf HQ s R b s' Hi Hs. destruct (Hf s R b s' Hi Hs) as (H' & ? & ?). eauto. Qed.

(** What the thread holds besides stays. *)
Lemma atomic_frame {B} H F (f : action B) (Q Q' : B -> list token -> Prop) :
  atomic H f Q -> (forall b H', Q b H' -> Q' b (H' ++ F)) -> atomic (H ++ F) f Q'.
Proof.
  intros Hf HQ s R b s' Hi Hs. rewrite <- app_assoc in Hi. destruct (Hf s _ b s' Hi Hs) as (H' & Hi' & Hq).
  exists (H' ++ F). rewrite <- app_assoc. auto.
Qed.

Lemma safe_perm {A} H H' (m : prog A) Q : H ≡ₚ H' -> safe H m Q -> safe H' m Q.
Proof.
  revert H H'. induction m as [a|B f rest IH|B rest IH]; intros H H' HH; cbn [safe].
  - intros (H0 & ? & ?). exists H0. by rewrite <- HH.
  - by apply atomic_perm.
  - intros Hm b. by eapply IH.
Qed.

Lemma safe_weaken {A} H (m : prog A) (Q Q' : A -> list token -> Prop) :
  safe H m Q -> (forall a H', Q a H' -> Q' a H') -> safe H m Q'.
Proof.
  revert H. induction m as [a|B f rest IH|B rest IH]; intros H Hm HQ; cbn [safe] in *.
  - destruct Hm as (H' & ? & ?). eauto.
  - eapply atomic_weaken; [exact Hm|]. intros b H' Hb. by apply IH.
  - intros b. by apply IH.
Qed.

Lemma safe_prog_bind {A B} H (m : prog A) (f : A -> prog B) Q :
  safe H m (fun a H' => safe H' (f a) Q) -> safe H (m ≫= f) Q.
Proof.
  revert H. induction m as [a|C g rest IH|C rest IH]; intros H Hm; cbn [safe] in Hm.
  - destruct Hm as (H' & HH & Hf). by eapply safe_perm.
  - change (atomic H g (fun c H' => safe H' (rest c ≫= f) Q)). eapply atomic_weaken; [exact Hm|].
    intros c H' Hc. by apply IH.
  - change (forall c, safe H (rest c ≫= f) Q). intros c. by apply IH.
Qed.

Lemma safe_act {B} H (f : action B) Q : atomic H f Q -> safe H (act f) Q.
Proof. intros Hf. eapply atomic_weaken; [exact Hf|]. intros b H' Hq. by exists H'. Qed.

Lemma safe_prog_ret {A} H (a : A) (Q : A -> list token -> Prop) : Q a H -> safe H (mret a) Q.
Proof. intros Hq. by exists H. Qed.

(** A program runs beside tokens it does not need. *)
Lemma safe_frame {A} H F (m : prog A) (Q Q' : A -> list token -> Prop) :
  safe H m Q -> (forall a H', Q a H' -> Q' a (H' ++ F)) -> safe (H ++ F) m Q'.
Proof.
  revert H. induction m as [a|B f rest IH|B rest IH]; intros H Hm HQ; cbn [safe] in *.
  - destruct Hm as (H' & HH & ?). exists (H' ++ F). by rewrite HH; auto.
  - eapply atomic_frame; [exact Hm|]. intros b H' Hb. by apply IH.
  - intros b. by apply IH.
Qed.

(** ** Where tokens move *)

Lemma inv_frame s H R : inv s (H ++ R) <-> fits s (H ++ (R ++ held_tokens s)).
Proof. unfold inv. by rewrite app_assoc. Qed.

Definition slot_held (s : Shared) (n : nat) : list token :=
  match slots s !! n with Some v => slot_tokens (n, v) | None => [] end.
Definition permit_held (s : Shared) (n : nat) : list token :=
  match permits s !! n with Some v => permit_tokens (n, v) | None => [] end.

Lemma map_tokens_insert_any {A} (f : nat * A -> list token) m n w :
  match m !! n with Some v => f (n, v) | None => [] end ++ map_tokens f (<[n := w]> m)
  ≡ₚ f (n, w) ++ map_tokens f m.
Proof.
  destruct (m !! n) as [v|] eqn:E; [by apply map_tokens_update|]. by rewrite map_tokens_insert.
Qed.

Lemma held_slots s s' n w :
  slots s' = <[n := w]> (slots s) -> permits s' = permits s -> queue s' = queue s ->
  slot_held s n ++ held_tokens s' ≡ₚ slot_tokens (n, w) ++ held_tokens s.
Proof.
  intros Hs Hp Hq. unfold held_tokens, slot_held. rewrite Hs, Hp, Hq.
  pose proof (map_tokens_insert_any slot_tokens (slots s) n w) as H.
  transitivity (map_tokens permit_tokens (permits s)
    ++ (match slots s !! n with Some v => slot_tokens (n, v) | None => [] end
        ++ map_tokens slot_tokens (<[n:=w]> (slots s))) ++ (queue s ≫= command_tokens)).
  { solve_Permutation. }
  rewrite H. solve_Permutation.
Qed.

Lemma held_permits s s' n w :
  permits s' = <[n := w]> (permits s) -> slots s' = slots s -> queue s' = queue s ->
  permit_held s n ++ held_tokens s' ≡ₚ permit_tokens (n, w) ++ held_tokens s.
Proof.
  intros Hp Hs Hq. unfold held_tokens, permit_held. rewrite Hs, Hp, Hq.
  pose proof (map_tokens_insert_any permit_tokens (permits s) n w) as H.
  rewrite app_assoc, H. solve_Permutation.
Qed.

(** The next state fits, up to the order of the tokens. *)
Lemma inv_moved s' H R X : fits s' X -> X ≡ₚ H ++ R ++ held_tokens s' -> inv s' (H ++ R).
Proof. intros Hf HX. apply inv_frame. by eapply fits_perm. Qed.

(** ** Actions on atomics and the admission *)

Ltac fit_parts :=
  repeat match goal with H : fits _ _ |- _ => destruct H end; split; try eassumption.

(** An action that leaves the parts of the state alone. *)
Lemma atomic_same {B} (f : action B) :
  (forall s b s', f s = Some (b, s') ->
     admission s' = admission s
     /\ slots s' = slots s /\ permits s' = permits s /\ queue s' = queue s
     /\ receiver_alive s' = receiver_alive s /\ replies s' = replies s /\ history s' = history s) ->
  atomic [] f (fun _ H => H = []).
Proof.
  intros Hf s R b s' Hi Hs. destruct (Hf _ _ _ Hs) as (Ha & Hsl & Hp & Hq & Hr & Hre & Hh).
  exists []. split; [|done]. apply (inv_moved s' [] R ([] ++ R ++ held_tokens s)).
  - apply inv_frame in Hi. destruct Hi. split; by rewrite ?Ha, ?Hsl, ?Hq, ?Hr, ?Hre, ?Hh.
  - unfold held_tokens. by rewrite Hsl, Hp, Hq.
Qed.

Lemma load_stopping_atomic : atomic [] load_stopping (fun _ H => H = []).
Proof. apply atomic_same. by intros s b s' [= <- <-]. Qed.
Lemma load_generation_atomic : atomic [] load_generation (fun _ H => H = []).
Proof. apply atomic_same. by intros s b s' [= <- <-]. Qed.
Lemma bump_generation_atomic : atomic [] bump_generation (fun _ H => H = []).
Proof. apply atomic_same. by intros s b s' [= <- <-]. Qed.
Lemma close_sender_atomic : atomic [] close_sender (fun _ H => H = []).
Proof. apply atomic_same. by intros s b s' [= <- <-]. Qed.

(** Whoever stops the worker knows that it is stopping. *)
Lemma store_stopping_stops : atomic [] store_stopping (fun _ H => H = [TStopped]).
Proof.
  intros s R b s' Hi [= <- <-]. eexists. split; [|done]. apply inv_frame. apply inv_frame in Hi.
  destruct Hi as [[] Hs Hr Hh Hw]. by split.
Qed.

(** What is known may be forgotten. *)
Lemma inv_forget s X R : inv s (X ++ TStopped :: R) -> inv s (X ++ R).
Proof.
  intros Hi. eapply inv_perm in Hi; [|symmetry; apply Permutation_middle].
  change (fits s ([TStopped] ++ ((X ++ R) ++ held_tokens s))) in Hi. destruct Hi as [Ha Hs Hr Hh [Hw1 Hw2]].
  split; [exact Ha|exact Hs|exact Hr|exact Hh|]. split; [intros _; by apply Hw1|exact Hw2].
Qed.

Lemma store_stopping_atomic : atomic [] store_stopping (fun _ H => H = []).
Proof.
  intros s R b s' Hi Hf. destruct (store_stopping_stops s R b s' Hi Hf) as (H' & Hi' & ->).
  exists []. split; [|done]. exact (inv_forget s' [] R Hi').
Qed.

Lemma lock_reserve_atomic :
  atomic [] lock_reserve (fun r H =>
    match r with
    | Ok p => exists o, p = MkPermit o (Some (MkReservation 0)) /\ H = [TReservation 0]
    | Err _ | Panicked => H = []
    | OutOfFuel => False
    end).
Proof.
  intros s R r s' Hi. unfold lock_reserve. destruct (reserve_command _) as [r' a] eqn:E. intros [= -> <-].
  apply inv_frame in Hi. pose proof (admission_reserve_fits _ _ _ _ (fit_admission _ _ Hi) E) as H.
  destruct r as [p|e| |].
  - destruct H as (o & -> & Ha). exists [TReservation 0]. split; [|by exists o]. apply inv_frame.
    pose proof (reserve_keeps_stopping _ _ _ E) as Hstop. fit_parts. cbn [admission with_admission]. by rewrite Hstop.
  - subst a. exists []. split; [|done]. apply inv_frame. fit_parts.
  - subst a. exists []. split; [|done]. apply inv_frame. fit_parts.
  - done.
Qed.

Lemma lock_charge_atomic n b :
  0 <= n ->
  atomic [TReservation b] (lock_charge n (MkReservation b)) (fun x H =>
    x.1 <> Panicked /\ x.1 <> OutOfFuel /\ H = [TReservation (reserved_bytes x.2)]).
Proof.
  intros Hn s R r s' Hi. unfold lock_charge. destruct (charge_bytes _ _ _) as [[r' q] a] eqn:E. intros [= <- <-].
  apply inv_frame in Hi.
  destruct (admission_charge_fits _ _ _ _ _ _ _ Hn (fit_admission _ _ Hi) E) as ((b' & -> & Ha) & ? & ?).
  exists [TReservation b']. split; [|done]. apply inv_frame. pose proof (charge_keeps_stopping _ _ _ _ _ _ E) as Hstop.
  fit_parts. cbn [admission with_admission]. by rewrite Hstop.
Qed.

Lemma lock_drop_atomic r : atomic [TReservation (reserved_bytes r)] (lock_drop r) (fun _ H => H = []).
Proof.
  intros s R b s' Hi [= <- <-]. exists []. split; [|done]. apply inv_frame. apply inv_frame in Hi.
  destruct r as [n]. pose proof (admission_drop_fits _ _ _ (fit_admission _ _ Hi)). fit_parts.
Qed.

(** ** Actions on slots *)

Lemma new_slot_atomic : atomic [] new_slot (fun n H => H = [TRight n; TPlaceholder n]).
Proof.
  intros s R n s' Hi. unfold new_slot. intros [= <- <-]. apply inv_frame in Hi.
  eexists. split; [|done]. eapply inv_moved.
  - pose proof (slots_new_fits _ _ _ (fit_slots _ _ Hi)) as Hs. destruct Hi as [Ha _ Hr Hh Hw].
    instantiate (1 := [TRight _; TPlaceholder _] ++ R ++ held_tokens s). split; [exact Ha|exact Hs|exact Hr|exact Hh|exact Hw].
  - rewrite !app_assoc. f_equiv.
    pose proof (held_slots s (with_slots (<[fresh (dom (slots s)) := None]> (slots s)) s) _ None eq_refl eq_refl eq_refl) as H.
    unfold slot_held in H. assert (slots s !! fresh (dom (slots s)) = None) as E by (by apply not_elem_of_dom, is_fresh).
    rewrite E in H. symmetry. exact H.
Qed.

(** A slot that held nothing holds nothing. *)
Lemma held_empty s n w :
  (forall o, slots s !! n <> Some (Some (Some o))) -> (forall o, w <> Some (Some o)) ->
  held_tokens (with_slots (<[n := w]> (slots s)) s) ≡ₚ held_tokens s.
Proof.
  intros Hn Hw. pose proof (held_slots s (with_slots (<[n := w]> (slots s)) s) n w eq_refl eq_refl eq_refl) as H.
  unfold slot_held in H. destruct w as [[o|]|]; [by destruct (Hw o)|..]; (destruct (slots s !! n) as [[[o|]|]|] eqn:E;
    [by destruct (Hn o)|exact H..]).
Qed.

Lemma slot_commit_atomic n o :
  atomic (TRight n :: operation_tokens o) (slot_commit n o)
    (fun committed H => H = if committed then [] else operation_tokens o).
Proof.
  intros s R b s' Hi. unfold slot_commit. apply inv_frame in Hi.
  assert (Hrefused : fits s (operation_tokens o ++ R ++ held_tokens s)).
  { destruct Hi as [Ha Hs Hr Hh Hw]. split; [exact Ha|exact (slots_forget_right _ _ _ _ Hs)|exact Hr|exact Hh|exact Hw]. }
  destruct (slots s !! n) as [[x|]|] eqn:E; intros [= <- <-]; [by exists (operation_tokens o); split; [by apply inv_frame|]| |
    by exists (operation_tokens o); split; [by apply inv_frame|]].
  exists []. split; [|done]. eapply inv_moved.
  - instantiate (1 := operation_tokens o ++ R ++ held_tokens s).
    pose proof (slots_commit_fits _ _ _ n o (fit_slots _ _ Hi) E) as Hs. destruct Hrefused. by split.
  - pose proof (held_slots s (with_slots (<[n := Some (Some o)]> (slots s)) s) n (Some (Some o)) eq_refl eq_refl eq_refl) as H.
    unfold slot_held in H. rewrite E in H. cbn [slot_tokens snd app] in H. rewrite H. solve_Permutation.
Qed.

Lemma slot_cancel_atomic n : atomic [] (slot_cancel n) (fun _ H => H = []).
Proof.
  intros s R b s' Hi. unfold slot_cancel.
  destruct (slots s !! n) as [[x|]|] eqn:E; intros [= <- <-]; exists []; (split; [try done|done]).
  eapply inv_moved.
  - instantiate (1 := [] ++ R ++ held_tokens s). apply inv_frame in Hi.
    pose proof (slots_close_fits _ _ _ n (fit_slots _ _ Hi) ltac:(congruence)). fit_parts.
  - rewrite held_empty; [done|congruence|congruence].
Qed.

(** A command found in a slot leaves it with its tokens. *)
Lemma held_taken s s' n o :
  slots s !! n = Some (Some (Some o)) ->
  slots s' = <[n := None]> (slots s) -> permits s' = permits s -> queue s' = queue s ->
  held_tokens s ≡ₚ operation_tokens o ++ held_tokens s'.
Proof.
  intros E Hs Hp Hq. pose proof (held_slots s s' n None Hs Hp Hq) as H. unfold slot_held in H. rewrite E in H.
  symmetry. exact H.
Qed.

Definition found_tokens (o : option Operation) : list token :=
  match o with Some o => operation_tokens o | None => [] end.

(** Failing a slot, by its placeholder, which may be kept. *)
Lemma slot_fail_keep n :
  atomic [TPlaceholder n] (slot_fail n) (fun o H => H = TPlaceholder n :: found_tokens o).
Proof.
  intros s R b s' Hi. unfold slot_fail. apply inv_frame in Hi.
  pose proof (fit_slots _ _ Hi) as Hs.
  destruct (slots s !! n) as [[[o|]|]|] eqn:E; intros [= <- <-]; (eexists; split; [|done]).
  - eapply inv_moved; [instantiate (1 := [TPlaceholder n] ++ R ++ held_tokens s)|].
    + pose proof (slots_take_fits _ _ _ n o Hs E). fit_parts.
    + rewrite (held_taken s (with_slots (<[n := None]> (slots s)) s) n o E) by done. cbn [found_tokens]. solve_Permutation.
  - eapply inv_moved; [instantiate (1 := [TPlaceholder n] ++ R ++ held_tokens s)|].
    + pose proof (slots_close_fits _ _ _ n Hs ltac:(congruence)). fit_parts.
    + by rewrite held_empty by congruence.
  - eapply inv_moved; [instantiate (1 := [TPlaceholder n] ++ R ++ held_tokens s)|].
    + pose proof (slots_close_fits _ _ _ n Hs ltac:(congruence)). fit_parts.
    + by rewrite held_empty by congruence.
  - eapply inv_moved; [instantiate (1 := [TPlaceholder n] ++ R ++ held_tokens s)|].
    + pose proof (slots_close_fits _ _ _ n Hs ltac:(congruence)). fit_parts.
    + by rewrite held_empty by congruence.
Qed.

(** ... or given up. *)
Lemma slot_fail_drop n : atomic [TPlaceholder n] (slot_fail n) (fun o H => H = found_tokens o).
Proof.
  intros s R b s' Hi Hf. destruct (slot_fail_keep n s R b s' Hi Hf) as (H' & Hi' & ->).
  exists (found_tokens b). split; [|done]. apply inv_frame in Hi'. apply inv_frame.
  pose proof (fit_slots _ _ Hi') as Hs. apply inv_frame in Hi. pose proof (fit_slots _ _ Hi) as Hs0.
  destruct Hi' as [Ha _ Hr Hh Hw].
  assert (slots_fit (slots s') (rights (found_tokens b ++ R ++ held_tokens s'))
            (placeholders (found_tokens b ++ R ++ held_tokens s'))) as Hs'; [|destruct b; by split].
  eapply (slots_forget_placeholder _ _ _ n); [destruct b; exact Hs|].
  unfold slot_fail in Hf. destruct (slots s !! n) as [[[o|]|]|] eqn:E; injection Hf as <- <-; [right|left..].
  all: cbn [slots with_slots]; rewrite lookup_insert_eq; try done. split; [done|].
  pose proof (slots_no_right _ _ _ n o Hs0 E) as Hn. rewrite elem_of_rights in Hn |- *. cbn [found_tokens].
  rewrite !elem_of_app in *. rewrite (held_taken s (with_slots (<[n := None]> (slots s)) s) n o E) in Hn by done.
  rewrite elem_of_app in Hn. intros [Hc|Hc]; [by repeat apply elem_of_cons in Hc as [Hc|Hc]; try done; apply elem_of_nil in Hc|].
  naive_solver.
Qed.

Lemma slot_wait_atomic n :
  atomic [TPlaceholder n; TReceiver (Some n)] (slot_wait n) (fun w H =>
    H = match w with
        | None => [TPlaceholder n; TReceiver (Some n)]
        | Some None => [TPlaceholder n; TReceiver None]
        | Some (Some o) => TReceiver None :: operation_tokens o
        end).
Proof.
  intros s R b s' Hi. unfold slot_wait. pose proof Hi as Hkeep. apply inv_frame in Hi. destruct Hi as [Ha Hs Hr Hh Hw].
  set (X := R ++ held_tokens s) in *.
  change (slots_fit (slots s) (rights X) (n :: placeholders X)) in Hs.
  change (history_fits (history s) (queue s) (receiver_alive s) (Some n :: receivers X)) in Hh.
  change (waits_fit (history s) (stopping (admission s)) (stops X) (Some n :: receivers X)) in Hw.
  assert (receivers X = []) as Hn.
  { destruct Hh as [H1 _ _ _ _]. destruct (receivers X); [done|cbn [length] in H1; lia]. }
  rewrite Hn in Hh, Hw.
  assert (forall o, stopping (admission s) = o ->
    (if o then Some (Some (@None Operation), s) else Some (None, s)) = Some (b, s') ->
    exists H', inv s' (H' ++ R) /\ H' = match b with
      | None => [TPlaceholder n; TReceiver (Some n)]
      | Some None => [TPlaceholder n; TReceiver None]
      | Some (Some o) => TReceiver None :: operation_tokens o
      end) as Hopen.
  { intros [] Hstop [= <- <-]; (eexists; split; [|done]); [|done]. apply inv_frame.
    change (fits s ([TPlaceholder n; TReceiver None] ++ X)). split; [exact Ha|exact Hs|exact Hr| |].
    - change (history_fits (history s) (queue s) (receiver_alive s) (None :: receivers X)). rewrite Hn.
      by eapply history_done_fits.
    - split; [by intros _|]. by rewrite Hstop. }
  destruct (slots s !! n) as [[[o|]|]|] eqn:E; [| |by apply Hopen..].
  - intros [= <- <-]. eexists. split; [|done].
    eapply inv_moved; [instantiate (1 := [TReceiver None] ++ X)|].
    + split; [exact Ha| |exact Hr| |].
      * apply (slots_forget_placeholder _ _ _ n); [exact (slots_take_fits _ _ _ n o Hs E)|]. right.
        cbn [slots with_queue with_slots]. rewrite lookup_insert_eq. split; [done|]. exact (slots_no_right _ _ _ n o Hs E).
      * change (receivers ([TReceiver None] ++ X)) with (None :: receivers X). rewrite Hn. by apply history_take_fits.
      * change (receivers ([TReceiver None] ++ X)) with (None :: receivers X). rewrite Hn.
        eapply (waits_done (history s) _ _ _ n); [done| |done| |exact Hw]; cbn; [|left]; set_solver.
    + unfold X. match goal with |- context [held_tokens (with_queue ?q ?h ?s1)] =>
        rewrite (held_taken s (with_queue q h s1) n o E) by done end. solve_Permutation.
  - intros [= <- <-]. eexists. split; [|done].
    eapply inv_moved; [instantiate (1 := [TPlaceholder n; TReceiver None] ++ X)|].
    + split; [exact Ha| |exact Hr| |].
      * exact (slots_reopen_fits _ _ _ n Hs ltac:(by left) ltac:(congruence)).
      * change (receivers ([TPlaceholder n; TReceiver None] ++ X)) with (None :: receivers X). rewrite Hn.
        by eapply history_refuse_fits.
      * change (receivers ([TPlaceholder n; TReceiver None] ++ X)) with (None :: receivers X). rewrite Hn.
        eapply (waits_done (history s) _ _ _ n); [done|done| | |exact Hw]; cbn; [|right]; set_solver.
    + match goal with |- context [held_tokens (with_queue ?q ?h ?s1)] =>
        change (held_tokens (with_queue q h s1)) with (held_tokens s1) end. by rewrite held_empty by congruence.
Qed.

(** ** The channel *)

Lemma held_queue s q h :
  held_tokens (with_queue q h s)
  = map_tokens permit_tokens (permits s) ++ map_tokens slot_tokens (slots s) ++ (q ≫= command_tokens).
Proof. done. Qed.

Lemma try_send_atomic c :
  atomic (command_tokens c) (try_send c) (fun r H => H = match r with Sent => [] | _ => command_tokens c end).
Proof.
  intros s R b s' Hi. unfold try_send. destruct (receiver_alive s) eqn:Ea; cbn [negb].
  2: { intros [= <- <-]. by eexists. }
  destruct (_ <=? _); intros [= <- <-]; [by eexists|]. exists []. split; [|done].
  eapply inv_moved; [instantiate (1 := command_tokens c ++ R ++ held_tokens s)|].
  - apply inv_frame in Hi. destruct Hi as [Ha Hs Hr Hh Hw]. rewrite Ea in Hh.
    pose proof (history_send_fits _ _ c _ Hh) as Hh'. split; [exact Ha|exact Hs|exact Hr| |].
    + cbn. rewrite Ea. exact Hh'.
    + eapply waits_same; [..|exact Hw]; by destruct c.
  - rewrite held_queue. unfold held_tokens. rewrite bind_app. cbn. solve_Permutation.
Qed.

(** The receiver is the only one. *)
Lemma receiver_alone R s o h q b :
  history_fits h q b (receivers ([TReceiver o] ++ R ++ held_tokens s)) ->
  receivers ([TReceiver o] ++ R ++ held_tokens s) = [o] /\ receivers (R ++ held_tokens s) = [].
Proof.
  intros [H1 _ _ _ _]. cbn in H1 |- *. unfold receivers in *. destruct (omap _ (R ++ held_tokens s)); [done|].
  cbn in H1. lia.
Qed.

(** The history and the waiting of a worker that waits for nothing. *)
Lemma receiver_history s R :
  inv s ([TReceiver None] ++ R) ->
  history_fits (history s) (queue s) (receiver_alive s) [None]
  /\ waits_fit (history s) (stopping (admission s)) (stops (R ++ held_tokens s)) [None].
Proof.
  intros Hi%inv_frame. destruct Hi as [_ _ _ Hh Hw]. destruct (receiver_alone _ _ _ _ _ _ Hh) as [E _].
  rewrite E in Hh, Hw. by split.
Qed.

Lemma pop_atomic (s : Shared) R c q h (o : option nat) :
  queue s = c :: q -> inv s ([TReceiver None] ++ R) ->
  history_fits h q (receiver_alive s) [o] ->
  waits_fit h (stopping (admission s)) (stops (R ++ held_tokens s)) [o] ->
  inv (with_queue q h s) ((TReceiver o :: command_tokens c) ++ R).
Proof.
  intros Eq Hi Hh Hw. eapply inv_moved; [instantiate (1 := [TReceiver o] ++ R ++ held_tokens s)|].
  - apply inv_frame in Hi. destruct Hi as [Ha Hs Hr Hh0 Hw0]. destruct (receiver_alone _ _ _ _ _ _ Hh0) as [_ Hn].
    split; [exact Ha|exact Hs|exact Hr|..];
      change (receivers ([TReceiver o] ++ R ++ held_tokens s)) with (o :: receivers (R ++ held_tokens s));
      rewrite Hn; [exact Hh|exact Hw].
  - rewrite held_queue. unfold held_tokens. rewrite Eq, bind_cons. cbn. solve_Permutation.
Qed.

(** A worker that is stopping receives what it does not wait for. *)
Lemma try_recv_atomic :
  atomic [TReceiver None; TStopped] try_recv (fun o H =>
    H = TReceiver None :: TStopped :: match o with Some c => command_tokens c | None => [] end).
Proof.
  intros s R b s' Hi. unfold try_recv. destruct (queue s) as [|c q] eqn:Eq; intros [= <- <-]; [by eexists|].
  eexists. split; [|done]. destruct (receiver_history s (TStopped :: R) Hi) as [Hh Hw]. rewrite Eq in Hh.
  assert (inv (with_queue q (note_received c (history s)) s) ((TReceiver None :: command_tokens c) ++ TStopped :: R)) as Hp.
  { apply (pop_atomic _ _ _ _ _ None Eq Hi); [by apply history_receive_fits|].
    eapply (waits_stopping (history s)); [|exact Hw]. done. }
  eapply inv_perm; [|exact Hp]. solve_Permutation.
Qed.

Lemma recv_atomic :
  atomic [TReceiver None] recv (fun o H =>
    H = match o with
        | Some (Pending n) => [TReceiver (Some n); TPlaceholder n]
        | Some c => TReceiver None :: command_tokens c
        | None => [TReceiver None]
        end).
Proof.
  intros s R b s' Hi. unfold recv. destruct (receiver_history s R Hi) as [Hh Hw].
  destruct (queue s) as [|c q] eqn:Eq.
  { destruct (sender_alive s); [done|]. intros [= <- <-]. by eexists. }
  intros [= <- <-]. eexists. split; [|done]. destruct c as [n|o|].
  - apply (pop_atomic _ _ _ _ _ (Some n) Eq Hi); [by apply history_pending_fits|by apply waits_receive].
  - apply (pop_atomic _ _ _ _ _ None Eq Hi); [by apply (history_receive_fits _ (Run o))|done].
  - apply (pop_atomic _ _ _ _ _ None Eq Hi); [by apply (history_receive_fits _ Stop)|done].
Qed.

Lemma close_receiver_atomic :
  atomic [TReceiver None; TStopped] close_receiver (fun l H => H = l ≫= command_tokens).
Proof.
  intros s R b s' Hi0 [= <- <-]. pose proof (inv_forget s [TReceiver None] R Hi0) as Hi.
  destruct (receiver_history s R Hi) as [Hh Hw].
  eexists. split; [|done]. eapply inv_moved; [instantiate (1 := R ++ held_tokens s)|].
  - apply inv_frame in Hi. destruct Hi as [Ha Hs Hr Hh0 Hw0]. destruct (receiver_alone _ _ _ _ _ _ Hh0) as [_ Hn].
    split; [exact Ha|exact Hs|exact Hr|..]; rewrite Hn; cbn [history queue receiver_alive admission].
    + by eapply history_close_fits.
    + destruct Hw as [H1 H2]. split; [done|]. intros Hb m Hm.
      destruct (H2 Hb m Hm) as [|[|Hr'%list_elem_of_singleton]]; [by left|by right; left|done].
  - unfold held_tokens. cbn [permits slots queue]. rewrite app_nil_r. solve_Permutation.
Qed.

(** ** Promises and permits *)

Lemma new_promise_atomic : atomic [] new_promise (fun p H => H = [TPromise p]).
Proof.
  intros s R b s' Hi [= <- <-]. eexists. split; [|done]. apply inv_frame. apply inv_frame in Hi.
  destruct Hi as [Ha Hs Hr Hh Hw]. pose proof (replies_new_fits _ _ Hr) as Hr'.
  split; [exact Ha|exact Hs|exact Hr'|exact Hh|exact Hw].
Qed.

Lemma resolve_atomic p r : atomic [TPromise p] (resolve p r) (fun _ H => H = []).
Proof.
  intros s R b s' Hi [= <- <-]. exists []. split; [|done]. apply inv_frame. apply inv_frame in Hi.
  destruct Hi as [Ha Hs Hr Hh Hw]. pose proof (replies_resolve_fits _ p _ r Hr) as Hr'.
  split; [exact Ha|exact Hs|exact Hr'|exact Hh|exact Hw].
Qed.

(** Whoever has a right finds no other, so a permit that is stored replaces nothing. *)
Lemma store_permit_atomic n o b :
  atomic [TReservation b; TRight n] (store_permit n (MkPermit o (Some (MkReservation b)))) (fun _ H => H = []).
Proof.
  intros s R u s' Hi [= <- <-]. exists []. split; [|done].
  eapply inv_moved; [instantiate (1 := [TReservation b; TRight n] ++ R ++ held_tokens s)|].
  - apply inv_frame in Hi. by destruct Hi.
  - pose proof (held_permits s (with_permits (<[n := MkQueuedPermit (MkPermit o (Some (MkReservation b))) n]> (permits s)) s)
      n _ eq_refl eq_refl eq_refl) as H.
    assert (permit_held s n = []) as E.
    { unfold permit_held. destruct (permits s !! n) as [[[o' [r|]] k]|] eqn:E; [|done..]. exfalso.
      apply inv_frame in Hi. destruct (fit_slots _ _ Hi) as [Hn _ _ _]. apply NoDup_cons in Hn as [Hn _].
      apply Hn, elem_of_rights, elem_of_app. right. unfold held_tokens. apply elem_of_app. left.
      rewrite (map_tokens_delete permit_tokens (permits s) n _ E), elem_of_app. left. right. left. }
    rewrite E in H. cbn [app] in H. rewrite H. solve_Permutation.
Qed.

Lemma take_uncommitted_cases c p r p' :
  take_uncommitted_for c p = (r, p') ->
  match r with
  | Ok q => reservation p = Some q /\ reservation p' = None
  | Err _ => p' = p
  | _ => False
  end.
Proof.
  unfold take_uncommitted_for. destruct (_ || _); [by intros [= <- <-]|].
  destruct (reservation p) as [q|] eqn:E; by intros [= <- <-].
Qed.

Lemma take_permit_atomic n :
  atomic [] (take_permit n) (fun r H =>
    match r with
    | Ok q => H = [TReservation (reserved_bytes q); TRight n]
    | Err _ => H = []
    | _ => False
    end).
Proof.
  intros s R r s' Hi. unfold take_permit. destruct (permits s !! n) as [[p k]|] eqn:E; [|intros [= <- <-]; by exists []].
  destruct (take_uncommitted_for _ _) as [r' p'] eqn:Et. intros [= <- <-]. apply take_uncommitted_cases in Et.
  pose proof (held_permits s (with_permits (<[n := MkQueuedPermit p' k]> (permits s)) s) n _ eq_refl eq_refl eq_refl) as H.
  unfold permit_held in H. rewrite E in H. unfold permit_tokens in H. cbn [snd fst permit_admission] in H.
  apply inv_frame in Hi. destruct r' as [q|e| |]; try done.
  - destruct Et as [Hp Hp']. rewrite Hp, Hp' in H. cbn [reservation_tokens] in H. eexists. split; [|done].
    eapply inv_moved; [instantiate (1 := [] ++ R ++ held_tokens s); by destruct Hi|].
    cbn [app] in H |- *. rewrite <- H. solve_Permutation.
  - subst p'. apply Permutation_app_inv_l in H.
    exists []. split; [|done]. eapply inv_moved; [instantiate (1 := [] ++ R ++ held_tokens s); by destruct Hi|].
    by rewrite H.
Qed.

(** Tokens of a reservation and its right can be given back together. *)
Lemma drop_option_fits (s : Shared) (s' : Shared) n o X :
  fits s (reservation_tokens n o ++ X) ->
  admission s' = drop_option o (admission s) -> slots s' = slots s -> replies s' = replies s ->
  history s' = history s -> queue s' = queue s -> receiver_alive s' = receiver_alive s -> fits s' X.
Proof.
  intros [Ha Hs Hr Hh Hw] E1 E2 E3 E4 E5 E6. split; rewrite ?E1, ?E2, ?E3, ?E4, ?E5, ?E6.
  5: { assert (stopping (drop_option o (admission s)) = stopping (admission s)) as -> by (by destruct o).
       destruct o as [[b]|]; exact Hw. }
  - destruct o as [[b]|]; [|done]. exact (admission_drop_fits _ _ _ Ha).
  - destruct o as [[b]|]; [|done]. exact (slots_forget_right _ _ _ _ Hs).
  - destruct o as [[b]|]; exact Hr.
  - destruct o as [[b]|]; exact Hh.
Qed.

Lemma release_permit_atomic n :
  atomic [] (release_permit n) (fun r H => H = [] /\ r <> Panicked /\ r <> OutOfFuel).
Proof.
  intros s R r s' Hi. unfold release_permit. destruct (permits s !! n) as [[p k]|] eqn:E; [|intros [= <- <-]; by exists []].
  unfold release_for. destruct (_ || _).
  - intros [= <- <-]. exists []. split; [|done].
    pose proof (held_permits s (with_permits (<[n := MkQueuedPermit p k]> (permits s)) s) n _ eq_refl eq_refl eq_refl) as H.
    unfold permit_held in H. rewrite E in H. apply Permutation_app_inv_l in H.
    eapply inv_moved; [instantiate (1 := [] ++ R ++ held_tokens s); apply inv_frame in Hi; by destruct Hi|].
    change (held_tokens (with_admission (admission s) (with_permits (<[n:=MkQueuedPermit p k]> (permits s)) s)))
      with (held_tokens (with_permits (<[n:=MkQueuedPermit p k]> (permits s)) s)). by rewrite H.
  - intros [= <- <-]. exists []. split; [|done].
    set (s1 := with_permits (<[n := MkQueuedPermit (MkPermit (permit_owner p) None) k]> (permits s)) s).
    pose proof (held_permits s s1 n _ eq_refl eq_refl eq_refl) as H.
    unfold permit_held in H. rewrite E in H. unfold permit_tokens in H at 1 2. cbn [snd fst permit_admission reservation reservation_tokens app] in H.
    apply inv_frame. change (held_tokens (with_admission _ s1)) with (held_tokens s1).
    apply (drop_option_fits s _ n (reservation p)); try done. apply inv_frame in Hi.
    eapply fits_perm; [|exact Hi]. cbn [app]. rewrite <- H. solve_Permutation.
Qed.

Lemma forget_permit_atomic n :
  atomic [] (forget_permit n) (fun o H =>
    H = match o with Some p => reservation_tokens n (reservation p) | None => [] end).
Proof.
  intros s R o s' Hi. unfold forget_permit. destruct (permits s !! n) as [[p k]|] eqn:E; intros [= <- <-]; [|by exists []].
  eexists. split; [|done]. eapply inv_moved; [instantiate (1 := [] ++ R ++ held_tokens s); apply inv_frame in Hi; by destruct Hi|].
  unfold held_tokens. cbn [with_permits permits slots queue]. rewrite (map_tokens_delete permit_tokens _ _ _ E).
  change (permit_tokens (n, MkQueuedPermit p k)) with (reservation_tokens n (reservation p)). solve_Permutation.
Qed.

Lemma lock_drop_right_atomic r n :
  atomic [TReservation (reserved_bytes r); TRight n] (lock_drop r) (fun _ H => H = []).
Proof.
  intros s R b s' Hi Hf. assert (inv s ([TReservation (reserved_bytes r)] ++ R)) as Hi'.
  { apply inv_frame. apply inv_frame in Hi. destruct Hi as [Ha Hs Hr Hh Hw].
    split; [exact Ha|exact (slots_forget_right _ _ _ _ Hs)|exact Hr|exact Hh|exact Hw]. }
  exact (lock_drop_atomic r s R b s' Hi' Hf).
Qed.

(** ** Programs *)

Lemma safe_step {A B} H0 F H (f : action B) (k : B -> prog A) P Q :
  atomic H0 f P -> H0 ++ F ≡ₚ H -> (forall b H', P b H' -> safe (H' ++ F) (k b) Q) -> safe H (act f ≫= k) Q.
Proof. intros Hf HF Hk. eapply safe_perm; [exact HF|]. eapply atomic_frame; [exact Hf|done]. Qed.

Lemma safe_last {B} H0 F H (f : action B) P (Q : B -> list token -> Prop) :
  atomic H0 f P -> H0 ++ F ≡ₚ H -> (forall b H', P b H' -> Q b (H' ++ F)) -> safe H (act f) Q.
Proof.
  intros Hf HF HQ. eapply safe_perm; [exact HF|]. apply safe_act. eapply atomic_frame; [exact Hf|done].
Qed.

Lemma safe_sub {A B} H0 F H (m : prog B) (k : B -> prog A) P Q :
  safe H0 m P -> H0 ++ F ≡ₚ H -> (forall b H', P b H' -> safe (H' ++ F) (k b) Q) -> safe H (m ≫= k) Q.
Proof.
  intros Hm HF Hk. eapply safe_perm; [exact HF|]. apply safe_prog_bind. eapply safe_frame; [exact Hm|done].
Qed.

Lemma safe_ask {A B} H (k : B -> prog A) Q : (forall b, safe H (k b) Q) -> safe H (ask B ≫= k) Q.
Proof. done. Qed.

Ltac perm := cbn [app]; try solve_Permutation.

Abbreviation nothing := (fun _ H => H = []).

Lemma fail_operation_safe o e : safe (operation_tokens o) (fail_operation o e) nothing.
Proof.
  unfold fail_operation. eapply safe_step; [apply resolve_atomic|instantiate (1 := [TReservation _]); perm|].
  intros _ H' ->. eapply safe_last; [apply lock_drop_atomic|by rewrite app_nil_r|]. by intros _ H' ->.
Qed.

Lemma fail_slot_safe n e : safe [TPlaceholder n] (fail_slot n e) (fun _ H => H = [TPlaceholder n]).
Proof.
  unfold fail_slot. eapply safe_step; [apply slot_fail_keep|by rewrite app_nil_r|]. intros [o|] H' ->; cbn [found_tokens].
  - rewrite app_nil_r. eapply safe_perm; [apply (Permutation_app_comm (operation_tokens o) [TPlaceholder n])|].
    eapply safe_frame; [apply fail_operation_safe|]. by intros _ H' ->.
  - by apply safe_prog_ret.
Qed.

Lemma drop_placeholder_safe n : safe [TPlaceholder n] (drop_placeholder n) nothing.
Proof.
  unfold drop_placeholder, fail_slot. eapply safe_step; [apply slot_fail_drop|by rewrite app_nil_r|].
  intros [o|] H' ->; rewrite app_nil_r; [apply fail_operation_safe|by apply safe_prog_ret].
Qed.

Lemma fail_command_safe c e : safe (command_tokens c) (fail_command c e) nothing.
Proof.
  destruct c as [n|o|]; cbn [fail_command command_tokens]; [|apply fail_operation_safe|by apply safe_prog_ret].
  eapply safe_sub; [apply fail_slot_safe|by rewrite app_nil_r|]. intros _ H' ->. apply drop_placeholder_safe.
Qed.

Lemma drop_command_safe c : safe (command_tokens c) (drop_command c) nothing.
Proof.
  destruct c as [n|o|]; cbn [drop_command command_tokens]; [apply drop_placeholder_safe| |by apply safe_prog_ret].
  eapply safe_step; [apply lock_drop_atomic|instantiate (1 := [TPromise _]); perm|].
  intros _ H' ->. eapply safe_last; [apply resolve_atomic|by rewrite app_nil_r|]. by intros _ H' ->.
Qed.

Lemma drop_permit_safe n p : safe (reservation_tokens n (reservation p)) (drop_permit n p) nothing.
Proof.
  unfold drop_permit. eapply safe_step; [apply slot_cancel_atomic|cbn [app]; reflexivity|]. intros _ H' ->. cbn [app].
  destruct (reservation p) as [r|]; cbn [drop_reserved reservation_tokens]; [|by apply safe_prog_ret].
  eapply safe_last; [apply lock_drop_right_atomic|by rewrite app_nil_r|]. by intros _ H' ->.
Qed.

Lemma drop_prepared_safe n r :
  safe [TReservation (reserved_bytes r); TRight n] (drop_prepared n r) nothing.
Proof. exact (drop_permit_safe n (MkPermit (MkOwner 0 0) (Some r))). Qed.

Lemma create_deferred_safe :
  safe [] create_deferred (fun r H => match r with Ok p => H = [TPromise p] | Err _ => H = [] | _ => False end).
Proof.
  unfold create_deferred. apply safe_ask. intros [reason|]; [by apply safe_prog_ret|].
  eapply safe_step; [apply new_promise_atomic|cbn [app]; reflexivity|]. intros p H' ->. by apply safe_prog_ret.
Qed.

Lemma ready_result_safe r : safe [] (ready_result r) nothing.
Proof.
  unfold ready_result. eapply safe_sub; [apply create_deferred_safe|cbn [app]; reflexivity|].
  intros [p|reason| |] H' HH; try done; subst H'; [|by apply safe_prog_ret].
  eapply safe_step; [apply resolve_atomic|cbn [app]; reflexivity|]. intros _ H' ->. by apply safe_prog_ret.
Qed.

Lemma reserve_safe : safe [] reserve nothing.
Proof.
  unfold reserve. eapply safe_step; [apply load_stopping_atomic|cbn [app]; reflexivity|]. intros [] H' ->; [by apply safe_prog_ret|].
  eapply safe_step; [apply lock_reserve_atomic|cbn [app]; reflexivity|]. intros [p|e| |] H' HH; [|by subst; apply safe_prog_ret..|done].
  destruct HH as (o & -> & ->). eapply safe_step; [apply new_slot_atomic|cbn [app]; reflexivity|]. intros n H' ->.
  eapply safe_step; [apply (try_send_atomic (Pending n))|instantiate (1 := [TReservation 0; TRight n]); perm|].
  assert (Hpermit : safe [TReservation 0; TRight n] (drop_permit n (MkPermit o (Some (MkReservation 0)))) nothing)
    by exact (drop_permit_safe n (MkPermit o (Some (MkReservation 0)))).
  intros [] H' ->; cbn [command_tokens app].
  - eapply safe_step; [apply load_stopping_atomic|cbn [app]; reflexivity|]. intros [] H' ->.
    + eapply safe_step; [apply slot_cancel_atomic|cbn [app]; reflexivity|]. intros _ H' ->.
      eapply safe_sub; [exact Hpermit|cbn [app]; reflexivity|]. intros _ H' ->. by apply safe_prog_ret.
    + apply safe_ask. intros [reason|].
      * eapply safe_sub; [exact Hpermit|cbn [app]; reflexivity|]. intros _ H' ->. by apply safe_prog_ret.
      * eapply safe_step; [apply store_permit_atomic|by rewrite app_nil_r|]. intros _ H' ->. by apply safe_prog_ret.
  - eapply safe_sub; [apply drop_placeholder_safe|instantiate (1 := [TReservation 0; TRight n]); perm|]. intros _ H' ->.
    eapply safe_sub; [exact Hpermit|cbn [app]; reflexivity|]. intros _ H' ->. by apply safe_prog_ret.
  - eapply safe_sub; [apply drop_placeholder_safe|instantiate (1 := [TReservation 0; TRight n]); perm|]. intros _ H' ->.
    eapply safe_sub; [exact Hpermit|cbn [app]; reflexivity|]. intros _ H' ->. by apply safe_prog_ret.
Qed.

Lemma release_safe n : safe [] (release n) nothing.
Proof.
  unfold release. eapply safe_step; [apply release_permit_atomic|cbn [app]; reflexivity|].
  intros [|e| |] H' (-> & ? & ?); try done; [|by apply safe_prog_ret].
  eapply safe_step; [apply slot_cancel_atomic|cbn [app]; reflexivity|]. intros _ H' ->. by apply safe_prog_ret.
Qed.

Lemma cancel_safe : safe [] cancel nothing.
Proof.
  unfold cancel. eapply safe_step; [apply bump_generation_atomic|cbn [app]; reflexivity|]. intros _ H' ->. apply safe_ask.
  intros []; by apply safe_prog_ret.
Qed.

Lemma enqueue_reserved_safe n r job :
  safe [TReservation (reserved_bytes r); TRight n] (enqueue_reserved n r job) nothing.
Proof.
  unfold enqueue_reserved. eapply safe_sub; [apply create_deferred_safe|cbn [app]; reflexivity|].
  intros [p|reason| |] H' HH; try done; subst H'; cbn [app].
  - eapply safe_step; [apply (slot_commit_atomic n (MkOperation r job p))|by rewrite app_nil_r; perm|].
    intros [] H' ->; [by apply safe_prog_ret|]. rewrite app_nil_r.
    eapply safe_sub; [apply fail_operation_safe|by rewrite app_nil_r|]. intros _ H' ->. by apply safe_prog_ret.
  - eapply safe_step; [apply slot_cancel_atomic|cbn [app]; reflexivity|]. intros _ H' ->.
    eapply safe_sub; [apply drop_prepared_safe|by rewrite app_nil_r|]. intros _ H' ->. by apply safe_prog_ret.
Qed.

Lemma enqueue_permitted_safe n job : safe [] (enqueue_permitted n job) nothing.
Proof.
  unfold enqueue_permitted. eapply safe_step; [apply take_permit_atomic|cbn [app]; reflexivity|].
  intros [r|e| |] H' HH; try done; subst H'; [apply enqueue_reserved_safe|apply ready_result_safe].
Qed.

Lemma connect_call_safe n retries : safe [] (connect_call n retries) nothing.
Proof.
  unfold connect_call. destruct (safe_nonnegative_integer _ _ _); [apply enqueue_permitted_safe|by apply safe_prog_ret..].
Qed.

(** ** Snapshots that charge a reservation *)

Fixpoint charges_ok {Handle A} (m : script Handle A) : Prop :=
  match m with
  | Done _ => True
  | Charge bytes rest => 0 <= bytes /\ charges_ok rest
  | Call call rest => forall b, charges_ok (rest b)
  end.

Section Charges.
  Context {Handle : Type}.

Lemma charges_bind {A B} (m : script Handle A) (f : A -> script Handle B) :
  charges_ok m -> (forall a, charges_ok (f a)) -> charges_ok (m ≫= f).
Proof.
  intros Hm Hf. induction m as [m|bytes rest IH|C call rest IH]; cbn [charges_ok] in Hm.
  - destruct m; [apply Hf|done..].
  - destruct Hm as [Hb Hm]. split; [done|]. by apply IH.
  - intros b. apply IH, Hm.
Qed.

Lemma charges_done {A B} (m : bres A) (f : A -> script Handle B) :
  (forall a, m = Ok a -> charges_ok (f a)) -> charges_ok (Done m ≫= f).
Proof. intros Hf. destruct m; [by apply Hf|done..]. Qed.

Lemma charges_each {A} (f : Z -> script Handle A) count index :
  (forall i, charges_ok (f i)) -> charges_ok (each_index f index count).
Proof.
  intros Hf. revert index. induction count as [|count IH]; intros index; [done|].
  cbn [each_index]. apply charges_bind; [apply Hf|]. intros a. apply charges_bind; [apply IH|done].
Qed.

Lemma charges_when {A} b (m : script Handle A) : charges_ok m -> charges_ok (when b m).
Proof. intros Hm. destruct b; [|done]. by apply charges_bind. Qed.

Lemma charges_convert {A} field (c : node_call Handle (outcome string A)) : charges_ok (convert field c).
Proof. by intros b. Qed.
Lemma charges_status {A} (c : node_call Handle (outcome string A)) op : charges_ok (check_napi_status c op).
Proof. by intros b. Qed.
Lemma charges_pay {A} bytes (f : unit -> script Handle A) :
  0 <= bytes -> charges_ok (f tt) -> charges_ok (pay bytes ≫= f).
Proof. by split. Qed.

Context `{Allocator} `{Chrono} {Series DataFrame : Type} `{!NativeLibraries Series DataFrame}.

Lemma allocation_size_nonneg size length bytes : 0 <= length -> allocation_size size length = Ok bytes -> 0 <= bytes.
Proof.
  intros Hl Ha. apply ok_or_Ok in Ha. unfold checked_mul in Ha. destruct (_ <=? _) in Ha; [|done]. injection Ha as <-. lia.
Qed.

Lemma charges_property {T} object field (k : js_kind T) : charges_ok (Handle := Handle) (required_property object field k).
Proof. apply charges_bind; [apply charges_convert|done]. Qed.

Lemma charges_string object field maximum : charges_ok (Handle := Handle) (required_string_property object field maximum).
Proof.
  apply charges_bind; [apply charges_property|]. intros v. apply charges_bind; [apply charges_convert|]. intros n.
  destruct (_ <? _); [done|]. apply charges_pay; [lia|]. apply charges_convert.
Qed.

Lemma charges_keys object maximum description :
  charges_ok (Handle := Handle) (object_keys_limited object maximum description).
Proof.
  apply charges_bind; [apply charges_status|]. intros raw. apply charges_bind; [apply charges_convert|]. intros names.
  destruct (_ <? _); [done|]. apply charges_bind; [done|]. intros _. apply charges_each. intros i.
  apply charges_bind; [apply charges_convert|]. intros found. apply charges_bind; [done|]. intros key.
  apply charges_bind; [apply charges_convert|]. intros n. destruct (_ <? _); [done|]. apply charges_convert.
Qed.

Lemma charges_elements {A} object field size capacity element missing (copy : Handle -> script Handle A) :
  (forall h, charges_ok (copy h)) ->
  charges_ok (snapshot_elements object field size capacity element missing copy).
Proof.
  intros Hc. apply charges_bind; [apply charges_property|]. intros elements. apply charges_done. intros bytes Hb.
  apply allocation_size_nonneg in Hb; [|lia]. apply charges_pay; [done|]. apply charges_bind; [done|]. intros _.
  apply charges_each. intros i. apply charges_bind; [apply charges_convert|]. intros found.
  apply charges_bind; [done|]. apply Hc.
Qed.

Lemma charges_scalars object tag expected : charges_ok (Handle := Handle) (snapshot_scalars object tag expected).
Proof.
  unfold snapshot_scalars.
  apply charges_bind; [apply charges_when, charges_property|]. intros ?.
  apply charges_bind; [apply charges_when, charges_property|]. intros ?.
  apply charges_bind; [apply charges_when|intros ?].
  { apply charges_bind; [apply charges_property|]. intros v. apply charges_bind; [apply charges_convert|]. intros type.
    destruct (negb _); [done|]. apply charges_bind; [apply charges_status|]. intros [i lossless]. by destruct (negb _). }
  apply charges_bind; [apply charges_when, charges_string|]. intros ?.
  apply charges_bind; [apply charges_when, charges_string|]. intros ?.
  apply charges_bind; [apply charges_when|intros ?].
  { apply charges_bind; [apply charges_property|]. intros bytes. apply charges_pay; [lia|done]. }
  apply charges_bind; [apply charges_when|intros ?].
  { apply charges_bind; [apply charges_property|done]. }
  apply charges_bind; [apply charges_when|intros ?].
  { apply charges_bind; [apply charges_property|done]. }
  apply charges_bind; [apply charges_when, charges_property|done].
Qed.

Lemma charges_object (copy : Handle -> script Handle OwnedNativeValue) h :
  (forall h, charges_ok (copy h)) -> charges_ok (snapshot_unknown_object copy h).
Proof.
  intros Hc. apply charges_bind; [apply charges_convert|]. intros object.
  apply charges_bind; [apply charges_keys|]. intros keys. apply charges_bind; [done|]. intros actual.
  apply charges_bind; [apply charges_string|]. intros tag. apply charges_bind; [done|]. intros expected.
  apply charges_bind; [apply charges_scalars|]. intros scalars.
  apply charges_bind; [by apply charges_when, charges_elements|]. intros items.
  apply charges_bind; [|done]. apply charges_when, charges_elements. intros entry.
  apply charges_bind; [apply charges_convert|]. intros type. destruct (negb _); [done|].
  apply charges_bind; [apply charges_convert|]. intros eobject. apply charges_bind; [apply charges_keys|]. intros ekeys.
  destruct (negb _); [done|]. apply charges_bind; [apply charges_string|]. intros key.
  apply charges_bind; [apply charges_property|]. intros child. by apply charges_bind.
Qed.

Lemma charges_value fuel depth ancestors h :
  charges_ok (Handle := Handle) (snapshot_unknown_value fuel depth ancestors h).
Proof.
  revert depth ancestors h. induction fuel as [|fuel IH]; intros depth ancestors h; [done|].
  cbn [snapshot_unknown_value]. destruct (_ <? _); [done|].
  apply charges_bind; [apply charges_convert|]. intros type. destruct (negb _); [done|].
  apply charges_bind; [|intros _; apply charges_object; intros ?; apply IH].
  clear. induction ancestors as [|a ancestors IH]; [done|]. cbn [ensure_not_ancestor].
  apply charges_bind; [apply charges_status|]. by intros [].
Qed.

Lemma charges_array (values : JsArray Handle) maximum description :
  charges_ok (snapshot_array values maximum description).
Proof.
  unfold snapshot_array. match goal with |- charges_ok (if ?b then _ else _) => destruct b end; [done|]. apply charges_done. intros bytes Hb.
  apply allocation_size_nonneg in Hb; [|lia]. apply charges_pay; [done|]. apply charges_bind; [done|]. intros _.
  apply charges_each. intros i. apply charges_bind; [apply charges_convert|]. intros found.
  apply charges_bind; [done|]. intros value. apply charges_value.
Qed.
End Charges.

Lemma admitted_safe {Handle A} (m : script Handle A) limit remaining r :
  charges_ok m ->
  safe [TReservation (reserved_bytes r)] (admitted m limit remaining r)
    (fun x H => H = [TReservation (reserved_bytes x.2)]).
Proof.
  revert remaining r. induction m as [m|bytes rest IH|C call rest IH]; intros remaining r Hm; cbn [charges_ok admitted] in *.
  - by apply safe_prog_ret.
  - destruct Hm as [Hb Hm]. destruct (_ <? _); [by apply safe_prog_ret|]. destruct r as [b].
    eapply safe_step; [by apply lock_charge_atomic|by rewrite app_nil_r|].
    intros [[u|e| |] r] H' (? & ? & ->); cbn [fst snd] in *; try done; try (by apply safe_prog_ret). by apply IH.
  - intros b. by apply IH.
Qed.

Section Execution.
  Context `{Allocator} `{Chrono} {Series DataFrame : Type} `{!NativeLibraries Series DataFrame} {Handle : Type}.

Lemma abandon_safe n r e : safe [TReservation (reserved_bytes r); TRight n] (abandon n r e) nothing.
Proof.
  unfold abandon. eapply safe_sub; [apply ready_result_safe|cbn [app]; reflexivity|]. intros c H' ->.
  eapply safe_sub; [apply drop_prepared_safe|by rewrite app_nil_r|]. intros _ H' ->. by apply safe_prog_ret.
Qed.

Lemma drop_then_safe n r (c : CallResult) :
  safe [TReservation (reserved_bytes r); TRight n] (_ ← drop_prepared n r; mret c) nothing.
Proof. eapply safe_sub; [apply drop_prepared_safe|by rewrite app_nil_r|]. intros _ H' ->. by apply safe_prog_ret. Qed.

Lemma enqueue_execution_safe limit n (args : JsArray Handle) mode : safe [] (enqueue_execution limit n args mode) nothing.
Proof.
  unfold enqueue_execution. eapply safe_step; [apply take_permit_atomic|cbn [app]; reflexivity|].
  intros [r|e| |] H' HH; try done; subst H'; [|apply ready_result_safe]. cbn [app].
  apply safe_ask. intros [length|reason| |]; try apply drop_then_safe. cbv zeta.
  destruct (validate_expression_length _); try apply drop_then_safe; [|apply abandon_safe].
  destruct r as [b]. eapply safe_step; [apply lock_charge_atomic; lia|instantiate (1 := [TRight n]); perm|].
  intros [[u|e| |] r] H' (? & ? & ->); cbn [fst snd app] in *; try done; [|apply abandon_safe].
  apply safe_ask. intros [expression|reason| |]; try apply drop_then_safe.
  eapply safe_sub; [apply admitted_safe, charges_array|instantiate (1 := [TRight n]); perm|].
  intros [[copied|e| |] r'] H' ->; cbn [fst snd app] in *; [apply enqueue_reserved_safe|apply abandon_safe|apply drop_then_safe..].
Qed.
End Execution.

Lemma finalize_permit_safe n : safe [] (finalize_permit n) nothing.
Proof.
  unfold finalize_permit. eapply safe_step; [apply forget_permit_atomic|cbn [app]; reflexivity|].
  intros [p|] H' ->; [|by apply safe_prog_ret]. rewrite app_nil_r.
  eapply safe_sub; [apply drop_permit_safe|by rewrite app_nil_r|]. intros _ H' ->. by apply safe_prog_ret.
Qed.

Lemma drop_connector_safe : safe [] drop_connector nothing.
Proof.
  unfold drop_connector. eapply safe_step; [apply store_stopping_atomic|cbn [app]; reflexivity|]. intros _ H' ->.
  eapply safe_step; [apply bump_generation_atomic|cbn [app]; reflexivity|]. intros _ H' ->.
  apply safe_ask. intros _. eapply safe_step; [apply (try_send_atomic Stop)|cbn [app command_tokens]; reflexivity|].
  intros b H' HH. assert (H' = []) as -> by (by destruct b).
  eapply safe_step; [apply close_sender_atomic|cbn [app]; reflexivity|]. intros _ H' ->. by apply safe_prog_ret.
Qed.
