(* ===== verification/NativeSpec.v ===== *)
(** * NativeSpec: what crosses the binding comes back

    A value that JavaScript can say ([native_plain]), handed to it and handed back, is the
    same value. *)

From stdpp Require Import prelude strings.
From Stdlib Require Import ZArith Lia ZifyBool SpecFloat.
From S2P Require Import Prelude Errors Types Utf8 QValue Text Value SerializeFacts Float64 Binding SerdeSpec Native Sample.

(** What the libraries document: the texts of UUIDs and dates are read back, big integers
    are exact, and a timestamp is its seconds and nanoseconds. *)
Class NativeLaws `{Chrono} `{!NativeLibraries Series DataFrame} : Prop := {
  bigint_law v : in_i64 v = true -> get_i64 (MkBigInt (v <? 0) [Z.abs v]) = (v, true);
  uuid_law g : bytes_ok g -> length g = 16%nat -> uuid_parse (uuid_text g) = Ok g;
  date_law d : date_parse (date_text d) = Ok d;
  timestamp_law d n :
    timestamp_subsec_nanos d < NANOS_PER_SECOND -> timestamp_nanos_opt d = Some n -> from_timestamp (n / NANOS_PER_SECOND) (n mod NANOS_PER_SECOND) = Some d
}.

Section Spec.
  Context `{Chrono} `{!ChronoLaws} {Series DataFrame : Type} `{!SeriesEncoder Series DataFrame}.
  Context `{!NativeLibraries Series DataFrame} `{!NativeLaws}.

Abbreviation kval := (K Series DataFrame).

(** The values the binding can say: no series and tables (they cross as Arrow streams),
    timestamps q has, times and timestamps without leap seconds, reals that a number
    keeps ([f32_normal]), and lossless values whose length is a number. *)
Fixpoint native_plain (k : kval) : Prop :=
  match k with
  | KSeries _ | KDataFrame _ => False
  | KF32 bits => f32_normal bits
  | KDateTime d =>
    timestamp_subsec_nanos d < NANOS_PER_SECOND /\ forall n, timestamp_nanos_opt d = Some n -> MIN_Q_TIMESTAMP_UNIX_NANOS <= n
  | KTime t => nanosecond t < NANOS_PER_SECOND
  | KQValue q => 0 <= q_len q <= MAX_SAFE_INTEGER
  | KMixedList values => foldr (fun v rest => native_plain v /\ rest) True values
  | KDict entries => foldr (fun e rest => native_plain e.2 /\ rest) True entries
  | _ => True
  end.

(** ** What a snapshot holds *)

Lemma then_Ok {A B} (m : charged A) (f : A -> charged B) b r b' :
  then_ m f b = (Ok r, b') -> exists a b1, m b = (Ok a, b1) /\ f a b1 = (Ok r, b').
Proof. unfold then_. destruct (m b) as [[a|e| |] b1]; naive_solver. Qed.

Lemma traverse_list_Ok {A B} (f : A -> charged B) l b r b' :
  traverse_list f l b = (Ok r, b') -> Forall2 (fun a x => exists b b', f a b = (Ok x, b')) l r.
Proof.
  revert b r b'. induction l as [|a l IH]; intros b r b'; cbn [traverse_list].
  - intros [= <- <-]. constructor.
  - intros (x & b1 & Hx & Hr)%then_Ok. apply then_Ok in Hr as (rest & b2 & Hrest & Hr). injection Hr as <- <-.
    constructor; [by exists b, b1|by eapply IH].
Qed.

Lemma traverse_Ok {A B} (f : A -> charged B) o b r b' :
  traverse f o b = (Ok r, b') ->
  match o with
  | Some a => exists x b1, f a b = (Ok x, b1) /\ r = Some x
  | None => r = None
  end.
Proof.
  unfold traverse. destruct o as [a|].
  - intros (x & b1 & Hx & Hr)%then_Ok. injection Hr as <- <-. by exists x, b1.
  - by intros [= <- <-].
Qed.

Lemma free_option {A B} (f : A -> bres B) o b r b' :
  free (match o with Some a => x ← f a; Ok (Some x) | None => Ok None end) b = (Ok r, b') ->
  match o with
  | Some a => exists x, f a = Ok x /\ r = Some x
  | None => r = None
  end.
Proof.
  unfold free. intros [= Hm <-]. destruct o as [a|]; [|by injection Hm].
  apply bind_Ok in Hm as (x & Hx & Hm). injection Hm as <-. by exists x.
Qed.

Ltac then_inv H :=
  repeat match type of H with
  | then_ _ _ _ = (Ok _, _) =>
    let a := fresh "a" in let b := fresh "b" in let E := fresh "E" in
    apply then_Ok in H as (a & b & E & H)
  end.

Context `{Allocator}.

(** A list of values and its copy. *)
Definition copies (l : list NativeValue) (o : list OwnedNativeValue) : Prop :=
  Forall2 (fun v x => exists depth b b', snapshot v depth b = (Ok x, b')) l o.
Definition copies_entries (l : list (list Z * NativeValue)) (o : list (list Z * OwnedNativeValue)) : Prop :=
  Forall2 (fun e x => e.1 = x.1 /\ exists depth b b', snapshot e.2 depth b = (Ok x.2, b')) l o.

Lemma snapshot_Ok v depth b o b' :
  snapshot v depth b = (Ok o, b') ->
  o_tag o = tag v /\ o_bool o = bool_value v /\ o_number o = number_value v
  /\ (match bigint_value v with
      | Some n => exists i, bigint_to_i64 n = Ok i /\ o_bigint o = Some i
      | None => o_bigint o = None
      end)
  /\ o_string o = string_value v /\ o_context o = context v /\ o_bytes o = bytes_value v
  /\ (match items v with
      | Some l => exists x, o_items o = Some x /\ copies l x
      | None => o_items o = None
      end)
  /\ (match entries v with
      | Some l => exists x, o_entries o = Some x /\ copies_entries l x
      | None => o_entries o = None
      end)
  /\ o_type_code o = type_code v
  /\ (match length_ v with
      | Some n => exists i, number_to_usize n "length" = Ok i /\ o_length o = Some i
      | None => o_length o = None
      end)
  /\ o_is_table o = is_table v.
Proof.
  destruct v as [t vb vn vi vs vc vy vl ve vt vg vx]. cbn [snapshot]. intros Hs. then_inv Hs.
  cbn [bool_value number_value bigint_value string_value context bytes_value items entries type_code length_ is_table] in *.
  injection Hs as <- <-. cbn [o_tag o_bool o_number o_bigint o_string o_context o_bytes o_items o_entries o_type_code o_length o_is_table].
  split_and!; try done.
  - by apply (free_option bigint_to_i64) in E0.
  - apply (free_option (fun y => copy_bytes y "native bytes snapshot")) in E5. destruct vy as [y|]; [|done].
    destruct E5 as (x & Hx & ->). apply bind_Ok in Hx as ([] & _ & Hx). by injection Hx as ->.
  - apply traverse_Ok in E3. destruct vl as [l|]; [|done]. destruct E3 as (x & bx & Hx & ->). then_inv Hx.
    apply traverse_list_Ok in Hx. exists x. split; [done|]. eapply Forall2_impl; [exact Hx|].
    intros w y (bi & bo & Hw). by exists (depth + 1), bi, bo.
  - apply traverse_Ok in E4. destruct ve as [l|]; [|done]. destruct E4 as (x & bx & Hx & ->). then_inv Hx.
    apply traverse_list_Ok in Hx. exists x. split; [done|]. eapply Forall2_impl; [exact Hx|].
    intros [key v] [key' y] (bi & bo & He). then_inv He. injection He as <- <- <-. split; [done|]. by eexists _, _, _.
  - apply (free_option owned_type_code) in E1. destruct vt as [c|]; [|done].
    destruct E1 as (x & Hx & ->). unfold owned_type_code in Hx. destruct (between _ c _); [|done]. by injection Hx as ->.
  - by apply (free_option (fun n => number_to_usize n "length")) in E2.
Qed.

(** ** Values without values inside *)

Lemma name_of_bytes_of s : name_of_bytes (bytes_of_name s) = s.
Proof.
  unfold name_of_bytes. induction s as [|c s IH]; [done|]. cbn [bytes_of_name foldr].
  by rewrite Nat2Z.id, Ascii.ascii_nat_embedding, IH.
Qed.

Lemma set_bigint_read i j :
  in_i64 i = true -> bigint_to_i64 (MkBigInt (i <? 0) [Z.abs i]) = Ok j -> j = i.
Proof. intros Hi. unfold bigint_to_i64. rewrite bigint_law by done. by intros [= ->]. Qed.

Lemma number_length n : 0 <= n <= MAX_SAFE_INTEGER -> number_to_usize (number_of_integer n) "length" = Ok n.
Proof. intros Hn. unfold number_to_usize. rewrite safe_usize_number; [done|]. unfold MAX_SAFE_INTEGER in Hn. lia. Qed.

Lemma number_length_read n j :
  0 <= n <= MAX_SAFE_INTEGER -> number_to_usize (number_of_integer n) "length" = Ok j -> j = n.
Proof. intros Hn Hj. rewrite number_length in Hj by done. by injection Hj. Qed.

Lemma nanos_of_time t :
  nanosecond t < NANOS_PER_SECOND ->
  let nanos := num_seconds_from_midnight t * NANOS_PER_SECOND + nanosecond t in
  0 <= nanos < NANOS_PER_DAY /\ nanos / NANOS_PER_SECOND = num_seconds_from_midnight t
  /\ nanos mod NANOS_PER_SECOND = nanosecond t.
Proof.
  intros Hn. cbv zeta. pose proof (seconds_range t). pose proof (nanosecond_range t).
  unfold NANOS_PER_SECOND, NANOS_PER_DAY in *. split_and!; [lia..| |].
  - rewrite Z.add_comm, Z.div_add, Z.div_small by lia. lia.
  - rewrite Z.add_comm, Z.mod_add, Z.mod_small by lia. done.
Qed.

(** The copy of a value whose payload is one field. *)
Ltac copied Hs :=
  apply snapshot_Ok in Hs as (Qt & Qbool & Qnum & Qint & Qstr & Qctx & Qby & _ & _ & Qcode & Qlen & Qtab);
  unfold set_bigint, set_number, set_string, set_bytes, native_qvalue, set_tag, empty_native_value in *;
  cbn [tag bool_value number_value bigint_value string_value context bytes_value items entries type_code
       length_ is_table] in *;
  repeat match goal with
  | H : exists _, _ /\ _ |- _ => destruct H as (? & ? & ?)
  end.

(** [into_k] on a copy whose fields are known. *)
Ltac read_leaf :=
  match goal with
  | Qt : o_tag ?o = _ |- _ =>
    destruct o; cbn [o_tag o_bool o_number o_bigint o_string o_context o_bytes o_type_code o_length o_is_table] in *;
    subst; cbn -[integer_within f32_of_number QOperator_new QLambda_with_context timestamp_of_nanos time_of_nanos
                 owned_qvalue native_q_symbol in_i64 number_of_integer number_of_f32]
  end.

Lemma bigint_leaf_back t i v depth b o b' :
  in_i64 i = true -> v = set_bigint t i -> snapshot v depth b = (Ok o, b') ->
  o_tag o = t /\ o_bigint o = Some i.
Proof.
  intros Hi -> Hs. copied Hs. split; [done|].
  match goal with H : bigint_to_i64 _ = Ok _ |- _ => by rewrite (set_bigint_read _ _ Hi H) in * end.
Qed.

Lemma owned_qvalue_of o q :
  @from_owned_bytes unlimited (as_bytes q) = Ok q -> o_bytes o = Some (as_bytes q) ->
  o_type_code o = Some (q_type_code q) -> o_length o = Some (q_len q) -> o_is_table o = Some (q_is_table q) ->
  @owned_qvalue unlimited o = Ok q.
Proof.
  intros Hq Hy Hc Hn Ht. apply bind_Ok. exists (as_bytes q). split; [by rewrite Hy|].
  apply bind_Ok. exists q. split; [by rewrite Hq|].
  apply bind_Ok. exists (q_type_code q). split; [by rewrite Hc|]. rewrite Z.eqb_refl. cbn [negb].
  apply bind_Ok. exists (q_len q). split; [by rewrite Hn|]. rewrite Z.eqb_refl. cbn [negb].
  apply bind_Ok. exists (q_is_table q). split; [by rewrite Ht|]. by rewrite Bool.eqb_reflx.
Qed.

Lemma qvalue_back q depth b o b' :
  0 <= q_len q <= MAX_SAFE_INTEGER -> @from_owned_bytes unlimited (as_bytes q) = Ok q ->
  snapshot (native_qvalue q) depth b = (Ok o, b') ->
  o_tag o = "qvalue" /\ @owned_qvalue unlimited o = Ok q.
Proof.
  intros Hl Hq Hs. apply snapshot_Ok in Hs as (Qt & _ & _ & _ & _ & _ & Qby & _ & _ & Qcode & Qlen & Qtab).
  split; [exact Qt|]. destruct Qlen as (n & Hn & Qlen).
  apply (number_length_read _ _ Hl) in Hn as ->. by apply owned_qvalue_of.
Qed.

(** The branch of [into_leaf] a tag selects. *)
Ltac select_tag Qt := unfold into_leaf; rewrite Qt; cbn [String.eqb Ascii.eqb Bool.eqb].
Ltac field E := apply bind_Ok; eexists; split; [unfold required; rewrite E; reflexivity|].

Ltac typed_range Ht := cbn [typed] in Ht; unfold is_byte, in_i64, i32_min, i32_max, i64_min, i64_max in *; lia.

Lemma integer_back o lo hi v :
  lo <= v <= hi -> Z.abs v < 2 ^ 53 -> o_number o = Some (number_of_integer v) -> required_integer o lo hi = Ok v.
Proof.
  intros Hv Ha Hn. apply bind_Ok. eexists. split; [by rewrite Hn|].
  apply ok_or_Ok. by apply integer_within_number.
Qed.

Lemma f32_back bits : f32_normal bits -> f32_of_number (number_of_f32 bits) = Ok bits.
Proof.
  intros Hb. pose proof (f32_number bits Hb) as Hback. unfold f32_of_number. cbv zeta.
  assert (is_finite (f64_of_bits (number_of_f32 bits))
          && (SFltb (f64_of_bits (number_of_f32 bits)) F32_MIN || SFltb F32_MAX (f64_of_bits (number_of_f32 bits)))
          = false) as ->; [|by rewrite Hback].
  destruct (f32_bits_cases bits (proj1 Hb)) as [E|[Hf _]].
  - rewrite (proj2 Hb E). reflexivity.
  - by apply widened_bounds.
Qed.

Lemma timestamp_back d n :
  timestamp_subsec_nanos d < NANOS_PER_SECOND -> timestamp_nanos_opt d = Some n -> MIN_Q_TIMESTAMP_UNIX_NANOS <= n -> timestamp_of_nanos n = Ok d.
Proof.
  intros Hleap Hd Hmin. unfold timestamp_of_nanos. replace (n <? MIN_Q_TIMESTAMP_UNIX_NANOS) with false by lia.
  apply ok_or_Ok. by apply timestamp_law.
Qed.

Lemma time_back t n :
  nanosecond t < NANOS_PER_SECOND -> native_time t = Ok n ->
  exists nanos, n = set_bigint "time" nanos /\ in_i64 nanos = true /\ time_of_nanos nanos = Ok t.
Proof.
  intros Ht. destruct (nanos_of_time t Ht) as (Hday & Hdiv & Hmod). unfold native_time.
  set (nanos := num_seconds_from_midnight t * NANOS_PER_SECOND + nanosecond t) in *. cbv zeta.
  destruct (negb (nanos mod NANOS_PER_MILLISECOND =? 0)) eqn:Em; [done|]. intros [= <-].
  exists nanos. split; [done|]. unfold NANOS_PER_DAY in Hday. split; [unfold in_i64, i64_min, i64_max; lia|].
  unfold time_of_nanos, NANOS_PER_DAY. replace ((0 <=? nanos) && (nanos <? 86400000000000)) with true by lia.
  cbn [negb]. rewrite Em, Hdiv, Hmod. apply ok_or_Ok. apply time_roundtrip. unfold NANOS_PER_SECOND in Ht. lia.
Qed.

Lemma lambda_back l : lambda_ok l -> QLambda_with_context (lambda_source l) (lambda_context l) = Ok l.
Proof. by intros (_ & _ & ?). Qed.

Lemma leaf_back k n depth b o b' :
  leaf k -> typed k -> native_plain k -> native_leaf k = Ok n -> snapshot n depth b = (Ok o, b') ->
  o_tag o = tag n /\ @into_leaf unlimited _ _ _ _ o = Ok k
  /\ String.eqb (tag n) "list" = false /\ String.eqb (tag n) "dictionary" = false.
Proof.
  intros Hleaf Ht Hp Hn Hs. pose proof Hs as Hfields.
  apply snapshot_Ok in Hfields as (Qt & Qbool & Qnum & Qint & Qstr & Qctx & Qby & _ & _ & _ & _ & _).
  split; [done|]. destruct k; try done; cbn [native_leaf] in Hn.
  all: try (injection Hn as <-; split; [|done]; select_tag Qt).
  - by field Qbool.
  - field Qstr. apply bind_Ok. exists bytes. split; [|done]. by rewrite uuid_law by apply Ht.
  - apply bind_Ok. exists v. split; [|done]. apply integer_back; [typed_range Ht..|done].
  - apply bind_Ok. exists v. split; [|done]. apply integer_back; [typed_range Ht..|done].
  - apply bind_Ok. exists v. split; [|done]. apply integer_back; [typed_range Ht..|done].
  - destruct (bigint_leaf_back "i64" v _ _ _ _ _ ltac:(typed_range Ht) eq_refl Hs) as [_ E]. by field E.
  - field Qnum. apply bind_Ok. exists bits. split; [by apply f32_back|done].
  - by field Qnum.
  - apply bind_Ok. exists v. split; [|done]. apply integer_back; [typed_range Ht..|done].
  - by field Qby.
  - apply bind_Ok in Hn as ([] & Hv & Hn). injection Hn as <-. split; [|done]. select_tag Qt. field Qstr.
    apply bind_Ok. exists tt. split; [|done]. unfold native_q_symbol in *. by destruct (Text.contains_nul text).
  - by field Qstr.
  - apply bind_Ok in Hn as (nanos & Hd & Hn). injection Hn as <-. apply ok_or_Ok in Hd. split; [|done].
    select_tag Qt. pose proof (nanos_range _ _ Hd) as Hi. destruct Hp as [Hleap Hmin].
    destruct (bigint_leaf_back "timestamp" nanos _ _ _ _ _ Hi eq_refl Hs) as [_ E]. field E.
    apply bind_Ok. exists t. split; [|done]. apply timestamp_back; [done|done|by apply Hmin].
  - field Qstr. apply bind_Ok. exists d. split; [|done]. by rewrite date_law.
  - destruct (time_back _ _ Hp Hn) as (nanos & -> & Hi & Hback). split; [|done]. select_tag Qt.
    destruct (bigint_leaf_back "time" nanos _ _ _ _ _ Hi eq_refl Hs) as [_ E]. field E.
    apply bind_Ok. by exists t.
  - apply bind_Ok in Hn as (nanos & Hd & Hn). injection Hn as <-. apply ok_or_Ok in Hd. split; [|done].
    select_tag Qt. destruct (duration_roundtrip _ _ Hd) as [Hi Hback].
    destruct (bigint_leaf_back "timespan" nanos _ _ _ _ _ Hi eq_refl Hs) as [_ E]. field E. by rewrite Hback.
  - apply bind_Ok in Hn as (bytes & _ & Hn). injection Hn as <-. split; [|done]. select_tag Qt.
    destruct (qvalue_back _ _ _ _ _ Hp (proj2 Ht) Hs) as [_ E]. apply bind_Ok. by exists v.
  - field Qstr. apply bind_Ok. exists o0. split; [|done]. rewrite name_of_bytes_of.
    by rewrite (from_wire_new _ _ _ Ht).
  - field Qstr. field Qctx. apply bind_Ok. exists l. split; [|done]. by rewrite lambda_back.
  - done.
Qed.

(** ** Values with values inside *)

Lemma convert_list_Ok {A B} (f : A -> bres B) l r :
  convert_list f l = Ok r <-> Forall2 (fun a b => f a = Ok b) l r.
Proof.
  revert r. induction l as [|a l IH]; intros r; cbn [convert_list].
  - split; [intros [= <-]; constructor|]. by inversion 1.
  - rewrite bind_Ok. split.
    + intros (b & Hb & Hr). apply bind_Ok in Hr as (rest & Hrest & Hr). injection Hr as <-.
      constructor; [done|by apply IH].
    + inversion 1 as [|? b ? rest Hb Hrest]; subst. exists b. split; [done|].
      apply bind_Ok. exists rest. split; [by apply IH|done].
Qed.

Lemma convert_entries_Ok {A B} (f : A -> bres B) keys l (r : list (list Z * B)) :
  Forall2 (fun x e => x.1 = e.1 /\ Text.contains_nul e.1 = false /\ f x.2 = Ok e.2) l r ->
  NoDup (keys ++ map fst r) -> convert_entries f keys l = Ok r.
Proof.
  intros Hl. revert keys. induction Hl as [|[key a] [key' b] l r (Hkey & Hnul & Hb) _ IH]; intros keys Hnd; [done|].
  cbn [fst snd] in *. subst key'. cbn [convert_entries map fst] in *.
  apply bind_Ok. exists tt. split.
  - apply bind_Ok. exists tt. unfold native_q_symbol. rewrite Hnul. split; [done|].
    rewrite bool_decide_eq_false_2; [done|]. intros Hin.
    apply NoDup_app in Hnd as (_ & Hd & _). apply (Hd key Hin). by left.
  - apply bind_Ok. exists b. split; [done|]. apply bind_Ok. exists r. split; [|done].
    apply IH. by rewrite <- app_assoc.
Qed.

Definition native_back (k : kval) : Prop :=
  typed k -> native_plain k -> forall depth n level b o b',
  k_into_native_with_depth k depth = Ok n -> snapshot n level b = (Ok o, b') -> @into_k unlimited _ _ _ _ o = Ok k.

Lemma native_plain_list (values : list kval) : native_plain (KMixedList values) <-> Forall native_plain values.
Proof. apply foldr_Forall. Qed.

Lemma native_plain_dict (entries : list (list Z * kval)) :
  native_plain (KDict entries) <-> Forall (fun e => native_plain e.2) entries.
Proof. apply (foldr_Forall (fun e : list Z * kval => native_plain e.2)). Qed.

Lemma shallow {A} depth (m : bres A) r :
  (if MAX_NATIVE_DEPTH <? depth then cannot_convert nesting_message else m) = Ok r -> m = Ok r.
Proof. by destruct (_ <? _). Qed.

Lemma into_list o l :
  o_tag o = "list" -> o_items o = Some l ->
  @into_k unlimited _ _ _ _ o = (values ← convert_list (@into_k unlimited _ _ _ _) l; Ok (KMixedList values : kval)).
Proof. intros Ht Hl. destruct o as [t x1 x2 x3 x4 x5 x6 x7 x8 x9 x10 x11]. cbn [o_tag o_items] in *. by subst. Qed.

Lemma into_dictionary o l :
  o_tag o = "dictionary" -> o_entries o = Some l ->
  @into_k unlimited _ _ _ _ o = (entries ← convert_entries (@into_k unlimited _ _ _ _) [] l; Ok (KDict entries : kval)).
Proof. intros Ht Hl. destruct o as [t x1 x2 x3 x4 x5 x6 x7 x8 x9 x10 x11]. cbn [o_tag o_entries] in *. by subst. Qed.

Lemma list_back values : Forall native_back values -> native_back (KMixedList values).
Proof.
  intros IH Ht%typed_list Hp%native_plain_list depth n level b o b' Hn Hs.
  apply shallow, bind_Ok in Hn as ([] & _ & Hn). apply bind_Ok in Hn as (l & Hl & Hn). injection Hn as <-.
  apply snapshot_Ok in Hs as (Qt & _ & _ & _ & _ & _ & _ & Qitems & _). destruct Qitems as (x & Qitems & Hx).
  rewrite (into_list o x Qt Qitems). apply bind_Ok. exists values. split; [|done].
  apply convert_list_Ok in Hl. apply convert_list_Ok. clear -IH Ht Hp Hl Hx.
  revert x Hx. induction Hl as [|v w values l Hv _ IHl]; intros x Hx; inversion Hx as [|? y ? ys (d & bi & bo & Hy) Hys]; subst.
  { constructor. }
  inversion IH; inversion Ht; inversion Hp; subst. constructor; [by eauto|by apply IHl].
Qed.

Lemma dict_back entries : Forall (fun e => native_back e.2) entries -> native_back (KDict entries).
Proof.
  intros IH (Hnd & _ & Ht)%typed_dict Hp%native_plain_dict depth n level b o b' Hn Hs.
  apply shallow, bind_Ok in Hn as ([] & _ & Hn). apply bind_Ok in Hn as (l & Hl & Hn). injection Hn as <-.
  apply snapshot_Ok in Hs as (Qt & _ & _ & _ & _ & _ & _ & _ & Qentries & _). destruct Qentries as (x & Qentries & Hx).
  rewrite (into_dictionary o x Qt Qentries). apply bind_Ok. exists entries. split; [|done].
  apply convert_entries_Ok; [|done]. apply convert_list_Ok in Hl. clear -IH Ht Hp Hl Hx.
  revert x Hx. induction Hl as [|e w entries l He _ IHl]; intros x Hx; inversion Hx as [|? y ? ys (Hkey & d & bi & bo & Hy) Hys]; subst.
  { constructor. }
  inversion IH; inversion Ht; inversion Hp; subst. constructor; [|by apply IHl].
  apply bind_Ok in He as ([] & Hnul & He). apply bind_Ok in He as (v & Hv & He). injection He as <-.
  cbn [fst snd] in *. split_and!; [done| |by eauto]. unfold native_q_symbol in Hnul.
  by destruct (Text.contains_nul e.1).
Qed.

Lemma every_value_back k : native_back k.
Proof.
  induction k as [k Hleaf|values IH|entries IH] using K_nested_ind; [|by apply list_back|by apply dict_back].
  intros Ht Hp depth n level b o b' Hn Hs.
  assert (native_leaf k = Ok n) as Hn' by (destruct k; try done; by apply shallow in Hn).
  destruct (leaf_back _ _ _ _ _ _ Hleaf Ht Hp Hn' Hs) as (Qt & Hk & Hl & Hd).
  destruct o as [t x1 x2 x3 x4 x5 x6 x7 x8 x9 x10 x11]. cbn [o_tag] in Qt. cbn [into_k o_tag].
  rewrite <- Qt in Hl, Hd. by rewrite Hl, Hd.
Qed.

(** C16: what is handed to JavaScript and handed back is the same value, for the values
    the binding can say.  A value that [k_into_native] turns into an object and
    [OwnedNativeValue::try_from] copies within its limits is given back by [into_k], with
    the bits of its numbers and its nesting of lists and dictionaries, when it is [typed]
    and [native_plain]: without series and tables; no timestamps before q's least or in
    a leap second and no times in one; no NaN reals but the canonical one, which a
    number of double precision keeps; and opaque values no longer than
    [MAX_SAFE_INTEGER]. *)
Theorem native_roundtrip (k : kval) (n : NativeValue) (o : OwnedNativeValue) :
  typed k -> native_plain k -> k_into_native k = Ok n -> owned_of_native n = Ok o ->
  @into_k unlimited _ _ _ _ o = Ok k.
Proof.
  intros Ht Hp Hn Ho. unfold owned_of_native, snapshot_with_limit in Ho.
  destruct (then_ _ _ _) as [r b'] eqn:Hs. cbn [fst] in Ho. subst r.
  apply then_Ok in Hs as (u & b & _ & Hs). eapply (every_value_back k); eauto.
Qed.
End Spec.

(** ** A concrete binding, for evaluation *)

#[local] Instance sample_libraries : NativeLibraries SampleSeries (list SampleSeries) := {|
  get_i64 v :=
    match words v with
    | [w] => let i := if sign_bit v then - w else w in (i, in_i64 i)
    | _ => (0, false)
    end;
  uuid_parse text := Ok text;
  uuid_text g := g;
  date_parse text :=
    match text with
    | [day] => ok_or (as_dsig sample_day day) EmptyString
    | _ => Err EmptyString
    end;
  date_text d := [proj1_sig d];
  from_timestamp seconds nanos := Some (seconds * NANOS_PER_SECOND + nanos);
  stream_write _ := Err EmptyString;
  stream_read _ := Err EmptyString;
  single_column _ := Err EmptyString;
  into_columns df := df;
  unique _ := true;
  value_size := 280;
  entry_size := 304
|}.

#[local] Instance sample_native_laws : NativeLaws.
Proof.
  split; cbn.
  - intros v Hv. assert ((if v <? 0 then - Z.abs v else Z.abs v) = v) as -> by (destruct (Z.ltb_spec v 0); lia).
    by rewrite Hv.
  - done.
  - intros d. by rewrite as_dsig_Some.
  - intros d n _ Hn. unfold i64_checked in Hn. destruct (in_i64 d); [injection Hn as <-|done].
    f_equal. unfold NANOS_PER_SECOND. pose proof (Z.div_mod d 1000000000 ltac:(lia)). lia.
Qed.

Definition crossing : K SampleSeries (list SampleSeries) :=
  KDict [([97], KMixedList [KI32 (-7); KF32 1069547520; KSymbol [98]]); ([98], KDateTime 5)].

Definition crossed : outcome BindingError OwnedNativeValue :=
  n ← @k_into_native unlimited _ _ _ _ crossing; @owned_of_native unlimited _ _ _ _ n.

Lemma native_roundtrip_witness :
  exists n o, typed crossing /\ native_plain crossing /\ @k_into_native unlimited _ _ _ _ crossing = Ok n
  /\ @owned_of_native unlimited _ _ _ _ n = Ok o /\ @into_k unlimited _ _ _ _ o = Ok crossing.
Proof.
  assert (typed crossing) as Ht.
  { cbn [typed crossing foldr map fst snd]. split; [apply (bool_decide_unpack _); by vm_compute|].
    split_and!; try exact I; try ascii; unfold i32_min, i32_max; lia. }
  assert (native_plain crossing) as Hp.
  { cbn [native_plain crossing foldr fst snd]. split_and!; try exact I; [split; [lia|by vm_compute]|by vm_compute|].
    intros n Hn. unfold i64_checked in Hn. injection Hn as <-. unfold MIN_Q_TIMESTAMP_UNIX_NANOS, i64_min. lia. }
  destruct (@k_into_native unlimited _ _ _ _ crossing) as [n| | |] eqn:Hn; [|by vm_compute in Hn..].
  destruct (@owned_of_native unlimited _ _ _ _ n) as [o| | |] eqn:Ho; [|exfalso..].
  - exists n, o. split_and!; [exact Ht|exact Hp|done|exact Ho|].
    exact (@native_roundtrip _ _ _ _ _ _ _ unlimited crossing n o Ht Hp Hn Ho).
  - assert (is_ok crossed = true) as H by (by vm_compute). unfold crossed in H. rewrite Hn in H. cbn in H. by rewrite Ho in H.
  - assert (is_ok crossed = true) as H by (by vm_compute). unfold crossed in H. rewrite Hn in H. cbn in H. by rewrite Ho in H.
  - assert (is_ok crossed = true) as H by (by vm_compute). unfold crossed in H. rewrite Hn in H. cbn in H. by rewrite Ho in H.
Defined.
