(* ===== verification/SnapshotSpec.v ===== *)
(** * SnapshotSpec: copies of JavaScript objects are bounded and well formed

    A snapshot is a script; [costs] is its weakest precondition over the bytes charged so
    far, for all answers the engine can give. *)

From stdpp Require Import prelude strings.
From Stdlib Require Import ZArith Lia ZifyBool.
From S2P Require Import Prelude Errors QValue Text Value Sample Float64 Binding Native JsSnapshot NativeSpec.

Section Spec.
  Context `{Allocator} `{Chrono} {Series DataFrame : Type} `{!NativeLibraries Series DataFrame}.
  Context {Handle : Type}.

(** ** What a copy holds *)

Definition held_bytes (o : option (list Z)) : Z := match o with Some l => len l | None => 0 end.

(** The bytes of a copy beside the value itself. *)
Fixpoint held (o : OwnedNativeValue) : Z :=
  Z.of_nat (String.length (o_tag o)) + held_bytes (o_string o) + held_bytes (o_context o) + held_bytes (o_bytes o)
  + match o_items o with
    | Some l => foldr (fun v n => Z.of_nat value_size + held v + n) 0 l
    | None => 0
    end
  + match o_entries o with
    | Some l => foldr (fun e n => Z.of_nat entry_size + (len e.1 + held e.2) + n) 0 l
    | None => 0
    end.

Fixpoint native_depth (o : OwnedNativeValue) : Z :=
  Z.max (match o_items o with Some l => foldr (fun v n => Z.max (1 + native_depth v) n) 0 l | None => 0 end)
    (match o_entries o with Some l => foldr (fun e n => Z.max (1 + native_depth e.2) n) 0 l | None => 0 end).

Definition owned_payload_fields (o : OwnedNativeValue) : Z :=
  foldr Z.lor 0
    [field_bit (o_bool o) FIELD_BOOL; field_bit (o_number o) FIELD_NUMBER; field_bit (o_bigint o) FIELD_BIGINT;
     field_bit (o_string o) FIELD_STRING; field_bit (o_context o) FIELD_CONTEXT; field_bit (o_bytes o) FIELD_BYTES;
     field_bit (o_items o) FIELD_ITEMS; field_bit (o_entries o) FIELD_ENTRIES;
     field_bit (o_type_code o) FIELD_TYPE_CODE; field_bit (o_length o) FIELD_LENGTH;
     field_bit (o_is_table o) FIELD_IS_TABLE].

(** Every value of the copy has exactly the fields of its tag. *)
Fixpoint shaped (o : OwnedNativeValue) : Prop :=
  expected_payload_fields (o_tag o) = Ok (owned_payload_fields o)
  /\ match o_items o with Some l => foldr (fun v P => shaped v /\ P) True l | None => True end
  /\ match o_entries o with Some l => foldr (fun e P => shaped e.2 /\ P) True l | None => True end.

(** ** What the engine answers *)

Definition answered {E A} (m : outcome E A) : Prop :=
  match m with Ok _ | Err _ => True | Panicked | OutOfFuel => False end.

(** Calls return with a status, and a string keeps its length. *)
Definition truthful (text_length : Handle -> nat) {B} (call : node_call Handle B) : B -> Prop :=
  match call in node_call _ B return B -> Prop with
  | TypeOf _ => answered
  | CastObject _ => answered
  | PropertyNames _ => answered
  | CastArray _ => answered
  | GetProperty _ _ _ => answered
  | GetElement _ _ => answered
  | Utf8Len text => fun a => answered a /\ forall n, a = Ok n -> n = text_length text
  | Utf8Text text => fun a => answered a /\ forall l, a = Ok l -> length l = text_length text
  | BigIntInt64 _ => answered
  | StrictEquals _ _ => answered
  end.

Context (text_length : Handle -> nat).

(** ** Scripts and what they charge *)

Fixpoint costs {A} (m : script Handle A) (n : Z) (Q : A -> Z -> Prop) : Prop :=
  match m with
  | Done m => match m with Ok a => Q a n | Err _ => True | Panicked | OutOfFuel => False end
  | Charge bytes rest => costs rest (n + bytes) Q
  | Call call rest => forall b, truthful text_length call b -> costs (rest b) n Q
  end.

Lemma costs_mono {A} (m : script Handle A) n (Q Q' : A -> Z -> Prop) :
  costs m n Q -> (forall a n', Q a n' -> Q' a n') -> costs m n Q'.
Proof.
  intros Hm HQ. revert n Hm. induction m as [[]|bytes rest IH|B call rest IH]; intros n Hm; cbn [costs] in *; auto.
Qed.

Lemma costs_bind {A B} (m : script Handle A) (f : A -> script Handle B) n Q :
  costs m n (fun a n' => costs (f a) n' Q) -> costs (m ≫= f) n Q.
Proof.
  revert n. induction m as [[]|bytes rest IH|C call rest IH]; intros n Hm; cbn [costs] in Hm; try done.
  - by apply IH.
  - intros b Hb. apply IH. by apply Hm.
Qed.

(** The common rule: a script that charges nothing, then the rest. *)
Lemma costs_free {A B} (m : script Handle A) (f : A -> script Handle B) n P Q :
  costs m n (fun a n' => n' = n /\ P a) -> (forall a, P a -> costs (f a) n Q) -> costs (m ≫= f) n Q.
Proof. intros Hm Hf. apply costs_bind. eapply costs_mono; [exact Hm|]. intros a n' [-> Ha]. by apply Hf. Qed.

Lemma costs_done {A B} (m : bres A) (f : A -> script Handle B) n Q :
  answered m -> (forall a, m = Ok a -> costs (f a) n Q) -> costs (Done m ≫= f) n Q.
Proof. intros Hm Hf. by destruct m; try apply Hf. Qed.

Lemma costs_pay {B} bytes (f : unit -> script Handle B) n Q : costs (f tt) (n + bytes) Q -> costs (pay bytes ≫= f) n Q.
Proof. done. Qed.

Lemma answered_map_err {E E' A} (f : E -> E') (m : outcome E A) : answered m -> answered (map_err f m).
Proof. by destruct m. Qed.

Lemma convert_costs {A} field (call : node_call Handle (outcome string A)) n :
  (forall b, truthful text_length call b -> answered b) ->
  costs (convert field call) n (fun a n' => n' = n /\ truthful text_length call (Ok a)).
Proof. intros Hc. intros b Hb. pose proof (Hc b Hb). by destruct b. Qed.

Lemma status_costs {A} operation (call : node_call Handle (outcome string A)) n :
  (forall b, truthful text_length call b -> answered b) ->
  costs (check_napi_status call operation) n (fun a n' => n' = n /\ truthful text_length call (Ok a)).
Proof. intros Hc. intros b Hb. pose proof (Hc b Hb). by destruct b. Qed.

Lemma answered_ok_or {E A} (o : option A) (e : E) : answered (ok_or o e).
Proof. by destruct o. Qed.
Lemma answered_reserve {E} n (f : string -> E) : answered (reserve n f).
Proof. unfold reserve. by case_match. Qed.
Lemma answered_bind {E A B} (m : outcome E A) (f : A -> outcome E B) :
  answered m -> (forall a, m = Ok a -> answered (f a)) -> answered (m ≫= f).
Proof. intros Hm Hf. destruct m as [a| | |]; try done. by apply Hf. Qed.
Lemma answered_try_fold {E A B} (f : A -> B -> outcome E A) a l :
  (forall a b, answered (f a b)) -> answered (try_fold f a l).
Proof.
  intros Hf. revert a. induction l as [|b l IH]; intros a; [done|]. cbn [try_fold]. apply answered_bind; [apply Hf|].
  intros a' _. apply IH.
Qed.
#[local] Hint Resolve answered_ok_or answered_reserve answered_map_err answered_bind answered_try_fold : answered.
#[local] Hint Extern 1 (answered (Ok _)) => exact I : answered.
#[local] Hint Extern 1 (answered (cannot_convert _)) => exact I : answered.

Lemma answered_capacity n description : answered (native_capacity n description).
Proof. apply answered_reserve. Qed.
Lemma answered_expected tag : answered (expected_payload_fields tag).
Proof. unfold expected_payload_fields. do 10 (destruct (one_of _ _); [done|]). done. Qed.
Lemma answered_validate tag actual : answered (validate_payload_fields tag actual).
Proof.
  unfold validate_payload_fields. apply answered_bind; [apply answered_expected|]. intros e _.
  apply answered_bind; [|intros _ _; apply answered_bind; [|done]];
    apply answered_try_fold; intros [] [field bit]; by case_match.
Qed.
Lemma answered_fields keys description : answered (payload_fields_from_keys keys description).
Proof.
  unfold payload_fields_from_keys. case_match; [done|]. apply answered_try_fold. intros fields key. unfold add_field.
  destruct (is_name key _); [done|]. by destruct (find _ _) as [[]|].
Qed.
Lemma answered_usize bits field : answered (number_to_usize bits field).
Proof. apply answered_ok_or. Qed.
#[local] Hint Resolve answered_capacity answered_validate answered_fields answered_usize : answered.

(** ** The parts of a snapshot *)

Definition total {A} (size : A -> Z) (l : list A) : Z := foldr (fun a n => size a + n) 0 l.

Lemma each_index_costs {A} (f : Z -> script Handle A) (size : A -> Z) (P : A -> Prop) index count n :
  (forall i n, costs (f i) n (fun a n' => n' = n + size a /\ P a)) ->
  costs (each_index f index count) n
    (fun l n' => n' = n + total size l /\ Forall P l /\ length l = count).
Proof.
  intros Hf. revert index n. induction count as [|count IH]; intros index n; cbn [each_index].
  { split; [cbn; lia|]. by split. }
  apply costs_bind. eapply costs_mono; [apply Hf|]. intros a n' [-> Ha].
  apply costs_bind. eapply costs_mono; [apply IH|]. intros l n' (-> & Hl & Hc).
  split; [unfold total; cbn [foldr]; fold (total size l); lia|]. split; [by constructor|cbn; lia].
Qed.

Ltac asks :=
  (apply convert_costs || apply status_costs); let H := fresh in intros ? H; cbn in H; tauto.

Lemma get_element_costs array i field missing n :
  costs (found ← convert field (GetElement array i); Done (ok_or found missing)) n (fun _ n' => n' = n).
Proof. eapply costs_free; [asks|]. intros [a|] _; done. Qed.

Lemma object_key_costs names description i n :
  costs (object_key names description i) n (fun (_ : list Z) n' => n' = n + 0 /\ True).
Proof.
  unfold object_key. eapply costs_free; [asks|]. intros found _. apply costs_done; [auto with answered|]. intros key _.
  eapply costs_free; [asks|]. intros length _. case_match; [done|]. eapply costs_mono; [asks|]. intros a n' [-> _].
  split; [lia|done].
Qed.

Lemma total_0 {A} (l : list A) : total (fun _ => 0) l = 0.
Proof. unfold total. induction l; cbn; lia. Qed.

Lemma object_keys_costs object maximum description n :
  costs (object_keys_limited object maximum description) n (fun _ n' => n' = n /\ True).
Proof.
  unfold object_keys_limited. eapply costs_free; [asks|]. intros raw _. eapply costs_free; [asks|]. intros names _.
  case_match; [done|]. apply costs_done; [auto with answered|]. intros [] _.
  eapply costs_mono; [apply each_index_costs; intros; apply object_key_costs|]. intros l n' (-> & _).
  rewrite total_0. split; [lia|done].
Qed.

Lemma required_property_costs {T} object field (kind : js_kind T) n :
  costs (required_property object field kind) n (fun _ n' => n' = n /\ True).
Proof. unfold required_property. eapply costs_free; [asks|]. by intros [a|] _. Qed.

Lemma required_bigint_costs object field n :
  costs (required_bigint_i64_property object field) n (fun _ n' => n' = n /\ True).
Proof.
  unfold required_bigint_i64_property. eapply costs_free; [apply required_property_costs|]. intros value _.
  eapply costs_free; [asks|]. intros type _. case_match; [done|]. eapply costs_free; [asks|]. intros [i []] _; done.
Qed.

Lemma required_integer_costs object field minimum maximum n :
  costs (required_exact_integer_property object field minimum maximum) n (fun _ n' => n' = n /\ True).
Proof.
  unfold required_exact_integer_property. eapply costs_free; [apply required_property_costs|]. intros bits _.
  by destruct (integer_within _ _ _).
Qed.

(** A string is paid for by the length it has. *)
Lemma required_string_costs object field maximum n :
  costs (required_string_property object field maximum) n (fun text n' => n' = n + len text /\ True).
Proof.
  unfold required_string_property. eapply costs_free; [apply required_property_costs|]. intros value _.
  eapply costs_free; [asks|]. intros length [_ Hl]. specialize (Hl length eq_refl) as ->. case_match; [done|].
  apply costs_pay. eapply costs_mono; [asks|]. intros text n' [-> [_ Ht]]. by rewrite (Ht text eq_refl).
Qed.

Lemma ensure_not_ancestor_costs value ancestors n :
  costs (ensure_not_ancestor value ancestors) n (fun _ n' => n' = n /\ True).
Proof.
  induction ancestors as [|ancestor ancestors IH]; cbn [ensure_not_ancestor]; [done|].
  eapply costs_free; [asks|]. intros [] _; [done|apply IH].
Qed.

Lemma total_each {A} (element : Z) (size : A -> Z) l :
  total (fun a => element + size a) l = len l * element + total size l.
Proof. unfold total. induction l as [|a l IH]; cbn [foldr length]; lia. Qed.

Lemma elements_costs {A} object field size capacity element missing (copy : Handle -> script Handle A)
    (sizes : A -> Z) P n :
  (forall value n, costs (copy value) n (fun a n' => n' = n + sizes a /\ P a)) ->
  costs (snapshot_elements object field size capacity element missing copy) n
    (fun l n' => n' = n + total (fun a => Z.of_nat size + sizes a) l /\ Forall P l).
Proof.
  intros Hcopy. unfold snapshot_elements. eapply costs_free; [apply required_property_costs|]. intros elements _.
  apply costs_done; [apply answered_ok_or|]. intros bytes Hbytes. apply costs_pay.
  apply costs_done; [auto with answered|]. intros [] _.
  eapply costs_mono; [apply (each_index_costs _ sizes P)|].
  - intros i n'. eapply costs_free; [asks|]. intros found _. apply costs_done; [auto with answered|]. intros value _.
    apply Hcopy.
  - intros l n' (-> & Hl & Hlen). split; [|done]. rewrite total_each, Hlen. unfold allocation_size, checked_mul in Hbytes.
    destruct (_ <=? _) in Hbytes; [|done]. injection Hbytes as <-. lia.
Qed.

Definition present {A} (o : option A) : bool := match o with Some _ => true | None => false end.

Lemma costs_when {A B} condition (body : script Handle A) (f : option A -> script Handle B) n (size : A -> Z) P Q :
  (forall n, costs body n (fun a n' => n' = n + size a /\ P a)) ->
  (forall o, present o = condition -> match o with Some a => P a | None => True end ->
     costs (f o) (n + match o with Some a => size a | None => 0 end) Q) ->
  costs (when condition body ≫= f) n Q.
Proof.
  intros Hbody Hf. unfold when. destruct condition.
  - apply costs_bind, costs_bind. eapply costs_mono; [apply Hbody|]. intros a n' [-> Ha]. by apply (Hf (Some a)).
  - rewrite <- (Z.add_0_r n). by apply (Hf None).
Qed.

(** A field that holds no bytes. *)
Lemma costs_when_free {A B} condition (body : script Handle A) (f : option A -> script Handle B) n Q :
  (forall n, costs body n (fun a n' => n' = n /\ True)) ->
  (forall o, present o = condition -> costs (f o) n Q) -> costs (when condition body ≫= f) n Q.
Proof.
  intros Hbody Hf. apply (costs_when _ _ _ _ (fun _ => 0) (fun _ => True)).
  - intros m. eapply costs_mono; [apply Hbody|]. intros a n' [-> _]. split; [lia|done].
  - intros o Ho _. replace (n + _) with n by (destruct o; lia). by apply Hf.
Qed.

(** The scalar fields: which there are, and what they hold. *)
Definition scalar_fields (expected : Z) (v : OwnedNativeValue) : Prop :=
  let has bit := negb (Z.land expected bit =? 0) in
  present (o_bool v) = (expected =? FIELD_BOOL) /\ present (o_number v) = (expected =? FIELD_NUMBER)
  /\ present (o_bigint v) = (expected =? FIELD_BIGINT) /\ present (o_string v) = has FIELD_STRING
  /\ present (o_context v) = has FIELD_CONTEXT /\ present (o_bytes v) = has FIELD_BYTES
  /\ present (o_type_code v) = has FIELD_TYPE_CODE /\ present (o_length v) = has FIELD_LENGTH
  /\ present (o_is_table v) = has FIELD_IS_TABLE.

Lemma scalars_costs object tag expected n :
  costs (snapshot_scalars object tag expected) n (fun v n' =>
    n' = n + held_bytes (o_string v) + held_bytes (o_context v) + held_bytes (o_bytes v)
    /\ o_tag v = name_of_bytes tag /\ scalar_fields expected v).
Proof.
  unfold snapshot_scalars. apply costs_when_free; [intros; apply required_property_costs|]. intros boolean Hboolean.
  apply costs_when_free; [intros; apply required_property_costs|]. intros number Hnumber.
  apply costs_when_free; [intros; apply required_bigint_costs|]. intros bigint Hbigint.
  eapply costs_when; [intros; apply required_string_costs|]. intros text Htext _.
  eapply costs_when; [intros; apply required_string_costs|]. intros context Hcontext _.
  apply (costs_when _ _ _ _ (fun l => len l) (fun _ => True)).
  { intros m. eapply costs_free; [apply required_property_costs|]. intros bytes _. apply costs_pay.
    unfold copy_bytes. destruct (native_capacity _ _) as [[]| | |] eqn:E; try done.
    all: pose proof (answered_capacity (len bytes) "native bytes snapshot") as Ha; by rewrite E in Ha. }
  intros bytes Hbytes _. apply costs_when_free; [intros; apply required_integer_costs|]. intros code Hcode.
  apply costs_when_free.
  { intros m. eapply costs_free; [apply required_property_costs|]. intros bits _.
    pose proof (answered_usize bits "length") as Ha. by destruct (number_to_usize _ _). }
  intros length Hlength. apply costs_when_free; [intros; apply required_property_costs|]. intros table Htable.
  split; [unfold held_bytes; cbn; lia|]. split; [done|]. by split_and!.
Qed.

(** The fields of every tag, by the tests the copy makes. *)
Lemma fields_exact tag expected :
  expected_payload_fields tag = Ok expected ->
  let has bit := negb (Z.land expected bit =? 0) in
  let test (c : bool) bit := if c then bit else 0 in
  foldr Z.lor 0
    [test (expected =? FIELD_BOOL) FIELD_BOOL; test (expected =? FIELD_NUMBER) FIELD_NUMBER;
     test (expected =? FIELD_BIGINT) FIELD_BIGINT; test (has FIELD_STRING) FIELD_STRING;
     test (has FIELD_CONTEXT) FIELD_CONTEXT; test (has FIELD_BYTES) FIELD_BYTES;
     test (expected =? FIELD_ITEMS) FIELD_ITEMS; test (expected =? FIELD_ENTRIES) FIELD_ENTRIES;
     test (has FIELD_TYPE_CODE) FIELD_TYPE_CODE; test (has FIELD_LENGTH) FIELD_LENGTH;
     test (has FIELD_IS_TABLE) FIELD_IS_TABLE] = expected.
Proof.
  unfold expected_payload_fields. do 10 (destruct (one_of _ _); [intros [= <-]; by vm_compute|]). done.
Qed.

Lemma field_bit_present {A} (o : option A) bit : field_bit o bit = if present o then bit else 0.
Proof. by destruct o. Qed.

(** ** Objects *)

Lemma entry_costs copy value (P : OwnedNativeValue -> Prop) n :
  (forall value n, costs (copy value) n (fun o n' => n' = n + held o /\ P o)) ->
  costs (snapshot_unknown_entry copy value) n (fun e n' => n' = n + (len e.1 + held e.2) /\ P e.2).
Proof.
  intros Hcopy. unfold snapshot_unknown_entry. eapply costs_free; [asks|]. intros type _. case_match; [done|].
  eapply costs_free; [asks|]. intros object _. eapply costs_free; [apply object_keys_costs|]. intros keys _.
  case_match; [done|]. apply costs_bind. eapply costs_mono; [apply required_string_costs|]. intros key n1 [-> _].
  eapply costs_free; [apply required_property_costs|]. intros child _.
  apply costs_bind. eapply costs_mono; [apply Hcopy|]. intros o n2 [-> Ho]. split; [cbn; lia|done].
Qed.

Lemma Forall_fold {A} (f : A -> Prop) l : foldr (fun a P => f a /\ P) True l <-> Forall f l.
Proof. induction l as [|a l IH]; cbn [foldr]; [by split|]. by rewrite Forall_cons, IH. Qed.

Lemma depth_bound {A} (depth : A -> Z) bound l :
  0 <= bound -> Forall (fun a => 1 + depth a <= bound) l -> foldr (fun a n => Z.max (1 + depth a) n) 0 l <= bound.
Proof. intros Hb. induction 1 as [|a l Ha _ IH]; cbn [foldr]; lia. Qed.

(** A copy at most so deep, of well-formed values. *)
Definition fine (bound : Z) (o : OwnedNativeValue) : Prop := native_depth o <= bound /\ shaped o.

(** The elements put into a copy of the scalar fields. *)
Lemma set_elements_fine bound items entries v expected :
  0 <= bound -> expected_payload_fields (o_tag v) = Ok expected -> scalar_fields expected v ->
  present items = (expected =? FIELD_ITEMS) -> present entries = (expected =? FIELD_ENTRIES) ->
  match items with Some l => Forall (fine (bound - 1)) l | None => True end ->
  match entries with Some l => Forall (fun e => fine (bound - 1) e.2) l | None => True end ->
  fine bound (set_elements items entries v).
Proof.
  intros Hb He (Q1 & Q2 & Q3 & Q4 & Q5 & Q6 & Q7 & Q8 & Q9) Qi Qe Hi Hentries. split.
  - assert (forall {A} (f : A -> OwnedNativeValue) (o : option (list A)),
        match o with Some l => Forall (fun a => fine (bound - 1) (f a)) l | None => True end ->
        match o with Some l => foldr (fun a n => Z.max (1 + native_depth (f a)) n) 0 l | None => 0 end <= bound) as Hd.
    { intros A f [l|] Hl; [|done]. apply (depth_bound (fun a => native_depth (f a))); [done|].
      eapply Forall_impl; [exact Hl|]. intros a [Ha _]. lia. }
    apply Z.max_lub; [by apply (Hd _ (fun o => o))|by apply (Hd _ snd)].
  - assert (owned_payload_fields (set_elements items entries v) = expected) as Hf.
    { unfold owned_payload_fields. cbn [set_elements o_bool o_number o_bigint o_string o_context o_bytes o_items
        o_entries o_type_code o_length o_is_table]. rewrite !field_bit_present, Q1, Q2, Q3, Q4, Q5, Q6, Q7, Q8, Q9, Qi, Qe.
      by apply (fields_exact (o_tag v)). }
    destruct v as [t x1 x2 x3 x4 x5 x6 x7 x8 x9 x10 x11]. cbn [shaped set_elements o_tag o_items o_entries] in *. rewrite <- Hf in He. split; [exact He|].
    split; [destruct items|destruct entries]; try done; apply Forall_fold; (eapply Forall_impl; [eassumption|]);
      by intros ? [].
Qed.

Lemma name_length l : Z.of_nat (String.length (name_of_bytes l)) = len l.
Proof. f_equal. induction l as [|b l IH]; cbn; [done|by f_equal]. Qed.

Lemma object_costs copy value bound n :
  0 <= bound ->
  (forall value n, costs (copy value) n (fun o n' => n' = n + held o /\ fine (bound - 1) o)) ->
  costs (snapshot_unknown_object copy value) n (fun o n' => n' = n + held o /\ fine bound o).
Proof.
  intros Hb Hcopy. unfold snapshot_unknown_object. eapply costs_free; [asks|]. intros object _.
  eapply costs_free; [apply object_keys_costs|]. intros keys _. apply costs_done; [auto with answered|]. intros actual _.
  apply costs_bind. eapply costs_mono; [apply required_string_costs|]. intros tag n1 [-> _].
  apply costs_done; [auto with answered|]. intros expected He.
  assert (expected_payload_fields (name_of_bytes tag) = Ok expected) as Hexpected.
  { unfold validate_payload_fields in He. apply bind_Ok in He as (e & He & Hrest).
    by repeat (apply bind_Ok in Hrest as (? & _ & Hrest)); injection Hrest as <-. }
  apply costs_bind. eapply costs_mono; [apply scalars_costs|]. intros v n2 (-> & Htag & Hv).
  eapply costs_when; [intros; apply (elements_costs _ _ _ _ _ _ _ held (fine (bound - 1))), Hcopy|].
  intros items Qi Hi.
  eapply costs_when;
    [intros; apply (elements_costs _ _ _ _ _ _ _ (fun e => len e.1 + held e.2) (fun e => fine (bound - 1) e.2));
     intros; by apply entry_costs|].
  intros entries Qe Hentries. split.
  - unfold set_elements. cbn [held o_tag o_string o_context o_bytes o_items o_entries]. rewrite Htag, name_length.
    unfold total. destruct items, entries; lia.
  - eapply set_elements_fine; [done|by rewrite Htag|done..].
Qed.

(** The levels of a value are enough, whatever depth the objects have. *)
Lemma value_costs levels depth ancestors value n :
  0 <= depth -> 66 <= depth + Z.of_nat levels -> depth <= 65 ->
  costs (snapshot_unknown_value levels depth ancestors value) n
    (fun o n' => n' = n + held o /\ fine (MAX_NATIVE_DEPTH - depth) o).
Proof.
  revert depth ancestors value n. induction levels as [|levels IH]; intros depth ancestors value n Hd Hl Hmax; [lia|].
  cbn [snapshot_unknown_value]. destruct (Z.ltb_spec MAX_NATIVE_DEPTH depth) as [|Hdepth]; [done|].
  eapply costs_free; [asks|]. intros type _. case_match; [done|].
  eapply costs_free; [apply ensure_not_ancestor_costs|]. intros _ _. unfold MAX_NATIVE_DEPTH in *.
  apply object_costs; [lia|]. intros child m. replace (64 - depth - 1) with (64 - (depth + 1)) by lia.
  apply IH; lia.
Qed.

Lemma top_costs value n :
  costs (snapshot_top value) n (fun o n' => n' = n + held o /\ fine MAX_NATIVE_DEPTH o).
Proof. apply (value_costs snapshot_levels 0); unfold snapshot_levels; lia. Qed.

(** An array and all it holds. *)
Lemma array_costs values maximum description n :
  costs (snapshot_array values maximum description) n
    (fun l n' => n' = n + total (fun o => Z.of_nat value_size + held o) l /\ Forall (fine MAX_NATIVE_DEPTH) l).
Proof.
  unfold snapshot_array. case_match; [done|]. apply costs_done; [apply answered_ok_or|]. intros bytes Hbytes.
  apply costs_pay. apply costs_done; [auto with answered|]. intros [] _.
  eapply costs_mono; [apply (each_index_costs _ held (fine MAX_NATIVE_DEPTH))|].
  - intros i n'. eapply costs_free; [asks|]. intros found _. apply costs_done; [auto with answered|]. intros value _.
    apply top_costs.
  - intros l n' (-> & Hl & Hlen). split; [|done]. rewrite total_each, Hlen. unfold allocation_size, checked_mul in Hbytes.
    destruct (_ <=? _) in Hbytes; [|done]. injection Hbytes as <-. lia.
Qed.
End Spec.

(** ** Running a snapshot *)

Class EngineLaws {Handle J : Type} `{!Engine Handle J} : Type := {
  text_length : Handle -> nat;
  engine_truthful {B} (call : node_call Handle B) (j : J) : truthful text_length call (answer call j).1
}.

(** What was charged to the budget was charged to the reservation and to the admission. *)
Definition funded (b b' : SnapshotBudget) : Prop :=
  match funding b, funding b' with
  | None, None => True
  | Some (r, s), Some (r', s') =>
    reserved_bytes r' = reserved_bytes r + (used b' - used b)
    /\ queued_bytes (counts s') = queued_bytes (counts s) + (used b' - used b)
  | _, _ => False
  end.

Lemma funded_refl b : funded b b.
Proof. unfold funded. destruct (funding b) as [[]|]; [lia|done]. Qed.
Lemma funded_trans b1 b2 b3 : funded b1 b2 -> funded b2 b3 -> funded b1 b3.
Proof.
  unfold funded. destruct (funding b1) as [[]|], (funding b2) as [[]|], (funding b3) as [[]|]; try done. lia.
Qed.

Lemma charge_Ok bytes b m b' :
  charge bytes b = (m, b') -> 0 <= remaining b ->
  limit b' = limit b /\ 0 <= remaining b' /\ funded b b'
  /\ match m with Ok _ => used b' = used b + bytes | Err _ => used b' = used b | _ => False end.
Proof.
  unfold charge, then_, ensure_budget, checked_sub, charge_bytes. intros E Hb.
  destruct (Z.ltb_spec (remaining b) bytes) as [|Hle]; [injection E as <- <-; auto using funded_refl|].
  replace (bytes <=? remaining b) with true in E by lia. destruct b as [lim rest [[r s]|]]; cbn in *.
  - destruct (checked_add (reserved_bytes r) bytes) as [n1|] eqn:E1, (checked_add (queued_bytes (counts s)) bytes) as [n2|] eqn:E2;
      try destruct (_ <? _); injection E as <- <-; unfold funded, used; cbn;
      unfold checked_add in E1, E2; repeat destruct (_ <=? _); simplify_eq; cbn; split_and!; lia.
  - injection E as <- <-. unfold funded, used. cbn. split_and!; first [done|lia].
Qed.

Section Run.
  Context `{Allocator} `{Chrono} {Series DataFrame : Type} `{!NativeLibraries Series DataFrame}.
  Context {Handle J : Type} `{!Engine Handle J} `{!EngineLaws (Handle := Handle) (J := J)}.

Lemma run_costs {A} (m : script Handle A) b (j : J) Q :
  costs text_length m (used b) Q -> 0 <= remaining b ->
  let '(r, b', _) := run_script m b j in
  answered r /\ limit b' = limit b /\ 0 <= remaining b' /\ funded b b' /\ forall a, r = Ok a -> Q a (used b').
Proof.
  revert b j. induction m as [[]|bytes rest IH|B call rest IH]; intros b j Hm Hb; cbn [costs run_script] in *.
  1-4: split_and!; try done; try apply funded_refl; by intros a' [= <-].
  - destruct (charge bytes b) as [m b1] eqn:E. destruct (charge_Ok _ _ _ _ E Hb) as (Hl & Hr & Hf & Hu).
    destruct m as [[]|e| |]; try done. rewrite <- Hu in Hm. specialize (IH b1 j Hm Hr).
    destruct (run_script rest b1 j) as [[r b2] j']. destruct IH as (H1' & H2' & H3' & H4' & H5').
    split_and!; [done|congruence|done|by eapply funded_trans|done].
  - pose proof (engine_truthful call j) as Ht. destruct (answer call j) as [a j'].
    by apply IH; [apply Hm|].
Qed.

(** C18: copies of JavaScript values are bounded and well formed.  However large, deep,
    cyclic or changing the objects are that a call is given, copying them ends, with a
    copy or an error and never in a panic; it never charges more than its limit, which the
    reservation and the admission that fund it are charged as well, to the byte; and a
    copy that is made was charged exactly what it holds, nests at most 64 levels, and
    every value in it has exactly the fields of its tag. *)
Theorem snapshot_bounded (values : JsArray Handle) (limit : Z) (maximum : option Z) (description : string)
    (funding : option (QueueReservation * AdmissionState)) (j : J) :
  0 <= limit ->
  let '(r, b, _) := snapshot_native_value_array values limit maximum description funding j in
  answered r /\ used b <= limit /\ funded (with_reservation limit funding) b
  /\ forall copied n, r = Ok (copied, n) ->
       n = used b /\ n = total (fun o => Z.of_nat value_size + held o) copied
       /\ Forall (fun o => native_depth o <= MAX_NATIVE_DEPTH /\ shaped o) copied.
Proof.
  intros Hlimit. unfold snapshot_native_value_array.
  pose proof (run_costs (snapshot_array values maximum description) (with_reservation limit funding) j _
    (array_costs text_length values maximum description _)) as Hrun.
  destruct (run_script _ _ j) as [[m b] j']. destruct Hrun as (Hm & Hl & Hr & Hf & HQ); [done|].
  split; [by destruct m|]. unfold used in *. cbn in *. split; [lia|]. split; [done|].
  intros copied n E. destruct m as [l| | |]; try done. injection E as -> <-. destruct (HQ _ eq_refl) as [Hn Hfine].
  split_and!; [done|lia|exact Hfine].
Qed.
End Run.

(** ** A concrete engine, for evaluation *)

(** Strings, numbers, objects with their property names, and arrays; [3] is a list of a
    symbol and a number, [20] a list that contains itself. *)
Inductive sample_node : Type :=
| NodeText (text : list Z)
| NodeNumber (bits : Z)
| NodeObject (names : nat) (fields : list (string * nat))
| NodeArray (elements : list nat).

Definition text_node (s : string) : sample_node := NodeText (bytes_of_name s).

Definition sample_heap (handle : nat) : sample_node :=
  match handle with
  | 0 => text_node "tag" | 1 => text_node "items" | 2 => NodeArray [0; 1]
  | 3 => NodeObject 2 [("tag", 4); ("items", 5)] | 4 => text_node "list" | 5 => NodeArray [6; 10]
  | 6 => NodeObject 7 [("tag", 8); ("stringValue", 9)] | 7 => NodeArray [0; 14] | 8 => text_node "symbol"
  | 9 => text_node "abc"
  | 10 => NodeObject 11 [("tag", 12); ("numberValue", 13)] | 11 => NodeArray [0; 15] | 12 => text_node "f64"
  | 13 => NodeNumber 4607182418800017408 | 14 => text_node "stringValue" | 15 => text_node "numberValue"
  | 20 => NodeObject 2 [("tag", 4); ("items", 21)] | 21 => NodeArray [20]
  | 30 => NodeArray [3; 6] | 31 => NodeArray [20]
  | _ => NodeText []
  end%nat.

Definition property (fields : list (string * nat)) (field : string) : option nat :=
  snd <$> find (fun '(name, _) => String.eqb name field) fields.

Definition as_array (handle : nat) : outcome string (JsArray nat) :=
  match sample_heap handle with
  | NodeArray elements => Ok (MkJsArray handle (length elements))
  | _ => Err "an array was expected"%string
  end.

Definition read_as {T} (kind : js_kind T) (handle : nat) : outcome string T :=
  match kind in @js_kind _ T return outcome string T with
  | AsNumber => match sample_heap handle with NodeNumber bits => Ok bits | _ => Err "not a number"%string end
  | AsString => match sample_heap handle with NodeText _ => Ok handle | _ => Err "not a string"%string end
  | AsUnknown => Ok handle
  | AsArray => as_array handle
  | AsBool | AsBytes => Err "no such value"%string
  end.

Definition sample_answer {B} (call : node_call nat B) : B :=
  match call in node_call _ B return B with
  | TypeOf handle =>
    Ok (match sample_heap handle with NodeText _ => JsText | NodeNumber _ => JsNumber | _ => JsObject end)
  | CastObject handle => Ok handle
  | PropertyNames handle =>
    match sample_heap handle with NodeObject names _ => Ok names | _ => Err "not an object"%string end
  | CastArray handle => as_array handle
  | GetProperty handle field kind =>
    match sample_heap handle with
    | NodeObject _ fields =>
      match property fields field with Some value => v ← read_as kind value; Ok (Some v) | None => Ok None end
    | _ => Err "not an object"%string
    end
  | GetElement handle index =>
    match sample_heap handle with
    | NodeArray elements => Ok (elements !! Z.to_nat index)
    | _ => Err "not an array"%string
    end
  | Utf8Len handle => match sample_heap handle with NodeText text => Ok (length text) | _ => Err "not a string"%string end
  | Utf8Text handle => match sample_heap handle with NodeText text => Ok text | _ => Err "not a string"%string end
  | BigIntInt64 _ => Err "not a bigint"%string
  | StrictEquals value ancestor => Ok (value =? ancestor)%nat
  end.

#[local] Instance sample_engine : Engine nat unit := {| answer B call j := (sample_answer call, j) |}.

#[local] Instance sample_engine_laws : EngineLaws.
Proof.
  exists (fun handle => match sample_heap handle with NodeText text => length text | _ => O end).
  intros B call j. unfold answer, sample_engine. cbn [fst].
  destruct call; cbn [truthful sample_answer]; unfold as_array; try exact I.
  - by destruct (sample_heap _).
  - by destruct (sample_heap _).
  - destruct (sample_heap _); try exact I. destruct (property _ _); [|exact I]. destruct kind; cbn [read_as]; unfold as_array;
      try exact I; by destruct (sample_heap _).
  - by destruct (sample_heap _).
  - destruct (sample_heap _); (split; [done|]); by intros ? [= ->].
  - destruct (sample_heap _); (split; [done|]); by intros ? [= ->].
Qed.

#[local] Existing Instance sample_libraries.

Definition sample_values (handle : nat) : bres (list OwnedNativeValue * Z) * SnapshotBudget * unit :=
  @snapshot_native_value_array nat unit sample_engine unlimited sample_chrono _ _ sample_libraries
    (MkJsArray handle match sample_heap handle with NodeArray l => length l | _ => O end) 4000 (Some MAX_ARGUMENTS)
    "native argument" (Some (MkReservation 7, (AdmissionState_new 7 1 2 10000).1)) tt.

(** Two values with two elements: four values, and the names in them. *)
Example sample_values_sizes :
  match sample_values 30 with
  | (Ok (copied, n), b, _) => (total held copied, n, used b)
  | _ => (0, 0, 0)
  end = (585, 1145, 1145)
  /\ match (sample_values 31).1.1 with Err e => message e = Text "native value contains a reference cycle" | _ => False end.
Proof. split; by vm_compute. Qed.

Lemma snapshot_bounded_witness :
  is_ok (sample_values 30).1.1 = true
  /\ let '(r, b, _) := sample_values 30 in
     answered r /\ used b <= 4000 /\ funded (with_reservation 4000 (Some (MkReservation 7, (AdmissionState_new 7 1 2 10000).1))) b.
Proof.
  split; [by vm_compute|].
  pose proof (@snapshot_bounded unlimited sample_chrono _ _ sample_libraries nat unit sample_engine sample_engine_laws
    (MkJsArray 30%nat 2) 4000 (Some MAX_ARGUMENTS) "native argument"
    (Some (MkReservation 7, (AdmissionState_new 7 1 2 10000).1)) tt ltac:(lia)) as H.
  unfold sample_values. cbn [sample_heap length].
  destruct (snapshot_native_value_array _ _ _ _ _ _) as [[r b] j].
  destruct H as (H1 & H2 & H3 & _). split; [exact H1|]. split; [exact H2|exact H3].
Defined.
