(* ===== verification/Utility.v ===== *)
(** * Utility: the functions of the Node binding without a connection
    ([bindings/napi-xqdb/src/utility.rs])

    A call makes a task on the JavaScript thread; the task is computed once on a thread
    of the pool, and its result resolves the promise of the call. *)

From stdpp Require Import prelude strings.
From Stdlib Require Import ZArith Lia ZifyBool.
From S2P Require Import Prelude Errors Types QValue Text Value AnyValue Serialize SerializeFacts Deserialize DeserializeFacts SerdeSpec Sample Framing Stream Connector Io IoSpec Float64 Binding Native JsSnapshot NativeSpec.

Definition UTILITY_SNAPSHOT_LIMIT : Z := 64 * 1024 * 1024.

Inductive UtilityOperation : Type :=
| Ready (result : option NativeResult)
| ReadBinary (path : string) (encoding : SymbolEncoding)
| Serialize (message_type : string) (compress : bool) (value : OwnedNativeValue)
| DeserializeValue (bytes : list Z) (encoding : SymbolEncoding) (mode : ValueMode)
| DeserializeIpc (bytes : list Z) (encoding : SymbolEncoding) (mode : ValueMode)
| QValueBytes (bytes : list Z)
| QValueAtom (kind : Z) (payload : list Z)
| QValueList (values : list OwnedNativeValue)
| QValueDictionary (keys values : OwnedNativeValue)
| QValueNative (value : OwnedNativeValue).

(** ** Options and names *)

Definition parse_message_type (value : string) : bres MsgType :=
  if String.eqb value "async" then Ok Async
  else if String.eqb value "sync" then Ok Sync
  else if String.eqb value "response" then Ok Response
  else cannot_convert ("unsupported messageType " +:+ debug_str value +:+ "; expected async, sync, or response").

Definition message_type_name (value : MsgType) : string :=
  match value with Async => "async" | Sync => "sync" | Response => "response" end.

(** A path that names another machine or a device. *)
Definition is_separator (c : Ascii.ascii) : bool :=
  (Ascii.nat_of_ascii c =? 92)%nat || (Ascii.nat_of_ascii c =? 47)%nat.
Definition is_windows_remote_or_device_path (path : string) : bool :=
  match path with
  | String a (String b _) => is_separator a && is_separator b
  | _ => false
  end || String.prefix "\??\" path || String.prefix "/??/" path.

(** [cfg!(windows)] is a parameter. *)
Definition validate_read_binary_path (windows : bool) (path : string) : bres unit :=
  if windows && is_windows_remote_or_device_path path then
    cannot_convert "readBinary6 does not accept Windows UNC or device paths"
  else Ok tt.

Definition ready_operation (e : BindingError) : UtilityOperation := Ready (Some (failure e)).

Definition decoder_operation (symbol_encoding : option string) (lossless : option bool)
    (operation : SymbolEncoding -> ValueMode -> UtilityOperation) : UtilityOperation :=
  match parse_symbol_encoding symbol_encoding with
  | Ok encoding => operation encoding (if default false lossless then Lossless else QValue.Native)
  | Err message => ready_operation (conversion message)
  | Panicked | OutOfFuel => Ready None
  end.

Definition qvalue_from_bytes (bytes : list Z) : UtilityOperation := QValueBytes bytes.

(** A numeric atom kind: an integer from 0 through 255. *)
Definition qvalue_atom (kind : Z) (payload : list Z) : UtilityOperation :=
  match integer_within 0 255 kind with
  | Some kind => QValueAtom kind payload
  | None => ready_operation (conversion "qValueAtom kind must be an integer from 0 through 255")
  end.

Definition read_binary6 (path : string) (symbol_encoding : option string) : UtilityOperation :=
  match parse_symbol_encoding symbol_encoding with
  | Ok encoding => ReadBinary path encoding
  | Err message => ready_operation (conversion message)
  | Panicked | OutOfFuel => Ready None
  end.

Definition deserialize_value6 (body : list Z) (symbol_encoding : option string) (lossless : option bool)
    : UtilityOperation :=
  decoder_operation symbol_encoding lossless (DeserializeValue body).
Definition deserialize_ipc_bytes6 (frame : list Z) (symbol_encoding : option string) (lossless : option bool)
    : UtilityOperation :=
  decoder_operation symbol_encoding lossless (DeserializeIpc frame).

(** ** Calls that copy JavaScript values *)

Section Calls.
  Context {Handle J : Type} `{!Engine Handle J}.
  Context `{Allocator} `{Chrono} {Series DataFrame : Type} `{!NativeLibraries Series DataFrame}.

(** [snapshot.map(operation).unwrap_or_else(ready_operation)]; a panic is one of the call. *)
Definition operation_of {A} (snapshot : bres A) (operation : A -> UtilityOperation) : bres UtilityOperation :=
  match snapshot with
  | Ok a => Ok (operation a)
  | Err e => Ok (ready_operation e)
  | Panicked => Panicked
  | OutOfFuel => OutOfFuel
  end.

Definition serialize_as_ipc_bytes6 (message_type : string) (compress : bool) (value : Handle) (j : J)
    : bres UtilityOperation * J :=
  let '(value, j) := snapshot_native_value value j in
  (operation_of value (Serialize message_type compress), j).

Definition qvalue_list (values : JsArray Handle) (j : J) : bres UtilityOperation * J :=
  let '(copied, j) := snapshot_native_value_list values UTILITY_SNAPSHOT_LIMIT j in
  (operation_of copied (fun copied => QValueList copied.1), j).

Definition qvalue_dictionary (keys values : Handle) (j : J) : bres UtilityOperation * J :=
  match snapshot_native_value keys j with
  | (Ok keys, j) =>
    let '(values, j) := snapshot_native_value values j in (operation_of values (QValueDictionary keys), j)
  | (Err e, j) => (Ok (ready_operation e), j)
  | (Panicked, j) => (Panicked, j)
  | (OutOfFuel, j) => (OutOfFuel, j)
  end.

Definition qvalue_from_native_value (value : Handle) (j : J) : bres UtilityOperation * J :=
  let '(value, j) := snapshot_native_value value j in (operation_of value QValueNative, j).
End Calls.

(** ** Computing a task *)

Section Compute.
  Context `{Allocator} `{Chrono} {Series DataFrame : Type} `{!NativeLibraries Series DataFrame}.
  Context `{!SeriesEncoder Series DataFrame} `{!SeriesDecoder Series DataFrame} `{Lz4} `{FileSystem}.

Abbreviation kval := (K Series DataFrame).

Definition some_native (k : bres kval) : bres (option NativeValue) :=
  v ← k; n ← k_into_native v; Ok (Some n).

Definition qvalue_result (result : bres QValue) : bres NativeResult :=
  from_result (some_native (q ← result; Ok (KQValue q))).

Definition require_qvalue (value : kval) : bres QValue :=
  match value with
  | KQValue value => Ok value
  | _ => cannot_convert "qvalue list/dictionary constructors require XqdbQValue inputs"
  end.

Definition require_qvalues (values : list kval) : bres (list QValue) :=
  _ ← reserve (len values) (fun error =>
        conversion ("unable to allocate qvalue constructor input list: " +:+ error));
  convert_list require_qvalue values.

(** The value is serialized, and the body behind the header read back as a lossless one. *)
Definition qvalue_from_native (value : kval) : bres QValue :=
  match value with
  | KQValue value => Ok value
  | value =>
    frame ← map_err binding_error (generate_j6_ipc_msg Response false value);
    if len frame <? 8 then Err (internal "serialized q value omitted its IPC header")
    else map_err binding_error (from_owned_bytes (drop 8 frame))
  end.

(** The closure [catch_unwind] runs. *)
Definition run_operation (windows : bool) (operation : UtilityOperation) : bres NativeResult :=
  match operation with
  | Ready (Some result) => Ok result
  | Ready None => Ok (failure (internal "native utility task was computed more than once"))
  | ReadBinary path encoding =>
    from_result (some_native
      (_ ← validate_read_binary_path windows path;
       df ← map_err binding_error (read_j6_binary_table path encoding);
       Ok (KDataFrame df)))
  | Serialize message_type compress value =>
    from_result (some_native
      (message_type ← parse_message_type message_type;
       value ← into_k value;
       bytes ← map_err binding_error (generate_j6_ipc_msg message_type compress value);
       Ok (KCharVector bytes)))
  | DeserializeValue bytes encoding mode =>
    from_result (some_native (map_err binding_error (deserialize_j6 bytes encoding mode)))
  | DeserializeIpc bytes encoding mode =>
    match ('(message_type, value) ← map_err binding_error (deserialize_j6_ipc_msg bytes encoding mode);
           native ← k_into_native value;
           Ok (message_type_name message_type, native)) with
    | Ok (message_type, value) => Ok (success_with_message message_type value)
    | Err e => Ok (failure e)
    | Panicked => Panicked
    | OutOfFuel => OutOfFuel
    end
  | QValueBytes bytes => qvalue_result (map_err binding_error (from_bytes bytes))
  | QValueAtom kind payload => qvalue_result (map_err binding_error (QValue_atom kind payload))
  | QValueList values =>
    qvalue_result (values ← native_values_into_k values;
                   values ← require_qvalues values;
                   map_err binding_error (QValue_list values))
  | QValueDictionary keys values =>
    qvalue_result (keys ← into_k keys;
                   keys ← require_qvalue keys;
                   values ← into_k values;
                   values ← require_qvalue values;
                   map_err binding_error (QValue_dictionary keys values))
  | QValueNative value => qvalue_result (value ← into_k value; qvalue_from_native value)
  end.

(** [compute]: the operation is taken out of the task, a panic becomes a failure. *)
Definition compute (windows : bool) (task : UtilityOperation) : bres NativeResult * UtilityOperation :=
  (match run_operation windows task with
   | Panicked => Ok (failure (internal "native utility operation panicked"))
   | result => result
   end, Ready None).
End Compute.

(** ** What JavaScript serializes it gets back *)

Section Roundtrip.
  Context `{Chrono} `{!ChronoLaws} {Series DataFrame : Type} `{!NativeLibraries Series DataFrame} `{!NativeLaws}.
  Context `{!SeriesEncoder Series DataFrame} `{!SeriesEncoderLaws} `{!SeriesDecoder Series DataFrame}.
  Context `{!SeriesDecoderLaws} `{Lz4} `{FileSystem}.

Lemma parse_message_type_name name m : parse_message_type name = Ok m -> message_type_name m = name.
Proof.
  unfold parse_message_type. intros E.
  destruct (String.eqb_spec name "async") as [->|_]; [by injection E as <-|].
  destruct (String.eqb_spec name "sync") as [->|_]; [by injection E as <-|].
  destruct (String.eqb_spec name "response") as [->|_]; [by injection E as <-|done].
Qed.

(** C21: what JavaScript serializes it gets back.  Take a value of the core that
    serializes and crosses to JavaScript unchanged: the [plain] values of C3 that are
    [native_plain] as in C16, hence without series, tables and opaque values, nested in
    at most 64 levels.  Handed to JavaScript as an object, given to
    [serializeAsIpcBytes6] as a copy of that object, with or without compression, it
    becomes the frame the core generates for it; and [deserializeIpcBytes6] makes of
    that frame, with the message type it was given, the object of the value read back:
    the same object when the value holds no strings, and with char vectors for its
    strings otherwise. *)
Theorem utility_roundtrip (windows compress : bool) (name : string) (m : MsgType) (encoding : SymbolEncoding)
    (k : K Series DataFrame) (n back : NativeValue) (o : OwnedNativeValue) (bytes frame : list Z) :
  typed k -> plain k -> native_plain k -> wire_depth k <= MAX_VALUE_DEPTH ->
  serialize k = Ok bytes -> bytes_ok bytes -> 2 <= len bytes -> len bytes + 8 <= MAX_IPC_LENGTH_FIELD ->
  parse_message_type name = Ok m ->
  @k_into_native unlimited _ _ _ _ k = Ok n -> @owned_of_native unlimited _ _ _ _ n = Ok o ->
  @k_into_native unlimited _ _ _ _ (read_back k) = Ok back ->
  @generate_j6_ipc_msg unlimited _ _ _ _ m compress k = Ok frame ->
  fst (@compute unlimited _ _ _ _ _ _ _ _ windows (Serialize name compress o))
    = Ok (success (Some (set_bytes "bytes" frame)))
  /\ fst (@compute unlimited _ _ _ _ _ _ _ _ windows (DeserializeIpc frame encoding QValue.Native))
    = Ok (success_with_message name back)
  /\ (read_back k = k -> back = n).
Proof.
  intros Ht Hp Hnp Hd Hs Hb H2' Hmax Hm Hn Ho Hback Hg. unfold compute. cbn [fst run_operation].
  pose proof (native_roundtrip k n o Ht Hnp Hn Ho) as Hk.
  split_and!.
  - rewrite Hm. cbn [mbind outcome_bind]. rewrite Hk. cbn [mbind outcome_bind]. by rewrite Hg.
  - destruct (message_roundtrip m k bytes Ht Hs Hb H2' Hmax) as [_ Hr].
    rewrite (proj2 (Hr unlimited compress frame encoding Hg) Hp Hd). cbn. rewrite Hback. cbn.
    by rewrite (parse_message_type_name _ _ Hm).
  - intros E. rewrite E, Hn in Hback. by injection Hback.
Qed.
End Roundtrip.

(** ** A concrete round trip *)

#[local] Existing Instance sample_libraries.
#[local] Existing Instance sample_native_laws.
#[local] Existing Instance sample_lz4.
#[local] Existing Instance sample_files.

Definition travelling : K SampleSeries (list SampleSeries) :=
  KMixedList [KString [104; 105]; KI32 (-7); KSymbol [97; 98]; KDateTime 5; KBoolean true].

Definition travelling_bytes : list Z := match serialize travelling with Ok bytes => bytes | _ => [] end.
Definition travelling_native : bres NativeValue := @k_into_native unlimited _ _ _ _ travelling.
Definition travelling_back : bres NativeValue := @k_into_native unlimited _ _ _ _ (read_back travelling).
Definition travelling_owned : bres OwnedNativeValue := n ← travelling_native; @owned_of_native unlimited _ _ _ _ n.
Definition travelling_frame : res (list Z) := @generate_j6_ipc_msg unlimited _ _ _ _ Sync true travelling.

Lemma travelling_plain : native_plain travelling.
Proof.
  cbn [native_plain travelling foldr]. split_and!; try exact I; [by vm_compute|].
  intros n Hn. unfold i64_checked in Hn. injection Hn as <-. unfold MIN_Q_TIMESTAMP_UNIX_NANOS, i64_min. lia.
Qed.

Lemma utility_roundtrip_witness :
  exists back frame, travelling_back = Ok back /\ travelling_frame = Ok frame
    /\ fst (@compute unlimited _ _ _ _ _ _ _ _ false (DeserializeIpc frame Strict QValue.Native))
       = Ok (success_with_message "sync" back).
Proof.
  assert (typed travelling) as Ht.
  { cbn [typed travelling foldr]. split_and!; try exact I; try ascii; unfold i32_min, i32_max; lia. }
  destruct travelling_native as [n| | |] eqn:Hn; [|by vm_compute in Hn..].
  destruct travelling_back as [back| | |] eqn:Hback; [|by vm_compute in Hback..].
  destruct (@owned_of_native unlimited _ _ _ _ n) as [o| | |] eqn:Ho; [|exfalso..].
  2-4: assert (is_ok travelling_owned = true) as E by (by vm_compute);
    unfold travelling_owned in E; rewrite Hn in E; cbn in E; by rewrite Ho in E.
  destruct travelling_frame as [frame| | |] eqn:Hf; [|by vm_compute in Hf..].
  exists back, frame. split_and!; [done..|].
  refine (proj1 (proj2 (utility_roundtrip false true "sync" Sync Strict travelling n back o travelling_bytes frame
    Ht _ travelling_plain _ eq_refl _ _ _ eq_refl Hn Ho Hback Hf))).
  - cbn. split_and!; try exact I; try lia; [right; by left|done].
  - by vm_compute.
  - apply bytes_ok_dec. by vm_compute.
  - by vm_compute.
  - by vm_compute.
Defined.
