(* ===== verification/WorkerSpec.v ===== *)
(** * WorkerSpec: what JavaScript can rely on

    Over all interleavings of calls, of the collection of permits and of the connector,
    and of the worker: replies, limits and order. *)

From stdpp Require Import prelude strings gmap.
From Stdlib Require Import ZArith Lia ZifyBool.
From S2P Require Import Prelude Errors Types QValue Text Value AnyValue Serialize Deserialize Framing Stream Pipeline Receive Aborting Connector Float64 Binding Native JsSnapshot WorkerOptions Worker WorkerTokens WorkerSafe Sample.

Section Spec.
  Context `{Allocator} `{Chrono} {Series DataFrame : Type} `{!NativeLibraries Series DataFrame}.
  Context `{!SeriesEncoder Series DataFrame} `{!SeriesDecoder Series DataFrame} `{Tls}.

Abbreviation connector := (Connector Series DataFrame).
Abbreviation label := (label Series DataFrame).
Abbreviation system := (System Series DataFrame).

(** ** The worker, from label to label *)

Definition label_tokens (l : label) : list token :=
  match l with
  | AtWait _ n => [TPlaceholder n; TReceiver (Some n)]
  | AtCommand _ c => TReceiver None :: command_tokens c
  | AtConnect _ reply _ _ _ | AtRetry _ reply _ _ _ _ => [TReceiver None; TPromise reply]
  | AtDrain _ | AtTail _ | AtTailDrain _ | AtClose => [TReceiver None; TStopped]
  | AtDrop rest => rest ≫= command_tokens
  | Finished => []
  | _ => [TReceiver None]
  end.

Abbreviation at_label := (fun l H => H = label_tokens l).

Lemma never_safe T : safe T (never (Series := Series) (DataFrame := DataFrame)) at_label.
Proof. by intros s R b s' Hi. Qed.

Lemma complete_operation_safe reply r (c : connector) :
  safe [TReceiver None; TPromise reply] (complete_operation reply r c) at_label.
Proof.
  destruct r; cbn [complete_operation]; [..|apply never_safe].
  all: eapply safe_step; [apply resolve_atomic|instantiate (1 := [TReceiver None]); solve_Permutation|].
  all: intros _ H' ->; by apply safe_prog_ret.
Qed.

Lemma connect_round_safe (c : connector) reply retries attempt expected :
  safe [TReceiver None; TPromise reply] (connect_round c reply retries attempt expected) at_label.
Proof.
  unfold connect_round. eapply safe_step; [apply load_generation_atomic|cbn [app]; reflexivity|]. intros g T ->. cbn [app].
  destruct (negb _); [apply complete_operation_safe|]. apply safe_ask. intros env.
  destruct (connect _ c) as [[u|e| |] c']; [..|apply complete_operation_safe|apply never_safe].
  all: eapply safe_step; [apply load_generation_atomic|cbn [app]; reflexivity|]; intros g' T ->; cbn [app].
  all: destruct (negb _); [destruct (shutdown _ _) as [[| | |] ?]; first [apply complete_operation_safe|apply never_safe]|].
  - apply complete_operation_safe.
  - destruct (_ && _); [by apply safe_prog_ret|apply complete_operation_safe].
Qed.

Lemma retry_round_safe (c : connector) reply retries attempt expected time_left :
  safe [TReceiver None; TPromise reply] (retry_round c reply retries attempt expected time_left) at_label.
Proof.
  unfold retry_round. eapply safe_step; [apply load_generation_atomic|cbn [app]; reflexivity|]. intros g T ->. cbn [app].
  destruct (negb _); [apply complete_operation_safe|]. destruct (_ <=? _); [by apply safe_prog_ret|].
  apply safe_ask. intros d. by apply safe_prog_ret.
Qed.

Lemma perform_command_safe (c : connector) command :
  safe (TReceiver None :: command_tokens command) (perform_command c command) at_label.
Proof.
  unfold perform_command. eapply safe_step; [apply load_stopping_atomic|cbn [app]; reflexivity|]. intros [] T ->; cbn [app].
  { eapply safe_sub; [apply fail_command_safe|apply (Permutation_app_comm _ [TReceiver None])|].
    intros _ T ->. by apply safe_prog_ret. }
  destruct command as [n|o|]; cbn [command_tokens]; [| |by apply safe_prog_ret].
  - eapply safe_step; [apply slot_cancel_atomic|cbn [app]; reflexivity|]. intros _ T ->.
    eapply safe_sub; [apply drop_placeholder_safe|apply (Permutation_app_comm _ [TReceiver None])|].
    intros _ T ->. by apply safe_prog_ret.
  - eapply safe_step; [apply lock_drop_atomic|instantiate (1 := [TReceiver None; TPromise (op_reply o)]); solve_Permutation|].
    intros _ T ->. cbn [app]. destruct (op_job o) as [retries| | | |].
    2-5: apply safe_ask; intros env; destruct (perform_job env _ c) as [r c']; apply complete_operation_safe.
    eapply safe_step; [apply load_generation_atomic|cbn [app]; reflexivity|]. intros g T ->. by apply safe_prog_ret.
Qed.

Lemma fail_pending_safe message again (done : prog label) :
  label_tokens again = [TReceiver None; TStopped] -> safe [TReceiver None; TStopped] done at_label ->
  safe [TReceiver None; TStopped] (fail_pending message again done) at_label.
Proof.
  intros Hagain Hdone. unfold fail_pending. eapply safe_step; [apply try_recv_atomic|by rewrite app_nil_r|].
  intros [command|] T ->; rewrite app_nil_r; [|done].
  eapply safe_sub; [apply fail_command_safe|apply (Permutation_app_comm _ [TReceiver None; TStopped])|].
  intros _ T ->. apply safe_prog_ret. by rewrite Hagain.
Qed.

Lemma body_safe (l : label) : safe (label_tokens l) (body l) at_label.
Proof.
  destruct l as [c|c n|c command| | |c|c|p|p| |[|command rest]|]; cbn [body label_tokens].
  - eapply safe_step; [apply load_stopping_atomic|cbn [app]; reflexivity|]. intros [] T ->; [by apply safe_prog_ret|].
    eapply safe_step; [apply recv_atomic|by rewrite app_nil_r|].
    intros [[n|o|]|] T ->; rewrite app_nil_r; [|by apply safe_prog_ret..].
    eapply safe_perm; [|by apply safe_prog_ret]. apply perm_swap.
  - eapply safe_step; [apply slot_wait_atomic|by rewrite app_nil_r|].
    intros [[o|]|] T ->; rewrite app_nil_r; [by apply safe_prog_ret| |by apply safe_prog_ret].
    eapply safe_sub; [apply drop_placeholder_safe|cbn [app]; reflexivity|]. intros _ T ->. by apply safe_prog_ret.
  - apply perform_command_safe.
  - apply connect_round_safe.
  - apply retry_round_safe.
  - eapply safe_step; [apply store_stopping_stops|by rewrite app_nil_l|]. intros _ T ->.
    eapply safe_perm; [|by apply safe_prog_ret]. apply perm_swap.
  - apply fail_pending_safe; [done|]. apply safe_ask. intros answer.
    destruct (shutdown answer c) as [[| | |] ?]; first [by apply safe_prog_ret|apply never_safe].
  - eapply safe_step; [apply store_stopping_atomic|cbn [app]; reflexivity|]. intros _ T ->. by apply safe_prog_ret.
  - apply fail_pending_safe; [done|]. by apply safe_prog_ret.
  - eapply safe_step; [apply close_receiver_atomic|by rewrite app_nil_r|]. intros rest T ->. rewrite app_nil_r. by apply safe_prog_ret.
  - by apply safe_prog_ret.
  - rewrite bind_cons. eapply safe_sub; [apply drop_command_safe|reflexivity|]. intros _ T ->. by apply safe_prog_ret.
  - by apply safe_prog_ret.
Qed.

(** ** All threads *)

Lemma call_safe limit p : call_of limit p -> safe [] p (fun _ H => H = []).
Proof.
  destruct 1; [apply reserve_safe|apply release_safe|apply cancel_safe|apply connect_call_safe
    |apply enqueue_permitted_safe..|apply enqueue_execution_safe].
Qed.

(** The tokens of the calls, those of the worker, and a state that fits them. *)
Definition sound (x : system) : Prop :=
  exists Hs Hw,
    inv (shared x) (concat Hs ++ Hw)
    /\ Forall2 (fun T p => safe T p (fun _ H => H = [])) Hs (calls x)
    /\ safe Hw (worker x) at_label.

Lemma prog_step_inv {A} (p p' : prog A) s s' :
  prog_step (p, s) (p', s') ->
  match p with
  | Ret _ => False
  | Act f rest => exists b, f s = Some (b, s') /\ p' = rest b
  | Ask B rest => exists b, p' = rest b /\ s' = s
  end.
Proof.
  change (prog_step (p, s) (p', s') ->
    match (p, s).1 with
    | Ret _ => False
    | Act f rest => exists b, f (p, s).2 = Some (b, (p', s').2) /\ (p', s').1 = rest b
    | Ask B rest => exists b, (p', s').1 = rest b /\ (p', s').2 = (p, s).2
    end).
  destruct 1; cbn [fst snd]; eauto.
Qed.

Lemma prog_step_safe {A} T R (p p' : prog A) s s' Q :
  safe T p Q -> inv s (T ++ R) -> prog_step (p, s) (p', s') -> exists T', inv s' (T' ++ R) /\ safe T' p' Q.
Proof.
  intros Hp Hi Hs%prog_step_inv. destruct p as [a|B f rest|B rest]; cbn [safe] in Hp; [done| |].
  - destruct Hs as (b & Hf & ->). exact (Hp s R b s' Hi Hf).
  - destruct Hs as (b & -> & ->). exists T. split; [done|apply Hp].
Qed.

Lemma worker_step_sound x y : sound x -> worker_step x y -> sound y.
Proof.
  intros (Hs & Hw & Hi & Hc & Hp) Hstep. destruct Hstep as [b s cs p p' s' Hstep|b s cs l Hl]; cbn [shared calls worker] in *.
  - eapply inv_perm in Hi; [|apply Permutation_app_comm].
    destruct (prog_step_safe _ _ _ _ _ _ _ Hp Hi Hstep) as (T' & Hi' & Hp').
    exists Hs, T'. split_and!; [|done..]. by eapply inv_perm; [apply Permutation_app_comm|].
  - destruct Hp as (T' & HT & ->). exists Hs, (label_tokens l). split_and!; [|done|apply body_safe].
    eapply inv_perm; [|exact Hi]. by rewrite HT.
Qed.

Lemma call_step_sound limit x y : sound x -> call_step limit x y -> sound y.
Proof.
  intros Hx Hstep. destruct Hstep as [b s pre p p' post s' w Hstep|b s pre r post w|s cs p w Hcall|b s cs n w|s w].
  - destruct Hx as (Hs & Hw & Hi & Hc & Hp). cbn [shared calls worker] in *.
    apply Forall2_app_inv_r in Hc as (Hpre & Hmid & Hc1 & Hc2 & ->).
    apply Forall2_cons_inv_r in Hc2 as (T & Hpost & Hpc & Hc2 & ->).
    rewrite concat_app in Hi. cbn [concat] in Hi.
    eapply inv_perm in Hi; [|instantiate (1 := T ++ (concat Hpre ++ concat Hpost ++ Hw)); solve_Permutation].
    destruct (prog_step_safe _ _ _ _ _ _ _ Hpc Hi Hstep) as (T' & Hi' & Hp').
    exists (Hpre ++ T' :: Hpost), Hw. split_and!; [|by apply Forall2_app; [|constructor]|done].
    eapply inv_perm; [|exact Hi']. rewrite concat_app. cbn [concat]. solve_Permutation.
  - destruct Hx as (Hs & Hw & Hi & Hc & Hp). cbn [shared calls worker] in *.
    apply Forall2_app_inv_r in Hc as (Hpre & Hmid & Hc1 & Hc2 & ->).
    apply Forall2_cons_inv_r in Hc2 as (T & Hpost & (T' & HT & ->) & Hc2 & ->).
    apply Permutation_nil_r in HT as ->.
    exists (Hpre ++ Hpost), Hw. split_and!; [|by apply Forall2_app|done].
    rewrite concat_app in *. exact Hi.
  - destruct Hx as (Hs & Hw & Hi & Hc & Hp). exists ([] :: Hs), Hw. split_and!; [done|constructor; [by eapply call_safe|done]|done].
  - destruct Hx as (Hs & Hw & Hi & Hc & Hp). exists ([] :: Hs), Hw.
    split_and!; [done|constructor; [apply finalize_permit_safe|done]|done].
  - destruct Hx as (Hs & Hw & Hi & Hc & Hp). cbn [shared calls worker] in *. apply Forall2_nil_inv_r in Hc as ->.
    exists [[]], Hw. split_and!; [done|constructor; [apply drop_connector_safe|constructor]|done].
Qed.

Lemma step_sound limit x y : sound x -> step limit x y -> sound y.
Proof. intros Hx [Hstep|Hstep]; [by eapply worker_step_sound|by eapply call_step_sound]. Qed.

(** A fresh admission with room. *)
Definition fresh_admission (a : AdmissionState) : Prop :=
  counts a = MkCounts 0 0 /\ 0 <= command_capacity a /\ 0 <= byte_capacity a.

Lemma start_sound a (c : connector) : fresh_admission a -> sound (MkSystem true (Shared_new a) [] (Ret (AtLoop c))).
Proof.
  intros (Hc & Hcap & Hbytes). exists [], [TReceiver None]. cbn [shared calls worker concat app].
  split_and!; [|constructor|by apply safe_prog_ret].
  assert (held_tokens (Shared_new a) = []) as Hheld by done. unfold inv. rewrite Hheld. cbn [app].
  split; cbn [Shared_new admission slots replies history queue receiver_alive].
  - split; rewrite ?Hc; cbn; try done; lia.
  - split; [apply NoDup_nil_2|by intros n ?%elem_of_nil|by intros n o ?|by intros n ?%elem_of_nil].
  - split; [apply NoDup_nil_2| |by intros p l ?].
    intros p. split; [by intros ?%elem_of_nil|done].
  - split; cbn; [lia|done| |done|done]. by intros n Hn%list_elem_of_singleton.
  - split; cbn; [done|]. by intros _ n Hn%elem_of_nil.
Qed.

Lemma reachable_sound limit a (c : connector) x : fresh_admission a -> reachable limit a c x -> sound x.
Proof. intros Ha. induction 1; [by apply start_sound|eapply step_sound; eauto]. Qed.

(** Once the worker is gone and no call is in progress, nobody holds a promise. *)
Lemma finished_promises x :
  sound x -> worker x = Ret Finished -> calls x = [] -> promises (held_tokens (shared x)) = [].
Proof.
  intros (Hs & Hw & Hi & Hc & Hp) Hfin Hcalls. rewrite Hcalls in Hc. rewrite Hfin in Hp.
  apply Forall2_nil_inv_r in Hc as ->. destruct Hp as (T & HT & ->). apply Permutation_nil_r in HT as ->.
  unfold inv in Hi. cbn [concat app label_tokens] in Hi. destruct Hi as [_ Hsl _ Hh _].
  assert (queue (shared x) = []) as Hq.
  { destruct Hh as [_ _ _ H4 H5]. destruct (receiver_alive _) eqn:Ealive; [|by destruct H4].
    exfalso. apply H5; [done|]. clear. unfold receivers, held_tokens, map_tokens. rewrite !omap_app.
    assert (Hnone : forall {A} (f : A -> list token) l, (forall a, receivers (f a) = []) -> receivers (l ≫= f) = []).
    { intros A f l Hf. unfold receivers in *. induction l as [|a l IH]; [done|].
      rewrite bind_cons, omap_app, Hf. exact IH. }
    unfold receivers in Hnone. rewrite !Hnone; [done|..].
    - by intros [].
    - by intros [n [[o|]|]].
    - intros [n [[o [r|]] k]]; done. }
  destruct (promises (held_tokens (shared x))) as [|p l] eqn:Ep; [done|exfalso].
  assert (p ∈ promises (held_tokens (shared x))) as Hin by (rewrite Ep; left).
  unfold promises in Hin. apply list_elem_of_omap in Hin as (t & Ht & Htp). destruct t; try done. injection Htp as ->.
  unfold held_tokens in Ht. rewrite Hq in Ht. cbn [mbind list_bind] in Ht. rewrite app_nil_r in Ht.
  apply elem_of_app in Ht as [Ht|Ht]; unfold map_tokens in Ht; apply list_elem_of_bind in Ht as ([n v] & Hv & Hin).
  - unfold permit_tokens in Hv. cbn [fst snd] in Hv. destruct (reservation _) in Hv; cbn in Hv; [|by apply elem_of_nil in Hv].
    by repeat apply elem_of_cons in Hv as [Hv|Hv]; try done; apply elem_of_nil in Hv.
  - apply elem_of_map_to_list in Hin. destruct v as [[o|]|]; [|by apply elem_of_nil in Hv..].
    pose proof (fit_filled _ _ _ Hsl n o Hin) as Hpl. unfold placeholders in Hpl.
    apply list_elem_of_omap in Hpl as (t & Ht & Htn). destruct t; try done. injection Htn as ->.
    unfold held_tokens in Ht. rewrite Hq in Ht. cbn [mbind list_bind] in Ht. rewrite app_nil_r in Ht. clear -Ht.
    apply elem_of_app in Ht as [Ht|Ht]; unfold map_tokens in Ht; apply list_elem_of_bind in Ht as ([k v] & Hv & _).
    + unfold permit_tokens in Hv. cbn [fst snd] in Hv. destruct (reservation _) in Hv; cbn in Hv; [|by apply elem_of_nil in Hv].
      by repeat apply elem_of_cons in Hv as [Hv|Hv]; try done; apply elem_of_nil in Hv.
    + destruct v as [[o'|]|]; [|by apply elem_of_nil in Hv..].
      by repeat apply elem_of_cons in Hv as [Hv|Hv]; try done; apply elem_of_nil in Hv.
Qed.

(** C6: every promise is resolved once.  Whatever calls are made, in whatever order and
    re-entering one another, wherever permits and the connector are collected, and
    however all this interleaves with the worker, no promise is resolved twice; and when
    the worker is gone and no call is in progress, every promise that was ever made has
    been resolved: no reply is lost to a worker that stops or panics while commands are
    committed, cancelled or dropped. *)
Theorem replies_once (limit : Z) (a : AdmissionState) (c : connector) (x : system) :
  fresh_admission a -> reachable limit a c x ->
  (forall p l, replies (shared x) !! p = Some l -> (length l <= 1)%nat)
  /\ (worker x = Ret Finished -> calls x = [] ->
      forall p l, replies (shared x) !! p = Some l -> exists r, l = [r]).
Proof.
  intros Ha Hr. pose proof (reachable_sound _ _ _ _ Ha Hr) as Hx. split.
  - destruct Hx as (Hs & Hw & Hi & _). apply (fit_once _ _ (fit_replies _ _ Hi)).
  - intros Hfin Hcalls p l Hp. pose proof (finished_promises _ Hx Hfin Hcalls) as Hnone.
    destruct Hx as (Hs & Hw & Hi & Hc & Hsafe). rewrite Hcalls in Hc. rewrite Hfin in Hsafe.
    apply Forall2_nil_inv_r in Hc as ->. destruct Hsafe as (T & HT & ->). apply Permutation_nil_r in HT as ->.
    destruct (fit_replies _ _ Hi) as [_ Hun Hone]. specialize (Hone p l Hp). cbn [concat app label_tokens] in Hun.
    destruct l as [|r [|]]; [|by exists r|cbn in Hone; lia].
    apply Hun in Hp. rewrite Hnone in Hp. by apply elem_of_nil in Hp.
Qed.

(** The reservations of permits that are open, of commands that wait in slots, and of
    commands in the queue. *)
Definition live_reservations (s : Shared) : list Z :=
  omap (fun e => reserved_bytes <$> reservation (permit_admission e.2)) (map_to_list (permits s))
  ++ omap (fun e : nat * CommandSlot =>
       match e.2 with Some (Some o) => Some (reserved_bytes (op_reservation o)) | _ => None end)
       (map_to_list (slots s))
  ++ omap (fun c => match c with Run o => Some (reserved_bytes (op_reservation o)) | _ => None end) (queue s).

Lemma omap_bind {A} (f : A -> list token) (g : A -> option Z) l :
  (forall a, reservations (f a) = option_list (g a)) -> reservations (l ≫= f) = omap g l.
Proof.
  intros Hf. unfold reservations in *. induction l as [|a l IH]; [done|].
  rewrite bind_cons, omap_app, Hf, IH. cbn. by destruct (g a).
Qed.

Lemma live_reservations_held s : reservations (held_tokens s) = live_reservations s.
Proof.
  unfold held_tokens, live_reservations, map_tokens. unfold reservations. rewrite !omap_app.
  f_equal; [|f_equal]; apply omap_bind.
  - intros [n [[o [r|]] k]]; done.
  - by intros [n [[o|]|]].
  - by intros [].
Qed.

(** C12: the admission counts exactly what waits.  At every moment the commands admitted
    and the bytes they hold stay within the capacities of the connector; and whenever no
    call is in progress and the worker holds no command, the counts are exactly those of
    the permits that are open and of the commands that wait: no refusal, failed snapshot,
    cancellation or panic leaks a place in the queue, or gives one back twice. *)
Theorem admission_exact (limit : Z) (a : AdmissionState) (c : connector) (x : system) :
  fresh_admission a -> reachable limit a c x ->
  let n := counts (admission (shared x)) in
  0 <= queued_commands n <= command_capacity (admission (shared x))
  /\ 0 <= queued_bytes n <= byte_capacity (admission (shared x))
  /\ (forall l, calls x = [] -> worker x = Ret l ->
        match l with AtCommand _ _ | AtDrop _ => False | _ => True end ->
        queued_commands n = len (live_reservations (shared x))
        /\ queued_bytes n = foldr Z.add 0 (live_reservations (shared x))).
Proof.
  intros Ha Hr n. destruct (reachable_sound _ _ _ _ Ha Hr) as (Hs & Hw & Hi & Hc & Hp).
  destruct (fit_admission _ _ Hi) as [Hn Hb Hsizes Hcap Hroom]. pose proof (sum_nonneg _ Hsizes).
  split; [unfold n; lia|]. split; [unfold n; lia|]. intros l Hcalls Hl Hrest.
  rewrite Hcalls in Hc. rewrite Hl in Hp. apply Forall2_nil_inv_r in Hc as ->. destruct Hp as (T & HT & ->).
  assert (reservations (concat [] ++ Hw ++ held_tokens (shared x)) ≡ₚ live_reservations (shared x)) as HR.
  { cbn [concat app]. unfold reservations. rewrite omap_app, HT. rewrite <- live_reservations_held. by destruct l. }
  rewrite app_assoc in HR. unfold n. rewrite Hn, Hb. split; [f_equal; by apply Permutation_length|by apply sum_perm].
Qed.

(** C23: commands are taken in the order their permits were reserved, and none is skipped.
    The worker receives placeholders in the order in which they were sent, and takes
    commands from their slots in that order, whatever order JavaScript commits them in.
    Until it is told to stop, it leaves no placeholder it received behind: of each, but
    for the last one received, it took the command or found the slot closed; and when it
    comes back to the head of its loop, of the last one too.  So it never gives up on a
    slot into which a command may still be committed. *)
Theorem commands_in_order (limit : Z) (a : AdmissionState) (c : connector) (x : system) :
  fresh_admission a -> reachable limit a c x ->
  let h := history (shared x) in
  sublist (taken h) (received h)
  /\ received h `prefix_of` sent h
  /\ (stopping (admission (shared x)) = false ->
      forall n, n ∈ received h ->
        n ∈ taken h \/ n ∈ refused h
        \/ (last (received h) = Some n /\ forall c', worker x <> Ret (AtLoop c'))).
Proof.
  intros Ha Hr h. destruct (reachable_sound _ _ _ _ Ha Hr) as (Hs & Hw & Hi & _ & Hp).
  destruct (fit_history _ _ Hi) as [Hone Htaken Hlast Hsent _]. destruct (fit_waits _ _ Hi) as [_ Hsettled]. split; [done|]. split.
  { unfold h. destruct (receiver_alive _); [rewrite Hsent; by eexists|by destruct Hsent]. }
  intros Hb n Hn. destruct (Hsettled Hb n Hn) as [|[|Hwait]]; [by left|by right; left|]. right. right. split.
  - destruct (Hlast n Hwait) as (l & Hl & _). unfold h. rewrite Hl. by rewrite last_snoc.
  - intros c' Hc'. rewrite Hc' in Hp. destruct Hp as (T & HT & ->).
    assert (receivers ((concat Hs ++ Hw) ++ held_tokens (shared x))
            ≡ₚ None :: receivers (concat Hs ++ held_tokens (shared x))) as HR.
    { unfold receivers. rewrite !omap_app, HT. cbn. solve_Permutation. }
    rewrite HR in Hone, Hwait. destruct (receivers (concat Hs ++ _)); [by apply list_elem_of_singleton in Hwait|cbn in Hone; lia].
Qed.
End Spec.
