(* ===== verification/WorkerEnds.v ===== *)
(** * WorkerEnds: the worker of a dropped connector comes to its end

    The worker's actions do not block once the connector was dropped ([lively]), what
    JavaScript still does is quiet ([aftermath]), and the worker's labels come to an end
    against such interference ([settles]). *)

From stdpp Require Import prelude strings gmap.
From Stdlib Require Import ZArith Lia ZifyBool.
From S2P Require Import Prelude Errors Types QValue Text Value AnyValue Serialize Deserialize Framing Stream Pipeline Receive Aborting Connector Float64 Binding Native JsSnapshot WorkerOptions Worker WorkerTokens WorkerSafe Sample WorkerSpec.

Section Spec.
  Context `{Allocator} `{Chrono} {Series DataFrame : Type} `{!NativeLibraries Series DataFrame}.
  Context `{!SeriesEncoder Series DataFrame} `{!SeriesDecoder Series DataFrame} `{Tls}.

Abbreviation connector := (Connector Series DataFrame).
Abbreviation label := (label Series DataFrame).
Abbreviation system := (System Series DataFrame).

(** ** The end of the worker *)

(** The connector was dropped: the worker is told to stop, and no sender is left. *)
Definition closing (s : Shared) : Prop := stopping (admission s) = true /\ sender_alive s = false.

(** An action that does not block then, and fills no queue. *)
Definition calm {B} (f : action B) : Prop :=
  forall s, closing s ->
    exists b s', f s = Some (b, s') /\ closing s' /\ (length (queue s') <= length (queue s))%nat.

Fixpoint lively {A} (m : prog A) : Prop :=
  match m with
  | Ret _ => True
  | Act f rest => (forall s, f s = None) \/ (calm f /\ forall b, lively (rest b))
  | Ask B rest => inhabited B /\ forall b, lively (rest b)
  end.

Lemma lively_bind {A B} (m : prog A) (f : A -> prog B) : lively m -> (forall a, lively (f a)) -> lively (m ≫= f).
Proof.
  intros Hm Hf. induction m as [a|C g rest IH|C rest IH]; [apply Hf| |]; cbn [lively] in Hm.
  - destruct Hm as [Hn|[Hc Hm]]; [by left|]. right. split; [done|]. intros b. by apply IH.
  - destruct Hm as [Hi Hm]. split; [done|]. intros b. by apply IH.
Qed.

Lemma lively_act {A B} (f : action B) (k : B -> prog A) : calm f -> (forall b, lively (k b)) -> lively (act f ≫= k).
Proof. intros Hf Hk. right. by split. Qed.

Ltac calm := intros s [Hstop Hsend]; unfold closing; cbn; repeat case_match; (do 2 eexists; split; [done|]); cbn; (split; [done|]); try lia.

Lemma calm_load_stopping : calm load_stopping. Proof. calm. Qed.
Lemma calm_store_stopping : calm store_stopping. Proof. calm. Qed.
Lemma calm_load_generation : calm load_generation. Proof. calm. Qed.
Lemma calm_lock_drop r : calm (lock_drop r). Proof. calm. Qed.
Lemma calm_slot_cancel n : calm (slot_cancel n).
Proof. unfold slot_cancel. calm. Qed.
Lemma calm_slot_fail n : calm (slot_fail n).
Proof. unfold slot_fail. calm. Qed.
Lemma calm_slot_wait n : calm (slot_wait n).
Proof. unfold slot_wait. calm. Qed.
Lemma calm_resolve p r : calm (resolve p r). Proof. calm. Qed.
Lemma calm_recv : calm recv.
Proof. intros s [Hs Hc]. unfold recv. rewrite Hc. destruct (queue s) eqn:E; (do 2 eexists; split; [done|]); cbn; rewrite ?E; cbn; split; (done || lia). Qed.
Lemma calm_try_recv : calm try_recv.
Proof. intros s [Hs Hc]. unfold try_recv. destruct (queue s) eqn:E; (do 2 eexists; split; [done|]); cbn; rewrite ?E; cbn; split; (done || lia). Qed.
Lemma calm_close_receiver : calm close_receiver.
Proof. intros s [Hs Hc]. do 2 eexists. split; [done|]. cbn. split; [done|lia]. Qed.
#[local] Hint Resolve calm_load_stopping calm_store_stopping calm_load_generation calm_lock_drop calm_slot_cancel
  calm_slot_fail calm_slot_wait calm_resolve calm_recv calm_try_recv calm_close_receiver lively_act lively_bind : lively.
#[local] Hint Extern 1 (lively (Ret _)) => exact I : lively.
#[local] Hint Extern 1 (lively (mret _)) => exact I : lively.
#[local] Hint Extern 1 (lively (act _)) => right; split; [|done] : lively.
#[local] Hint Extern 1 (lively never) => by left : lively.

Lemma lively_fail_operation o e : lively (fail_operation o e).
Proof. unfold fail_operation. auto with lively. Qed.
#[local] Hint Resolve lively_fail_operation : lively.
Lemma lively_fail_slot n e : lively (fail_slot n e).
Proof. unfold fail_slot. apply lively_act; [auto with lively|]. intros []; auto with lively. Qed.
#[local] Hint Resolve lively_fail_slot : lively.
Lemma lively_drop_placeholder n : lively (drop_placeholder n).
Proof. apply lively_fail_slot. Qed.
#[local] Hint Resolve lively_drop_placeholder : lively.
Lemma lively_fail_command c e : lively (fail_command c e).
Proof. destruct c; cbn [fail_command]; auto with lively. Qed.
Lemma lively_drop_command c : lively (drop_command c).
Proof. destruct c; cbn [drop_command]; auto with lively. Qed.
#[local] Hint Resolve lively_fail_command lively_drop_command : lively.
Lemma lively_complete reply r (c : connector) : lively (complete_operation reply r c).
Proof. destruct r; cbn [complete_operation]; auto with lively. Qed.
#[local] Hint Resolve lively_complete : lively.

(** An environment in which nobody answers. *)
Definition silence : Environment := {|
  interference := MkInterference false false;
  schedule := MkSchedule (fun history => history) (seq 0);
  shutdown_answer := fun _ => Ok tt;
  network := {|
    address := unit;
    to_socket_addrs _ _ := Ok [];
    elapsed _ := 0;
    tcp_connect _ _ := Err (IoError TimedOut EmptyString);
    set_options _ _ _ := Ok tt;
    client_connection _ _ _ := Err NotConnectedErr
  |}
|}.

Lemma lively_ask {A B} (k : B -> prog A) : B -> (forall b, lively (k b)) -> lively (ask B ≫= k).
Proof. intros b Hk. split; [by constructor|done]. Qed.

Lemma lively_connect_round (c : connector) reply retries attempt expected :
  lively (connect_round c reply retries attempt expected).
Proof.
  unfold connect_round. apply lively_act; [auto with lively|]. intros g. destruct (negb _); [auto with lively|].
  apply lively_ask; [exact silence|]. intros env.
  destruct (connect _ c) as [[u|e| |] c']; auto with lively.
  all: apply lively_act; [auto with lively|]; intros g'; destruct (negb _);
    [destruct (shutdown _ _) as [[| | |] ?]; auto with lively|auto with lively].
  destruct (_ && _); auto with lively.
Qed.

Lemma lively_retry_round (c : connector) reply retries attempt expected time_left :
  lively (retry_round c reply retries attempt expected time_left).
Proof.
  unfold retry_round. apply lively_act; [auto with lively|]. intros g. destruct (negb _); [auto with lively|].
  destruct (_ <=? _); [auto with lively|]. apply lively_ask; [|auto with lively].
  exists (Z.min time_left (25 * MILLISECOND)). lia.
Qed.

Lemma lively_perform (c : connector) command : lively (perform_command c command).
Proof.
  unfold perform_command. apply lively_act; [auto with lively|]. intros []; [auto with lively|].
  destruct command as [n|o|]; auto with lively.
  apply lively_act; [auto with lively|]. intros _. destruct (op_job o); auto with lively.
  all: apply lively_ask; [exact silence|]; intros env; destruct (perform_job env _ c); auto with lively.
Qed.

Lemma lively_pending message again (done : prog label) : lively done -> lively (fail_pending message again done).
Proof. intros Hd. unfold fail_pending. apply lively_act; [auto with lively|]. intros []; auto with lively. Qed.

Lemma lively_last (c : connector) : lively (last_shutdown c).
Proof.
  unfold last_shutdown. apply lively_ask; [exact (fun _ => Ok tt)|]. intros answer.
  destruct (shutdown _ _) as [[| | |] ?]; auto with lively.
Qed.

Lemma lively_body (l : label) : lively (body l).
Proof.
  destruct l as [c|c n|c command| | |c|c|p|p| |[|command rest]|]; cbn [body]; auto with lively.
  - apply lively_act; [auto with lively|]. intros []; [auto with lively|].
    apply lively_act; [auto with lively|]. intros [[]|]; auto with lively.
  - apply lively_act; [auto with lively|]. intros [[]|]; auto with lively.
  - apply lively_perform.
  - apply lively_connect_round.
  - apply lively_retry_round.
  - apply lively_pending, lively_last.
  - by apply lively_pending.
Qed.

Lemma step_lively limit x y : lively (worker x) -> step limit x y -> lively (worker y).
Proof.
  intros Hx [Hstep|Hstep]; [|by destruct Hstep]. destruct Hstep as [b s cs p p' s' Hstep|b s cs l Hl]; cbn [worker] in *; [|apply lively_body].
  apply prog_step_inv in Hstep. destruct p as [a|B f rest|B rest]; cbn [lively] in Hx; [done| |].
  - destruct Hstep as (v & Hf & ->). destruct Hx as [Hn|[_ Hx]]; [by rewrite Hn in Hf|apply Hx].
  - destruct Hstep as (v & -> & _). apply Hx.
Qed.

Lemma reachable_lively limit a (c : connector) x : reachable limit a c x -> lively (worker x).
Proof. induction 1; [done|by eapply step_lively]. Qed.

(** The worker comes to its end, whatever the environment answers and whatever JavaScript
    does between its steps: it is finished, or inside an operation of the connector that
    does not come back, or it has a next step and comes to its end after each. *)
Inductive ends (limit : Z) : system -> Prop :=
| ends_finished x : worker x = Ret Finished -> ends limit x
| ends_inside b s cs B (f : action B) rest : (forall s, f s = None) -> ends limit (MkSystem b s cs (Act f rest))
| ends_step x :
    (exists y, worker_step x y) ->
    (forall y z, worker_step x y -> rtc (call_step limit) y z -> ends limit z) -> ends limit x.

(** The same of the worker's program, against any interference that neither unlocks the
    worker's loop nor fills its queue. *)
Definition quieter (s s' : Shared) : Prop := closing s' /\ (length (queue s') <= length (queue s))%nat.

Inductive settles : prog label -> Shared -> Prop :=
| settles_finished s : settles (Ret Finished) s
| settles_inside B (f : action B) rest s : (forall s, f s = None) -> settles (Act f rest) s
| settles_label l s : l <> Finished -> (forall s', quieter s s' -> settles (body l) s') -> settles (Ret l) s
| settles_act B (f : action B) rest s v s1 :
    f s = Some (v, s1) -> closing s1 -> (forall s', quieter s1 s' -> settles (rest v) s') -> settles (Act f rest) s
| settles_ask B rest s :
    inhabited B -> (forall v s', quieter s s' -> settles (rest v) s') -> settles (Ask B rest) s.

Lemma ends_act {B} (f : action B) (rest : B -> prog label) s :
  calm f -> closing s ->
  (forall v s1 s', f s = Some (v, s1) -> closing s' -> (length (queue s') <= length (queue s1))%nat ->
     (length (queue s') <= length (queue s))%nat -> settles (rest v) s') -> settles (Act f rest) s.
Proof.
  intros Hf Hs Hrest. destruct (Hf s Hs) as (v & s1 & E & Hs1 & Hq). eapply settles_act; [done..|].
  intros s' [Hs' Hq']. eapply Hrest; [done..|lia].
Qed.

Lemma ends_ask {B} (rest : B -> prog label) s :
  B -> (forall v s', closing s' -> (length (queue s') <= length (queue s))%nat -> settles (rest v) s') ->
  settles (Ask B rest) s.
Proof. intros v Hrest. apply settles_ask; [by constructor|]. intros w s' [Hs' Hq]. by apply Hrest. Qed.

Lemma ends_label l s :
  l <> Finished ->
  (forall s', closing s' -> (length (queue s') <= length (queue s))%nat -> settles (body l) s') -> settles (Ret l) s.
Proof. intros Hl Hbody. apply settles_label; [done|]. intros s' [Hs Hq]. by apply Hbody. Qed.

(** Running a program that does not block. *)
Lemma ends_sub {B} (m : prog B) (f : B -> prog label) s :
  lively m -> closing s ->
  (forall v s', closing s' -> (length (queue s') <= length (queue s))%nat -> settles (f v) s') ->
  settles (m ≫= f) s.
Proof.
  revert s. induction m as [v|C g rest IH|C rest IH]; intros s Hm Hs Hf; cbn [lively] in Hm.
  - by apply Hf.
  - destruct Hm as [Hn|[Hg Hm]]; [by apply settles_inside|]. change (settles (Act g (fun c => rest c ≫= f)) s).
    apply ends_act; [done..|]. intros v s1 s' _ Hs' _ Hq. apply IH; [done..|]. intros w s'' Hs'' Hq'. apply Hf; [done|lia].
  - destruct Hm as [[v] Hm]. change (settles (Ask C (fun c => rest c ≫= f)) s). apply ends_ask; [done|].
    intros w s' Hs' Hq. apply IH; [done..|]. intros w' s'' Hs'' Hq'. apply Hf; [done|lia].
Qed.

Lemma ends_then_act {B} (f : action B) (k : B -> prog label) s :
  calm f -> closing s ->
  (forall v s1 s', f s = Some (v, s1) -> closing s' -> (length (queue s') <= length (queue s1))%nat ->
     (length (queue s') <= length (queue s))%nat -> settles (k v) s') -> settles (act f ≫= k) s.
Proof. apply ends_act. Qed.

(** After an action of which only its ending matters. *)
Lemma ends_then {B} (f : action B) (k : B -> prog label) s :
  calm f -> closing s -> (forall v s', closing s' -> settles (k v) s') -> settles (act f ≫= k) s.
Proof. intros Hf Hs Hk. apply ends_then_act; [done..|]. intros v s1 s' _ Hs' _ _. by apply Hk. Qed.

Lemma ends_then_ask {B} (k : B -> prog label) s :
  B -> (forall v s', closing s' -> settles (k v) s') -> settles (ask B ≫= k) s.
Proof. intros v Hk. apply ends_ask; [done|]. intros w s' Hs' _. by apply Hk. Qed.

Lemma ends_load_stopping (k : bool -> prog label) s :
  closing s -> (forall s', closing s' -> settles (k true) s') -> settles (act load_stopping ≫= k) s.
Proof.
  intros Hs Hk. apply ends_then_act; [auto with lively|done|]. intros v s1 s' [= <- <-] Hs' _ _.
  rewrite (proj1 Hs). by apply Hk.
Qed.

(** ** From each label *)

Ltac enter s Hs :=
  apply ends_label; [done|];
  let s' := fresh in let Hs' := fresh in
  intros s' Hs' _; clear s Hs; rename s' into s, Hs' into Hs; cbn [body].

Lemma ends_drop rest s : closing s -> settles (Ret (AtDrop rest)) s.
Proof.
  revert s. induction rest as [|command rest IH]; intros s Hs; enter s Hs.
  { by apply settles_finished. }
  apply ends_sub; [auto with lively|done|]. intros _ s' Hs' _. by apply IH.
Qed.

Lemma ends_close s : closing s -> settles (Ret AtClose) s.
Proof. intros Hs. enter s Hs. apply ends_then; [auto with lively|done|]. intros rest s' Hs'. by apply ends_drop. Qed.

(** Failing what is queued takes as many rounds as the queue is long. *)
Lemma ends_pending message again (done : prog label) s :
  closing s -> again <> Finished -> body again = fail_pending message again done ->
  (forall s', closing s' -> settles done s') -> settles (Ret again) s.
Proof.
  intros Hs Hagain Hbody Hdone. remember (length (queue s)) as n eqn:En. revert s Hs En.
  induction (lt_wf n) as [n _ IH]. intros s Hs ->. apply ends_label; [done|]. intros s0 Hs0 Hq0. rewrite Hbody.
  apply ends_then_act; [auto with lively|done|]. intros received s1 s' Hr Hs' Hq Hq'. unfold try_recv in Hr.
  destruct (queue s0) as [|command q] eqn:Eq; injection Hr as <- <-; [by apply Hdone|].
  apply ends_sub; [auto with lively|done|]. intros _ s'' Hs'' Hq''. cbn in *.
  apply (IH (length (queue s''))); [lia|done..].
Qed.

Lemma ends_tail panicked s : closing s -> settles (Ret (AtTail panicked)) s.
Proof.
  intros Hs. enter s Hs. apply ends_then; [auto with lively|done|]. intros _ s' Hs'.
  eapply (ends_pending _ (AtTailDrain panicked)); [done|done|reflexivity|]. intros s'' Hs''. by apply ends_close.
Qed.

Lemma ends_drain (c : connector) s : closing s -> settles (Ret (AtDrain c)) s.
Proof.
  intros Hs. eapply (ends_pending _ (AtDrain c)); [done|done|reflexivity|]. intros s' Hs'.
  apply ends_then_ask; [exact (fun _ => Ok tt)|]. intros answer s'' Hs''.
  destruct (shutdown answer c) as [[| | |] ?]; [by apply ends_tail..|by apply settles_inside].
Qed.

Lemma ends_stop (c : connector) s : closing s -> settles (Ret (AtStop c)) s.
Proof. intros Hs. enter s Hs. apply ends_then; [auto with lively|done|]. intros _ s' Hs'. by apply ends_drain. Qed.

Lemma ends_loop (c : connector) s : closing s -> settles (Ret (AtLoop c)) s.
Proof. intros Hs. enter s Hs. apply ends_load_stopping; [done|]. intros s' Hs'. by apply ends_stop. Qed.

Lemma ends_complete reply r (c : connector) s : closing s -> settles (complete_operation reply r c) s.
Proof.
  intros Hs. destruct r; cbn [complete_operation]; [..|by apply settles_inside].
  all: apply ends_then; [auto with lively|done|]; intros _ s' Hs'; by first [apply ends_loop|apply ends_stop].
Qed.

(** Waiting for a deadline: every sleep brings it nearer. *)
Lemma ends_retry (c : connector) reply retries attempt expected time_left s :
  closing s ->
  (forall s', closing s' -> settles (Ret (AtConnect c reply retries (attempt + 1) expected)) s') ->
  settles (Ret (AtRetry c reply retries attempt expected time_left)) s.
Proof.
  intros Hs Hconnect. remember (Z.to_nat time_left) as n eqn:En. revert time_left s Hs En.
  induction (lt_wf n) as [n _ IH]. intros time_left s Hs ->. enter s Hs. unfold retry_round.
  apply ends_then; [auto with lively|done|]. intros g s' Hs'. destruct (negb _); [by apply ends_complete|].
  destruct (Z.leb_spec time_left 0); [by apply Hconnect|].
  apply ends_then_ask; [exists (Z.min time_left (25 * MILLISECOND)); lia|].
  intros [d Hd] s'' Hs''. cbn [proj1_sig]. unfold MILLISECOND in Hd.
  apply (IH (Z.to_nat (time_left - d))); [lia|done..].
Qed.

Lemma ends_connect (c : connector) reply retries attempt expected s :
  closing s -> settles (Ret (AtConnect c reply retries attempt expected)) s.
Proof.
  remember (Z.to_nat (retries - attempt)) as n eqn:En. revert c attempt s En.
  induction (lt_wf n) as [n _ IH]. intros c attempt s -> Hs. enter s Hs. unfold connect_round.
  apply ends_then; [auto with lively|done|]. intros g s' Hs'. destruct (negb _); [by apply ends_complete|].
  apply ends_then_ask; [exact silence|]. intros env s'' Hs''.
  destruct (connect _ c) as [[u|e| |] c']; [..|by apply ends_complete|by apply settles_inside].
  all: apply ends_then; [auto with lively|done|]; intros g' s3 Hs3.
  all: destruct (negb _); [destruct (shutdown _ _) as [[| | |] ?]; by first [apply ends_complete|apply settles_inside]|].
  - by apply ends_complete.
  - destruct (Z.ltb_spec attempt retries); cbn [andb]; [|by apply ends_complete].
    destruct (is_retryable_connect e); [|by apply ends_complete].
    apply ends_retry; [done|]. intros s4 Hs4. apply (IH (Z.to_nat (retries - (attempt + 1)))); [lia|done..].
Qed.

Lemma ends_command (c : connector) command s : closing s -> settles (Ret (AtCommand c command)) s.
Proof.
  intros Hs. enter s Hs. apply ends_load_stopping; [done|]. intros s' Hs'.
  apply ends_sub; [auto with lively|done|]. intros _ s'' Hs'' _. by apply ends_stop.
Qed.

Lemma ends_wait (c : connector) n s : closing s -> settles (Ret (AtWait c n)) s.
Proof.
  intros Hs. enter s Hs. apply ends_then_act; [auto with lively|done|]. intros waited s1 s' Hw Hs' _ _.
  unfold slot_wait in Hw. destruct waited as [[o|]|].
  - by apply ends_command.
  - apply ends_sub; [auto with lively|done|]. intros _ s'' Hs'' _. by apply ends_loop.
  - exfalso. rewrite (proj1 Hs) in Hw. by repeat case_match.
Qed.

Lemma ends_any l s : closing s -> settles (Ret l) s.
Proof.
  intros Hs. destruct l.
  - by apply ends_loop.
  - by apply ends_wait.
  - by apply ends_command.
  - by apply ends_connect.
  - apply ends_retry; [done|]. intros s' Hs'. by apply ends_connect.
  - by apply ends_stop.
  - by apply ends_drain.
  - by apply ends_tail.
  - eapply (ends_pending _ (AtTailDrain _)); [done|done|reflexivity|]. intros s'' Hs''. by apply ends_close.
  - by apply ends_close.
  - by apply ends_drop.
  - by apply settles_finished.
Qed.

Lemma ends_prog p s : lively p -> closing s -> settles p s.
Proof.
  revert s. induction p as [l|B f rest IH|B rest IH]; intros s Hp Hs; cbn [lively] in Hp.
  - by apply ends_any.
  - destruct Hp as [Hn|[Hf Hp]]; [by apply settles_inside|]. apply ends_act; [done..|].
    intros v s1 s' _ Hs' _ _. by apply IH.
  - destruct Hp as [[v] Hp]. apply ends_ask; [done|]. intros w s' Hs' _. by apply IH.
Qed.


(** ** What JavaScript still does *)

Fixpoint always (P : forall B, action B -> Prop) {A} (m : prog A) : Prop :=
  match m with
  | Ret _ => True
  | Act f rest => P _ f /\ forall b, always P (rest b)
  | Ask B rest => forall b, always P (rest b)
  end.

Lemma always_bind P {A B} (m : prog A) (f : A -> prog B) :
  always P m -> (forall a, always P (f a)) -> always P (m ≫= f).
Proof.
  intros Hm Hf. induction m as [a|C g rest IH|C rest IH]; [apply Hf| |]; cbn [always] in Hm.
  - split; [apply Hm|]. intros b. by apply IH, Hm.
  - intros b. by apply IH, Hm.
Qed.

Lemma always_act P {A B} (f : action B) (k : B -> prog A) :
  P B f -> (forall b, always P (k b)) -> always P (act f ≫= k).
Proof. by split. Qed.

Lemma always_ask P {A B} (k : B -> prog A) : (forall b, always P (k b)) -> always P (ask B ≫= k).
Proof. done. Qed.

(** An action that leaves the sender as it is; one that is quiet once the connector is
    closing. *)
Definition keeps {B} (f : action B) : Prop :=
  forall s b s', f s = Some (b, s') -> sender_alive s' = sender_alive s.
Definition hushed {B} (f : action B) : Prop := forall s b s', f s = Some (b, s') -> closing s -> quieter s s'.

Abbreviation keeping := (always (@keeps)).
Definition silent {A} (m : prog A) : Prop := keeping m /\ always (@hushed) m.

Ltac keeps f := unfold f; intros s b s' E; repeat case_match; by simplify_eq.
Lemma keeps_load_stopping : keeps load_stopping. Proof. keeps load_stopping. Qed.
Lemma keeps_store_stopping : keeps store_stopping. Proof. keeps store_stopping. Qed.
Lemma keeps_load_generation : keeps load_generation. Proof. keeps load_generation. Qed.
Lemma keeps_bump_generation : keeps bump_generation. Proof. keeps bump_generation. Qed.
Lemma keeps_lock_reserve : keeps lock_reserve. Proof. keeps @lock_reserve. Qed.
Lemma keeps_lock_charge bytes r : keeps (lock_charge bytes r). Proof. keeps lock_charge. Qed.
Lemma keeps_lock_drop r : keeps (lock_drop r). Proof. keeps lock_drop. Qed.
Lemma keeps_new_slot : keeps new_slot. Proof. keeps new_slot. Qed.
Lemma keeps_slot_commit n o : keeps (slot_commit n o). Proof. keeps slot_commit. Qed.
Lemma keeps_slot_cancel n : keeps (slot_cancel n). Proof. keeps slot_cancel. Qed.
Lemma keeps_slot_fail n : keeps (slot_fail n). Proof. keeps slot_fail. Qed.
Lemma keeps_slot_wait n : keeps (slot_wait n). Proof. keeps slot_wait. Qed.
Lemma keeps_try_send command : keeps (try_send command). Proof. keeps try_send. Qed.
Lemma keeps_recv : keeps recv. Proof. keeps recv. Qed.
Lemma keeps_try_recv : keeps try_recv. Proof. keeps try_recv. Qed.
Lemma keeps_close_receiver : keeps close_receiver. Proof. keeps close_receiver. Qed.
Lemma keeps_new_promise : keeps new_promise. Proof. keeps new_promise. Qed.
Lemma keeps_resolve p r : keeps (resolve p r). Proof. keeps resolve. Qed.
Lemma keeps_store_permit n p : keeps (store_permit n p). Proof. keeps store_permit. Qed.
Lemma keeps_take_permit n : keeps (take_permit n). Proof. keeps take_permit. Qed.
Lemma keeps_release_permit n : keeps (release_permit n). Proof. keeps release_permit. Qed.
Lemma keeps_forget_permit n : keeps (forget_permit n). Proof. keeps forget_permit. Qed.
#[local] Hint Resolve keeps_load_stopping keeps_store_stopping keeps_load_generation keeps_bump_generation
  keeps_lock_reserve keeps_lock_charge keeps_lock_drop keeps_new_slot keeps_slot_commit keeps_slot_cancel keeps_slot_fail
  keeps_slot_wait keeps_try_send keeps_recv keeps_try_recv keeps_close_receiver keeps_new_promise keeps_resolve
  keeps_store_permit keeps_take_permit keeps_release_permit keeps_forget_permit : keeping.

(** Goes through a program, each case of each answer. *)
Ltac kept :=
  repeat lazymatch goal with
  | |- always _ (act _ ≫= _) => apply always_act; [auto with keeping|intros ?]
  | |- always _ (ask _ ≫= _) => apply always_ask; intros ?
  | |- always _ (_ ≫= _) => apply always_bind; [|intros ?]
  | |- always _ (act _) => by split; [auto with keeping|]
  | |- always _ (mret _) => exact I
  | |- always _ (Ret _) => exact I
  | |- always _ (match _ with _ => _ end) => case_match
  | |- always _ _ => by eauto with keeping
  end.

Lemma keeping_fail_operation o e : keeping (fail_operation o e). Proof. unfold fail_operation. kept. Qed.
#[local] Hint Resolve keeping_fail_operation : keeping.
Lemma keeping_fail_slot n e : keeping (fail_slot n e). Proof. unfold fail_slot. kept. Qed.
#[local] Hint Resolve keeping_fail_slot : keeping.
Lemma keeping_drop_placeholder n : keeping (drop_placeholder n). Proof. apply keeping_fail_slot. Qed.
#[local] Hint Resolve keeping_drop_placeholder : keeping.
Lemma keeping_fail_command c e : keeping (fail_command c e). Proof. destruct c; cbn [fail_command]; kept. Qed.
Lemma keeping_drop_command c : keeping (drop_command c). Proof. destruct c; cbn [drop_command]; kept. Qed.
Lemma keeping_drop_permit n p : keeping (drop_permit n p). Proof. unfold drop_permit, drop_reserved. kept. Qed.
Lemma keeping_drop_prepared n r : keeping (drop_prepared n r). Proof. unfold drop_prepared. kept. Qed.
Lemma keeping_create_deferred : keeping create_deferred. Proof. unfold create_deferred. kept. Qed.
#[local] Hint Resolve keeping_fail_command keeping_drop_command keeping_drop_permit keeping_drop_prepared
  keeping_create_deferred : keeping.
Lemma keeping_ready_result r : keeping (ready_result r). Proof. unfold ready_result. kept. Qed.
#[local] Hint Resolve keeping_ready_result : keeping.
Lemma keeping_enqueue_reserved n r job : keeping (enqueue_reserved n r job).
Proof. unfold enqueue_reserved. kept. Qed.
#[local] Hint Resolve keeping_enqueue_reserved : keeping.
Lemma keeping_enqueue_permitted n job : keeping (enqueue_permitted n job).
Proof. unfold enqueue_permitted. kept. Qed.
#[local] Hint Resolve keeping_enqueue_permitted : keeping.
Lemma keeping_abandon n r e : keeping (abandon n r e). Proof. unfold abandon. kept. Qed.
#[local] Hint Resolve keeping_abandon : keeping.

Lemma keeping_admitted {Handle A} (m : script Handle A) limit remaining r : keeping (admitted m limit remaining r).
Proof.
  revert remaining r. induction m as [a|bytes rest IH|B call rest IH]; intros remaining r; cbn [admitted]; [done| |].
  - case_match; [done|]. apply always_act; [auto with keeping|]. intros [charged r']. destruct charged; [apply IH|done..].
  - intros answer. apply IH.
Qed.
#[local] Hint Resolve @keeping_admitted : keeping.

Lemma keeping_call limit p : call_of limit p -> keeping p.
Proof.
  destruct 1 as [|n| |n retries|n|n|n Handle args mode].
  - unfold reserve. kept.
  - unfold release. kept.
  - unfold cancel. kept.
  - unfold connect_call. kept.
  - unfold disconnect_call. kept.
  - unfold receive_call. kept.
  - unfold enqueue_execution. kept.
Qed.

Lemma keeping_never : keeping (never (Series := Series) (DataFrame := DataFrame)).
Proof. split; [by intros s b s'|done]. Qed.
#[local] Hint Resolve keeping_never : keeping.

Lemma keeping_complete reply r (c : connector) : keeping (complete_operation reply r c).
Proof. destruct r; cbn [complete_operation]; kept. Qed.
#[local] Hint Resolve keeping_complete : keeping.

Lemma keeping_last (c : connector) : keeping (last_shutdown c).
Proof. unfold last_shutdown. kept. Qed.
Lemma keeping_pending message again (done : prog label) : keeping done -> keeping (fail_pending message again done).
Proof. intros Hd. unfold fail_pending. kept. Qed.
#[local] Hint Resolve keeping_last keeping_pending : keeping.

Lemma keeping_body (l : label) : keeping (body l).
Proof.
  destruct l as [c|c n|c command| | |c|c|p|p| |[|command rest]|]; cbn [body].
  3: unfold perform_command. 4: unfold connect_round. 5: unfold retry_round.
  all: kept. apply keeping_pending. exact I.
Qed.

(** Collecting a permit is silent. *)
Ltac hushed f :=
  unfold f; intros s b s' E [Hs Hc]; repeat case_match; simplify_eq;
  (split; [done|cbn; lia]).

Lemma hushed_slot_cancel n : hushed (slot_cancel n). Proof. hushed slot_cancel. Qed.
Lemma hushed_lock_drop r : hushed (lock_drop r). Proof. hushed lock_drop. Qed.
Lemma hushed_forget_permit n : hushed (forget_permit n). Proof. hushed forget_permit. Qed.

Lemma finalize_silent n : silent (finalize_permit n).
Proof.
  split; unfold finalize_permit, drop_permit, drop_reserved; [kept|].
  apply always_act; [apply hushed_forget_permit|]. intros [p|]; [|exact I].
  apply always_bind; [|done]. apply always_act; [apply hushed_slot_cancel|]. intros _.
  destruct (reservation p); [split; [apply hushed_lock_drop|done]|exact I].
Qed.

(** The connector is being dropped: until the sender is closed, it is there. *)
Fixpoint parting {A} (m : prog A) : Prop :=
  match m with
  | Ret _ => False
  | Act f rest =>
    forall s b s', f s = Some (b, s') -> sender_alive s = true ->
      if sender_alive s' then parting (rest b) else silent (rest b)
  | Ask B rest => forall b, parting (rest b)
  end.

Lemma parting_keeps {A B} (f : action B) (k : B -> prog A) :
  keeps f -> (forall b, parting (k b)) -> parting (act f ≫= k).
Proof. intros Hf Hk s b s' E Hs. rewrite (Hf s b s' E), Hs. apply Hk. Qed.

Lemma drop_parting : parting drop_connector.
Proof.
  unfold drop_connector. do 2 (apply parting_keeps; [auto with keeping|intros _]). intros answer.
  apply parting_keeps; [auto with keeping|intros _]. by intros s b s' [= <- <-] _.
Qed.

(** What the calls in progress can be: before the connector is dropped they all leave its
    sender alone; after, only the drop itself and the collection of permits are left. *)
Definition aftermath (x : system) : Prop :=
  keeping (worker x)
  /\ if connected x then sender_alive (shared x) = true /\ Forall keeping (calls x)
     else if sender_alive (shared x) then
       exists pre p post, calls x = pre ++ p :: post /\ parting p /\ Forall silent (pre ++ post)
     else Forall silent (calls x).

Lemma always_step P {A} (p p' : prog A) s s' : always P p -> prog_step (p, s) (p', s') -> always P p'.
Proof. intros Hp Hs%prog_step_inv. destruct p; [done| |]; destruct_and?; naive_solver. Qed.

Lemma keeping_step {A} (p p' : prog A) s s' :
  keeping p -> prog_step (p, s) (p', s') -> sender_alive s' = sender_alive s.
Proof.
  intros Hp Hs%prog_step_inv. destruct p as [a|B f rest|B rest]; [done| |].
  - destruct Hp as [Hf _], Hs as (b & E & _). by apply (Hf _ _ _ E).
  - by destruct Hs as (b & _ & ->).
Qed.

Lemma hushed_step {A} (p p' : prog A) s s' :
  always (@hushed) p -> closing s -> prog_step (p, s) (p', s') -> quieter s s'.
Proof.
  intros Hp Hc Hs%prog_step_inv. destruct p as [a|B f rest|B rest]; [done| |].
  - destruct Hp as [Hf _], Hs as (b & E & _). by apply (Hf _ _ _ E).
  - destruct Hs as (b & _ & ->). by split.
Qed.

Lemma parting_step {A} (p p' : prog A) s s' :
  parting p -> sender_alive s = true -> prog_step (p, s) (p', s') ->
  if sender_alive s' then parting p' else silent p'.
Proof.
  intros Hp Hc Hs%prog_step_inv. destruct p as [a|B f rest|B rest]; [done| |].
  - destruct Hs as (b & E & ->). by apply (Hp _ _ _ E).
  - destruct Hs as (b & -> & ->). rewrite Hc. apply Hp.
Qed.

Lemma silent_step {A} (p p' : prog A) s s' : silent p -> prog_step (p, s) (p', s') -> silent p'.
Proof. intros [H1' H2'] Hs. split; by eapply always_step. Qed.

Lemma aftermath_worker x y : aftermath x -> worker_step x y -> aftermath y.
Proof.
  intros [Hw Hx] Hstep. destruct Hstep as [b s cs p p' s' Hstep|b s cs l Hl]; cbn [worker connected shared calls] in *.
  - split; [by eapply always_step|]. cbn. by rewrite (keeping_step _ _ _ _ Hw Hstep).
  - split; [apply keeping_body|done].
Qed.

(** Two calls in progress, one of which moves. *)
Lemma split_two {A} (pre post pre' post' : list A) p q :
  pre ++ p :: post = pre' ++ q :: post' ->
  (pre = pre' /\ p = q /\ post = post')
  \/ (exists mid, pre' = pre ++ p :: mid /\ post = mid ++ q :: post')
  \/ (exists mid, pre = pre' ++ q :: mid /\ post' = mid ++ p :: post).
Proof.
  revert pre'. induction pre as [|a pre IH]; intros [|a' pre'] E; injection E as E1 E2; subst.
  - by left.
  - right. left. by exists pre'.
  - right. right. by exists pre.
  - destruct (IH pre' E2) as [(-> & -> & ->)|[(mid & -> & ->)|(mid & -> & ->)]]; [by left|right..].
    + left. by exists mid.
    + right. by exists mid.
Qed.

Lemma silent_calls s (pre : list (prog CallResult)) p p' post s' :
  Forall silent (pre ++ p :: post) -> prog_step (p, s) (p', s') ->
  sender_alive s' = sender_alive s /\ Forall silent (pre ++ p' :: post).
Proof.
  intros [Hpre [Hp Hpost]%Forall_cons]%Forall_app Hstep. split; [by eapply keeping_step; [apply Hp|]|].
  apply Forall_app. split; [done|]. constructor; [by eapply silent_step|done].
Qed.

(** One call moves while the connector is being dropped. *)
Lemma dropping_call s s' (pre : list (prog CallResult)) q q' post pre' p post' :
  pre ++ q :: post = pre' ++ p :: post' -> parting p -> Forall silent (pre' ++ post') -> sender_alive s = true ->
  prog_step (q, s) (q', s') ->
  if sender_alive s' then
    exists pre' p post', pre ++ q' :: post = pre' ++ p :: post' /\ parting p /\ Forall silent (pre' ++ post')
  else Forall silent (pre ++ q' :: post).
Proof.
  intros E Hp Hr Hs Hstep. apply split_two in E as [(-> & -> & ->)|[(mid & -> & ->)|(mid & -> & ->)]].
  - pose proof (parting_step _ _ _ _ Hp Hs Hstep) as Hp'. destruct (sender_alive s').
    + by exists pre', q', post'.
    + apply Forall_app in Hr as [H1' H2']. apply Forall_app. split; [done|]. by constructor.
  - rewrite <- app_assoc in Hr. destruct (silent_calls _ _ _ _ _ _ Hr Hstep) as [-> Hr']. rewrite Hs.
    exists (pre ++ q' :: mid), p, post'. rewrite <- !app_assoc. by split_and!.
  - rewrite app_assoc in Hr. destruct (silent_calls _ _ _ _ _ _ Hr Hstep) as [-> Hr']. rewrite Hs.
    exists pre', p, (mid ++ q' :: post). rewrite <- !app_assoc in *. by split_and!.
Qed.

Lemma dropping_return (r : CallResult) pre post pre' (p : prog CallResult) post' :
  pre ++ Ret r :: post = pre' ++ p :: post' -> parting p -> Forall silent (pre' ++ post') ->
  exists pre' p post', pre ++ post = pre' ++ p :: post' /\ parting p /\ Forall silent (pre' ++ post').
Proof.
  intros E Hp Hr. apply split_two in E as [(-> & <- & ->)|[(mid & -> & ->)|(mid & -> & ->)]]; [done| |].
  - exists (pre ++ mid), p, post'. rewrite <- !app_assoc in *. split_and!; [done..|].
    rewrite !Forall_app, ?Forall_cons in *. naive_solver.
  - exists pre', p, (mid ++ post). rewrite <- !app_assoc in *. split_and!; [done..|].
    rewrite !Forall_app, ?Forall_cons in *. naive_solver.
Qed.

Lemma aftermath_call limit x y : aftermath x -> call_step limit x y -> aftermath y.
Proof.
  intros [Hw Hx] Hstep. split; [by destruct Hstep|].
  destruct Hstep as [[] s pre p p' post s' w Hstep|[] s pre r post w|s cs p w Hcall|[] s cs n w|s w];
    cbn [worker connected shared calls] in *.
  - destruct Hx as [Hs [Hpre [Hp Hpost]%Forall_cons]%Forall_app]. rewrite (keeping_step _ _ _ _ Hp Hstep).
    split; [done|]. apply Forall_app. split; [done|]. constructor; [by eapply always_step|done].
  - destruct (sender_alive s) eqn:Es.
    + destruct Hx as (pre' & q & post' & E & Hq & Hr). by eapply dropping_call.
    + destruct (silent_calls _ _ _ _ _ _ Hx Hstep) as [-> Hx']. by rewrite Es.
  - destruct Hx as [Hs [Hpre [_ Hpost]%Forall_cons]%Forall_app]. by split; [|apply Forall_app].
  - destruct (sender_alive s).
    + destruct Hx as (pre' & q & post' & E & Hq & Hr). by eapply dropping_return.
    + apply Forall_app in Hx as [Hpre [_ Hpost]%Forall_cons]. by apply Forall_app.
  - destruct Hx as [Hs Hc]. split; [done|]. constructor; [by eapply keeping_call|done].
  - destruct Hx as [Hs Hc]. split; [done|]. constructor; [apply finalize_silent|done].
  - destruct (sender_alive s); [|constructor; [apply finalize_silent|done]].
    destruct Hx as (pre & p & post & -> & Hp & Hr). exists (finalize_permit n :: pre), p, post.
    split_and!; [done..|]. constructor; [apply finalize_silent|done].
  - destruct Hx as [-> _]. exists [], drop_connector, []. split_and!; [done|apply drop_parting|constructor].
Qed.

Lemma reachable_aftermath limit a (c : connector) x : reachable limit a c x -> aftermath x.
Proof.
  induction 1 as [|x y _ IH [Hstep|Hstep]]; [|by eapply aftermath_worker|by eapply aftermath_call].
  split; [exact I|]. by split.
Qed.

(** Between the steps of the worker. *)
Lemma calls_quieter limit x y :
  rtc (call_step limit) x y -> aftermath x -> closing (shared x) ->
  aftermath y /\ quieter (shared x) (shared y) /\ worker y = worker x.
Proof.
  induction 1 as [x|x y z Hstep _ IH]; intros Hx Hc; [done|].
  pose proof (aftermath_call _ _ _ Hx Hstep) as Hy.
  assert (quieter (shared x) (shared y) /\ worker y = worker x) as [[Hcy Hq] Hw].
  { destruct Hx as [_ Hx]. destruct Hstep as [b s pre p p' post s' w Hstep|b s pre r post w|s cs p w Hcall|b s cs n w|s w];
      cbn [worker connected shared calls] in *; try done.
    destruct Hc as [Hstop Hsend]. rewrite Hsend in Hx. destruct b; [by destruct Hx|].
    apply Forall_app in Hx as [_ [[_ Hp] _]%Forall_cons]. split; [by eapply hushed_step|done]. }
  destruct (IH Hy Hcy) as (Hz & [Hcz Hqz] & Hwz). split; [done|]. split; [split; [done|lia]|congruence].
Qed.

Lemma settles_ends limit p s :
  settles p s -> forall b cs, aftermath (MkSystem b s cs p) -> closing s -> ends limit (MkSystem b s cs p).
Proof.
  induction 1 as [s|B f rest s Hf|l s Hl _ IH|B f rest s v s1 E Hs1 _ IH|B rest s [v] _ IH]; intros b cs Hx Hc.
  - by apply ends_finished.
  - by apply ends_inside.
  - apply ends_step; [eexists; by apply worker_next|]. intros y z Hy Hz.
    pose proof (aftermath_worker _ _ Hx Hy) as Hay. 
    inversion Hy as [b0 s0 cs0 p p' s0' Hstep|]; subst; [by apply prog_step_inv in Hstep|].
    destruct (calls_quieter _ _ _ Hz Hay Hc) as (Haz & Hq & Hw). destruct z as [b' s' cs' w']. cbn in *. subst w'.
    apply IH; [done..|apply Hq].
  - apply ends_step; [eexists; by apply worker_steps, step_act|]. intros y z Hy Hz.
    pose proof (aftermath_worker _ _ Hx Hy) as Hay.
    inversion Hy as [b0 s0 cs0 p p' s0' Hstep|]; subst. apply prog_step_inv in Hstep as (w & E' & ->).
    rewrite E in E'. injection E' as <- <-.
    destruct (calls_quieter _ _ _ Hz Hay Hs1) as (Haz & Hq & Hw). destruct z as [b' s' cs' w']. cbn in *. subst w'.
    apply IH; [done..|apply Hq].
  - apply ends_step; [eexists; by apply (worker_steps _ _ _ _ _ _ (step_ask _ _ v _))|]. intros y z Hy Hz.
    pose proof (aftermath_worker _ _ Hx Hy) as Hay.
    inversion Hy as [b0 s0 cs0 p p' s0' Hstep|]; subst. apply prog_step_inv in Hstep as (w & -> & ->).
    destruct (calls_quieter _ _ _ Hz Hay Hc) as (Haz & Hq & Hw). destruct z as [b' s' cs' w']. cbn in *. subst w'.
    apply IH; [done..|apply Hq].
Qed.

(** C10: the worker comes to its end.  Once the connector was dropped (the worker is told
    to stop, and the channel has lost its sender), the worker finishes after finitely many
    steps of its own, wherever in its loop it is, whatever its environment answers, and
    whichever permits are collected meanwhile: a worker that waits for a command, for a
    connection or for the next attempt is never left behind, and it blocks nowhere except
    inside an operation of the connector that does not come back. *)
Theorem worker_ends (limit : Z) (a : AdmissionState) (c : connector) (x : system) :
  reachable limit a c x -> closing (shared x) -> ends limit x.
Proof.
  intros Hr Hs. pose proof (reachable_aftermath _ _ _ _ Hr) as Hx. pose proof (reachable_lively _ _ _ _ Hr) as Hl.
  destruct x. apply settles_ends; [by apply ends_prog|done..].
Qed.
End Spec.
