(* ===== verification/WorkerExamples.v ===== *)
(** * WorkerExamples: runs of a connector, evaluated

    Two commands are reserved; the second is committed first; the worker performs them in
    the order of their permits, and finishes after the connector is dropped. *)

From stdpp Require Import prelude strings gmap.
From Stdlib Require Import ZArith Lia.
From S2P Require Import Prelude Errors Types QValue Text Value AnyValue Serialize Deserialize Sample Framing Stream Pipeline Receive Aborting Connector ConnectorSpec Binding Float64 Native JsSnapshot WorkerOptions Worker NativeSpec WorkerTokens WorkerSafe WorkerSpec WorkerEnds.

#[local] Existing Instance unlimited.
#[local] Existing Instance sample_tls.
#[local] Existing Instance sample_libraries.

Abbreviation connector := (Connector SampleSeries (list SampleSeries)).
Abbreviation system := (System SampleSeries (list SampleSeries)).

(** ** Running a system *)

(** Actions, up to a question or a result. *)
Fixpoint drive {A} (n : nat) (m : prog A) (s : Shared) : prog A * Shared :=
  match n, m with
  | S n, Act f rest => match f s with Some (b, s') => drive n (rest b) s' | None => (m, s) end
  | _, _ => (m, s)
  end.

Fixpoint drive_worker (n : nat) (m : prog (label SampleSeries (list SampleSeries))) (s : Shared)
    : prog (label SampleSeries (list SampleSeries)) * Shared :=
  match n, m with
  | _, Ret Finished => (m, s)
  | S n, Ret l => drive_worker n (body l) s
  | S n, Act f rest => match f s with Some (b, s') => drive_worker n (rest b) s' | None => (m, s) end
  | _, _ => (m, s)
  end.

Definition asked {A} (m : prog A) : Type := match m with Ask B _ => B | _ => unit end.
Definition answer {A} (m : prog A) : asked m -> prog A := match m with Ask _ rest => rest | m => fun _ => m end.
Definition returned {A} (m : prog A) : bool := match m with Ret _ => true | _ => false end.

Definition current (x : system) : prog CallResult := match calls x with p :: _ => p | [] => Ret CallPanicked end.

Definition begin (p : prog CallResult) (x : system) : system :=
  MkSystem (connected x) (shared x) (p :: calls x) (worker x).
Definition move (x : system) : system :=
  let '(p, s) := drive 20 (current x) (shared x) in MkSystem (connected x) s (p :: tail (calls x)) (worker x).
Definition reply (x : system) (v : asked (current x)) : system :=
  MkSystem (connected x) (shared x) (answer (current x) v :: tail (calls x)) (worker x).
Definition leave (x : system) : system := MkSystem (connected x) (shared x) (tail (calls x)) (worker x).
Definition work (n : nat) (x : system) : system :=
  let '(w, s) := drive_worker n (worker x) (shared x) in MkSystem (connected x) s (calls x) w.
Definition work_reply (x : system) (v : asked (worker x)) : system :=
  MkSystem (connected x) (shared x) (calls x) (answer (worker x) v).
Definition collect (x : system) : system := MkSystem false (shared x) [drop_connector] (worker x).

Section Runs.
  Context (limit : Z) (a : AdmissionState) (c : connector).
Abbreviation reaches := (reachable limit a c).

Lemma reach_call b s cs p p' s' w :
  reaches (MkSystem b s (p :: cs) w) -> prog_step (p, s) (p', s') -> reaches (MkSystem b s' (p' :: cs) w).
Proof. intros Hr Hs. eapply reach_step; [exact Hr|]. apply step_calls. by apply (call_steps _ b s []). Qed.

Lemma begin_reaches p x : reaches x -> connected x = true -> call_of limit p -> reaches (begin p x).
Proof. intros Hr Hc Hp. destruct x; cbn in *; subst. eapply reach_step; [exact Hr|]. by apply step_calls, call_begin. Qed.

Lemma drive_reaches n b s cs p w :
  reaches (MkSystem b s (p :: cs) w) -> reaches (MkSystem b (drive n p s).2 ((drive n p s).1 :: cs) w).
Proof.
  revert p s. induction n as [|n IH]; intros p s Hr; [by destruct p|]. destruct p as [r|B f rest|B rest]; [done| |done].
  cbn [drive]. destruct (f s) as [[v s']|] eqn:E; [|done]. apply IH. eapply reach_call; [exact Hr|by apply step_act].
Qed.

Lemma move_reaches x : reaches x -> calls x <> [] -> reaches (move x).
Proof.
  intros Hr Hc. destruct x as [b s [|p cs] w]; [done|]. unfold move. cbn [current calls shared connected worker tail].
  apply (drive_reaches 20) in Hr. by destruct (drive 20 p s).
Qed.

Lemma reply_reaches x v : reaches x -> calls x <> [] -> reaches (reply x v).
Proof.
  intros Hr Hc. destruct x as [b s [|p cs] w]; [done|]. unfold reply. cbn [current calls shared connected worker tail] in *.
  destruct p as [r|B f rest|B rest]; [done..|]. eapply reach_call; [exact Hr|apply step_ask].
Qed.

Lemma leave_reaches x : reaches x -> returned (current x) = true -> calls x <> [] -> reaches (leave x).
Proof.
  intros Hr Hret Hc. destruct x as [b s [|p cs] w]; [done|]. cbn [current calls] in Hret. destruct p; [|done..].
  eapply reach_step; [exact Hr|]. apply step_calls. by apply (call_return _ b s []).
Qed.

Lemma worker_reaches x y : reaches x -> worker_step x y -> reaches y.
Proof. intros Hr Hs. eapply reach_step; [exact Hr|]. by apply step_worker. Qed.

Lemma work_reaches n x : reaches x -> reaches (work n x).
Proof.
  destruct x as [b s cs w]. unfold work. cbn [worker shared connected calls]. revert w s.
  induction n as [|n IH]; intros w s Hr; [by destruct w as [[]| |]|].
  destruct w as [l|B f rest|B rest]; [| |done].
  - destruct l; cbn [drive_worker]; try done; (apply IH; eapply worker_reaches; [exact Hr|by apply worker_next]).
  - cbn [drive_worker]. destruct (f s) as [[v s']|] eqn:E; [|done].
    apply IH. eapply worker_reaches; [exact Hr|]. by apply worker_steps, step_act.
Qed.

Lemma work_reply_reaches x v : reaches x -> reaches (work_reply x v).
Proof.
  intros Hr. destruct x as [b s cs [l|B f rest|B rest]]; [done..|].
  eapply worker_reaches; [exact Hr|]. apply worker_steps, step_ask.
Qed.

Lemma collect_reaches x : reaches x -> connected x = true -> calls x = [] -> reaches (collect x).
Proof.
  intros Hr Hc Hn. destruct x; cbn in *; subst. eapply reach_step; [exact Hr|]. apply step_calls, call_drop.
Qed.

Lemma move_calls x : calls x <> [] -> calls (move x) <> [].
Proof. intros Hc. unfold move. by destruct (drive _ _ _). Qed.
End Runs.

(** ** A run *)

Definition sample_admission : AdmissionState := (AdmissionState_new 7 1 2 100).1.
Definition idle : connector := Connector_new [] 1800 [] [] false 0 6.

Definition start : system := MkSystem true (Shared_new sample_admission) [] (Ret (AtLoop idle)).
(** A call that asks Node-API once, and succeeds. *)
Definition asks (x : system) (v : asked (current (move x))) : system := leave (move (reply (move x) v)).

#[local] Notation "x 'asking' v" := (asks x (v <: asked (current (move x)))) (at level 50, only parsing).

Definition reserved_first : system := begin reserve start asking @None string.
Definition reserved_both : system := begin reserve reserved_first asking @None string.
Definition committed_second : system := begin (disconnect_call 1) reserved_both asking @None string.
Definition committed_both : system := begin (disconnect_call 0) committed_second asking @None string.
(** The worker takes and performs the first command. *)
Definition in_hand : system := work 20 committed_both.
Definition performed : system := work_reply in_hand (silence <: asked (worker in_hand)).
Definition dropped : system := collect performed asking @Ok XqdbError unit tt.
(** It performs the command and stops. *)
Definition stopped : system := work 20 dropped.
Definition ended : system := work 40 (work_reply stopped (((fun _ => Ok tt) : shutdown_result) <: asked (worker stopped))).

Definition finished (x : system) : bool :=
  match worker x, calls x with Ret Finished, [] => true | _, _ => false end.
Definition reply_lengths (x : system) : list (option nat) :=
  (fun p => length <$> (replies (shared x) !! p)) <$> [0; 1; 2]%nat.

Lemma asks_reaches limit a c x v :
  reachable limit a c x -> calls x <> [] -> returned (current (move (reply (move x) v))) = true ->
  reachable limit a c (asks x v).
Proof.
  intros Hr Hc Hret. apply leave_reaches; [|done|by apply move_calls]. apply move_reaches; [|done].
  apply reply_reaches; [by apply move_reaches|by apply move_calls].
Qed.

Lemma start_reaches : reachable 1000 sample_admission idle start.
Proof. apply reach_start. Qed.

Lemma committed_second_reaches : reachable 1000 sample_admission idle committed_second.
Proof.
  apply asks_reaches; [apply begin_reaches; [|by vm_compute|apply call_disconnect]|done|by vm_compute].
  do 2 (apply asks_reaches; [apply begin_reaches; [|by vm_compute|apply call_reserve]|done|by vm_compute]).
  apply start_reaches.
Qed.

Lemma committed_reaches : reachable 1000 sample_admission idle committed_both.
Proof.
  apply asks_reaches; [apply begin_reaches; [|by vm_compute|apply call_disconnect]|done|by vm_compute].
  apply committed_second_reaches.
Qed.

Lemma dropped_reaches : reachable 1000 sample_admission idle dropped.
Proof.
  apply asks_reaches; [apply collect_reaches; [|by vm_compute|]|done|by vm_compute].
  - apply work_reply_reaches, work_reaches, committed_reaches.
  - apply length_zero_iff_nil. by vm_compute.
Qed.

Lemma ended_reaches : reachable 1000 sample_admission idle ended.
Proof. apply work_reaches, work_reply_reaches, work_reaches, dropped_reaches. Qed.

Lemma sample_fresh : fresh_admission sample_admission.
Proof. unfold fresh_admission. cbn. split_and!; [done|lia..]. Qed.

Lemma finished_ended x : finished x = true -> worker x = Ret Finished /\ calls x = [].
Proof. unfold finished. destruct (worker x) as [[]| |], (calls x); done. Qed.

(** The commands were committed in the other order, and performed in that of their
    permits; the second was failed, since the connector was gone. *)
Example ended_history :
  (taken (history (shared ended)), received (history (shared ended)), sent (history (shared ended)))
  = ([0], [0; 1], [0; 1])%nat.
Proof. by vm_compute. Qed.

(** ** Witnesses *)

Lemma replies_once_witness :
  reachable 1000 sample_admission idle ended
  /\ worker ended = Ret Finished /\ calls ended = []
  /\ reply_lengths ended = [Some 1; Some 1; None]%nat
  /\ forall p l, replies (shared ended) !! p = Some l -> exists r, l = [r].
Proof.
  destruct (finished_ended ended) as [Hw Hc]; [by vm_compute|].
  split; [apply ended_reaches|]. split; [exact Hw|]. split; [exact Hc|]. split; [by vm_compute|].
  exact (proj2 (replies_once 1000 sample_admission idle ended sample_fresh ended_reaches) Hw Hc).
Defined.

Lemma admission_exact_witness :
  reachable 1000 sample_admission idle committed_both
  /\ queued_commands (counts (admission (shared committed_both))) = 2
  /\ live_reservations (shared committed_both) = [0; 0]
  /\ 0 <= queued_commands (counts (admission (shared committed_both))) <= command_capacity (admission (shared committed_both)).
Proof.
  split; [apply committed_reaches|]. split; [by vm_compute|]. split; [by vm_compute|].
  exact (proj1 (admission_exact 1000 sample_admission idle committed_both sample_fresh committed_reaches)).
Defined.

(** The worker meets the first placeholder when only the second command is committed. *)
Definition polling : system := work 20 committed_second.

Lemma commands_in_order_witness :
  reachable 1000 sample_admission idle polling
  /\ slots (shared polling) !! 0%nat = Some None
  /\ match slots (shared polling) !! 1%nat with Some (Some (Some _)) => true | _ => false end = true
  /\ (sent (history (shared polling)), received (history (shared polling)), taken (history (shared polling)))
     = ([0; 1], [0], [])%nat
  /\ (0%nat ∈ taken (history (shared polling)) \/ 0%nat ∈ refused (history (shared polling))
      \/ (last (received (history (shared polling))) = Some 0%nat /\ forall c, worker polling <> Ret (AtLoop c))).
Proof.
  assert (reachable 1000 sample_admission idle polling) as H.
  { apply work_reaches, committed_second_reaches. }
  split; [exact H|]. do 3 (split; [by vm_compute|]).
  destruct (commands_in_order 1000 sample_admission idle polling sample_fresh H) as (_ & _ & Hsettled).
  apply Hsettled; [by vm_compute|]. apply (bool_decide_unpack _). by vm_compute.
Defined.

Lemma worker_ends_witness :
  reachable 1000 sample_admission idle dropped /\ finished dropped = false /\ ends 1000 dropped.
Proof.
  split; [apply dropped_reaches|]. split; [by vm_compute|].
  apply (worker_ends 1000 sample_admission idle); [apply dropped_reaches|]. split; by vm_compute.
Defined.

(** ** A connection that outlives its connector

    The worker looks at [stopping], the connector is dropped, and only then does the worker
    load the generation its connection belongs to. *)
Definition committed_connect : system := begin (connect_call 0 0) reserved_first asking @None string.
Definition late : system := collect (work 8 committed_connect) asking @Ok XqdbError unit tt.

(** It goes on connecting, though it was told to stop before it began. *)
Example late_connect :
  reachable 1000 sample_admission idle late
  /\ stopping (admission (shared late)) = true
  /\ match worker (work 20 late) with Ask _ _ => true | _ => false end = true
  /\ match worker (work 1 late) with Ret (AtConnect _ _ _ _ expected) => expected =? cancel_generation (shared late) | _ => false end
     = true.
Proof.
  split; [|split_and!; by vm_compute].
  apply asks_reaches; [apply collect_reaches; [|by vm_compute|]|done|by vm_compute].
  - apply work_reaches. apply asks_reaches; [apply begin_reaches; [|by vm_compute|apply call_connect]|done|by vm_compute].
    apply asks_reaches; [apply begin_reaches; [|by vm_compute|apply call_reserve]|done|by vm_compute].
    apply start_reaches.
  - apply length_zero_iff_nil. by vm_compute.
Qed.
