(* ===== verification/Python.v ===== *)
(** * Python: the Python binding
    ([py-xqdb/src/connector.rs], [py-xqdb/src/error.rs])

    Python objects live in a heap and are named by their place in it, so containers can be
    shared or contain themselves.  Converting an argument reads the heap; converting a
    result adds to it.  What PyO3, the interpreter and foreign objects answer is a class;
    numbers and texts are extracted as PyO3 documents, with its own messages shortened. *)

From stdpp Require Import prelude strings.
From Stdlib Require Import ZArith SpecFloat.
From S2P Require Import Prelude Errors Utf8 Types QValue Text Value AnyValue Serialize Float64 Deserialize Framing Stream Pipeline Receive Aborting Connector Io Binding Native WorkerOptions.

(** ** Exceptions *)

Inductive PyErrKind : Type :=
| TypeError | ValueError | OverflowError | MemoryError | XqdbIOErrorType | XqdbAuthErrorType | XqdbErrorType | OtherError.
Record PyErr : Type := MkPyErr { py_kind : PyErrKind; py_message : Message }.

Abbreviation pyres := (outcome PyErr).

Definition raise {A} (kind : PyErrKind) (message : string) : pyres A := Err (MkPyErr kind (Text message)).

(** [PyErr::from(PyXqdbError)] of a core error. *)
Definition python_error (e : XqdbError) : PyErr :=
  match e with
  | IOError _ | FailedToConnectErr _ | NotConnectedErr => MkPyErr XqdbIOErrorType (Shown e)
  | AuthErr => MkPyErr XqdbAuthErrorType (Shown e)
  | _ => MkPyErr XqdbErrorType (Shown e)
  end.

(** ** Objects *)

(** The date and time objects of Python, with PyO3's conversions to chrono and chrono's
    parts of a date and time. *)
Class PyTypes `{Chrono} := {
  py_date : Type;
  py_time : Type;
  py_delta : Type;
  py_datetime : Type;
  year : NaiveDate -> Z;
  month : NaiveDate -> Z;
  day : NaiveDate -> Z;
  date_of : DateTime -> NaiveDate;
  time_of : DateTime -> NaiveTime;
  checked_add_nanoseconds : DateTime -> Z -> option DateTime;
  new_date : Z -> Z -> Z -> pyres py_date;
  extract_date : py_date -> pyres NaiveDate;
  new_time : Z -> Z -> Z -> Z -> pyres py_time;
  extract_time : py_time -> pyres NaiveTime;
  new_delta : Z -> Z -> Z -> pyres py_delta;
  extract_delta : py_delta -> pyres Duration;
  new_datetime : Z -> Z -> Z -> Z -> Z -> Z -> Z -> pyres py_datetime;
  extract_naive : py_datetime -> pyres DateTime;
  tz_utcoffset : py_datetime -> option (pyres bool);
  extract_replaced : py_datetime -> pyres DateTime;
  extract_utc : py_datetime -> pyres DateTime;
  nanosecond_attribute : py_datetime -> pyres (option (pyres Z));
  guid_text : list Z -> list Z
}.

Inductive ArrowValue {Series DataFrame : Type} : Type :=
| ArrowDataFrame (df : DataFrame)
| ArrowSeries (s : Series).
Arguments ArrowValue : clear implicits.

(** An object of none of the types the code knows: its integer and its float, its
    [__arrow_c_stream__] and its [bytes], if it has them. *)
Record PyForeign {Series DataFrame : Type} : Type := MkForeign {
  foreign_type : string;
  foreign_integer : pyres Z;
  foreign_number : pyres Z;
  foreign_stream : pyres (option (pyres (ArrowValue Series DataFrame)));
  foreign_bytes : pyres (option (option (list Z)))
}.
Arguments PyForeign : clear implicits.

(** A [str] with lone surrogates has no UTF-8. *)
Inductive PyObject `{PyTypes} {Series DataFrame : Type} : Type :=
| PyNone
| PyBool (b : bool)
| PyInt (z : Z)
| PyFloat (bits : Z)
| PyString (text : pyres (list Z))
| PyBytes (bytes : list Z)
| PyQValue (v : QValue)
| PyQOperator (o : QOperator)
| PyQLambda (l : QLambda)
| PyArrowTable (df : DataFrame)
| PyArrowSeries (s : Series)
| PyDateTime (d : py_datetime)
| PyDate (d : py_date)
| PyTime (t : py_time)
| PyDelta (d : py_delta)
| PyDict (entries : list (nat * nat))
| PyList (values : list nat)
| PyTuple (values : list nat)
| PyOther (f : PyForeign Series DataFrame).
Arguments PyObject {_ _} Series DataFrame.

Section Objects.
  Context `{Allocator} `{PyTypes} {Series DataFrame : Type}.

Abbreviation kval := (K Series DataFrame).
Abbreviation object := (PyObject Series DataFrame).
Abbreviation heap := (list object).

Definition deref (h : heap) (r : nat) : object := default PyNone (h !! r).
Definition new_object (o : object) (h : heap) : nat * heap := (length h, h ++ [o]).

(** [extract::<iN>] and [extract::<u8>]. *)
Definition extract_integer (lo hi : Z) (o : object) : pyres Z :=
  z ← match o with
      | PyInt z => Ok z
      | PyBool b => Ok (Z.b2z b)
      | PyOther f => foreign_integer f
      | _ => raise TypeError "an integer is required"
      end;
  if between lo z hi then Ok z else raise OverflowError "integer out of range".

(** [extract::<f64>]; an integer is rounded to the nearest. *)
Definition extract_f64 (o : object) : pyres Z :=
  let of_integer z :=
    match binary_normalize 53 1024 z 0 false with
    | S754_infinity _ => raise OverflowError "int too large to convert to float"
    | x => Ok (bits_of_f64 x)
    end in
  match o with
  | PyFloat bits => Ok bits
  | PyInt z => of_integer z
  | PyBool b => of_integer (Z.b2z b)
  | PyOther f => foreign_number f
  | _ => raise TypeError "must be real number"
  end.

(** [extract::<&str>]. *)
Definition extract_str (o : object) : pyres (list Z) :=
  match o with PyString text => text | _ => raise TypeError "not an instance of str" end.

(** ** Atoms *)

Definition ATOM_KINDS : list (string * Z) :=
  [("boolean", 1); ("bool", 1); ("guid", 2); ("byte", 4); ("short", 5); ("int", 6); ("long", 7); ("real", 8);
   ("float", 9); ("char", 10); ("symbol", 11); ("timestamp", 12); ("month", 13); ("date", 14); ("datetime", 15);
   ("timespan", 16); ("minute", 17); ("second", 18); ("time", 19)].

Definition kind_message : string := "q atom kind must be a type name or integer code".

Definition parse_atom_kind (kind : object) : pyres Z :=
  parsed ←
    match kind with
    | PyBool _ => raise TypeError kind_message
    | PyString (Ok name) =>
      match find (fun '(known, _) => bool_decide (name = bytes_of_name known)) ATOM_KINDS with
      | Some (_, code) => Ok code
      | None => raise ValueError ("unsupported q atom kind " +:+ debug_str (name_of_bytes name))
      end
    | kind =>
      match extract_integer i64_min i64_max kind with
      | Ok numeric =>
        if between 0 numeric 255 then Ok numeric
        else raise ValueError ("unsupported q atom kind " +:+ show numeric)
      | Err _ => raise TypeError kind_message
      | Panicked => Panicked
      | OutOfFuel => OutOfFuel
      end
    end;
  if negb (between 1 parsed 19) || (parsed =? 3) then raise ValueError ("unsupported q atom kind " +:+ show parsed)
  else Ok parsed.

Definition hex_digit (b : Z) : option Z :=
  if between 48 b 57 then Some (b - 48)
  else if between 97 b 102 then Some (b - 87)
  else if between 65 b 70 then Some (b - 55)
  else None.

(** [u8::from_str_radix(text, 16)] of two characters; a sign is a plus. *)
Definition from_str_radix_16 (a b : Z) : option Z :=
  if a =? 43 then hex_digit b
  else x ← hex_digit a; y ← hex_digit b; Some (16 * x + y).

Fixpoint hex_pairs (compact : list Z) : option (list Z) :=
  match compact with
  | a :: b :: rest => v ← from_str_radix_16 a b; bytes ← hex_pairs rest; Some (v :: bytes)
  | _ => Some []
  end.

Definition guid_text_message : string := "q GUID atom value must be 16 bytes or a UUID string".

Definition parse_guid_bytes (value : object) : pyres (list Z) :=
  let other :=
    attribute ← match value with PyOther f => foreign_bytes f | _ => Ok None end;
    match attribute with
    | Some (Some bytes) =>
      if len bytes =? 16 then Ok bytes
      else raise TypeError "q GUID atom value must be 16 bytes, a UUID string, or uuid.UUID"
    | _ => raise TypeError "q GUID atom value must be 16 bytes, a UUID string, or uuid.UUID"
    end in
  match value with
  | PyBytes bytes =>
    if negb (len bytes =? 16) then raise ValueError "q GUID atom value must contain exactly 16 bytes" else Ok bytes
  | PyString (Ok text) =>
    if negb ((len text =? 32) || (len text =? 36)) then raise ValueError guid_text_message
    else
      let compact := base.filter (fun b => b <> 45) text in
      if negb (len compact =? 32) || negb (forallb (fun b => b <? 128) compact) then
        raise ValueError guid_text_message
      else ok_or (hex_pairs compact) (MkPyErr ValueError (Text guid_text_message))
  | _ => other
  end.

Definition null_atom_payload (kind : Z) : pyres (list Z) :=
  if (kind =? 1) || (kind =? 4) then Ok [0]
  else if kind =? 2 then Ok (replicate 16 0)
  else if kind =? 5 then Ok (i16_to_le (- 2 ^ 15))
  else if (kind =? 6) || between 13 kind 14 || between 17 kind 19 then Ok (i32_to_le i32_min)
  else if (kind =? 7) || (kind =? 12) || (kind =? 16) then Ok (i64_to_le i64_min)
  else if kind =? 8 then Ok (to_le 4 F32_NAN)
  else if (kind =? 9) || (kind =? 15) then Ok (to_le 8 F64_NAN)
  else if kind =? 10 then Ok [32]
  else if kind =? 11 then Ok [0]
  else Panicked.

(** [bytes], or the UTF-8 of a [str]. *)
Definition bytes_or_text (value : object) (message : string) : pyres (list Z) :=
  match value with
  | PyBytes bytes => Ok bytes
  | PyString (Ok text) => Ok text
  | _ => raise TypeError message
  end.

Definition is_none (o : object) : bool := match o with PyNone => true | _ => false end.
Definition is_bool (o : object) : bool := match o with PyBool _ => true | _ => false end.

(** The payload of an object that is not [None], by the kind. *)
Definition kind_payload (kind : Z) (value : object) : pyres (list Z) :=
  if kind =? 1 then
    match value with
    | PyBool b => Ok [Z.b2z b]
    | _ => raise TypeError "q boolean atom value must be bool or None"
    end
  else if kind =? 2 then parse_guid_bytes value
  else if kind =? 4 then v ← extract_integer 0 255 value; Ok [v]
  else if kind =? 5 then v ← extract_integer (- 2 ^ 15) (2 ^ 15 - 1) value; Ok (i16_to_le v)
  else if (kind =? 6) || between 13 kind 14 || between 17 kind 19 then
    v ← extract_integer i32_min i32_max value; Ok (i32_to_le v)
  else if (kind =? 7) || (kind =? 12) || (kind =? 16) then
    v ← extract_integer i64_min i64_max value; Ok (i64_to_le v)
  else if kind =? 8 then
    number ← extract_f64 value;
    let real := f32_of_f64 (f64_of_bits number) in
    if is_finite (f64_of_bits number) && negb (is_finite real) then
      raise ValueError "q real atom value exceeds the finite 32-bit float range"
    else Ok (to_le 4 (bits_of_f32 real))
  else if (kind =? 9) || (kind =? 15) then v ← extract_f64 value; Ok (to_le 8 v)
  else if kind =? 10 then
    bytes ← bytes_or_text value "q char atom value must be one byte or a one-byte UTF-8 string";
    if negb (len bytes =? 1) then raise ValueError "q char atom value must contain exactly one byte" else Ok bytes
  else if kind =? 11 then
    bytes ← bytes_or_text value "q symbol atom value must be str, bytes, or None";
    if Text.contains_nul bytes then raise ValueError "q symbol atom value cannot contain NUL bytes"
    else Ok (bytes ++ [0])
  else Panicked.

Definition atom_payload (kind : Z) (value : object) : pyres (list Z) :=
  if is_none value then null_atom_payload kind
  else if is_bool value && negb (kind =? 1) then raise TypeError "bool is only valid for a q boolean atom"
  else kind_payload kind value.

Definition XqdbQValue_new (body : list Z) : pyres QValue := map_err python_error (from_bytes body).
Definition XqdbQValue_atom (kind value : object) : pyres QValue :=
  kind ← parse_atom_kind kind;
  payload ← atom_payload kind value;
  map_err python_error (QValue_atom kind payload).

(** ** From q to Python *)

Definition MAX_CONVERSION_DEPTH : Z := 64.
Definition MAX_CALL_ARGUMENTS : Z := 8.
Definition MICROSECONDS_PER_SECOND : Z := 1000000.
Definition MICROSECONDS_PER_DAY : Z := 86400 * MICROSECONDS_PER_SECOND.

Definition python_date_parts (d : NaiveDate) : pyres (Z * Z * Z) :=
  if negb (between 1 (year d) 9999) then
    raise OverflowError ("year " +:+ show (year d) +:+ " is outside Python's supported range")
  else Ok (year d, month d, day d).

Definition python_microseconds (nanoseconds : Z) (type_name : string) : pyres Z :=
  if negb (nanoseconds mod 1000 =? 0) then
    raise ValueError (type_name +:+ " has sub-microsecond precision that Python cannot represent")
  else Ok (nanoseconds / 1000).

(** chrono's parts of a time of day. *)
Definition hour (t : NaiveTime) : Z := num_seconds_from_midnight t / 3600.
Definition minute (t : NaiveTime) : Z := num_seconds_from_midnight t / 60 mod 60.
Definition second (t : NaiveTime) : Z := num_seconds_from_midnight t mod 60.

Definition timespan_range : PyErr :=
  MkPyErr OverflowError (Text "q timespan is outside Python's supported range").

Definition duration_to_py (d : Duration) : pyres object :=
  nanoseconds ← ok_or (num_nanoseconds d) timespan_range;
  if negb (nanoseconds mod 1000 =? 0) then
    raise ValueError "q timespan has sub-microsecond precision that Python cannot represent"
  else
    let microseconds := nanoseconds / 1000 in
    let days := microseconds / MICROSECONDS_PER_DAY in
    let day_microseconds := microseconds mod MICROSECONDS_PER_DAY in
    days ← ok_or (try_i32 days) timespan_range;
    delta ← new_delta days (day_microseconds / MICROSECONDS_PER_SECOND) (day_microseconds mod MICROSECONDS_PER_SECOND);
    Ok (PyDelta delta).

(** The UTF-8 of a character below 256. *)
Definition char_text (v : Z) : list Z := if v <? 128 then [v] else [192 + v / 64; 128 + v mod 64].

(** The objects of the values without values inside. *)
Definition leaf_to_py (k : kval) : pyres object :=
  match k with
  | KBoolean b => Ok (PyBool b)
  | KGuid g => Ok (PyString (Ok (guid_text g)))
  | KU8 v | KI16 v | KI32 v | KI64 v => Ok (PyInt v)
  | KF32 bits => Ok (PyFloat (number_of_f32 bits))
  | KF64 bits => Ok (PyFloat bits)
  | KChar v => Ok (PyString (Ok (char_text v)))
  | KCharVector bytes => Ok (if is_utf8 bytes then PyString (Ok bytes) else PyBytes bytes)
  | KSymbol text | KString text => Ok (PyString (Ok text))
  | KDateTime t =>
    '(y, m, d) ← python_date_parts (date_of t);
    let time := time_of t in
    microsecond ← python_microseconds (nanosecond time) "q timestamp";
    datetime ← new_datetime y m d (hour time) (minute time) (second time) microsecond;
    Ok (PyDateTime datetime)
  | KDate d =>
    '(y, m, d) ← python_date_parts d;
    date ← new_date y m d;
    Ok (PyDate date)
  | KTime t =>
    microsecond ← python_microseconds (nanosecond t) "q time";
    time ← new_time (hour t) (minute t) (second t) microsecond;
    Ok (PyTime time)
  | KDuration d => duration_to_py d
  | KSeries s => Ok (PyArrowSeries s)
  | KDataFrame df => Ok (PyArrowTable df)
  | KOperator o => Ok (PyQOperator o)
  | KLambda l => Ok (PyQLambda l)
  | KQValue v => Ok (PyQValue v)
  | KNull => Ok PyNone
  | KMixedList _ | KDict _ => Panicked
  end.

(** [insert] of a map in the order of insertion: the value of a key that is there is
    replaced. *)
Fixpoint map_insert {A} (key : list Z) (a : A) (entries : list (list Z * A)) : list (list Z * A) :=
  match entries with
  | [] => [(key, a)]
  | (known, b) :: rest => if bool_decide (known = key) then (known, a) :: rest else (known, b) :: map_insert key a rest
  end.

(** [set_item]: the key that is there stays. *)
Definition set_item (key : list Z) (refs : nat * nat) (entries : list (list Z * (nat * nat)))
    : list (list Z * (nat * nat)) :=
  match find (fun e => bool_decide (e.1 = key)) entries with
  | Some (_, (known, _)) => map_insert key (known, refs.2) entries
  | None => map_insert key refs entries
  end.

(** The objects of the values of a list, in order. *)
Definition each_item (cast : kval -> heap -> pyres (nat * heap)) : list kval -> heap -> pyres (list nat * heap) :=
  fix items values h :=
    match values with
    | [] => Ok ([], h)
    | value :: values =>
      '(r, h) ← cast value h;
      '(refs, h) ← items values h;
      Ok (r :: refs, h)
    end.

(** Each value of a dictionary, and then its key. *)
Definition each_pair (cast : kval -> heap -> pyres (nat * heap))
    : list (list Z * kval) -> list (list Z * (nat * nat)) -> heap -> pyres (list (list Z * (nat * nat)) * heap) :=
  fix items entries done h :=
    match entries with
    | [] => Ok (done, h)
    | (key, value) :: entries =>
      '(r, h) ← cast value h;
      let '(name, h) := new_object (PyString (Ok key)) h in
      items entries (set_item key (name, r) done) h
    end.

Fixpoint cast_k_to_py_inner (k : kval) (depth : Z) (h : heap) {struct k} : pyres (nat * heap) :=
  if MAX_CONVERSION_DEPTH <? depth then raise ValueError "q value nesting exceeds 64 levels"
  else
    match k with
    | KMixedList values =>
      _ ← reserve (len values) (fun _ => MkPyErr MemoryError (Text "cannot allocate q mixed-list result"));
      '(refs, h) ← each_item (fun value h => cast_k_to_py_inner value (depth + 1) h) values h;
      Ok (new_object (PyTuple refs) h)
    | KDict entries =>
      let '(dict, h) := new_object (PyDict []) h in
      '(entries, h) ← each_pair (fun value h => cast_k_to_py_inner value (depth + 1) h) entries [] h;
      Ok (dict, <[dict := PyDict (map snd entries)]> h)
    | k => o ← leaf_to_py k; Ok (new_object o h)
    end.

Definition cast_k_to_py (k : kval) (h : heap) : pyres (nat * heap) := cast_k_to_py_inner k 0 h.

(** ** From Python to q *)

(** An Arrow object of the binding is imported like any other. *)
Class ArrowImport := {
  import_table : DataFrame -> pyres (ArrowValue Series DataFrame);
  import_series : Series -> pyres (ArrowValue Series DataFrame)
}.

Context `{!ArrowImport}.

Definition arrow_to_k (v : ArrowValue Series DataFrame) : kval :=
  match v with ArrowSeries s => KSeries s | ArrowDataFrame df => KDataFrame df end.

Definition datetime_range : PyErr :=
  MkPyErr OverflowError (Text "datetime is outside q's representable timestamp range").

Definition datetime_to_k (d : py_datetime) : pyres kval :=
  value ←
    match tz_utcoffset d with
    | None => extract_naive d
    | Some offset =>
      is_none ← offset;
      if is_none : bool then extract_replaced d else extract_utc d
    end;
  attribute ← nanosecond_attribute d;
  value ←
    match attribute with
    | Some attribute =>
      remainder ← attribute;
      if negb (between 0 remainder 999) then raise ValueError "datetime.nanosecond must be between 0 and 999"
      else ok_or (checked_add_nanoseconds value remainder) datetime_range
    | None => Ok value
    end;
  nanoseconds ← ok_or (timestamp_nanos_opt value) datetime_range;
  if nanoseconds <? MIN_Q_TIMESTAMP_UNIX_NANOS then Err datetime_range else Ok (KDateTime value).

Definition object_to_k (o : object) : pyres kval :=
  match o with
  | PyQValue v => Ok (KQValue v)
  | PyQOperator o => Ok (KOperator o)
  | PyQLambda l => Ok (KLambda l)
  | PyBool b => Ok (KBoolean b)
  | PyInt _ => z ← extract_integer i64_min i64_max o; Ok (KI64 z)
  | PyFloat bits => Ok (KF64 bits)
  | PyString text => text ← text; Ok (KSymbol text)
  | PyBytes bytes => Ok (KCharVector bytes)
  | PyArrowTable df => v ← import_table df; Ok (arrow_to_k v)
  | PyArrowSeries s => v ← import_series s; Ok (arrow_to_k v)
  | PyNone => Ok KNull
  | PyDateTime d => datetime_to_k d
  | PyDate d => d ← extract_date d; Ok (KDate d)
  | PyTime t =>
    t ← extract_time t;
    if negb (nanosecond t mod 1000000 =? 0) then raise ValueError "q time only supports millisecond precision"
    else Ok (KTime t)
  | PyDelta d =>
    d ← extract_delta d;
    _ ← ok_or (num_nanoseconds d)
          (MkPyErr OverflowError (Text "timedelta is outside q's representable timespan range"));
    Ok (KDuration d)
  | PyOther f =>
    stream ← foreign_stream f;
    match stream with
    | Some imported => v ← imported; Ok (arrow_to_k v)
    | None => raise TypeError ("unsupported Python type " +:+ foreign_type f)
    end
  | PyDict _ | PyList _ | PyTuple _ => Panicked
  end.

Fixpoint each_value (cast : nat -> pyres kval) (refs : list nat) : pyres (list kval) :=
  match refs with
  | [] => Ok []
  | r :: refs => v ← cast r; rest ← each_value cast refs; Ok (v :: rest)
  end.

Fixpoint each_entry (cast : nat -> pyres kval) (h : heap) (entries : list (nat * nat)) (dict : list (list Z * kval))
    : pyres (list (list Z * kval)) :=
  match entries with
  | [] => Ok dict
  | (key, value) :: entries =>
    key ← extract_str (deref h key);
    value ← cast value;
    each_entry cast h entries (map_insert key value dict)
  end.

Definition enter (active : list nat) (any : nat) : pyres unit :=
  if bool_decide (any ∈ active) then raise ValueError "cyclic Python containers cannot be converted to q" else Ok tt.

(** Every level refuses to be deeper than the limit, so the fuel is [python_levels]. *)
Fixpoint cast_to_k_inner (fuel : nat) (h : heap) (any : nat) (depth : Z) (active : list nat) : pyres kval :=
  match fuel with
  | O => OutOfFuel
  | S fuel =>
    if MAX_CONVERSION_DEPTH <? depth then raise ValueError "Python value nesting exceeds 64 levels"
    else
      let cast r := cast_to_k_inner fuel h r (depth + 1) (any :: active) in
      match deref h any with
      | PyDict entries => _ ← enter active any; entries ← each_entry cast h entries []; Ok (KDict entries)
      | PyList values | PyTuple values => _ ← enter active any; values ← each_value cast values; Ok (KMixedList values)
      | o => object_to_k o
      end
  end.

Definition python_levels : nat := 66.
Definition cast_to_k (h : heap) (any : nat) : pyres kval := cast_to_k_inner python_levels h any 0 [].

Definition cast_to_k_vec (h : heap) (args : list nat) : pyres (list kval) :=
  if MAX_CALL_ARGUMENTS <? len args then
    raise TypeError ("q functions accept at most " +:+ show MAX_CALL_ARGUMENTS +:+ " arguments")
  else each_value (cast_to_k h) args.
End Objects.
Arguments ArrowImport Series DataFrame : clear implicits.

(** ** Values of q, lossless *)

Section QValues.
  Context `{Allocator} `{PyTypes} {Series DataFrame : Type} `{!ArrowImport Series DataFrame}.
  Context `{!SeriesEncoder Series DataFrame}.

Abbreviation heap := (list (PyObject Series DataFrame)).

(** The interpreter: [xqdb._conversion.to_arrow_inputs], and what iterating an object
    gives; both may run any Python. *)
Class Interpreter := {
  to_arrow_inputs : heap -> nat -> pyres (nat * heap);
  try_iter : heap -> nat -> pyres (list (pyres nat))
}.

Context `{!Interpreter}.

(** The value is serialized, and the body behind the header read back. *)
Definition native_qvalue (h : heap) (value : nat) : pyres QValue :=
  '(converted, h) ← to_arrow_inputs h value;
  k ← cast_to_k h converted;
  frame ← map_err python_error (generate_j6_ipc_msg Sync false k);
  if len frame <? 8 then Panicked else map_err python_error (from_owned_bytes (drop 8 frame)).

Definition extract_qvalue (h : heap) (value : nat) : pyres QValue :=
  match deref h value with PyQValue v => Ok v | _ => native_qvalue h value end.

Fixpoint collect_qvalues (h : heap) (items : list (pyres nat)) (qvalues : list QValue) : pyres (list QValue) :=
  match items with
  | [] => Ok qvalues
  | item :: items =>
    item ← item;
    if len qvalues =? i32_max then
      raise OverflowError ("q general lists support at most " +:+ show i32_max +:+ " values")
    else
      _ ← reserve (len qvalues + 1) (fun error =>
            MkPyErr MemoryError (Text ("unable to grow q general-list input to " +:+ show (len qvalues + 1)
                                       +:+ " values: " +:+ error)));
      v ← extract_qvalue h item;
      collect_qvalues h items (qvalues ++ [v])
  end.

Definition XqdbQValue_list (h : heap) (values : nat) : pyres QValue :=
  match deref h values with
  | PyBytes _ | PyString _ => raise TypeError "XqdbQValue.list expects an iterable of values"
  | _ =>
    items ← try_iter h values;
    qvalues ← collect_qvalues h items [];
    map_err python_error (QValue_list qvalues)
  end.

Definition XqdbQValue_dictionary (h : heap) (keys values : nat) : pyres QValue :=
  keys ← extract_qvalue h keys;
  values ← extract_qvalue h values;
  map_err python_error (QValue_dictionary keys values).

Definition XqdbQValue_native (h : heap) (value : nat) : pyres QValue := native_qvalue h value.
End QValues.
Arguments Interpreter {_ _} Series DataFrame.

(** ** Options *)

Definition py_symbol_encoding (value : string) : pyres SymbolEncoding :=
  ok_or (symbol_encoding_from_name value)
    (MkPyErr ValueError (Text ("symbol_encoding must be 'strict' or 'lossy', got " +:+ debug_str value))).

Definition parse_compression (value : string) : pyres CompressionMode :=
  if String.eqb value "auto" then Ok Auto
  else if String.eqb value "on" then Ok On
  else if String.eqb value "off" then Ok Off
  else raise ValueError ("compression must be 'auto', 'on', or 'off', got " +:+ debug_str value).

Definition MAX_TIMEOUT_SECONDS : Z := 86400.

Definition parse_timeout (name : string) (seconds : Z) : pyres Z :=
  let value := f64_of_bits seconds in
  if negb (is_finite value) || SFltb value (S754_zero false) || SFltb (f64_of_i64 MAX_TIMEOUT_SECONDS) value then
    raise ValueError (name +:+ " must be a finite, non-negative number of seconds no greater than 86400")
  else
    let duration := from_secs_f64 value in
    Ok (if SFltb (S754_zero false) value && (duration =? 0) then 1 else duration).

(** [value.map(f).transpose()]. *)
Definition py_transpose {A B} (f : A -> pyres B) (value : option A) : pyres (option B) :=
  match value with Some a => b ← f a; Ok (Some b) | None => Ok None end.

Definition parse_optional_timeout (name : string) (value : option Z) : pyres (option Z) :=
  py_transpose (parse_timeout name) value.

Definition parse_pem `{PyTypes} {Series DataFrame} (name : string) (value : option (PyObject Series DataFrame))
    : pyres (option (list Z)) :=
  py_transpose (fun value => bytes_or_text value (name +:+ " must be PEM text as str or bytes")) value.

Definition py_value_mode (lossless : bool) : ValueMode := if lossless then Lossless else QValue.Native.

(** The arguments of [XqdbConnector]; floats are their bits. *)
Record PyOptions `{PyTypes} {Series DataFrame : Type} : Type := MkPyOptions {
  py_host : list Z;
  py_port : Z;
  py_user : list Z;
  py_password : list Z;
  py_enable_tls : bool;
  py_timeout : Z;
  py_version : Z;
  py_lossless : bool;
  py_compression : string;
  py_compression_threshold : Z;
  py_connect_timeout : option Z;
  py_read_timeout : option Z;
  py_write_timeout : option Z;
  py_max_message_bytes : option Z;
  py_max_pending_notifications : Z;
  py_tls_ca : option (PyObject Series DataFrame);
  py_tls_cert : option (PyObject Series DataFrame);
  py_tls_key : option (PyObject Series DataFrame);
  py_tls_server_name : option (list Z)
}.
Arguments PyOptions {_ _} Series DataFrame.

(** ** Connectors

    The connector is behind a mutex that a panic does not poison; the calls are made
    without the interpreter's lock. *)
Section Connectors.
  Context `{Allocator} `{PyTypes} {Series DataFrame : Type} `{!ArrowImport Series DataFrame}.
  Context `{!SeriesEncoder Series DataFrame} `{!SeriesDecoder Series DataFrame} `{Tls} `{Network}.

Abbreviation heap := (list (PyObject Series DataFrame)).
Abbreviation connector := (Connector Series DataFrame).

Definition XqdbConnector_new (o : PyOptions Series DataFrame) : pyres connector :=
  _ ← ensure (negb (py_compression_threshold o =? 0))
        (MkPyErr ValueError (Text "compression_threshold must be a positive integer"));
  _ ← ensure (bool_decide (py_max_message_bytes o <> Some 0))
        (MkPyErr ValueError (Text "max_message_bytes must be a positive integer"));
  _ ← ensure (negb (py_max_pending_notifications o =? 0))
        (MkPyErr ValueError (Text "max_pending_notifications must be a positive integer"));
  timeout ← parse_timeout "timeout" (py_timeout o);
  let q := Connector_new (py_host o) (py_port o) (py_user o) (py_password o) (py_enable_tls o) 0 (py_version o) in
  let q := set_timeout_encoding timeout (symbol_encoding q) q in
  compression ← parse_compression (py_compression o);
  connect_timeout ← parse_optional_timeout "connect_timeout" (py_connect_timeout o);
  read_timeout ← parse_optional_timeout "read_timeout" (py_read_timeout o);
  write_timeout ← parse_optional_timeout "write_timeout" (py_write_timeout o);
  tls_ca ← parse_pem "tls_ca" (py_tls_ca o);
  tls_cert ← parse_pem "tls_cert" (py_tls_cert o);
  tls_key ← parse_pem "tls_key" (py_tls_key o);
  let '(result, q) :=
    configure (MkSettings (py_value_mode (py_lossless o)) compression (py_compression_threshold o) connect_timeout
                 read_timeout write_timeout (py_max_message_bytes o) (py_max_pending_notifications o) tls_ca tls_cert
                 tls_key (py_tls_server_name o)) q in
  _ ← map_err python_error result;
  Ok q.

Definition get_symbol_encoding (c : connector) : string := symbol_encoding_name (symbol_encoding c).
Definition set_symbol_encoding (value : string) (c : connector) : pyres unit * connector :=
  match py_symbol_encoding value with
  | Ok encoding => (Ok tt, set_timeout_encoding (timeout c) encoding c)
  | Err e => (Err e, c)
  | Panicked => (Panicked, c)
  | OutOfFuel => (OutOfFuel, c)
  end.

(** A call of the connector, and what Python gets. *)
Definition py_result {A B} (r : outcome XqdbError A * connector) (f : A -> pyres B) : pyres B * connector :=
  (a ← map_err python_error r.1; f a, r.2).

Definition py_args (h : heap) (args : list nat) (c : connector) {A}
    (f : list (K Series DataFrame) -> pyres A * connector) : pyres A * connector :=
  match cast_to_k_vec h args with
  | Ok args => f args
  | Err e => (Err e, c)
  | Panicked => (Panicked, c)
  | OutOfFuel => (OutOfFuel, c)
  end.

Definition py_connect (env : Interference) (c : connector) : pyres unit * connector :=
  py_result (connect env c) (fun _ => Ok tt).

(** [XqdbAbortHandle::cancel], on the handle of the connector. *)
Definition py_cancel (answer : shutdown_result) (c : connector) : pyres unit * connector :=
  let '(a, _, result) := abort answer (abort_handle c) in (map_err python_error result, set_abort a c).

Definition py_shutdown (abort_answer answer : shutdown_result) (c : connector) : pyres unit * connector :=
  match py_cancel abort_answer c with
  | (Ok _, c) =>
    match shutdown answer c with
    | (Ok _, c) | (Err NotConnectedErr, c) => (Ok tt, c)
    | (Err e, c) => (Err (python_error e), c)
    | (Panicked, c) => (Panicked, c)
    | (OutOfFuel, c) => (OutOfFuel, c)
    end
  | (result, c) => (result, c)
  end.

Definition py_sync (env : Interference) (schedule : Schedule) (expr : list Z) (args : list nat) (h : heap)
    (c : connector) : pyres (nat * heap) * connector :=
  py_args h args c (fun args => py_result (execute env schedule expr args c) (fun k => cast_k_to_py k h)).

Definition py_asyn (env : Interference) (expr : list Z) (args : list nat) (h : heap) (c : connector)
    : pyres unit * connector :=
  py_args h args c (fun args => py_result (execute_async env expr args c) (fun _ => Ok tt)).

Definition py_receive (env : Interference) (schedule : Schedule) (h : heap) (c : connector)
    : pyres (nat * heap) * connector :=
  py_result (receive env schedule c) (fun k => cast_k_to_py k h).
End Connectors.

(** ** Functions without a connector *)

Section Functions.
  Context `{Allocator} `{PyTypes} {Series DataFrame : Type} `{!ArrowImport Series DataFrame}.
  Context `{!SeriesEncoder Series DataFrame} `{!SeriesDecoder Series DataFrame} `{Lz4} `{FileSystem}.

Abbreviation heap := (list (PyObject Series DataFrame)).

Definition py_read_j6_binary_table (filepath encoding : string) (h : heap) : pyres (nat * heap) :=
  encoding ← py_symbol_encoding encoding;
  frame ← map_err python_error (read_j6_binary_table filepath encoding);
  Ok (new_object (PyArrowTable frame) h).

Definition py_deserialize_value6 (body : list Z) (encoding : string) (lossless : bool) (h : heap)
    : pyres (nat * heap) :=
  encoding ← py_symbol_encoding encoding;
  value ← map_err python_error (deserialize_j6 body encoding (py_value_mode lossless));
  cast_k_to_py value h.

Definition py_message_type (m : MsgType) : string :=
  match m with Async => "async" | Sync => "sync" | Response => "response" end.

Definition py_deserialize_ipc_bytes6 (frame : list Z) (encoding : string) (lossless : bool) (h : heap)
    : pyres (nat * heap) :=
  encoding ← py_symbol_encoding encoding;
  '(message_type, value) ← map_err python_error (deserialize_j6_ipc_msg frame encoding (py_value_mode lossless));
  let '(message_type, h) := new_object (PyString (Ok (bytes_of_name (py_message_type message_type)))) h in
  '(value, h) ← cast_k_to_py value h;
  Ok (new_object (PyTuple [message_type; value]) h).

Definition py_msg_type (msg_type : Z) : pyres MsgType :=
  if msg_type =? 0 then Ok Async
  else if msg_type =? 1 then Ok Sync
  else if msg_type =? 2 then Ok Response
  else raise ValueError ("msg_type must be 0, 1, or 2; got " +:+ show msg_type).

Definition py_generate_j6_ipc_msg (msg_type : Z) (enable_compression : bool) (any : nat) (h : heap)
    : pyres (list Z) :=
  msg_type ← py_msg_type msg_type;
  value ← cast_to_k h any;
  map_err python_error (generate_j6_ipc_msg msg_type enable_compression value).
End Functions.
