(* ===== verification/PythonSpec.v ===== *)
(** * PythonSpec: what the Python binding promises

    What is built as a q atom is one, whatever object it is made of; a converted result
    without columns is accepted again as an argument and becomes its [py_image]; converting an
    argument ends on every heap and refuses containers that contain themselves. *)

From stdpp Require Import prelude strings.
From Stdlib Require Import ZArith Lia ZifyBool.
From S2P Require Import Prelude Errors Utf8 Types QValue QGrammar QValueFacts QValueTotal QValueSpec Text Value AnyValue Serialize Float64 Deserialize SerializeFacts DeserializeFacts Sample ConnectorFacts Binding Native Python.

(** ** Atoms *)

(** What the interpreter hands over is in the range of its type. *)
Definition object_ok `{PyTypes} {Series DataFrame} (o : PyObject Series DataFrame) : Prop :=
  match o with
  | PyBytes bytes => bytes_ok bytes
  | PyString text => forall bytes, text = Ok bytes -> bytes_ok bytes
  | PyOther f => returns (foreign_integer f) /\ returns (foreign_number f) /\ returns (foreign_bytes f)
                 /\ forall bytes, foreign_bytes f = Ok (Some (Some bytes)) -> bytes_ok bytes
  | _ => True
  end.

Section Atoms.
  Context `{PyTypes} {Series DataFrame : Type}.

Abbreviation object := (PyObject Series DataFrame).

Lemma extract_integer_ok lo hi (o : object) :
  object_ok o -> ok_with (extract_integer lo hi o) (fun z => lo <= z <= hi).
Proof.
  intros Ho. unfold extract_integer. apply ok_with_bind with (fun _ => True).
  - destruct o; try done. split; [apply Ho|done].
  - intros z _. destruct (between lo z hi) eqn:E; [|done]. apply ok_with_ret. bool_lia.
Qed.

Lemma extract_f64_ok (o : object) : object_ok o -> ok_with (extract_f64 o) (fun _ => True).
Proof.
  intros Ho. unfold extract_f64. destruct o; try done; [| |split; [apply Ho|done]];
    by destruct (SpecFloat.binary_normalize _ _ _ _ _).
Qed.

Lemma parse_atom_kind_range (kind : object) code :
  parse_atom_kind kind = Ok code -> 1 <= code <= 19 /\ code <> 3.
Proof.
  intros (parsed & _ & Hp)%bind_Ok. destruct (_ || _) eqn:E; [done|]. injection Hp as <-.
  split; [bool_lia|bool_lia].
Qed.

Lemma hex_pairs_length n : forall text bytes,
  length text = (2 * n)%nat -> hex_pairs text = Some bytes -> length bytes = n /\ bytes_ok bytes.
Proof.
  induction n as [|n IH]; intros text bytes Hl Hb.
  - destruct text; [|done]. injection Hb as <-. split; [done|constructor].
  - destruct text as [|a [|b text]]; [done|simpl in Hl; lia|]. simpl in Hb.
    destruct (from_str_radix_16 a b) as [v|] eqn:Hv; [|done]. simpl in Hb.
    destruct (hex_pairs text) as [rest|] eqn:Hr; [|done]. injection Hb as <-.
    destruct (IH text rest) as [Hlen Hok]; [simpl in Hl; lia|done|]. split; [simpl; lia|].
    constructor; [|done]. unfold from_str_radix_16, hex_digit, is_byte in *.
    repeat match goal with E : context [if ?c then _ else _] |- _ => destruct c eqn:?; simpl in E end;
      simplify_eq; bool_lia.
Qed.
Lemma hex_pairs_ok text :
  length text = 32%nat -> forall bytes, hex_pairs text = Some bytes -> bytes_ok bytes /\ len bytes = 16.
Proof. intros Hl bytes Hb. destruct (hex_pairs_length 16 text bytes Hl Hb). split; [done|lia]. Qed.

Lemma parse_guid_bytes_ok (value : object) :
  object_ok value -> ok_with (parse_guid_bytes value) (fun bytes => bytes_ok bytes /\ len bytes = 16).
Proof.
  intros Ho. destruct value; unfold parse_guid_bytes; try done.
  - destruct text as [text| | |]; try done. apply ok_with_guard. intros _. apply ok_with_guard. intros E.
    apply ok_with_ok_or. apply hex_pairs_ok. bool_lia.
  - apply ok_with_guard. intros E. apply ok_with_ret. split; [done|bool_lia].
  - destruct Ho as (_ & _ & Hr & Hb).
    apply ok_with_bind with (fun a => forall bytes, a = Some (Some bytes) -> bytes_ok bytes).
    { split; [done|]. intros a Ha bytes ->. by apply Hb. }
    intros [[bytes|]|] Ha; try done. destruct (len bytes =? 16) eqn:E; [|done].
    apply ok_with_ret. split; [by apply Ha|lia].
Qed.

Lemma bytes_or_text_ok (value : object) message : object_ok value -> ok_with (bytes_or_text value message) (fun bytes => bytes_ok bytes).
Proof.
  intros Ho. destruct value as [| | | |[]| | | | | | | | | | | | | |]; try done; apply ok_with_ret; first [done|by apply Ho].
Qed.

(** A payload of the kind. *)
Definition payload_of (kind : Z) (payload : list Z) : Prop :=
  bytes_ok payload /\ exists v, valid v /\ encode v = (256 - kind) :: payload.

Lemma fixed_payload kind payload :
  fixed_kind kind = true -> bytes_ok payload -> len payload = width kind ->
  (kind = 1 -> booleans payload = true) -> payload_of kind payload.
Proof.
  intros Hk Hb Hl H1. split; [done|]. exists (VAtom kind payload). unfold valid. simpl. unfold fixed_kind in *.
  rewrite atom_wire by bool_lia. split; [split; [|done]|done]. rewrite Hl, Z.eqb_refl.
  destruct (Z.eqb_spec kind 1) as [->|]; [by rewrite H1|bool_lia].
Qed.

Lemma symbol_payload_of name : bytes_ok name -> contains_nul name = false -> payload_of 11 (name ++ [0]).
Proof.
  intros Hb Hn. split; [by apply Forall_app_2; [|apply Forall_singleton; unfold is_byte; lia]|].
  exists (VSymbol name). split; [|done]. split; [|done]. apply no_nul_spec. by apply contains_nul_free.
Qed.

Lemma atom_kinds kind :
  1 <= kind <= 19 -> kind <> 3 -> kind ∈ [1; 2; 4; 5; 6; 7; 8; 9; 10; 11; 12; 13; 14; 15; 16; 17; 18; 19].
Proof. intros. rewrite !elem_of_cons. lia. Qed.

Ltac each_kind Hk := repeat (apply elem_of_cons in Hk as [->|Hk]); [..|by apply elem_of_nil in Hk].

Ltac fixed :=
  apply ok_with_ret, fixed_payload;
  [done|first [apply to_le_bytes | by repeat constructor; unfold is_byte; lia]|by rewrite ?length_to_le|done].

Lemma null_payload kind : 1 <= kind <= 19 -> kind <> 3 -> ok_with (null_atom_payload kind) (payload_of kind).
Proof.
  intros Hk H3. pose proof (atom_kinds kind Hk H3) as Hkind.
  each_kind Hkind; cbn [null_atom_payload Z.eqb Pos.eqb orb between andb]; try fixed.
  by apply ok_with_ret, (symbol_payload_of []); [constructor|].
Qed.

(** A bound integer or float, and the payload it makes. *)
Lemma payload_from kind {A} (m : pyres A) (P : A -> Prop) (f : A -> list Z) :
  ok_with m P -> fixed_kind kind = true -> (forall a, P a -> bytes_ok (f a) /\ len (f a) = width kind) -> kind <> 1 ->
  ok_with (a ← m; Ok (f a)) (payload_of kind).
Proof.
  intros Hm Hk Hf H1. apply ok_with_bind with P; [done|]. intros a Ha. destruct (Hf a Ha).
  by apply ok_with_ret, fixed_payload.
Qed.

Ltac extracted lemma := eapply payload_from; [by apply lemma|done| |done]; intros;
  (split; [first [apply to_le_bytes | apply Forall_singleton; unfold is_byte; cbn beta in *; lia]|by rewrite ?length_to_le]).

Lemma kind_payload_ok kind (value : object) :
  1 <= kind <= 19 -> kind <> 3 -> object_ok value -> ok_with (kind_payload kind value) (payload_of kind).
Proof.
  intros Hk H3 Ho. pose proof (atom_kinds kind Hk H3) as Hkind.
  each_kind Hkind; cbn [kind_payload Z.eqb Pos.eqb orb between andb]; try extracted (extract_integer_ok);
    try extracted (extract_f64_ok).
  - destruct value; try done. destruct b; fixed.
  - eapply ok_with_weaken; [by apply parse_guid_bytes_ok|]. intros bytes [Hb Hl]. by apply fixed_payload.
  - eapply ok_with_bind; [by apply extract_f64_ok|]. intros number _. apply ok_with_guard. intros _. fixed.
  - eapply ok_with_bind; [by apply bytes_or_text_ok|]. intros bytes Hb. apply ok_with_guard. intros Hl.
    apply ok_with_ret, fixed_payload; [done|done|change (width 10) with 1; bool_lia|done].
  - eapply ok_with_bind; [by apply bytes_or_text_ok|]. intros bytes Hb. apply ok_with_guard. intros Hn.
    by apply ok_with_ret, symbol_payload_of.
Qed.

Lemma atom_payload_ok kind (value : object) :
  1 <= kind <= 19 -> kind <> 3 -> object_ok value -> ok_with (atom_payload kind value) (payload_of kind).
Proof.
  intros Hk H3 Ho. unfold atom_payload. destruct (is_none value); [by apply null_payload|].
  apply ok_with_guard. intros _. by apply kind_payload_ok.
Qed.

Lemma QValue_atom_Ok `{Allocator} kind payload :
  1 <= kind <= 19 -> kind <> 3 -> payload_of kind payload -> len payload + 1 <= isize_max ->
  try_reserve (len payload + 1) = true ->
  exists v, valid v /\ encode v = (256 - kind) :: payload /\ QValue_atom kind payload = Ok (qvalue_of v).
Proof.
  intros Hk H3 (Hb & v & Hv & He) Hl Hr. exists v. split_and!; [done|done|].
  apply (QValue_atom_correct kind payload (qvalue_of v)); [unfold is_byte; lia|done|done|]. by eauto 10.
Qed.

Lemma parse_atom_kind_returns (kind : object) : object_ok kind -> returns (parse_atom_kind kind).
Proof.
  intros Ho. assert (returns (extract_integer i64_min i64_max kind)) as Hi by (by apply extract_integer_ok).
  unfold parse_atom_kind. apply returns_bind; [|intros parsed _; by destruct (negb (between 1 parsed 19) || (parsed =? 3))].
  destruct kind as [| | | |[text| | |]| | | | | | | | | | | | | |]; try done;
    try (destruct (extract_integer _ _ _); try done; by case_match).
  by destruct (find _ _) as [[]|].
Qed.

(** C27: [XqdbQValue.atom] never panics; a kind that is accepted is the code of a q atom, and an
    object that gives a payload for it makes, if there is memory, the valid q value of exactly
    that atom: the negated kind and the payload. *)
Theorem atom_accepted `{Allocator} (kind value : object) :
  object_ok kind -> object_ok value ->
  returns (parse_atom_kind kind)
  /\ forall code, parse_atom_kind kind = Ok code ->
     returns (atom_payload code value)
     /\ (forall e, atom_payload code value = Err e -> XqdbQValue_atom kind value = Err e)
     /\ forall payload, atom_payload code value = Ok payload -> len payload + 1 <= isize_max ->
        returns (XqdbQValue_atom kind value)
        /\ (try_reserve (len payload + 1) = true ->
            exists v, valid v /\ encode v = (256 - code) :: payload /\ XqdbQValue_atom kind value = Ok (qvalue_of v)).
Proof.
  intros Hkind Ho. split; [by apply parse_atom_kind_returns|]. intros code Hcode.
  destruct (parse_atom_kind_range kind code Hcode) as [Hk H3].
  destruct (atom_payload_ok code value Hk H3 Ho) as [Hr Hp]. unfold XqdbQValue_atom. rewrite Hcode. simpl.
  split_and!; [done|by intros e ->|]. intros payload Hpayload Hl. rewrite Hpayload. simpl. split.
  - destruct (Hp _ Hpayload) as [Hb _].
    destruct (QValue_atom_correct code payload (qvalue_of (VAtom 1 [])) ltac:(unfold is_byte; lia) Hb Hl) as [Hq _].
    by destruct (QValue_atom code payload).
  - intros Hres. destruct (QValue_atom_Ok code payload Hk H3 (Hp _ Hpayload) Hl Hres) as (v & Hv & He & Hq).
    exists v. split_and!; [done|done|]. by rewrite Hq.
Qed.
End Atoms.

(** ** Results are accepted as arguments *)

(** A date, a time, a difference or a datetime that Python builds is read as it was meant;
    what is built has no time zone and no [nanosecond]. *)
Class PyTypesLaws `{PyTypes} : Prop := {
  date_built d o : new_date (year d) (month d) (day d) = Ok o -> extract_date o = Ok d;
  time_built t h m s us o :
    new_time h m s us = Ok o -> num_seconds_from_midnight t = h * 3600 + m * 60 + s -> nanosecond t = us * 1000 ->
    0 <= m < 60 -> 0 <= s < 60 -> extract_time o = Ok t;
  delta_built d days s us o :
    new_delta days s us = Ok o -> num_nanoseconds d = Some (((days * 86400 + s) * 1000000 + us) * 1000) ->
    0 <= s < 86400 -> 0 <= us < 1000000 -> extract_delta o = Ok d;
  datetime_built t n h m s us o :
    new_datetime (year (date_of t)) (month (date_of t)) (day (date_of t)) h m s us = Ok o ->
    timestamp_nanos_opt t = Some n -> num_seconds_from_midnight (time_of t) = h * 3600 + m * 60 + s ->
    nanosecond (time_of t) = us * 1000 -> 0 <= m < 60 -> 0 <= s < 60 ->
    tz_utcoffset o = None /\ nanosecond_attribute o = Ok None /\ extract_naive o = Ok t
}.

Section Roundtrip.
  Context `{Allocator} `{PyTypes} {Series DataFrame : Type} `{!ArrowImport Series DataFrame}.

Abbreviation kval := (K Series DataFrame).
Abbreviation heap := (list (PyObject Series DataFrame)).

(** What a value becomes in Python and back: integers longs, reals floats of double
    precision; GUIDs, characters, strings and the char vectors that are UTF-8 symbols of
    their text; lists and dictionaries those of what their values become; and every
    other value itself. *)
Fixpoint py_image (k : kval) : kval :=
  match k with
  | KGuid g => KSymbol (guid_text g)
  | KU8 v | KI16 v | KI32 v => KI64 v
  | KF32 bits => KF64 (number_of_f32 bits)
  | KChar v => KSymbol (char_text v)
  | KCharVector bytes => if is_utf8 bytes then KSymbol bytes else KCharVector bytes
  | KString text => KSymbol text
  | KMixedList values => KMixedList (map py_image values)
  | KDict entries => KDict (map (fun e => (e.1, py_image e.2)) entries)
  | k => k
  end.

(** The values both conversions accept: no series and tables (they cross as Arrow
    objects), integers of their width, times in whole milliseconds, timestamps q can
    write, and dictionaries of distinct keys, as the code builds them. *)
Definition py_leaf (k : kval) : Prop :=
  match k with
  | KU8 v | KI16 v | KI32 v | KI64 v => i64_min <= v <= i64_max
  | KTime t => nanosecond t mod 1000000 = 0
  | KDateTime t => exists n, timestamp_nanos_opt t = Some n /\ MIN_Q_TIMESTAMP_UNIX_NANOS <= n
  | KSeries _ | KDataFrame _ => False
  | _ => True
  end.

Fixpoint py_plain (k : kval) : Prop :=
  match k with
  | KMixedList values => foldr (fun v rest => py_plain v /\ rest) True values
  | KDict entries => NoDup (map fst entries) /\ foldr (fun e rest => py_plain e.2 /\ rest) True entries
  | k => py_leaf k
  end.

Context `{!PyTypesLaws}.

Lemma clock_parts seconds :
  seconds = seconds / 3600 * 3600 + seconds / 60 mod 60 * 60 + seconds mod 60.
Proof.
  pose proof (Z.div_div seconds 60 60 ltac:(lia) ltac:(lia)) as Hd. change (60 * 60) with 3600 in Hd.
  pose proof (Z.div_mod seconds 60 ltac:(lia)). pose proof (Z.div_mod (seconds / 60) 60 ltac:(lia)). lia.
Qed.

Lemma whole_micros n : n mod 1000 = 0 -> n = n / 1000 * 1000.
Proof. pose proof (Z.div_mod n 1000 ltac:(lia)). lia. Qed.

(** An object that is no container. *)
Definition simple_object (o : PyObject Series DataFrame) : Prop :=
  match o with PyDict _ | PyList _ | PyTuple _ => False | _ => True end.

Lemma micros_Ok n name us : python_microseconds n name = Ok us -> n mod 1000 = 0 /\ us = n / 1000.
Proof.
  unfold python_microseconds. intros [Hm Hus]%if_Err_Ok. injection Hus as <-. split; [bool_lia|done].
Qed.

Lemma date_parts_Ok d parts : python_date_parts d = Ok parts -> parts = (year d, month d, day d).
Proof. unfold python_date_parts. intros [_ Hd]%if_Err_Ok. by injection Hd as <-. Qed.

Lemma py_datetime_back t o n :
  timestamp_nanos_opt t = Some n -> MIN_Q_TIMESTAMP_UNIX_NANOS <= n -> leaf_to_py (KDateTime t) = Ok o ->
  simple_object o /\ object_to_k o = Ok (KDateTime t).
Proof.
  intros Hn Hmin Hc. cbn [leaf_to_py] in Hc. apply bind_Ok in Hc as (parts & Hd & Hc).
  apply date_parts_Ok in Hd as ->. apply bind_Ok in Hc as (us & [Hus ->]%micros_Ok & Hc).
  apply bind_Ok in Hc as (built & Hb & Hc). injection Hc as <-. split; [done|].
  edestruct datetime_built as (Htz & Hnano & Hx);
    [exact Hb|exact Hn|apply clock_parts|by apply whole_micros|apply Z.mod_pos_bound; lia..|].
  cbn [object_to_k]. unfold datetime_to_k. rewrite Htz, Hx. cbn [mbind outcome_bind]. rewrite Hnano.
  cbn [mbind outcome_bind]. rewrite Hn. cbn [ok_or mbind outcome_bind].
  by destruct (Z.ltb_spec n MIN_Q_TIMESTAMP_UNIX_NANOS); [lia|].
Qed.

Lemma py_date_back d o :
  leaf_to_py (KDate d) = Ok o -> simple_object o /\ object_to_k o = Ok (KDate d).
Proof.
  intros Hc. cbn [leaf_to_py] in Hc. apply bind_Ok in Hc as (parts & ->%date_parts_Ok & Hc).
  apply bind_Ok in Hc as (built & Hb & Hc). injection Hc as <-. split; [done|].
  cbn [object_to_k]. by rewrite (date_built d).
Qed.

Lemma py_time_back t o :
  nanosecond t mod 1000000 = 0 -> leaf_to_py (KTime t) = Ok o ->
  simple_object o /\ object_to_k o = Ok (KTime t).
Proof.
  intros Hm Hc. cbn [leaf_to_py] in Hc. apply bind_Ok in Hc as (us & [Hus ->]%micros_Ok & Hc).
  apply bind_Ok in Hc as (built & Hb & Hc). injection Hc as <-. split; [done|].
  cbn [object_to_k]. erewrite (time_built t);
    [|exact Hb|apply clock_parts|by apply whole_micros|apply Z.mod_pos_bound; lia..].
  cbn [mbind outcome_bind]. by rewrite Hm.
Qed.

Lemma py_duration_back d o :
  leaf_to_py (KDuration d) = Ok o -> simple_object o /\ object_to_k o = Ok (KDuration d).
Proof.
  intros Hc. cbn [leaf_to_py] in Hc. unfold duration_to_py in Hc.
  apply bind_Ok in Hc as (n & Hn%ok_or_Ok & [Hm Hc]%if_Err_Ok).
  apply bind_Ok in Hc as (days & Hd%ok_or_Ok & Hc). apply bind_Ok in Hc as (built & Hb & Hc). injection Hc as <-.
  split; [done|]. cbn [object_to_k]. erewrite (delta_built d); [|exact Hb| | |].
  - cbn [mbind outcome_bind]. by rewrite Hn.
  - apply try_i32_Some in Hd as [-> _]. rewrite Hn. f_equal. apply negb_false_iff, Z.eqb_eq in Hm.
    unfold MICROSECONDS_PER_DAY, MICROSECONDS_PER_SECOND in *. clear -Hm.
    pose proof (Z.div_mod n 1000 ltac:(lia)). set (us := n / 1000) in *. clearbody us.
    pose proof (Z.div_mod us (86400 * 1000000) ltac:(lia)).
    pose proof (Z.div_mod (us mod (86400 * 1000000)) 1000000 ltac:(lia)). lia.
  - unfold MICROSECONDS_PER_DAY, MICROSECONDS_PER_SECOND. pose proof (Z.mod_pos_bound (n / 1000) (86400 * 1000000) ltac:(lia)).
    split; [apply Z.div_pos; lia|apply Z.div_lt_upper_bound; lia].
  - apply Z.mod_pos_bound. unfold MICROSECONDS_PER_SECOND. lia.
Qed.

Lemma py_leaf_back k o :
  leaf k -> py_plain k -> leaf_to_py k = Ok o -> simple_object o /\ object_to_k o = Ok (py_image k).
Proof.
  intros Hleaf Hp Hc. destruct k; try done; cbn [py_image py_plain py_leaf] in *;
    try (injection Hc as <-; done); eauto using py_date_back, py_time_back, py_duration_back.
  all: try (injection Hc as <-; split; [done|]; cbn [object_to_k extract_integer mbind outcome_bind];
            destruct (between i64_min v i64_max) eqn:E; [done|bool_lia]).
  - injection Hc as <-. by destruct (is_utf8 bytes).
  - destruct Hp as (n & Hn & Hmin). by eapply py_datetime_back.
Qed.

(** ** The places of a result

    A conversion only adds objects; what it adds is at the places from the length of the
    heap before it, and is read the same in every later heap that keeps those places. *)

Definition keeps (lo hi : nat) (h h' : heap) : Prop := forall i, (lo <= i < hi)%nat -> h' !! i = h !! i.
Definition outside (lo hi : nat) (active : list nat) : Prop := Forall (fun a => ~ (lo <= a < hi)%nat) active.

Lemma keeps_part lo hi lo' hi' h h' :
  keeps lo hi h h' -> (lo <= lo')%nat -> (hi' <= hi)%nat -> keeps lo' hi' h h'.
Proof. intros Hk ? ? i Hi. apply Hk. lia. Qed.

Lemma keeps_trans lo hi h h1 h2 : keeps lo hi h h1 -> keeps lo hi h1 h2 -> keeps lo hi h h2.
Proof. intros H12 H23 i Hi. by rewrite H23, H12. Qed.

Lemma outside_part lo hi lo' hi' active :
  outside lo hi active -> (lo <= lo')%nat -> (hi' <= hi)%nat -> outside lo' hi' active.
Proof. intros Ho ? ?. eapply Forall_impl; [exact Ho|]. cbn. lia. Qed.

Lemma keeps_snoc h o : keeps 0 (length h) h (h ++ [o]).
Proof. intros i Hi. by rewrite lookup_app_l by lia. Qed.

Lemma length_new h (o : PyObject Series DataFrame) : length (h ++ [o]) = S (length h).
Proof. rewrite length_app. simpl. lia. Qed.

(** What converting [k] to the object [r] means for reading [r] again. *)
Definition reads_back (depth : Z) (k : kval) (h : heap) (r : nat) (h' : heap) : Prop :=
  (length h <= r < length h')%nat /\ keeps 0 (length h) h h'
  /\ forall h2 fuel active, keeps (length h) (length h') h' h2 -> outside (length h) (length h') active ->
     66 <= depth + Z.of_nat fuel -> cast_to_k_inner fuel h2 r depth active = Ok (py_image k).

Definition converts (k : kval) : Prop :=
  py_plain k -> forall depth h r h', cast_k_to_py_inner k depth h = Ok (r, h') -> reads_back depth k h r h'.

Lemma deref_kept lo hi h h' r : keeps lo hi h h' -> (lo <= r < hi)%nat -> deref h' r = deref h r.
Proof. intros Hk Hr. unfold deref. by rewrite (Hk r Hr). Qed.

Lemma deref_new h (o : PyObject Series DataFrame) : deref (h ++ [o]) (length h) = o.
Proof. unfold deref. by rewrite lookup_app_r, Nat.sub_diag. Qed.

Lemma converts_leaf k : leaf k -> converts k.
Proof.
  intros Hl Hp depth h r h' Hc.
  assert (MAX_CONVERSION_DEPTH <? depth = false
          /\ exists o, leaf_to_py k = Ok o /\ (r, h') = new_object o h) as (Hd & o & Ho & Hn).
  { destruct k; try done; cbn [cast_k_to_py_inner] in Hc; apply if_Err_Ok in Hc as [Hd Hc]; (split; [done|]);
      apply bind_Ok in Hc as (object & Ho & Hc); injection Hc as <- <-; by exists object. }
  injection Hn as -> ->. destruct (py_leaf_back k o Hl Hp Ho) as [Hs Hback]. unfold reads_back. rewrite length_new.
  split; [lia|]. split; [apply keeps_snoc|]. intros h2 fuel active Hk _ Hfuel.
  unfold MAX_CONVERSION_DEPTH in Hd. destruct fuel as [|fuel]; [lia|]. cbn [cast_to_k_inner].
  unfold MAX_CONVERSION_DEPTH. rewrite Hd. rewrite (deref_kept _ _ _ _ _ Hk) by lia.
  rewrite deref_new. by destruct o.
Qed.

Lemma each_item_back depth values :
  Forall converts values -> Forall py_plain values -> forall h refs h',
  each_item (fun value h => cast_k_to_py_inner value depth h) values h = Ok (refs, h') ->
  (length h <= length h')%nat /\ keeps 0 (length h) h h'
  /\ forall h2 fuel active, keeps (length h) (length h') h' h2 -> outside (length h) (length h') active ->
     66 <= depth + Z.of_nat fuel ->
     each_value (fun r => cast_to_k_inner fuel h2 r depth active) refs = Ok (map py_image values).
Proof.
  intros Hconv Hplain. induction Hconv as [|k values Hk _ IH]; intros h refs h' Hc; cbn [each_item] in Hc.
  { injection Hc as <- <-. split; [lia|]. by split. }
  apply Forall_cons in Hplain as [Hp Hplain]. apply bind_Ok in Hc as ([r h1] & Hfirst & Hc).
  apply bind_Ok in Hc as ([refs' h2] & Hrest & Hc). injection Hc as <- <-.
  destruct (Hk Hp _ _ _ _ Hfirst) as (Hr & Hkeep & Hread). destruct (IH Hplain _ _ _ Hrest) as (Hl & Hkeep' & Hreads).
  split; [lia|]. split.
  { eapply keeps_trans; [exact Hkeep|]. eapply keeps_part; [exact Hkeep'|lia..]. }
  intros h3 fuel active Hh3 Hout Hfuel. cbn [each_value map]. rewrite Hread; [|..|done].
  - cbn [mbind outcome_bind]. rewrite Hreads; [done|..|done].
    + eapply keeps_part; [exact Hh3|lia..].
    + eapply outside_part; [exact Hout|lia..].
  - eapply keeps_trans; [eapply keeps_part; [exact Hkeep'|lia..]|eapply keeps_part; [exact Hh3|lia..]].
  - eapply outside_part; [exact Hout|lia..].
Qed.

Lemma set_item_new key refs done :
  key ∉ map fst done -> set_item key refs done = done ++ [(key, refs)].
Proof.
  intros Hkey. assert (find (fun e : list Z * (nat * nat) => bool_decide (e.1 = key)) done = None
                       /\ map_insert key refs done = done ++ [(key, refs)]) as [Hf Hi].
  { induction done as [|[known old] done IH]; [done|]. cbn [map fst] in Hkey. apply not_elem_of_cons in Hkey as [? Hkey].
    destruct (IH Hkey) as [Hf Hi]. cbn [find map_insert fst app]. rewrite bool_decide_false by done. by rewrite Hi. }
  unfold set_item. by rewrite Hf.
Qed.

Lemma map_insert_new {A} key (a : A) entries :
  key ∉ map fst entries -> map_insert key a entries = entries ++ [(key, a)].
Proof.
  induction entries as [|[known old] entries IH]; intros Hkey; [done|]. cbn [map fst] in Hkey.
  apply not_elem_of_cons in Hkey as [? Hkey]. cbn [map_insert app]. rewrite bool_decide_false by done. by rewrite IH.
Qed.

Lemma each_pair_back depth entries :
  Forall (fun e => converts e.2) entries -> Forall (fun e => py_plain e.2) entries -> forall placed h placed' h',
  NoDup (map fst placed ++ map fst entries) ->
  each_pair (fun value h => cast_k_to_py_inner value depth h) entries placed h = Ok (placed', h') ->
  (length h <= length h')%nat /\ keeps 0 (length h) h h'
  /\ exists more, placed' = placed ++ more
  /\ forall h2 fuel active dict, keeps (length h) (length h') h' h2 -> outside (length h) (length h') active ->
     66 <= depth + Z.of_nat fuel -> NoDup (map fst dict ++ map fst entries) ->
     each_entry (fun r => cast_to_k_inner fuel h2 r depth active) h2 (map snd more) dict
     = Ok (dict ++ map (fun e => (e.1, py_image e.2)) entries).
Proof.
  intros Hconv Hplain. induction Hconv as [|[key k] entries Hk _ IH]; intros placed h placed' h' Hnd Hc; cbn [each_pair] in Hc.
  { injection Hc as <- <-. split; [lia|]. split; [done|]. exists []. split; [by rewrite app_nil_r|].
    intros. cbn [map each_entry]. by rewrite app_nil_r. }
  apply Forall_cons in Hplain as [Hp Hplain]. cbn [fst snd map] in *.
  apply bind_Ok in Hc as ([r h1] & Hfirst & Hc). cbn [new_object] in Hc.
  assert (forall l : list (list Z), NoDup (l ++ key :: map fst entries) ->
    key ∉ l /\ NoDup ((l ++ [key]) ++ map fst entries)) as Hsplit.
  { intros l Hl. rewrite <- app_assoc. split; [|done]. apply NoDup_app in Hl as (_ & Hl & _).
    intros Hin. apply (Hl key Hin). by left. }
  destruct (Hsplit _ Hnd) as [Hkey Hnd']. rewrite set_item_new in Hc by done.
  destruct (Hk Hp _ _ _ _ Hfirst) as (Hr & Hkeep & Hread).
  destruct (IH Hplain (placed ++ [(key, (length h1, r))]) _ _ _ ltac:(by rewrite map_app) Hc) as (Hl & Hkeep' & more & -> & Hreads).
  rewrite length_new in Hl, Hkeep', Hreads.
  assert (keeps 0 (length h1) h1 h') as Hkeep1.
  { eapply keeps_trans; [apply keeps_snoc|]. eapply keeps_part; [exact Hkeep'|lia..]. }
  split; [lia|]. split.
  { eapply keeps_trans; [exact Hkeep|]. eapply keeps_part; [exact Hkeep1|lia..]. }
  exists ((key, (length h1, r)) :: more). split; [by rewrite <- app_assoc|].
  intros h3 fuel active dict Hh3 Hout Hfuel Hdict. destruct (Hsplit _ Hdict) as [Hnew Hdict'].
  cbn [map snd each_entry].
  rewrite (deref_kept _ _ _ _ _ Hh3), (deref_kept _ _ _ _ _ Hkeep'), deref_new by lia.
  cbn [extract_str mbind outcome_bind]. rewrite Hread; [|..|done].
  - cbn [mbind outcome_bind]. rewrite map_insert_new by done. rewrite Hreads; [by rewrite <- app_assoc|..|done|by rewrite map_app].
    + eapply keeps_part; [exact Hh3|lia..].
    + eapply outside_part; [exact Hout|lia..].
  - eapply keeps_trans; [eapply keeps_part; [exact Hkeep1|lia..]|eapply keeps_part; [exact Hh3|lia..]].
  - eapply outside_part; [exact Hout|lia..].
Qed.

Lemma enter_outside active r lo hi : outside lo hi active -> (lo <= r < hi)%nat -> enter active r = Ok tt.
Proof.
  intros Hout Hr. unfold enter. rewrite bool_decide_false; [done|]. intros Hin. unfold outside in Hout.
  rewrite Forall_forall in Hout. by apply (Hout r).
Qed.

Lemma outside_cons r lo hi lo' hi' active :
  outside lo hi active -> (lo <= lo')%nat -> (hi' <= hi)%nat -> ~ (lo' <= r < hi')%nat -> outside lo' hi' (r :: active).
Proof. intros Ho ? ? ?. constructor; [done|by eapply outside_part]. Qed.

Lemma converts_list values : Forall converts values -> converts (KMixedList values).
Proof.
  intros Hconv Hp depth h r h' Hc. cbn [cast_k_to_py_inner] in Hc. apply if_Err_Ok in Hc as [Hd Hc].
  apply bind_Ok in Hc as (_ & _ & Hc). apply bind_Ok in Hc as ([refs h1] & Hitems & Hc). injection Hc as <- <-.
  cbn [py_plain] in Hp. rewrite foldr_Forall in Hp.
  destruct (each_item_back _ _ Hconv Hp _ _ _ Hitems) as (Hl & Hkeep & Hread).
  unfold reads_back. rewrite length_new. split; [lia|]. split.
  { eapply keeps_trans; [exact Hkeep|]. eapply keeps_part; [apply keeps_snoc|lia..]. }
  intros h2 fuel active Hh2 Hout Hfuel. unfold MAX_CONVERSION_DEPTH in Hd. destruct fuel as [|fuel]; [lia|].
  cbn [cast_to_k_inner]. unfold MAX_CONVERSION_DEPTH. rewrite Hd. cbn [py_image].
  rewrite (deref_kept _ _ _ _ _ Hh2), deref_new by lia. rewrite (enter_outside _ _ _ _ Hout) by lia.
  cbn [mbind outcome_bind]. rewrite Hread; [done|..|lia].
  - eapply keeps_trans; [eapply keeps_part; [apply keeps_snoc|lia..]|eapply keeps_part; [exact Hh2|lia..]].
  - eapply outside_cons; [exact Hout|lia..].
Qed.

Lemma keeps_insert lo hi h r (o : PyObject Series DataFrame) : ~ (lo <= r < hi)%nat -> keeps lo hi h (<[r := o]> h).
Proof. intros Hr i Hi. rewrite list_lookup_insert_ne; [done|]. intros ->. lia. Qed.

Lemma converts_dict entries : Forall (fun e => converts e.2) entries -> converts (KDict entries).
Proof.
  intros Hconv [Hnd Hp] depth h r h' Hc. cbn [cast_k_to_py_inner new_object] in Hc. apply if_Err_Ok in Hc as [Hd Hc].
  apply bind_Ok in Hc as ([placed h1] & Hpairs & Hc). injection Hc as <- <-.
  rewrite (foldr_Forall (fun e => py_plain e.2)) in Hp.
  destruct (each_pair_back _ _ Hconv Hp [] _ _ _ Hnd Hpairs) as (Hl & Hkeep & more & -> & Hread).
  rewrite length_new in Hl, Hkeep, Hread. unfold reads_back. rewrite length_insert. split; [lia|].
  assert (keeps 0 (length h) h h1) as Hkeep'.
  { eapply keeps_trans; [apply keeps_snoc|]. eapply keeps_part; [exact Hkeep|lia..]. }
  split; [eapply keeps_trans; [exact Hkeep'|apply keeps_insert; lia]|].
  intros h2 fuel active Hh2 Hout Hfuel. unfold MAX_CONVERSION_DEPTH in Hd. destruct fuel as [|fuel]; [lia|].
  cbn [cast_to_k_inner]. unfold MAX_CONVERSION_DEPTH. rewrite Hd. cbn [py_image app].
  rewrite (deref_kept _ _ _ _ _ Hh2) by lia. unfold deref at 1. rewrite list_lookup_insert_eq by lia.
  cbn [default from_option id]. rewrite (enter_outside _ _ _ _ Hout) by lia. cbn [mbind outcome_bind].
  rewrite Hread; [done|..|lia|done].
  - eapply keeps_trans; [apply (keeps_insert _ _ _ (length h)); lia|eapply keeps_part; [exact Hh2|lia..]].
  - eapply outside_cons; [exact Hout|lia..].
Qed.

Lemma converts_all k : converts k.
Proof.
  induction k using K_nested_ind; [by apply converts_leaf|by apply converts_list|by apply converts_dict].
Qed.

(** C17: what [cast_k_to_py] makes of a value it accepts, [cast_to_k] accepts as an argument, and
    gives back as its [py_image], at every depth: integers as longs; reals as floats; GUIDs,
    characters, strings and UTF-8 char vectors as symbols; booleans, longs, floats, symbols,
    dates, times, timestamps, durations, other char vectors, operators, lambdas, opaque
    values and null unchanged.  The values are those [py_plain] admits: no series and
    tables, whole-millisecond times, timestamps from q's least on, and dictionaries of
    distinct keys. *)
Theorem py_roundtrip (k : kval) (h : heap) (r : nat) (h' : heap) :
  py_plain k -> cast_k_to_py k h = Ok (r, h') -> cast_to_k h' r = Ok (py_image k).
Proof.
  intros Hp Hc. destruct (converts_all k Hp _ _ _ _ Hc) as (_ & _ & Hread).
  apply Hread; [done|constructor|unfold python_levels; lia].
Qed.
End Roundtrip.

(** ** Arguments end *)

(** What the interpreter is asked about one object is answered. *)
Class PyTypesReturns `{PyTypes} : Prop := {
  date_returns d : returns (extract_date d);
  time_returns t : returns (extract_time t);
  delta_returns d : returns (extract_delta d);
  naive_returns d : returns (extract_naive d);
  offset_returns d offset : tz_utcoffset d = Some offset -> returns offset;
  replaced_returns d : returns (extract_replaced d);
  utc_returns d : returns (extract_utc d);
  attribute_returns d : returns (nanosecond_attribute d);
  remainder_returns d remainder : nanosecond_attribute d = Ok (Some remainder) -> returns remainder
}.

Section Ends.
  Context `{PyTypes} {Series DataFrame : Type} `{!ArrowImport Series DataFrame}.

Abbreviation kval := (K Series DataFrame).
Abbreviation object := (PyObject Series DataFrame).
Abbreviation heap := (list (PyObject Series DataFrame)).

(** The object at [s] is a value of the container at [r]. *)
Definition contains (h : heap) (r s : nat) : Prop :=
  match deref h r with
  | PyDict entries => s ∈ map snd entries
  | PyList values | PyTuple values => s ∈ values
  | _ => False
  end.

Definition object_ends (o : object) : Prop :=
  match o with
  | PyString text => returns text
  | PyArrowTable df => returns (import_table df)
  | PyArrowSeries s => returns (import_series s)
  | PyOther f => returns (foreign_stream f) /\ forall m, foreign_stream f = Ok (Some m) -> returns m
  | _ => True
  end.

Lemma each_value_Ok (cast : nat -> pyres kval) refs values :
  each_value cast refs = Ok values -> forall s, s ∈ refs -> exists v, cast s = Ok v.
Proof.
  revert values. induction refs as [|r refs IH]; intros values Hv s Hs; [by apply not_elem_of_nil in Hs|].
  cbn [each_value] in Hv. apply bind_Ok in Hv as (v & Hr & Hv). apply bind_Ok in Hv as (rest & Hrest & _).
  apply elem_of_cons in Hs as [->|Hs]; [by exists v|by eapply IH].
Qed.

Lemma each_entry_Ok (cast : nat -> pyres kval) h entries : forall dict dict',
  each_entry cast h entries dict = Ok dict' -> forall s, s ∈ map snd entries -> exists v, cast s = Ok v.
Proof.
  induction entries as [|[key r] entries IH]; intros dict dict' Hv s Hs; [by apply not_elem_of_nil in Hs|].
  cbn [each_entry] in Hv. apply bind_Ok in Hv as (name & _ & Hv). apply bind_Ok in Hv as (v & Hr & Hrest).
  apply elem_of_cons in Hs as [->|Hs]; [by exists v|by eapply IH].
Qed.

(** Every value of a container that is accepted was accepted a level deeper. *)
Lemma cast_Ok_step h fuel r depth active k :
  cast_to_k_inner (S fuel) h r depth active = Ok k ->
  depth <= 64 /\ forall s, contains h r s -> exists v, cast_to_k_inner fuel h s (depth + 1) (r :: active) = Ok v.
Proof.
  cbn [cast_to_k_inner]. unfold MAX_CONVERSION_DEPTH. intros [Hd Hk]%if_Err_Ok. split; [lia|]. intros s Hs.
  unfold contains in Hs. destruct (deref h r); try (exfalso; exact Hs);
    apply bind_Ok in Hk as (_ & _ & Hk); apply bind_Ok in Hk as (parts & Hparts & _).
  - by eapply each_entry_Ok in Hparts.
  - by eapply each_value_Ok in Hparts.
  - by eapply each_value_Ok in Hparts.
Qed.

Lemma cast_Ok_Acc h fuel : forall r depth active k,
  cast_to_k_inner fuel h r depth active = Ok k -> Acc (flip (contains h)) r.
Proof.
  induction fuel as [|fuel IH]; intros r depth active k Hk; [done|]. apply cast_Ok_step in Hk as [_ Hk].
  constructor. intros s Hs. destruct (Hk s Hs) as [v Hv]. by eapply IH.
Qed.

Lemma cast_Ok_nested h n r s : nsteps (contains h) n r s -> forall fuel depth active k,
  cast_to_k_inner fuel h r depth active = Ok k -> depth + Z.of_nat n <= 64.
Proof.
  induction 1 as [r|n r c s Hc _ IH]; intros [|fuel] depth active k Hk; try done;
    apply cast_Ok_step in Hk as [Hd Hk]; [lia|]. destruct (Hk c Hc) as [v Hv]. apply IH in Hv. lia.
Qed.

Lemma Acc_rtc {A} (R : A -> A -> Prop) a b : Acc (flip R) a -> rtc R a b -> Acc (flip R) b.
Proof. intros Ha Hab. induction Hab as [|a c b Hac _ IH]; [done|]. apply IH. by apply (Acc_inv Ha). Qed.

Lemma Acc_acyclic {A} (R : A -> A -> Prop) a : Acc (flip R) a -> ~ tc R a a.
Proof.
  induction 1 as [a Ha IH]. intros Hloop.
  assert (exists c, R a c /\ tc R c c) as (c & Hac & Hc).
  { inversion Hloop as [? ? Haa|? c ? Hac Hca]; subst; [by exists a|].
    exists c. split; [done|]. by eapply tc_r. }
  by apply (IH c).
Qed.

Context `{!PyTypesReturns}.

Lemma datetime_returns d : returns (datetime_to_k d : pyres kval).
Proof.
  unfold datetime_to_k. apply returns_bind.
  { destruct (tz_utcoffset d) as [offset|] eqn:Ho; [|apply naive_returns].
    apply returns_bind; [by eapply offset_returns|]. intros [] _; [apply replaced_returns|apply utc_returns]. }
  intros value _. apply returns_bind; [apply attribute_returns|]. intros attribute Ha. apply returns_bind.
  { destruct attribute as [remainder|]; [|done]. apply returns_bind; [by eapply remainder_returns|].
    intros z _. destruct (negb _); [done|]. apply returns_ok_or. }
  intros t _. apply returns_bind; [apply returns_ok_or|]. intros n _. by destruct (n <? _).
Qed.

Lemma object_returns (o : object) : object_ends o -> simple_object o -> returns (object_to_k o).
Proof.
  intros Ho Hs. destruct o; try done; cbn [object_to_k object_ends] in *.
  - apply returns_bind; [|done]. cbn. by destruct (between _ _ _).
  - by apply returns_bind.
  - by apply returns_bind.
  - by apply returns_bind.
  - apply datetime_returns.
  - apply returns_bind; [apply date_returns|done].
  - apply returns_bind; [apply time_returns|]. intros t' _. by destruct (negb _).
  - apply returns_bind; [apply delta_returns|]. intros d' _. apply returns_bind; [apply returns_ok_or|done].
  - destruct Ho as [Hr Hm]. apply returns_bind; [done|]. intros [imported|] Hi; [|done].
    by apply returns_bind; [apply Hm|].
Qed.

Lemma deref_ends h r : Forall object_ends h -> object_ends (deref h r).
Proof.
  intros Hh. unfold deref. destruct (h !! r) as [o|] eqn:E; [|done]. by apply (Forall_lookup_1 _ _ _ _ Hh E).
Qed.

Lemma each_value_returns (cast : nat -> pyres kval) refs :
  (forall r, returns (cast r)) -> returns (each_value cast refs).
Proof.
  intros Hc. induction refs as [|r refs IH]; [done|]. cbn [each_value]. apply returns_bind; [done|]. intros v _.
  by apply returns_bind.
Qed.

Lemma each_entry_returns (cast : nat -> pyres kval) h entries :
  Forall object_ends h -> (forall r, returns (cast r)) -> forall dict, returns (each_entry cast h entries dict).
Proof.
  intros Hh Hc. induction entries as [|[key r] entries IH]; intros dict; [done|]. cbn [each_entry].
  apply returns_bind; [|intros name _; by apply returns_bind].
  pose proof (deref_ends h key Hh) as Ho. by destruct (deref h key).
Qed.

Lemma enter_returns active r : returns (enter active r).
Proof. unfold enter. by destruct (bool_decide _). Qed.

Lemma cast_inner_returns h fuel :
  Forall object_ends h -> forall r depth active,
  depth <= 65 -> 66 <= depth + Z.of_nat fuel -> returns (cast_to_k_inner fuel h r depth active).
Proof.
  intros Hh. induction fuel as [|fuel IH]; intros r depth active Hd Hf; [lia|]. cbn [cast_to_k_inner].
  unfold MAX_CONVERSION_DEPTH. destruct (Z.ltb_spec 64 depth); [done|].
  assert (forall s, returns (cast_to_k_inner fuel h s (depth + 1) (r :: active))) as Hc by (intros s; apply IH; lia).
  pose proof (deref_ends h r Hh) as Ho. destruct (deref h r) eqn:E;
    try (by apply object_returns); (apply returns_bind; [apply enter_returns|intros _ _]);
    (apply returns_bind; [|done]); auto using each_value_returns, each_entry_returns.
Qed.

(** C19: converting an argument ends with a value or an error on every heap, however its
    containers share or contain each other; and what an argument that is accepted reaches is at
    most 64 levels below it and in no container that contains itself. *)
Theorem arguments_end (h : heap) (any : nat) :
  Forall object_ends h ->
  returns (cast_to_k h any)
  /\ forall k, cast_to_k h any = Ok k ->
     (forall n s, nsteps (contains h) n any s -> Z.of_nat n <= 64)
     /\ forall s, rtc (contains h) any s -> ~ tc (contains h) s s.
Proof.
  intros Hh. unfold cast_to_k. assert (66 <= 0 + Z.of_nat python_levels) as Hf by (by vm_compute).
  generalize dependent python_levels. intros levels Hf. split; [by apply cast_inner_returns|].
  intros k Hk. split.
  - intros n s Hs. by eapply cast_Ok_nested in Hk.
  - intros s Hs. apply Acc_acyclic. apply cast_Ok_Acc in Hk. by eapply Acc_rtc.
Qed.
End Ends.

(** ** A concrete Python

    Dates of a calendar whose months all have 31 days, and differences and datetimes as
    nanoseconds. *)

Lemma sample_first_day : sample_day 0.
Proof. by vm_compute. Qed.

Definition sample_date (z : Z) : dsig sample_day :=
  match as_dsig sample_day z with Some d => d | None => dexist 0 sample_first_day end.
Definition sample_date_number (y m d : Z) : Z := y * 372 + (m - 1) * 31 + (d - 1).
Definition sample_time_of (t : Z) : dsig sample_clock :=
  dexist (t / 1000000000 mod 86400, t mod 1000000000)
    (conj (Z.mod_pos_bound (t / 1000000000) 86400 eq_refl)
       (conj (proj1 (Z.mod_pos_bound t 1000000000 eq_refl))
          (Z.lt_trans _ _ 2000000000 (proj2 (Z.mod_pos_bound t 1000000000 eq_refl)) eq_refl))).
Definition sample_failure : PyErr := MkPyErr ValueError (Text "out of range").

#[export] Instance sample_python : @PyTypes sample_chrono := {|
  py_date := Z * Z * Z;
  py_time := Z * Z * Z * Z;
  py_delta := Z;
  py_datetime := Z;
  year d := proj1_sig d / 372;
  month d := proj1_sig d / 31 mod 12 + 1;
  day d := proj1_sig d mod 31 + 1;
  date_of t := sample_date (t / 1000000000 / 86400 + 719163);
  time_of := sample_time_of;
  checked_add_nanoseconds t n := i64_checked (t + n);
  new_date y m d := Ok (y, m, d);
  extract_date '(y, m, d) := ok_or (as_dsig sample_day (sample_date_number y m d)) sample_failure;
  new_time h m s us := Ok (h, m, s, us);
  extract_time '(h, m, s, us) := ok_or (as_dsig sample_clock (h * 3600 + m * 60 + s, us * 1000)) sample_failure;
  new_delta days s us := Ok (((days * 86400 + s) * 1000000 + us) * 1000);
  extract_delta d := Ok d;
  new_datetime y m d h mi s us :=
    Ok (((sample_date_number y m d - 719163) * 86400 + (h * 3600 + mi * 60 + s)) * 1000000000 + us * 1000);
  extract_naive t := Ok t;
  tz_utcoffset _ := None;
  extract_replaced t := Ok t;
  extract_utc t := Ok t;
  nanosecond_attribute _ := Ok None;
  guid_text g := g
|}.

#[export] Instance sample_import {Series DataFrame} : ArrowImport Series DataFrame := {|
  import_table df := Ok (ArrowDataFrame df);
  import_series s := Ok (ArrowSeries s)
|}.

Lemma sample_date_parts z : sample_date_number (z / 372) (z / 31 mod 12 + 1) (z mod 31 + 1) = z.
Proof.
  unfold sample_date_number. pose proof (Z.div_div z 31 12 ltac:(lia) ltac:(lia)) as Hd.
  change (31 * 12) with 372 in Hd. pose proof (Z.div_mod z 31 ltac:(lia)).
  pose proof (Z.div_mod (z / 31) 12 ltac:(lia)). lia.
Qed.

#[export] Instance sample_python_laws : PyTypesLaws.
Proof.
  split; cbn.
  - intros d o [= <-]. by rewrite sample_date_parts, as_dsig_Some.
  - intros t h m s us o [= <-] Hs Hn _ _. rewrite <- Hs, <- Hn, <- surjective_pairing.
    by rewrite (as_dsig_Some sample_clock t).
  - intros d days s us o [= <-] Hn _ _. unfold i64_checked in Hn. destruct (in_i64 d); [by injection Hn as ->|done].
  - intros t n h m s us o [= <-] Hn Hs Hns _ _. split_and!; [done|done|]. f_equal.
    unfold i64_checked in Hn. destruct (in_i64 t) eqn:Hi; [|done]. unfold in_i64 in Hi.
    assert (proj1_sig (sample_date (t / 1000000000 / 86400 + 719163)) = t / 1000000000 / 86400 + 719163) as Hd.
    { unfold sample_date, as_dsig. destruct (decide _) as [|Hout]; [done|]. destruct Hout. unfold sample_day.
      pose proof (Z.div_mod t 1000000000 ltac:(lia)). pose proof (Z.mod_pos_bound t 1000000000 ltac:(lia)).
      pose proof (Z.div_mod (t / 1000000000) 86400 ltac:(lia)).
      pose proof (Z.mod_pos_bound (t / 1000000000) 86400 ltac:(lia)). bool_lia. }
    rewrite Hd, sample_date_parts. cbn in Hs, Hns. rewrite <- Hs, <- Hns.
    pose proof (Z.div_mod t 1000000000 ltac:(lia)). pose proof (Z.div_mod (t / 1000000000) 86400 ltac:(lia)). lia.
Qed.

#[export] Instance sample_python_returns : PyTypesReturns.
Proof. split; cbn; try done; intros [[[]]]; intros; apply returns_ok_or. Qed.

(** ** The theorems at concrete objects *)

(** Evaluation that does not write down the normal forms, types included. *)
Ltac evaluates := match goal with |- _ = ?y => vm_cast_no_check (eq_refl y) end.

Definition sample_noon : NaiveTime := exist _ (43200, 5000000) I.
Definition sample_birthday : NaiveDate := exist _ 730120 I.

Definition sample_result : K SampleSeries (list SampleSeries) :=
  KDict [([97], KI16 7);
         ([98], KMixedList [KBoolean true; KF32 1069547520; KChar 233; KNull; KMixedList []]);
         ([99], KTime sample_noon);
         ([100], KDateTime 1700000000123456000);
         ([101], KDate sample_birthday);
         ([102], KDuration (-1500000));
         ([103], KCharVector [255])].

Lemma sample_result_plain : py_plain sample_result.
Proof.
  cbn [py_plain sample_result foldr map fst snd]. split.
  - apply (bool_decide_unpack _). by vm_compute.
  - split_and!; try exact I; cbn; try bool_lia; try done. exists 1700000000123456000. by vm_compute.
Qed.

Lemma py_roundtrip_witness :
  match @cast_k_to_py unlimited _ _ _ _ sample_result [] with
  | Ok (r, h) => cast_to_k h r = Ok (py_image sample_result)
  | _ => False
  end.
Proof.
  assert (is_ok (@cast_k_to_py unlimited _ _ _ _ sample_result []) = true) as Hok by evaluates.
  destruct (@cast_k_to_py unlimited _ _ _ _ sample_result []) as [[r h]| | |] eqn:E.
  { eapply py_roundtrip; [exact sample_result_plain|exact E]. }
  all: discriminate Hok.
Defined.

(** [{"a": (1, loop)}] where [loop] is a list that contains itself. *)
Definition sample_loop : list (PyObject SampleSeries (list SampleSeries)) :=
  [PyDict [(1, 2)%nat]; PyString (Ok [97]); PyTuple [3; 4]%nat; PyInt 1; PyList [3; 4]%nat].

Lemma loop_refused :
  cast_to_k sample_loop 0 = raise ValueError "cyclic Python containers cannot be converted to q"
  /\ cast_to_k sample_loop 3 = Ok (KI64 1).
Proof. split; evaluates. Qed.

Lemma arguments_end_witness : returns (cast_to_k sample_loop 0) /\ ~ tc (contains sample_loop) 3%nat 3%nat.
Proof.
  assert (Forall object_ends sample_loop) as Hs by repeat constructor. split.
  - apply (arguments_end sample_loop 0 Hs).
  - destruct (arguments_end sample_loop 3 Hs) as [_ Hok].
    destruct (Hok (KI64 1)) as [_ Hloop]; [evaluates|]. by apply Hloop.
Defined.

Lemma atom_accepted_witness :
  exists v, valid v /\ encode v = 250 :: i32_to_le (-2)
  /\ @XqdbQValue_atom unlimited _ _ SampleSeries (list SampleSeries) (PyString (Ok [105; 110; 116])) (PyInt (-2))
     = Ok (qvalue_of v).
Proof.
  destruct (@atom_accepted _ _ SampleSeries (list SampleSeries) unlimited (PyString (Ok [105; 110; 116])) (PyInt (-2)))
    as [_ Hok].
  - intros bytes [= <-]. repeat (apply Forall_cons; split; [unfold is_byte; lia|]). constructor.
  - exact I.
  - destruct (Hok 6) as (_ & _ & Hv); [by vm_compute|].
    destruct (Hv (i32_to_le (-2))) as [_ Hq]; [by vm_compute|by vm_compute|]. by apply Hq.
Defined.

(** A sign passes for a hexadecimal digit: sixteen times a plus and a digit is a GUID. *)
Definition sample_guid_text : list Z := concat (replicate 16 [43; 49]).

Lemma signed_guid :
  @parse_guid_bytes _ _ SampleSeries (list SampleSeries) (PyString (Ok sample_guid_text)) = Ok (replicate 16 1).
Proof. by vm_compute. Qed.
